(* ===== verification/_CoqProject ===== *)
-Q . S2P
Prelude.v
GoFloat.v
Params.v
Group.v
Rlp.v
RlpStream.v
Types.v
Account.v
State.v
StateRevert.v
StateFinalise.v
Trie.v
TrieKeys.v
TrieProps.v
TrieHash.v
TrieDecode.v
TrieMove.v
TrieCommit.v
TrieSpec.v
SecureTrie.v
StateTries.v
Heap.v
TxList.v
TxListProps.v
TxListRef.v
Receipt.v
DeriveSha.v
Funds.v
Evm.v
EvmProps.v
VmBase.v
VmAnalysis.v
VmMachine.v
Vm.v
VmSafe.v
VmLoop.v
VmStatic.v
Precompiles.v
Chain.v
ChainStore.v
HeaderChain.v
Dao.v
Staking.v
Transition.v
TransitionProps.v
VmFaults.v
ManagedState.v
TxPool.v
TxPoolBase.v
TxPoolSteps.v
TxPoolLimits.v
TxPoolPrices.v
TxPoolAdd.v
TxPoolReset.v
TxPoolProps.v
TxOrder.v
Selection.v
Bsrr.v
BsrrProps.v
BsrrStakers.v
BsrrRewards.v
BsrrBlocks.v
BlockChain.v
BlockChainLoad.v
BlockChainProps.v
ChainInvariant.v
ChainReach.v
ChainRewind.v
BlockInsert.v
ChainImport.v
ChainWitness.v
Worker.v
WorkerProps.v
WorkerWitness.v
