(* ===== verification/Prelude.v ===== *)
(** * Verification of the Berith chain client

    Berith is a fork of go-ethereum in which blocks are created by elected
    stakers: an account moves funds from its main balance to its stake with an
    ordinary transaction, the engine ("BSRR") elects the creators of a block
    from the stakers of an earlier block by drawing numbers weighted with
    selection points, and the rank of the creator decides difficulty and delay.

    A block is processed like this.  The engine verifies its header
    ([consensus/bsrr]); the processor applies its transactions
    ([core/state_processor.go], [core/state_transition.go]), each as a call or a
    creation of the virtual machine ([core/vm]); everything changes accounts
    through the journaled state database ([core/state]); [Finalize] checks that
    the creator was elected ([berith/selection] over the lists of
    [berith/staking]) and issues the reward.  Blocks, transactions and accounts
    are hashed and stored in their RLP encoding ([rlp], [core/types]).  Before
    they are in a block, transactions wait in the pool ([core/tx_pool.go]), from
    which the creator of a block takes them by price.  Around all this the chain
    ([core/blockchain.go]) imports blocks, stores them and decides which branch
    is the canonical one.

    ** Conventions

    A Go function that can fail returns a [result]: a value, an error text, a
    panic, or [Hang], the result of a loop whose fuel ran out.  Machine integers
    are integers of [Z] with their wrap-around written out, [*big.Int] are
    integers of [Z], byte slices lists of integers below 256, nil slices and
    pointers [None] where the source tells them apart.  Objects that the source
    shares by pointer are kept in the maps of the state that owns them, and
    written back by every operation.  Code that is not part of the repository,
    or that the sources only call (hash functions, curves, the random
    generator, the order of map iteration, 256-bit arithmetic), is a
    class with the behaviour the client relies on as laws; every theorem with
    such a law has a witness in which the class is a concrete function.

    ** Files

    - [Prelude]: results, integers, big-endian bytes, lemmas on lists.
      [GoFloat]: [float64] as the binary64 of the standard library with the
      rounding of Go's conversions ([math/big], [strconv] not needed).
    - [Params]: [params/config.go], forks, the check of compatible
      configurations.  [Group]: [common/group.go], the rank groups.
    - [Rlp], [RlpStream]: [rlp/encode.go], [rlp/decode.go], [rlp/raw.go]; the
      encoder with its list headers, the stream decoder with its stack of
      lists.
    - [Types]: headers, transactions, wallets and signers of [core/types].
      [Receipt]: receipts and bloom filters.  [DeriveSha]:
      [core/types/derive_sha.go], the roots of block bodies.  [Account]: the account of
      [core/state/state_object.go] with its encoding.
    - [State]: [core/state/statedb.go], [state_object.go], [journal.go]: one
      definition per method, the journal as a list of entries.
      [StateRevert]: what is observed of a state, and that reverting restores
      it.  [StateFinalise]: [Finalise], [IntermediateRoot], [Commit].
      [Funds]: what the operations do to the balances.
    - [Trie]: [trie/encoding.go], [node.go], [trie.go], [hasher.go] and the node
      store of [database.go].  [TrieKeys]: the encodings of keys.  [TrieProps]:
      what a trie stores.  [TrieHash]: hashes.  [TrieDecode], [TrieMove],
      [TrieCommit]: reading a node back, and what a commit does to the store.
      [TrieSpec]: the theorems.  [SecureTrie]: [trie/secure_trie.go] and the
      caching database of [core/state/database.go].  [StateTries]: they are a
      [Database] with the laws [StateFinalise] relies on.
    - [Evm]: [core/vm/evm.go] and the transfers of [core/evm.go].  [EvmProps]:
      calls and creation against the contract [InterpreterLaws].
    - [VmBase], [Vm]: the byte code interpreter, from words, stack and memory
      to the main loop.  [VmAnalysis]: jump destinations.  [VmMachine],
      [VmSafe], [VmLoop]: the interpreter keeps its contract.  [VmStatic]:
      static calls.  [Precompiles]: [core/vm/contracts.go].  [VmFaults]: what
      follows from the missing gas.
    - [Chain]: the chain as its readers see it.  [Dao]: [consensus/misc].
      [ChainStore]: the tables of [core/rawdb] as finite maps.  [HeaderChain]:
      [core/headerchain.go].
    - [Staking]: [berith/staking], lists of stakers, their store and selection
      points.  [Selection]: [berith/selection], the election.
    - [Transition], [TransitionProps]: [core/state_transition.go],
      [core/state_processor.go], [core/gaspool.go].
    - [Bsrr]: [consensus/bsrr/berith.go] and [api.go].  [BsrrProps],
      [BsrrStakers], [BsrrRewards], [BsrrBlocks]: verification of headers, the
      staking list of a block, rewards, prepared blocks.
    - [BlockChain]: reading and writing blocks, the fork choice and [reorg] of
      [core/blockchain.go].  [BlockChainLoad]: [core/genesis.go], loading,
      rewinding and fast synchronisation.  [BlockInsert]: the import of blocks,
      with [core/block_validator.go] and [core/blockchain_insert.go].
      [BlockChainProps], [ChainInvariant]: what the database keeps and the
      invariant of a chain.  [ChainReach]: the chains that can be reached from a
      genesis block, as an inductive relation, and their theorems.
      [ChainRewind]: [SetHead].  [ChainImport]: [InsertChain].
      [ChainWitness]: a small chain with two branches.
    - [Heap]: the binary heaps of Go's library.  [TxList], [TxListProps],
      [TxListRef]: [core/tx_list.go], the transactions of an account and the
      heap of prices.  [ManagedState]: [core/state/managed_state.go].
    - [TxPool]: [core/tx_pool.go] and [core/tx_journal.go], one definition per
      method or loop body, the main loop as a function of its events.
      [TxPoolBase]: the invariant and removal.  [TxPoolSteps],
      [TxPoolLimits]: promotion and the limits.  [TxPoolPrices]: minimal
      prices and making room.  [TxPoolAdd]: validation and adding.
      [TxPoolReset]: demotion and new heads.  [TxPoolProps]: reachable pools
      and the theorems.  [TxOrder]: the order in which a miner takes pending
      transactions, of [core/types/transaction.go].
    - [Worker]: [miner/worker.go] and [miner/unconfirmed.go], making blocks; the
      goroutines as the handlers of their channels.  [WorkerProps]: the theorems.
      [WorkerWitness]: a miner on the small chain.

    ** What the theorems show

    - State: reverting to a snapshot undoes everything done since, but for the
      list of pending rewards; finalising writes exactly the dirty objects.
    - Tries: whichever nodes are loaded, a trie behaves as a finite map and its
      root hash depends on the map only; what was committed can be opened again
      under the root hash.  Collisions of the hash are excluded only among the
      encodings a store contains.  Tries with hashed keys keep the laws that
      the state database relies on.
    - Virtual machine: the interpreter never indexes or slices out of range and
      changes the state through operations of the state database only; hence a
      failed call or creation leaves no trace and no call creates funds; a
      static call changes nothing; the code analysis equals the plain sweep.
    - Transitions: a message never creates funds as long as execution returns
      no more gas than it was given; intrinsic gas is exact; the stake limit of
      BIP4 holds.  That the proviso can fail, and mints funds, is a theorem too.
    - Consensus: header verification is equivalent to the written rules;
      prepared blocks pass it; the staking list computed from the database and
      recent blocks is the one the chain defines; rewards are issued exactly
      and follow the integer schedule; the election terminates, ranks every
      candidate once and does not depend on map iteration.
    - Chain: in every reachable chain, after any reorganisations, the canonical
      numbers lead from child to parent down to the genesis block, the head is
      the heaviest of the blocks written with their states, and the index finds
      exactly the transactions of canonical blocks; the chain keeps the laws
      ([ChainLaws]) that the theorems about the engine and the pool assume.
      Writing a block returns and follows the fork choice; [InsertChain] writes
      only blocks that were verified and executed, and a valid block is
      imported; [SetHead] rewinds; the root of a body commits to it.  The
      hypotheses are that hashes of the blocks in play do not collide, and that
      a branch has no transaction twice.
    - Transaction pool: the list of an account behaves as a finite map; in
      every reachable pool the indexes agree, and the pending transactions of
      an account have the successive nonces from that in the state; every
      operation returns; the limits hold and are enforced fairly; the miner
      gets the dearest first and the transactions of an account in order.
    - Miner: packing transactions returns and keeps the books of the block, a
      failed transaction leaves no trace, and a block that the worker assembles
      and the engine seals passes the checks of header and body everywhere.
      That its execution is reproduced by the importing node is not proved.
    - Encodings: RLP decodes what it encodes and accepts only canonical input;
      accounts, staking lists and signatures round-trip; bloom filters have no
      false negatives.
    - Faults: reverts forget pending rewards, [Finalise] can panic, the lock-up
      and the seal are not checked, gas bounds nothing, a contract creation in
      the pool can stop the node, a reorganisation to a shorter branch leaves
      numbers behind, a database without a head block cannot be opened.

    ** Fuel

    Loops that run over data recurse on the data.  The walks to ancestors take
    the block number as fuel, the searches and the decoder a bound computed
    from their input; theorems show that [Hang] is not reached.  Three bounds are
    free, and the theorems hold for each value: the rounds of the main loop of
    the interpreter, as programs need not stop; how often [SetHead] and the
    loading of the head call each other; and how deep the import of a side
    chain starts imports of its own.  Rewinding to a block with a state and
    importing a valid block need none.

    ** Not modelled

    Networking ([p2p], [les], the download protocols of [berith]), the indexer of
    the chain and its bloom bits, the caches, locks, events and metrics of the
    chain, [Export] and [Stop], the reports of bad blocks, the preset networks
    and the JSON of genesis files, the timers and the control of the miner, key management,
    RPC and command line, the file of the pool's journal (the journal is the
    list of transactions it keeps), the cache of senders, the reference counts
    and the flushing of the trie database, trie iterators, proofs and
    synchronisation, the curves of [crypto], and logging.  They are input and
    output, or concurrency around the definitions given here. *)

From Stdlib Require Import ZArith Lia.
From stdpp Require Import base option list gmap sets strings sorting.

#[global] Open Scope Z_scope.

(** ** Results of Go functions

    A Go function returns a value, returns an [error] (the text given to
    [errors.New]), or panics.  [Hang] is the result of a loop model whose fuel
    ran out; theorems show that it is not reached. *)
Inductive result (A : Type) : Type :=
| Ok (a : A)
| Err (e : string)
| Panic (why : string)
| Hang.
Arguments Ok {A} _.
Arguments Err {A} _.
Arguments Panic {A} _.
Arguments Hang {A}.

Definition bind {A B : Type} (r : result A) (k : A → result B) : result B :=
  match r with
  | Ok a => k a
  | Err e => Err e
  | Panic w => Panic w
  | Hang => Hang
  end.

Declare Scope go_scope.
Delimit Scope go_scope with go.
#[global] Open Scope go_scope.

Notation "'let*' x := r 'in' k" := (bind r (λ x, k))
  (at level 10, x pattern, r at level 100, k at level 200,
   format "'[v' 'let*'  x  :=  r  'in' '/' k ']'") : go_scope.

Lemma bind_assoc {A B C} (r : result A) (f : A → result B) (g : B → result C) :
  bind (bind r f) g = bind r (λ a, bind (f a) g).
Proof. by destruct r. Qed.

Lemma bind_ok_inv {A B} (r : result A) (k : A → result B) b :
  bind r k = Ok b → ∃ a, r = Ok a ∧ k a = Ok b.
Proof. destruct r; naive_solver. Qed.

(** The panics of the Go runtime that the client can run into. *)
Definition nil_panic : string := "invalid memory address or nil pointer dereference".
Definition makeslice_panic : string := "makeslice: len out of range".
Definition nil_deref {A} : result A := Panic nil_panic.

Definition is_ok {A} (r : result A) : bool :=
  match r with Ok _ => true | _ => false end.

(** ** Machine integers

    [uint64] and [int64] values are integers with the wrap-around written out;
    Go's [int] is [int64] on the platforms the client is built for. *)
Definition two64 : Z := 2 ^ 64.
Definition two63 : Z := 2 ^ 63.
Definition maxUint64 : Z := two64 - 1.

Definition u64 (z : Z) : Z := z mod two64.
Definition i64 (z : Z) : Z := (z + two63) mod two64 - two63.

Definition is_u64 (z : Z) : Prop := 0 ≤ z < two64.
Definition is_i64 (z : Z) : Prop := - two63 ≤ z < two63.

Lemma two64_eq : two64 = 18446744073709551616.
Proof. reflexivity. Qed.
Lemma two63_eq : two63 = 9223372036854775808.
Proof. reflexivity. Qed.

Lemma is_u64_0 : is_u64 0.
Proof. unfold is_u64. rewrite two64_eq. lia. Qed.

(** [zdiv] is [lia] with division and remainder by constants. *)
Ltac zdiv := Z.div_mod_to_equations; lia.

(** [word] unfolds the word sizes to numerals and calls [lia]. *)
Ltac word :=
  unfold is_u64, is_i64, maxUint64 in *; rewrite ?two64_eq, ?two63_eq in *; lia.

Lemma u64_small z : is_u64 z → u64 z = z.
Proof. intros H. unfold u64. apply Z.mod_small. word. Qed.

Lemma u64_range z : is_u64 (u64 z).
Proof. unfold u64, is_u64. apply Z.mod_pos_bound. word. Qed.

Lemma i64_small z : is_i64 z → i64 z = z.
Proof. intros H. unfold i64. rewrite Z.mod_small by word. lia. Qed.

Lemma i64_range z : is_i64 (i64 z).
Proof.
  unfold i64, is_i64.
  pose proof (Z.mod_pos_bound (z + two63) two64) as H. word.
Qed.

Create HintDb word.
Create Rewrite HintDb word.
#[export] Hint Resolve u64_range i64_range : word.
#[export] Hint Rewrite u64_small i64_small using (word) : word.

(** ** [math/big.Int]

    Arbitrary-precision integers are [Z].  [Div] is Euclidean division and
    panics on a zero divisor; [Uint64] and [Int64] keep the low 64 bits. *)
Definition big_Div (x y : Z) : result Z :=
  if y =? 0 then Panic "division by zero"
  else Ok (Z.sgn y * (x / Z.abs y)).

Lemma big_Div_pos x y : 0 < y → big_Div x y = Ok (x / y).
Proof.
  intros H. unfold big_Div. destruct (Z.eqb_spec y 0); [lia|].
  by rewrite Z.sgn_pos, Z.abs_eq, Z.mul_1_l by lia.
Qed.

Definition big_Uint64 (x : Z) : Z := u64 (Z.abs x).
Definition big_Int64 (x : Z) : Z := i64 x.

Lemma big_Uint64_small x : is_u64 x → big_Uint64 x = x.
Proof. intros H. unfold big_Uint64. rewrite Z.abs_eq by word. by apply u64_small. Qed.

(** Native 64-bit division of Go: it panics on zero and truncates. *)
Definition int_quot (x y : Z) : result Z :=
  if y =? 0 then Panic "integer divide by zero" else Ok (i64 (Z.quot x y)).
Definition uint_quot (x y : Z) : result Z :=
  if y =? 0 then Panic "integer divide by zero" else Ok (x / y).
Definition uint_rem (x y : Z) : result Z :=
  if y =? 0 then Panic "integer divide by zero" else Ok (x mod y).

(** ** Bytes

    A byte is an integer below 256; byte slices and the fixed-size arrays
    [Address] (20 bytes) and [Hash] (32 bytes) are lists of bytes. *)
Abbreviation bytes := (list Z) (only parsing).
Abbreviation Address := (list Z) (only parsing).
Abbreviation Hash := (list Z) (only parsing).

Definition AddressLength : nat := 20.
Definition HashLength : nat := 32.
Definition zeroAddress : Address := replicate AddressLength 0.
Definition zeroHash : Hash := replicate HashLength 0.

(** [bytes.Compare]: lexicographic order, the shorter slice first. *)
Fixpoint bytes_Compare (a b : bytes) : comparison :=
  match a, b with
  | [], [] => Eq
  | [], _ :: _ => Lt
  | _ :: _, [] => Gt
  | x :: a', y :: b' =>
      match x ?= y with Eq => bytes_Compare a' b' | c => c end
  end.

Lemma bytes_Compare_eq a b : bytes_Compare a b = Eq ↔ a = b.
Proof.
  revert b; induction a as [|x a IH]; intros [|y b]; simpl; try done.
  destruct (Z.compare_spec x y) as [->|?|?]; [rewrite IH; clear IH|clear IH..]; naive_solver lia.
Qed.

Lemma bytes_Compare_antisym a b : bytes_Compare b a = CompOpp (bytes_Compare a b).
Proof.
  revert b; induction a as [|x a IH]; intros [|y b]; simpl; try done.
  rewrite Z.compare_antisym. destruct (x ?= y); simpl; auto.
Qed.

Lemma bytes_Compare_lt_trans a b c :
  bytes_Compare a b = Lt → bytes_Compare b c = Lt → bytes_Compare a c = Lt.
Proof.
  revert b c; induction a as [|x a IH]; intros [|y b] [|z c]; simpl; try done.
  destruct (Z.compare_spec x y), (Z.compare_spec y z), (Z.compare_spec x z);
    subst; try lia; try done; eauto.
Qed.

(** [new(big.Int).SetBytes]: a big-endian unsigned integer. *)
Definition be_Z (b : bytes) : Z := foldl (λ acc x, acc * 256 + x) 0 b.

Definition is_byte (x : Z) : Prop := 0 ≤ x < 256.
Definition wf_bytes (b : bytes) : Prop := Forall is_byte b.

(** [(x *big.Int).Bytes]: the big-endian bytes without leading zeros. *)
Fixpoint Z_be_fuel (fuel : nat) (z : Z) (acc : bytes) : bytes :=
  match fuel with
  | O => acc
  | S f => if z <=? 0 then acc else Z_be_fuel f (z / 256) (z mod 256 :: acc)
  end.
Definition Z_be (z : Z) : bytes := Z_be_fuel (S (Z.to_nat (Z.log2 z))) z [].

(** [common.BytesToHash]: crop from the left, pad on the left. *)
Definition set_bytes (n : nat) (b : bytes) : bytes :=
  if (n <=? length b)%nat then drop (length b - n) b
  else replicate (n - length b) 0 ++ b.

Lemma set_bytes_length n b : length (set_bytes n b) = n.
Proof.
  unfold set_bytes. destruct (Nat.leb_spec n (length b)).
  - rewrite length_drop. lia.
  - rewrite length_app, length_replicate. lia.
Qed.

Lemma set_bytes_id n b : length b = n → set_bytes n b = b.
Proof. intros <-. unfold set_bytes. by rewrite Nat.leb_refl, Nat.sub_diag. Qed.

Lemma set_bytes_wf n b : wf_bytes b → wf_bytes (set_bytes n b).
Proof.
  intros Hb. unfold set_bytes. case_match; [by apply Forall_drop|]. apply Forall_app. split; [|done].
  apply Forall_replicate. unfold is_byte. lia.
Qed.

(** *** Big-endian round trips *)

Lemma Z_be_fuel_app f z acc : Z_be_fuel f z acc = Z_be_fuel f z [] ++ acc.
Proof.
  revert z acc; induction f as [|f IH]; intros z acc; simpl; [done|].
  destruct (z <=? 0); [done|]. rewrite IH, (IH _ [_]), <- app_assoc. done.
Qed.

Lemma Z_be_fuel_enough f f' z acc :
  z < 2 ^ Z.of_nat f → z < 2 ^ Z.of_nat f' → Z_be_fuel f z acc = Z_be_fuel f' z acc.
Proof.
  revert f' z acc; induction f as [|f IH]; intros [|f'] z acc Hf Hf'; simpl; try done;
    destruct (Z.leb_spec z 0); try done; rewrite ?Nat2Z.inj_succ, ?Z.pow_succ_r in * by lia;
    simpl Z.of_nat in *; [lia..|].
  apply IH; (apply Z.div_lt_upper_bound; lia).
Qed.

(** The last byte of the encoding is the low byte. *)
Lemma Z_be_step z : 0 < z → Z_be z = Z_be (z / 256) ++ [z mod 256].
Proof.
  intros Hz. unfold Z_be at 1. simpl. destruct (Z.leb_spec z 0); [lia|].
  rewrite Z_be_fuel_app. f_equal. unfold Z_be.
  destruct (decide (z / 256 ≤ 0)) as [Hle|Hgt].
  - destruct (Z.to_nat (Z.log2 z)); simpl; destruct (Z.leb_spec (z / 256) 0); done || lia.
  - assert (Hl : ∀ x, 0 < x → x < 2 ^ Z.of_nat (S (Z.to_nat (Z.log2 x)))).
    { intros x Hx. pose proof (Z.log2_nonneg x).
      rewrite Nat2Z.inj_succ, Z2Nat.id by lia. apply Z.log2_spec; lia. }
    apply Z_be_fuel_enough; [|apply Hl; lia].
    specialize (Hl z ltac:(lia)). rewrite Nat2Z.inj_succ, Z.pow_succ_r in Hl by lia.
    apply Z.div_lt_upper_bound; lia.
Qed.

Lemma be_Z_snoc b x : be_Z (b ++ [x]) = be_Z b * 256 + x.
Proof. unfold be_Z. by rewrite foldl_app. Qed.

Lemma be_Z_bound b : wf_bytes b → 0 ≤ be_Z b < 256 ^ Z.of_nat (length b).
Proof.
  induction b as [|x b IH] using rev_ind; intros Hb; [done|].
  apply Forall_app in Hb as [Hb Hx]. rewrite Forall_singleton in Hx. unfold is_byte in Hx.
  rewrite be_Z_snoc, length_app, Nat.add_1_r, Nat2Z.inj_succ, Z.pow_succ_r by lia.
  specialize (IH Hb). lia.
Qed.

Lemma be_Z_be z : 0 ≤ z → be_Z (Z_be z) = z.
Proof.
  intros Hz. revert Hz. pattern z. apply (well_founded_induction (Z.lt_wf 0)). clear z.
  intros z IH Hz. destruct (decide (z = 0)) as [->|]; [done|].
  rewrite Z_be_step, be_Z_snoc by lia. rewrite IH; [|split; [apply Z.div_pos; lia|apply Z.div_lt; lia]|apply Z.div_pos; lia].
  pose proof (Z.div_mod z 256). lia.
Qed.

(** Reading a byte string and writing it back drops the leading zeros only. *)
Lemma Z_be_be b :
  wf_bytes b → ∃ k, b = replicate k 0 ++ Z_be (be_Z b).
Proof.
  induction b as [|x b IH] using rev_ind; intros Hb; [by exists O|].
  apply Forall_app in Hb as [Hb Hx]. rewrite Forall_singleton in Hx. unfold is_byte in Hx.
  destruct (IH Hb) as [k Hk]. pose proof (be_Z_bound b Hb) as Hpos. rewrite be_Z_snoc.
  destruct (decide (be_Z b * 256 + x = 0)) as [Hz|Hnz].
  - rewrite Hz. assert (be_Z b = 0 ∧ x = 0) as [Hb0 ->] by lia.
    rewrite Hb0, app_nil_r in Hk. exists (S k). rewrite Hk at 1.
    rewrite replicate_S_end. by rewrite app_nil_r.
  - exists k. rewrite Z_be_step by lia.
    rewrite Z.div_add_l, (Z.div_small x), Z.add_0_r by lia.
    rewrite Z.add_comm, Z_mod_plus_full, Z.mod_small by lia.
    rewrite app_assoc. by rewrite <- Hk.
Qed.

Lemma Z_be_length_le b : wf_bytes b → (length (Z_be (be_Z b)) ≤ length b)%nat.
Proof.
  intros Hb. destruct (Z_be_be b Hb) as [k Hk]. rewrite Hk at 2. rewrite length_app. lia.
Qed.

Lemma Z_be_length n z : 0 ≤ z < 256 ^ Z.of_nat n → (length (Z_be z) ≤ n)%nat.
Proof.
  revert z. induction n as [|n IH]; intros z Hz.
  - assert (z = 0) as -> by (simpl in Hz; lia). done.
  - destruct (decide (z = 0)) as [->|]; [simpl; lia|]. rewrite Z_be_step, length_app by lia. simpl.
    rewrite Nat2Z.inj_succ, Z.pow_succ_r in Hz by lia.
    specialize (IH (z / 256) ltac:(split; [apply Z.div_pos; lia|apply Z.div_lt_upper_bound; lia])). lia.
Qed.

Lemma be_Z_zeros k b : be_Z (replicate k 0 ++ b) = be_Z b.
Proof. unfold be_Z. rewrite foldl_app. f_equal. by induction k. Qed.

Lemma Z_be_pad b :
  wf_bytes b → replicate (length b - length (Z_be (be_Z b))) 0 ++ Z_be (be_Z b) = b.
Proof.
  intros Hb. destruct (Z_be_be b Hb) as [k Hk].
  rewrite Hk at 1. rewrite length_app, length_replicate, Nat.add_sub. by symmetry.
Qed.

(** ** Shared list lemmas *)

Lemma foldl_perm {A B} (f : B → A → B) (l1 l2 : list A) (b : B) :
  (∀ b x y, x ∈ l1 → y ∈ l1 → f (f b x) y = f (f b y) x) →
  l1 ≡ₚ l2 → foldl f b l1 = foldl f b l2.
Proof.
  intros Hc Hp. revert b Hc.
  induction Hp as [|x l1 l2 Hp IH|x y l|l1 l2 l3 Hp1 IH1 Hp2 IH2];
    intros b Hc; simpl; auto.
  - apply IH. intros. apply Hc; by apply list_elem_of_further.
  - f_equal. rewrite Hc; set_solver.
  - rewrite IH1 by done. apply IH2. intros b' x y Hx Hy.
    apply Hc; by rewrite Hp1.
Qed.

(** ** Go maps

    Go does not specify the order in which a map is iterated: it is a
    parameter, and results that depend on it are results the code cannot rely
    on.  Addresses and hashes, the keys of the maps that are iterated, are byte
    strings. *)
Class MapOrder := {
  range : gset bytes → list bytes;
  range_perm s : range s ≡ₚ elements s
}.

(** ** [sort.Search]: the binary search of the standard library

    The smallest index in [0, n) for which [f] holds, or [n]. *)
Fixpoint sort_Search_loop (fuel : nat) (f : nat → bool) (i j : nat) : nat :=
  match fuel with
  | O => i
  | S fuel' =>
      if (i <? j)%nat then
        let h := ((i + j) / 2)%nat in
        if f h then sort_Search_loop fuel' f i h else sort_Search_loop fuel' f (S h) j
      else i
  end.
Definition sort_Search (n : nat) (f : nat → bool) : nat := sort_Search_loop n f 0 n.

Lemma sort_Search_loop_spec fuel f i j :
  (j - i ≤ fuel)%nat → (i ≤ j)%nat →
  (∀ x y, (x ≤ y)%nat → (y < j)%nat → f x = true → f y = true) →
  let k := sort_Search_loop fuel f i j in
  (i ≤ k ≤ j)%nat ∧ (∀ x, (i ≤ x < k)%nat → f x = false) ∧ (∀ x, (k ≤ x < j)%nat → f x = true).
Proof.
  revert i j. induction fuel as [|fuel IH]; intros i j Hf Hij Hm; cbn [sort_Search_loop].
  { assert (i = j) as -> by lia. repeat split; intros; lia. }
  destruct (Nat.ltb_spec i j) as [Hlt|]; [|assert (i = j) as -> by lia; repeat split; intros; lia].
  pose proof (Nat.div_mod (i + j) 2 ltac:(lia)) as Hd. pose proof (Nat.mod_upper_bound (i + j) 2 ltac:(lia)).
  set (h := ((i + j) / 2)%nat) in *. destruct (f h) eqn:E.
  - destruct (IH i h) as (Hk & Hlo & Hhi); [lia|lia|intros; eapply Hm; eauto; lia|].
    split; [lia|]. split; [done|]. intros x Hx. destruct (decide (x < h)%nat); [apply Hhi; lia|].
    apply (Hm h); auto; lia.
  - destruct (IH (S h) j) as (Hk & Hlo & Hhi); [lia|lia|done|].
    split; [lia|]. split; [|done]. intros x Hx. destruct (decide (x ≤ h)%nat); [|apply Hlo; lia].
    destruct (f x) eqn:Ex; [|done]. rewrite <- E. symmetry. apply (Hm x); auto; lia.
Qed.

(** On a monotone predicate [sort.Search] finds the first index. *)
Lemma sort_Search_spec n f :
  (∀ x y, (x ≤ y)%nat → (y < n)%nat → f x = true → f y = true) →
  let k := sort_Search n f in
  (k ≤ n)%nat ∧ (∀ x, (x < k)%nat → f x = false) ∧ (∀ x, (k ≤ x < n)%nat → f x = true).
Proof.
  intros Hm. destruct (sort_Search_loop_spec n f 0 n) as (Hk & Hlo & Hhi); [lia|lia|done|].
  unfold sort_Search. split; [lia|]. split; [|done]. intros x Hx. apply Hlo. lia.
Qed.
