(* ===== verification/GoFloat.v ===== *)
(** * Floating point: Go's [float64] and [math/big.Float]

    The reward schedule, the selection points and the rank groups are computed
    in floating point.  A [float64] is an IEEE 754 binary64 value
    ([spec_float] with a 53-bit mantissa) and every operation rounds to nearest
    even; a [big.Float] carries its own mantissa precision and follows the
    precision rules documented in [math/big]. *)

From Stdlib Require Import ZArith Lia SpecFloat.
From stdpp Require Import base option list strings.
From S2P Require Import Prelude.

(** ** [float64] *)

Abbreviation float64 := spec_float.

Definition f64_of_Z (z : Z) : float64 := binary_normalize 53 1024 z 0 false.
Definition f64_add : float64 → float64 → float64 := SFadd 53 1024.
Definition f64_sub : float64 → float64 → float64 := SFsub 53 1024.
Definition f64_mul : float64 → float64 → float64 := SFmul 53 1024.
Definition f64_div : float64 → float64 → float64 := SFdiv 53 1024.
Definition f64_leb : float64 → float64 → bool := SFleb.
Definition f64_ltb : float64 → float64 → bool := SFltb.
Definition f64_eqb : float64 → float64 → bool := SFeqb.

(** The magnitude of a finite float rounded down, to nearest (halves away from
    zero), and up to an integer. *)
Definition mag_floor (m : positive) (e : Z) : Z :=
  if 0 <=? e then Zpos m * 2 ^ e else Zpos m / 2 ^ (- e).
Definition mag_round (m : positive) (e : Z) : Z :=
  if 0 <=? e then Zpos m * 2 ^ e
  else (2 * Zpos m + 2 ^ (- e)) / (2 * 2 ^ (- e)).
Definition mag_ceil (m : positive) (e : Z) : Z :=
  if 0 <=? e then Zpos m * 2 ^ e
  else (Zpos m + 2 ^ (- e) - 1) / 2 ^ (- e).

Definition with_sign (s : bool) (z : Z) : float64 :=
  if z =? 0 then S754_zero s
  else f64_of_Z (if s then - z else z).

(** [math.Round] and [math.Ceil]. *)
Definition math_Round (x : float64) : float64 :=
  match x with
  | S754_finite s m e => with_sign s (mag_round m e)
  | _ => x
  end.
Definition math_Ceil (x : float64) : float64 :=
  match x with
  | S754_finite s m e =>
      with_sign s (if s then mag_floor m e else mag_ceil m e)
  | _ => x
  end.

(** The conversion [int64(x)]: truncation; a value out of range gives the
    integer indefinite value of the amd64 instruction. *)
Definition int64_of_f64 (x : float64) : Z :=
  match x with
  | S754_zero _ => 0
  | S754_finite s m e =>
      let z := if s then - mag_floor m e else mag_floor m e in
      if (- two63 <=? z) && (z <? two63) then z else - two63
  | _ => - two63
  end.

(** ** [math/big.Float]

    Exponents are bounded by [2^31] in Go; no computation of the client comes
    near the bound. *)
Record bigFloat := BigFloat { bf_prec : Z; bf_val : spec_float }.

Definition bf_emax : Z := 2 ^ 31.

(** [new(big.Float).SetInt(x)]: at least 64 bits of precision, exact. *)
Definition bf_SetInt (x : Z) : bigFloat :=
  let prec := Z.max (Zdigits2 x) 64 in
  BigFloat prec (binary_normalize prec bf_emax x 0 false).

(** [big.NewFloat(x)]: 53 bits; a NaN argument panics. *)
Definition bf_NewFloat (x : float64) : result bigFloat :=
  match x with
  | S754_nan => Panic "NewFloat(NaN)"
  | _ => Ok (BigFloat 53 x)
  end.

(** An operation into a receiver of precision [zprec] (0 when fresh: the larger
    operand precision is taken); an undefined result panics with [ErrNaN]. *)
Definition bf_op (op : Z → Z → spec_float → spec_float → spec_float)
    (zprec : Z) (x y : bigFloat) : result bigFloat :=
  let prec := if zprec =? 0 then Z.max (bf_prec x) (bf_prec y) else zprec in
  match op prec bf_emax (bf_val x) (bf_val y) with
  | S754_nan => Panic "ErrNaN"
  | v => Ok (BigFloat prec v)
  end.
Definition bf_Mul := bf_op SFmul.
Definition bf_Quo := bf_op SFdiv.
Definition bf_Add := bf_op SFadd.

(** [x.Cmp(y)]: comparison of the represented numbers. *)
Definition sf_signed (s : bool) (m : positive) : Z :=
  if s then Zneg m else Zpos m.
Definition bf_Cmp (x y : bigFloat) : comparison :=
  match bf_val x, bf_val y with
  | S754_finite s1 m1 e1, S754_finite s2 m2 e2 =>
      let e := Z.min e1 e2 in
      (sf_signed s1 m1 * 2 ^ (e1 - e)) ?= (sf_signed s2 m2 * 2 ^ (e2 - e))
  | a, b => default Eq (SFcompare a b)
  end.

(** [x.Int(nil)]: truncation towards zero; the result is nil for infinities. *)
Definition bf_Int (x : bigFloat) : option Z :=
  match bf_val x with
  | S754_finite s m e =>
      Some (if s then - mag_floor m e else mag_floor m e)
  | S754_zero _ => Some 0
  | _ => None
  end.

Example f64_half : f64_div (f64_of_Z 5) (f64_of_Z 10) = S754_finite false (2^52)%positive (-53).
Proof. reflexivity. Qed.
Example round_half_away :
  int64_of_f64 (math_Round (f64_div (f64_of_Z (-5)) (f64_of_Z 2))) = -3.
Proof. reflexivity. Qed.
Example ceil_third :
  int64_of_f64 (math_Ceil (f64_div (f64_of_Z 4) (f64_of_Z 3))) = 2.
Proof. reflexivity. Qed.

(** ** Rounding of integers and of quotients

    The lemmas below determine [float64(z)] for integers that fit the mantissa
    and bound the rounding error of a division; the clients use them to show
    that a float computation followed by [Ceil] or [Round] gives the integer
    the formula means. *)

Lemma digits2_pos_bounds m :
  2 ^ (Zpos (digits2_pos m) - 1) ≤ Zpos m < 2 ^ Zpos (digits2_pos m).
Proof.
  assert (Hstep : ∀ p, 2 ^ (Zpos (digits2_pos p) - 1) ≤ Zpos p < 2 ^ Zpos (digits2_pos p) →
    2 ^ (Zpos (Pos.succ (digits2_pos p)) - 1) ≤ 2 * Zpos p ∧
    2 * Zpos p + 1 < 2 ^ Zpos (Pos.succ (digits2_pos p))).
  { intros p Hp. rewrite Pos2Z.inj_succ.
    replace (Z.succ (Zpos (digits2_pos p)) - 1) with (Z.succ (Zpos (digits2_pos p) - 1)) by lia.
    rewrite !Z.pow_succ_r by lia. lia. }
  induction m as [m IH|m IH|]; simpl digits2_pos; [..|by cbn];
    apply Hstep in IH; lia.
Qed.

Lemma digits2_pos_unique m d :
  0 < d → 2 ^ (d - 1) ≤ Zpos m < 2 ^ d → Zpos (digits2_pos m) = d.
Proof.
  intros Hd Hm. pose proof (digits2_pos_bounds m) as Hb.
  destruct (Z.lt_trichotomy (Zpos (digits2_pos m)) d) as [H|[H|H]]; [|done|].
  - assert (2 ^ Zpos (digits2_pos m) ≤ 2 ^ (d - 1)) by (apply Z.pow_le_mono_r; lia). lia.
  - assert (2 ^ d ≤ 2 ^ (Zpos (digits2_pos m) - 1)) by (apply Z.pow_le_mono_r; lia). lia.
Qed.

(** A mantissa of exactly 53 bits at a moderate exponent is left alone by the
    final normalisation. *)
Definition mant53 (m : Z) : Prop := 2 ^ 52 ≤ m < 2 ^ 53.

Lemma shr_fexp_id m e l :
  mant53 (Zpos m) → -1074 ≤ e → shr_fexp 53 1024 (Zpos m) e l = (shr_record_of_loc (Zpos m) l, e).
Proof.
  intros Hm He. unfold shr_fexp. cbn [Zdigits2].
  rewrite (digits2_pos_unique m 53) by (unfold mant53 in Hm; lia).
  unfold fexp, emin. replace (Z.max _ _ - e) with 0 by lia. done.
Qed.

(** Rounding a mantissa of 53 bits, or one that was rounded up to [2^53]. *)
Lemma renormalise s m e :
  2 ^ 52 ≤ m ≤ 2 ^ 53 → -1074 ≤ e → e < 971 →
  ∃ m' e',
    (let '(mrs, e2) := shr_fexp 53 1024 m e loc_Exact in
     match shr_m mrs with
     | Z0 => S754_zero s
     | Zpos p => if e2 <=? 1024 - 53 then S754_finite s p e2 else S754_infinity s
     | Zneg _ => S754_nan
     end) = S754_finite s m' e' ∧
    mant53 (Zpos m') ∧ (Zpos m' = m ∧ e' = e ∨ 2 * Zpos m' = m ∧ e' = e + 1).
Proof.
  intros Hm He1 He2. destruct (decide (m = 2 ^ 53)) as [->|Hne].
  - exists (2 ^ 52)%positive, (e + 1). split; [|split; [unfold mant53; lia|right; lia]].
    change (shr_fexp 53 1024 (2 ^ 53) e loc_Exact) with
      (shr {| shr_m := 2 ^ 53; shr_r := false; shr_s := false |} e
         (fexp 53 1024 (54 + e) - e)).
    unfold fexp, emin. replace (Z.max _ _ - e) with 1 by lia.
    change (2 ^ 53) with (Zpos (2 ^ 52)~0). cbn [shr iter_pos shr_1 shr_m].
    destruct (Z.leb_spec (e + 1) (1024 - 53)); [done|lia].
  - destruct m as [|m|m]; [lia| |lia].
    rewrite shr_fexp_id by (unfold mant53; lia). cbn [shr_m shr_record_of_loc].
    destruct (Z.leb_spec e (1024 - 53)); [|lia].
    exists m, e. split; [done|]. split; [unfold mant53; lia|by left].
Qed.

(** [float64(z)] is exact below [2^53]. *)
Lemma f64_of_Z_exact z :
  0 < z < 2 ^ 53 →
  ∃ m e, f64_of_Z z = S754_finite false m e ∧ mant53 (Zpos m) ∧
    -52 ≤ e ≤ 0 ∧ Zpos m = z * 2 ^ (- e).
Proof.
  intros Hz. destruct z as [|z|z]; [lia| |lia].
  unfold f64_of_Z, binary_normalize, binary_round.
  pose proof (digits2_pos_bounds z) as Hd. set (d := Zpos (digits2_pos z)) in *.
  assert (Hd53 : 1 ≤ d ≤ 53).
  { split; [lia|]. destruct (Z.le_gt_cases d 53) as [|Hgt]; [done|].
    assert (2 ^ 53 ≤ 2 ^ (d - 1)) by (apply Z.pow_le_mono_r; lia). lia. }
  rewrite Z.add_0_r. unfold fexp at 1, emin at 1. replace (Z.max (d - 53) (3 - 1024 - 53)) with (d - 53) by lia.
  assert (Halign : ∃ m, shl_align z 0 (d - 53) = (m, d - 53) ∧ Zpos m = Zpos z * 2 ^ (53 - d)).
  { unfold shl_align. rewrite Z.sub_0_r. destruct (d - 53) as [|p|p] eqn:E; [|lia|].
    - exists z. split; [done|]. replace (53 - d) with 0 by lia. lia.
    - exists (Pos.iter xO z p). split; [done|]. replace (53 - d) with (Zpos p) by lia.
      clear. induction p as [|p IH] using Pos.peano_ind; [simpl; lia|].
      rewrite Pos.iter_succ, Pos2Z.inj_succ, Z.pow_succ_r by lia.
      change (Zpos (Pos.iter xO z p)~0) with (2 * Zpos (Pos.iter xO z p)). lia. }
  destruct Halign as (m & -> & Hm).
  assert (Hmant : mant53 (Zpos m)).
  { unfold mant53. rewrite Hm. replace (2 ^ 52) with (2 ^ (d - 1) * 2 ^ (53 - d)).
    2: { rewrite <- Z.pow_add_r by lia. f_equal. lia. }
    replace (2 ^ 53) with (2 ^ d * 2 ^ (53 - d)).
    2: { rewrite <- Z.pow_add_r by lia. f_equal. lia. }
    assert (0 < 2 ^ (53 - d)) by (apply Z.pow_pos_nonneg; lia). nia. }
  unfold binary_round_aux. rewrite shr_fexp_id by (done || lia). cbn [shr_m shr_record_of_loc loc_of_shr_record round_nearest_even].
  rewrite shr_fexp_id by (done || lia). cbn [shr_m shr_record_of_loc].
  destruct (Z.leb_spec (d - 53) (1024 - 53)); [|lia].
  exists m, (d - 53). split_and!; [done|done|lia|lia|].
  rewrite Hm. do 2 f_equal. lia.
Qed.

(** The quotient of two 53-bit mantissas, rounded to nearest: the error is at
    most half a unit in the last place. *)
Lemma f64_div_mant mx ex my ey :
  mant53 (Zpos mx) → mant53 (Zpos my) → -52 ≤ ex ≤ 0 → -52 ≤ ey ≤ 0 →
  ∃ m e E, f64_div (S754_finite false mx ex) (S754_finite false my ey) =
      S754_finite false m e ∧
    mant53 (Zpos m) ∧ 0 ≤ E ≤ 2 ∧ e = ex - ey - 53 + E ∧
    2 * Z.abs (Zpos m * 2 ^ E * Zpos my - Zpos mx * 2 ^ 53) ≤ 2 ^ E * Zpos my.
Proof.
  unfold mant53. intros Hmx Hmy Hex Hey.
  unfold f64_div, SFdiv, SFdiv_core_binary. cbn [Zdigits2].
  rewrite (digits2_pos_unique mx 53), (digits2_pos_unique my 53) by lia.
  assert (Hmin : Z.min (fexp 53 1024 (53 + ex - (53 + ey))) (ex - ey) = ex - ey - 53)
    by (unfold fexp, emin; lia).
  rewrite Hmin. clear Hmin.
  replace (ex - ey - (ex - ey - 53)) with 53 by lia.
  rewrite Z.shiftl_mul_pow2 by lia.
  change IntDef.Z.div_eucl with Z.div_eucl.
  pose proof (Z_div_mod (Zpos mx * 2 ^ 53) (Zpos my) ltac:(lia)) as Hdm.
  destruct (Z.div_eucl (Zpos mx * 2 ^ 53) (Zpos my)) as [q r].
  destruct Hdm as [HN Hr]. cbn [xorb].
  assert (Hq : 2 ^ 52 ≤ q < 2 ^ 54) by (split; [apply Z.lt_succ_r|]; apply Z.nle_gt; intros Hc; nia).
  (* the location of the remainder, as inequalities *)
  set (l := new_location (Zpos my) r).
  assert (Hl : match l with
    | loc_Exact => r = 0
    | loc_Inexact Lt => 0 < r ∧ 2 * r < Zpos my
    | loc_Inexact Eq => 2 * r = Zpos my
    | loc_Inexact Gt => 2 * r > Zpos my
    end).
  { unfold l, new_location, new_location_even, new_location_odd.
    destruct (Z.even (Zpos my)) eqn:Hev; destruct (Z.eqb_spec r 0); try done.
    - destruct (Z.compare_spec (2 * r) (Zpos my)); lia.
    - assert (Hodd : Z.odd (Zpos my) = true) by (by rewrite <- Z.negb_even, Hev).
      apply Z.odd_spec in Hodd as [k Hk].
      destruct (Z.compare_spec (2 * r + 1) (Zpos my)); lia. }
  clearbody l. unfold binary_round_aux.
  destruct (Z.le_gt_cases (2 ^ 53) q) as [Hbig|Hsmall].
  - (* 54 bits: one shift *)
    destruct q as [|q|q]; [lia| |lia].
    assert (Hs : shr_fexp 53 1024 (Zpos q) (ex - ey - 53) l =
      (shr_1 (shr_record_of_loc (Zpos q) l), ex - ey - 53 + 1)).
    { unfold shr_fexp. cbn [Zdigits2]. rewrite (digits2_pos_unique q 54) by lia.
      unfold fexp, emin. replace (Z.max _ _ - _) with 1 by lia. done. }
    rewrite Hs. clear Hs.
    set (m1 := round_nearest_even _ _).
    assert (Hm1 : 2 ^ 52 ≤ m1 ≤ 2 ^ 53 ∧
      2 * Z.abs (m1 * 2 * Zpos my - Zpos mx * 2 ^ 53) ≤ 2 * Zpos my).
    { unfold m1. destruct q as [q|q|]; [| |lia];
        destruct l as [|[]]; cbn [shr_record_of_loc shr_1 orb shr_m loc_of_shr_record round_nearest_even];
        try (destruct (Z.even (Zpos q))); nia. }
    destruct Hm1 as [Hm1 Herr].
    destruct (renormalise false m1 (ex - ey - 53 + 1)) as (m' & e' & Heq & Hm' & Hv);
      [lia..|].
    rewrite Heq. destruct Hv as [[Hv ->]|[Hv ->]]; subst m1.
    + exists m', (ex - ey - 53 + 1), 1. rewrite Hv. unfold mant53 in Hm'; split_and!; [done|lia..].
    + exists m', (ex - ey - 53 + 1 + 1), 2. rewrite <- Hv in Herr.
      unfold mant53 in Hm'; split_and!; [done|lia..].
  - destruct q as [|q|q]; [lia| |lia].
    rewrite shr_fexp_id by (unfold mant53; lia).
    set (m1 := round_nearest_even _ _).
    assert (Hm1 : 2 ^ 52 ≤ m1 ≤ 2 ^ 53 ∧
      2 * Z.abs (m1 * Zpos my - Zpos mx * 2 ^ 53) ≤ Zpos my).
    { unfold m1. destruct l as [|[]]; cbn [shr_record_of_loc shr_m loc_of_shr_record round_nearest_even];
        try (destruct (Z.even (Zpos q))); nia. }
    destruct Hm1 as [Hm1 Herr].
    destruct (renormalise false m1 (ex - ey - 53)) as (m' & e' & Heq & Hm' & Hv);
      [lia..|].
    rewrite Heq. destruct Hv as [[Hv ->]|[Hv ->]]; subst m1.
    + exists m', (ex - ey - 53), 0. rewrite Hv. unfold mant53 in Hm'; split_and!; [done|lia..].
    + exists m', (ex - ey - 53 + 1), 1. rewrite <- Hv in Herr.
      unfold mant53 in Hm'; split_and!; [done|lia..].
Qed.

(** [float64(a) / float64(b)] for integers: a normalised mantissa [m] at a
    non-positive exponent with [|m 2^e - a/b|] at most half an ulp. *)
Lemma f64_div_Z a b :
  0 < a < 2 ^ 52 → 0 < b < 2 ^ 53 →
  ∃ m e, f64_div (f64_of_Z a) (f64_of_Z b) = S754_finite false m e ∧
    mant53 (Zpos m) ∧ e ≤ 0 ∧
    2 * Z.abs (Zpos m * b - a * 2 ^ (- e)) ≤ b.
Proof.
  intros Ha Hb.
  destruct (f64_of_Z_exact a) as (ma & ea & -> & Hma & Hea & Hva); [lia|].
  destruct (f64_of_Z_exact b) as (mb & eb & -> & Hmb & Heb & Hvb); [lia|].
  assert (Hea1 : ea ≤ -1).
  { destruct (decide (ea = 0)) as [->|]; [|lia]. unfold mant53 in Hma. simpl in Hva. lia. }
  destruct (f64_div_mant ma ea mb eb) as (m & e & E & Heq & Hm & HE & He & Herr); [done..|].
  exists m, e. split_and!; [done|done|lia|].
  assert (HE0 : 0 < 2 ^ E) by (apply Z.pow_pos_nonneg; lia).
  assert (Hb0 : 0 < 2 ^ (- eb)) by (apply Z.pow_pos_nonneg; lia).
  apply (Z.mul_le_mono_pos_r _ _ (2 ^ E * 2 ^ (- eb))); [lia|].
  assert (Hscale : Zpos m * 2 ^ E * Zpos mb - Zpos ma * 2 ^ 53 =
    (Zpos m * b - a * 2 ^ (- e)) * (2 ^ E * 2 ^ (- eb))).
  { assert (Hp : 2 ^ (- ea) * 2 ^ 53 = 2 ^ (- e) * (2 ^ E * 2 ^ (- eb)))
      by (rewrite <- !Z.pow_add_r by lia; f_equal; lia).
    rewrite Hva, Hvb, <- (Z.mul_assoc a), Hp. ring. }
  rewrite Hscale, Z.abs_mul, (Z.abs_eq (2 ^ E * _)) in Herr by lia. lia.
Qed.

Lemma Z_div_bounds x d k : 0 < d → k * d ≤ x < (k + 1) * d → x / d = k.
Proof. intros Hd H. symmetry. apply (Z.div_unique x d k (x - d * k)); lia. Qed.

(** For operands below [2^51] the rounding error never crosses an integer or a
    half: [Floor], [Ceil] and [Round] of the float quotient are those of the
    exact quotient. *)
Lemma f64_div_rounds a b :
  0 < a < 2 ^ 51 → 0 < b < 2 ^ 53 →
  ∃ m e, f64_div (f64_of_Z a) (f64_of_Z b) = S754_finite false m e ∧
    mag_floor m e = a / b ∧
    mag_ceil m e = (a + b - 1) / b ∧
    mag_round m e = (2 * a + b) / (2 * b).
Proof.
  intros Ha Hb. destruct (f64_div_Z a b) as (m & e & Heq & Hm & He & Herr); [lia..|].
  exists m, e. split; [done|]. unfold mant53 in Hm.
  unfold mag_floor, mag_ceil, mag_round.
  set (P := 2 ^ (- e)) in *.
  assert (HP : b < P).
  { apply Z.nle_gt. intros Hc. assert (a * P ≤ a * b) by nia. nia. }
  assert (He0 : e < 0).
  { destruct (decide (e = 0)) as [->|]; [|lia]. unfold P in HP. simpl in HP. lia. }
  assert (Hev : ∃ h, P = 2 * h).
  { exists (2 ^ (- e - 1)). unfold P. rewrite <- Z.pow_succ_r by lia. f_equal; lia. }
  destruct Hev as [h Hh].
  destruct (Z.leb_spec 0 e); [lia|].
  assert (Hfl : ∀ x d, 0 < d → d * (x / d) ≤ x < d * (x / d) + d).
  { intros x d Hd. pose proof (Z.div_mod x d). pose proof (Z.mod_pos_bound x d). lia. }
  split_and!; apply Z_div_bounds; try lia.
  - pose proof (Hfl a b). set (k := a / b) in *. clearbody k P. nia.
  - pose proof (Hfl (a + b - 1) b). set (k := (a + b - 1) / b) in *. clearbody k P. nia.
  - pose proof (Hfl (2 * a + b) (2 * b)). set (k := (2 * a + b) / (2 * b)) in *.
    clearbody k P. nia.
Qed.

Lemma int64_of_f64_of_Z z : 0 ≤ z < 2 ^ 53 → int64_of_f64 (f64_of_Z z) = z.
Proof.
  intros Hz. destruct (decide (z = 0)) as [->|Hne]; [done|].
  destruct (f64_of_Z_exact z) as (m & e & -> & Hm & He & Hv); [lia|].
  simpl. assert (mag_floor m e = z) as ->.
  { unfold mag_floor. destruct (Z.leb_spec 0 e).
    - replace e with 0 in * by lia. simpl in *. lia.
    - rewrite Hv. apply Z.div_mul. apply Z.pow_nonzero; lia. }
  destruct (Z.leb_spec (- two63) z), (Z.ltb_spec z two63); simpl; word.
Qed.

Lemma with_sign_pos z : 0 ≤ z → int64_of_f64 (with_sign false z) = int64_of_f64 (f64_of_Z z).
Proof. intros Hz. unfold with_sign. by destruct (Z.eqb_spec z 0) as [->|]. Qed.

Lemma Ceil_div_Z a b :
  0 < a < 2 ^ 51 → 0 < b < 2 ^ 53 →
  int64_of_f64 (math_Ceil (f64_div (f64_of_Z a) (f64_of_Z b))) = (a + b - 1) / b.
Proof.
  intros Ha Hb. destruct (f64_div_rounds a b) as (m & e & -> & _ & Hc & _); [done..|].
  simpl. rewrite Hc. assert (0 ≤ (a + b - 1) / b ≤ a).
  { split; [apply Z.div_pos; lia|]. apply Z.div_le_upper_bound; [lia|nia]. }
  rewrite with_sign_pos, int64_of_f64_of_Z by lia. done.
Qed.

(** ** Halving and comparing *)

Definition one_half : float64 := S754_finite false (2 ^ 52) (-53).

(** Halving a float lowers its exponent. *)
Lemma f64_mul_half m e :
  mant53 (Zpos m) → -900 ≤ e ≤ 900 →
  f64_mul (S754_finite false m e) one_half = S754_finite false m (e - 1).
Proof.
  intros Hm He. unfold f64_mul, SFmul, one_half. cbn [xorb].
  assert (Hmul : (m * 2 ^ 52)%positive = Pos.iter xO m 52) by (rewrite Pos.mul_comm; reflexivity).
  rewrite Hmul. unfold binary_round_aux, shr_fexp. cbn [Zdigits2].
  assert (Hd : Zpos (digits2_pos (Pos.iter xO m 52)) = 105).
  { apply digits2_pos_unique; [lia|]. unfold mant53 in Hm.
    replace (Zpos (Pos.iter xO m 52)) with (Zpos m * 2 ^ 52) by (simpl; lia). lia. }
  rewrite Hd. unfold fexp, emin. replace (Z.max (105 + (e + -53) - 53) (3 - 1024 - 53) - (e + -53)) with 52 by lia.
  change (shr (shr_record_of_loc (Zpos (Pos.iter xO m 52)) loc_Exact) (e + -53) 52)
    with (shr_record_of_loc (Zpos m) loc_Exact, e + -53 + 52).
  cbn [shr_record_of_loc shr_m loc_of_shr_record round_nearest_even Zdigits2].
  rewrite (digits2_pos_unique m 53) by (unfold mant53 in Hm; lia).
  replace (Z.max (53 + (e + -53 + 52) - 53) (3 - 1024 - 53) - (e + -53 + 52)) with 0 by lia.
  cbn [shr shr_m]. destruct (Z.leb_spec (e + -53 + 52) (1024 - 53)); [|lia]. f_equal. lia.
Qed.

(** Moving a factor of two from the dividend to the divisor. *)
Lemma f64_div_shift m e m' e' :
  f64_div (S754_finite false m (e - 1)) (S754_finite false m' e') =
  f64_div (S754_finite false m e) (S754_finite false m' (e' + 1)).
Proof.
  unfold f64_div, SFdiv, SFdiv_core_binary.
  replace (e - 1 - e') with (e - (e' + 1)) by lia.
  by replace (Zdigits2 (Zpos m) + (e - 1) - (Zdigits2 (Zpos m') + e'))
    with (Zdigits2 (Zpos m) + e - (Zdigits2 (Zpos m') + (e' + 1))) by lia.
Qed.

Lemma f64_leb_shift m e m' e' :
  f64_leb (S754_finite false m (e - 1)) (S754_finite false m' e') =
  f64_leb (S754_finite false m e) (S754_finite false m' (e' + 1)).
Proof.
  unfold f64_leb, SFleb, SFcompare.
  by replace (Z.compare (e - 1) e') with (Z.compare e (e' + 1))
    by (destruct (Z.compare_spec e (e' + 1)), (Z.compare_spec (e - 1) e'); lia || done).
Qed.

(** Comparing two exact integers. *)
Lemma f64_leb_Z a b :
  0 < a < 2 ^ 53 → 0 < b < 2 ^ 53 → f64_leb (f64_of_Z a) (f64_of_Z b) = (a <=? b).
Proof.
  intros Ha Hb.
  destruct (f64_of_Z_exact a) as (ma & ea & -> & Hma & Hea & Hva); [lia|].
  destruct (f64_of_Z_exact b) as (mb & eb & -> & Hmb & Heb & Hvb); [lia|].
  unfold mant53 in *. unfold f64_leb, SFleb, SFcompare.
  assert (Hless : ∀ x y mx my ex ey, 2 ^ 52 ≤ mx < 2 ^ 53 → 2 ^ 52 ≤ my < 2 ^ 53 →
    mx = x * 2 ^ (- ex) → my = y * 2 ^ (- ey) → ex < ey → ey ≤ 0 → x < y).
  { intros x y mx my ex ey Hmx Hmy Hx Hy Hlt Hle.
    assert (Hp : 2 ^ (- ex) = 2 ^ (- ey) * 2 ^ (ey - ex)) by (rewrite <- Z.pow_add_r by lia; f_equal; lia).
    assert (2 ^ 1 ≤ 2 ^ (ey - ex)) by (apply Z.pow_le_mono_r; lia).
    assert (0 < 2 ^ (- ey)) by (apply Z.pow_pos_nonneg; lia).
    rewrite Hp in Hx. apply Z.nle_gt. intros Hc. nia. }
  destruct (Z.compare_spec ea eb) as [->|Hlt|Hgt].
  - assert (0 < 2 ^ (- eb)) by (apply Z.pow_pos_nonneg; lia).
    change (Pos.compare_cont Eq ma mb) with (Pos.compare ma mb).
    destruct (Pos.compare_spec ma mb) as [Hc|Hc|Hc], (Z.leb_spec a b); try done; exfalso; nia.
  - pose proof (Hless a b _ _ ea eb Hma Hmb Hva Hvb). destruct (Z.leb_spec a b); [done|lia].
  - pose proof (Hless b a _ _ eb ea Hmb Hma Hvb Hva). destruct (Z.leb_spec a b); [lia|done].
Qed.
