(* ===== verification/Params.v ===== *)
(** * Chain configuration and fork rules ([params/config.go])

    The fork schedule of a chain, the predicates that say which rules are active
    at a block, and the check that a new schedule is compatible with the blocks
    already imported. *)

From Stdlib Require Import ZArith Lia SpecFloat.
From stdpp Require Import base option list strings.
From S2P Require Import Prelude GoFloat.

(** ** Data *)

Record BSRRConfig := {
  Period : Z;                       (* uint64 *)
  Epoch : Z;                        (* uint64 *)
  Rewards : option Z;               (* *big.Int *)
  StakeMinimum : option Z;
  LimitStakeBalance : option Z;
  SlashRound : Z;                   (* uint64 *)
  ForkFactor : float64
}.

Record ChainConfig := {
  ChainID : option Z;
  HomesteadBlock : option Z;
  DAOForkBlock : option Z;
  DAOForkSupport : bool;
  EIP150Block : option Z;
  EIP150Hash : Hash;
  EIP155Block : option Z;
  EIP158Block : option Z;
  ByzantiumBlock : option Z;
  ConstantinopleBlock : option Z;
  EWASMBlock : option Z;
  Bsrr : option BSRRConfig;
  BIP1Block : option Z;
  BIP2Block : option Z;
  BIP3Block : option Z;
  BIP4Block : option Z
}.

Definition StakeMinimum_str : Z := 1000000000000000000.
Definition LimitStakeBalance_str : Z := 100000000000000000000000000.

Definition MainnetChainConfig : ChainConfig := {|
  ChainID := Some 106;
  HomesteadBlock := Some 0;
  DAOForkBlock := None;
  DAOForkSupport := true;
  EIP150Block := Some 0;
  EIP150Hash := zeroHash;
  EIP155Block := Some 0;
  EIP158Block := Some 0;
  ByzantiumBlock := Some 0;
  ConstantinopleBlock := Some 0;
  EWASMBlock := None;
  Bsrr := Some {|
    Period := 5;
    Epoch := 360;
    Rewards := Some 360;
    StakeMinimum := Some StakeMinimum_str;
    LimitStakeBalance := Some LimitStakeBalance_str;
    SlashRound := 0;
    ForkFactor := f64_of_Z 1
  |};
  BIP1Block := Some 0;
  BIP2Block := Some 0;
  BIP3Block := Some 0;
  BIP4Block := Some 4
|}.

Definition TestnetChainConfig : ChainConfig := {|
  ChainID := Some 206;
  HomesteadBlock := Some 0;
  DAOForkBlock := None;
  DAOForkSupport := false;
  EIP150Block := None;
  EIP150Hash := zeroHash;
  EIP155Block := Some 0;
  EIP158Block := Some 0;
  ByzantiumBlock := None;
  ConstantinopleBlock := None;
  EWASMBlock := None;
  Bsrr := Some {|
    Period := 5;
    Epoch := 40;
    Rewards := Some 20000;
    StakeMinimum := Some StakeMinimum_str;
    LimitStakeBalance := Some LimitStakeBalance_str;
    SlashRound := 500;
    ForkFactor := f64_of_Z 1
  |};
  BIP1Block := None;
  BIP2Block := None;
  BIP3Block := None;
  BIP4Block := None
|}.

(** ** Fork predicates *)

Definition isForked (s head : option Z) : bool :=
  match s, head with
  | Some s, Some h => s <=? h
  | _, _ => false
  end.

Definition configNumEqual (x y : option Z) : bool :=
  match x, y with
  | None, None => true
  | Some x, Some y => x =? y
  | _, _ => false
  end.

Definition isForkIncompatible (s1 s2 head : option Z) : bool :=
  (isForked s1 head || isForked s2 head) && negb (configNumEqual s1 s2).

Definition IsHomestead c num := isForked (HomesteadBlock c) num.
Definition IsDAOFork c num := isForked (DAOForkBlock c) num.
Definition IsEIP150 c num := isForked (EIP150Block c) num.
Definition IsEIP155 c num := isForked (EIP155Block c) num.
Definition IsEIP158 c num := isForked (EIP158Block c) num.
Definition IsByzantium c num := isForked (ByzantiumBlock c) num.
Definition IsConstantinople c num := isForked (ConstantinopleBlock c) num.
Definition IsBIP1 c num := isForked (BIP1Block c) num.
Definition IsBIP2 c num := isForked (BIP2Block c) num.
Definition IsBIP3 c num := isForked (BIP3Block c) num.
Definition IsBIP4 c num := isForked (BIP4Block c) num.
Definition IsBIP1Block c (num : option Z) : bool :=
  match BIP1Block c, num with
  | Some b, Some n => b =? n
  | _, _ => false
  end.
Definition IsEWASM c num := isForked (EWASMBlock c) num.

(** ** Compatibility of two schedules *)

Record ConfigCompatError := {
  What : string;
  StoredConfig : option Z;
  NewConfig : option Z;
  RewindTo : Z                      (* uint64 *)
}.

Definition newCompatError (what : string) (storedblock newblock : option Z)
    : ConfigCompatError :=
  let rew :=
    match storedblock, newblock with
    | None, _ => newblock
    | Some _, None => storedblock
    | Some s, Some n => if s <? n then storedblock else newblock
    end in
  {| What := what; StoredConfig := storedblock; NewConfig := newblock;
     RewindTo := match rew with
                 | Some r => if 0 <? r then u64 (big_Uint64 r - 1) else 0
                 | None => 0
                 end |}.

Definition checkCompatible (c newcfg : ChainConfig) (head : option Z)
    : option ConfigCompatError :=
  if isForkIncompatible (HomesteadBlock c) (HomesteadBlock newcfg) head then
    Some (newCompatError "Homestead fork block" (HomesteadBlock c) (HomesteadBlock newcfg))
  else if isForkIncompatible (DAOForkBlock c) (DAOForkBlock newcfg) head then
    Some (newCompatError "DAO fork block" (DAOForkBlock c) (DAOForkBlock newcfg))
  else if IsDAOFork c head && negb (Bool.eqb (DAOForkSupport c) (DAOForkSupport newcfg)) then
    Some (newCompatError "DAO fork support flag" (DAOForkBlock c) (DAOForkBlock newcfg))
  else if isForkIncompatible (EIP150Block c) (EIP150Block newcfg) head then
    Some (newCompatError "EIP150 fork block" (EIP150Block c) (EIP150Block newcfg))
  else if isForkIncompatible (EIP155Block c) (EIP155Block newcfg) head then
    Some (newCompatError "EIP155 fork block" (EIP155Block c) (EIP155Block newcfg))
  else if isForkIncompatible (EIP158Block c) (EIP158Block newcfg) head then
    Some (newCompatError "EIP158 fork block" (EIP158Block c) (EIP158Block newcfg))
  else if IsEIP158 c head && negb (configNumEqual (ChainID c) (ChainID newcfg)) then
    Some (newCompatError "EIP158 chain ID" (EIP158Block c) (EIP158Block newcfg))
  else if isForkIncompatible (ByzantiumBlock c) (ByzantiumBlock newcfg) head then
    Some (newCompatError "Byzantium fork block" (ByzantiumBlock c) (ByzantiumBlock newcfg))
  else if isForkIncompatible (ConstantinopleBlock c) (ConstantinopleBlock newcfg) head then
    Some (newCompatError "Constantinople fork block" (ConstantinopleBlock c) (ConstantinopleBlock newcfg))
  else if isForkIncompatible (EWASMBlock c) (EWASMBlock newcfg) head then
    Some (newCompatError "ewasm fork block" (EWASMBlock c) (EWASMBlock newcfg))
  else if isForkIncompatible (BIP1Block c) (BIP1Block newcfg) head then
    Some (newCompatError "bip1 fork block" (BIP1Block c) (BIP1Block newcfg))
  else if isForkIncompatible (BIP2Block c) (BIP2Block newcfg) head then
    Some (newCompatError "bip2 fork block" (BIP2Block c) (BIP2Block newcfg))
  else if isForkIncompatible (BIP3Block c) (BIP3Block newcfg) head then
    Some (newCompatError "bip3 fork block" (BIP3Block c) (BIP3Block newcfg))
  else if isForkIncompatible (BIP4Block c) (BIP4Block newcfg) head then
    Some (newCompatError "bip4 fork block" (BIP4Block c) (BIP4Block newcfg))
  else None.

(** The loop of [CheckCompatible]: rewind to the reported height and try again
    until there is no conflict or the height does not move. *)
Fixpoint CheckCompatible_loop (fuel : nat) (c newcfg : ChainConfig) (bhead : Z)
    (lasterr : option ConfigCompatError) : result (option ConfigCompatError) :=
  match fuel with
  | O => Hang
  | S fuel' =>
      match checkCompatible c newcfg (Some bhead) with
      | None => Ok lasterr
      | Some err =>
          match lasterr with
          | Some l =>
              if RewindTo err =? RewindTo l then Ok lasterr
              else CheckCompatible_loop fuel' c newcfg (RewindTo err) (Some err)
          | None => CheckCompatible_loop fuel' c newcfg (RewindTo err) (Some err)
          end
      end
  end.

Definition CheckCompatible (fuel : nat) (c newcfg : ChainConfig) (height : Z)
    : result (option ConfigCompatError) :=
  CheckCompatible_loop fuel c newcfg height None.

(** ** Rules *)

Record Rules := {
  R_ChainID : Z;
  R_IsHomestead : bool; R_IsEIP150 : bool; R_IsEIP155 : bool; R_IsEIP158 : bool;
  R_IsByzantium : bool; R_IsConstantinople : bool
}.

Definition mkRules (c : ChainConfig) (num : option Z) : Rules := {|
  R_ChainID := default 0 (ChainID c);
  R_IsHomestead := IsHomestead c num;
  R_IsEIP150 := IsEIP150 c num;
  R_IsEIP155 := IsEIP155 c num;
  R_IsEIP158 := IsEIP158 c num;
  R_IsByzantium := IsByzantium c num;
  R_IsConstantinople := IsConstantinople c num
|}.

(** ** Lemmas *)

(** Fork activation is monotone in the block number. *)
Lemma isForked_mono s h1 h2 :
  h1 ≤ h2 → isForked s (Some h1) = true → isForked s (Some h2) = true.
Proof. destruct s as [s|]; simpl; [|done]. rewrite !Z.leb_le. lia. Qed.

(** A conflict on two schedules is reported with a rewind height strictly below
    the head, or 0 when a schedule starts at or before genesis. *)
Lemma newCompatError_rewind what s1 s2 h :
  is_u64 h → (isForked s1 (Some h) || isForked s2 (Some h)) = true →
  let r := RewindTo (newCompatError what s1 s2) in
  0 ≤ r ∧ (r < h ∨ r = 0) ∧
  (r < h → isForked s1 (Some r) = false ∧ isForked s2 (Some r) = false ∨ r = 0).
Proof.
  intros Hh Hf. destruct s1 as [a|], s2 as [b|]; simpl in *; try done;
    rewrite ?orb_true_iff, ?orb_false_r, ?Z.leb_le in Hf;
    [destruct (Z.ltb_spec a b)|..]; (case_match; [|lia]);
    match goal with H : (0 <? ?x) = true |- _ => apply Z.ltb_lt in H end;
    rewrite big_Uint64_small by word; rewrite u64_small by word;
    rewrite ?Z.leb_gt; (repeat split; try lia).
Qed.

(** Every conflict [checkCompatible] reports comes from a fork that one of the
    two schedules has already activated at the head. *)
Lemma checkCompatible_source c n h err :
  checkCompatible c n (Some h) = Some err →
  ∃ what s1 s2, err = newCompatError what s1 s2 ∧
    (isForked s1 (Some h) || isForked s2 (Some h)) = true.
Proof.
  unfold checkCompatible, isForkIncompatible, IsDAOFork, IsEIP158. intros H.
  repeat (case_match;
    [match goal with
     | E : (_ && _) = true |- _ => apply andb_true_iff in E as [E _]
     end; injection H as <-; do 3 eexists; split; [reflexivity|];
     first [assumption | by apply orb_true_iff; left] |]); done.
Qed.

Lemma checkCompatible_rewind c n h err :
  is_u64 h → checkCompatible c n (Some h) = Some err →
  0 ≤ RewindTo err ∧ (RewindTo err < h ∨ RewindTo err = 0).
Proof.
  intros Hh (what & s1 & s2 & -> & Hf)%checkCompatible_source.
  pose proof (newCompatError_rewind what s1 s2 h Hh Hf) as Hr; simpl in Hr. tauto.
Qed.

(** The state of the loop after its first iteration: the head is the height of
    the last error. *)
Lemma CheckCompatible_loop_spec fuel c n l :
  is_u64 (RewindTo l) → (Z.to_nat (RewindTo l) < fuel)%nat →
  ∃ e, CheckCompatible_loop fuel c n (RewindTo l) (Some l) = Ok (Some e) ∧
    0 ≤ RewindTo e ≤ RewindTo l ∧
    (checkCompatible c n (Some (RewindTo e)) = None ∨ RewindTo e = 0).
Proof.
  revert l. induction fuel as [|fuel IH]; intros l Hl Hfuel; [lia|]. simpl.
  destruct (checkCompatible c n (Some (RewindTo l))) as [err|] eqn:Hc;
    [|exists l; repeat split; auto; word].
  pose proof (checkCompatible_rewind _ _ _ _ Hl Hc) as [Hpos Hlt].
  destruct (Z.eqb_spec (RewindTo err) (RewindTo l)) as [Heq|Hne].
  { exists l. repeat split; [word|lia|]. right. lia. }
  destruct (IH err) as (e & He & Hle & Hdone); [word|word|].
  exists e. repeat split; auto; word.
Qed.

(** ** Properties *)

Lemma CheckCompatible_spec fuel c n height :
  is_u64 height → (S (Z.to_nat height) < fuel)%nat →
  match CheckCompatible fuel c n height with
  | Ok None => checkCompatible c n (Some height) = None
  | Ok (Some e) =>
      checkCompatible c n (Some height) ≠ None ∧
      0 ≤ RewindTo e ∧ (RewindTo e < height ∨ RewindTo e = 0) ∧
      (checkCompatible c n (Some (RewindTo e)) = None ∨ RewindTo e = 0)
  | _ => False
  end.
Proof.
  intros Hh Hf. unfold CheckCompatible. destruct fuel as [|fuel]; [lia|]. simpl.
  destruct (checkCompatible c n (Some height)) as [err|] eqn:Hc; [|done].
  pose proof (checkCompatible_rewind _ _ _ _ Hh Hc) as [Hpos Hlt].
  destruct (CheckCompatible_loop_spec fuel c n err) as (e & -> & He & Hdone);
    [word|word|].
  repeat split; auto; word.
Qed.

(** [CheckCompatible] terminates on every pair of schedules and every
    height.  It reports no conflict exactly when the schedules agree on every
    fork active at the height; otherwise it reports a rewind height below the
    current one (or 0) at which the two schedules no longer conflict (or 0,
    where nothing is left to rewind). *)
Theorem CheckCompatible_total_and_sound c n height
    (Hheight : is_u64 height) :
  match CheckCompatible (Z.to_nat height + 3) c n height with
  | Ok None => checkCompatible c n (Some height) = None
  | Ok (Some e) =>
      checkCompatible c n (Some height) ≠ None ∧
      0 ≤ RewindTo e ∧ (RewindTo e < height ∨ RewindTo e = 0) ∧
      (checkCompatible c n (Some (RewindTo e)) = None ∨ RewindTo e = 0)
  | _ => False
  end.
Proof. apply CheckCompatible_spec; [done|lia]. Qed.

(** The testnet schedule against the mainnet schedule at height 10. *)
Lemma CheckCompatible_witness :
  is_u64 10 ∧
  match CheckCompatible (Z.to_nat 10 + 3) TestnetChainConfig MainnetChainConfig 10 with
  | Ok None => checkCompatible TestnetChainConfig MainnetChainConfig (Some 10) = None
  | Ok (Some e) =>
      checkCompatible TestnetChainConfig MainnetChainConfig (Some 10) ≠ None ∧
      0 ≤ RewindTo e ∧ (RewindTo e < 10 ∨ RewindTo e = 0) ∧
      (checkCompatible TestnetChainConfig MainnetChainConfig (Some (RewindTo e)) = None
       ∨ RewindTo e = 0)
  | _ => False
  end.
Proof.
  assert (H : is_u64 10) by (unfold is_u64; rewrite two64_eq; lia).
  split; [exact H|].
  exact (CheckCompatible_total_and_sound TestnetChainConfig MainnetChainConfig 10 H).
Defined.
