(* ===== verification/Group.v ===== *)
(** * Rank groups and the sealing delay ([common/group.go], [BSRR.getDelay])

    Ranks are grouped in an arithmetic sequence (1, then groups of
    [CommonDiff]); the delay before a sealed block is broadcast grows with the
    group and with the position in the group. *)

From Stdlib Require Import ZArith Lia SpecFloat.
From stdpp Require Import base option list strings.
From S2P Require Import Prelude GoFloat.

(** ** [ArithmeticGroup] *)

Record ArithmeticGroup := { CommonDiff : Z }.

Definition GetGroupOrder (a : ArithmeticGroup) (termOrder : Z) : result Z :=
  if termOrder <? 1 then Err "term order must be larger than 0"
  else if termOrder =? 1 then Ok 1
  else
    let d := math_Ceil (f64_div (f64_of_Z (i64 (termOrder - 1)))
                                (f64_of_Z (CommonDiff a))) in
    Ok (i64 (int64_of_f64 d + 1)).

Definition GetGroupRange (a : ArithmeticGroup) (groupOrder : Z) : result (Z * Z) :=
  if groupOrder <? 1 then Err "group order must be larger than 0"
  else if groupOrder =? 1 then Ok (1, 1)
  else Ok (i64 (2 + i64 ((groupOrder - 2) * CommonDiff a)),
           i64 (1 + i64 ((groupOrder - 1) * CommonDiff a))).

(** ** [getDelay], in nanoseconds ([time.Duration]) *)

Definition commonDiff : Z := 3.
Definition termDelay : Z := 100 * 1000000.
Definition groupDelay : Z := 1000000000.

Definition getDelay (rankGroup : ArithmeticGroup) (rank : Z) : result Z :=
  if rank <=? 1 then Ok 0
  else
    let* groupOrder := GetGroupOrder rankGroup rank in
    let delay := i64 ((groupOrder - 1) * groupDelay) in
    let* r := GetGroupRange rankGroup groupOrder in
    let startRank := r.1 in
    Ok (i64 (delay + i64 ((rank - startRank) * termDelay))).

(** ** Lemmas *)

(** The group of a term, as an integer formula. *)
Definition group_of (d t : Z) : Z := if t =? 1 then 1 else 1 + (t - 1 + d - 1) / d.

Lemma GetGroupOrder_formula d t :
  0 < d < 2 ^ 31 → 1 ≤ t < 2 ^ 50 →
  GetGroupOrder {| CommonDiff := d |} t = Ok (group_of d t).
Proof.
  intros Hd Ht. unfold GetGroupOrder, group_of. simpl.
  destruct (Z.ltb_spec t 1); [lia|]. destruct (Z.eqb_spec t 1); [done|].
  rewrite (i64_small (t - 1)) by word. rewrite Ceil_div_Z by lia.
  assert (0 ≤ (t - 1 + d - 1) / d ≤ t - 1).
  { split; [apply Z.div_pos; lia|]. apply Z.div_le_upper_bound; [lia|nia]. }
  rewrite i64_small by word. f_equal. lia.
Qed.

Lemma group_of_pos d t : 0 < d → 1 ≤ t → 1 ≤ group_of d t.
Proof.
  intros Hd Ht. unfold group_of. destruct (Z.eqb_spec t 1); [lia|].
  pose proof (Z.div_pos (t - 1 + d - 1) d). lia.
Qed.

(** Group [g >= 2] is the interval of [d] ranks that starts at [2 + (g-2) d]. *)
Lemma group_of_iff d t g :
  0 < d → 1 < t → group_of d t = g ↔ 2 + (g - 2) * d ≤ t ≤ 1 + (g - 1) * d.
Proof.
  intros Hd Ht. unfold group_of. destruct (Z.eqb_spec t 1); [lia|].
  pose proof (Z.div_mod (t - 1 + d - 1) d ltac:(lia)).
  pose proof (Z.mod_pos_bound (t - 1 + d - 1) d ltac:(lia)).
  set (q := (t - 1 + d - 1) / d) in *. clearbody q.
  split; [intros <-; nia|]. intros Hg. nia.
Qed.

Lemma GetGroupRange_formula d g :
  0 < d < 2 ^ 31 → 2 ≤ g ∧ (g - 1) * d < 2 ^ 62 →
  GetGroupRange {| CommonDiff := d |} g = Ok (2 + (g - 2) * d, 1 + (g - 1) * d).
Proof.
  intros Hd Hg. unfold GetGroupRange. simpl.
  destruct (Z.ltb_spec g 1); [lia|]. destruct (Z.eqb_spec g 1); [lia|].
  assert (0 ≤ (g - 2) * d ≤ (g - 1) * d) by nia.
  rewrite (i64_small ((g - 2) * d)), (i64_small ((g - 1) * d)) by word.
  rewrite !i64_small by word. done.
Qed.

(** Every rank below [2^50] lies in exactly one group, the one
    [GetGroupOrder] computes in floating point, and [GetGroupRange] returns that
    group's bounds. *)
Theorem groups_partition_ranks d t t'
    (Hd : 0 < d < 2 ^ 31) (Ht : 1 ≤ t < 2 ^ 50) (Ht' : 1 ≤ t' < 2 ^ 50) :
  ∃ g lo hi,
    GetGroupOrder {| CommonDiff := d |} t = Ok g ∧
    GetGroupRange {| CommonDiff := d |} g = Ok (lo, hi) ∧
    lo ≤ t ≤ hi ∧
    (lo ≤ t' ≤ hi ↔ GetGroupOrder {| CommonDiff := d |} t' = Ok g).
Proof.
  rewrite !GetGroupOrder_formula by done. exists (group_of d t).
  destruct (decide (t = 1)) as [->|Hne].
  - exists 1, 1. change (group_of d 1) with 1. split_and!; try done.
    split; [intros; by replace t' with 1 by lia|]. intros [= Hg].
    destruct (decide (t' = 1)) as [->|]; [lia|].
    apply group_of_iff in Hg; lia.
  - pose proof (proj1 (group_of_iff d t _ ltac:(lia) ltac:(lia)) eq_refl) as Hin.
    pose proof (group_of_pos d t ltac:(lia) ltac:(lia)).
    set (g := group_of d t) in *. clearbody g.
    assert (Hg2 : 2 ≤ g) by nia.
    assert (Hgd : (g - 1) * d < 2 ^ 62)
      by (replace ((g - 1) * d) with ((g - 2) * d + d) by ring; lia).
    do 2 eexists. split; [done|]. rewrite GetGroupRange_formula by done.
    split; [done|]. split; [done|]. split.
    + intros H'. f_equal. apply group_of_iff; [lia| |done]. nia.
    + intros [= Hg]. destruct (decide (t' = 1)) as [->|].
      * unfold group_of in Hg. simpl in Hg. nia.
      * apply group_of_iff in Hg; [done|lia..].
Qed.

Lemma groups_partition_witness :
  (0 < 3 < 2 ^ 31) ∧ (1 ≤ 6 < 2 ^ 50) ∧ (1 ≤ 8 < 2 ^ 50) ∧
  ∃ g lo hi,
    GetGroupOrder {| CommonDiff := 3 |} 6 = Ok g ∧
    GetGroupRange {| CommonDiff := 3 |} g = Ok (lo, hi) ∧
    lo ≤ 6 ≤ hi ∧
    (lo ≤ 8 ≤ hi ↔ GetGroupOrder {| CommonDiff := 3 |} 8 = Ok g).
Proof.
  do 3 (split; [lia|]).
  apply (groups_partition_ranks 3 6 8); lia.
Defined.

(** The delay of a rank, as an integer formula. *)
Lemma getDelay_formula r :
  1 < r ≤ 2 ^ 34 →
  getDelay {| CommonDiff := commonDiff |} r =
  Ok ((group_of 3 r - 1) * groupDelay + (r - (2 + (group_of 3 r - 2) * 3)) * termDelay).
Proof.
  intros Hr. unfold getDelay, commonDiff. destruct (Z.leb_spec r 1); [lia|].
  rewrite GetGroupOrder_formula by lia. simpl bind.
  pose proof (proj1 (group_of_iff 3 r _ ltac:(lia) ltac:(lia)) eq_refl) as Hin.
  pose proof (group_of_pos 3 r ltac:(lia) ltac:(lia)).
  set (g := group_of 3 r) in *. clearbody g.
  rewrite GetGroupRange_formula by lia. simpl bind. unfold groupDelay, termDelay in *.
  simpl fst. rewrite (i64_small ((g - 1) * _)), (i64_small ((r - _) * _)) by word.
  rewrite i64_small by word. done.
Qed.

(** The sealing delay is never negative and strictly increases with the
    rank (up to [2^34] ranks), so that two signers never share a time slot and
    a better rank always broadcasts first. *)
Theorem getDelay_strictly_increasing r1 r2
    (Hr : 1 ≤ r1 < r2) (Hmax : r2 ≤ 2 ^ 34) :
  ∃ d1 d2,
    getDelay {| CommonDiff := commonDiff |} r1 = Ok d1 ∧
    getDelay {| CommonDiff := commonDiff |} r2 = Ok d2 ∧
    0 ≤ d1 < d2.
Proof.
  rewrite (getDelay_formula r2) by lia.
  pose proof (proj1 (group_of_iff 3 r2 _ ltac:(lia) ltac:(lia)) eq_refl) as Hin2.
  destruct (decide (r1 = 1)) as [->|Hne].
  { do 2 eexists. split; [done|]. split; [done|].
    pose proof (group_of_pos 3 r2 ltac:(lia) ltac:(lia)). unfold groupDelay, termDelay. lia. }
  rewrite (getDelay_formula r1) by lia.
  pose proof (proj1 (group_of_iff 3 r1 _ ltac:(lia) ltac:(lia)) eq_refl) as Hin1.
  pose proof (group_of_pos 3 r1 ltac:(lia) ltac:(lia)).
  do 2 eexists. split; [done|]. split; [done|]. unfold groupDelay, termDelay. lia.
Qed.

Lemma getDelay_witness :
  (1 ≤ 4 < 5) ∧ 5 ≤ 2 ^ 34 ∧
  ∃ d1 d2,
    getDelay {| CommonDiff := commonDiff |} 4 = Ok d1 ∧
    getDelay {| CommonDiff := commonDiff |} 5 = Ok d2 ∧
    0 ≤ d1 < d2.
Proof.
  do 2 (split; [lia|]).
  apply (getDelay_strictly_increasing 4 5); lia.
Defined.
