(* ===== verification/Rlp.v ===== *)
(** * Recursive length prefix encoding ([rlp/encode.go])

    [Encode] walks a Go value by reflection; the shape it sees is a tree of byte
    strings and lists.  The encoder writes string data to a buffer and records
    list headers on the side, to be spliced in at the end.  The reference
    encoding writes each header in front of its content. *)

From Stdlib Require Import ZArith Lia.
From stdpp Require Import base option list strings.
From S2P Require Import Prelude.

(** ** Values *)

Inductive item : Type :=
| RStr (b : bytes)
| RList (l : list item).

(** ** Sizes and headers *)

(** [intsize]: the loop [for size = 1; ; size++ { if i >>= 8; i == 0 {...} }]. *)
Fixpoint intsize_loop (fuel : nat) (i size : Z) : Z :=
  match fuel with
  | O => size
  | S f => let i := Z.shiftr i 8 in if i =? 0 then size else intsize_loop f i (size + 1)
  end.
Definition intsize (i : Z) : Z := intsize_loop 8 i 1.

(** [putint]: the big-endian bytes of [i], as few as needed. *)
Definition byte_at (i k : Z) : Z := Z.shiftr i k mod 256.
Definition putint (i : Z) : bytes :=
  if i <? 2 ^ 8 then [byte_at i 0]
  else if i <? 2 ^ 16 then byte_at i <$> [8; 0]
  else if i <? 2 ^ 24 then byte_at i <$> [16; 8; 0]
  else if i <? 2 ^ 32 then byte_at i <$> [24; 16; 8; 0]
  else if i <? 2 ^ 40 then byte_at i <$> [32; 24; 16; 8; 0]
  else if i <? 2 ^ 48 then byte_at i <$> [40; 32; 24; 16; 8; 0]
  else if i <? 2 ^ 56 then byte_at i <$> [48; 40; 32; 24; 16; 8; 0]
  else byte_at i <$> [56; 48; 40; 32; 24; 16; 8; 0].

Definition headsize (size : Z) : Z := if size <? 56 then 1 else 1 + intsize size.

Definition puthead (smalltag largetag size : Z) : bytes :=
  if size <? 56 then [(smalltag + size) mod 256]
  else let p := putint size in (largetag + Z.of_nat (length p)) mod 256 :: p.

Definition encodeStringHeader (size : Z) : bytes :=
  if size <? 56 then [(0x80 + size) mod 256]
  else let p := putint size in (0xB7 + Z.of_nat (length p)) mod 256 :: p.

Definition encodeString (b : bytes) : bytes :=
  match b with
  | [x] => if x <=? 0x7F then [x] else encodeStringHeader 1 ++ [x]
  | _ => encodeStringHeader (Z.of_nat (length b)) ++ b
  end.

(** ** Unsigned integers *)

Definition writeUint (i : Z) : bytes :=
  if i =? 0 then [0x80]
  else if i <? 128 then [i]
  else let p := putint i in (0x80 + Z.of_nat (length p)) mod 256 :: p.

Definition writeBigInt (i : Z) : result bytes :=
  if i <? 0 then Err "rlp: cannot encode negative *big.Int"
  else if i =? 0 then Ok [0x80]
  else Ok (encodeString (Z_be i)).

(** ** Reference encoding *)

Fixpoint rlp_encode (v : item) : bytes :=
  match v with
  | RStr b => encodeString b
  | RList l =>
      let body := concat (rlp_encode <$> l) in
      puthead 0xC0 0xF7 (Z.of_nat (length body)) ++ body
  end.

(** The items the Go writers produce for integers. *)
Definition RUint (i : Z) : item := RStr (if i =? 0 then [] else Z_be i).

(** ** The encoder buffer ([encbuf])

    String data goes to [str]; a list header is remembered with its offset in
    [str] and, until [listEnd], the total header size at its start. *)

Record listhead := { lh_offset : Z; lh_size : Z }.
Record encbuf := { str : bytes; lheads : list listhead; lhsize : Z }.

Definition newEncbuf : encbuf := {| str := []; lheads := []; lhsize := 0 |}.

Definition encbuf_Write (w : encbuf) (b : bytes) : encbuf :=
  {| str := str w ++ b; lheads := lheads w; lhsize := lhsize w |}.

Definition encbuf_size (w : encbuf) : Z := Z.of_nat (length (str w)) + lhsize w.

(** [list] returns the position of the new header, which stands for the pointer. *)
Definition encbuf_list (w : encbuf) : nat * encbuf :=
  (length (lheads w),
   {| str := str w;
      lheads := lheads w ++ [{| lh_offset := Z.of_nat (length (str w)); lh_size := lhsize w |}];
      lhsize := lhsize w |}).

Definition encbuf_listEnd (w : encbuf) (lh : nat) : encbuf :=
  match lheads w !! lh with
  | None => w
  | Some h =>
      let size := encbuf_size w - lh_offset h - lh_size h in
      {| str := str w;
         lheads := <[lh := {| lh_offset := lh_offset h; lh_size := size |}]> (lheads w);
         lhsize := if size <? 56 then lhsize w + 1 else lhsize w + (1 + intsize size) |}
  end.

(** The writers the reflection picks: [writeBytes] and its like for strings, a
    header around the elements for slices and structs. *)
Fixpoint encbuf_encode (v : item) (w : encbuf) : encbuf :=
  match v with
  | RStr b => encbuf_Write w (encodeString b)
  | RList l =>
      let '(lh, w) := encbuf_list w in
      let w := foldl (λ w v, encbuf_encode v w) w l in
      encbuf_listEnd w lh
  end.

Definition listhead_encode (h : listhead) : bytes := puthead 0xC0 0xF7 (lh_size h).

(** [toBytes]: the data up to each header, the header, and the rest. *)
Fixpoint toBytes_loop (str : bytes) (lheads : list listhead) (strpos : Z) : bytes :=
  match lheads with
  | [] => drop (Z.to_nat strpos) str
  | head :: lheads' =>
      take (Z.to_nat (lh_offset head - strpos)) (drop (Z.to_nat strpos) str) ++
      listhead_encode head ++ toBytes_loop str lheads' (lh_offset head)
  end.
Definition toBytes (w : encbuf) : bytes := toBytes_loop (str w) (lheads w) 0.

Definition EncodeToBytes (v : item) : bytes := toBytes (encbuf_encode v newEncbuf).

(** ** Splitting encoded data ([raw.go]) *)

Inductive Kind := KByte | KString | KList.

#[export] Instance Kind_eq_dec : EqDecision Kind.
Proof. solve_decision. Defined.

Definition ErrUnexpectedEOF : string := "unexpected EOF".
Definition ErrExpectedString : string := "rlp: expected String or Byte".
Definition ErrExpectedList : string := "rlp: expected List".
Definition ErrCanonSize : string := "rlp: non-canonical size information".
Definition ErrValueTooLarge : string := "rlp: value size exceeds available input length".

(** [readSize]: the shifts and ors of the [slen] cases read a big-endian number. *)
Definition readSize (b : bytes) (slen : Z) : result Z :=
  if Z.of_nat (length b) <? slen then Err ErrUnexpectedEOF
  else
    let s := be_Z (take (Z.to_nat slen) b) in
    if (s <? 56) || (default 0 (head b) =? 0) then Err ErrCanonSize else Ok s.

Definition raw_readKind (buf : bytes) : result (Kind * Z * Z) :=
  match buf with
  | [] => Err ErrUnexpectedEOF
  | b :: tl =>
      let* (k, tagsize, contentsize) :=
        if b <? 0x80 then Ok (KByte, 0, 1)
        else if b <? 0xB8 then
          let contentsize := b - 0x80 in
          if (contentsize =? 1) && (match tl with x :: _ => x <? 128 | [] => false end)
          then Err ErrCanonSize
          else Ok (KString, 1, contentsize)
        else if b <? 0xC0 then
          let* contentsize := readSize tl (b - 0xB7) in Ok (KString, b - 0xB7 + 1, contentsize)
        else if b <? 0xF8 then Ok (KList, 1, b - 0xC0)
        else
          let* contentsize := readSize tl (b - 0xF7) in Ok (KList, b - 0xF7 + 1, contentsize) in
      if u64 (Z.of_nat (length buf) - tagsize) <? contentsize then Err ErrValueTooLarge
      else Ok (k, tagsize, contentsize)
  end.

Definition Split (b : bytes) : result (Kind * bytes * bytes) :=
  let* (k, ts, cs) := raw_readKind b in
  Ok (k, take (Z.to_nat cs) (drop (Z.to_nat ts) b), drop (Z.to_nat (ts + cs)) b).

Definition SplitString (b : bytes) : result (bytes * bytes) :=
  let* (k, content, rest) := Split b in
  match k with KList => Err ErrExpectedString | _ => Ok (content, rest) end.

Definition SplitList (b : bytes) : result (bytes * bytes) :=
  let* (k, content, rest) := Split b in
  match k with KList => Ok (content, rest) | _ => Err ErrExpectedList end.

(** [CountValues]; every round drops at least one byte, so [length b] rounds
    are enough. *)
Fixpoint CountValues_loop (fuel : nat) (b : bytes) (i : Z) : result Z :=
  match b with
  | [] => Ok i
  | _ :: _ =>
      match fuel with
      | O => Hang
      | S f =>
          let* (_, tagsize, size) := raw_readKind b in
          CountValues_loop f (drop (Z.to_nat (tagsize + size)) b) (i + 1)
      end
  end.
Definition CountValues (b : bytes) : result Z := CountValues_loop (length b) b 0.

(** [ListSize] *)
Definition ListSize (contentSize : Z) : Z := u64 (headsize contentSize + contentSize).

(** ** Lemmas: integers and headers *)

Lemma item_ind' (P : item → Prop) :
  (∀ b, P (RStr b)) → (∀ l, Forall P l → P (RList l)) → ∀ v, P v.
Proof.
  intros Hs Hl. fix IH 1. intros [b|l]; [apply Hs|]. apply Hl.
  induction l as [|v l IHl]; constructor; [apply IH|apply IHl].
Qed.

Lemma byte_at_div i k : 0 ≤ k → byte_at (i / 256) k = byte_at i (k + 8).
Proof.
  intros Hk. unfold byte_at. change 256 with (2 ^ 8) at 1.
  rewrite <- Z.shiftr_div_pow2, Z.shiftr_shiftr by lia. do 2 f_equal. lia.
Qed.

Lemma byte_at_0 i : byte_at i 0 = i mod 256.
Proof. unfold byte_at. by rewrite Z.shiftr_0_r. Qed.

Lemma putint_step i : 256 ≤ i < two64 → putint i = putint (i / 256) ++ [i mod 256].
Proof.
  intros Hi. rewrite two64_eq in Hi. unfold putint.
  assert (Hd : ∀ k, 0 ≤ k → (i / 256 <? 2 ^ k) = (i <? 2 ^ (k + 8))).
  { intros k Hk. rewrite Z.pow_add_r by lia. change (2 ^ 8) with 256.
    apply eq_true_iff_eq. rewrite !Z.ltb_lt. split; intros.
    - pose proof (Z.div_mod i 256 ltac:(lia)). pose proof (Z.mod_pos_bound i 256). nia.
    - apply Z.div_lt_upper_bound; lia. }
  rewrite !Hd by lia. change (8 + 8) with 16. change (16 + 8) with 24. change (24 + 8) with 32.
  change (32 + 8) with 40. change (40 + 8) with 48. change (48 + 8) with 56. change (56 + 8) with 64.
  rewrite (proj2 (Z.ltb_ge i (2 ^ 8))) by lia.
  rewrite <- (byte_at_0 i).
  do 6 (case_match; [cbn [fmap list_fmap app]; rewrite ?byte_at_div by lia; done|]).
  case_match eqn:E; [cbn [fmap list_fmap app]; rewrite ?byte_at_div by lia; done|].
  apply Z.ltb_ge in E. lia.
Qed.

Lemma putint_be i : 0 < i < two64 → putint i = Z_be i.
Proof.
  intros [Hpos Hlt]. revert Hpos Hlt. pattern i. apply (well_founded_induction (Z.lt_wf 0)).
  clear i. intros i IH Hpos Hlt. rewrite Z_be_step by done.
  destruct (decide (i < 256)).
  - rewrite Z.div_small, Z.mod_small by lia. unfold putint.
    rewrite (proj2 (Z.ltb_lt i (2 ^ 8))) by lia. rewrite byte_at_0, Z.mod_small by lia. done.
  - rewrite putint_step by lia. f_equal. rewrite two64_eq in *. apply IH; zdiv.
Qed.

Lemma intsize_loop_step f i k :
  0 ≤ i → intsize_loop (S f) i k = if i <? 256 then k else intsize_loop f (i / 256) (k + 1).
Proof.
  intros Hi. simpl. rewrite Z.shiftr_div_pow2 by lia. change (2 ^ 8) with 256.
  destruct (Z.ltb_spec i 256); destruct (Z.eqb_spec (i / 256) 0); try done; zdiv.
Qed.

Lemma intsize_loop_putint f i k :
  0 ≤ i < two64 → i < 256 ^ (Z.of_nat f) →
  intsize_loop f i k = k + Z.of_nat (length (putint i)) - 1.
Proof.
  revert i k; induction f as [|f IH]; intros i k Hi Hf.
  - assert (i = 0) as -> by (simpl in Hf; lia). simpl. lia.
  - rewrite intsize_loop_step by lia. destruct (Z.ltb_spec i 256) as [|Hge].
    + unfold putint. rewrite (proj2 (Z.ltb_lt i (2 ^ 8))) by lia. simpl. lia.
    + rewrite Nat2Z.inj_succ, Z.pow_succ_r in Hf by lia. rewrite two64_eq in *.
      rewrite IH; [|zdiv|apply Z.div_lt_upper_bound; lia].
      rewrite (putint_step i), length_app by (rewrite two64_eq; lia). simpl. lia.
Qed.

Lemma intsize_putint i : 0 ≤ i < two64 → intsize i = Z.of_nat (length (putint i)).
Proof. intros Hi. unfold intsize. rewrite intsize_loop_putint by (done || (simpl; word)). lia. Qed.

Lemma putint_length i : (1 ≤ length (putint i) ≤ 8)%nat.
Proof. unfold putint. repeat case_match; simpl; lia. Qed.

(** The declared header size is the length of the header. *)
Lemma headsize_puthead a b n :
  0 ≤ n < two64 → headsize n = Z.of_nat (length (puthead a b n)).
Proof.
  intros Hn. unfold headsize, puthead. case_match; [done|].
  rewrite intsize_putint by done. simpl. lia.
Qed.

(** ** Lemmas: the buffer renders the reference encoding *)

(** What an item adds to the string data and to the headers. *)
Fixpoint strs (v : item) : bytes :=
  match v with RStr b => encodeString b | RList l => concat (strs <$> l) end.

Definition list_size (l : list item) : Z := Z.of_nat (length (concat (rlp_encode <$> l))).

Fixpoint heads (off : Z) (v : item) : list listhead :=
  match v with
  | RStr _ => []
  | RList l =>
      {| lh_offset := off; lh_size := list_size l |} ::
      (fix go (off : Z) (l : list item) : list listhead :=
         match l with
         | [] => []
         | v :: l' => heads off v ++ go (off + Z.of_nat (length (strs v))) l'
         end) off l
  end.

Fixpoint heads_list (off : Z) (l : list item) : list listhead :=
  match l with
  | [] => []
  | v :: l' => heads off v ++ heads_list (off + Z.of_nat (length (strs v))) l'
  end.

Lemma heads_RList off l :
  heads off (RList l) = {| lh_offset := off; lh_size := list_size l |} :: heads_list off l.
Proof. reflexivity. Qed.

Definition header_bytes (v : item) : Z :=
  Z.of_nat (length (rlp_encode v)) - Z.of_nat (length (strs v)).

Definition after (w : encbuf) (v : item) : encbuf := {|
  str := str w ++ strs v;
  lheads := lheads w ++ heads (Z.of_nat (length (str w))) v;
  lhsize := lhsize w + header_bytes v
|}.

Lemma after_list l w :
  Forall (λ v, ∀ w, encbuf_encode v w = after w v) l →
  foldl (λ w v, encbuf_encode v w) w l = {|
    str := str w ++ strs (RList l);
    lheads := lheads w ++ heads_list (Z.of_nat (length (str w))) l;
    lhsize := lhsize w + list_size l - Z.of_nat (length (strs (RList l)))
  |}.
Proof.
  intros Hl. revert w. induction Hl as [|v l Hv Hl IH]; intros w; cbn [foldl].
  - destruct w. unfold list_size. simpl. rewrite !app_nil_r. f_equal. lia.
  - rewrite Hv, IH. unfold after, list_size, header_bytes. cbn [str lheads lhsize strs heads_list].
    rewrite !fmap_cons, !concat_cons, !length_app, <- !app_assoc. f_equal; [|lia].
    do 3 f_equal. lia.
Qed.

(** An item whose encoding has a 64-bit length. *)
Definition sized (v : item) : Prop := Z.of_nat (length (rlp_encode v)) < two64.

Lemma encbuf_encode_after v w : sized v → encbuf_encode v w = after w v.
Proof.
  revert w. induction v as [b|l IH] using item_ind'; intros w Hs.
  - unfold after. simpl. unfold encbuf_Write, header_bytes. simpl. rewrite app_nil_r. f_equal. lia.
  - assert (Hsl : list_size l < two64 ∧ Forall sized l).
    { unfold sized in Hs. cbn [rlp_encode] in Hs. rewrite length_app in Hs. unfold list_size.
      split; [lia|]. apply Forall_forall. intros v Hv. unfold sized.
      apply list_elem_of_split in Hv as (l1 & l2 & ->).
      rewrite fmap_app, fmap_cons, concat_app, concat_cons, !length_app in Hs. lia. }
    destruct Hsl as [Hls Hfs].
    cbn [encbuf_encode encbuf_list].
    rewrite after_list.
    2: { rewrite Forall_forall in IH, Hfs |- *. intros v Hv w'. apply IH; [done|by apply Hfs]. }
    unfold encbuf_listEnd. cbn [str lheads lhsize].
    rewrite <- app_assoc, lookup_app_r, Nat.sub_diag by lia. cbn [app lookup list_lookup].
    unfold encbuf_size. cbn [str lheads lhsize lh_offset lh_size].
    replace (_ - _ - _) with (list_size l) by (rewrite length_app; lia).
    unfold after. rewrite heads_RList. f_equal.
    + rewrite insert_app_r_alt, Nat.sub_diag by lia. done.
    + unfold header_bytes. cbn [rlp_encode]. rewrite length_app. fold (list_size l).
      assert (Hh := headsize_puthead 0xC0 0xF7 (list_size l) ltac:(unfold list_size in *; lia)).
      unfold headsize in Hh. unfold list_size in *. case_match; lia.
Qed.

Definition offsets_from (off : Z) (H : list listhead) : Prop := Forall (λ h, off ≤ lh_offset h) H.

Lemma toBytes_skip S H off b tl :
  0 ≤ off → drop (Z.to_nat off) S = b ++ tl →
  offsets_from (off + Z.of_nat (length b)) H →
  toBytes_loop S H off = b ++ toBytes_loop S H (off + Z.of_nat (length b)).
Proof.
  intros Hoff Hd Hfrom.
  assert (Hd' : drop (Z.to_nat (off + Z.of_nat (length b))) S = tl).
  { rewrite Z2Nat.inj_add, Nat2Z.id, <- drop_drop, Hd, drop_app_length by lia. done. }
  destruct H as [|h H]; cbn [toBytes_loop]; [by rewrite Hd, Hd'|].
  apply Forall_cons in Hfrom as [Hh _]. rewrite Hd, Hd'.
  rewrite take_app_ge by lia. rewrite <- app_assoc. do 3 f_equal. lia.
Qed.

Lemma offsets_weaken a b H : a ≤ b → offsets_from b H → offsets_from a H.
Proof. intros Hab Hb. apply (Forall_impl _ _ _ Hb). intros h ?. lia. Qed.

Lemma heads_from off v : offsets_from off (heads off v).
Proof.
  revert off. induction v as [b|l IH] using item_ind'; intros off; [constructor|].
  rewrite heads_RList. constructor; [simpl; lia|].
  revert off. induction IH as [|v l Hv _ IH]; intros off; [constructor|].
  simpl. apply Forall_app. split; [apply Hv|]. eapply offsets_weaken; [|apply IH]. lia.
Qed.

Lemma heads_list_from off l : offsets_from off (heads_list off l).
Proof. pose proof (heads_from off (RList l)) as H. rewrite heads_RList in H. exact (proj2 (proj1 (Forall_cons _ _ _) H)). Qed.

Definition renders (v : item) : Prop := ∀ S H off tl,
  0 ≤ off → drop (Z.to_nat off) S = strs v ++ tl →
  offsets_from (off + Z.of_nat (length (strs v))) H →
  toBytes_loop S (heads off v ++ H) off =
  rlp_encode v ++ toBytes_loop S H (off + Z.of_nat (length (strs v))).

Lemma renders_list l : Forall renders l → ∀ S H off tl,
  0 ≤ off → drop (Z.to_nat off) S = concat (strs <$> l) ++ tl →
  offsets_from (off + Z.of_nat (length (concat (strs <$> l)))) H →
  toBytes_loop S (heads_list off l ++ H) off =
  concat (rlp_encode <$> l) ++ toBytes_loop S H (off + Z.of_nat (length (concat (strs <$> l)))).
Proof.
  induction 1 as [|v l Hv Hl IH]; intros S H off tl Hoff Hd Hfrom.
  - simpl. f_equal. lia.
  - cbn [heads_list]. rewrite !fmap_cons, !concat_cons in *. rewrite <- !app_assoc in *.
    rewrite length_app in Hfrom |- *.
    assert (Hd' : drop (Z.to_nat (off + Z.of_nat (length (strs v)))) S = concat (strs <$> l) ++ tl).
    { rewrite Z2Nat.inj_add, Nat2Z.id, <- drop_drop, Hd, drop_app_length by lia. done. }
    rewrite (Hv S _ off (concat (strs <$> l) ++ tl)); [|lia|done|].
    2: { apply Forall_app. split; [apply heads_list_from|].
         eapply offsets_weaken; [|exact Hfrom]. lia. }
    f_equal. rewrite (IH S H _ tl); [|lia|done|].
    + do 2 f_equal. lia.
    + eapply offsets_weaken; [|exact Hfrom]. lia.
Qed.

Lemma renders_item v : renders v.
Proof.
  induction v as [b|l IH] using item_ind'; intros S H off tl Hoff Hd Hfrom.
  - simpl in *. by apply (toBytes_skip _ _ _ _ tl).
  - rewrite heads_RList. cbn [app toBytes_loop lh_offset].
    rewrite Z.sub_diag. cbn [Z.to_nat take app]. cbn [rlp_encode strs] in *.
    rewrite (renders_list l IH S H off tl) by done. rewrite <- app_assoc. done.
Qed.

(** The encoder with its buffer of string data and separate list headers
    produces the reference encoding, in which every header stands directly in
    front of its content, for every value whose encoding has a 64-bit length. *)
Theorem EncodeToBytes_reference v (Hs : sized v) : EncodeToBytes v = rlp_encode v.
Proof.
  unfold EncodeToBytes, toBytes. rewrite encbuf_encode_after by done. cbn [after str lheads].
  change (Z.of_nat (length (str newEncbuf))) with 0. cbn [newEncbuf str lheads app].
  rewrite <- (app_nil_r (heads 0 v)).
  rewrite (renders_item v (strs v) [] 0 []); [|lia|by rewrite app_nil_r|constructor].
  cbn [toBytes_loop]. rewrite drop_ge by lia. by rewrite app_nil_r.
Qed.

Lemma EncodeToBytes_witness :
  EncodeToBytes (RList [RStr [1]; RList [RStr [0x80; 3]; RList []]]) =
  [0xc6; 1; 0xc4; 0x82; 0x80; 3; 0xc0].
Proof. rewrite EncodeToBytes_reference; [reflexivity|vm_compute; reflexivity]. Defined.
