(* ===== verification/RlpStream.v ===== *)
(** * Streaming decoder ([rlp/decode.go])

    [Stream] reads one value after the other from a byte reader and keeps a
    stack of the lists it is in.  Its operations are modelled as a state monad
    whose state survives an error, because the element loop of a list
    continues after the error [EOL].  The reader is a [bytes.Reader], as in
    [DecodeBytes].  The theorems show that decoding inverts encoding and that
    every accepted input is the canonical encoding of the decoded value. *)

From Stdlib Require Import ZArith Lia.
From stdpp Require Import base option list strings.
From S2P Require Import Prelude Rlp.

(** ** The stream and its monad *)

Record Stream := {
  rd : bytes;                       (* what the reader has left *)
  remaining : Z;
  limited : bool;
  kind : option Kind;               (* [None] is -1: not read yet *)
  size : Z;
  byteval : Z;
  kinderr : option string;
  stack : list (Z * Z)              (* pos and size, innermost list first *)
}.

Definition SM (A : Type) : Type := Stream → result A * Stream.

Definition sret {A} (a : A) : SM A := λ s, (Ok a, s).
Definition sfail {A} (e : string) : SM A := λ s, (Err e, s).
Definition sbind {A B} (m : SM A) (k : A → SM B) : SM B := λ s,
  match m s with
  | (Ok a, s') => k a s'
  | (Err e, s') => (Err e, s')
  | (Panic w, s') => (Panic w, s')
  | (Hang, s') => (Hang, s')
  end.

Notation "'let!' x := m 'in' k" := (sbind m (λ x, k))
  (at level 10, x pattern, m at level 100, k at level 200,
   format "'[v' 'let!'  x  :=  m  'in' '/' k ']'") : go_scope.

Definition set_rd (s : Stream) (b : bytes) : Stream :=
  {| rd := b; remaining := remaining s; limited := limited s; kind := kind s;
     size := size s; byteval := byteval s; kinderr := kinderr s; stack := stack s |}.
Definition set_remaining (s : Stream) (n : Z) : Stream :=
  {| rd := rd s; remaining := n; limited := limited s; kind := kind s;
     size := size s; byteval := byteval s; kinderr := kinderr s; stack := stack s |}.
Definition set_kind (s : Stream) (k : option Kind) : Stream :=
  {| rd := rd s; remaining := remaining s; limited := limited s; kind := k;
     size := size s; byteval := byteval s; kinderr := kinderr s; stack := stack s |}.
Definition set_size (s : Stream) (n : Z) : Stream :=
  {| rd := rd s; remaining := remaining s; limited := limited s; kind := kind s;
     size := n; byteval := byteval s; kinderr := kinderr s; stack := stack s |}.
Definition set_byteval (s : Stream) (b : Z) : Stream :=
  {| rd := rd s; remaining := remaining s; limited := limited s; kind := kind s;
     size := size s; byteval := b; kinderr := kinderr s; stack := stack s |}.
Definition set_kinderr (s : Stream) (e : option string) : Stream :=
  {| rd := rd s; remaining := remaining s; limited := limited s; kind := kind s;
     size := size s; byteval := byteval s; kinderr := e; stack := stack s |}.
Definition set_stack (s : Stream) (st : list (Z * Z)) : Stream :=
  {| rd := rd s; remaining := remaining s; limited := limited s; kind := kind s;
     size := size s; byteval := byteval s; kinderr := kinderr s; stack := st |}.

(** ** Errors *)

Definition EOL : string := "rlp: end of list".
Definition EOF : string := "EOF".
Definition ErrCanonInt : string := "rlp: non-canonical integer format".
Definition ErrElemTooLarge : string := "rlp: element is larger than containing list".
Definition ErrMoreThanOneValue : string := "rlp: input contains more than one value".
Definition errNotInList : string := "rlp: call of ListEnd outside of any list".
Definition errNotAtEOL : string := "rlp: call of ListEnd not positioned at EOL".
Definition errUintOverflow : string := "rlp: uint overflow".

(** [wrapStreamError]: the message of the [decodeError], without the type name
    and the path that are added for printing. *)
Definition wrapStreamError (err : string) : string :=
  if String.eqb err ErrCanonInt then "non-canonical integer (leading zero bytes)"
  else if String.eqb err ErrCanonSize then "non-canonical size information"
  else if String.eqb err ErrExpectedList then "expected input list"
  else if String.eqb err ErrExpectedString then "expected input string or byte"
  else if String.eqb err errUintOverflow then "input string too long"
  else if String.eqb err errNotAtEOL then "input list has too many elements"
  else err.

Definition wrapped {A} (m : SM A) : SM A := λ s,
  match m s with
  | (Err e, s') => (Err (wrapStreamError e), s')
  | x => x
  end.

(** ** Reading *)

Definition willRead (n : Z) : SM unit := λ s,
  let s := set_kind s None in
  let limit s :=
    if limited s then
      if remaining s <? n then (Err ErrValueTooLarge, s)
      else (Ok tt, set_remaining s (remaining s - n))
    else (Ok tt, s) in
  match stack s with
  | (pos, sz) :: st =>
      if u64 (sz - pos) <? n then (Err ErrElemTooLarge, s)
      else limit (set_stack s ((u64 (pos + n), sz) :: st))
  | [] => limit s
  end.

(** [readFull] fills a buffer of [n] bytes; [Read] on a [bytes.Reader] returns
    what is left, and the next call [io.EOF]. *)
Definition readFull (n : Z) : SM bytes :=
  let! _ := willRead n in
  λ s, if Z.of_nat (length (rd s)) <? n then (Err ErrUnexpectedEOF, set_rd s [])
       else (Ok (take (Z.to_nat n) (rd s)), set_rd s (drop (Z.to_nat n) (rd s))).

Definition readByte : SM Z :=
  let! _ := willRead 1 in
  λ s, match rd s with
       | [] => (Err ErrUnexpectedEOF, s)
       | b :: tl => (Ok b, set_rd s tl)
       end.

Definition readUint (sz : Z) : SM Z :=
  if sz =? 0 then λ s, (Ok 0, set_kind s None)
  else if sz =? 1 then readByte
  else
    let! buf := readFull sz in
    if default 0 (head buf) =? 0 then sfail ErrCanonSize else sret (be_Z buf).

(** The long forms of [readKind]: the size is read from the input. *)
Definition sized_kind (k : Kind) (m : SM Z) (s : Stream) : (Kind * Z * option string) * Stream :=
  match m s with
  | (Ok n, s) => ((k, n, if n <? 56 then Some ErrCanonSize else None), s)
  | (Err e, s) => ((k, 0, Some e), s)
  | (_, s) => ((k, 0, None), s)
  end.

(** [readKind] returns kind and size also with an error. *)
Definition readKind (s : Stream) : (Kind * Z * option string) * Stream :=
  match readByte s with
  | (Ok b, s) =>
      let s := set_byteval s 0 in
      if b <? 0x80 then ((KByte, 0, None), set_byteval s b)
      else if b <? 0xB8 then ((KString, b - 0x80, None), s)
      else if b <? 0xC0 then sized_kind KString (readUint (b - 0xB7)) s
      else if b <? 0xF8 then ((KList, b - 0xC0, None), s)
      else sized_kind KList (readUint (b - 0xF7)) s
  | (Err e, s) =>
      let e := match stack s with
               | [] => if String.eqb e ErrUnexpectedEOF || String.eqb e ErrValueTooLarge
                       then EOF else e
               | _ => e
               end in
      ((KByte, 0, Some e), s)
  | (_, s) => ((KByte, 0, None), s)
  end.

Definition sticky (s : Stream) : result (Kind * Z) :=
  match kinderr s with
  | Some e => Err e
  | None => Ok (default KByte (kind s), size s)
  end.

(** [Kind] *)
Definition Kind_ : SM (Kind * Z) := λ s,
  match kind s with
  | Some _ => (sticky s, s)
  | None =>
      let s := set_kinderr s None in
      if match stack s with (pos, sz) :: _ => pos =? sz | [] => false end then (Err EOL, s)
      else
        let '((k, n, e), s) := readKind s in
        let s := set_kinderr (set_size (set_kind s (Some k)) n) e in
        let s :=
          match e with
          | Some _ => s
          | None =>
              match stack s with
              | [] => if limited s && (remaining s <? n) then set_kinderr s (Some ErrValueTooLarge)
                      else s
              | (pos, sz) :: _ => if u64 (sz - pos) <? n then set_kinderr s (Some ErrElemTooLarge)
                                  else s
              end
          end in
        (sticky s, s)
  end.

(** ** Values *)

Definition rearm {A} (a : Stream → A) : SM A := λ s, (Ok (a s), set_kind s None).

Definition Bytes : SM bytes :=
  let! (k, n) := Kind_ in
  match k with
  | KByte => rearm (λ s, [byteval s])
  | KString =>
      let! b := readFull n in
      if (n =? 1) && (default 0 (head b) <? 128) then sfail ErrCanonSize else sret b
  | KList => sfail ErrExpectedString
  end.

Definition Raw : SM bytes :=
  let! (k, n) := Kind_ in
  match k with
  | KByte => rearm (λ s, [byteval s])
  | KString => let! b := readFull n in sret (puthead 0x80 0xB7 n ++ b)
  | KList => let! b := readFull n in sret (puthead 0xC0 0xF7 n ++ b)
  end.

Definition uint (maxbits : Z) : SM Z :=
  let! (k, n) := Kind_ in
  match k with
  | KByte => λ s, if byteval s =? 0 then (Err ErrCanonInt, s) else (Ok (byteval s), set_kind s None)
  | KString =>
      if Z.quot maxbits 8 <? n then sfail errUintOverflow
      else λ s,
        match readUint n s with
        | (Err e, s) => (Err (if String.eqb e ErrCanonSize then ErrCanonInt else e), s)
        | (Ok v, s) => if (0 <? n) && (v <? 128) then (Err ErrCanonSize, s) else (Ok v, s)
        | x => x
        end
  | KList => sfail ErrExpectedString
  end.

Definition Bool : SM bool :=
  let! num := uint 8 in
  if num =? 0 then sret false
  else if num =? 1 then sret true
  else sfail "rlp: invalid boolean value".

Definition List_ : SM Z :=
  let! (k, n) := Kind_ in
  match k with
  | KList => λ s, (Ok n, set_size (set_kind (set_stack s ((0, n) :: stack s)) None) 0)
  | _ => sfail ErrExpectedList
  end.

Definition ListEnd : SM unit := λ s,
  match stack s with
  | [] => (Err errNotInList, s)
  | (pos, sz) :: st =>
      if negb (pos =? sz) then (Err errNotAtEOL, s)
      else
        let st := match st with
                  | [] => []
                  | (pos', sz') :: st' => (u64 (pos' + sz), sz') :: st'
                  end in
        (Ok tt, set_size (set_kind (set_stack s st) None) 0)
  end.

(** ** Typed decoders *)

Definition decodeUint : SM Z := wrapped (uint 64).

Definition decodeBigInt : SM Z :=
  let! b := wrapped Bytes in
  match b with
  | x :: _ => if x =? 0 then sfail (wrapStreamError ErrCanonInt) else sret (be_Z b)
  | [] => sret 0
  end.

Definition decodeByteSlice : SM bytes := wrapped Bytes.

Definition decodeByteArray (vlen : Z) : SM bytes :=
  let! (k, n) := Kind_ in
  match k with
  | KByte =>
      if vlen =? 0 then sfail "input string too long"
      else if 1 <? vlen then sfail "input string too short"
      else λ s, match uint 64 s with
                | (Ok bv, s) => (Ok [bv], s)
                | (_, s) => (Ok [0], s)
                end
  | KString =>
      if vlen <? n then sfail "input string too long"
      else if n <? vlen then sfail "input string too short"
      else
        let! b := readFull vlen in
        if (n =? 1) && (default 0 (head b) <? 128) then sfail (wrapStreamError ErrCanonSize)
        else sret b
  | KList => sfail (wrapStreamError ErrExpectedString)
  end.

(** [decodeSliceElems]: the loop ends with the error [EOL]. *)
Fixpoint decodeSliceElems {A} (fuel : nat) (elemdec : SM A) (acc : list A) : SM (list A) := λ s,
  match fuel with
  | O => (Hang, s)
  | S f =>
      match elemdec s with
      | (Ok v, s) => decodeSliceElems f elemdec (acc ++ [v]) s
      | (Err e, s) => if String.eqb e EOL then (Ok acc, s) else (Err e, s)
      | (Panic w, s) => (Panic w, s)
      | (Hang, s) => (Hang, s)
      end
  end.

Definition decodeListSlice {A} (fuel : nat) (elemdec : SM A) : SM (list A) :=
  let! n := wrapped List_ in
  if n =? 0 then let! _ := ListEnd in sret []
  else
    let! l := decodeSliceElems fuel elemdec [] in
    let! _ := ListEnd in
    sret l.

(** A struct decoder: [List], the fields, [ListEnd]; [EOL] inside a field means
    too few elements. *)
Definition decodeField {A} (dec : SM A) : SM A := λ s,
  match dec s with
  | (Err e, s) => (Err (if String.eqb e EOL then "too few elements" else e), s)
  | x => x
  end.

Definition decodeStruct {A} (fields : SM A) : SM A :=
  let! _ := wrapped List_ in
  let! a := fields in
  let! _ := wrapped ListEnd in
  sret a.

(** [decodeInterface]: strings become bytes and lists become slices.  Every
    nested value is shorter than its list, so the length of the input is
    enough fuel for depth and for the number of elements. *)
Fixpoint decodeInterface (fuel : nat) : SM item :=
  match fuel with
  | O => λ s, (Hang, s)
  | S f =>
      let! (k, _) := Kind_ in
      match k with
      | KList => let! l := decodeListSlice f (decodeInterface f) in sret (RList l)
      | _ => let! b := Bytes in sret (RStr b)
      end
  end.

(** [NewStream] on a [bytes.Reader]: limited to the input. *)
Definition NewStream (b : bytes) : Stream := {|
  rd := b; remaining := Z.of_nat (length b); limited := true; kind := None;
  size := 0; byteval := 0; kinderr := None; stack := []
|}.

Definition DecodeBytes {A} (dec : SM A) (b : bytes) : result A :=
  match dec (NewStream b) with
  | (Ok v, s) => match rd s with [] => Ok v | _ => Err ErrMoreThanOneValue end
  | (Err e, _) => Err e
  | (Panic w, _) => Panic w
  | (Hang, _) => Hang
  end.

(** Decoding into an [interface{}]. *)
Definition DecodeItem (b : bytes) : result item :=
  DecodeBytes (decodeInterface (S (length b))) b.

(** ** Positions in the input

    [at_ s b st]: the stream is between two values, with [b] left to read and
    the lists [st] open.  [opened] is the same with the header of a value read. *)

Definition base (s : Stream) (b : bytes) (st : list (Z * Z)) : Prop :=
  limited s = true ∧ rd s = b ∧ remaining s = Z.of_nat (length b) ∧ stack s = st.

Definition at_ (s : Stream) (b : bytes) (st : list (Z * Z)) : Prop :=
  base s b st ∧ kind s = None.

Definition opened (s : Stream) (b : bytes) (st : list (Z * Z)) (k : Kind) (n : Z) : Prop :=
  base s b st ∧ kind s = Some k ∧ size s = n ∧ kinderr s = None.

Definition stack_ok (st : list (Z * Z)) : Prop := Forall (λ p, 0 ≤ p.1 ≤ p.2 ∧ p.2 < two64) st.

Definition bump (st : list (Z * Z)) (n : Z) : list (Z * Z) :=
  match st with [] => [] | (pos, sz) :: st' => (pos + n, sz) :: st' end.

Definition fits (st : list (Z * Z)) (n : Z) : Prop :=
  match st with [] => True | (pos, sz) :: _ => pos + n ≤ sz end.

Definition at_end (st : list (Z * Z)) : Prop :=
  match st with [] => False | (pos, sz) :: _ => pos = sz end.

Lemma bump_0 st : bump st 0 = st.
Proof. destruct st as [|[pos sz] st]; [done|]. simpl. by rewrite Z.add_0_r. Qed.

Lemma bump_bump st a b : bump (bump st a) b = bump st (a + b).
Proof. destruct st as [|[pos sz] st]; [done|]. simpl. do 2 f_equal. lia. Qed.

Lemma fits_bump st a b : fits (bump st a) b ↔ fits st (a + b).
Proof. destruct st as [|[pos sz] st]; [done|]. simpl. lia. Qed.

Lemma fits_le st a b : a ≤ b → fits st b → fits st a.
Proof. destruct st as [|[pos sz] st]; [done|]. simpl. lia. Qed.

Lemma stack_ok_bump st n : 0 ≤ n → fits st n → stack_ok st → stack_ok (bump st n).
Proof.
  intros Hn Hf Hst. destruct st as [|[pos sz] st]; [done|].
  apply Forall_cons in Hst as [Hp Hst]. simpl in *. constructor; [simpl; lia|done].
Qed.

Create HintDb rlp.
#[export] Hint Resolve stack_ok_bump : rlp.

(** Strings that are not [EOL]. *)
Ltac not_eol := let H := fresh in intros H; vm_compute in H; discriminate H.

(** ** Reading bytes *)

Lemma willRead_spec s b st n :
  base s b st → stack_ok st → 0 ≤ n →
  match willRead n s with
  | (Ok _, s') => n ≤ Z.of_nat (length b) ∧ fits st n ∧ kind s' = None ∧ limited s' = true ∧
      rd s' = b ∧ remaining s' = Z.of_nat (length b) - n ∧ stack s' = bump st n
  | (Err e, _) => e ≠ EOL ∧ ¬ (n ≤ Z.of_nat (length b) ∧ fits st n)
  | _ => False
  end.
Proof.
  intros (Hl & Hr & Hm & Hst) Hok Hn. unfold willRead. cbn [stack set_kind].
  rewrite Hst. destruct st as [|[pos sz] st].
  - cbn [limited remaining set_kind set_remaining]. rewrite Hl, Hm.
    destruct (Z.ltb_spec (Z.of_nat (length b)) n); [split; [not_eol|simpl; lia]|].
    repeat split; simpl; auto; lia.
  - apply Forall_cons in Hok as [Hp _]. simpl in Hp.
    rewrite u64_small by (unfold is_u64; lia).
    destruct (Z.ltb_spec (sz - pos) n); [split; [not_eol|simpl; lia]|].
    cbn [limited remaining set_kind set_stack set_remaining]. rewrite Hl, Hm.
    destruct (Z.ltb_spec (Z.of_nat (length b)) n); [split; [not_eol|simpl; lia]|].
    rewrite u64_small by (unfold is_u64; lia).
    repeat split; simpl; auto; lia.
Qed.

Lemma readFull_spec s b st n :
  base s b st → stack_ok st → 0 ≤ n →
  match readFull n s with
  | (Ok c, s') => c = take (Z.to_nat n) b ∧ n ≤ Z.of_nat (length b) ∧ fits st n ∧
      at_ s' (drop (Z.to_nat n) b) (bump st n)
  | (Err e, _) => e ≠ EOL ∧ ¬ (n ≤ Z.of_nat (length b) ∧ fits st n)
  | _ => False
  end.
Proof.
  intros Hb Hok Hn. unfold readFull, sbind. pose proof (willRead_spec s b st n Hb Hok Hn) as Hw.
  destruct (willRead n s) as [[[]|e|w|] s']; try done.
  destruct Hw as (Hle & Hf & Hk & Hl & Hr & Hm & Hst). rewrite Hr.
  destruct (Z.ltb_spec (Z.of_nat (length b)) n); [lia|].
  repeat split; simpl; auto. rewrite Hm, length_drop. lia.
Qed.

Lemma readByte_spec s b st :
  base s b st → stack_ok st →
  match readByte s with
  | (Ok x, s') => ∃ tl, b = x :: tl ∧ fits st 1 ∧ at_ s' tl (bump st 1)
  | (Err e, _) => e ≠ EOL ∧ ¬ (b ≠ [] ∧ fits st 1)
  | _ => False
  end.
Proof.
  intros Hb Hok. unfold readByte, sbind. pose proof (willRead_spec s b st 1 Hb Hok ltac:(lia)) as Hw.
  destruct (willRead 1 s) as [[[]|e|w|] s']; try done.
  - destruct Hw as (Hle & Hf & Hk & Hl & Hr & Hm & Hst). rewrite Hr.
    destruct b as [|x tl]; [simpl in Hle; lia|]. exists tl.
    repeat split; simpl; auto. rewrite Hm. simpl. lia.
  - destruct Hw as [He Hn]. split; [done|]. intros [Hne Hf]. apply Hn. split; [|done].
    destruct b; [done|simpl; lia].
Qed.

(** ** Headers *)

Definition header (k : Kind) (n bv : Z) : bytes :=
  match k with
  | KByte => [bv]
  | KString => puthead 0x80 0xB7 n
  | KList => puthead 0xC0 0xF7 n
  end.

Definition header_ok (k : Kind) (n bv : Z) : Prop :=
  match k with KByte => n = 0 ∧ 0 ≤ bv < 0x80 | _ => 0 ≤ n < two64 end.

Lemma be_canonical x c : wf_bytes (x :: c) → x ≠ 0 → Z_be (be_Z (x :: c)) = x :: c.
Proof.
  intros Hwf Hx. destruct (Z_be_be _ Hwf) as [[|k] Hk]; [by symmetry|]. simpl in Hk. congruence.
Qed.

Lemma putint_canonical x c :
  wf_bytes (x :: c) → x ≠ 0 → (length (x :: c) ≤ 8)%nat →
  0 < be_Z (x :: c) < two64 ∧ putint (be_Z (x :: c)) = x :: c.
Proof.
  intros Hwf Hx Hl. pose proof (be_Z_bound _ Hwf) as Hb. pose proof (be_canonical x c Hwf Hx) as Hc.
  assert (Hpos : 0 < be_Z (x :: c)).
  { destruct (decide (be_Z (x :: c) = 0)) as [E|]; [|lia]. rewrite E in Hc. done. }
  assert (Hlt : be_Z (x :: c) < two64).
  { eapply Z.lt_le_trans; [apply Hb|]. change two64 with (256 ^ 8). apply Z.pow_le_mono_r; lia. }
  split; [lia|]. by rewrite putint_be.
Qed.

(** The bytes of [putint] read back. *)
Lemma putint_read n : 0 < n < two64 →
  be_Z (putint n) = n ∧ (∃ x c, putint n = x :: c ∧ x ≠ 0) ∧ wf_bytes (putint n).
Proof.
  intros Hn. rewrite putint_be by done. split; [apply be_Z_be; lia|].
  assert (Hwf : wf_bytes (Z_be n)).
  { rewrite <- putint_be by done. unfold putint, byte_at.
    repeat case_match; repeat constructor; apply Z.mod_pos_bound; lia. }
  split; [|done]. clear Hwf. destruct Hn as [Hpos _]. revert Hpos. pattern n.
  apply (well_founded_induction (Z.lt_wf 0)). clear n. intros n IH Hpos.
  rewrite Z_be_step by done. destruct (decide (n < 256)).
  - rewrite Z.div_small by lia. exists n, []. rewrite Z.mod_small by lia. split; [done|lia].
  - destruct (IH (n / 256)) as (x & c & -> & Hx); [zdiv|zdiv|]. by exists x, (c ++ [n mod 256]).
Qed.

Lemma readUint_spec s b st m :
  base s b st → stack_ok st → 1 ≤ m ≤ 8 →
  match readUint m s with
  | (Ok v, s') => v = be_Z (take (Z.to_nat m) b) ∧ m ≤ Z.of_nat (length b) ∧ fits st m ∧
      at_ s' (drop (Z.to_nat m) b) (bump st m) ∧ (1 < m → default 0 (head b) ≠ 0)
  | (Err e, _) => e ≠ EOL ∧
      ¬ (m ≤ Z.of_nat (length b) ∧ fits st m ∧ default 0 (head b) ≠ 0)
  | _ => False
  end.
Proof.
  intros Hb Hok Hm. unfold readUint. destruct (Z.eqb_spec m 0); [lia|].
  destruct (Z.eqb_spec m 1) as [->|].
  - pose proof (readByte_spec s b st Hb Hok) as Hr. destruct (readByte s) as [[x|e|w|] s']; try done.
    + destruct Hr as (tl & -> & Hf & Hat). change (Z.to_nat 1) with 1%nat. unfold be_Z. simpl.
      split; [lia|]. split; [lia|]. split; [done|]. split; [done|lia].
    + destruct Hr as [He Hn]. split; [done|]. intros (Hl & Hf & _). apply Hn. split; [|done].
      destruct b; [simpl in Hl; lia|done].
  - unfold sbind. pose proof (readFull_spec s b st m Hb Hok ltac:(lia)) as Hr.
    destruct (readFull m s) as [[c|e|w|] s']; try done.
    + destruct Hr as (-> & Hl & Hf & Hat).
      assert (Hh : head (take (Z.to_nat m) b) = head b).
      { destruct b; [by destruct (Z.to_nat m)|]. destruct (Z.to_nat m) eqn:E; [lia|done]. }
      rewrite Hh. destruct (Z.eqb_spec (default 0 (head b)) 0); simpl; [|tauto].
      split; [not_eol|tauto].
    + destruct Hr as [He Hn]. split; [done|tauto].
Qed.

(** A long header read back is the canonical one. *)
Lemma long_header_back b m :
  wf_bytes b → 1 ≤ m ≤ 8 → m ≤ Z.of_nat (length b) →
  (1 < m → default 0 (head b) ≠ 0) → 56 ≤ be_Z (take (Z.to_nat m) b) →
  let n := be_Z (take (Z.to_nat m) b) in
  0 ≤ n < two64 ∧ take (Z.to_nat m) b = putint n ∧ Z.of_nat (length (putint n)) = m.
Proof.
  intros Hwf Hm Hl Hh Hbig. cbv zeta.
  assert (Hlen : length (take (Z.to_nat m) b) = Z.to_nat m) by (rewrite length_take; lia).
  assert (Hwt : wf_bytes (take (Z.to_nat m) b)) by (by apply Forall_take).
  destruct b as [|x b]; [simpl in Hl; lia|].
  destruct (Z.to_nat m) as [|m'] eqn:Em; [lia|]. cbn [take] in *.
  assert (Hx : x ≠ 0).
  { destruct (decide (1 < m)) as [H1|H1]; [by apply Hh|]. intros ->.
    assert (m' = 0%nat) as -> by lia. vm_compute in Hbig. congruence. }
  destruct (putint_canonical x (take m' b) Hwt Hx) as [Hr Hp]; [rewrite Hlen; lia|].
  rewrite Hp, Hlen. split; [lia|]. split; [done|lia].
Qed.

Lemma puthead_small a c n : n < 56 → puthead a c n = [(a + n) mod 256].
Proof. intros Hn. unfold puthead. by rewrite (proj2 (Z.ltb_lt n 56)). Qed.

Lemma puthead_long a c n :
  56 ≤ n → puthead a c n = (c + Z.of_nat (length (putint n))) mod 256 :: putint n.
Proof. intros Hn. unfold puthead. by rewrite (proj2 (Z.ltb_ge n 56)). Qed.

(** What [readKind] reports about the input [b] is what a canonical header
    says. *)
Definition kind_back (b : bytes) (st : list (Z * Z))
    (res : (Kind * Z * option string) * Stream) : Prop :=
  match res with
  | ((k, n, None), s') => ∃ rest, b = header k n (byteval s') ++ rest ∧
      header_ok k n (byteval s') ∧
      fits st (Z.of_nat (length (header k n (byteval s')))) ∧
      at_ s' rest (bump st (Z.of_nat (length (header k n (byteval s')))))
  | ((_, _, Some e), _) => e ≠ EOL
  end.

Definition long_tag (k : Kind) : Z := match k with KString => 0xB7 | _ => 0xF7 end.

Lemma sized_kind_back s x tl st k m :
  at_ s tl (bump st 1) → stack_ok (bump st 1) → wf_bytes (x :: tl) →
  k ≠ KByte → 1 ≤ m ≤ 8 → x = long_tag k + m →
  kind_back (x :: tl) st (sized_kind k (readUint m) s).
Proof.
  intros Hat Hok Hwf Hk Hm Hxm. apply Forall_cons in Hwf as [Hx Hwf]. unfold is_byte in Hx.
  pose proof (readUint_spec _ _ _ m (proj1 Hat) Hok Hm) as Hu. unfold sized_kind, kind_back.
  destruct (readUint m s) as [[n|e|w|] s2]; try done; [|apply Hu].
  destruct Hu as (-> & Hlm & Hfm & Hat2 & Hh).
  destruct (Z.ltb_spec (be_Z (take (Z.to_nat m) tl)) 56); [not_eol|].
  destruct (long_header_back tl m Hwf Hm Hlm Hh) as (Hn & Htk & Hpl); [done|].
  set (n := be_Z _) in *. exists (drop (Z.to_nat m) tl).
  assert (Hhd : header k n (byteval s2) = x :: take (Z.to_nat m) tl).
  { destruct k; [done|..]; simpl in *; rewrite puthead_long, Hpl, <- Htk by done;
      rewrite <- Hxm, Z.mod_small by lia; done. }
  rewrite Hhd. cbn [length app]. rewrite length_take, Nat.min_l by lia. rewrite take_drop.
  rewrite Nat2Z.inj_succ, Z2Nat.id by lia. rewrite fits_bump, bump_bump in *.
  replace (Z.succ m) with (1 + m) by lia. split; [done|]. split; [|done].
  destruct k; [done|exact Hn..].
Qed.

Lemma readKind_back s b st :
  base s b st → stack_ok st → wf_bytes b → kind_back b st (readKind s).
Proof.
  intros Hb Hok Hwf. unfold readKind. pose proof (readByte_spec s b st Hb Hok) as Hr.
  destruct (readByte s) as [[x|e|w|] s']; try done.
  2: { destruct Hr as [He _]. simpl. repeat case_match; done || not_eol. }
  destruct Hr as (tl & -> & Hf & Hat).
  assert (Hx : is_byte x) by exact (proj1 (proj1 (Forall_cons _ _ _) Hwf)). unfold is_byte in Hx.
  assert (Hat0 : at_ (set_byteval s' 0) tl (bump st 1)) by apply Hat.
  assert (Hok1 : stack_ok (bump st 1)) by auto with rlp lia.
  destruct (Z.ltb_spec x 0x80).
  { exists tl. simpl. split; [done|]. split; [lia|]. split; [done|]. apply Hat. }
  destruct (Z.ltb_spec x 0xB8).
  { exists tl. simpl. rewrite puthead_small by lia. rewrite Z.mod_small by lia.
    split; [simpl; f_equal; lia|]. split; [word|]. split; [done|apply Hat]. }
  destruct (Z.ltb_spec x 0xC0); [by apply sized_kind_back; [..|simpl; lia]; try lia|].
  destruct (Z.ltb_spec x 0xF8).
  { exists tl. simpl. rewrite puthead_small by lia. rewrite Z.mod_small by lia.
    split; [simpl; f_equal; lia|]. split; [word|]. split; [done|apply Hat]. }
  by apply sized_kind_back; [..|simpl; lia]; try lia.
Qed.

(** A canonical header is read back. *)
Lemma sized_kind_forward s n st k rest :
  at_ s (putint n ++ rest) st → stack_ok st → 56 ≤ n < two64 →
  fits st (Z.of_nat (length (putint n))) →
  ∃ s', sized_kind k (readUint (Z.of_nat (length (putint n)))) s = ((k, n, None), s') ∧
        at_ s' rest (bump st (Z.of_nat (length (putint n)))).
Proof.
  intros Hat Hok Hn Hf. pose proof (putint_length n) as Hl.
  destruct (putint_read n ltac:(lia)) as (Hbe & (x & c & Hx & Hx0) & _).
  pose proof (readUint_spec _ _ _ (Z.of_nat (length (putint n))) (proj1 Hat) Hok ltac:(lia)) as Hu.
  unfold sized_kind. destruct (readUint _ s) as [[v|e|w|] s2]; try done.
  - destruct Hu as (-> & _ & _ & Hat2 & _). rewrite Nat2Z.id, take_app_length in *.
    rewrite drop_app_length in Hat2. rewrite Hbe.
    rewrite (proj2 (Z.ltb_ge n 56)) by lia. by exists s2.
  - destruct Hu as [_ Hno]. exfalso. apply Hno. rewrite length_app, Hx in *. simpl. repeat split; auto; lia.
Qed.

Lemma readKind_forward s k n bv rest st :
  base s (header k n bv ++ rest) st → stack_ok st → header_ok k n bv →
  fits st (Z.of_nat (length (header k n bv))) →
  ∃ s', readKind s = ((k, n, None), s') ∧
        at_ s' rest (bump st (Z.of_nat (length (header k n bv)))) ∧ (k = KByte → byteval s' = bv).
Proof.
  intros Hb Hok Hh Hf. unfold readKind. pose proof (readByte_spec s _ st Hb Hok) as Hr.
  assert (Hne : ∃ x tl, header k n bv = x :: tl).
  { destruct k; [by eexists _, _|..]; cbn [header]; unfold puthead; destruct (n <? 56); eexists _, _; reflexivity. }
  destruct Hne as (x0 & h & Hhd). rewrite Hhd in *.
  assert (Hf1 : fits st 1) by (eapply fits_le; [|exact Hf]; simpl; lia).
  destruct (readByte s) as [[x|e|w|] s']; try done.
  2: { destruct Hr as [_ Hno]. exfalso. apply Hno. done. }
  destruct Hr as (tl & [= <- <-] & _ & Hat).
  assert (Hok1 : stack_ok (bump st 1)) by auto with rlp lia.
  assert (Hlen : Z.of_nat (length (x0 :: h)) = 1 + Z.of_nat (length h)) by (simpl; lia).
  rewrite Hlen, <- fits_bump, <- bump_bump in *.
  destruct k; simpl in Hhd, Hh.
  - injection Hhd as <- <-. destruct Hh as [-> Hbv].
    rewrite (proj2 (Z.ltb_lt bv 0x80)) by lia. eexists. split; [done|].
    rewrite bump_0. split; [apply Hat|done].
  - destruct (decide (n < 56)).
    + rewrite puthead_small in Hhd by done. rewrite Z.mod_small in Hhd by lia. injection Hhd as <- <-.
      rewrite (proj2 (Z.ltb_ge _ 0x80)), (proj2 (Z.ltb_lt _ 0xB8)) by lia.
      eexists. split; [do 3 f_equal; lia|]. rewrite bump_0. split; [apply Hat|done].
    + rewrite puthead_long in Hhd by lia. pose proof (putint_length n).
      rewrite Z.mod_small in Hhd by lia. injection Hhd as <- <-.
      rewrite (proj2 (Z.ltb_ge _ 0x80)), (proj2 (Z.ltb_ge _ 0xB8)), (proj2 (Z.ltb_lt _ 0xC0)) by lia.
      rewrite Z.add_simpl_l.
      destruct (sized_kind_forward (set_byteval s' 0) n (bump st 1) KString rest) as (s2 & -> & Hat2);
        [apply Hat|done|lia|done|]. by exists s2.
  - destruct (decide (n < 56)).
    + rewrite puthead_small in Hhd by done. rewrite Z.mod_small in Hhd by lia. injection Hhd as <- <-.
      rewrite (proj2 (Z.ltb_ge _ 0x80)), (proj2 (Z.ltb_ge _ 0xB8)), (proj2 (Z.ltb_ge _ 0xC0)),
        (proj2 (Z.ltb_lt _ 0xF8)) by lia.
      eexists. split; [do 3 f_equal; lia|]. rewrite bump_0. split; [apply Hat|done].
    + rewrite puthead_long in Hhd by lia. pose proof (putint_length n).
      rewrite Z.mod_small in Hhd by lia. injection Hhd as <- <-.
      rewrite (proj2 (Z.ltb_ge _ 0x80)), (proj2 (Z.ltb_ge _ 0xB8)), (proj2 (Z.ltb_ge _ 0xC0)),
        (proj2 (Z.ltb_ge _ 0xF8)) by lia.
      rewrite Z.add_simpl_l.
      destruct (sized_kind_forward (set_byteval s' 0) n (bump st 1) KList rest) as (s2 & -> & Hat2);
        [apply Hat|done|lia|done|]. by exists s2.
Qed.

(** ** [Kind], and strings *)

Lemma at_end_dec st : match st with (pos, sz) :: _ => pos =? sz | [] => false end = true ↔ at_end st.
Proof. destruct st as [|[pos sz] st]; simpl; [done|]. by rewrite Z.eqb_eq. Qed.

Lemma fits_not_end st n : 0 < n → fits st n → ¬ at_end st.
Proof. destruct st as [|[pos sz] st]; simpl; [tauto|lia]. Qed.

Lemma header_pos k n bv : (1 ≤ length (header k n bv))%nat.
Proof. destruct k; simpl; [lia|..]; unfold puthead; case_match; simpl; lia. Qed.

Lemma header_ok_nonneg k n bv : header_ok k n bv → 0 ≤ n < two64.
Proof. destruct k; simpl; word. Qed.

Lemma Kind_back s b st :
  at_ s b st → stack_ok st → wf_bytes b →
  match Kind_ s with
  | (Ok (k, n), s') => ∃ rest, b = header k n (byteval s') ++ rest ∧ header_ok k n (byteval s') ∧
      fits st (Z.of_nat (length (header k n (byteval s'))) + n) ∧
      opened s' rest (bump st (Z.of_nat (length (header k n (byteval s'))))) k n
  | (Err e, s') => e = EOL → at_end st ∧ at_ s' b st
  | _ => False
  end.
Proof.
  intros [Hb Hk] Hok Hwf. unfold Kind_. rewrite Hk. cbn [stack set_kinderr].
  pose proof Hb as (Hl & Hr & Hm & Hst). rewrite Hst.
  destruct (match st with (pos, sz) :: _ => pos =? sz | [] => false end) eqn:E.
  { apply at_end_dec in E. done. }
  pose proof (readKind_back (set_kinderr s None) b st Hb Hok Hwf) as Hrk.
  destruct (readKind (set_kinderr s None)) as [[[k n] [e|]] s']; unfold kind_back in Hrk.
  { unfold sticky. simpl. congruence. }
  destruct Hrk as (rest & Hbr & Hho & Hf & [(Hl' & Hr' & Hm' & Hst') Hk']).
  pose proof (header_ok_nonneg _ _ _ Hho) as Hn.
  cbn [stack set_kinderr set_size set_kind limited remaining]. rewrite Hst', Hl', Hm'. cbn [andb].
  destruct st as [|[pos sz] st].
  - cbn [bump]. destruct (Z.ltb_spec (Z.of_nat (length rest)) n); [unfold sticky; cbn; not_eol|].
    exists rest. split; [exact Hbr|]. split; [exact Hho|]. done.
  - cbn [bump]. apply Forall_cons in Hok as [Hp _]. simpl in Hp, Hf.
    rewrite u64_small by (unfold is_u64; lia).
    destruct (Z.ltb_spec (sz - (pos + Z.of_nat (length (header k n (byteval s'))))) n);
      [unfold sticky; cbn; not_eol|].
    exists rest. split; [exact Hbr|]. split; [exact Hho|]. split; [|done].
    change (pos + (Z.of_nat (length (header k n (byteval s'))) + n) ≤ sz). lia.
Qed.

Lemma Kind_forward s k n bv rest st :
  at_ s (header k n bv ++ rest) st → stack_ok st → header_ok k n bv →
  fits st (Z.of_nat (length (header k n bv)) + n) → n ≤ Z.of_nat (length rest) →
  ∃ s', Kind_ s = (Ok (k, n), s') ∧
    opened s' rest (bump st (Z.of_nat (length (header k n bv)))) k n ∧ (k = KByte → byteval s' = bv).
Proof.
  intros [Hb Hk] Hok Hho Hf Hle. pose proof (header_ok_nonneg _ _ _ Hho) as Hn.
  pose proof (header_pos k n bv) as Hpos.
  unfold Kind_. rewrite Hk. cbn [stack set_kinderr].
  pose proof Hb as (Hl & Hr & Hm & Hst). rewrite Hst.
  destruct (match st with (pos, sz) :: _ => pos =? sz | [] => false end) eqn:E.
  { apply at_end_dec in E. exfalso. eapply fits_not_end; [|exact Hf|exact E]. lia. }
  destruct (readKind_forward (set_kinderr s None) k n bv rest st) as (s' & -> & Hat & Hbv); auto.
  { eapply fits_le; [|exact Hf]. lia. }
  destruct Hat as [(Hl' & Hr' & Hm' & Hst') Hk'].
  cbn [stack set_kinderr set_size set_kind limited remaining]. rewrite Hst', Hl', Hm'. cbn [andb].
  destruct st as [|[pos sz] st].
  - cbn [bump]. destruct (Z.ltb_spec (Z.of_nat (length rest)) n); [lia|].
    eexists. split; [reflexivity|]. done.
  - cbn [bump]. apply Forall_cons in Hok as [Hp _]. simpl in Hp, Hf.
    rewrite u64_small by (unfold is_u64; lia).
    destruct (Z.ltb_spec (sz - (pos + Z.of_nat (length (header k n bv)))) n); [lia|].
    eexists. split; [reflexivity|]. done.
Qed.

Lemma Kind_cached s b st k n : opened s b st k n → Kind_ s = (Ok (k, n), s).
Proof. intros (_ & Hk & Hn & He). unfold Kind_, sticky. by rewrite Hk, He, Hn. Qed.

(** A string of the given kind with content [c] is the encoding of [c]. *)
Definition string_kind (k : Kind) (n bv : Z) (c : bytes) : Prop :=
  match k with
  | KByte => n = 0 ∧ c = [bv] ∧ 0 ≤ bv < 0x80
  | KString => n = Z.of_nat (length c) ∧ (n = 1 → 128 ≤ default 0 (head c))
  | KList => False
  end.

(** The bytes of the value that follow the header. *)
Definition payload (k : Kind) (c : bytes) : bytes := match k with KByte => [] | _ => c end.

Lemma encodeString_kind k n bv c :
  string_kind k n bv c → encodeString c = header k n bv ++ payload k c.
Proof.
  destruct k; simpl; [|intros [-> H1]|done].
  - intros (_ & -> & Hbv). simpl. by rewrite (proj2 (Z.leb_le bv 0x7F)) by lia.
  - unfold encodeString. destruct c as [|x [|y c]]; [done| |done].
    simpl in H1. specialize (H1 eq_refl). by rewrite (proj2 (Z.leb_gt x 0x7F)) by lia.
Qed.

Lemma string_kind_exists c : wf_bytes c → ∃ k n bv, string_kind k n bv c.
Proof.
  intros Hwf. destruct c as [|x [|y c]].
  - by exists KString, 0, 0.
  - apply Forall_cons in Hwf as [Hx _]. unfold is_byte in Hx. destruct (decide (x < 0x80)).
    + exists KByte, 0, x. simpl. repeat split; lia.
    + exists KString, 1, 0. simpl. split; lia.
  - exists KString, (Z.of_nat (length (x :: y :: c))), 0. simpl. split; lia.
Qed.

Lemma Bytes_spec s b st k n :
  opened s b st k n → stack_ok st → 0 ≤ n → header_ok k n (byteval s) →
  match Bytes s with
  | (Ok c, s') => string_kind k n (byteval s) c ∧ fits st (Z.of_nat (length (payload k c))) ∧
      ∃ rest, b = payload k c ++ rest ∧ at_ s' rest (bump st (Z.of_nat (length (payload k c))))
  | (Err e, _) => e ≠ EOL ∧
      ¬ ∃ c rest, string_kind k n (byteval s) c ∧ b = payload k c ++ rest ∧
                  fits st (Z.of_nat (length (payload k c)))
  | _ => False
  end.
Proof.
  intros Ho Hok Hn Hho. unfold Bytes, sbind. rewrite (Kind_cached s b st k n Ho). destruct Ho as [Hb _].
  destruct k.
  - simpl in *. split; [tauto|]. split; [destruct st as [|[pos sz] st]; [done|]; simpl; apply Forall_cons in Hok as [? _]; simpl in *; lia|].
    exists b. rewrite bump_0. split; [done|]. split; [exact Hb|done].
  - pose proof (readFull_spec s b st n Hb Hok Hn) as Hr. destruct (readFull n s) as [[c|e|w|] s']; try done.
    + destruct Hr as (-> & Hle & Hf & Hat). simpl.
      assert (Hlen : Z.of_nat (length (take (Z.to_nat n) b)) = n) by (rewrite length_take; lia).
      destruct (Z.eqb_spec n 1) as [->|]; simpl.
      * destruct (Z.ltb_spec (default 0 (head (take (Z.to_nat 1) b))) 128) as [H128|H128].
        -- split; [not_eol|]. intros (c & rest & [Hc Hc1] & -> & _).
           rewrite Hc, Nat2Z.id, take_app_length in H128. lia.
        -- cbn. rewrite Hlen. split; [split; [done|lia]|]. split; [done|].
           exists (drop (Z.to_nat 1) b). by rewrite take_drop.
      * cbn. rewrite Hlen. split; [split; [done|lia]|]. split; [done|].
        exists (drop (Z.to_nat n) b). by rewrite take_drop.
    + destruct Hr as [He Hno]. split; [done|]. intros (c & rest & [-> _] & -> & Hf). apply Hno.
      split; [|done]. simpl. rewrite length_app. lia.
  - simpl. split; [not_eol|]. intros (c & rest & [] & _).
Qed.

(** ** Lists *)

Lemma List_opened s b st n :
  opened s b st KList n → ∃ s', List_ s = (Ok n, s') ∧ at_ s' b ((0, n) :: st).
Proof.
  intros Ho. unfold List_, sbind. rewrite (Kind_cached _ _ _ _ _ Ho).
  destruct Ho as [(Hl & Hr & Hm & Hst) _]. eexists. split; [reflexivity|].
  repeat split; auto. simpl. by rewrite Hst.
Qed.

Lemma ListEnd_spec s b pos sz st :
  at_ s b ((pos, sz) :: st) → stack_ok st → 0 ≤ sz → fits st sz →
  if pos =? sz then ∃ s', ListEnd s = (Ok tt, s') ∧ at_ s' b (bump st sz)
  else ListEnd s = (Err errNotAtEOL, s).
Proof.
  intros [(Hl & Hr & Hm & Hst) Hk] Hok Hsz Hf. unfold ListEnd. rewrite Hst.
  destruct (Z.eqb_spec pos sz) as [->|]; [|done]. eexists. split; [reflexivity|].
  repeat split; auto. simpl. destruct st as [|[pos' sz'] st]; [done|]. simpl in *.
  apply Forall_cons in Hok as [Hp _]. simpl in Hp. rewrite u64_small by (unfold is_u64; lia). done.
Qed.

(** An element decoder that, run in a list, reads the encoding of what it
    returns, and stops with [EOL] only at the end of the list. *)
Definition reads {A} (enc : A → bytes) (g : nat) (dec : SM A) : Prop := ∀ s b st,
  at_ s b st → stack_ok st → wf_bytes b →
  match dec s with
  | (Ok v, s') => ∃ rest, b = enc v ++ rest ∧ (0 < length (enc v))%nat ∧
      fits st (Z.of_nat (length (enc v))) ∧ at_ s' rest (bump st (Z.of_nat (length (enc v))))
  | (Err e, s') => e = EOL → at_end st ∧ at_ s' b st
  | (Hang, _) => (g ≤ length b)%nat
  | (Panic _, _) => False
  end.

Lemma decodeSliceElems_back {A} (enc : A → bytes) g (dec : SM A) f acc s b st :
  reads enc g dec → at_ s b st → stack_ok st → wf_bytes b →
  match decodeSliceElems f dec acc s with
  | (Ok l, s') => ∃ l' rest, l = acc ++ l' ∧ b = concat (enc <$> l') ++ rest ∧
      let n := Z.of_nat (length (concat (enc <$> l'))) in
      fits st n ∧ at_end (bump st n) ∧ at_ s' rest (bump st n)
  | (Err e, _) => e ≠ EOL
  | (Hang, _) => (f ≤ length b ∨ g ≤ length b)%nat
  | (Panic _, _) => False
  end.
Proof.
  intros Hdec. revert acc s b st. induction f as [|f IH]; intros acc s b st Hat Hok Hwf; [left; lia|].
  cbn [decodeSliceElems]. specialize (Hdec s b st Hat Hok Hwf).
  destruct (dec s) as [[v|e|w|] s1]; [| |done|by right].
  - destruct Hdec as (rest & -> & Hpos & Hf & Hat1). apply Forall_app in Hwf as [_ Hwf].
    specialize (IH (acc ++ [v]) s1 rest _ Hat1 ltac:(apply stack_ok_bump; [lia|done|done]) Hwf).
    destruct (decodeSliceElems f dec (acc ++ [v]) s1) as [[l|e|w|] s2]; try done.
    + destruct IH as (l' & rest' & -> & -> & Hf' & Hend & Hat2). rewrite fits_bump, bump_bump in *.
      exists (v :: l'), rest'. rewrite fmap_cons, concat_cons, length_app, Nat2Z.inj_add, <- !app_assoc.
      done.
    + rewrite length_app. lia.
  - destruct (String.eqb_spec e EOL) as [->|]; [|done]. destruct (Hdec eq_refl) as [Hend Hat1].
    exists [], b. rewrite app_nil_r. simpl. rewrite bump_0. split; [done|]. split; [done|].
    split; [|done]. destruct st as [|[pos sz] st]; [done|]. simpl in *. lia.
Qed.

Lemma decodeListSlice_back {A} (enc : A → bytes) g (dec : SM A) f s b st n :
  reads enc g dec → opened s b st KList n → stack_ok st → wf_bytes b → 0 ≤ n < two64 → fits st n →
  match decodeListSlice f dec s with
  | (Ok l, s') => ∃ rest, b = concat (enc <$> l) ++ rest ∧
      n = Z.of_nat (length (concat (enc <$> l))) ∧ at_ s' rest (bump st n)
  | (Err e, _) => e ≠ EOL
  | (Hang, _) => (f ≤ length b ∨ g ≤ length b)%nat
  | (Panic _, _) => False
  end.
Proof.
  intros Hdec Ho Hok Hwf Hn Hf. unfold decodeListSlice, sbind, wrapped.
  destruct (List_opened s b st n Ho) as (s1 & -> & Hat1).
  destruct (Z.eqb_spec n 0) as [->|].
  { pose proof (ListEnd_spec s1 b 0 0 st Hat1 Hok ltac:(lia) Hf) as (s2 & -> & Hat2). by exists b. }
  pose proof (decodeSliceElems_back enc g dec f [] s1 b _ Hdec Hat1) as He.
  specialize (He ltac:(constructor; [simpl; lia|done]) Hwf).
  destruct (decodeSliceElems f dec [] s1) as [[l|e|w|] s2]; try done.
  destruct He as (l' & rest & -> & -> & Hf' & Hend & Hat2). simpl in Hend, Hat2 |- *.
  pose proof (ListEnd_spec s2 rest _ n st Hat2 Hok ltac:(lia) Hf) as HL. rewrite Hend in HL.
  rewrite Z.eqb_refl in HL. destruct HL as (s3 & -> & Hat3). exists rest. done.
Qed.

Lemma decodeInterface_reads f : reads rlp_encode f (decodeInterface f).
Proof.
  induction f as [|f IH]; intros s b st Hat Hok Hwf; [simpl; lia|].
  cbn [decodeInterface]. unfold sbind at 1. pose proof (Kind_back s b st Hat Hok Hwf) as Hk.
  destruct (Kind_ s) as [[[k n]|e|w|] s1]; try done.
  destruct Hk as (rest & -> & Hho & Hf & Ho). pose proof (header_ok_nonneg _ _ _ Hho) as Hn.
  pose proof (header_pos k n (byteval s1)) as Hp.
  rewrite <- fits_bump in Hf. apply Forall_app in Hwf as [_ Hwf]. rewrite length_app.
  assert (Hok1 : stack_ok (bump st (Z.of_nat (length (header k n (byteval s1)))))).
  { apply stack_ok_bump; [lia| |done]. rewrite fits_bump in Hf. eapply fits_le; [|exact Hf]. lia. }
  destruct (decide (k = KList)) as [->|Hkl].
  - unfold sbind. pose proof (decodeListSlice_back _ _ _ f _ _ _ _ IH Ho Hok1 Hwf Hn Hf) as Hl.
    destruct (decodeListSlice f (decodeInterface f) s1) as [[l|e|w|] s2]; try done; [|lia].
    destruct Hl as (rest' & -> & Hnl & Hat2). exists rest'. cbn [rlp_encode header] in *.
    rewrite length_app, Nat2Z.inj_add, <- Hnl, <- bump_bump, <- app_assoc, <- fits_bump.
    split; [done|]. split; [lia|done].
  - pose proof (Bytes_spec s1 rest _ k n Ho Hok1 ltac:(lia) Hho) as Hby.
    assert (Hstr : match Bytes s1 with
      | (Ok c, s') => ∃ rest', header k n (byteval s1) ++ rest = rlp_encode (RStr c) ++ rest' ∧
          (0 < length (rlp_encode (RStr c)))%nat ∧ fits st (Z.of_nat (length (rlp_encode (RStr c)))) ∧
          at_ s' rest' (bump st (Z.of_nat (length (rlp_encode (RStr c)))))
      | (Err e, s') => e ≠ EOL | _ => False end).
    { destruct (Bytes s1) as [[c|e|w|] s2]; try done; [|apply Hby].
      destruct Hby as (Hsk & Hf2 & rest' & -> & Hat2). exists rest'. cbn [rlp_encode].
      rewrite (encodeString_kind k n (byteval s1) c Hsk), <- app_assoc, length_app, Nat2Z.inj_add.
      rewrite <- bump_bump, <- fits_bump. split; [done|]. split; [lia|done]. }
    destruct k; [| |done]; unfold sbind; destruct (Bytes s1) as [[c|e|w|] s2]; done || naive_solver.
Qed.

(** Whatever the decoder accepts is the canonical encoding of the value it
    returns: no two byte strings decode to the same value. *)
Theorem DecodeItem_canonical b v
    (Hwf : wf_bytes b) (Hd : DecodeItem b = Ok v) : b = rlp_encode v.
Proof.
  unfold DecodeItem, DecodeBytes in Hd.
  pose proof (decodeInterface_reads (S (length b)) (NewStream b) b []) as Hr.
  specialize (Hr ltac:(done) ltac:(constructor) Hwf).
  destruct (decodeInterface (S (length b)) (NewStream b)) as [[v'|e|w|] s']; try done.
  destruct Hr as (rest & -> & _ & _ & [(_ & Hrd & _) _]). rewrite Hrd in Hd.
  destruct rest; [|done]. injection Hd as ->. by rewrite app_nil_r.
Qed.

(** ** Decoding what was encoded *)

Lemma Kind_eol s b st : at_ s b st → at_end st → ∃ s', Kind_ s = (Err EOL, s') ∧ at_ s' b st.
Proof.
  intros [Hb Hk] He. pose proof Hb as (Hl & Hr & Hm & Hst). unfold Kind_. rewrite Hk.
  cbn [stack set_kinderr]. rewrite Hst. apply at_end_dec in He as ->. eexists. split; [done|]. done.
Qed.

(** A decoder that reads [v] off the bytes [b], at a position with room. *)
Definition reads_bytes {A} (b : bytes) (dec : SM A) (v : A) : Prop := ∀ s rest st,
  at_ s (b ++ rest) st → stack_ok st → fits st (Z.of_nat (length b)) →
  Z.of_nat (length b) < two64 →
  ∃ s', dec s = (Ok v, s') ∧ at_ s' rest (bump st (Z.of_nat (length b))).

Definition reads_back {A} (enc : A → bytes) (dec : SM A) (v : A) : Prop :=
  reads_bytes (enc v) dec v.

(** A decoder that reports the end of the list. *)
Definition stops {A} (dec : SM A) : Prop := ∀ s b st,
  at_ s b st → at_end st → ∃ s', dec s = (Err EOL, s') ∧ at_ s' b st.

Lemma decodeSliceElems_forward {A} (enc : A → bytes) (dec : SM A) l f acc s rest st :
  Forall (reads_back enc dec) l → stops dec → (length l < f)%nat →
  let n := Z.of_nat (length (concat (enc <$> l))) in
  at_ s (concat (enc <$> l) ++ rest) st → stack_ok st → fits st n → at_end (bump st n) → n < two64 →
  ∃ s', decodeSliceElems f dec acc s = (Ok (acc ++ l), s') ∧ at_ s' rest (bump st n).
Proof.
  intros Hl Hstop. revert f acc s st. induction Hl as [|v l Hv Hl IH];
    intros [|f] acc s st Hlf n Hat Hok Hf Hend Hn; try (simpl in Hlf; lia).
  - unfold n in *. simpl in *. rewrite bump_0 in *.
    destruct (Hstop s rest st Hat Hend) as (s' & -> & Hat'). simpl. rewrite app_nil_r. by exists s'.
  - unfold n in *. clear n. rewrite fmap_cons, concat_cons, length_app, Nat2Z.inj_add, <- app_assoc in *.
    cbn [decodeSliceElems].
    destruct (Hv s (concat (enc <$> l) ++ rest) st) as (s1 & -> & Hat1); auto; [|lia|].
    { eapply fits_le; [|exact Hf]. lia. }
    rewrite <- bump_bump in *. rewrite <- fits_bump in Hf.
    replace (acc ++ v :: l) with ((acc ++ [v]) ++ l) by (by rewrite <- app_assoc).
    apply IH; auto; [simpl in Hlf; lia| |lia].
    apply stack_ok_bump; [lia| |done]. rewrite fits_bump in Hf. eapply fits_le; [|exact Hf]. lia.
Qed.

Lemma decodeListSlice_forward {A} (enc : A → bytes) (dec : SM A) l f s rest st :
  Forall (reads_back enc dec) l → stops dec → (length l < f)%nat →
  let n := Z.of_nat (length (concat (enc <$> l))) in
  opened s (concat (enc <$> l) ++ rest) st KList n → stack_ok st → fits st n → n < two64 →
  ∃ s', decodeListSlice f dec s = (Ok l, s') ∧ at_ s' rest (bump st n).
Proof.
  intros Hl Hstop Hlf n Ho Hok Hf Hn. unfold decodeListSlice, sbind, wrapped.
  destruct (List_opened s _ st n Ho) as (s1 & -> & Hat1).
  destruct (Z.eqb_spec n 0) as [Hn0|Hn0].
  - rewrite Hn0 in Hat1. pose proof (ListEnd_spec s1 _ 0 0 st Hat1 Hok ltac:(lia)) as HL.
    rewrite Hn0 in Hf. destruct (HL Hf) as (s2 & -> & Hat2). rewrite Hn0.
    assert (Hc : concat (enc <$> l) = []) by (apply length_zero_iff_nil; lia).
    rewrite Hc in Hat2. exists s2. split; [|done]. f_equal. f_equal.
    destruct l as [|v l]; [done|]. exfalso. clear -Hl Hc Hstop.
    rewrite fmap_cons, concat_cons in Hc. apply app_eq_nil in Hc as [Hv _].
    apply Forall_cons in Hl as [Hv' _].
    pose (s0 := set_stack (NewStream []) [(0, 0)]).
    destruct (Hv' s0 [] [(0, 0)]) as (s' & Hd & _); rewrite ?Hv; [done|by repeat constructor|simpl; lia|simpl; word|].
    destruct (Hstop s0 [] [(0, 0)]) as (s2 & Hd2 & _); [done|done|]. congruence.
  - destruct (decodeSliceElems_forward enc dec l f [] s1 rest ((0, n) :: st)) as (s2 & -> & Hat2); auto.
    + constructor; [simpl; lia|done].
    + simpl. lia.
    + simpl. lia.
    + pose proof (ListEnd_spec s2 rest (0 + n) n st Hat2 Hok ltac:(lia) Hf) as HL.
      rewrite Z.add_0_l, Z.eqb_refl in HL. destruct HL as (s3 & -> & Hat3). by exists s3.
Qed.

(** Every string in the item consists of bytes. *)
Fixpoint wf_item (v : item) : Prop :=
  match v with
  | RStr b => wf_bytes b
  | RList l => (fix all (l : list item) : Prop :=
                  match l with [] => True | v :: l' => wf_item v ∧ all l' end) l
  end.

Lemma wf_item_RList l : wf_item (RList l) ↔ Forall wf_item l.
Proof. induction l as [|v l IH]; simpl in *; [by split|]. rewrite Forall_cons, <- IH. done. Qed.

Lemma rlp_encode_pos v : (1 ≤ length (rlp_encode v))%nat.
Proof.
  destruct v as [b|l]; cbn [rlp_encode].
  - unfold encodeString, encodeStringHeader. destruct b as [|x [|y b]]; simpl; repeat case_match; simpl; lia.
  - rewrite length_app. pose proof (header_pos KList (Z.of_nat (length (concat (rlp_encode <$> l)))) 0).
    simpl in H. lia.
Qed.

Lemma length_le_concat (l : list item) : (length l ≤ length (concat (rlp_encode <$> l)))%nat.
Proof.
  induction l as [|v l IH]; [done|]. rewrite fmap_cons, concat_cons, length_app. simpl.
  pose proof (rlp_encode_pos v). lia.
Qed.

Lemma decodeInterface_stops f : stops (decodeInterface (S f)).
Proof.
  intros s b st Hat He. cbn [decodeInterface]. unfold sbind.
  destruct (Kind_eol s b st Hat He) as (s' & -> & Hat'). by exists s'.
Qed.

Lemma Bytes_opened s rest st k n bv c :
  opened s (payload k c ++ rest) st k n → (k = KByte → byteval s = bv) → string_kind k n bv c →
  stack_ok st → fits st (Z.of_nat (length (payload k c))) → 0 ≤ n < two64 →
  ∃ s', Bytes s = (Ok c, s') ∧ at_ s' rest (bump st (Z.of_nat (length (payload k c)))).
Proof.
  intros Ho Hbv Hsk Hok Hf Hn.
  assert (Hsk' : string_kind k n (byteval s) c).
  { destruct k; [|done|done]. by rewrite Hbv. }
  assert (Hho : header_ok k n (byteval s)).
  { destruct k; simpl in *; [|lia|done]. destruct Hsk' as (-> & _ & ?). done. }
  pose proof (Bytes_spec s _ st k n Ho Hok ltac:(lia) Hho) as Hb.
  destruct (Bytes s) as [[c'|e|w|] s']; try done.
  2: { destruct Hb as [_ Hno]. exfalso. apply Hno. by exists c, rest. }
  destruct Hb as (Hsk2 & _ & rest' & Heq & Hat). exists s'.
  assert (c' = c ∧ rest' = rest) as [-> ->]; [|done].
  destruct k; simpl in *; [|destruct Hsk' as [-> _], Hsk2 as [Hl _]; apply app_inj_1 in Heq; [naive_solver|lia]|done].
  destruct Hsk' as (_ & -> & _), Hsk2 as (_ & -> & _). done.
Qed.

(** [Kind] at the encoding of a string. *)
Record at_string (s s1 : Stream) (rest : bytes) (st : list (Z * Z)) (c : bytes)
    (k : Kind) (n bv : Z) (st1 : list (Z * Z)) : Prop := {
  as_kind : Kind_ s = (Ok (k, n), s1);
  as_string : string_kind k n bv c;
  as_opened : opened s1 (payload k c ++ rest) st1 k n;
  as_byteval : k = KByte → byteval s1 = bv;
  as_size : 0 ≤ n < two64;
  as_ok : stack_ok st1;
  as_fits : fits st1 (Z.of_nat (length (payload k c)));
  as_bump : bump st1 (Z.of_nat (length (payload k c))) = bump st (Z.of_nat (length (encodeString c)))
}.

Lemma open_string s rest st c :
  wf_bytes c → at_ s (encodeString c ++ rest) st → stack_ok st →
  fits st (Z.of_nat (length (encodeString c))) → Z.of_nat (length (encodeString c)) < two64 →
  ∃ k n bv s1 st1, at_string s s1 rest st c k n bv st1.
Proof.
  intros Hwf Hat Hok Hf Hn. destruct (string_kind_exists c Hwf) as (k & n & bv & Hsk).
  assert (Hlen : Z.of_nat (length (payload k c)) = n).
  { destruct k; simpl in *; [destruct Hsk as [-> _]|destruct Hsk as [-> _]|]; done. }
  pose proof (encodeString_kind k n bv c Hsk) as He.
  rewrite He, length_app, Nat2Z.inj_add, <- app_assoc in *.
  destruct (Kind_forward s k n bv (payload k c ++ rest) st) as (s1 & Hk & Ho & Hbv); auto.
  { destruct k; simpl in *; [destruct Hsk as (-> & _ & ?)|..]; done || lia. }
  { by rewrite Hlen in Hf. }
  { rewrite length_app. lia. }
  exists k, n, bv, s1, (bump st (Z.of_nat (length (header k n bv)))).
  split; auto; [lia| |by rewrite fits_bump|].
  - apply stack_ok_bump; [lia| |done]. eapply fits_le; [|exact Hf]. lia.
  - rewrite He, length_app, Nat2Z.inj_add, bump_bump. done.
Qed.

Lemma Bytes_Kind s s1 b st k n : Kind_ s = (Ok (k, n), s1) → opened s1 b st k n → Bytes s = Bytes s1.
Proof. intros Hk Ho. unfold Bytes, sbind. by rewrite Hk, (Kind_cached _ _ _ _ _ Ho). Qed.

Lemma Bytes_reads_back c : wf_bytes c → reads_bytes (encodeString c) Bytes c.
Proof.
  intros Hwf s rest st Hat Hok Hf Hn.
  destruct (open_string s rest st c Hwf Hat Hok Hf Hn) as (k & n & bv & s1 & st1 & H).
  rewrite (Bytes_Kind s s1 _ _ _ _ (as_kind _ _ _ _ _ _ _ _ _ H) (as_opened _ _ _ _ _ _ _ _ _ H)).
  rewrite <- (as_bump _ _ _ _ _ _ _ _ _ H). destruct H. by eapply Bytes_opened.
Qed.

Lemma decodeInterface_reads_back_str c f :
  wf_bytes c → reads_back rlp_encode (decodeInterface (S f)) (RStr c).
Proof.
  intros Hwf s rest st Hat Hok Hf Hn. cbn [rlp_encode] in *.
  destruct (open_string s rest st c Hwf Hat Hok Hf Hn) as (k & n & bv & s1 & st1 & H).
  destruct (Bytes_reads_back c Hwf s rest st Hat Hok Hf Hn) as (s2 & Hby & Hat2).
  exists s2. split; [|done]. destruct H as [Hk Hsk Ho _ _ _ _ _].
  rewrite (Bytes_Kind s s1 _ _ _ _ Hk Ho) in Hby. cbn [decodeInterface]. unfold sbind.
  rewrite Hk. destruct k; [| |destruct Hsk]; by rewrite Hby.
Qed.

Lemma decodeInterface_reads_back_list l f :
  Forall (reads_back rlp_encode (decodeInterface f)) l →
  (length (rlp_encode (RList l)) < S f)%nat →
  reads_back rlp_encode (decodeInterface (S f)) (RList l).
Proof.
  intros Hl Hlf s rest st Hat Hok Hf Hn. cbn [decodeInterface]. unfold sbind at 1.
  cbn [rlp_encode] in *. set (n := Z.of_nat (length (concat (rlp_encode <$> l)))) in *.
  rewrite length_app, Nat2Z.inj_add, <- app_assoc in *. fold n in Hf, Hn |- *.
  pose proof (header_pos KList n 0) as Hp. cbn [header] in Hp.
  destruct (Kind_forward s KList n 0 (concat (rlp_encode <$> l) ++ rest) st) as (s1 & -> & Ho & _); auto.
  { simpl. lia. }
  { rewrite length_app. lia. }
  cbn [header] in Ho. rewrite <- fits_bump in Hf. rewrite <- bump_bump.
  pose proof (length_le_concat l) as Hll.
  destruct (decodeListSlice_forward rlp_encode (decodeInterface f) l f s1 rest
    (bump st (Z.of_nat (length (puthead 0xC0 0xF7 n))))) as (s2 & Hd & Hat2); auto; try lia.
  - destruct f; [lia|]. apply decodeInterface_stops.
  - apply stack_ok_bump; [lia| |done]. rewrite fits_bump in Hf. eapply fits_le; [|exact Hf]. lia.
  - exists s2. split; [|done]. unfold sbind. by rewrite Hd.
Qed.

Lemma decodeInterface_reads_back v : wf_item v →
  ∀ f, (length (rlp_encode v) < f)%nat → reads_back rlp_encode (decodeInterface f) v.
Proof.
  induction v as [c|l IH] using item_ind'; intros Hwf [|f] Hlf; try lia.
  - by apply decodeInterface_reads_back_str.
  - apply decodeInterface_reads_back_list; [|done]. apply wf_item_RList in Hwf.
    rewrite Forall_forall in IH, Hwf |- *. intros v Hv. apply IH; [done|by apply Hwf|].
    pose proof (header_pos KList (Z.of_nat (length (concat (rlp_encode <$> l)))) 0) as Hp.
    cbn [header] in Hp. cbn [rlp_encode] in Hlf. rewrite length_app in Hlf.
    apply list_elem_of_split in Hv as (l1 & l2 & ->).
    rewrite fmap_app, fmap_cons, concat_app, concat_cons, !length_app in *. lia.
Qed.

(** Decoding inverts encoding: every tree of byte strings whose encoding has
    a 64-bit length is returned unchanged by [DecodeBytes]. *)
Theorem DecodeItem_encode v (Hwf : wf_item v) (Hs : sized v) : DecodeItem (rlp_encode v) = Ok v.
Proof.
  unfold DecodeItem, DecodeBytes.
  destruct (decodeInterface_reads_back v Hwf (S (length (rlp_encode v))) ltac:(lia)
    (NewStream (rlp_encode v)) [] []) as (s' & -> & [(_ & -> & _) _]); auto.
  - by rewrite app_nil_r.
  - constructor.
  - done.
Qed.

(** The decoder is total: on every input it returns a value or an error, it
    never loops and never panics. *)
Theorem DecodeItem_total b (Hwf : wf_bytes b) :
  (∃ v, DecodeItem b = Ok v) ∨ (∃ e, DecodeItem b = Err e).
Proof.
  unfold DecodeItem, DecodeBytes.
  pose proof (decodeInterface_reads (S (length b)) (NewStream b) b []) as Hr.
  specialize (Hr ltac:(done) ltac:(constructor) Hwf).
  destruct (decodeInterface (S (length b)) (NewStream b)) as [[v|e|w|] s']; [| |done|lia].
  - destruct (rd s'); eauto.
  - eauto.
Qed.

(** C31: the decoder is total and inverts the encoder: on every input it returns
    an error or the one value whose canonical encoding the input is, and it
    returns every value whose encoding has a 64-bit length. *)
Theorem DecodeItem_inverts b v (Hb : wf_bytes b) (Hv : wf_item v) (Hs : sized v) :
  ((∃ w, DecodeItem b = Ok w ∧ b = rlp_encode w) ∨ (∃ e, DecodeItem b = Err e)) ∧
  DecodeItem (rlp_encode v) = Ok v.
Proof.
  split; [|by apply DecodeItem_encode]. destruct (DecodeItem_total b Hb) as [[w Hw]|He]; [left|by right].
  exists w. split; [done|]. by apply DecodeItem_canonical.
Qed.

(** A list that claims more content than there is, and a byte with a
    superfluous header, are errors. *)
Lemma DecodeItem_inverts_witness :
  DecodeItem [0xc5; 1] = Err ErrValueTooLarge ∧ DecodeItem [0x81; 5] = Err ErrCanonSize ∧
  ((∃ w, DecodeItem [0xc2; 1; 0x80] = Ok w ∧ [0xc2; 1; 0x80] = rlp_encode w) ∨
   (∃ e, DecodeItem [0xc2; 1; 0x80] = Err e)) ∧
  DecodeItem (rlp_encode (RList [RStr (replicate 60 7); RList []])) =
  Ok (RList [RStr (replicate 60 7); RList []]).
Proof.
  split; [vm_compute; reflexivity|]. split; [vm_compute; reflexivity|]. apply DecodeItem_inverts.
  - repeat constructor; vm_compute; congruence.
  - simpl. repeat split; repeat constructor; vm_compute; congruence.
  - vm_compute. reflexivity.
Defined.

(** ** Splitting raw data *)

(** [raw_readKind] on a string or list header: the sizes of tag and content. *)
Lemma readSize_putint n tl :
  56 ≤ n < two64 → readSize (putint n ++ tl) (Z.of_nat (length (putint n))) = Ok n.
Proof.
  intros Hn. unfold readSize. rewrite length_app, (proj2 (Z.ltb_ge _ _)) by lia.
  destruct (putint_read n ltac:(lia)) as (Hbe & (x & c & Hx & Hx0) & _).
  rewrite Nat2Z.id, take_app_length, Hbe, Hx. simpl.
  by rewrite (proj2 (Z.ltb_ge n 56)), (proj2 (Z.eqb_neq x 0)) by lia.
Qed.

Lemma raw_readKind_header k n tl :
  k ≠ KByte → 0 ≤ n ≤ Z.of_nat (length tl) → Z.of_nat (length tl) + 9 < two64 →
  (k = KString → n = 1 → 128 ≤ default 0 (head tl)) →
  raw_readKind (header k n 0 ++ tl) = Ok (k, Z.of_nat (length (header k n 0)), n).
Proof.
  intros Hk Hn Htl Hc. unfold raw_readKind. pose proof (putint_length n) as Hp.
  destruct (decide (n < 56)) as [Hs|Hs].
  - destruct k; [done|..]; simpl; rewrite puthead_small, Z.mod_small by lia; cbn [app length];
      repeat first
        [ rewrite (proj2 (Z.ltb_ge _ _)) by lia
        | rewrite (proj2 (Z.ltb_lt _ _)) by lia ].
    + rewrite Z.add_simpl_l. destruct (Z.eqb_spec n 1) as [->|]; cbn [andb bind].
      * destruct tl as [|x tl]; [simpl in Hn; lia|]. simpl in Hc. specialize (Hc eq_refl eq_refl).
        rewrite (proj2 (Z.ltb_ge x 128)) by lia. cbn [bind].
        rewrite u64_small, (proj2 (Z.ltb_ge _ _)) by (unfold is_u64; simpl in *; lia). done.
      * rewrite u64_small, (proj2 (Z.ltb_ge _ _)) by (unfold is_u64; simpl in *; lia). done.
    + rewrite Z.add_simpl_l. cbn [bind].
      rewrite u64_small, (proj2 (Z.ltb_ge _ _)) by (unfold is_u64; simpl in *; lia). done.
  - destruct k; [done|..]; simpl; rewrite puthead_long, Z.mod_small by lia; cbn [app length];
      repeat first
        [ rewrite (proj2 (Z.ltb_ge _ _)) by lia
        | rewrite (proj2 (Z.ltb_lt _ _)) by lia ];
      rewrite Z.add_simpl_l, readSize_putint by lia; cbn [bind];
      rewrite length_app, u64_small, (proj2 (Z.ltb_ge _ _)) by (unfold is_u64; simpl in *; lia);
      do 3 f_equal; lia.
Qed.

(** The content that [Split] returns for an item. *)
Definition content (v : item) : bytes :=
  match v with RStr b => b | RList l => concat (rlp_encode <$> l) end.

Definition is_list (v : item) : bool := match v with RStr _ => false | RList _ => true end.

Lemma raw_readKind_encode v rest :
  wf_item v → Z.of_nat (length (rlp_encode v ++ rest)) + 9 < two64 →
  ∃ k ts, raw_readKind (rlp_encode v ++ rest) = Ok (k, Z.of_nat ts, Z.of_nat (length (content v))) ∧
    (k = KList ↔ is_list v = true) ∧ drop ts (rlp_encode v) = content v ∧
    (ts + length (content v) = length (rlp_encode v))%nat.
Proof.
  intros Hwf Hl. destruct v as [c|l]; cbn [rlp_encode content is_list] in *.
  - destruct (string_kind_exists c Hwf) as (k & n & bv & Hsk).
    pose proof (encodeString_kind k n bv c Hsk) as He. rewrite He in *.
    destruct k; simpl in Hsk; [|destruct Hsk as [-> Hc]|done].
    + destruct Hsk as (-> & -> & Hbv). exists KByte, O. cbn [header payload app length].
      split; [|done]. unfold raw_readKind. rewrite (proj2 (Z.ltb_lt bv 0x80)) by lia. cbn [bind].
      cbn [header payload app length] in Hl.
      rewrite u64_small, (proj2 (Z.ltb_ge _ _)) by (unfold is_u64; simpl in *; lia). done.
    + exists KString, (length (header KString (Z.of_nat (length c)) bv)). cbn [payload] in *.
      rewrite drop_app_length, length_app, <- app_assoc in *. split; [|done].
      rewrite !length_app in Hl.
      apply (raw_readKind_header KString); [done|rewrite length_app; lia|rewrite length_app; lia|].
      intros _ H1. specialize (Hc H1). destruct c; [done|]. simpl in *. lia.
  - exists KList, (length (header KList (Z.of_nat (length (concat (rlp_encode <$> l)))) 0)).
    cbn [header] in *. rewrite drop_app_length, length_app, <- app_assoc in *. split; [|done].
    rewrite !length_app in Hl.
    by apply (raw_readKind_header KList); [done|rewrite length_app; lia|rewrite length_app; lia|].
Qed.

(** [Split] takes the first value off a concatenation of encodings: it
    returns the content of that value and everything after it. *)
Theorem Split_encode v rest
    (Hwf : wf_item v) (Hl : Z.of_nat (length (rlp_encode v ++ rest)) + 9 < two64) :
  ∃ k, Split (rlp_encode v ++ rest) = Ok (k, content v, rest) ∧ (k = KList ↔ is_list v = true).
Proof.
  destruct (raw_readKind_encode v rest Hwf Hl) as (k & ts & Hr & Hk & Hd & Hts).
  exists k. split; [|done]. unfold Split. rewrite Hr. cbn [bind].
  rewrite <- Nat2Z.inj_add, !Nat2Z.id, Hts, drop_app_length.
  rewrite drop_app_le, Hd, take_app_length by lia. done.
Qed.

Lemma Split_witness : ∃ k, Split [0x83; 1; 2; 3; 0xc0] = Ok (k, [1; 2; 3], [0xc0]).
Proof.
  destruct (Split_encode (RStr [1; 2; 3]) [0xc0]) as (k & Hs & _).
  - repeat constructor; vm_compute; congruence.
  - vm_compute. reflexivity.
  - exists k. exact Hs.
Defined.

(** [CountValues] counts the encodings in a concatenation. *)
Lemma CountValues_encode l :
  Forall wf_item l → Z.of_nat (length (concat (rlp_encode <$> l))) + 9 < two64 →
  CountValues (concat (rlp_encode <$> l)) = Ok (Z.of_nat (length l)).
Proof.
  intros Hwf Hl. unfold CountValues.
  enough (Hg : ∀ f i, (length (concat (rlp_encode <$> l)) ≤ f)%nat →
    CountValues_loop f (concat (rlp_encode <$> l)) i = Ok (i + Z.of_nat (length l))) by (apply Hg; lia).
  revert Hl. induction Hwf as [|v l Hv Hwf IH]; intros Hl f i Hf; [destruct f; simpl; f_equal; lia|].
  rewrite fmap_cons, concat_cons in *. pose proof (rlp_encode_pos v) as Hp.
  destruct (raw_readKind_encode v (concat (rlp_encode <$> l)) Hv Hl) as (k & ts & Hr & _ & _ & Hts).
  rewrite length_app in *. destruct f as [|f]; [lia|].
  destruct (rlp_encode v ++ concat (rlp_encode <$> l)) as [|x tl] eqn:E.
  { apply app_eq_nil in E as [E _]. rewrite E in Hp. simpl in Hp. lia. }
  cbn [CountValues_loop]. rewrite Hr. cbn [bind]. rewrite <- E.
  rewrite <- Nat2Z.inj_add, Nat2Z.id, Hts, drop_app_length, IH by lia. f_equal. simpl. lia.
Qed.

(** ** Composing typed decoders *)

Lemma reads_list_header {A} (n : Z) body (dec : SM A) v :
  n = Z.of_nat (length body) →
  (∀ s rest st, opened s (body ++ rest) st KList n → stack_ok st → fits st n → n < two64 →
     ∃ s', dec s = (Ok v, s') ∧ at_ s' rest (bump st n)) →
  (∀ s s1 b st, Kind_ s = (Ok (KList, n), s1) → opened s1 b st KList n → dec s = dec s1) →
  reads_bytes (puthead 0xC0 0xF7 n ++ body) dec v.
Proof.
  intros Hn Hdec Hcache s rest st Hat Hok Hf Hlt. rewrite <- app_assoc in Hat.
  rewrite length_app, Nat2Z.inj_add, <- Hn in *.
  destruct (Kind_forward s KList n 0 (body ++ rest) st) as (s1 & Hk & Ho & _); auto.
  { simpl. lia. }
  { rewrite length_app. lia. }
  cbn [header] in Ho. rewrite (Hcache _ _ _ _ Hk Ho), <- bump_bump. rewrite <- fits_bump in Hf.
  apply Hdec; auto; [|lia]. apply stack_ok_bump; [lia| |done].
  rewrite fits_bump in Hf. eapply fits_le; [|exact Hf]. lia.
Qed.

Lemma List_Kind s s1 b st n :
  Kind_ s = (Ok (KList, n), s1) → opened s1 b st KList n → List_ s = List_ s1.
Proof. intros Hk Ho. unfold List_, sbind. by rewrite Hk, (Kind_cached _ _ _ _ _ Ho). Qed.

Lemma decodeListSlice_reads {A} (enc : A → bytes) (dec : SM A) l f :
  Forall (reads_back enc dec) l → stops dec → (length l < f)%nat →
  reads_bytes (puthead 0xC0 0xF7 (Z.of_nat (length (concat (enc <$> l)))) ++ concat (enc <$> l))
    (decodeListSlice f dec) l.
Proof.
  intros Hl Hs Hf. apply reads_list_header; [done|..].
  - intros s rest st Ho Hok Hfit Hn. by apply decodeListSlice_forward.
  - intros s s1 b st Hk Ho. unfold decodeListSlice, sbind, wrapped. by rewrite (List_Kind _ _ _ _ _ Hk Ho).
Qed.

Lemma decodeStruct_reads {A} body (fields : SM A) v :
  reads_bytes body fields v →
  reads_bytes (puthead 0xC0 0xF7 (Z.of_nat (length body)) ++ body) (decodeStruct fields) v.
Proof.
  intros Hb. apply reads_list_header; [done|..].
  - intros s rest st Ho Hok Hfit Hn. unfold decodeStruct, sbind, wrapped.
    destruct (List_opened _ _ _ _ Ho) as (s1 & -> & Hat1).
    destruct (Hb s1 rest _ Hat1) as (s2 & -> & Hat2); auto.
    { constructor; [simpl; lia|done]. }
    { simpl. lia. }
    pose proof (ListEnd_spec s2 rest _ _ st Hat2 Hok ltac:(lia) Hfit) as HL.
    rewrite Z.add_0_l, Z.eqb_refl in HL. destruct HL as (s3 & -> & Hat3). by exists s3.
  - intros s s1 b st Hk Ho. unfold decodeStruct, sbind, wrapped. by rewrite (List_Kind _ _ _ _ _ Hk Ho).
Qed.

Lemma decodeField_reads {A B} b1 b2 (d : SM A) x (k : A → SM B) v :
  reads_bytes b1 d x → reads_bytes b2 (k x) v →
  reads_bytes (b1 ++ b2) (let! y := decodeField d in k y) v.
Proof.
  intros H1 H2 s rest st Hat Hok Hf Hn. rewrite length_app, Nat2Z.inj_add, <- app_assoc in *.
  destruct (H1 s (b2 ++ rest) st) as (s1 & Hd & Hat1); auto; [|lia|].
  { eapply fits_le; [|exact Hf]. lia. }
  rewrite <- bump_bump. rewrite <- fits_bump in Hf.
  destruct (H2 s1 rest _ Hat1) as (s2 & Hd2 & Hat2); auto; [|lia|].
  { apply stack_ok_bump; [lia| |done]. rewrite fits_bump in Hf. eapply fits_le; [|exact Hf]. lia. }
  exists s2. split; [|done]. unfold sbind, decodeField. by rewrite Hd.
Qed.

Lemma sret_reads {A} (v : A) : reads_bytes [] (sret v) v.
Proof. intros s rest st Hat _ _ _. exists s. simpl. by rewrite bump_0. Qed.

Lemma DecodeBytes_reads {A} b (dec : SM A) v :
  reads_bytes b dec v → Z.of_nat (length b) < two64 → DecodeBytes dec b = Ok v.
Proof.
  intros Hr Hn. unfold DecodeBytes.
  destruct (Hr (NewStream b) [] []) as (s' & -> & [(_ & -> & _) _]); auto.
  - by rewrite app_nil_r.
  - constructor.
  - done.
Qed.

Lemma decodeStruct_stops {A} (fields : SM A) : stops (decodeStruct fields).
Proof.
  intros s b st Hat He. destruct (Kind_eol s b st Hat He) as (s' & Hk & Hat').
  exists s'. split; [|done]. unfold decodeStruct, wrapped, List_, sbind. by rewrite Hk.
Qed.
