(* ===== verification/Types.v ===== *)
(** * Headers, transactions and signers ([core/types])

    The wallets a transaction moves funds between, block headers, transactions
    with their derived messages, and the three signature schemes. *)

From Stdlib Require Import ZArith Lia.
From stdpp Require Import base option list gmap strings.
From S2P Require Import Prelude GoFloat Params Rlp.

(** ** Wallets ([jobwallet.go]) *)

Definition Main : Z := 1.
Definition Stake : Z := 2.
Definition end_ : Z := 3.

Definition ConvertJobWallet (s : string) : Z :=
  if String.eqb s "main" then Main
  else if String.eqb s "stake" then Stake
  else Main.

Definition JobWallet_String (m : Z) : string :=
  if (m - 1) mod 256 mod 2 =? 0 then "main" else "stake".

Definition ErrInvalidJobWallet : string := "invalid wallet type".

(** [nil] is [None]. *)
Definition ValidateJobWallet (base target : Z) : option string :=
  if (base =? 0) || (end_ <=? base) then Some ErrInvalidJobWallet
  else if (target =? 0) || (end_ <=? target) then Some ErrInvalidJobWallet
  else if (base =? Stake) && (target =? Stake) then Some ErrInvalidJobWallet
  else None.

(** ** Headers ([block.go]) *)

Record Header := {
  ParentHash : Hash;
  UncleHash : Hash;
  Coinbase : Address;
  Root : Hash;
  TxHash : Hash;
  ReceiptHash : Hash;
  Bloom : bytes;
  Difficulty : Z;
  Number : option Z;                (* *big.Int *)
  GasLimit : Z;
  GasUsed : Z;
  Time : Z;
  Extra : bytes;
  MixDigest : Hash;
  Nonce : bytes                     (* BlockNonce, 8 bytes *)
}.

(** [binary.BigEndian.PutUint64] and [Uint64] on the nonce. *)
Definition EncodeNonce (i : Z) : bytes :=
  byte_at i <$> [56; 48; 40; 32; 24; 16; 8; 0].
Definition Nonce_Uint64 (n : bytes) : Z := be_Z n.

(** ** Transactions ([transaction.go]) *)

Record txdata := {
  AccountNonce : Z;
  Price : Z;
  TxGasLimit : Z;
  Recipient : option Address;
  Amount : Z;
  Payload : bytes;
  Base : Z;
  Target : Z;
  V : Z;
  R : Z;
  S_ : Z
}.

Definition newTransaction (nonce : Z) (to : option Address) (amount : option Z)
    (gasLimit : Z) (gasPrice : option Z) (data : bytes) (base target : Z) : txdata := {|
  AccountNonce := nonce;
  Recipient := to;
  Payload := data;
  Amount := default 0 amount;
  Base := base;
  Target := target;
  TxGasLimit := gasLimit;
  Price := default 0 gasPrice;
  V := 0; R := 0; S_ := 0
|}.

Definition Cost (tx : txdata) : Z := Price tx * TxGasLimit tx + Amount tx.
Definition MainFee (tx : txdata) : Z := Price tx * TxGasLimit tx.

Record Message := {
  msg_to : option Address;
  msg_from : Address;
  msg_nonce : Z;
  msg_amount : Z;
  msg_gasLimit : Z;
  msg_gasPrice : Z;
  msg_data : bytes;
  msg_checkNonce : bool;
  msg_base : Z;
  msg_target : Z
}.

(** [BitLen] of a non-negative [big.Int]. *)
Definition BitLen (v : Z) : Z := if v <=? 0 then 0 else Z.log2 v + 1.

Definition isProtectedV (v : Z) : bool :=
  if BitLen v <=? 8 then negb (big_Uint64 v =? 27) && negb (big_Uint64 v =? 28)
  else true.

Definition deriveChainId (v : Z) : Z :=
  if BitLen v <=? 64 then
    let v := big_Uint64 v in
    if (v =? 27) || (v =? 28) then 0 else u64 (v - 35) / 2
  else (v - 35) / 2.

(** ** Signers ([transaction_signing.go]) *)

Definition ErrInvalidSig : string := "invalid transaction v, r, s values".
Definition ErrInvalidChainId : string := "invalid chain id for signer".

Inductive Signer :=
| FrontierSigner
| HomesteadSigner
| EIP155Signer (chainId : Z).

Definition NewEIP155Signer (chainId : option Z) : Signer := EIP155Signer (default 0 chainId).

Definition MakeSigner (config : ChainConfig) (blockNumber : option Z) : Signer :=
  if IsEIP155 config blockNumber then NewEIP155Signer (ChainID config)
  else if IsHomestead config blockNumber then HomesteadSigner
  else FrontierSigner.

(** The curve operations and the hash are code of [crypto] and of its C
    library. *)
Class Crypto := {
  Keccak256 : bytes → bytes;
  ValidateSignatureValues : Z → Z → Z → bool → bool;
  Ecrecover : bytes → bytes → result bytes
}.

(** [crypto/sha256]: a function to 32 bytes. *)
Class Sha256 := { sha256 : bytes → bytes }.

Section Signers.
Context {C : Crypto}.

Definition rlpHash (v : item) : Hash := Keccak256 (rlp_encode v).

(** A nil [*common.Address] is written as the empty string. *)
Definition RAddr (a : option Address) : item := RStr (default [] a).

Definition Frontier_fields (tx : txdata) : list item :=
  [RUint (AccountNonce tx); RUint (Price tx); RUint (TxGasLimit tx);
   RAddr (Recipient tx); RUint (Amount tx); RStr (Payload tx)].

Definition Signer_Hash (s : Signer) (tx : txdata) : Hash :=
  match s with
  | EIP155Signer chainId =>
      rlpHash (RList (Frontier_fields tx ++
        [RUint (Base tx); RUint (Target tx); RUint chainId; RUint 0; RUint 0]))
  | _ => rlpHash (RList (Frontier_fields tx))
  end.

(** [copy(sig[32-len(r):32], r)] into a zeroed buffer; the slice expression
    panics when [r] is longer than 32 bytes. *)
Definition pad32 (b : bytes) : result bytes :=
  if (32 <? length b)%nat then Panic "slice bounds out of range"
  else Ok (replicate (32 - length b) 0 ++ b).

Definition recoverPlain (sighash : Hash) (R S Vb : Z) (homestead : bool) : result Address :=
  if 8 <? BitLen Vb then Err ErrInvalidSig
  else
    let V := u64 (big_Uint64 Vb - 27) mod 256 in
    if negb (ValidateSignatureValues V R S homestead) then Err ErrInvalidSig
    else
      let* r := pad32 (Z_be R) in
      let* s := pad32 (Z_be S) in
      let* pub := Ecrecover sighash (r ++ s ++ [V]) in
      match pub with
      | 4 :: key => Ok (take AddressLength (drop 12 (Keccak256 key)))
      | _ => Err "invalid public key"
      end.

Definition Signer_Sender (s : Signer) (tx : txdata) : result Address :=
  match s with
  | FrontierSigner => recoverPlain (Signer_Hash FrontierSigner tx) (R tx) (S_ tx) (V tx) false
  | HomesteadSigner => recoverPlain (Signer_Hash HomesteadSigner tx) (R tx) (S_ tx) (V tx) true
  | EIP155Signer chainId =>
      if negb (isProtectedV (V tx)) then
        recoverPlain (Signer_Hash HomesteadSigner tx) (R tx) (S_ tx) (V tx) true
      else if negb (deriveChainId (V tx) =? chainId) then Err ErrInvalidChainId
      else recoverPlain (Signer_Hash s tx) (R tx) (S_ tx) (V tx - 2 * chainId - 8) true
  end.

(** [SignatureValues]: [(r, s, v)] of a 65-byte signature. *)
Definition SignatureValues (s : Signer) (sig : bytes) : result (Z * Z * Z) :=
  if negb (length sig =? 65)%nat then Panic "wrong size for signature"
  else
    let r := be_Z (take 32 sig) in
    let s' := be_Z (take 32 (drop 32 sig)) in
    let sv := default 0 (last sig) in
    match s with
    | EIP155Signer chainId =>
        if chainId =? 0 then Ok (r, s', (sv + 27) mod 256)
        else Ok (r, s', (sv + 35) mod 256 + 2 * chainId)
    | _ => Ok (r, s', (sv + 27) mod 256)
    end.

Definition WithSignature (s : Signer) (tx : txdata) (sig : bytes) : result txdata :=
  let* rsv := SignatureValues s sig in
  let '(r, s', v) := rsv in
  Ok {| AccountNonce := AccountNonce tx; Price := Price tx; TxGasLimit := TxGasLimit tx;
        Recipient := Recipient tx; Amount := Amount tx; Payload := Payload tx;
        Base := Base tx; Target := Target tx; V := v; R := r; S_ := s' |}.

(** The encoding of the whole transaction, and its hash; the cached hash is the
    same. *)
Definition Tx_fields (tx : txdata) : list item :=
  Frontier_fields tx ++ [RUint (Base tx); RUint (Target tx); RUint (V tx); RUint (R tx); RUint (S_ tx)].

Definition Tx_Hash (tx : txdata) : Hash := rlpHash (RList (Tx_fields tx)).

(** What [a] has and [b] has not, by hash. *)
Definition TxDifference (a b : list txdata) : list txdata :=
  let remove : gset Hash := list_to_set (Tx_Hash <$> b) in
  filter (λ tx, Tx_Hash tx ∉ remove) a.

(** [AsMessage]; the sender cache of [Sender] returns what was recovered
    with an equal signer and is not modelled. *)
Definition AsMessage (tx : txdata) (s : Signer) : result Message :=
  let* from := Signer_Sender s tx in
  Ok {| msg_nonce := AccountNonce tx; msg_gasLimit := TxGasLimit tx;
        msg_gasPrice := Price tx; msg_to := Recipient tx; msg_amount := Amount tx;
        msg_data := Payload tx; msg_checkNonce := true; msg_base := Base tx;
        msg_target := Target tx; msg_from := from |}.
End Signers.

(** ** Lemmas *)

Lemma Nonce_round_trip i : is_u64 i → Nonce_Uint64 (EncodeNonce i) = i.
Proof.
  intros Hi. unfold Nonce_Uint64, EncodeNonce, byte_at, be_Z.
  cbn [fmap list_fmap foldl]. rewrite !Z.shiftr_div_pow2 by lia.
  unfold is_u64 in Hi. rewrite two64_eq in Hi.
  assert (Hstep : ∀ k k', 0 ≤ k → k' = k + 8 → i / 2 ^ k' = i / 2 ^ k / 256).
  { intros k k' Hk ->. rewrite Z.pow_add_r, Z.div_div by lia. done. }
  rewrite (Hstep 48 56), (Hstep 40 48), (Hstep 32 40), (Hstep 24 32), (Hstep 16 24),
    (Hstep 8 16), (Hstep 0 8) by lia.
  change (2 ^ 0) with 1. rewrite Z.div_1_r. zdiv.
Qed.

Lemma pad32_be b : wf_bytes b → length b = 32%nat → pad32 (Z_be (be_Z b)) = Ok b.
Proof.
  intros Hb Hl. unfold pad32. pose proof (Z_be_length_le b Hb).
  destruct (Nat.ltb_spec 32 (length (Z_be (be_Z b)))); [lia|].
  f_equal. rewrite <- Hl. by apply Z_be_pad.
Qed.

(** The wallets accepted by [ValidateJobWallet]. *)
Lemma ValidateJobWallet_ok b t :
  0 ≤ b → 0 ≤ t →
  ValidateJobWallet b t = None ↔
  (b = Main ∧ (t = Main ∨ t = Stake)) ∨ (b = Stake ∧ t = Main).
Proof.
  intros Hb Ht. unfold ValidateJobWallet, Main, Stake, end_.
  destruct (Z.eqb_spec b 0), (Z.leb_spec 3 b), (Z.eqb_spec t 0), (Z.leb_spec 3 t),
    (Z.eqb_spec b 2), (Z.eqb_spec t 2); simpl; split; intros; try done; try lia.
Qed.

(** Two transactions that agree on everything but the wallets. *)
Definition same_but_wallets (tx tx' : txdata) : Prop :=
  AccountNonce tx = AccountNonce tx' ∧ Price tx = Price tx' ∧
  TxGasLimit tx = TxGasLimit tx' ∧ Recipient tx = Recipient tx' ∧
  Amount tx = Amount tx' ∧ Payload tx = Payload tx' ∧
  V tx = V tx' ∧ R tx = R tx' ∧ S_ tx = S_ tx'.

Lemma Frontier_fields_same tx tx' :
  same_but_wallets tx tx' → Frontier_fields tx = Frontier_fields tx'.
Proof. unfold same_but_wallets, Frontier_fields. intros. destruct_and!. congruence. Qed.

Lemma BitLen_le v n : 0 ≤ n → 0 ≤ v < 2 ^ n → BitLen v ≤ n.
Proof.
  intros Hn Hv. unfold BitLen. destruct (Z.leb_spec v 0); [lia|].
  assert (Z.log2 v < n) by (apply Z.log2_lt_pow2; lia). lia.
Qed.

(** The [V] value of an EIP-155 signature gives back the chain id. *)
Lemma deriveChainId_spec c p :
  0 < c → 0 ≤ p ≤ 1 →
  isProtectedV (p + 35 + 2 * c) = true ∧ deriveChainId (p + 35 + 2 * c) = c.
Proof.
  intros Hc Hp. set (v := p + 35 + 2 * c).
  assert (Hhalf : (v - 35) / 2 = c) by (unfold v; zdiv).
  split.
  - unfold isProtectedV. destruct (Z.leb_spec (BitLen v) 8) as [Hb|]; [|done].
    assert (v < 2 ^ 8).
    { unfold BitLen in Hb. destruct (Z.leb_spec v 0); [lia|].
      apply Z.log2_lt_pow2; lia. }
    rewrite big_Uint64_small by (unfold v in *; word).
    destruct (Z.eqb_spec v 27), (Z.eqb_spec v 28); unfold v in *; simpl; lia.
  - unfold deriveChainId. destruct (Z.leb_spec (BitLen v) 64) as [Hb|]; [|done].
    assert (v < 2 ^ 64).
    { unfold BitLen in Hb. destruct (Z.leb_spec v 0); [lia|].
      apply Z.log2_lt_pow2; lia. }
    rewrite big_Uint64_small by (unfold v in *; word).
    rewrite u64_small by (unfold v in *; word).
    destruct (Z.eqb_spec v 27), (Z.eqb_spec v 28); unfold v in *; simpl; lia.
Qed.

Section Properties.
Context {C : Crypto}.

(** C34: a signature made under the EIP-155 rules recovers to its signer: for
    a chain id [c > 0], signing a transaction (the curve recovers [4 :: key]
    from the 65-byte signature over the EIP-155 hash, which passes the value
    check) and then asking the same signer for the sender gives the address
    of [key]. *)
Theorem EIP155_sign_then_recover c tx sig rs p key
    (Hc : 0 < c) (Hp : 0 ≤ p ≤ 1)
    (Hsig : sig = rs ++ [p]) (Hlen : length rs = 64%nat) (Hwf : wf_bytes rs)
    (Hval : ValidateSignatureValues p (be_Z (take 32 rs)) (be_Z (drop 32 rs)) true = true)
    (Hrec : Ecrecover (Signer_Hash (EIP155Signer c) tx) sig = Ok (4 :: key)) :
  ∃ tx', WithSignature (EIP155Signer c) tx sig = Ok tx' ∧
    Signer_Sender (EIP155Signer c) tx' = Ok (take AddressLength (drop 12 (Keccak256 key))).
Proof.
  unfold WithSignature, SignatureValues. subst sig.
  rewrite length_app, Hlen. simpl negb. cbv iota.
  destruct (Z.eqb_spec c 0); [lia|]. simpl bind.
  rewrite take_app_le, drop_app_le, take_app_le, last_snoc by (rewrite ?length_drop; lia).
  rewrite (take_ge (drop 32 rs)) by (rewrite length_drop; lia).
  simpl default. rewrite Z.mod_small by lia. eexists. split; [done|].
  destruct (deriveChainId_spec c p Hc Hp) as [Hprot Hid].
  unfold Signer_Sender. cbn [V R S_]. rewrite Hprot, Hid, Z.eqb_refl. simpl negb. cbv iota.
  change (Signer_Hash (EIP155Signer c) _) with (Signer_Hash (EIP155Signer c) tx).
  unfold recoverPlain. replace (p + 35 + 2 * c - 2 * c - 8) with (p + 27) by lia.
  destruct (Z.ltb_spec 8 (BitLen (p + 27))) as [Hb|_].
  { pose proof (BitLen_le (p + 27) 8). lia. }
  rewrite big_Uint64_small by word. replace (p + 27 - 27) with p by lia.
  rewrite u64_small, Z.mod_small, Hval by word. simpl negb. cbv iota.
  rewrite pad32_be by (try apply Forall_take; try done; rewrite length_take; lia). simpl bind.
  rewrite pad32_be by (try apply Forall_drop; try done; rewrite length_drop; lia). simpl bind.
  rewrite app_assoc, take_drop.
  change (rlpHash _) with (Signer_Hash (EIP155Signer c) tx). rewrite Hrec. done.
Qed.

(** The hash signed under the Frontier and Homestead rules does not cover
    the wallets.  A transaction with an unprotected [V] (27 or 28) has the
    same sender whatever its [Base] and [Target], also for the EIP-155 signer
    of the chain: the wallets of a plain transfer can be exchanged without
    invalidating its signature. *)
Theorem unprotected_sender_ignores_wallets c tx tx'
    (Hsame : same_but_wallets tx tx') (Hunp : isProtectedV (V tx) = false) :
  Signer_Sender (EIP155Signer c) tx = Signer_Sender (EIP155Signer c) tx'.
Proof.
  pose proof (Frontier_fields_same _ _ Hsame) as Hf.
  unfold same_but_wallets in Hsame. destruct_and!.
  unfold Signer_Sender. replace (V tx') with (V tx) by done. rewrite Hunp. simpl.
  unfold Signer_Hash. congruence.
Qed.
End Properties.

(** ** Witnesses

    A toy curve: the recovered key is the hash and the signature themselves. *)
#[local] Instance toyCrypto : Crypto := {|
  Keccak256 b := set_bytes 32 b;
  ValidateSignatureValues v r s _ := (v <=? 1) && (0 <? r) && (0 <? s);
  Ecrecover h sig := Ok (4 :: sig ++ h)
|}.

Definition toy_tx (base target v : Z) : txdata := {|
  AccountNonce := 3; Price := 7; TxGasLimit := 21000; Recipient := Some zeroAddress;
  Amount := 1000; Payload := []; Base := base; Target := target; V := v; R := 5; S_ := 9
|}.

Lemma EIP155_sign_then_recover_witness :
  ∃ tx', WithSignature (EIP155Signer 106) (toy_tx Main Stake 0) (replicate 64 1 ++ [1]) = Ok tx' ∧
    Signer_Sender (EIP155Signer 106) tx' =
      Ok (take AddressLength (drop 12 (Keccak256
        (replicate 64 1 ++ [1] ++ Signer_Hash (EIP155Signer 106) (toy_tx Main Stake 0))))).
Proof.
  apply (EIP155_sign_then_recover 106 (toy_tx Main Stake 0) (replicate 64 1 ++ [1])
           (replicate 64 1) 1); try reflexivity; try lia.
  apply Forall_replicate. unfold is_byte. lia.
Defined.

Lemma unprotected_sender_witness :
  same_but_wallets (toy_tx Main Main 27) (toy_tx Main Stake 27) ∧
  isProtectedV (V (toy_tx Main Main 27)) = false ∧
  Signer_Sender (EIP155Signer 106) (toy_tx Main Main 27) =
  Signer_Sender (EIP155Signer 106) (toy_tx Main Stake 27).
Proof.
  assert (H : same_but_wallets (toy_tx Main Main 27) (toy_tx Main Stake 27))
    by (unfold same_but_wallets; split_and!; reflexivity).
  split; [exact H|]. split; [reflexivity|].
  exact (unprotected_sender_ignores_wallets 106 _ _ H eq_refl).
Defined.
