(* ===== verification/Account.v ===== *)
(** * Accounts and their encoding ([core/state/state_object.go])

    The consensus representation of an account, with the staking fields, and
    its RLP form in the account trie.  The round trip is proved against the
    streaming decoder. *)

From Stdlib Require Import ZArith Lia.
From stdpp Require Import base option list strings.
From S2P Require Import Prelude Rlp RlpStream.

Record Behind := { behind_Number : Z; behind_Balance : Z }.

Record Account := {
  acc_Nonce : Z;
  Balance : Z;
  acc_Root : Hash;
  CodeHash : bytes;
  StakeBalance : Z;
  StakeUpdated : Z;
  Point : Z;
  BehindBalance : list Behind;
  Penalty : Z;
  PenlatyUpdated : Z
}.

(** ** Encoding: the struct writer writes the fields in order *)

Definition writeBehind (b : Behind) : result bytes :=
  let* n := writeBigInt (behind_Number b) in
  let* v := writeBigInt (behind_Balance b) in
  Ok (puthead 0xC0 0xF7 (Z.of_nat (length (n ++ v))) ++ n ++ v).

Fixpoint writeBehinds (l : list Behind) : result bytes :=
  match l with
  | [] => Ok []
  | b :: l' => let* x := writeBehind b in let* y := writeBehinds l' in Ok (x ++ y)
  end.

Definition encodeAccount (a : Account) : result bytes :=
  let* balance := writeBigInt (Balance a) in
  let* stake := writeBigInt (StakeBalance a) in
  let* updated := writeBigInt (StakeUpdated a) in
  let* point := writeBigInt (Point a) in
  let* behinds := writeBehinds (BehindBalance a) in
  let* penaltyUpdated := writeBigInt (PenlatyUpdated a) in
  let body :=
    writeUint (acc_Nonce a) ++ balance ++ encodeString (acc_Root a) ++ encodeString (CodeHash a) ++
    stake ++ updated ++ point ++
    (puthead 0xC0 0xF7 (Z.of_nat (length behinds)) ++ behinds) ++
    writeUint (Penalty a) ++ penaltyUpdated in
  Ok (puthead 0xC0 0xF7 (Z.of_nat (length body)) ++ body).

(** ** Decoding: the struct decoder reads them back *)

Definition decodeBehind : SM Behind :=
  decodeStruct (
    let! n := decodeField decodeBigInt in
    let! v := decodeField decodeBigInt in
    sret {| behind_Number := n; behind_Balance := v |}).

Definition decodeAccountStruct (fuel : nat) : SM Account :=
  decodeStruct (
    let! nonce := decodeField decodeUint in
    let! balance := decodeField decodeBigInt in
    let! root := decodeField (decodeByteArray (Z.of_nat HashLength)) in
    let! codeHash := decodeField decodeByteSlice in
    let! stake := decodeField decodeBigInt in
    let! updated := decodeField decodeBigInt in
    let! point := decodeField decodeBigInt in
    let! behind := decodeField (decodeListSlice fuel decodeBehind) in
    let! penalty := decodeField decodeUint in
    let! penaltyUpdated := decodeField decodeBigInt in
    sret {| acc_Nonce := nonce; Balance := balance; acc_Root := root; CodeHash := codeHash;
            StakeBalance := stake; StakeUpdated := updated; Point := point;
            BehindBalance := behind; Penalty := penalty; PenlatyUpdated := penaltyUpdated |}).

Definition decodeAccount (b : bytes) : result Account :=
  DecodeBytes (decodeAccountStruct (S (length b))) b.

(** ** Lemmas: integers *)

(** The content of an integer as an RLP string. *)
Definition int_bytes (i : Z) : bytes := if i =? 0 then [] else Z_be i.

Lemma wf_Z_be i : wf_bytes (Z_be i).
Proof.
  destruct (decide (i ≤ 0)) as [Hi|Hi].
  { unfold Z_be. simpl. rewrite (proj2 (Z.leb_le i 0) Hi). constructor. }
  apply Z.nle_gt in Hi. revert Hi. pattern i. apply (well_founded_induction (Z.lt_wf 0)). clear i.
  intros i IH Hi. rewrite Z_be_step by done. apply Forall_app. split.
  - destruct (decide (i < 256)); [rewrite Z.div_small by lia; constructor|]. apply IH; zdiv.
  - constructor; [|constructor]. apply Z.mod_pos_bound. lia.
Qed.

Lemma wf_int_bytes i : wf_bytes (int_bytes i).
Proof. unfold int_bytes. case_match; [constructor|apply wf_Z_be]. Qed.

Lemma be_Z_int_bytes i : 0 ≤ i → be_Z (int_bytes i) = i.
Proof. intros Hi. unfold int_bytes. destruct (Z.eqb_spec i 0); [by subst|]. by apply be_Z_be. Qed.

(** The first byte is not zero, and one byte stands for a number below 256. *)
Lemma int_bytes_head i x c : 0 ≤ i → int_bytes i = x :: c → x ≠ 0.
Proof.
  intros Hi He Hx. pose proof (wf_int_bytes i) as Hwf. pose proof (be_Z_int_bytes i Hi) as Hb.
  unfold int_bytes in *. destruct (Z.eqb_spec i 0); [done|].
  assert (Hpos : 0 < i) by lia. clear Hb Hwf. revert x c He Hx. revert Hpos. clear n Hi. pattern i.
  apply (well_founded_induction (Z.lt_wf 0)). clear i. intros i IH Hpos x c He Hx.
  rewrite Z_be_step in He by done. destruct (decide (i < 256)).
  - rewrite Z.div_small in He by lia. injection He as He _. rewrite Z.mod_small in He by lia. lia.
  - destruct (Z_be (i / 256)) as [|y d] eqn:E.
    + rewrite Z_be_step in E by zdiv. by destruct (Z_be _) in E.
    + injection He as -> _. eapply (IH (i / 256)); [zdiv|zdiv|exact E|exact Hx].
Qed.

Lemma int_bytes_small i : 0 < i < 256 → int_bytes i = [i].
Proof.
  intros Hi. unfold int_bytes. destruct (Z.eqb_spec i 0); [lia|].
  rewrite Z_be_step, Z.div_small, Z.mod_small by lia. done.
Qed.

Lemma int_bytes_length_le i : is_u64 i → (length (int_bytes i) ≤ 8)%nat.
Proof.
  intros Hi. unfold int_bytes. destruct (Z.eqb_spec i 0); [simpl; lia|].
  rewrite <- putint_be by (unfold is_u64 in Hi; lia). apply putint_length.
Qed.

Lemma int_bytes_long i : 0 ≤ i → (2 ≤ length (int_bytes i))%nat → 256 ≤ i.
Proof.
  intros Hi Hl. destruct (decide (i = 0)) as [->|]; [simpl in Hl; lia|].
  destruct (decide (i < 256)); [|lia]. rewrite int_bytes_small in Hl by lia. simpl in Hl. lia.
Qed.

Lemma writeUint_string i : is_u64 i → writeUint i = encodeString (int_bytes i).
Proof.
  intros Hi. unfold is_u64 in Hi. unfold writeUint. destruct (Z.eqb_spec i 0) as [->|]; [done|].
  destruct (Z.ltb_spec i 128).
  { rewrite int_bytes_small by lia. simpl. by rewrite (proj2 (Z.leb_le i 0x7F)) by lia. }
  assert (Hp : putint i = int_bytes i).
  { unfold int_bytes. destruct (Z.eqb_spec i 0); [lia|]. apply putint_be. lia. }
  pose proof (putint_length i) as Hl. rewrite Hp in *.
  destruct (int_bytes i) as [|x [|y c]] eqn:E; [simpl in Hl; lia| |].
  - destruct (decide (256 ≤ i)) as [Hge|Hlt].
    + exfalso. pose proof (be_Z_int_bytes i ltac:(lia)) as Hb. rewrite E in Hb. unfold be_Z in Hb. simpl in Hb.
      pose proof (wf_int_bytes i) as Hwf. rewrite E in Hwf. apply Forall_cons in Hwf as [Hx _].
      unfold is_byte in Hx. lia.
    + rewrite int_bytes_small in E by lia. injection E as <-. simpl.
      by rewrite (proj2 (Z.leb_gt i 0x7F)) by lia.
  - unfold encodeString, encodeStringHeader. rewrite (proj2 (Z.ltb_lt _ 56)) by lia. done.
Qed.

Lemma writeBigInt_string i : 0 ≤ i → writeBigInt i = Ok (encodeString (int_bytes i)).
Proof.
  intros Hi. unfold writeBigInt, int_bytes. rewrite (proj2 (Z.ltb_ge i 0)) by lia.
  by destruct (Z.eqb_spec i 0).
Qed.

(** ** Lemmas: the typed decoders read back *)

Lemma decodeByteSlice_reads c : wf_bytes c → reads_bytes (encodeString c) decodeByteSlice c.
Proof.
  intros Hwf s rest st Hat Hok Hf Hn.
  destruct (Bytes_reads_back c Hwf s rest st Hat Hok Hf Hn) as (s' & Hb & Hat').
  exists s'. split; [|done]. unfold decodeByteSlice, wrapped. by rewrite Hb.
Qed.

Lemma decodeBigInt_reads i : 0 ≤ i → reads_bytes (encodeString (int_bytes i)) decodeBigInt i.
Proof.
  intros Hi s rest st Hat Hok Hf Hn.
  destruct (Bytes_reads_back _ (wf_int_bytes i) s rest st Hat Hok Hf Hn) as (s' & Hb & Hat').
  exists s'. split; [|done]. unfold decodeBigInt, sbind, wrapped. rewrite Hb.
  pose proof (be_Z_int_bytes i Hi) as Hz. destruct (int_bytes i) as [|x c] eqn:E.
  - unfold sret. rewrite <- Hz. done.
  - apply int_bytes_head in E; [|done]. by rewrite (proj2 (Z.eqb_neq x 0) E), Hz.
Qed.

Lemma readUint_reads s rest st n c :
  base s (c ++ rest) st → stack_ok st → n = Z.of_nat (length c) → 1 ≤ n ≤ 8 → fits st n →
  default 0 (head c) ≠ 0 →
  ∃ s', readUint n s = (Ok (be_Z c), s') ∧ at_ s' rest (bump st n).
Proof.
  intros Hb Hok Hn Hr Hf Hh. pose proof (readUint_spec s _ st n Hb Hok Hr) as Hu.
  destruct (readUint n s) as [[v|e|w|] s']; try done.
  - destruct Hu as (-> & _ & _ & Hat & _). exists s'.
    rewrite Hn, Nat2Z.id, take_app_length, drop_app_length in *. done.
  - destruct Hu as [_ Hno]. exfalso. apply Hno. rewrite length_app.
    destruct c; [simpl in Hn; lia|]. simpl in *. repeat split; auto; lia.
Qed.

Lemma decodeUint_reads i : is_u64 i → reads_bytes (encodeString (int_bytes i)) decodeUint i.
Proof.
  intros Hi s rest st Hat Hok Hf Hn. pose proof (int_bytes_length_le i Hi) as Hlen.
  unfold is_u64 in Hi. pose proof (be_Z_int_bytes i ltac:(lia)) as Hz.
  destruct (open_string s rest st _ (wf_int_bytes i) Hat Hok Hf Hn) as (k & n & bv & s1 & st1 & [Hk Hsk Ho Hby Hsz Hok1 Hf1 Hbump]).
  unfold decodeUint, wrapped, uint, sbind. rewrite Hk. rewrite <- Hbump.
  destruct k; simpl in Hsk; [| |done].
  - destruct Hsk as (-> & Hc & Hbv). rewrite (Hby eq_refl).
    rewrite Hc in Hz. unfold be_Z in Hz. simpl in Hz.
    pose proof (int_bytes_head i bv [] ltac:(lia) Hc) as Hnz. rewrite (proj2 (Z.eqb_neq bv 0) Hnz).
    eexists. split; [do 2 f_equal; lia|]. simpl. rewrite bump_0. split; [apply Ho|done].
  - destruct Hsk as [Hnl H1]. change (Z.quot 64 8) with 8.
    rewrite (proj2 (Z.ltb_ge 8 n)) by lia. destruct (decide (n = 0)) as [Hn0|Hn0].
    + destruct (int_bytes i) as [|x c] eqn:E; [|simpl in Hnl; lia]. subst n. cbn in Hz. subst i.
      unfold readUint. simpl. eexists. split; [done|]. rewrite bump_0. split; [apply Ho|done].
    + assert (Hh : default 0 (head (int_bytes i)) ≠ 0).
      { destruct (int_bytes i) as [|x c] eqn:E; [simpl in Hnl; lia|]. simpl. eapply int_bytes_head; [|exact E]. lia. }
      simpl payload in *. rewrite <- Hnl in Hf1.
      destruct (readUint_reads s1 rest st1 n (int_bytes i) (proj1 Ho)) as (s2 & -> & Hat2);
        auto; [lia|]. rewrite Hz, <- Hnl. exists s2. split; [|done].
      rewrite (proj2 (Z.ltb_ge i 128)); [by rewrite andb_false_r|].
      destruct (decide (n = 1)) as [Hn1|].
      * specialize (H1 Hn1). destruct (int_bytes i) as [|x [|]]; simpl in *; try lia.
        unfold be_Z in Hz. simpl in Hz. lia.
      * pose proof (int_bytes_long i). lia.
Qed.

Lemma decodeByteArray_reads c :
  wf_bytes c → (2 ≤ length c)%nat →
  reads_bytes (encodeString c) (decodeByteArray (Z.of_nat (length c))) c.
Proof.
  intros Hwf Hlen s rest st Hat Hok Hf Hn.
  destruct (open_string s rest st _ Hwf Hat Hok Hf Hn) as (k & n & bv & s1 & st1 & [Hk Hsk Ho Hby Hsz Hok1 Hf1 Hbump]).
  unfold decodeByteArray, sbind. rewrite Hk. rewrite <- Hbump.
  destruct k; simpl in Hsk, Hf1, Ho |- *; [| |done].
  - destruct Hsk as (_ & -> & _). simpl in Hlen. lia.
  - destruct Hsk as [-> _]. rewrite !Z.ltb_irrefl.
    pose proof (readFull_spec s1 _ st1 (Z.of_nat (length c)) (proj1 Ho) Hok1 ltac:(lia)) as Hr.
    destruct (readFull (Z.of_nat (length c)) s1) as [[c'|e|w|] s2]; try done.
    + destruct Hr as (-> & _ & _ & Hat2). rewrite Nat2Z.id, take_app_length, drop_app_length in *.
      rewrite (proj2 (Z.eqb_neq _ 1)) by lia. exists s2. done.
    + destruct Hr as [_ Hno]. exfalso. apply Hno. rewrite length_app. split; [lia|done].
Qed.

(** ** The round trip *)

Definition wf_behind (b : Behind) : Prop := 0 ≤ behind_Number b ∧ 0 ≤ behind_Balance b.

Record wf_account (a : Account) : Prop := {
  wf_nonce : is_u64 (acc_Nonce a);
  wf_balance : 0 ≤ Balance a;
  wf_root : length (acc_Root a) = HashLength ∧ wf_bytes (acc_Root a);
  wf_codehash : wf_bytes (CodeHash a);
  wf_stake : 0 ≤ StakeBalance a;
  wf_updated : 0 ≤ StakeUpdated a;
  wf_point : 0 ≤ Point a;
  wf_behinds : Forall wf_behind (BehindBalance a);
  wf_penalty : is_u64 (Penalty a);
  wf_penaltyUpdated : 0 ≤ PenlatyUpdated a
}.

Definition int_enc (i : Z) : bytes := encodeString (int_bytes i).
Definition behind_body (b : Behind) : bytes := int_enc (behind_Number b) ++ int_enc (behind_Balance b).
Definition behind_enc (b : Behind) : bytes :=
  puthead 0xC0 0xF7 (Z.of_nat (length (behind_body b))) ++ behind_body b.

Lemma writeBehind_enc b : wf_behind b → writeBehind b = Ok (behind_enc b).
Proof. intros [Hn Hb]. unfold writeBehind. by rewrite !writeBigInt_string. Qed.

Lemma writeBehinds_enc l : Forall wf_behind l → writeBehinds l = Ok (concat (behind_enc <$> l)).
Proof. induction 1 as [|b l Hb Hl IH]; [done|]. cbn [writeBehinds]. by rewrite writeBehind_enc, IH. Qed.

Lemma decodeBehind_reads b : wf_behind b → reads_back behind_enc decodeBehind b.
Proof.
  intros [Hn Hb]. unfold reads_back, behind_enc, decodeBehind. apply decodeStruct_reads.
  unfold behind_body. eapply decodeField_reads; [by apply decodeBigInt_reads|].
  rewrite <- (app_nil_r (int_enc (behind_Balance b))).
  eapply decodeField_reads; [by apply decodeBigInt_reads|]. destruct b. apply sret_reads.
Qed.

Lemma behind_length_le l : (length l ≤ length (concat (behind_enc <$> l)))%nat.
Proof.
  induction l as [|b l IH]; [done|]. rewrite fmap_cons, concat_cons, length_app. cbn [length].
  unfold behind_enc at 1. rewrite length_app.
  pose proof (header_pos KList (Z.of_nat (length (behind_body b))) 0) as H. cbn [header] in H. lia.
Qed.

Definition account_body (a : Account) : bytes :=
  int_enc (acc_Nonce a) ++ int_enc (Balance a) ++ encodeString (acc_Root a) ++
  encodeString (CodeHash a) ++ int_enc (StakeBalance a) ++ int_enc (StakeUpdated a) ++
  int_enc (Point a) ++
  (puthead 0xC0 0xF7 (Z.of_nat (length (concat (behind_enc <$> BehindBalance a)))) ++
   concat (behind_enc <$> BehindBalance a)) ++
  int_enc (Penalty a) ++ int_enc (PenlatyUpdated a).

Definition account_enc (a : Account) : bytes :=
  puthead 0xC0 0xF7 (Z.of_nat (length (account_body a))) ++ account_body a.

Lemma encodeAccount_enc a : wf_account a → encodeAccount a = Ok (account_enc a).
Proof.
  intros []. unfold encodeAccount. rewrite !writeBigInt_string, writeBehinds_enc by done. cbn [bind].
  rewrite !writeUint_string by done. done.
Qed.

Lemma decodeAccountStruct_reads a f :
  wf_account a → (length (BehindBalance a) < f)%nat →
  reads_bytes (account_enc a) (decodeAccountStruct f) a.
Proof.
  intros [Hnonce Hbal [Hrl Hrw] Hch Hst Hup Hpt Hbe Hpen Hpu] Hf. apply decodeStruct_reads. unfold account_body.
  eapply decodeField_reads; [by apply decodeUint_reads|].
  eapply decodeField_reads; [by apply decodeBigInt_reads|].
  eapply decodeField_reads; [rewrite <- Hrl; apply decodeByteArray_reads; [done|rewrite Hrl; unfold HashLength; lia]|].
  eapply decodeField_reads; [by apply decodeByteSlice_reads|].
  eapply decodeField_reads; [by apply decodeBigInt_reads|].
  eapply decodeField_reads; [by apply decodeBigInt_reads|].
  eapply decodeField_reads; [by apply decodeBigInt_reads|].
  eapply decodeField_reads; [apply decodeListSlice_reads; [|apply decodeStruct_stops|exact Hf]|].
  { eapply Forall_impl; [exact Hbe|]. apply decodeBehind_reads. }
  eapply decodeField_reads; [by apply decodeUint_reads|].
  rewrite <- (app_nil_r (int_enc (PenlatyUpdated a))).
  eapply decodeField_reads; [by apply decodeBigInt_reads|].
  destruct a. apply sret_reads.
Qed.

(** The encoding that is written decodes to the account. *)
Lemma Account_decode a : wf_account a →
  encodeAccount a = Ok (account_enc a) ∧
  (Z.of_nat (length (account_enc a)) < two64 → decodeAccount (account_enc a) = Ok a).
Proof.
  intros Hwf. split; [by apply encodeAccount_enc|]. intros Hn.
  apply DecodeBytes_reads; [|done]. apply decodeAccountStruct_reads; [done|].
  pose proof (behind_length_le (BehindBalance a)). unfold account_enc, account_body.
  rewrite !length_app. lia.
Qed.

(** An account with non-negative amounts is encoded without error and the
    struct decoder reads all ten fields back, the list of pending rewards
    included. *)
Theorem Account_round_trip a (Hwf : wf_account a) :
  ∃ b, encodeAccount a = Ok b ∧ (Z.of_nat (length b) < two64 → decodeAccount b = Ok a).
Proof.
  exists (account_enc a). by apply Account_decode.
Qed.

Lemma Account_round_trip_witness :
  ∃ b, encodeAccount {| acc_Nonce := 7; Balance := 10 ^ 24; acc_Root := zeroHash; CodeHash := [1; 2];
                        StakeBalance := 5; StakeUpdated := 0; Point := 300;
                        BehindBalance := [{| behind_Number := 1; behind_Balance := 2 |}];
                        Penalty := 0; PenlatyUpdated := 0 |} = Ok b.
Proof.
  edestruct Account_round_trip as (b & Hb & _); [|exists b; exact Hb].
  split; simpl; try (unfold is_u64; word); try (vm_compute; congruence).
  - split; [reflexivity|]. repeat constructor; vm_compute; congruence.
  - repeat constructor; vm_compute; congruence.
  - repeat constructor; vm_compute; congruence.
Defined.
