(* ===== verification/State.v ===== *)
(** * The state database ([core/state])

    Accounts are cached as live objects over the account trie; every change of
    a live object is recorded in a journal, from which [RevertToSnapshot] undoes
    the changes.  [state_object.go], [journal.go] and [statedb.go] are modelled;
    the tries and the low-level database of [database.go] are an interface.
    Every pointer to a live object is its entry in [stateObjects], and a write
    through the pointer is a write of that entry.  Amounts are never mutated in
    place, so a [*big.Int] is its value. *)

From Stdlib Require Import ZArith Lia.
From stdpp Require Import base option list gmap sets strings.
From S2P Require Import Prelude Rlp RlpStream Types Account.

(** ** Tries and contract code ([database.go])

    [emptyTrie] is the trie of the zero root, which always opens. *)
Class Database := {
  Trie : Type;
  DB : Type;
  emptyTrie : Trie;
  OpenTrie : DB → Hash → result Trie;
  OpenStorageTrie : DB → Hash → Hash → result Trie;
  TryGet : Trie → bytes → result bytes;
  TryUpdate : Trie → bytes → bytes → result Trie;
  TryDelete : Trie → bytes → result Trie;
  Trie_Hash : Trie → Hash;
  Trie_Commit : DB → Trie → result Hash * DB;
  ContractCode : DB → Hash → Hash → option bytes * option string;
  ContractCodeSize : DB → Hash → Hash → Z * option string;
  InsertBlob : DB → Hash → bytes → DB
}.

Definition error_of {A} (r : result A) : option string :=
  match r with Ok _ => None | Err e => Some e | Panic w => Some w | Hang => Some "hang" end.

(** Updates of single account fields. *)
Definition with_Nonce (a : Account) (x : Z) : Account :=
  {|
     acc_Nonce := x; Balance := Balance a; acc_Root := acc_Root a; CodeHash := CodeHash a;
     StakeBalance := StakeBalance a; StakeUpdated := StakeUpdated a; Point := Point a;
     BehindBalance := BehindBalance a; Penalty := Penalty a; PenlatyUpdated :=
     PenlatyUpdated a |}.
Definition with_Balance (a : Account) (x : Z) : Account :=
  {|
     acc_Nonce := acc_Nonce a; Balance := x; acc_Root := acc_Root a; CodeHash := CodeHash
     a; StakeBalance := StakeBalance a; StakeUpdated := StakeUpdated a; Point := Point a;
     BehindBalance := BehindBalance a; Penalty := Penalty a; PenlatyUpdated :=
     PenlatyUpdated a |}.
Definition with_Root (a : Account) (x : Hash) : Account :=
  {|
     acc_Nonce := acc_Nonce a; Balance := Balance a; acc_Root := x; CodeHash := CodeHash
     a; StakeBalance := StakeBalance a; StakeUpdated := StakeUpdated a; Point := Point a;
     BehindBalance := BehindBalance a; Penalty := Penalty a; PenlatyUpdated :=
     PenlatyUpdated a |}.
Definition with_CodeHash (a : Account) (x : bytes) : Account :=
  {|
     acc_Nonce := acc_Nonce a; Balance := Balance a; acc_Root := acc_Root a; CodeHash :=
     x; StakeBalance := StakeBalance a; StakeUpdated := StakeUpdated a; Point := Point a;
     BehindBalance := BehindBalance a; Penalty := Penalty a; PenlatyUpdated :=
     PenlatyUpdated a |}.
Definition with_StakeBalance (a : Account) (x : Z) : Account :=
  {|
     acc_Nonce := acc_Nonce a; Balance := Balance a; acc_Root := acc_Root a; CodeHash :=
     CodeHash a; StakeBalance := x; StakeUpdated := StakeUpdated a; Point := Point a;
     BehindBalance := BehindBalance a; Penalty := Penalty a; PenlatyUpdated :=
     PenlatyUpdated a |}.
Definition with_StakeUpdated (a : Account) (x : Z) : Account :=
  {|
     acc_Nonce := acc_Nonce a; Balance := Balance a; acc_Root := acc_Root a; CodeHash :=
     CodeHash a; StakeBalance := StakeBalance a; StakeUpdated := x; Point := Point a;
     BehindBalance := BehindBalance a; Penalty := Penalty a; PenlatyUpdated :=
     PenlatyUpdated a |}.
Definition with_Point (a : Account) (x : Z) : Account :=
  {|
     acc_Nonce := acc_Nonce a; Balance := Balance a; acc_Root := acc_Root a; CodeHash :=
     CodeHash a; StakeBalance := StakeBalance a; StakeUpdated := StakeUpdated a; Point :=
     x; BehindBalance := BehindBalance a; Penalty := Penalty a; PenlatyUpdated :=
     PenlatyUpdated a |}.
Definition with_BehindBalance (a : Account) (x : list Behind) : Account :=
  {|
     acc_Nonce := acc_Nonce a; Balance := Balance a; acc_Root := acc_Root a; CodeHash :=
     CodeHash a; StakeBalance := StakeBalance a; StakeUpdated := StakeUpdated a; Point :=
     Point a; BehindBalance := x; Penalty := Penalty a; PenlatyUpdated := PenlatyUpdated a |}.
Definition with_Penalty (a : Account) (x : Z) : Account :=
  {|
     acc_Nonce := acc_Nonce a; Balance := Balance a; acc_Root := acc_Root a; CodeHash :=
     CodeHash a; StakeBalance := StakeBalance a; StakeUpdated := StakeUpdated a; Point :=
     Point a; BehindBalance := BehindBalance a; Penalty := x; PenlatyUpdated :=
     PenlatyUpdated a |}.
Definition with_PenlatyUpdated (a : Account) (x : Z) : Account :=
  {|
     acc_Nonce := acc_Nonce a; Balance := Balance a; acc_Root := acc_Root a; CodeHash :=
     CodeHash a; StakeBalance := StakeBalance a; StakeUpdated := StakeUpdated a; Point :=
     Point a; BehindBalance := BehindBalance a; Penalty := Penalty a; PenlatyUpdated := x |}.

Section State.
Context {C : Crypto} {D : Database}.

(** ** Live objects ([state_object.go]) *)

Record stateObject := {
  so_address : Address;
  so_addrHash : Hash;
  so_data : Account;
  so_dbErr : option string;
  so_trie : option Trie;
  so_code : option bytes;
  so_originStorage : gmap Hash Hash;
  so_dirtyStorage : gmap Hash Hash;
  so_dirtyCode : bool;
  so_suicided : bool;
  so_deleted : bool
}.

Definition set_data (o : stateObject) (x : Account) : stateObject :=
  {|
     so_address := so_address o; so_addrHash := so_addrHash o; so_data := x; so_dbErr :=
     so_dbErr o; so_trie := so_trie o; so_code := so_code o; so_originStorage :=
     so_originStorage o; so_dirtyStorage := so_dirtyStorage o; so_dirtyCode :=
     so_dirtyCode o; so_suicided := so_suicided o; so_deleted := so_deleted o |}.
Definition set_dbErr (o : stateObject) (x : option string) : stateObject :=
  {|
     so_address := so_address o; so_addrHash := so_addrHash o; so_data := so_data o;
     so_dbErr := x; so_trie := so_trie o; so_code := so_code o; so_originStorage :=
     so_originStorage o; so_dirtyStorage := so_dirtyStorage o; so_dirtyCode :=
     so_dirtyCode o; so_suicided := so_suicided o; so_deleted := so_deleted o |}.
Definition set_trie (o : stateObject) (x : option Trie) : stateObject :=
  {|
     so_address := so_address o; so_addrHash := so_addrHash o; so_data := so_data o;
     so_dbErr := so_dbErr o; so_trie := x; so_code := so_code o; so_originStorage :=
     so_originStorage o; so_dirtyStorage := so_dirtyStorage o; so_dirtyCode :=
     so_dirtyCode o; so_suicided := so_suicided o; so_deleted := so_deleted o |}.
Definition set_code (o : stateObject) (x : option bytes) : stateObject :=
  {|
     so_address := so_address o; so_addrHash := so_addrHash o; so_data := so_data o;
     so_dbErr := so_dbErr o; so_trie := so_trie o; so_code := x; so_originStorage :=
     so_originStorage o; so_dirtyStorage := so_dirtyStorage o; so_dirtyCode :=
     so_dirtyCode o; so_suicided := so_suicided o; so_deleted := so_deleted o |}.
Definition set_originStorage (o : stateObject) (x : gmap Hash Hash) : stateObject :=
  {|
     so_address := so_address o; so_addrHash := so_addrHash o; so_data := so_data o;
     so_dbErr := so_dbErr o; so_trie := so_trie o; so_code := so_code o; so_originStorage
     := x; so_dirtyStorage := so_dirtyStorage o; so_dirtyCode := so_dirtyCode o;
     so_suicided := so_suicided o; so_deleted := so_deleted o |}.
Definition set_dirtyStorage (o : stateObject) (x : gmap Hash Hash) : stateObject :=
  {|
     so_address := so_address o; so_addrHash := so_addrHash o; so_data := so_data o;
     so_dbErr := so_dbErr o; so_trie := so_trie o; so_code := so_code o; so_originStorage
     := so_originStorage o; so_dirtyStorage := x; so_dirtyCode := so_dirtyCode o;
     so_suicided := so_suicided o; so_deleted := so_deleted o |}.
Definition set_dirtyCode (o : stateObject) (x : bool) : stateObject :=
  {|
     so_address := so_address o; so_addrHash := so_addrHash o; so_data := so_data o;
     so_dbErr := so_dbErr o; so_trie := so_trie o; so_code := so_code o; so_originStorage
     := so_originStorage o; so_dirtyStorage := so_dirtyStorage o; so_dirtyCode := x;
     so_suicided := so_suicided o; so_deleted := so_deleted o |}.
Definition set_suicided (o : stateObject) (x : bool) : stateObject :=
  {|
     so_address := so_address o; so_addrHash := so_addrHash o; so_data := so_data o;
     so_dbErr := so_dbErr o; so_trie := so_trie o; so_code := so_code o; so_originStorage
     := so_originStorage o; so_dirtyStorage := so_dirtyStorage o; so_dirtyCode :=
     so_dirtyCode o; so_suicided := x; so_deleted := so_deleted o |}.
Definition set_deleted (o : stateObject) (x : bool) : stateObject :=
  {|
     so_address := so_address o; so_addrHash := so_addrHash o; so_data := so_data o;
     so_dbErr := so_dbErr o; so_trie := so_trie o; so_code := so_code o; so_originStorage
     := so_originStorage o; so_dirtyStorage := so_dirtyStorage o; so_dirtyCode :=
     so_dirtyCode o; so_suicided := so_suicided o; so_deleted := x |}.

Definition emptyCodeHash : bytes := Keccak256 [].
Definition ripemd : Address := replicate 19 0 ++ [3].

Definition set_data_with {A} (f : Account → A → Account) (o : stateObject) (x : A) : stateObject :=
  set_data o (f (so_data o) x).

Definition setBalance (o : stateObject) (amount : Z) : stateObject :=
  set_data_with with_Balance o amount.
Definition setNonce (o : stateObject) (nonce : Z) : stateObject :=
  set_data_with with_Nonce o nonce.
Definition setStaking (o : stateObject) (amount blockNumber : Z) : stateObject :=
  set_data o (with_StakeUpdated (with_StakeBalance (so_data o) amount) blockNumber).
Definition setPoint (o : stateObject) (amount : Z) : stateObject :=
  set_data_with with_Point o amount.
Definition setBehind (o : stateObject) (behind : list Behind) : stateObject :=
  set_data_with with_BehindBalance o behind.
Definition setPenalty (o : stateObject) (amount blockNumber : Z) : stateObject :=
  set_data o (with_PenlatyUpdated (with_Penalty (so_data o) amount) blockNumber).
Definition setState (o : stateObject) (key value : Hash) : stateObject :=
  set_dirtyStorage o (<[key := value]> (so_dirtyStorage o)).
Definition setCode (o : stateObject) (codeHash : Hash) (code : option bytes) : stateObject :=
  set_dirtyCode (set_data_with with_CodeHash (set_code o code) codeHash) true.
Definition markSuicided (o : stateObject) : stateObject := set_suicided o true.

Definition so_setError (o : stateObject) (err : option string) : stateObject :=
  match so_dbErr o with None => set_dbErr o err | Some _ => o end.

Definition empty (o : stateObject) : bool :=
  (acc_Nonce (so_data o) =? 0) && (Balance (so_data o) =? 0) &&
  bool_decide (CodeHash (so_data o) = emptyCodeHash).

(** The struct literal given to [newObject]: nil pointers are [None]. *)
Record accountLit := {
  lit_Nonce : Z;
  lit_Balance : option Z;
  lit_Root : Hash;
  lit_CodeHash : option bytes;
  lit_StakeBalance : option Z;
  lit_StakeUpdated : option Z;
  lit_Point : option Z;
  lit_BehindBalance : option (list Behind);
  lit_Penalty : Z;
  lit_PenlatyUpdated : option Z
}.

Definition noAccount : accountLit := {|
  lit_Nonce := 0; lit_Balance := None; lit_Root := zeroHash; lit_CodeHash := None;
  lit_StakeBalance := None; lit_StakeUpdated := None; lit_Point := None;
  lit_BehindBalance := None; lit_Penalty := 0; lit_PenlatyUpdated := None |}.

Definition someAccount (a : Account) : accountLit := {|
  lit_Nonce := acc_Nonce a; lit_Balance := Some (Balance a); lit_Root := acc_Root a;
  lit_CodeHash := Some (CodeHash a); lit_StakeBalance := Some (StakeBalance a);
  lit_StakeUpdated := Some (StakeUpdated a); lit_Point := Some (Point a);
  lit_BehindBalance := Some (BehindBalance a); lit_Penalty := Penalty a;
  lit_PenlatyUpdated := Some (PenlatyUpdated a) |}.

Definition newObject (address : Address) (data : accountLit) : stateObject := {|
  so_address := address;
  so_addrHash := Keccak256 address;
  so_data := {|
    acc_Nonce := lit_Nonce data;
    Balance := default 0 (lit_Balance data);
    acc_Root := lit_Root data;
    CodeHash := default emptyCodeHash (lit_CodeHash data);
    StakeBalance := default 0 (lit_StakeBalance data);
    StakeUpdated := default 0 (lit_StakeUpdated data);
    Point := default 0 (lit_Point data);
    BehindBalance := default [] (lit_BehindBalance data);
    Penalty := lit_Penalty data;
    PenlatyUpdated := default 0 (lit_PenlatyUpdated data) |};
  so_dbErr := None; so_trie := None; so_code := None;
  so_originStorage := ∅; so_dirtyStorage := ∅;
  so_dirtyCode := false; so_suicided := false; so_deleted := false |}.

(** *** Storage *)

Definition getTrie (d : DB) (o : stateObject) : Trie * stateObject :=
  match so_trie o with
  | Some t => (t, o)
  | None =>
      match OpenStorageTrie d (so_addrHash o) (acc_Root (so_data o)) with
      | Ok t => (t, set_trie o (Some t))
      | r => (emptyTrie, so_setError (set_trie o (Some emptyTrie)) (error_of r))
      end
  end.

Definition BytesToHash (b : bytes) : Hash := set_bytes HashLength b.

Definition so_GetCommittedState (d : DB) (o : stateObject) (key : Hash) : Hash * stateObject :=
  match so_originStorage o !! key with
  | Some value => (value, o)
  | None =>
      let '(t, o) := getTrie d o in
      match TryGet t key with
      | Ok enc =>
          let '(value, o) :=
            match enc with
            | [] => (zeroHash, o)
            | _ :: _ =>
                match Split enc with
                | Ok (_, content, _) => (BytesToHash content, o)
                | r => (BytesToHash [], so_setError o (error_of r))
                end
            end in
          (value, set_originStorage o (<[key := value]> (so_originStorage o)))
      | r => (zeroHash, so_setError o (error_of r))
      end
  end.

Definition so_GetState (d : DB) (o : stateObject) (key : Hash) : Hash * stateObject :=
  match so_dirtyStorage o !! key with
  | Some value => (value, o)
  | None => so_GetCommittedState d o key
  end.

(** [bytes.TrimLeft(value, zero byte)] *)
Fixpoint trimLeft (b : bytes) : bytes :=
  match b with
  | [] => []
  | x :: b' => if x =? 0 then trimLeft b' else b
  end.

(** One round of the loop of [updateTrie]. *)
Definition updateTrie_step (o : stateObject) (key : Hash) : stateObject :=
  match so_dirtyStorage o !! key, so_trie o with
  | Some value, Some tr =>
      let o := set_dirtyStorage o (delete key (so_dirtyStorage o)) in
      if bool_decide (value = default zeroHash (so_originStorage o !! key)) then o
      else
        let o := set_originStorage o (<[key := value]> (so_originStorage o)) in
        let r := if bool_decide (value = zeroHash) then TryDelete tr key
                 else TryUpdate tr key (encodeString (trimLeft value)) in
        match r with
        | Ok tr => set_trie o (Some tr)
        | _ => so_setError o (error_of r)
        end
  | _, _ => o
  end.

Definition updateTrie `{MapOrder} (d : DB) (o : stateObject) : Trie * stateObject :=
  let '(_, o) := getTrie d o in
  let o := foldl updateTrie_step o (range (dom (so_dirtyStorage o))) in
  (default emptyTrie (so_trie o), o).

Definition updateRoot `{MapOrder} (d : DB) (o : stateObject) : stateObject :=
  let '(tr, o) := updateTrie d o in
  set_data_with with_Root o (Trie_Hash tr).

Definition CommitTrie `{MapOrder} (d : DB) (o : stateObject) : option string * stateObject * DB :=
  let '(tr, o) := updateTrie d o in
  match so_dbErr o with
  | Some e => (Some e, o, d)
  | None =>
      match Trie_Commit d tr with
      | (Ok root, d) => (None, set_data_with with_Root o root, d)
      | (r, d) => (error_of r, o, d)
      end
  end.

(** *** Code *)

Definition so_Code (d : DB) (o : stateObject) : option bytes * stateObject :=
  match so_code o with
  | Some code => (Some code, o)
  | None =>
      if bool_decide (CodeHash (so_data o) = emptyCodeHash) then (None, o)
      else
        let '(code, err) := ContractCode d (so_addrHash o) (BytesToHash (CodeHash (so_data o))) in
        let o := match err with Some _ => so_setError o err | None => o end in
        (code, set_code o code)
  end.

(** The copy shares the list of pending rewards with the original. *)
Definition deepCopy (o : stateObject) : stateObject :=
  let n := newObject (so_address o) (someAccount (so_data o)) in
  let n := set_trie n (so_trie o) in
  let n := set_code n (so_code o) in
  let n := set_dirtyStorage n (so_dirtyStorage o) in
  let n := set_originStorage n (so_originStorage o) in
  let n := set_suicided n (so_suicided o) in
  let n := set_dirtyCode n (so_dirtyCode o) in
  set_deleted n (so_deleted o).

(** ** Journal ([journal.go]) *)

Inductive journalEntry :=
| createObjectChange (account : Address)
| resetObjectChange (prev : stateObject)
| suicideChange (account : Address) (prev : bool) (prevbalance : Z)
| balanceChange (account : Address) (prev : Z)
| nonceChange (account : Address) (prev : Z)
| storageChange (account : Address) (key prevalue : Hash)
| codeChange (account : Address) (prevcode : option bytes) (prevhash : bytes)
| refundChange (prev : Z)
| addLogChange (txhash : Hash)
| addPreimageChange (hash : Hash)
| touchChange (account : Address)
| stakingChange (account : Address) (prevBalance prevBlock : Z)
| pointChange (account : Address) (prev : Z)
| behindChange (account : Address) (prev : list Behind)
| penaltyChange (account : Address) (prevPenalty prevBlock : Z).

Definition dirtied (e : journalEntry) : option Address :=
  match e with
  | createObjectChange a | suicideChange a _ _ | balanceChange a _ | nonceChange a _
  | storageChange a _ _ | codeChange a _ _ | touchChange a | stakingChange a _ _
  | pointChange a _ | behindChange a _ | penaltyChange a _ _ => Some a
  | resetObjectChange _ | refundChange _ | addLogChange _ | addPreimageChange _ => None
  end.

Record journal := { entries : list journalEntry; dirties : gmap Address Z }.
Definition newJournal : journal := {| entries := []; dirties := ∅ |}.

Definition journal_dirty (j : journal) (addr : Address) : journal :=
  {| entries := entries j; dirties := <[addr := default 0 (dirties j !! addr) + 1]> (dirties j) |}.

Definition journal_append (j : journal) (e : journalEntry) : journal :=
  let j := {| entries := entries j ++ [e]; dirties := dirties j |} in
  match dirtied e with Some addr => journal_dirty j addr | None => j end.

(** ** The database ([statedb.go]) *)

Record Log := {
  log_Address : Address; log_Topics : list Hash; log_Data : bytes; log_BlockNumber : Z;
  log_TxHash : Hash; log_TxIndex : Z; log_BlockHash : Hash; log_Index : Z; log_Removed : bool
}.

Record revision := { rev_id : Z; journalIndex : nat }.

Record StateDB := {
  db : DB;
  trie : Trie;
  stateObjects : gmap Address stateObject;
  stateObjectsDirty : gset Address;
  dbErr : option string;
  refund : Z;
  thash : Hash;
  bhash : Hash;
  txIndex : Z;
  logs : gmap Hash (list Log);
  logSize : Z;
  preimages : gmap Hash bytes;
  journal_ : journal;
  validRevisions : list revision;
  nextRevisionId : Z
}.

Definition put_db (s : StateDB) (x : DB) : StateDB :=
  {|
     db := x; trie := trie s; stateObjects := stateObjects s; stateObjectsDirty :=
     stateObjectsDirty s; dbErr := dbErr s; refund := refund s; thash := thash s; bhash :=
     bhash s; txIndex := txIndex s; logs := logs s; logSize := logSize s; preimages :=
     preimages s; journal_ := journal_ s; validRevisions := validRevisions s;
     nextRevisionId := nextRevisionId s |}.
Definition put_trie (s : StateDB) (x : Trie) : StateDB :=
  {|
     db := db s; trie := x; stateObjects := stateObjects s; stateObjectsDirty :=
     stateObjectsDirty s; dbErr := dbErr s; refund := refund s; thash := thash s; bhash :=
     bhash s; txIndex := txIndex s; logs := logs s; logSize := logSize s; preimages :=
     preimages s; journal_ := journal_ s; validRevisions := validRevisions s;
     nextRevisionId := nextRevisionId s |}.
Definition put_stateObjects (s : StateDB) (x : gmap Address stateObject) : StateDB :=
  {|
     db := db s; trie := trie s; stateObjects := x; stateObjectsDirty := stateObjectsDirty
     s; dbErr := dbErr s; refund := refund s; thash := thash s; bhash := bhash s; txIndex
     := txIndex s; logs := logs s; logSize := logSize s; preimages := preimages s;
     journal_ := journal_ s; validRevisions := validRevisions s; nextRevisionId :=
     nextRevisionId s |}.
Definition put_stateObjectsDirty (s : StateDB) (x : gset Address) : StateDB :=
  {|
     db := db s; trie := trie s; stateObjects := stateObjects s; stateObjectsDirty := x;
     dbErr := dbErr s; refund := refund s; thash := thash s; bhash := bhash s; txIndex :=
     txIndex s; logs := logs s; logSize := logSize s; preimages := preimages s; journal_
     := journal_ s; validRevisions := validRevisions s; nextRevisionId := nextRevisionId s |}.
Definition put_dbErr (s : StateDB) (x : option string) : StateDB :=
  {|
     db := db s; trie := trie s; stateObjects := stateObjects s; stateObjectsDirty :=
     stateObjectsDirty s; dbErr := x; refund := refund s; thash := thash s; bhash := bhash
     s; txIndex := txIndex s; logs := logs s; logSize := logSize s; preimages := preimages
     s; journal_ := journal_ s; validRevisions := validRevisions s; nextRevisionId :=
     nextRevisionId s |}.
Definition put_refund (s : StateDB) (x : Z) : StateDB :=
  {|
     db := db s; trie := trie s; stateObjects := stateObjects s; stateObjectsDirty :=
     stateObjectsDirty s; dbErr := dbErr s; refund := x; thash := thash s; bhash := bhash
     s; txIndex := txIndex s; logs := logs s; logSize := logSize s; preimages := preimages
     s; journal_ := journal_ s; validRevisions := validRevisions s; nextRevisionId :=
     nextRevisionId s |}.
Definition put_thash (s : StateDB) (x : Hash) : StateDB :=
  {|
     db := db s; trie := trie s; stateObjects := stateObjects s; stateObjectsDirty :=
     stateObjectsDirty s; dbErr := dbErr s; refund := refund s; thash := x; bhash := bhash
     s; txIndex := txIndex s; logs := logs s; logSize := logSize s; preimages := preimages
     s; journal_ := journal_ s; validRevisions := validRevisions s; nextRevisionId :=
     nextRevisionId s |}.
Definition put_bhash (s : StateDB) (x : Hash) : StateDB :=
  {|
     db := db s; trie := trie s; stateObjects := stateObjects s; stateObjectsDirty :=
     stateObjectsDirty s; dbErr := dbErr s; refund := refund s; thash := thash s; bhash :=
     x; txIndex := txIndex s; logs := logs s; logSize := logSize s; preimages := preimages
     s; journal_ := journal_ s; validRevisions := validRevisions s; nextRevisionId :=
     nextRevisionId s |}.
Definition put_txIndex (s : StateDB) (x : Z) : StateDB :=
  {|
     db := db s; trie := trie s; stateObjects := stateObjects s; stateObjectsDirty :=
     stateObjectsDirty s; dbErr := dbErr s; refund := refund s; thash := thash s; bhash :=
     bhash s; txIndex := x; logs := logs s; logSize := logSize s; preimages := preimages
     s; journal_ := journal_ s; validRevisions := validRevisions s; nextRevisionId :=
     nextRevisionId s |}.
Definition put_logs (s : StateDB) (x : gmap Hash (list Log)) : StateDB :=
  {|
     db := db s; trie := trie s; stateObjects := stateObjects s; stateObjectsDirty :=
     stateObjectsDirty s; dbErr := dbErr s; refund := refund s; thash := thash s; bhash :=
     bhash s; txIndex := txIndex s; logs := x; logSize := logSize s; preimages :=
     preimages s; journal_ := journal_ s; validRevisions := validRevisions s;
     nextRevisionId := nextRevisionId s |}.
Definition put_logSize (s : StateDB) (x : Z) : StateDB :=
  {|
     db := db s; trie := trie s; stateObjects := stateObjects s; stateObjectsDirty :=
     stateObjectsDirty s; dbErr := dbErr s; refund := refund s; thash := thash s; bhash :=
     bhash s; txIndex := txIndex s; logs := logs s; logSize := x; preimages := preimages
     s; journal_ := journal_ s; validRevisions := validRevisions s; nextRevisionId :=
     nextRevisionId s |}.
Definition put_preimages (s : StateDB) (x : gmap Hash bytes) : StateDB :=
  {|
     db := db s; trie := trie s; stateObjects := stateObjects s; stateObjectsDirty :=
     stateObjectsDirty s; dbErr := dbErr s; refund := refund s; thash := thash s; bhash :=
     bhash s; txIndex := txIndex s; logs := logs s; logSize := logSize s; preimages := x;
     journal_ := journal_ s; validRevisions := validRevisions s; nextRevisionId :=
     nextRevisionId s |}.
Definition put_journal (s : StateDB) (x : journal) : StateDB :=
  {|
     db := db s; trie := trie s; stateObjects := stateObjects s; stateObjectsDirty :=
     stateObjectsDirty s; dbErr := dbErr s; refund := refund s; thash := thash s; bhash :=
     bhash s; txIndex := txIndex s; logs := logs s; logSize := logSize s; preimages :=
     preimages s; journal_ := x; validRevisions := validRevisions s; nextRevisionId :=
     nextRevisionId s |}.
Definition put_validRevisions (s : StateDB) (x : list revision) : StateDB :=
  {|
     db := db s; trie := trie s; stateObjects := stateObjects s; stateObjectsDirty :=
     stateObjectsDirty s; dbErr := dbErr s; refund := refund s; thash := thash s; bhash :=
     bhash s; txIndex := txIndex s; logs := logs s; logSize := logSize s; preimages :=
     preimages s; journal_ := journal_ s; validRevisions := x; nextRevisionId :=
     nextRevisionId s |}.
Definition put_nextRevisionId (s : StateDB) (x : Z) : StateDB :=
  {|
     db := db s; trie := trie s; stateObjects := stateObjects s; stateObjectsDirty :=
     stateObjectsDirty s; dbErr := dbErr s; refund := refund s; thash := thash s; bhash :=
     bhash s; txIndex := txIndex s; logs := logs s; logSize := logSize s; preimages :=
     preimages s; journal_ := journal_ s; validRevisions := validRevisions s;
     nextRevisionId := x |}.

Definition New (root : Hash) (d : DB) : result StateDB :=
  let* tr := OpenTrie d root in
  Ok {| db := d; trie := tr; stateObjects := ∅; stateObjectsDirty := ∅; dbErr := None;
        refund := 0; thash := zeroHash; bhash := zeroHash; txIndex := 0; logs := ∅; logSize := 0;
        preimages := ∅; journal_ := newJournal; validRevisions := []; nextRevisionId := 0 |}.

Definition setError (s : StateDB) (err : option string) : StateDB :=
  match dbErr s with None => put_dbErr s err | Some _ => s end.

Definition append (s : StateDB) (e : journalEntry) : StateDB :=
  put_journal s (journal_append (journal_ s) e).

Definition clearJournalAndRefund (s : StateDB) : StateDB :=
  put_refund (put_validRevisions (put_journal s newJournal) []) 0.

Definition Reset (s : StateDB) (root : Hash) : result StateDB :=
  let* tr := OpenTrie (db s) root in
  let s := put_trie s tr in
  let s := put_stateObjectsDirty (put_stateObjects s ∅) ∅ in
  let s := put_txIndex (put_bhash (put_thash s zeroHash) zeroHash) 0 in
  let s := put_preimages (put_logSize (put_logs s ∅) 0) ∅ in
  Ok (clearJournalAndRefund s).

Definition Prepare (s : StateDB) (th bh : Hash) (ti : Z) : StateDB :=
  put_txIndex (put_bhash (put_thash s th) bh) ti.

(** *** Objects *)

Definition setStateObject (s : StateDB) (o : stateObject) : StateDB :=
  put_stateObjects s (<[so_address o := o]> (stateObjects s)).

Definition getStateObject (s : StateDB) (addr : Address) : option stateObject * StateDB :=
  match stateObjects s !! addr with
  | Some obj => (if so_deleted obj then None else Some obj, s)
  | None =>
      match TryGet (trie s) addr with
      | Ok [] => (None, s)
      | Ok enc =>
          match decodeAccount enc with
          | Ok data =>
              let obj := newObject addr (someAccount data) in
              (Some obj, setStateObject s obj)
          | _ => (None, s)
          end
      | r => (None, setError s (error_of r))
      end
  end.

Definition createObject (s : StateDB) (addr : Address)
    : stateObject * option stateObject * StateDB :=
  let '(prev, s) := getStateObject s addr in
  let newobj := setNonce (newObject addr noAccount) 0 in
  let s := match prev with
           | None => append s (createObjectChange addr)
           | Some p => append s (resetObjectChange p)
           end in
  (newobj, prev, setStateObject s newobj).

Definition GetOrNewStateObject (s : StateDB) (addr : Address) : stateObject * StateDB :=
  match getStateObject s addr with
  | (Some o, s) => (o, s)
  | (None, s) => let '(o, _, s) := createObject s addr in (o, s)
  end.

Definition CreateAccount (s : StateDB) (addr : Address) : StateDB :=
  let '(newObj, prev, s) := createObject s addr in
  match prev with
  | Some p => setStateObject s (setBalance newObj (Balance (so_data p)))
  | None => s
  end.

(** *** Reads *)

Definition read {A} (f : stateObject → A) (none : A) (s : StateDB) (addr : Address) : A * StateDB :=
  match getStateObject s addr with
  | (Some o, s) => (f o, s)
  | (None, s) => (none, s)
  end.

Definition Exist := read (λ _, true) false.
Definition Empty := read empty true.
Definition GetBalance := read (λ o, Balance (so_data o)) 0.
Definition GetNonce := read (λ o, acc_Nonce (so_data o)) 0.
Definition GetCodeHash := read (λ o, BytesToHash (CodeHash (so_data o))) zeroHash.
Definition HasSuicided := read so_suicided false.
Definition GetStakeBalance := read (λ o, StakeBalance (so_data o)) 0.
Definition GetStakeUpdated := read (λ o, StakeUpdated (so_data o)) 0.
Definition GetPoint := read (λ o, Point (so_data o)) 0.
Definition GetBehindBalance := read (λ o, BehindBalance (so_data o)) [].
Definition GetPenalty := read (λ o, Penalty (so_data o)) 0.
Definition GetPenaltyUpdated := read (λ o, PenlatyUpdated (so_data o)) 0.

Definition GetAccountInfo := read (λ o, someAccount (so_data o))
  {| lit_Nonce := 0; lit_Balance := Some 0; lit_Root := Keccak256 []; lit_CodeHash := None;
     lit_StakeBalance := None; lit_StakeUpdated := None; lit_Point := None;
     lit_BehindBalance := None; lit_Penalty := 0; lit_PenlatyUpdated := None |}.

Definition GetFirstBehindBalance (s : StateDB) (addr : Address) : result Behind * StateDB :=
  read (λ o, match BehindBalance (so_data o) with
             | b :: _ => Ok b
             | [] => Err "empty behind"
             end) (Err "empty behind") s addr.

(** Reads that may load from the storage trie or the code store. *)
Definition read_update {A} (f : DB → stateObject → A * stateObject) (none : A)
    (s : StateDB) (addr : Address) : A * StateDB :=
  match getStateObject s addr with
  | (Some o, s) => let '(a, o) := f (db s) o in (a, setStateObject s o)
  | (None, s) => (none, s)
  end.

Definition GetCode := read_update so_Code None.
Definition GetState (s : StateDB) (addr : Address) (key : Hash) : Hash * StateDB :=
  read_update (λ d o, so_GetState d o key) zeroHash s addr.
Definition GetCommittedState (s : StateDB) (addr : Address) (key : Hash) : Hash * StateDB :=
  read_update (λ d o, so_GetCommittedState d o key) zeroHash s addr.

Definition GetCodeSize (s : StateDB) (addr : Address) : Z * StateDB :=
  match getStateObject s addr with
  | (None, s) => (0, s)
  | (Some o, s) =>
      match so_code o with
      | Some code => (Z.of_nat (length code), s)
      | None =>
          let '(size, err) :=
            ContractCodeSize (db s) (so_addrHash o) (BytesToHash (CodeHash (so_data o))) in
          (size, match err with Some _ => setError s err | None => s end)
      end
  end.

Definition GetRefund (s : StateDB) : Z := refund s.
Definition GetLogs (s : StateDB) (hash : Hash) : list Log := default [] (logs s !! hash).

(** *** Writes to one object: the entry is journaled, then the object changed *)

Definition touch (s : StateDB) (o : stateObject) : StateDB :=
  let s := append s (touchChange (so_address o)) in
  if bool_decide (so_address o = ripemd)
  then put_journal s (journal_dirty (journal_ s) (so_address o)) else s.

Definition so_SetBalance (s : StateDB) (o : stateObject) (amount : Z) : StateDB :=
  setStateObject (append s (balanceChange (so_address o) (Balance (so_data o)))) (setBalance o amount).

Definition so_AddBalance (s : StateDB) (o : stateObject) (amount : Z) : StateDB :=
  if amount =? 0 then if empty o then touch s o else s
  else so_SetBalance s o (Balance (so_data o) + amount).

Definition so_SubBalance (s : StateDB) (o : stateObject) (amount : Z) : StateDB :=
  if amount =? 0 then s else so_SetBalance s o (Balance (so_data o) - amount).

Definition so_SetNonce (s : StateDB) (o : stateObject) (nonce : Z) : StateDB :=
  setStateObject (append s (nonceChange (so_address o) (acc_Nonce (so_data o)))) (setNonce o nonce).

Definition so_SetState (s : StateDB) (o : stateObject) (key value : Hash) : StateDB :=
  let '(prev, o) := so_GetState (db s) o key in
  if bool_decide (prev = value) then setStateObject s o
  else setStateObject (append s (storageChange (so_address o) key prev)) (setState o key value).

Definition so_SetCode (s : StateDB) (o : stateObject) (codeHash : Hash) (code : option bytes) : StateDB :=
  let '(prevcode, o) := so_Code (db s) o in
  setStateObject (append s (codeChange (so_address o) prevcode (CodeHash (so_data o))))
    (setCode o codeHash code).

Definition so_SetStaking (s : StateDB) (o : stateObject) (amount blockNumber : Z) : StateDB :=
  setStateObject
    (append s (stakingChange (so_address o) (StakeBalance (so_data o)) (StakeUpdated (so_data o))))
    (setStaking o amount blockNumber).

Definition so_AddStakeBalance (s : StateDB) (o : stateObject) (amount blockNumber : Z) : StateDB :=
  if amount =? 0 then if empty o then touch s o else s
  else so_SetStaking s o (StakeBalance (so_data o) + amount) blockNumber.

Definition so_RemoveStakeBalance (s : StateDB) (o : stateObject) : StateDB :=
  let stakeBalance := StakeBalance (so_data o) in
  if stakeBalance =? 0 then s
  else
    let s := so_SetStaking s o 0 (StakeUpdated (so_data o)) in
    so_AddBalance s (setStaking o 0 (StakeUpdated (so_data o))) stakeBalance.

Definition so_SetPoint (s : StateDB) (o : stateObject) (amount : Z) : StateDB :=
  setStateObject (append s (pointChange (so_address o) (Point (so_data o)))) (setPoint o amount).

Definition so_AddPoint (s : StateDB) (o : stateObject) (amount : Z) : StateDB :=
  if amount =? 0 then if empty o then touch s o else s
  else so_SetPoint s o (Point (so_data o) + amount).

(** The entry remembers the new element, not the previous list. *)
Definition so_SetBehind (s : StateDB) (o : stateObject) (number amount : Z) : StateDB :=
  let behind := {| behind_Number := number; behind_Balance := amount |} in
  setStateObject (append s (behindChange (so_address o) [behind]))
    (setBehind o (BehindBalance (so_data o) ++ [behind])).

Definition so_AddBehindBalance (s : StateDB) (o : stateObject) (number amount : Z) : StateDB :=
  if amount =? 0 then if empty o then touch s o else s
  else so_SetBehind s o number amount.

Definition so_RemoveFirstBehindBalance (o : stateObject) : result stateObject :=
  match BehindBalance (so_data o) with
  | [] => Panic "slice bounds out of range"
  | _ :: behind => Ok (setBehind o behind)
  end.

Definition so_AddPenalty (s : StateDB) (o : stateObject) (blockNumber : Z) : StateDB :=
  setStateObject
    (append s (penaltyChange (so_address o) (Penalty (so_data o)) (PenlatyUpdated (so_data o))))
    (setPenalty o (u64 (Penalty (so_data o) + 1)) blockNumber).

Definition so_RemovePenalty (s : StateDB) (o : stateObject) (blockNumber : Z) : StateDB :=
  setStateObject
    (append s (penaltyChange (so_address o) (Penalty (so_data o)) (PenlatyUpdated (so_data o))))
    (setPenalty o 0 blockNumber).

(** *** Writes by address *)

Definition write (f : StateDB → stateObject → StateDB) (s : StateDB) (addr : Address) : StateDB :=
  let '(o, s) := GetOrNewStateObject s addr in f s o.

Definition write_existing (f : StateDB → stateObject → StateDB) (s : StateDB) (addr : Address) : StateDB :=
  match getStateObject s addr with (Some o, s) => f s o | (None, s) => s end.

Definition AddBalance (s : StateDB) (addr : Address) (amount : Z) : StateDB :=
  write (λ s o, so_AddBalance s o amount) s addr.
Definition SubBalance (s : StateDB) (addr : Address) (amount : Z) : StateDB :=
  write (λ s o, so_SubBalance s o amount) s addr.
Definition SetBalance (s : StateDB) (addr : Address) (amount : Z) : StateDB :=
  write (λ s o, so_SetBalance s o amount) s addr.
Definition SetNonce (s : StateDB) (addr : Address) (nonce : Z) : StateDB :=
  write (λ s o, so_SetNonce s o nonce) s addr.
Definition SetCode (s : StateDB) (addr : Address) (code : option bytes) : StateDB :=
  write (λ s o, so_SetCode s o (Keccak256 (default [] code)) code) s addr.
Definition SetState (s : StateDB) (addr : Address) (key value : Hash) : StateDB :=
  write (λ s o, so_SetState s o key value) s addr.
Definition SetStaking (s : StateDB) (addr : Address) (amount blockNumber : Z) : StateDB :=
  write (λ s o, so_SetStaking s o amount blockNumber) s addr.
Definition AddStakeBalance (s : StateDB) (addr : Address) (amount blockNumber : Z) : StateDB :=
  write (λ s o, so_AddStakeBalance s o amount blockNumber) s addr.
Definition RemoveStakeBalance (s : StateDB) (addr : Address) : StateDB :=
  write so_RemoveStakeBalance s addr.
Definition SetPoint (s : StateDB) (addr : Address) (amount : Z) : StateDB :=
  write (λ s o, so_SetPoint s o amount) s addr.
Definition AddPoint (s : StateDB) (addr : Address) (amount : Z) : StateDB :=
  write (λ s o, so_AddPoint s o amount) s addr.
Definition AddBehindBalance (s : StateDB) (addr : Address) (number amount : Z) : StateDB :=
  write (λ s o, so_AddBehindBalance s o number amount) s addr.
Definition AddPenalty (s : StateDB) (addr : Address) (blockNumber : Z) : StateDB :=
  write_existing (λ s o, so_AddPenalty s o blockNumber) s addr.
Definition RemovePenalty (s : StateDB) (addr : Address) (blockNumber : Z) : StateDB :=
  write_existing (λ s o, so_RemovePenalty s o blockNumber) s addr.

Definition RemoveFirstBehindBalance (s : StateDB) (addr : Address) : result StateDB :=
  match getStateObject s addr with
  | (None, s) => Ok s
  | (Some o, s) => let* o := so_RemoveFirstBehindBalance o in Ok (setStateObject s o)
  end.

Definition Suicide (s : StateDB) (addr : Address) : bool * StateDB :=
  match getStateObject s addr with
  | (None, s) => (false, s)
  | (Some o, s) =>
      let s := append s (suicideChange addr (so_suicided o) (Balance (so_data o))) in
      (true, setStateObject s (setBalance (markSuicided o) 0))
  end.

(** *** Refunds, logs, preimages *)

Definition AddRefund (s : StateDB) (gas : Z) : StateDB :=
  let s := append s (refundChange (refund s)) in
  put_refund s (u64 (refund s + gas)).

Definition SubRefund (s : StateDB) (gas : Z) : result StateDB :=
  let s := append s (refundChange (refund s)) in
  if refund s <? gas then Panic "Refund counter below zero"
  else Ok (put_refund s (u64 (refund s - gas))).

Definition AddLog (s : StateDB) (log : Log) : StateDB :=
  let s := append s (addLogChange (thash s)) in
  let log := {| log_Address := log_Address log; log_Topics := log_Topics log;
                log_Data := log_Data log; log_BlockNumber := log_BlockNumber log;
                log_TxHash := thash s; log_TxIndex := u64 (txIndex s); log_BlockHash := bhash s;
                log_Index := logSize s; log_Removed := log_Removed log |} in
  let s := put_logs s (<[thash s := GetLogs s (thash s) ++ [log]]> (logs s)) in
  put_logSize s (u64 (logSize s + 1)).

Definition AddPreimage (s : StateDB) (hash : Hash) (preimage : bytes) : StateDB :=
  match preimages s !! hash with
  | Some _ => s
  | None =>
      let s := append s (addPreimageChange hash) in
      put_preimages s (<[hash := preimage]> (preimages s))
  end.

(** *** Undoing *)

(** A setter called on the result of [getStateObject]: a nil object is a nil
    pointer dereference. *)
Definition undo_object (s : StateDB) (addr : Address) (f : stateObject → stateObject) : result StateDB :=
  match getStateObject s addr with
  | (Some o, s) => Ok (setStateObject s (f o))
  | (None, _) => Panic "nil pointer dereference"
  end.

Definition revert (e : journalEntry) (s : StateDB) : result StateDB :=
  match e with
  | createObjectChange a =>
      Ok (put_stateObjectsDirty (put_stateObjects s (delete a (stateObjects s)))
            (stateObjectsDirty s ∖ {[a]}))
  | resetObjectChange prev => Ok (setStateObject s prev)
  | suicideChange a prev prevbalance =>
      match getStateObject s a with
      | (Some o, s) => Ok (setStateObject s (setBalance (set_suicided o prev) prevbalance))
      | (None, s) => Ok s
      end
  | touchChange _ => Ok s
  | balanceChange a prev => undo_object s a (λ o, setBalance o prev)
  | nonceChange a prev => undo_object s a (λ o, setNonce o prev)
  | codeChange a prevcode prevhash => undo_object s a (λ o, setCode o (BytesToHash prevhash) prevcode)
  | storageChange a key prevalue => undo_object s a (λ o, setState o key prevalue)
  | refundChange prev => Ok (put_refund s prev)
  | addLogChange txhash =>
      let logs_ := GetLogs s txhash in
      match logs_ with
      | [] => Panic "slice bounds out of range"
      | [_] => Ok (put_logSize (put_logs s (delete txhash (logs s))) (u64 (logSize s - 1)))
      | _ => Ok (put_logSize
                   (put_logs s (<[txhash := take (length logs_ - 1) logs_]> (logs s)))
                   (u64 (logSize s - 1)))
      end
  | addPreimageChange hash => Ok (put_preimages s (delete hash (preimages s)))
  | stakingChange a prevBalance prevBlock => undo_object s a (λ o, setStaking o prevBalance prevBlock)
  | pointChange a prev => undo_object s a (λ o, setPoint o prev)
  | behindChange a prev => undo_object s a (λ o, setBehind o prev)
  | penaltyChange a prevPenalty prevBlock => undo_object s a (λ o, setPenalty o prevPenalty prevBlock)
  end.

(** The dirty counter of a reverted entry. *)
Definition undirty (s : StateDB) (e : journalEntry) : StateDB :=
  match dirtied e with
  | None => s
  | Some addr =>
      let j := journal_ s in
      let n := default 0 (dirties j !! addr) - 1 in
      put_journal s {| entries := entries j;
                       dirties := if n =? 0 then delete addr (dirties j)
                                  else <[addr := n]> (dirties j) |}
  end.

(** The loop of [journal.revert] over the entries, newest first. *)
Fixpoint revert_loop (es : list journalEntry) (s : StateDB) : result StateDB :=
  match es with
  | [] => Ok s
  | e :: es' => let* s := revert e s in revert_loop es' (undirty s e)
  end.

Definition journal_revert (s : StateDB) (snapshot : nat) : result StateDB :=
  let* s := revert_loop (reverse (drop snapshot (entries (journal_ s)))) s in
  let j := journal_ s in
  Ok (put_journal s {| entries := take snapshot (entries j); dirties := dirties j |}).

Definition Snapshot (s : StateDB) : Z * StateDB :=
  let id := nextRevisionId s in
  let s := put_nextRevisionId s (id + 1) in
  (id, put_validRevisions s
         (validRevisions s ++ [{| rev_id := id; journalIndex := length (entries (journal_ s)) |}])).

Definition RevertToSnapshot (s : StateDB) (revid : Z) : result StateDB :=
  let idx := sort_Search (length (validRevisions s))
               (λ i, match validRevisions s !! i with Some r => revid <=? rev_id r | None => false end) in
  match validRevisions s !! idx with
  | Some r =>
      if rev_id r =? revid then
        let* s := journal_revert s (journalIndex r) in
        Ok (put_validRevisions s (take idx (validRevisions s)))
      else Panic "revision id cannot be reverted"
  | None => Panic "revision id cannot be reverted"
  end.

(** *** Writing the objects to the trie *)

Definition updateStateObject (s : StateDB) (o : stateObject) : result StateDB :=
  match encodeAccount (so_data o) with
  | Ok data =>
      match TryUpdate (trie s) (so_address o) data with
      | Ok t => Ok (put_trie s t)
      | r => Ok (setError s (error_of r))
      end
  | _ => Panic "can't encode object"
  end.

Definition deleteStateObject (s : StateDB) (o : stateObject) : StateDB :=
  let s := setStateObject s (set_deleted o true) in
  match TryDelete (trie s) (so_address o) with
  | Ok t => put_trie s t
  | r => setError s (error_of r)
  end.

(** One round of [Finalise].  The balance of the object is logged before the
    test that it exists. *)
Definition Finalise_step `{MapOrder} (deleteEmptyObjects : bool) (s : StateDB) (addr : Address)
    : result StateDB :=
  match stateObjects s !! addr with
  | None => Panic "nil pointer dereference"
  | Some o =>
      let* s :=
        if so_suicided o || (deleteEmptyObjects && empty o) then Ok (deleteStateObject s o)
        else
          let o := updateRoot (db s) o in
          updateStateObject (setStateObject s o) o in
      Ok (put_stateObjectsDirty s ({[addr]} ∪ stateObjectsDirty s))
  end.

Fixpoint Finalise_loop `{MapOrder} (deleteEmptyObjects : bool) (l : list Address) (s : StateDB)
    : result StateDB :=
  match l with
  | [] => Ok s
  | addr :: l' => let* s := Finalise_step deleteEmptyObjects s addr in
                  Finalise_loop deleteEmptyObjects l' s
  end.

Definition Finalise `{MapOrder} (s : StateDB) (deleteEmptyObjects : bool) : result StateDB :=
  let* s := Finalise_loop deleteEmptyObjects (range (dom (dirties (journal_ s)))) s in
  Ok (clearJournalAndRefund s).

Definition IntermediateRoot `{MapOrder} (s : StateDB) (deleteEmptyObjects : bool)
    : result (Hash * StateDB) :=
  let* s := Finalise s deleteEmptyObjects in
  Ok (Trie_Hash (trie s), s).

(** One round of [Commit]; an error leaves the loop. *)
Definition Commit_step `{MapOrder} (deleteEmptyObjects : bool) (s : StateDB) (addr : Address)
    : result StateDB :=
  match stateObjects s !! addr with
  | None => Ok s
  | Some o =>
      let isDirty := bool_decide (addr ∈ stateObjectsDirty s) in
      let* s :=
        if so_suicided o || (isDirty && deleteEmptyObjects && empty o) then
          Ok (deleteStateObject s o)
        else if isDirty then
          let '(s, o) :=
            match so_code o with
            | Some code =>
                if so_dirtyCode o then
                  (put_db s (InsertBlob (db s) (BytesToHash (CodeHash (so_data o))) code),
                   set_dirtyCode o false)
                else (s, o)
            | None => (s, o)
            end in
          let '(err, o, d) := CommitTrie (db s) o in
          let s := put_db (setStateObject s o) d in
          match err with
          | Some e => Err e
          | None => updateStateObject s o
          end
        else Ok s in
      Ok (put_stateObjectsDirty s (stateObjectsDirty s ∖ {[addr]}))
  end.

Fixpoint Commit_loop `{MapOrder} (deleteEmptyObjects : bool) (l : list Address) (s : StateDB)
    : result StateDB :=
  match l with
  | [] => Ok s
  | addr :: l' => let* s := Commit_step deleteEmptyObjects s addr in
                  Commit_loop deleteEmptyObjects l' s
  end.

(** [Commit]; the references for the garbage collector of the trie database
    are left out. *)
Definition Commit `{MapOrder} (s : StateDB) (deleteEmptyObjects : bool) : result (Hash * StateDB) :=
  let s := put_stateObjectsDirty s (dom (dirties (journal_ s)) ∪ stateObjectsDirty s) in
  let* s := Commit_loop deleteEmptyObjects (range (dom (stateObjects s))) s in
  match Trie_Commit (db s) (trie s) with
  | (Ok root, d) => Ok (root, clearJournalAndRefund (put_db s d))
  | (Err e, _) => Err e
  | (Panic w, _) => Panic w
  | (Hang, _) => Hang
  end.

(** *** Copies *)

Definition Copy_dirty (from : StateDB) (state : StateDB) (addr : Address) : StateDB :=
  match stateObjects from !! addr with
  | Some o => put_stateObjectsDirty (setStateObject state (deepCopy o))
                ({[addr]} ∪ stateObjectsDirty state)
  | None => state
  end.

Definition Copy_rest (from : StateDB) (state : StateDB) (addr : Address) : result StateDB :=
  match stateObjects state !! addr with
  | Some _ => Ok state
  | None =>
      match stateObjects from !! addr with
      | Some o => Ok (put_stateObjectsDirty (setStateObject state (deepCopy o))
                        ({[addr]} ∪ stateObjectsDirty state))
      | None => Panic "nil pointer dereference"
      end
  end.

Fixpoint Copy_rest_loop (from : StateDB) (l : list Address) (state : StateDB) : result StateDB :=
  match l with
  | [] => Ok state
  | addr :: l' => let* state := Copy_rest from state addr in Copy_rest_loop from l' state
  end.

Definition Copy `{MapOrder} (s : StateDB) : result StateDB :=
  let state := {| db := db s; trie := trie s; stateObjects := ∅; stateObjectsDirty := ∅;
                  dbErr := None; refund := refund s; thash := zeroHash; bhash := zeroHash;
                  txIndex := 0; logs := logs s; logSize := logSize s; preimages := preimages s;
                  journal_ := newJournal; validRevisions := []; nextRevisionId := 0 |} in
  let state := foldl (Copy_dirty s) state (range (dom (dirties (journal_ s)))) in
  Copy_rest_loop s (range (stateObjectsDirty s)) state.
End State.
