(* ===== verification/StateRevert.v ===== *)
(** * Snapshots and reverts of the state database

    What a client of [core/state] can observe of a state is the object behind
    each address, the refund counter, the logs and the preimages; which objects
    are cached and which lookups failed is not observable.  [≡] on states is
    this equivalence, and the operations respect it.  Every operation only
    appends to the journal, and undoing the appended entries gives an
    equivalent state; so [RevertToSnapshot] restores the state at the snapshot,
    except for the list of pending rewards. *)

From Stdlib Require Import ZArith Lia.
From stdpp Require Import base option list gmap sets strings.
From S2P Require Import Prelude Rlp RlpStream Types Account State.

Section Views.
Context {C : Crypto} {D : Database}.

(** ** What is observed of an object *)

(** The object the trie holds for an address. *)
Definition load (tr : Trie) (a : Address) : option stateObject :=
  match TryGet tr a with
  | Ok (x :: enc) =>
      match decodeAccount (x :: enc) with
      | Ok data => Some (newObject a (someAccount data))
      | _ => None
      end
  | _ => None
  end.

Definition lookup (s : StateDB) (a : Address) : option stateObject :=
  match stateObjects s !! a with
  | Some o => if so_deleted o then None else Some o
  | None => load (trie s) a
  end.

Definition code_view (d : DB) (o : stateObject) : option bytes :=
  match so_code o with
  | Some code => Some code
  | None => if bool_decide (CodeHash (so_data o) = emptyCodeHash) then None
            else (ContractCode d (so_addrHash o) (BytesToHash (CodeHash (so_data o)))).1
  end.

Definition trie_view (d : DB) (o : stateObject) : Trie :=
  match so_trie o with
  | Some t => t
  | None => match OpenStorageTrie d (so_addrHash o) (acc_Root (so_data o)) with
            | Ok t => t | _ => emptyTrie end
  end.

Definition slot_view (enc : result bytes) : Hash :=
  match enc with
  | Ok (x :: b) => match Split (x :: b) with Ok (_, content, _) => BytesToHash content | _ => BytesToHash [] end
  | _ => zeroHash
  end.

Definition committed_view (d : DB) (o : stateObject) (key : Hash) : Hash :=
  match so_originStorage o !! key with
  | Some v => v
  | None => slot_view (TryGet (trie_view d o) key)
  end.

Definition storage_view (d : DB) (o : stateObject) (key : Hash) : Hash :=
  match so_dirtyStorage o !! key with
  | Some v => v
  | None => committed_view d o key
  end.

(** With [bh = false] the list of pending rewards is not observed. *)
Definition erase (bh : bool) (a : Account) : Account :=
  if bh then a else with_BehindBalance a [].

Record obj_equiv (bh : bool) (d : DB) (o1 o2 : stateObject) : Prop := {
  oe_address : so_address o1 = so_address o2;
  oe_addrHash : so_addrHash o1 = so_addrHash o2;
  oe_data : erase bh (so_data o1) = erase bh (so_data o2);
  oe_suicided : so_suicided o1 = so_suicided o2;
  oe_deleted : so_deleted o1 = so_deleted o2;
  oe_code : code_view d o1 = code_view d o2;
  oe_committed : ∀ key, committed_view d o1 key = committed_view d o2 key;
  oe_storage : ∀ key, storage_view d o1 key = storage_view d o2 key
}.

#[export] Instance obj_equiv_equivalence bh d : Equivalence (obj_equiv bh d).
Proof.
  split.
  - intros o. by split.
  - intros o1 o2 []. by split.
  - intros o1 o2 o3 [] []. split; intros; etrans; eauto.
Qed.

(** ** What is observed of a state *)

Record state_equiv (bh : bool) (s1 s2 : StateDB) : Prop := {
  se_db : db s1 = db s2;
  se_trie : trie s1 = trie s2;
  se_refund : refund s1 = refund s2;
  se_thash : thash s1 = thash s2;
  se_bhash : bhash s1 = bhash s2;
  se_txIndex : txIndex s1 = txIndex s2;
  se_logs : ∀ h, GetLogs s1 h = GetLogs s2 h;
  se_logSize : logSize s1 = logSize s2;
  se_preimages : preimages s1 = preimages s2;
  se_lookup : ∀ a, option_Forall2 (obj_equiv bh (db s1)) (lookup s1 a) (lookup s2 a)
}.

#[export] Instance state_equiv_equivalence bh : Equivalence (state_equiv bh).
Proof.
  split.
  - intros s. split; done.
  - intros s1 s2 Hs. pose proof (se_db _ _ _ Hs) as Hd. pose proof (se_lookup _ _ _ Hs) as Hl.
    split; [by destruct Hs..|]. intros a. rewrite <- Hd. by symmetry.
  - intros s1 s2 s3 H1 H2. pose proof (se_db _ _ _ H1) as Hd. pose proof (se_lookup _ _ _ H1) as Hl1.
    pose proof (se_lookup _ _ _ H2) as Hl2. rewrite <- Hd in Hl2.
    split; [destruct H1, H2; congruence..|]. intros a. etrans; [apply Hl1|apply Hl2].
Qed.

(** ** Loading and caching are not observable *)

Lemma lookup_setStateObject s o b :
  lookup (setStateObject s o) b =
  if decide (b = so_address o) then (if so_deleted o then None else Some o) else lookup s b.
Proof.
  unfold lookup, setStateObject. cbn [put_stateObjects stateObjects trie].
  destruct (decide (b = so_address o)) as [->|]; [by rewrite lookup_insert_eq|].
  by rewrite lookup_insert_ne.
Qed.

Lemma load_spec tr a o :
  load tr a = Some o → so_address o = a ∧ so_deleted o = false.
Proof. unfold load. intros. repeat case_match; naive_solver. Qed.

(** [s'] is [s] with the object of [a] cached. *)
Record cached (s s' : StateDB) (a : Address) : Prop := {
  ca_db : db s' = db s;
  ca_trie : trie s' = trie s;
  ca_dirty : stateObjectsDirty s' = stateObjectsDirty s;
  ca_refund : refund s' = refund s;
  ca_thash : thash s' = thash s;
  ca_bhash : bhash s' = bhash s;
  ca_txIndex : txIndex s' = txIndex s;
  ca_logs : logs s' = logs s;
  ca_logSize : logSize s' = logSize s;
  ca_preimages : preimages s' = preimages s;
  ca_journal : journal_ s' = journal_ s;
  ca_revisions : validRevisions s' = validRevisions s;
  ca_next : nextRevisionId s' = nextRevisionId s;
  ca_live : ∀ o, lookup s a = Some o → stateObjects s' !! a = Some o;
  ca_objects : stateObjects s' = stateObjects s ∨
               ∃ o, stateObjects s !! a = None ∧ load (trie s) a = Some o ∧
                    stateObjects s' = <[a := o]> (stateObjects s)
}.

Lemma cached_lookup s s' a b : cached s s' a → lookup s' b = lookup s b.
Proof.
  intros Hc. unfold lookup. rewrite (ca_trie _ _ _ Hc).
  destruct (ca_objects _ _ _ Hc) as [->|(o & Hn & Hl & ->)]; [done|].
  destruct (decide (b = a)) as [->|]; [|by rewrite lookup_insert_ne].
  rewrite lookup_insert_eq, Hn, Hl. by destruct (load_spec _ _ _ Hl) as [_ ->].
Qed.

Lemma cached_equiv bh s s' a : cached s s' a → state_equiv bh s' s.
Proof.
  intros Hc. split; [by destruct Hc..| | | |].
  - intros h. unfold GetLogs. by rewrite (ca_logs _ _ _ Hc).
  - by destruct Hc.
  - by destruct Hc.
  - intros b. by rewrite (cached_lookup s s' a b Hc).
Qed.

Lemma getStateObject_spec s a :
  ∃ s', getStateObject s a = (lookup s a, s') ∧ cached s s' a.
Proof.
  unfold getStateObject, lookup, load.
  destruct (stateObjects s !! a) as [o|] eqn:E.
  { exists s. split; [done|]. split; try done; [|by left]. intros o'. unfold lookup. rewrite E.
    destruct (so_deleted o); naive_solver. }
  assert (Hcs : ∀ err, load (trie s) a = None → cached s (setError s err) a).
  { intros err Hn. unfold setError. destruct (dbErr s); split; try done; try (by left);
      intros o; unfold lookup; rewrite E, Hn; done. }
  unfold load in Hcs. destruct (TryGet (trie s) a) as [[|x enc]|e|w|] eqn:Et; try (eexists; split; [done|by apply Hcs]).
  - exists s. split; [done|]. split; try done; [|by left]. intros o. unfold lookup, load. by rewrite E, Et.
  - destruct (decodeAccount (x :: enc)) as [data|e|w|] eqn:Ed;
      try (exists s; split; [done|]; split; try done; [|by left]; intros o; unfold lookup, load; by rewrite E, Et, Ed).
    eexists. split; [done|]. split; try done.
    + intros o. unfold lookup, load. rewrite E, Et, Ed. intros [= <-]. simpl. by rewrite lookup_insert_eq.
    + right. eexists. split; [exact E|]. unfold load. rewrite Et, Ed. done.
Qed.
End Views.

Section Congruence.
Context {C : Crypto} {D : Database}.

(** ** Reading an object *)

(** [o'] is [o] with more of the tries and the code loaded. *)
Definition reloaded (d : DB) (o o' : stateObject) : Prop :=
  obj_equiv true d o' o ∧ so_data o' = so_data o.

Lemma so_setError_equiv d o e : reloaded d o (so_setError o e).
Proof. unfold so_setError. destruct (so_dbErr o); split; done. Qed.

Lemma reloaded_trans d o1 o2 o3 : reloaded d o1 o2 → reloaded d o2 o3 → reloaded d o1 o3.
Proof. intros [H1 E1] [H2 E2]. split; [by etrans|congruence]. Qed.

Lemma set_trie_equiv d o : reloaded d o (set_trie o (Some (trie_view d o))).
Proof. split; [|done]. split; try done. Qed.

Lemma getTrie_spec d o : ∃ o', getTrie d o = (trie_view d o, o') ∧ reloaded d o o' ∧
  so_originStorage o' = so_originStorage o ∧ trie_view d o' = trie_view d o.
Proof.
  pose proof (set_trie_equiv d o) as Ht. unfold getTrie, trie_view in *.
  destruct (so_trie o) as [t|] eqn:E; [by exists o; rewrite E|].
  destruct (OpenStorageTrie d (so_addrHash o) (acc_Root (so_data o))) as [t|e|w|] eqn:Et;
    eexists; (split; [done|]).
  - split; [exact Ht|done].
  - split; [eapply reloaded_trans; [exact Ht|apply so_setError_equiv]|].
    unfold so_setError. simpl. destruct (so_dbErr o); done.
  - split; [eapply reloaded_trans; [exact Ht|apply so_setError_equiv]|].
    unfold so_setError. simpl. destruct (so_dbErr o); done.
  - split; [eapply reloaded_trans; [exact Ht|apply so_setError_equiv]|].
    unfold so_setError. simpl. destruct (so_dbErr o); done.
Qed.

Lemma set_origin_equiv d o key v :
  committed_view d o key = v → reloaded d o (set_originStorage o (<[key := v]> (so_originStorage o))).
Proof.
  intros Hv. split; [|done].
  assert (Hc : ∀ k, committed_view d (set_originStorage o (<[key := v]> (so_originStorage o))) k =
                    committed_view d o k).
  { intros k. unfold committed_view at 1. simpl. destruct (decide (key = k)) as [<-|].
    - by rewrite lookup_insert_eq.
    - by rewrite lookup_insert_ne. }
  split; try done. intros k. unfold storage_view. simpl. case_match; [done|]. apply Hc.
Qed.

Lemma so_GetCommittedState_spec d o key :
  ∃ o', so_GetCommittedState d o key = (committed_view d o key, o') ∧ reloaded d o o'.
Proof.
  unfold so_GetCommittedState. destruct (so_originStorage o !! key) as [v|] eqn:E.
  { exists o. unfold committed_view. by rewrite E. }
  destruct (getTrie_spec d o) as (o1 & -> & Hr & Ho & Ht).
  assert (Hcv : committed_view d o1 key = committed_view d o key) by (by destruct Hr as [[]]).
  assert (Hsv : committed_view d o key = slot_view (TryGet (trie_view d o) key))
    by (unfold committed_view; by rewrite E).
  assert (Herr : ∀ e, committed_view d (so_setError o1 e) key = committed_view d o1 key)
    by (intros; unfold so_setError; by destruct (so_dbErr o1)).
  rewrite Hsv in *.
  destruct (TryGet (trie_view d o) key) as [enc|e|w|] eqn:Et; cbn [slot_view] in *;
    try (eexists; split; [done|eapply reloaded_trans; [exact Hr|apply so_setError_equiv]]).
  destruct enc as [|x enc]; [eexists; split; [done|]; eapply reloaded_trans; [exact Hr|by apply set_origin_equiv]|].
  destruct (Split (x :: enc)) as [[[k content] rest]|e|w|] eqn:Es.
  - eexists. split; [done|]. eapply reloaded_trans; [exact Hr|by apply set_origin_equiv].
  - eexists. split; [done|]. eapply reloaded_trans; [exact Hr|]. eapply reloaded_trans; [apply so_setError_equiv|].
    apply set_origin_equiv. by rewrite Herr.
  - eexists. split; [done|]. eapply reloaded_trans; [exact Hr|]. eapply reloaded_trans; [apply so_setError_equiv|].
    apply set_origin_equiv. by rewrite Herr.
  - eexists. split; [done|]. eapply reloaded_trans; [exact Hr|]. eapply reloaded_trans; [apply so_setError_equiv|].
    apply set_origin_equiv. by rewrite Herr.
Qed.

Lemma so_GetState_spec d o key :
  ∃ o', so_GetState d o key = (storage_view d o key, o') ∧ reloaded d o o'.
Proof.
  unfold so_GetState, storage_view. destruct (so_dirtyStorage o !! key); [by exists o|].
  apply so_GetCommittedState_spec.
Qed.

Lemma so_Code_spec d o : ∃ o', so_Code d o = (code_view d o, o') ∧ reloaded d o o'.
Proof.
  unfold so_Code, code_view. destruct (so_code o) as [c|] eqn:E; [by exists o|].
  destruct (bool_decide (CodeHash (so_data o) = emptyCodeHash)) eqn:Eh; [by exists o|].
  destruct (ContractCode d (so_addrHash o) (BytesToHash (CodeHash (so_data o)))) as [code err] eqn:Ec.
  assert (Hset : ∀ o1, reloaded d o o1 → so_code o1 = None → reloaded d o (set_code o1 code)).
  { intros o1 [Hr Hd] Hn. eapply reloaded_trans; [by split|]. split; [|done].
    split; try done. unfold code_view. simpl. rewrite Hn, Hd, (oe_addrHash _ _ _ _ Hr), Eh, Ec. by destruct code. }
  eexists. split; [done|]. destruct err as [e|]; apply Hset; try done; [apply so_setError_equiv|].
  unfold so_setError. by destruct (so_dbErr o).
Qed.

(** ** Setters respect the equivalence of objects *)

Lemma erase_with bh (f : Account → Account) :
  (∀ a1 a2, with_BehindBalance a1 [] = with_BehindBalance a2 [] →
            with_BehindBalance (f a1) [] = with_BehindBalance (f a2) []) →
  ∀ a1 a2, erase bh a1 = erase bh a2 → erase bh (f a1) = erase bh (f a2).
Proof. intros Hf a1 a2. destruct bh; simpl; [congruence|apply Hf]. Qed.

Lemma set_data_equiv bh d f o1 o2 :
  (∀ a, CodeHash (f a) = CodeHash a) → (∀ a, acc_Root (f a) = acc_Root a) →
  (∀ a1 a2, with_BehindBalance a1 [] = with_BehindBalance a2 [] →
            with_BehindBalance (f a1) [] = with_BehindBalance (f a2) []) →
  obj_equiv bh d o1 o2 →
  obj_equiv bh d (set_data o1 (f (so_data o1))) (set_data o2 (f (so_data o2))).
Proof.
  intros Hh Hr Hf H.
  assert (Hcode : ∀ o, code_view d (set_data o (f (so_data o))) = code_view d o).
  { intros o. unfold code_view. simpl. by rewrite Hh. }
  assert (Hcomm : ∀ o key, committed_view d (set_data o (f (so_data o))) key = committed_view d o key).
  { intros o key. unfold committed_view, trie_view. simpl. by rewrite Hr. }
  assert (Hstor : ∀ o key, storage_view d (set_data o (f (so_data o))) key = storage_view d o key).
  { intros o key. unfold storage_view. simpl. by rewrite Hcomm. }
  split; try (by destruct H).
  - simpl. apply (erase_with bh f Hf). apply H.
  - rewrite !Hcode. apply H.
  - intros key. rewrite !Hcomm. apply H.
  - intros key. rewrite !Hstor. apply H.
Qed.

Ltac unfold_with :=
  unfold with_Nonce, with_Balance, with_Root, with_CodeHash, with_StakeBalance, with_StakeUpdated,
    with_Point, with_BehindBalance, with_Penalty, with_PenlatyUpdated in *; simpl in *.

Ltac data_setter f :=
  apply (set_data_equiv _ _ f); [done|done|intros [] [] ?; unfold_with; congruence|done].

Lemma setBalance_equiv bh d o1 o2 x :
  obj_equiv bh d o1 o2 → obj_equiv bh d (setBalance o1 x) (setBalance o2 x).
Proof. intros. data_setter (λ a, with_Balance a x). Qed.
Lemma setNonce_equiv bh d o1 o2 x :
  obj_equiv bh d o1 o2 → obj_equiv bh d (setNonce o1 x) (setNonce o2 x).
Proof. intros. data_setter (λ a, with_Nonce a x). Qed.
Lemma setStaking_equiv bh d o1 o2 x y :
  obj_equiv bh d o1 o2 → obj_equiv bh d (setStaking o1 x y) (setStaking o2 x y).
Proof. intros. data_setter (λ a, with_StakeUpdated (with_StakeBalance a x) y). Qed.
Lemma setPoint_equiv bh d o1 o2 x :
  obj_equiv bh d o1 o2 → obj_equiv bh d (setPoint o1 x) (setPoint o2 x).
Proof. intros. data_setter (λ a, with_Point a x). Qed.
Lemma setBehind_equiv bh d o1 o2 x :
  obj_equiv bh d o1 o2 → obj_equiv bh d (setBehind o1 x) (setBehind o2 x).
Proof. intros. data_setter (λ a, with_BehindBalance a x). Qed.
Lemma setPenalty_equiv bh d o1 o2 x y :
  obj_equiv bh d o1 o2 → obj_equiv bh d (setPenalty o1 x y) (setPenalty o2 x y).
Proof. intros. data_setter (λ a, with_PenlatyUpdated (with_Penalty a x) y). Qed.

Lemma set_suicided_equiv bh d o1 o2 x :
  obj_equiv bh d o1 o2 → obj_equiv bh d (set_suicided o1 x) (set_suicided o2 x).
Proof. intros []. by split. Qed.

Lemma setState_equiv bh d o1 o2 k v :
  obj_equiv bh d o1 o2 → obj_equiv bh d (setState o1 k v) (setState o2 k v).
Proof.
  intros H. split; [by destruct H..|]. intros key. unfold storage_view. simpl.
  destruct (decide (k = key)) as [<-|]; [by rewrite !lookup_insert_eq|].
  rewrite !lookup_insert_ne by done. apply (oe_storage _ _ _ _ H key).
Qed.

Lemma setCode_equiv bh d o1 o2 h c :
  obj_equiv bh d o1 o2 → obj_equiv bh d (setCode o1 h c) (setCode o2 h c).
Proof.
  intros H. split; try by destruct H.
  - simpl. apply (erase_with bh (λ a, with_CodeHash a h)); [|apply H].
    intros [] [] ?; unfold_with; congruence.
  - unfold code_view. simpl. by rewrite (oe_addrHash _ _ _ _ H).
Qed.

(** ** States *)

Definition res_equiv (bh : bool) (r1 r2 : result StateDB) : Prop :=
  match r1, r2 with
  | Ok s1, Ok s2 => state_equiv bh s1 s2
  | Err _, Err _ | Panic _, Panic _ | Hang, Hang => True
  | _, _ => False
  end.

Lemma setStateObject_equiv bh s1 s2 o1 o2 :
  state_equiv bh s1 s2 → obj_equiv bh (db s1) o1 o2 →
  state_equiv bh (setStateObject s1 o1) (setStateObject s2 o2).
Proof.
  intros H Ho. split; [apply H..|]. intros a. rewrite !lookup_setStateObject.
  rewrite (oe_address _ _ _ _ Ho), (oe_deleted _ _ _ _ Ho).
  destruct (decide (a = so_address o2)); [|apply H]. destruct (so_deleted o2); by constructor.
Qed.

(** A live object written back equivalently. *)
Lemma setStateObject_same bh s o o' :
  lookup s (so_address o) = Some o → obj_equiv bh (db s) o' o →
  state_equiv bh (setStateObject s o') s.
Proof.
  intros Hl Ho. split; try done. intros a. rewrite lookup_setStateObject, (oe_address _ _ _ _ Ho).
  destruct (decide (a = so_address o)) as [->|]; [|done]. rewrite Hl, (oe_deleted _ _ _ _ Ho).
  assert (Hd : so_deleted o = false).
  { unfold lookup in Hl. destruct (stateObjects s !! so_address o) as [o1|].
    - destruct (so_deleted o1) eqn:E; [done|]. congruence.
    - exact (proj2 (load_spec _ _ _ Hl)). }
  rewrite Hd. by constructor.
Qed.

Lemma undo_object_equiv bh s1 s2 a f :
  (∀ d o1 o2, obj_equiv bh d o1 o2 → obj_equiv bh d (f o1) (f o2)) →
  state_equiv bh s1 s2 → res_equiv bh (undo_object s1 a f) (undo_object s2 a f).
Proof.
  intros Hf H. unfold undo_object.
  destruct (getStateObject_spec s1 a) as (s1' & -> & Hc1), (getStateObject_spec s2 a) as (s2' & -> & Hc2).
  pose proof (se_lookup _ _ _ H a) as Hl. inversion Hl as [o1 o2 Ho|]; simpl; [|done].
  apply setStateObject_equiv.
  - etrans; [by eapply cached_equiv|]. etrans; [exact H|]. symmetry. by eapply cached_equiv.
  - rewrite (ca_db _ _ _ Hc1). by apply Hf.
Qed.

Lemma GetLogs_put s m h : GetLogs (put_logs s m) h = default [] (m !! h).
Proof. done. Qed.

(** The result of undoing an [addLogChange] depends on the visible logs only. *)
Lemma revert_log_equiv bh s1 s2 h :
  state_equiv bh s1 s2 → res_equiv bh (revert (addLogChange h) s1) (revert (addLogChange h) s2).
Proof.
  intros H. cbn [revert]. rewrite <- (se_logs _ _ _ H h), <- (se_logSize _ _ _ H).
  destruct (GetLogs s1 h) as [|l [|l' ls]] eqn:E; simpl; [done|..].
  - split; try apply H; [|done]. intros k. simpl. unfold GetLogs. simpl.
    destruct (decide (h = k)) as [<-|]; [by rewrite !lookup_delete_eq|].
    rewrite !lookup_delete_ne by done. apply (se_logs _ _ _ H k).
  - split; try apply H; [|done]. intros k. simpl. unfold GetLogs. simpl.
    destruct (decide (h = k)) as [<-|]; [by rewrite !lookup_insert_eq|].
    rewrite !lookup_insert_ne by done. apply (se_logs _ _ _ H k).
Qed.

(** Undoing an entry respects the equivalence. *)
Lemma revert_equiv bh e s1 s2 :
  state_equiv bh s1 s2 → res_equiv bh (revert e s1) (revert e s2).
Proof.
  intros H. destruct e; try (apply undo_object_equiv; [intros|done]).
  - simpl. split; try apply H. intros b. unfold lookup. simpl. rewrite <- (se_trie _ _ _ H).
    destruct (decide (account = b)) as [<-|]; [by rewrite !lookup_delete_eq|].
    rewrite !lookup_delete_ne by done. pose proof (se_lookup _ _ _ H b) as Hl. unfold lookup in Hl.
    by rewrite <- (se_trie _ _ _ H) in Hl.
  - simpl. by apply setStateObject_equiv.
  - cbn [revert].
    destruct (getStateObject_spec s1 account) as (s1' & -> & Hc1),
      (getStateObject_spec s2 account) as (s2' & -> & Hc2).
    assert (Hs : state_equiv bh s1' s2').
    { etrans; [by eapply cached_equiv|]. etrans; [exact H|]. symmetry. by eapply cached_equiv. }
    pose proof (se_lookup _ _ _ H account) as Hl. inversion Hl as [o1 o2 Ho|]; simpl; [|done].
    apply setStateObject_equiv; [done|]. rewrite (ca_db _ _ _ Hc1).
    by apply setBalance_equiv, set_suicided_equiv.
  - by apply setBalance_equiv.
  - by apply setNonce_equiv.
  - by apply setState_equiv.
  - by apply setCode_equiv.
  - simpl. by split; try apply H.
  - by apply revert_log_equiv.
  - simpl. split; try apply H. simpl. by rewrite (se_preimages _ _ _ H).
  - done.
  - by apply setStaking_equiv.
  - by apply setPoint_equiv.
  - by apply setBehind_equiv.
  - by apply setPenalty_equiv.
Qed.

Lemma undirty_equiv bh s e : state_equiv bh (undirty s e) s.
Proof. unfold undirty. destruct (dirtied e); [|done]. by split. Qed.

Lemma revert_loop_equiv bh es s1 s2 :
  state_equiv bh s1 s2 → res_equiv bh (revert_loop es s1) (revert_loop es s2).
Proof.
  revert s1 s2. induction es as [|e es IH]; intros s1 s2 H; [done|]. cbn [revert_loop].
  pose proof (revert_equiv bh e s1 s2 H) as Hr.
  destruct (revert e s1), (revert e s2); simpl in *; try done. apply IH.
  etrans; [apply undirty_equiv|]. etrans; [exact Hr|]. symmetry. apply undirty_equiv.
Qed.

Lemma revert_loop_app es1 es2 s :
  revert_loop (es1 ++ es2) s = bind (revert_loop es1 s) (revert_loop es2).
Proof. revert s. induction es1 as [|e es1 IH]; intros s; [done|]. cbn [revert_loop app]. destruct (revert e s); [apply IH|done..]. Qed.
End Congruence.

Section Steps.
Context {C : Crypto} {D : Database}.
Hypothesis Keccak256_length : ∀ b, length (Keccak256 b) = HashLength.

(** ** Well-formed states

    Objects are stored under their own address, an object marked deleted is no
    longer in the trie, code hashes have the length of a hash, and counters fit
    64 bits. *)

Definition wf_object (o : stateObject) : Prop := length (CodeHash (so_data o)) = HashLength.

Definition wf_entry (e : journalEntry) : Prop :=
  match e with
  | resetObjectChange prev => so_deleted prev = false ∧ wf_object prev
  | codeChange _ _ prevhash => length prevhash = HashLength
  | refundChange prev => is_u64 prev
  | _ => True
  end.

Record wf (s : StateDB) : Prop := {
  wf_address : ∀ a o, stateObjects s !! a = Some o → so_address o = a;
  wf_deleted : ∀ a o, stateObjects s !! a = Some o → so_deleted o = true → load (trie s) a = None;
  wf_live : ∀ a o, stateObjects s !! a = Some o → wf_object o;
  wf_loaded : ∀ a o, load (trie s) a = Some o → wf_object o;
  wf_entries : Forall wf_entry (entries (journal_ s));
  wf_logSize : is_u64 (logSize s);
  wf_refund : is_u64 (refund s)
}.

Lemma wf_put_journal s j : Forall wf_entry (entries j) → wf s → wf (put_journal s j).
Proof. intros Hj []. by split. Qed.

Lemma wf_append s e : wf_entry e → wf s → wf (append s e).
Proof.
  intros He Hw. apply wf_put_journal; [|done]. unfold journal_append.
  destruct (dirtied e); simpl; apply Forall_app; (split; [apply Hw|by constructor]).
Qed.

Lemma wf_setStateObject s o :
  so_deleted o = false → wf_object o → wf s → wf (setStateObject s o).
Proof.
  intros Hd Ho Hw. split; simpl; try apply Hw.
  - intros a o'. rewrite lookup_insert_Some. intros [[<- <-]|[_ H]]; [done|by eapply wf_address].
  - intros a o'. rewrite lookup_insert_Some. intros [[<- <-]|[_ H]]; [congruence|by eapply wf_deleted].
  - intros a o'. rewrite lookup_insert_Some. intros [[<- <-]|[_ H]]; [done|by eapply wf_live].
Qed.

Lemma wf_cached s s' a : cached s s' a → wf s → wf s'.
Proof.
  intros Hc Hw. destruct (ca_objects _ _ _ Hc) as [Ho|(o & Hn & Hl & Ho)].
  - split; rewrite ?Ho, ?(ca_trie _ _ _ Hc), ?(ca_journal _ _ _ Hc), ?(ca_logSize _ _ _ Hc), ?(ca_refund _ _ _ Hc); apply Hw.
  - pose proof (load_spec _ _ _ Hl) as [Ha Hd].
    assert (Hw' : wf (setStateObject s o)).
    { apply wf_setStateObject; [done|by eapply wf_loaded|done]. }
    split; rewrite ?Ho, ?(ca_trie _ _ _ Hc), ?(ca_journal _ _ _ Hc), ?(ca_logSize _ _ _ Hc), ?(ca_refund _ _ _ Hc);
      rewrite <- ?Ha; apply Hw'.
Qed.

Lemma lookup_wf s a o : wf s → lookup s a = Some o → so_address o = a ∧ so_deleted o = false ∧ wf_object o.
Proof.
  intros Hw. unfold lookup. destruct (stateObjects s !! a) as [o'|] eqn:E.
  - destruct (so_deleted o') eqn:Ed; [done|]. intros [= <-].
    split; [by eapply wf_address|]. split; [done|]. by eapply wf_live.
  - intros Hl. destruct (load_spec _ _ _ Hl). split; [done|]. split; [done|]. by eapply wf_loaded.
Qed.

Lemma lookup_none s a : wf s → lookup s a = None → load (trie s) a = None.
Proof.
  intros Hw. unfold lookup. destruct (stateObjects s !! a) as [o|] eqn:E; [|done].
  destruct (so_deleted o) eqn:Ed; [|done]. intros _. by eapply wf_deleted.
Qed.

(** ** Journaled steps

    The step from [s] to [s'] appends entries whose undoing gives [s] again. *)
Record step (bh : bool) (s s' : StateDB) : Prop := {
  st_undo : ∃ es s'', entries (journal_ s') = entries (journal_ s) ++ es ∧
              revert_loop (reverse es) s' = Ok s'' ∧ state_equiv bh s'' s;
  st_revisions : validRevisions s' = validRevisions s;
  st_next : nextRevisionId s' = nextRevisionId s;
  st_wf : wf s'
}.

Lemma step_refl bh s s' :
  entries (journal_ s') = entries (journal_ s) → state_equiv bh s' s →
  validRevisions s' = validRevisions s → nextRevisionId s' = nextRevisionId s → wf s' → step bh s s'.
Proof. intros He Hs Hr Hn Hw. split; try done. exists [], s'. by rewrite app_nil_r. Qed.

Lemma step_trans bh s1 s2 s3 : step bh s1 s2 → step bh s2 s3 → step bh s1 s3.
Proof.
  intros [(es1 & u1 & He1 & Hu1 & Hq1) Hr1 Hn1 Hw1] [(es2 & u2 & He2 & Hu2 & Hq2) Hr2 Hn2 Hw2].
  split; [|congruence|congruence|done].
  pose proof (revert_loop_equiv bh (reverse es1) u2 s2 Hq2) as Hp. rewrite Hu1 in Hp.
  destruct (revert_loop (reverse es1) u2) as [u3| | |] eqn:Eu; try done. simpl in Hp.
  exists (es1 ++ es2), u3. split; [by rewrite He2, He1, app_assoc|].
  rewrite reverse_app, revert_loop_app, Hu2. split; [done|]. by etrans.
Qed.

Lemma step_cached bh s s' a : cached s s' a → wf s → step bh s s'.
Proof.
  intros Hc Hw. apply step_refl; [by rewrite (ca_journal _ _ _ Hc)|by eapply cached_equiv| | |].
  - apply (ca_revisions _ _ _ Hc).
  - apply (ca_next _ _ _ Hc).
  - by eapply wf_cached.
Qed.

Lemma entries_append s e : entries (journal_ (append s e)) = entries (journal_ s) ++ [e].
Proof. unfold append, journal_append. simpl. by destruct (dirtied e). Qed.

(** One journaled write of a live object. *)
Lemma step_write bh s o o' e g :
  wf s → lookup s (so_address o) = Some o →
  so_address o' = so_address o → so_deleted o' = false → wf_object o' → wf_entry e →
  (∀ s, revert e s = undo_object s (so_address o) g) → obj_equiv bh (db s) (g o') o →
  step bh s (setStateObject (append s e) o').
Proof.
  intros Hw Hl Ha Hd Hwo Hwe Hrev Heq.
  split; [|done|done|by apply wf_setStateObject, wf_append].
  exists [e]. set (s' := setStateObject (append s e) o').
  assert (Hs' : lookup s' (so_address o) = Some o').
  { unfold s'. rewrite lookup_setStateObject, Ha, Hd. by rewrite decide_True. }
  destruct (getStateObject_spec s' (so_address o)) as (sc & Hg & Hc).
  exists (undirty (setStateObject sc (g o')) e).
  split; [unfold s'; apply entries_append|]. cbn [reverse rev_append revert_loop].
  rewrite Hrev. unfold undo_object. rewrite Hg, Hs'. split; [done|].
  etrans; [apply undirty_equiv|].
  pose proof (cached_equiv bh s' sc _ Hc) as Hsc.
  split; [apply Hsc..|]. intros a. rewrite lookup_setStateObject, (oe_address _ _ _ _ Heq).
  cbn [setStateObject put_stateObjects db]. rewrite (ca_db _ _ _ Hc).
  destruct (decide (a = so_address o)) as [->|Hne].
  - rewrite Hl, (oe_deleted _ _ _ _ Heq).
    destruct (lookup_wf s _ o Hw Hl) as (_ & -> & _). by constructor.
  - rewrite (cached_lookup _ _ _ a Hc). unfold s'. rewrite lookup_setStateObject, Ha.
    by rewrite decide_False.
Qed.

(** A live object replaced by another, with the old one in the journal. *)
Lemma step_reset bh s a p o' :
  wf s → lookup s a = Some p → so_address o' = a → so_deleted o' = false → wf_object o' →
  step bh s (setStateObject (append s (resetObjectChange p)) o').
Proof.
  intros Hw Hl Ha Hd Hwo. destruct (lookup_wf s a p Hw Hl) as (Hpa & Hpd & Hpw).
  split; [|done|done|apply wf_setStateObject; [done|done|by apply wf_append]].
  exists [resetObjectChange p]. eexists. split; [done|]. split; [reflexivity|].
  cbn [undirty dirtied]. split; try done. intros b. rewrite lookup_setStateObject, Hpa, Hpd.
  destruct (decide (b = a)) as [->|]; [by rewrite Hl|]. rewrite lookup_setStateObject, Ha.
  by rewrite decide_False.
Qed.

(** A new object. *)
Lemma step_create bh s a o' :
  wf s → lookup s a = None → so_address o' = a → so_deleted o' = false → wf_object o' →
  step bh s (setStateObject (append s (createObjectChange a)) o').
Proof.
  intros Hw Hl Ha Hd Hwo.
  split; [|done|done|apply wf_setStateObject; [done|done|by apply wf_append]].
  exists [createObjectChange a]. eexists. split; [done|]. split; [reflexivity|].
  etrans; [apply undirty_equiv|]. split; try done. intros b. unfold lookup at 1. simpl. rewrite Ha.
  rewrite delete_insert_eq. destruct (decide (a = b)) as [<-|].
  - rewrite lookup_delete_eq, (lookup_none s a Hw Hl), Hl. constructor.
  - rewrite lookup_delete_ne by done. unfold lookup. by case_match.
Qed.

(** Entries that do not concern an object. *)
Lemma step_global bh s s' e :
  wf s → wf_entry e → wf s' → entries (journal_ s') = entries (journal_ s) ++ [e] →
  validRevisions s' = validRevisions s → nextRevisionId s' = nextRevisionId s →
  (∃ u, revert e s' = Ok u ∧ state_equiv bh u s) → step bh s s'.
Proof.
  intros Hw He Hw' Hes Hr Hn (u & Hu & Hq). split; try done. exists [e], (undirty u e).
  split; [done|]. cbn [reverse rev_append revert_loop]. rewrite Hu. split; [done|].
  by etrans; [apply undirty_equiv|].
Qed.

(** ** The operations are journaled steps *)

(** An operation on the live object of an address. *)
Definition obj_step (bh : bool) (f : StateDB → stateObject → StateDB) : Prop := ∀ s o,
  wf s → lookup s (so_address o) = Some o → step bh s (f s o).

Lemma restored bh d o a :
  erase bh a = erase bh (so_data o) → CodeHash a = CodeHash (so_data o) →
  acc_Root a = acc_Root (so_data o) → obj_equiv bh d (set_data o a) o.
Proof.
  intros He Hh Hr.
  assert (Hc : ∀ key, committed_view d (set_data o a) key = committed_view d o key).
  { intros key. unfold committed_view, trie_view. simpl. by rewrite Hr. }
  split; try done.
  - unfold code_view. simpl. by rewrite Hh.
  - intros key. unfold storage_view. simpl. by rewrite Hc.
Qed.

(** A change of account data that the entry restores. *)
Lemma step_data bh s o a' e g :
  wf s → lookup s (so_address o) = Some o → CodeHash a' = CodeHash (so_data o) →
  acc_Root a' = acc_Root (so_data o) → wf_entry e →
  (∀ s, revert e s = undo_object s (so_address o) (λ o, set_data o (g (so_data o)))) →
  erase bh (g a') = erase bh (so_data o) → CodeHash (g a') = CodeHash a' → acc_Root (g a') = acc_Root a' →
  step bh s (setStateObject (append s e) (set_data o a')).
Proof.
  intros Hw Hl Hh Hr He Hrev Hg Hgh Hgr. destruct (lookup_wf s _ o Hw Hl) as (_ & Hd & Hwo).
  eapply step_write; eauto.
  - unfold wf_object in *. simpl. congruence.
  - apply (restored bh _ o (g a')); [done|congruence|congruence].
Qed.

Lemma so_SetBalance_step bh x : obj_step bh (λ s o, so_SetBalance s o x).
Proof.
  intros s o Hw Hl. apply (step_data bh s o _ _ (λ a, with_Balance a (Balance (so_data o)))); try done.
  f_equal. by destruct (so_data o).
Qed.

Lemma so_SetNonce_step bh x : obj_step bh (λ s o, so_SetNonce s o x).
Proof.
  intros s o Hw Hl. apply (step_data bh s o _ _ (λ a, with_Nonce a (acc_Nonce (so_data o)))); try done.
  f_equal. by destruct (so_data o).
Qed.

Lemma so_SetStaking_step bh x y : obj_step bh (λ s o, so_SetStaking s o x y).
Proof.
  intros s o Hw Hl. apply (step_data bh s o _ _ (λ a, with_StakeUpdated
    (with_StakeBalance a (StakeBalance (so_data o))) (StakeUpdated (so_data o)))); try done.
  f_equal. by destruct (so_data o).
Qed.

Lemma so_SetPoint_step bh x : obj_step bh (λ s o, so_SetPoint s o x).
Proof.
  intros s o Hw Hl. apply (step_data bh s o _ _ (λ a, with_Point a (Point (so_data o)))); try done.
  f_equal. by destruct (so_data o).
Qed.

Lemma setPenalty_step bh s o n b :
  wf s → lookup s (so_address o) = Some o →
  step bh s (setStateObject
    (append s (penaltyChange (so_address o) (Penalty (so_data o)) (PenlatyUpdated (so_data o))))
    (setPenalty o n b)).
Proof.
  intros Hw Hl. apply (step_data bh s o _ _ (λ a, with_PenlatyUpdated
    (with_Penalty a (Penalty (so_data o))) (PenlatyUpdated (so_data o)))); try done.
  f_equal. by destruct (so_data o).
Qed.

(** Pending rewards are restored only up to [erase false]. *)
Lemma so_SetBehind_step n x : obj_step false (λ s o, so_SetBehind s o n x).
Proof.
  intros s o Hw Hl. set (b := {| behind_Number := n; behind_Balance := x |}).
  by apply (step_data false s o _ _ (λ a, with_BehindBalance a [b])).
Qed.

Lemma touch_step bh : obj_step bh touch.
Proof.
  intros s o Hw Hl. assert (Hwt : wf (touch s o)).
  { unfold touch. case_match; [|by apply wf_append].
    pose proof (wf_append s (touchChange (so_address o)) I Hw) as Ha.
    apply wf_put_journal; [|done]. apply Ha. }
  eapply (step_global bh s _ (touchChange (so_address o))); try done;
    unfold touch; case_match; try done. all: eexists; (split; [done|]); by split.
Qed.

Lemma zero_or_step bh (f : StateDB → stateObject → StateDB) x :
  obj_step bh f →
  obj_step bh (λ s o, if x =? 0 then if empty o then touch s o else s else f s o).
Proof.
  intros Hf s o Hw Hl. destruct (x =? 0); [|by apply Hf].
  destruct (empty o); [by apply touch_step|]. by apply step_refl.
Qed.

Lemma so_AddBalance_step bh x : obj_step bh (λ s o, so_AddBalance s o x).
Proof.
  intros s o Hw Hl. apply (zero_or_step bh (λ s o, so_SetBalance s o (Balance (so_data o) + x)));
    [|done|done]. intros s' o' Hw' Hl'. by apply (so_SetBalance_step bh).
Qed.

Lemma so_SubBalance_step bh x : obj_step bh (λ s o, so_SubBalance s o x).
Proof.
  intros s o Hw Hl. unfold so_SubBalance. destruct (x =? 0); [by apply step_refl|].
  by apply (so_SetBalance_step bh).
Qed.

Lemma so_AddStakeBalance_step bh x b : obj_step bh (λ s o, so_AddStakeBalance s o x b).
Proof.
  intros s o Hw Hl.
  apply (zero_or_step bh (λ s o, so_SetStaking s o (StakeBalance (so_data o) + x) b)); [|done|done].
  intros s' o' Hw' Hl'. by apply (so_SetStaking_step bh).
Qed.

Lemma so_AddPoint_step bh x : obj_step bh (λ s o, so_AddPoint s o x).
Proof.
  intros s o Hw Hl. apply (zero_or_step bh (λ s o, so_SetPoint s o (Point (so_data o) + x)));
    [|done|done]. intros s' o' Hw' Hl'. by apply (so_SetPoint_step bh).
Qed.

Lemma so_AddBehindBalance_step n x : obj_step false (λ s o, so_AddBehindBalance s o n x).
Proof.
  intros s o Hw Hl. apply (zero_or_step false (λ s o, so_SetBehind s o n x)); [|done|done].
  apply so_SetBehind_step.
Qed.

Lemma so_RemoveStakeBalance_step bh : obj_step bh so_RemoveStakeBalance.
Proof.
  intros s o Hw Hl. unfold so_RemoveStakeBalance. case_match; [by apply step_refl|].
  pose proof (so_SetStaking_step bh 0 (StakeUpdated (so_data o)) s o Hw Hl) as H1.
  eapply step_trans; [exact H1|]. apply so_AddBalance_step; [apply H1|].
  unfold so_SetStaking. rewrite lookup_setStateObject. simpl. rewrite decide_True by done.
  by destruct (lookup_wf s _ o Hw Hl) as (_ & -> & _).
Qed.

Lemma BytesToHash_id b : length b = HashLength → BytesToHash b = b.
Proof.
  intros Hb. unfold BytesToHash, set_bytes. rewrite Hb, Nat.leb_refl, Nat.sub_diag. done.
Qed.

Lemma so_SetCode_step bh h c : length h = HashLength → obj_step bh (λ s o, so_SetCode s o h c).
Proof.
  intros Hh s o Hw Hl. destruct (lookup_wf s _ o Hw Hl) as (_ & Hd & Hwo).
  unfold so_SetCode. destruct (so_Code_spec (db s) o) as (o1 & -> & Hr & Hdata).
  assert (Ho1 : obj_equiv bh (db s) o1 o).
  { destruct Hr. split; try done. by destruct bh; simpl in *; congruence. }
  pose proof (oe_address _ _ _ _ Hr) as Ha. rewrite Ha.
  eapply (step_write bh s o _ _ (λ o', setCode o' (BytesToHash (CodeHash (so_data o1))) (code_view (db s) o)));
    try done.
  - simpl. by rewrite (oe_deleted _ _ _ _ Hr).
  - simpl. by rewrite Hdata.
  - rewrite BytesToHash_id by (by rewrite Hdata). destruct Ho1. split; try done.
    + simpl. rewrite <- oe_data0. f_equal. by destruct (so_data o1).
    + unfold code_view. simpl. rewrite oe_addrHash0, Hdata.
      destruct (so_code o); [done|]. by repeat case_match.
Qed.

Lemma so_SetState_step bh k v : obj_step bh (λ s o, so_SetState s o k v).
Proof.
  intros s o Hw Hl. destruct (lookup_wf s _ o Hw Hl) as (_ & Hd & Hwo).
  unfold so_SetState. destruct (so_GetState_spec (db s) o k) as (o1 & -> & Hr & Hdata).
  assert (Ho1 : obj_equiv bh (db s) o1 o).
  { destruct Hr. split; try done. by destruct bh; simpl in *; congruence. }
  pose proof (oe_deleted _ _ _ _ Ho1) as Hd1. rewrite Hd in Hd1.
  assert (Hwo1 : wf_object o1) by (unfold wf_object; by rewrite Hdata).
  case_bool_decide.
  - apply step_refl; try done; [by eapply setStateObject_same|by apply wf_setStateObject].
  - rewrite (oe_address _ _ _ _ Ho1).
    eapply (step_write bh s o _ _ (λ o', setState o' k (storage_view (db s) o k))); try done.
    { simpl. apply (oe_address _ _ _ _ Ho1). }
    etrans; [|exact Ho1]. split; try done. intros key. unfold storage_view at 1. simpl.
    rewrite insert_insert_eq. destruct (decide (k = key)) as [<-|].
    + rewrite lookup_insert_eq. symmetry. apply Ho1.
    + by rewrite lookup_insert_ne.
Qed.

Lemma newObject_wf a x : wf_object (setNonce (newObject a noAccount) x).
Proof. unfold wf_object. simpl. apply Keccak256_length. Qed.

Lemma createObject_step bh s a :
  wf s → let '(o, _, s') := createObject s a in
         step bh s s' ∧ lookup s' a = Some o ∧ so_address o = a.
Proof.
  intros Hw. unfold createObject. destruct (getStateObject_spec s a) as (s1 & -> & Hc).
  pose proof (wf_cached _ _ _ Hc Hw) as Hw1. rewrite <- (cached_lookup _ _ _ a Hc).
  set (o := setNonce (newObject a noAccount) 0).
  destruct (lookup s1 a) as [p|] eqn:E; (split; [|split; [|done]]).
  - eapply step_trans; [by eapply step_cached|]. by apply (step_reset bh s1 a); [..|apply newObject_wf].
  - rewrite lookup_setStateObject. by rewrite decide_True.
  - eapply step_trans; [by eapply step_cached|]. by apply (step_create bh s1 a); [..|apply newObject_wf].
  - rewrite lookup_setStateObject. by rewrite decide_True.
Qed.

Lemma GetOrNewStateObject_step bh s a :
  wf s → let '(o, s') := GetOrNewStateObject s a in
         step bh s s' ∧ lookup s' a = Some o ∧ so_address o = a.
Proof.
  intros Hw. unfold GetOrNewStateObject. destruct (getStateObject_spec s a) as (s1 & -> & Hc).
  pose proof (wf_cached _ _ _ Hc Hw) as Hw1. pose proof (step_cached bh _ _ _ Hc Hw) as Hs.
  destruct (lookup s a) as [o|] eqn:E.
  - split; [done|]. rewrite (cached_lookup _ _ _ a Hc). split; [done|]. exact (proj1 (lookup_wf s a o Hw E)).
  - pose proof (createObject_step bh s1 a Hw1) as H. destruct (createObject s1 a) as [[o p] s2].
    destruct H as (H1 & H2 & H3). split; [by eapply step_trans|done].
Qed.

Lemma write_step bh f s a : obj_step bh f → wf s → step bh s (write f s a).
Proof.
  intros Hf Hw. unfold write. pose proof (GetOrNewStateObject_step bh s a Hw) as H.
  destruct (GetOrNewStateObject s a) as [o s1]. destruct H as (H1 & H2 & H3).
  eapply step_trans; [exact H1|]. apply Hf; [apply H1|by rewrite H3].
Qed.

Lemma write_existing_step bh f s a : obj_step bh f → wf s → step bh s (write_existing f s a).
Proof.
  intros Hf Hw. unfold write_existing. destruct (getStateObject_spec s a) as (s1 & -> & Hc).
  pose proof (step_cached bh _ _ _ Hc Hw) as Hs. destruct (lookup s a) as [o|] eqn:E; [|done].
  eapply step_trans; [exact Hs|]. apply Hf; [apply Hs|]. rewrite (cached_lookup _ _ _ _ Hc).
  by destruct (lookup_wf s a o Hw E) as (-> & _).
Qed.

Lemma read_step {A} bh (f : stateObject → A) none s a : wf s → step bh s (read f none s a).2.
Proof.
  intros Hw. unfold read. destruct (getStateObject_spec s a) as (s1 & -> & Hc).
  pose proof (step_cached bh _ _ _ Hc Hw) as Hs. by destruct (lookup s a).
Qed.

Lemma read_update_step {A} bh (f : DB → stateObject → A * stateObject) none s a :
  (∀ d o, reloaded d o (f d o).2) → wf s → step bh s (read_update f none s a).2.
Proof.
  intros Hf Hw. unfold read_update. destruct (getStateObject_spec s a) as (s1 & -> & Hc).
  pose proof (step_cached bh _ _ _ Hc Hw) as Hs. destruct (lookup s a) as [o|] eqn:E; [|done].
  destruct (lookup_wf s a o Hw E) as (Ha & Hd & Hwo).
  specialize (Hf (db s1) o). destruct (f (db s1) o) as [x o']. destruct Hf as [Hr Hdata]. simpl in *.
  eapply step_trans; [exact Hs|]. apply step_refl; try done.
  - eapply setStateObject_same; [by rewrite (cached_lookup _ _ _ _ Hc), Ha|].
    destruct Hr. split; try done. by destruct bh; simpl in *; congruence.
  - apply wf_setStateObject; [by rewrite (oe_deleted _ _ _ _ Hr)|unfold wf_object; by rewrite Hdata|apply Hs].
Qed.

Lemma CreateAccount_step bh s a : wf s → step bh s (CreateAccount s a).
Proof.
  intros Hw. unfold CreateAccount, createObject. destruct (getStateObject_spec s a) as (s1 & -> & Hc).
  pose proof (wf_cached _ _ _ Hc Hw) as Hw1. rewrite <- (cached_lookup _ _ _ a Hc).
  eapply step_trans; [by eapply step_cached|]. destruct (lookup s1 a) as [p|] eqn:E.
  - set (o := setNonce (newObject a noAccount) 0).
    assert (Hset : setStateObject (setStateObject (append s1 (resetObjectChange p)) o)
                     (setBalance o (Balance (so_data p))) =
                   setStateObject (append s1 (resetObjectChange p)) (setBalance o (Balance (so_data p)))).
    { unfold setStateObject. cbn [put_stateObjects stateObjects]. unfold put_stateObjects. simpl.
      by rewrite insert_insert_eq. }
    rewrite Hset. apply (step_reset bh s1 a); try done. apply newObject_wf.
  - by apply (step_create bh s1 a); [..|apply newObject_wf].
Qed.

Lemma Suicide_step bh s a : wf s → step bh s (Suicide s a).2.
Proof.
  intros Hw. unfold Suicide. destruct (getStateObject_spec s a) as (s1 & -> & Hc).
  pose proof (step_cached bh _ _ _ Hc Hw) as Hs. destruct (lookup s a) as [o|] eqn:E; [|done].
  destruct (lookup_wf s a o Hw E) as (Ha & Hd & Hwo). simpl.
  eapply step_trans; [exact Hs|]. rewrite <- (cached_lookup _ _ _ a Hc) in E. subst a.
  destruct Hs as [_ _ _ Hw1]. split; [|done|done|apply wf_setStateObject; [done|done|by apply wf_append]].
  set (e := suicideChange _ _ _). set (s' := setStateObject (append s1 e) (setBalance (markSuicided o) 0)).
  exists [e]. destruct (getStateObject_spec s' (so_address o)) as (sc & Hg & Hc').
  assert (Hl : lookup s' (so_address o) = Some (setBalance (markSuicided o) 0)).
  { unfold s'. rewrite lookup_setStateObject. simpl. by rewrite decide_True, Hd. }
  eexists. split; [apply entries_append|]. cbn [reverse rev_append revert_loop]. unfold e at 1.
  cbn [revert]. rewrite Hg, Hl. split; [reflexivity|]. etrans; [apply undirty_equiv|].
  pose proof (cached_equiv bh s' sc _ Hc') as Hsc. split; [apply Hsc..|].
  intros b. rewrite lookup_setStateObject. simpl so_address. simpl so_deleted. rewrite Hd.
  cbn [setStateObject put_stateObjects db]. rewrite (ca_db _ _ _ Hc').
  destruct (decide (b = so_address o)) as [->|].
  - rewrite E. constructor. split; try done. simpl. f_equal. by destruct (so_data o).
  - rewrite (cached_lookup _ _ _ _ Hc'). unfold s'. rewrite lookup_setStateObject. simpl.
    by rewrite decide_False.
Qed.

Lemma AddRefund_step bh s g : wf s → step bh s (AddRefund s g).
Proof.
  intros Hw. eapply (step_global bh s _ (refundChange (refund s))); try done; try apply (wf_refund s Hw).
  - pose proof (wf_append s (refundChange (refund s)) (wf_refund s Hw) Hw) as []. split; try done. simpl. apply u64_range.
  - eexists. split; [reflexivity|]. by split.
Qed.

Lemma SubRefund_step bh s g s' : wf s → SubRefund s g = Ok s' → step bh s s'.
Proof.
  intros Hw. unfold SubRefund. case_match; [done|]. intros [= <-].
  eapply (step_global bh s _ (refundChange (refund s))); try done; try apply (wf_refund s Hw).
  - pose proof (wf_append s (refundChange (refund s)) (wf_refund s Hw) Hw) as []. split; try done. simpl. apply u64_range.
  - eexists. split; [reflexivity|]. by split.
Qed.

Lemma AddLog_step bh s l : wf s → step bh s (AddLog s l).
Proof.
  intros Hw. pose proof (wf_logSize s Hw) as Hls.
  eapply (step_global bh s _ (addLogChange (thash s))); try done.
  - pose proof (wf_append s (addLogChange (thash s)) I Hw) as []. split; try done. simpl. apply u64_range.
  - set (s' := AddLog s l).
    assert (Hg : ∃ x, GetLogs s' (thash s) = GetLogs s (thash s) ++ [x] ∧
                 logs s' = <[thash s := GetLogs s (thash s) ++ [x]]> (logs s)).
    { eexists. unfold s', GetLogs. simpl. rewrite lookup_insert_eq. done. }
    destruct Hg as (x & Hg & Hm). cbn [revert]. rewrite Hg, length_app, Nat.add_sub.
    rewrite take_app_length.
    assert (Hsize : u64 (logSize s' - 1) = logSize s).
    { unfold s'. simpl. unfold u64, is_u64 in *. rewrite two64_eq in *. zdiv. }
    destruct (GetLogs s (thash s)) as [|y ys] eqn:El; cbn [app].
    + eexists. split; [reflexivity|]. split; try done. intros h.
      change (default [] (delete (thash s) (logs s') !! h) = GetLogs s h).
      rewrite Hm, delete_insert_eq. destruct (decide (thash s = h)) as [<-|].
      * rewrite lookup_delete_eq. symmetry. exact El.
      * by rewrite lookup_delete_ne.
    + assert (Hno : ∀ z, match ys ++ [x] with [] => z | _ :: _ => Ok (put_logSize (put_logs s'
        (<[thash s:=y :: ys]> (logs s'))) (u64 (logSize s' - 1))) end =
        Ok (put_logSize (put_logs s' (<[thash s:=y :: ys]> (logs s'))) (u64 (logSize s' - 1)))).
      { intros. by destruct ys. }
      rewrite Hno. eexists. split; [reflexivity|]. split; try done. intros h.
      change (default [] (<[thash s := y :: ys]> (logs s') !! h) = GetLogs s h).
      rewrite Hm, insert_insert_eq. destruct (decide (thash s = h)) as [<-|].
      * rewrite lookup_insert_eq. symmetry. exact El.
      * by rewrite lookup_insert_ne.
Qed.

Lemma AddPreimage_step bh s h b : wf s → step bh s (AddPreimage s h b).
Proof.
  intros Hw. unfold AddPreimage. destruct (preimages s !! h) eqn:E; [by apply step_refl|].
  eapply (step_global bh s _ (addPreimageChange h)); try done.
  - pose proof (wf_append s (addPreimageChange h) I Hw) as []. by split.
  - eexists. split; [reflexivity|]. split; try done. simpl. by rewrite delete_insert_id.
Qed.

Lemma RemoveFirstBehindBalance_step s a s' :
  wf s → RemoveFirstBehindBalance s a = Ok s' → step false s s'.
Proof.
  intros Hw. unfold RemoveFirstBehindBalance. destruct (getStateObject_spec s a) as (s1 & -> & Hc).
  pose proof (step_cached false _ _ _ Hc Hw) as Hs.
  destruct (lookup s a) as [o|] eqn:E; [|by intros [= <-]].
  unfold so_RemoveFirstBehindBalance. destruct (BehindBalance (so_data o)) as [|b bs] eqn:Eb; [done|].
  cbn [bind]. intros [= <-]. eapply step_trans; [exact Hs|].
  destruct (lookup_wf s a o Hw E) as (Ha & Hd & Hwo). apply step_refl; try done.
  - eapply setStateObject_same; [by rewrite (cached_lookup _ _ _ _ Hc), Ha|]. by apply restored.
  - apply wf_setStateObject; [done|done|apply Hs].
Qed.

(** ** Sequences of operations *)

Inductive op :=
| OAddBalance (a : Address) (x : Z)
| OSubBalance (a : Address) (x : Z)
| OSetBalance (a : Address) (x : Z)
| OSetNonce (a : Address) (n : Z)
| OSetCode (a : Address) (c : option bytes)
| OSetState (a : Address) (k v : Hash)
| OSetStaking (a : Address) (x b : Z)
| OAddStakeBalance (a : Address) (x b : Z)
| ORemoveStakeBalance (a : Address)
| OSetPoint (a : Address) (x : Z)
| OAddPoint (a : Address) (x : Z)
| OAddPenalty (a : Address) (b : Z)
| ORemovePenalty (a : Address) (b : Z)
| OAddBehindBalance (a : Address) (n x : Z)
| ORemoveFirstBehindBalance (a : Address)
| OSuicide (a : Address)
| OCreateAccount (a : Address)
| OAddRefund (g : Z)
| OSubRefund (g : Z)
| OAddLog (l : Log)
| OAddPreimage (h : Hash) (b : bytes)
| OGetBalance (a : Address)
| OGetCode (a : Address)
| OGetCodeSize (a : Address)
| OGetState (a : Address) (k : Hash)
| OGetCommittedState (a : Address) (k : Hash)
| OSnapshot
| ORevertToSnapshot (id : Z).

Definition run_op (o : op) (s : StateDB) : result StateDB :=
  match o with
  | OAddBalance a x => Ok (AddBalance s a x)
  | OSubBalance a x => Ok (SubBalance s a x)
  | OSetBalance a x => Ok (SetBalance s a x)
  | OSetNonce a n => Ok (SetNonce s a n)
  | OSetCode a c => Ok (SetCode s a c)
  | OSetState a k v => Ok (SetState s a k v)
  | OSetStaking a x b => Ok (SetStaking s a x b)
  | OAddStakeBalance a x b => Ok (AddStakeBalance s a x b)
  | ORemoveStakeBalance a => Ok (RemoveStakeBalance s a)
  | OSetPoint a x => Ok (SetPoint s a x)
  | OAddPoint a x => Ok (AddPoint s a x)
  | OAddPenalty a b => Ok (AddPenalty s a b)
  | ORemovePenalty a b => Ok (RemovePenalty s a b)
  | OAddBehindBalance a n x => Ok (AddBehindBalance s a n x)
  | ORemoveFirstBehindBalance a => RemoveFirstBehindBalance s a
  | OSuicide a => Ok (Suicide s a).2
  | OCreateAccount a => Ok (CreateAccount s a)
  | OAddRefund g => Ok (AddRefund s g)
  | OSubRefund g => SubRefund s g
  | OAddLog l => Ok (AddLog s l)
  | OAddPreimage h b => Ok (AddPreimage s h b)
  | OGetBalance a => Ok (GetBalance s a).2
  | OGetCode a => Ok (GetCode s a).2
  | OGetCodeSize a => Ok (GetCodeSize s a).2
  | OGetState a k => Ok (GetState s a k).2
  | OGetCommittedState a k => Ok (GetCommittedState s a k).2
  | OSnapshot => Ok (Snapshot s).2
  | ORevertToSnapshot id => RevertToSnapshot s id
  end.

Fixpoint run (ops : list op) (s : StateDB) : result StateDB :=
  match ops with [] => Ok s | o :: ops' => let* s := run_op o s in run ops' s end.

(** Operations on the list of pending rewards. *)
Definition touches_behind (o : op) : bool :=
  match o with OAddBehindBalance _ _ _ | ORemoveFirstBehindBalance _ => true | _ => false end.

Definition is_snapshot_op (o : op) : bool :=
  match o with OSnapshot | ORevertToSnapshot _ => true | _ => false end.

Lemma reloaded_code : ∀ d o, reloaded d o (so_Code d o).2.
Proof. intros d o. by destruct (so_Code_spec d o) as (o' & -> & ?). Qed.
Lemma reloaded_state k : ∀ d o, reloaded d o (so_GetState d o k).2.
Proof. intros d o. by destruct (so_GetState_spec d o k) as (o' & -> & ?). Qed.
Lemma reloaded_committed k : ∀ d o, reloaded d o (so_GetCommittedState d o k).2.
Proof. intros d o. by destruct (so_GetCommittedState_spec d o k) as (o' & -> & ?). Qed.

(** A size that cannot be read is remembered as an error of the database. *)
Lemma GetCodeSize_cached s a :
  ∃ s1, cached s s1 a ∧ ((GetCodeSize s a).2 = s1 ∨ ∃ e, (GetCodeSize s a).2 = setError s1 e).
Proof.
  unfold GetCodeSize. destruct (getStateObject_spec s a) as (s1 & -> & Hc). exists s1. split; [done|].
  destruct (lookup s a) as [o|]; [|by left]. destruct (so_code o); [by left|].
  destruct (ContractCodeSize _ _ _) as [size [e|]]; [right; by eexists|by left].
Qed.

Lemma GetCodeSize_step bh s a : wf s → step bh s (GetCodeSize s a).2.
Proof.
  intros Hw. destruct (GetCodeSize_cached s a) as (s1 & Hc & Hs).
  pose proof (step_cached bh _ _ _ Hc Hw) as H1. destruct Hs as [-> | [e ->]]; [done|]. apply (step_trans bh s s1); [done|].
  pose proof (st_wf _ _ _ H1) as [].
  unfold setError. destruct (dbErr s1); apply step_refl; try done; split; done.
Qed.

Lemma run_op_step bh o s s' :
  (bh = true → touches_behind o = false) → is_snapshot_op o = false → wf s →
  run_op o s = Ok s' → step bh s s'.
Proof.
  intros Hbh Hso Hw. destruct o; try discriminate; cbn [run_op]; intros Hrun;
    try (injection Hrun as <-).
  - by apply write_step; [apply so_AddBalance_step|].
  - by apply write_step; [apply so_SubBalance_step|].
  - by apply write_step; [apply so_SetBalance_step|].
  - by apply write_step; [apply so_SetNonce_step|].
  - by apply write_step; [apply so_SetCode_step, Keccak256_length|].
  - by apply write_step; [apply so_SetState_step|].
  - by apply write_step; [apply so_SetStaking_step|].
  - by apply write_step; [apply so_AddStakeBalance_step|].
  - by apply write_step; [apply so_RemoveStakeBalance_step|].
  - by apply write_step; [apply so_SetPoint_step|].
  - by apply write_step; [apply so_AddPoint_step|].
  - apply write_existing_step; [intros ? ? ? ?; by apply setPenalty_step|done].
  - apply write_existing_step; [intros ? ? ? ?; by apply setPenalty_step|done].
  - destruct bh; [discriminate (Hbh eq_refl)|]. by apply write_step; [apply so_AddBehindBalance_step|].
  - destruct bh; [discriminate (Hbh eq_refl)|]. by eapply RemoveFirstBehindBalance_step.
  - by apply Suicide_step.
  - by apply CreateAccount_step.
  - by apply AddRefund_step.
  - by eapply SubRefund_step.
  - by apply AddLog_step.
  - by apply AddPreimage_step.
  - by apply read_step.
  - apply read_update_step; [apply reloaded_code|done].
  - by apply GetCodeSize_step.
  - apply read_update_step; [apply reloaded_state|done].
  - apply read_update_step; [apply reloaded_committed|done].
Qed.

(** ** Undoing keeps states well-formed *)

Definition same_frame (s s' : StateDB) : Prop :=
  entries (journal_ s') = entries (journal_ s) ∧ validRevisions s' = validRevisions s ∧
  nextRevisionId s' = nextRevisionId s.

Lemma undo_object_wf s a f s' :
  (∀ o, so_address (f o) = so_address o ∧ so_deleted (f o) = so_deleted o ∧
        (wf_object o → wf_object (f o))) →
  wf s → undo_object s a f = Ok s' → wf s' ∧ same_frame s s'.
Proof.
  intros Hf Hw. unfold undo_object. destruct (getStateObject_spec s a) as (s1 & -> & Hc).
  destruct (lookup s a) as [o|] eqn:E; [|done]. intros [= <-].
  destruct (lookup_wf s a o Hw E) as (Ha & Hd & Hwo), (Hf o) as (Hfa & Hfd & Hfw).
  split; [apply wf_setStateObject; [congruence|auto|by eapply wf_cached]|].
  unfold same_frame. simpl. by rewrite (ca_journal _ _ _ Hc), (ca_revisions _ _ _ Hc), (ca_next _ _ _ Hc).
Qed.

Lemma revert_wf e s s' : wf s → wf_entry e → revert e s = Ok s' → wf s' ∧ same_frame s s'.
Proof.
  intros Hw He. destruct e; cbn [revert]; try (apply undo_object_wf; [|done]; done).
  - intros [= <-]. split; [|done]. destruct Hw. split; try done; simpl; intros a o;
      rewrite lookup_delete_Some; intros [_ ?]; eauto.
  - intros [= <-]. destruct He. split; [by apply wf_setStateObject|done].
  - destruct (getStateObject_spec s account) as (s1 & -> & Hc). pose proof (wf_cached _ _ _ Hc Hw) as Hw1.
    assert (Hfr : same_frame s s1).
    { unfold same_frame. by rewrite (ca_journal _ _ _ Hc), (ca_revisions _ _ _ Hc), (ca_next _ _ _ Hc). }
    destruct (lookup s account) as [o|] eqn:E; intros [= <-]; [|done].
    destruct (lookup_wf s _ o Hw E) as (Ha & Hd & Hwo). split; [by apply wf_setStateObject|done].
  - apply undo_object_wf; [|done]. intros o. split; [done|]. split; [done|]. intros _.
    unfold wf_object. simpl. apply set_bytes_length.
  - intros [= <-]. destruct Hw. split; [by split|done].
  - destruct Hw. repeat case_match; try done; intros [= <-]; (split; [|done]); split; try done; apply u64_range.
  - intros [= <-]. destruct Hw. split; [by split|done].
  - intros [= <-]. done.
Qed.

Lemma undirty_wf s e : wf s → wf (undirty s e) ∧ same_frame s (undirty s e).
Proof.
  intros Hw. unfold undirty. destruct (dirtied e); [|done]. split; [|done].
  apply wf_put_journal; [apply Hw|done].
Qed.

Lemma revert_loop_wf es s s' :
  wf s → Forall wf_entry es → revert_loop es s = Ok s' → wf s' ∧ same_frame s s'.
Proof.
  intros Hw Hes. revert s Hw. induction Hes as [|e es He Hes IH]; intros s Hw; cbn [revert_loop].
  { by intros [= <-]. }
  destruct (revert e s) as [s1| | |] eqn:E; try done. cbn [bind]. intros Hr.
  destruct (revert_wf e s s1 Hw He E) as [Hw1 (F1 & F2 & F3)], (undirty_wf s1 e Hw1) as [Hw2 (G1 & G2 & G3)].
  destruct (IH _ Hw2 Hr) as [Hw3 (K1 & K2 & K3)]. split; [done|]. unfold same_frame. split; [|split]; congruence.
Qed.

(** ** Valid revisions *)

Record revs_ok (s : StateDB) : Prop := {
  ro_sorted : ∀ i j ri rj, (i < j)%nat → validRevisions s !! i = Some ri →
    validRevisions s !! j = Some rj → rev_id ri < rev_id rj ∧ (journalIndex ri ≤ journalIndex rj)%nat;
  ro_bound : ∀ i r, validRevisions s !! i = Some r →
    (journalIndex r ≤ length (entries (journal_ s)))%nat ∧ rev_id r < nextRevisionId s
}.

Lemma revs_ok_Snapshot s : revs_ok s → revs_ok (Snapshot s).2.
Proof.
  intros [Hs Hb]. split.
  - intros j k rj rk Hjk. simpl. rewrite !lookup_snoc_Some.
    intros [[Hj Hlj]|[Hj <-]] [[Hk Hlk]|[Hk <-]]; try lia; [exact (Hs j k rj rk Hjk Hlj Hlk)|].
    destruct (Hb j rj Hlj). simpl. lia.
  - intros j rj. simpl. rewrite lookup_snoc_Some. intros [[_ Hj]|[_ <-]]; [|simpl; lia].
    destruct (Hb j rj Hj). lia.
Qed.

Lemma RevertToSnapshot_found s i r :
  revs_ok s → validRevisions s !! i = Some r →
  RevertToSnapshot s (rev_id r) =
  (let* s' := journal_revert s (journalIndex r) in
   Ok (put_validRevisions s' (take i (validRevisions s')))).
Proof.
  intros Hr Hi. unfold RevertToSnapshot.
  set (f := λ j, match validRevisions s !! j with Some r' => rev_id r <=? rev_id r' | None => false end).
  assert (Hlen : (i < length (validRevisions s))%nat) by (by eapply lookup_lt_Some).
  assert (Hf : ∀ j, (j < length (validRevisions s))%nat → f j = bool_decide (i ≤ j)%nat).
  { intros j Hj. unfold f. destruct (lookup_lt_is_Some_2 _ _ Hj) as [r' Hr']. rewrite Hr'.
    apply eq_true_iff_eq. rewrite Z.leb_le, bool_decide_eq_true.
    destruct (Nat.lt_trichotomy i j) as [H|[->|H]].
    - destruct (ro_sorted s Hr i j r r' H Hi Hr'). lia.
    - assert (r' = r) as -> by congruence. lia.
    - destruct (ro_sorted s Hr j i r' r H Hr' Hi). lia. }
  destruct (sort_Search_spec (length (validRevisions s)) f) as (Hk & Hlo & Hhi).
  { intros x y Hxy Hy. rewrite !Hf by lia. rewrite !bool_decide_eq_true. lia. }
  set (k := sort_Search (length (validRevisions s)) f) in *.
  assert (k = i) as ->.
  { destruct (Nat.lt_trichotomy k i) as [H|[H|H]]; [|done|].
    - specialize (Hhi k). rewrite Hf, bool_decide_eq_true in Hhi by lia. lia.
    - specialize (Hlo i H). rewrite Hf, bool_decide_eq_false in Hlo by lia. lia. }
  by rewrite Hi, Z.eqb_refl.
Qed.

Lemma RevertToSnapshot_inv s id s' :
  RevertToSnapshot s id = Ok s' → ∃ i r u, validRevisions s !! i = Some r ∧ rev_id r = id ∧
    revert_loop (reverse (drop (journalIndex r) (entries (journal_ s)))) s = Ok u ∧
    s' = put_validRevisions
           (put_journal u {| entries := take (journalIndex r) (entries (journal_ u));
                             dirties := dirties (journal_ u) |}) (take i (validRevisions u)).
Proof.
  unfold RevertToSnapshot, journal_revert. set (k := sort_Search _ _).
  destruct (validRevisions s !! k) as [r|] eqn:E; [|done].
  destruct (Z.eqb_spec (rev_id r) id); [|done].
  destruct (revert_loop _ s) as [u| | |] eqn:Eu; try done. cbn [bind]. intros [= <-].
  by exists k, r, u.
Qed.

Lemma revs_ok_step bh s s' : step bh s s' → revs_ok s → revs_ok s'.
Proof.
  intros [(es & v & He & _) Hrev Hnext _] [Hs Hb]. split; rewrite Hrev, ?Hnext; [done|].
  intros j r' Hj. destruct (Hb j r' Hj). rewrite He, length_app. lia.
Qed.

(** The state after a revert to revision [r] at position [j]. *)
Definition reverted (u : StateDB) (j : nat) (r : revision) : StateDB :=
  put_validRevisions
    (put_journal u {| entries := take (journalIndex r) (entries (journal_ u));
                      dirties := dirties (journal_ u) |}) (take j (validRevisions u)).

Lemma reverted_ok s j r u :
  wf s → revs_ok s → validRevisions s !! j = Some r →
  revert_loop (reverse (drop (journalIndex r) (entries (journal_ s)))) s = Ok u →
  wf (reverted u j r) ∧ revs_ok (reverted u j r) ∧ same_frame s u.
Proof.
  intros Hw [Hs Hb] Hj Hu.
  assert (Hes : Forall wf_entry (reverse (drop (journalIndex r) (entries (journal_ s)))))
    by apply Forall_reverse, Forall_drop, Hw.
  destruct (revert_loop_wf _ s u Hw Hes Hu) as [Hwu (Fe & Fr & Fn)].
  split; [|split; [|done]].
  - assert (Ht : Forall wf_entry (take (journalIndex r) (entries (journal_ u)))) by (apply Forall_take, Hwu).
    destruct Hwu. by split.
  - split; simpl; rewrite Fr, ?Fn, ?Fe.
    + intros a b ra rb Hab. rewrite !lookup_take_Some. intros [Ha _] [Hb' _]. exact (Hs a b ra rb Hab Ha Hb').
    + intros a ra. rewrite lookup_take_Some. intros [Ha Haj]. destruct (Hb a ra Ha) as [Hle Hid].
      rewrite length_take. destruct (Hs a j ra r Haj Ha Hj). lia.
Qed.

(** ** The snapshot stays recoverable *)

Record recoverable (bh : bool) (s0 : StateDB) (r : revision) (s : StateDB) : Prop := {
  rc_wf : wf s;
  rc_revs : revs_ok s;
  rc_found : ∃ i, validRevisions s !! i = Some r;
  rc_undo : ∃ u, revert_loop (reverse (drop (journalIndex r) (entries (journal_ s)))) s = Ok u ∧
                 state_equiv bh u s0
}.

Lemma recoverable_step bh s0 r s s' : recoverable bh s0 r s → step bh s s' → recoverable bh s0 r s'.
Proof.
  intros [Hw Hr [i Hi] (u & Hu & Hq)] [(es & v & He & Hv & Hvq) Hrev Hnext Hw'].
  split; [done|..].
  - apply (revs_ok_step bh s); [|done]. split; try done. by exists es, v.
  - exists i. by rewrite Hrev.
  - destruct (ro_bound s Hr i r Hi) as [Hle _]. rewrite He, drop_app_le by lia.
    rewrite reverse_app, revert_loop_app, Hv. cbn [bind].
    pose proof (revert_loop_equiv bh (reverse (drop (journalIndex r) (entries (journal_ s)))) v s Hvq) as Hp.
    rewrite Hu in Hp. destruct (revert_loop _ v) as [w| | |]; try done. exists w. split; [done|]. by etrans.
Qed.

Lemma recoverable_Snapshot bh s0 r s : recoverable bh s0 r s → recoverable bh s0 r (Snapshot s).2.
Proof.
  intros [Hw Hr [i Hi] (u & Hu & Hq)]. split.
  - destruct Hw. by split.
  - by apply revs_ok_Snapshot.
  - exists i. simpl. rewrite lookup_app_l; [done|by eapply lookup_lt_Some].
  - pose proof (revert_loop_equiv bh (reverse (drop (journalIndex r) (entries (journal_ s))))
      (Snapshot s).2 s ltac:(by split)) as Hp.
    rewrite Hu in Hp. change (journal_ (Snapshot s).2) with (journal_ s).
    destruct (revert_loop _ (Snapshot s).2) as [w| | |]; try done. exists w. split; [done|]. by etrans.
Qed.

Lemma recoverable_Revert bh s0 r s id s' :
  recoverable bh s0 r s → rev_id r < id → RevertToSnapshot s id = Ok s' → recoverable bh s0 r s'.
Proof.
  intros [Hw Hr [i Hi] (u & Hu & Hq)] Hid Hrun.
  destruct (RevertToSnapshot_inv s id s' Hrun) as (j & r' & v & Hj & Hr' & Hv & ->).
  assert (Hij : (i < j)%nat).
  { destruct (Nat.lt_trichotomy i j) as [H|[->|H]]; [done|assert (r' = r) by congruence; subst; lia|].
    destruct (ro_sorted s Hr j i r' r H Hj Hi). lia. }
  destruct (ro_sorted s Hr i j r r' Hij Hi Hj) as [_ Hnm], (ro_bound s Hr j r' Hj) as [Hm _].
  destruct (reverted_ok s j r' v Hw Hr Hj Hv) as (Hw' & Hr'' & (Fe & Fr & Fn)).
  fold (reverted v j r'). set (s' := reverted v j r') in *. split; [done|done|..].
  - exists i. simpl. rewrite Fr. by rewrite lookup_take_lt.
  - assert (Hsplit : drop (journalIndex r) (entries (journal_ s)) =
      drop (journalIndex r) (take (journalIndex r') (entries (journal_ s))) ++ drop (journalIndex r') (entries (journal_ s))).
    { rewrite <- (take_drop (journalIndex r') (entries (journal_ s))) at 1. rewrite drop_app_le; [done|].
      rewrite length_take. lia. }
    rewrite Hsplit, reverse_app, revert_loop_app, Hv in Hu. cbn [bind] in Hu.
    pose proof (revert_loop_equiv bh (reverse (drop (journalIndex r) (take (journalIndex r') (entries (journal_ s))))) s' v
      ltac:(by split)) as Hp.
    rewrite Hu in Hp. change (entries (journal_ s')) with (take (journalIndex r') (entries (journal_ v))).
    rewrite Fe. destruct (revert_loop _ s') as [w| | |]; try done.
    exists w. split; [done|]. by etrans.
Qed.

(** Reverts inside the run go to later snapshots only. *)
Definition reverts_above (id : Z) (o : op) : Prop :=
  match o with ORevertToSnapshot id' => id < id' | _ => True end.

Lemma recoverable_run bh s0 r ops s s' :
  (bh = true → Forall (λ o, touches_behind o = false) ops) →
  Forall (reverts_above (rev_id r)) ops →
  recoverable bh s0 r s → run ops s = Ok s' → recoverable bh s0 r s'.
Proof.
  intros Hbh Hab. revert s Hbh. induction Hab as [|o ops Ho Hab IH]; intros s Hbh Hrc; cbn [run].
  { by intros [= <-]. }
  destruct (run_op o s) as [s1| | |] eqn:E; try done. cbn [bind]. apply IH.
  { intros H. specialize (Hbh H). by apply Forall_cons in Hbh as [_ ?]. }
  destruct (is_snapshot_op o) eqn:Es.
  - destruct o; try discriminate; cbn [run_op] in E.
    + injection E as <-. by apply recoverable_Snapshot.
    + by eapply recoverable_Revert.
  - eapply recoverable_step; [exact Hrc|]. eapply run_op_step; eauto; [|apply Hrc].
    intros H. specialize (Hbh H). by apply Forall_cons in Hbh as [? _].
Qed.

Lemma recoverable_start bh s : wf s → revs_ok s →
  recoverable bh s {| rev_id := nextRevisionId s; journalIndex := length (entries (journal_ s)) |} (Snapshot s).2.
Proof.
  intros Hw Hr. split.
  - destruct Hw. by split.
  - by apply revs_ok_Snapshot.
  - exists (length (validRevisions s)). simpl. by rewrite lookup_app_r, Nat.sub_diag.
  - exists (Snapshot s).2. simpl. rewrite drop_ge by lia. split; [done|]. by split.
Qed.

Lemma recoverable_reverts bh s0 r s :
  recoverable bh s0 r s → ∃ s', RevertToSnapshot s (rev_id r) = Ok s' ∧ state_equiv bh s' s0 ∧
                                wf s' ∧ revs_ok s'.
Proof.
  intros [Hw Hr [i Hi] (u & Hu & Hq)]. rewrite (RevertToSnapshot_found s i r Hr Hi).
  destruct (reverted_ok s i r u Hw Hr Hi Hu) as (Hw' & Hr' & _).
  unfold journal_revert. rewrite Hu. cbn [bind]. exists (reverted u i r). split; [done|].
  split; [|done]. etrans; [|exact Hq]. by split.
Qed.
End Steps.

Section RevertTheorems.
Context {C : Crypto} {D : Database}.

(** C2: reverting to a snapshot restores the state at the snapshot.  Whatever
    operations ran in between (transfers, staking, points, penalties, storage
    and code writes, account creation and destruction, logs, refunds, and
    nested snapshots that revert to themselves), [RevertToSnapshot] succeeds
    and every account field except the list of pending rewards, all storage
    and code, the logs, preimages and the refund counter are as they were; the
    list of pending rewards too when no operation in between changed such a
    list. *)
Theorem RevertToSnapshot_restores (s s2 : StateDB) (ops : list op)
    (Hk : ∀ b, length (Keccak256 b) = HashLength)
    (Hw : wf s) (Hr : revs_ok s)
    (Hnested : Forall (reverts_above (nextRevisionId s)) ops)
    (Hrun : run ops (Snapshot s).2 = Ok s2) :
  ∃ s3, RevertToSnapshot s2 (Snapshot s).1 = Ok s3 ∧ state_equiv false s3 s ∧
        (Forall (λ o, touches_behind o = false) ops → state_equiv true s3 s).
Proof.
  set (r := {| rev_id := nextRevisionId s; journalIndex := length (entries (journal_ s)) |}).
  pose proof (recoverable_start false s Hw Hr) as Hf.
  pose proof (recoverable_run Hk false s r ops _ s2 ltac:(done) Hnested Hf Hrun) as Hf2.
  destruct (recoverable_reverts false s r s2 Hf2) as (s3 & H3 & Heq & _). exists s3.
  split; [exact H3|]. split; [done|]. intros Hb.
  pose proof (recoverable_start true s Hw Hr) as Ht.
  pose proof (recoverable_run Hk true s r ops _ s2 ltac:(done) Hnested Ht Hrun) as Ht2.
  destruct (recoverable_reverts true s r s2 Ht2) as (s3' & H3' & Heq' & _). congruence.
Qed.

(** The pending rewards are not restored: after a reward is added behind a
    snapshot to an account that has one, the revert leaves the account with
    the new reward in place of the old ones.  [behindChange] remembers the
    added element instead of the previous list. *)
Theorem behind_not_restored (s : StateDB) (a : Address) (o : stateObject) (n x : Z)
    (Hlive : stateObjects s !! a = Some o) (Ha : so_address o = a) (Hd : so_deleted o = false)
    (Hr : revs_ok s) (Hx : x ≠ 0) :
  let s1 := AddBehindBalance (Snapshot s).2 a n x in
  ∃ s2, RevertToSnapshot s1 (Snapshot s).1 = Ok s2 ∧
        (GetBehindBalance s2 a).1 = [{| behind_Number := n; behind_Balance := x |}].
Proof.
  intros s1. set (b := {| behind_Number := n; behind_Balance := x |}).
  set (o' := setBehind o (BehindBalance (so_data o) ++ [b])).
  assert (Hs1 : s1 = setStateObject (append (Snapshot s).2 (behindChange a [b])) o').
  { unfold s1, AddBehindBalance, write, GetOrNewStateObject, getStateObject.
    cbn [Snapshot snd put_validRevisions put_nextRevisionId stateObjects]. rewrite Hlive, Hd.
    unfold so_AddBehindBalance. rewrite (proj2 (Z.eqb_neq x 0) Hx). unfold so_SetBehind. by rewrite Ha. }
  set (r := {| rev_id := nextRevisionId s; journalIndex := length (entries (journal_ s)) |}).
  assert (Hr1 : revs_ok s1).
  { rewrite Hs1. destruct (revs_ok_Snapshot s Hr) as [Hs Hb]. split; [exact Hs|].
    intros j rj Hj. destruct (Hb j rj Hj) as [H1 H2].
    split; [|done]. simpl. rewrite length_app. simpl in H1. lia. }
  assert (Hi : validRevisions s1 !! length (validRevisions s) = Some r).
  { rewrite Hs1. simpl. by rewrite lookup_app_r, Nat.sub_diag. }
  change ((Snapshot s).1) with (rev_id r).
  rewrite (RevertToSnapshot_found s1 _ r Hr1 Hi). unfold journal_revert. rewrite Hs1. simpl.
  rewrite drop_app_length. cbn [reverse rev_append revert_loop revert].
  assert (Hso : so_address o' = a) by done.
  unfold undo_object, getStateObject. cbn [stateObjects setStateObject put_stateObjects append].
  rewrite Hso, lookup_insert_eq. change (so_deleted o') with (so_deleted o). rewrite Hd. cbn [bind].
  eexists. split; [reflexivity|]. unfold GetBehindBalance, read, getStateObject. simpl.
  rewrite Ha, lookup_insert_eq. simpl. by rewrite Hd.
Qed.
End RevertTheorems.

(** ** A database that runs *)

Module ToyState.
#[local] Instance toyCrypto : Crypto := {|
  Keccak256 := fun b => replicate 31 0 ++ [Z.of_nat (length b) mod 256];
  ValidateSignatureValues := fun _ _ _ _ => true;
  Ecrecover := fun _ _ => Err "no key"
|}.

#[local] Instance toyDatabase : Database := {|
  Trie := gmap bytes bytes;
  DB := unit;
  emptyTrie := ∅;
  OpenTrie := fun _ _ => Ok ∅;
  OpenStorageTrie := fun _ _ _ => Ok ∅;
  TryGet := fun t k => Ok (default [] (t !! k));
  TryUpdate := fun t k v => Ok (<[k := v]> t);
  TryDelete := fun t k => Ok (delete k t);
  Trie_Hash := fun _ => zeroHash;
  Trie_Commit := fun d _ => (Ok zeroHash, d);
  ContractCode := fun _ _ _ => (None, None);
  ContractCodeSize := fun _ _ _ => (0, None);
  InsertBlob := fun d _ _ => d
|}.

Definition toy_object (a : Address) (balance : Z) (behind : list Behind) : stateObject :=
  setBehind (setBalance (newObject a noAccount) balance) behind.

Definition toy_state (m : gmap Address stateObject) : StateDB := {|
  db := tt; trie := ∅ : gmap bytes bytes; stateObjects := m; stateObjectsDirty := ∅; dbErr := None;
  refund := 0; thash := zeroHash; bhash := zeroHash; txIndex := 0; logs := ∅; logSize := 0;
  preimages := ∅; journal_ := newJournal; validRevisions := []; nextRevisionId := 0 |}.

Lemma toy_wf a x l : wf (toy_state {[a := toy_object a x l]}).
Proof.
  split; simpl; try done.
  - intros b o. rewrite lookup_singleton_Some. by intros [<- <-].
  - intros b o. rewrite lookup_singleton_Some. by intros [<- <-].
Qed.

Definition toy_ops : list op :=
  [OAddBalance [1] 5; OSetState [1] zeroHash [7]; OSnapshot; OSuicide [1]; OCreateAccount [2];
   ORevertToSnapshot 1; OAddStakeBalance [1] 3 4; OAddRefund 9].

Lemma RevertToSnapshot_witness :
  ∃ s2 s3, run toy_ops (Snapshot (toy_state {[ [1] := toy_object [1] 10 [] ]})).2 = Ok s2 ∧
           RevertToSnapshot s2 0 = Ok s3 ∧
           state_equiv true s3 (toy_state {[ [1] := toy_object [1] 10 [] ]}).
Proof.
  assert (Hok : is_ok (run toy_ops (Snapshot (toy_state {[ [1] := toy_object [1] 10 [] ]})).2) = true)
    by (vm_compute; reflexivity).
  destruct (run toy_ops (Snapshot (toy_state {[ [1] := toy_object [1] 10 [] ]})).2) as [s2| | |] eqn:E;
    [|discriminate Hok..].
  destruct (RevertToSnapshot_restores (toy_state {[ [1] := toy_object [1] 10 [] ]}) s2 toy_ops)
    as (s3 & H3 & _ & Ht).
  - intros b. reflexivity.
  - apply toy_wf.
  - by split.
  - repeat constructor; vm_compute; reflexivity.
  - exact E.
  - exists s2, s3. split; [reflexivity|]. split; [exact H3|]. apply Ht. repeat constructor.
Defined.

Definition old_reward : Behind := {| behind_Number := 1; behind_Balance := 50 |}.

Lemma behind_not_restored_witness :
  let s := toy_state {[ [1] := toy_object [1] 10 [old_reward] ]} in
  (GetBehindBalance s [1]).1 = [old_reward] ∧
  ∃ s2, RevertToSnapshot (AddBehindBalance (Snapshot s).2 [1] 2 60) 0 = Ok s2 ∧
        (GetBehindBalance s2 [1]).1 = [{| behind_Number := 2; behind_Balance := 60 |}].
Proof.
  split; [reflexivity|].
  apply (behind_not_restored (toy_state {[ [1] := toy_object [1] 10 [old_reward] ]}) [1]
           (toy_object [1] 10 [old_reward]) 2 60); [reflexivity|reflexivity|reflexivity|by split|lia].
Defined.
End ToyState.
