(* ===== verification/StateFinalise.v ===== *)
(** * Finalising a transaction

    [Finalise] writes the objects changed by a transaction to the account trie
    and forgets the journal.  With complete tries it persists exactly the dirty
    objects; with an address that was touched in a reverted call and has no
    object it does not return. *)

From Stdlib Require Import ZArith Lia.
From stdpp Require Import base option list gmap sets strings.
From S2P Require Import Prelude Rlp RlpStream Types Account State StateRevert.

(** What the tries promise, on those that satisfy [good]: a finite map of byte
    strings in which the empty value stands for absence, with all nodes in the
    database.  Keys are hashed, so only keys with different hashes are told
    apart. *)
Class TrieLaws {C : Crypto} {D : Database} (good : Trie → Prop) : Prop := {
  update_law t k v : good t → v ≠ [] →
    ∃ t', TryUpdate t k v = Ok t' ∧ good t' ∧ TryGet t' k = Ok v ∧
          ∀ k', Keccak256 k' ≠ Keccak256 k → TryGet t' k' = TryGet t k';
  delete_law t k : good t →
    ∃ t', TryDelete t k = Ok t' ∧ good t' ∧ TryGet t' k = Ok [] ∧
          ∀ k', Keccak256 k' ≠ Keccak256 k → TryGet t' k' = TryGet t k'
}.

Section Finalise.
Context {C : Crypto} {D : Database} {M : MapOrder}.

(** ** Which objects a round removes *)

Definition removed (b : bool) (o : stateObject) : bool := so_suicided o || (b && empty o).

(** The account that is written for an object. *)
Definition written (d : DB) (o : stateObject) : Account := so_data (updateRoot d o).

(** [foldl updateTrie_step] changes storage and trie only. *)
Lemma updateTrie_step_frame o k :
  so_address (updateTrie_step o k) = so_address o ∧ so_data (updateTrie_step o k) = so_data o.
Proof.
  unfold updateTrie_step, so_setError. repeat case_match; done.
Qed.

Lemma getTrie_frame d o :
  so_address (getTrie d o).2 = so_address o ∧ so_data (getTrie d o).2 = so_data o.
Proof. unfold getTrie, so_setError. repeat case_match; done. Qed.

Lemma updateRoot_frame d o : so_address (updateRoot d o) = so_address o ∧
  ∃ t, so_data (updateRoot d o) = with_Root (so_data o) (Trie_Hash t).
Proof.
  unfold updateRoot, updateTrie. pose proof (getTrie_frame d o) as [Ha Hd].
  destruct (getTrie d o) as [t0 o1]. simpl in Ha, Hd. set (l := range _). clearbody l.
  assert (Hf : so_address (foldl updateTrie_step o1 l) = so_address o1 ∧
               so_data (foldl updateTrie_step o1 l) = so_data o1).
  { clear Ha Hd. revert o1. induction l as [|k l IH]; intros o1; [done|]. simpl.
    destruct (IH (updateTrie_step o1 k)), (updateTrie_step_frame o1 k). split; congruence. }
  destruct Hf as [Hfa Hfd]. split; [simpl; congruence|]. eexists. simpl. by rewrite Hfd, Hd.
Qed.

(** ** The trie after a round *)

Section Persist.
Context (good : Trie → Prop) {L : TrieLaws good}.

Definition persisted (b : bool) (d : DB) (t : Trie) (a : Address) (o : stateObject) : Prop :=
  if removed b o then TryGet t a = Ok []
  else ∃ enc, TryGet t a = Ok enc ∧ decodeAccount enc = Ok (written d o).

(** An object that can be written: it is removed, or the account to write is
    well-formed and its encoding has a 64-bit length. *)
Definition writable (b : bool) (d : DB) (o : stateObject) : Prop :=
  removed b o = true ∨
  (wf_account (written d o) ∧ Z.of_nat (length (account_enc (written d o))) < two64).

Lemma account_enc_nonempty a : account_enc a ≠ [].
Proof.
  unfold account_enc. pose proof (header_pos KList (Z.of_nat (length (account_body a))) 0) as Hp.
  cbn [header] in Hp. intros E. apply (f_equal length) in E. rewrite length_app in E. simpl in E. lia.
Qed.

Lemma Finalise_step_ok b s a o :
  stateObjects s !! a = Some o → so_address o = a → writable b (db s) o → good (trie s) →
  ∃ s', Finalise_step b s a = Ok s' ∧ db s' = db s ∧ good (trie s') ∧ persisted b (db s) (trie s') a o ∧
    (∀ a', a' ≠ a → stateObjects s' !! a' = stateObjects s !! a') ∧
    (∀ a', Keccak256 a' ≠ Keccak256 a → TryGet (trie s') a' = TryGet (trie s) a').
Proof.
  intros Ho Ha Hwr Hg. unfold Finalise_step, persisted. rewrite Ho. fold (removed b o).
  destruct (removed b o) eqn:Er.
  - unfold deleteStateObject. cbn [trie setStateObject put_stateObjects].
    destruct (delete_law (trie s) (so_address o) Hg) as (t' & Ht & Hg' & Hget & Hother). rewrite Ht. cbn [bind].
    eexists. split; [reflexivity|]. simpl. rewrite Ha in *. split_and!; [done..| |done].
    intros a' Hne. by rewrite lookup_insert_ne.
  - destruct Hwr as [|[Hw Hlen]]; [congruence|].
    destruct (updateRoot_frame (db s) o) as [Hua _].
    unfold updateStateObject. change (so_data (updateRoot (db s) o)) with (written (db s) o).
    rewrite (encodeAccount_enc _ Hw).
    cbn [trie setStateObject put_stateObjects]. rewrite Hua, Ha.
    destruct (update_law (trie s) a (account_enc (written (db s) o)) Hg (account_enc_nonempty _))
      as (t' & Ht & Hg' & Hget & Hother).
    rewrite Ht. cbn [bind]. eexists. split; [reflexivity|]. simpl. split_and!; [done|done| | |done].
    + exists (account_enc (written (db s) o)). split; [done|].
      destruct (Account_decode (written (db s) o) Hw) as [_ Hdec]. by apply Hdec.
    + intros a' Hne. rewrite Hua, Ha. by rewrite lookup_insert_ne.
Qed.

Lemma Finalise_loop_ok b l s :
  NoDup l → (∀ a a', a ∈ l → a' ∈ l → Keccak256 a = Keccak256 a' → a = a') → good (trie s) →
  (∀ a, a ∈ l → ∃ o, stateObjects s !! a = Some o ∧ so_address o = a ∧ writable b (db s) o) →
  ∃ s', Finalise_loop b l s = Ok s' ∧ db s' = db s ∧ good (trie s') ∧
    (∀ a o, a ∈ l → stateObjects s !! a = Some o → persisted b (db s) (trie s') a o) ∧
    (∀ a, (∀ a', a' ∈ l → Keccak256 a ≠ Keccak256 a') → TryGet (trie s') a = TryGet (trie s) a).
Proof.
  revert s. induction l as [|a l IH]; intros s Hnd Hinj Hg Hall; cbn [Finalise_loop].
  { exists s. split_and!; [done|done|done|set_solver|done]. }
  apply NoDup_cons in Hnd as [Hnin Hnd].
  destruct (Hall a ltac:(set_solver)) as (o & Ho & Ha & Hwr).
  destruct (Finalise_step_ok b s a o Ho Ha Hwr Hg) as (s1 & -> & Hdb & Hg1 & Hp & Hobj & Hother). cbn [bind].
  destruct (IH s1 Hnd) as (s2 & -> & Hdb2 & Hg2 & Hp2 & Ho2).
  { intros a1 a2 H1 H2. apply Hinj; set_solver. }
  { done. }
  { intros a' Hin. assert (a' ≠ a) by set_solver. rewrite Hobj by done. rewrite Hdb. apply Hall. set_solver. }
  exists s2. split_and!; [done|congruence|done| |].
  - intros a' o' Hin Ho'. rewrite Hdb in Hp2. apply elem_of_cons in Hin as [->|Hin].
    + assert (o' = o) as -> by congruence. unfold persisted in *. rewrite Ho2; [done|].
      intros a' Hin E. apply Hinj in E; [by subst|set_solver..].
    + assert (a' ≠ a) by set_solver. apply Hp2; [done|]. by rewrite Hobj.
  - intros a' Hne. rewrite Ho2; [apply Hother|]; set_solver.
Qed.

(** [Finalise] over a good trie persists the transaction when the hashes of
    the dirty addresses differ: it returns, every dirty object is in the trie
    with the account data it had (and its new storage root), or is absent from
    the trie when it was destroyed or is an empty account to be deleted; no
    address with another hash changes; the trie stays good; the journal, the
    snapshots and the refund counter are cleared. *)
Theorem Finalise_persists b s
    (Hw : wf s) (Hg : good (trie s))
    (Hinj : ∀ a a', a ∈ dom (dirties (journal_ s)) → a' ∈ dom (dirties (journal_ s)) →
                    Keccak256 a = Keccak256 a' → a = a')
    (Hdirty : ∀ a, a ∈ dom (dirties (journal_ s)) →
                   ∃ o, stateObjects s !! a = Some o ∧ writable b (db s) o) :
  ∃ s', Finalise s b = Ok s' ∧ good (trie s') ∧
    (∀ a o, a ∈ dom (dirties (journal_ s)) → stateObjects s !! a = Some o →
            persisted b (db s) (trie s') a o) ∧
    (∀ a, (∀ a', a' ∈ dom (dirties (journal_ s)) → Keccak256 a ≠ Keccak256 a') →
          TryGet (trie s') a = TryGet (trie s) a) ∧
    journal_ s' = newJournal ∧ validRevisions s' = [] ∧ refund s' = 0.
Proof.
  unfold Finalise. set (l := range (dom (dirties (journal_ s)))).
  assert (Hl : ∀ a, a ∈ l ↔ a ∈ dom (dirties (journal_ s))).
  { intros a. unfold l. by rewrite range_perm, elem_of_elements. }
  assert (Hnd : NoDup l) by (unfold l; rewrite range_perm; apply NoDup_elements).
  destruct (Finalise_loop_ok b l s Hnd) as (s' & -> & _ & Hg' & Hp & Ho).
  { intros a a'. rewrite !Hl. apply Hinj. }
  { done. }
  { intros a Ha. destruct (Hdirty a) as (o & Hoa & Hwr); [by apply Hl|]. exists o.
    split; [done|]. split; [by eapply wf_address|done]. }
  cbn [bind]. eexists. split; [reflexivity|]. simpl. split_and!; [done| | |done..].
  - intros a o Ha Hoa. apply Hp; [by apply Hl|done].
  - intros a Ha. apply Ho. intros a'. rewrite Hl. apply Ha.
Qed.
End Persist.

(** ** The touched precompile *)

Definition addressed (s : StateDB) : Prop :=
  ∀ a o, stateObjects s !! a = Some o → so_address o = a.

Lemma Finalise_step_absent b s a a' :
  addressed s → stateObjects s !! a = None → a' ≠ a →
  match Finalise_step b s a' with
  | Ok s' => stateObjects s' !! a = None ∧ addressed s'
  | Panic _ => True
  | _ => False
  end.
Proof.
  intros Hw Hn Hne. unfold Finalise_step. destruct (stateObjects s !! a') as [o|] eqn:Eo; [|done].
  pose proof (Hw a' o Eo) as Ha. destruct (updateRoot_frame (db s) o) as [Hua _].
  assert (Hadd : ∀ o', so_address o' = a' →
    addressed (setStateObject s o') ∧ stateObjects (setStateObject s o') !! a = None).
  { intros o' Ho'. split.
    - intros x y. simpl. rewrite lookup_insert_Some. intros [[<- <-]|[_ H]]; [done|by apply Hw].
    - simpl. rewrite Ho'. by rewrite lookup_insert_ne. }
  destruct (so_suicided o || _).
  - destruct (Hadd (set_deleted o true) Ha) as [H1 H2]. unfold deleteStateObject, setError.
    destruct (TryDelete _ _); [by split|..]; (destruct (dbErr _); by split).
  - destruct (Hadd (updateRoot (db s) o) (eq_trans Hua Ha)) as [H1 H2]. unfold updateStateObject.
    destruct (encodeAccount _); [|exact I..]. unfold setError.
    destruct (TryUpdate _ _ _); [by split|..]; (destruct (dbErr _); by split).
Qed.

Lemma Finalise_loop_panics b l s a :
  addressed s → stateObjects s !! a = None → a ∈ l → ∃ w, Finalise_loop b l s = Panic w.
Proof.
  revert s. induction l as [|a' l IH]; intros s Hw Hn Hin; [set_solver|]. cbn [Finalise_loop].
  destruct (decide (a' = a)) as [->|Hne].
  { unfold Finalise_step. rewrite Hn. cbn [bind]. eauto. }
  pose proof (Finalise_step_absent b s a a' Hw Hn Hne) as Hs.
  destruct (Finalise_step b s a') as [s'| | |]; try done; cbn [bind]; [|eauto].
  destruct Hs as [Hn' Hw']. apply IH; [done|done|set_solver].
Qed.

(** A call that sends nothing to the RIPEMD precompile while it has no
    account, and is then reverted, makes [Finalise] panic: the address stays in
    the dirty set without an object, and its balance is read for the log
    before the test that skips it. *)
Theorem Finalise_panics_on_reverted_touch b s
    (Hw : wf s) (Hr : revs_ok s)
    (Hno : stateObjects s !! ripemd = None) (Hget : TryGet (trie s) ripemd = Ok [])
    (Hclean : dirties (journal_ s) !! ripemd = None) :
  let s1 := AddBalance (Snapshot s).2 ripemd 0 in
  ∃ s2, RevertToSnapshot s1 (Snapshot s).1 = Ok s2 ∧ ∃ w, Finalise s2 b = Panic w.
Proof.
  intros s1. set (o := setNonce (newObject ripemd noAccount) 0).
  set (j0 := journal_append (journal_append (journal_ s) (createObjectChange ripemd)) (touchChange ripemd)).
  assert (Hs1 : s1 = put_journal (setStateObject (Snapshot s).2 o) (journal_dirty j0 ripemd)).
  { assert (Hg : getStateObject (Snapshot s).2 ripemd = (None, (Snapshot s).2)).
    { unfold getStateObject. simpl. by rewrite Hno, Hget. }
    unfold s1, AddBalance, write, GetOrNewStateObject. rewrite Hg. unfold createObject. rewrite Hg.
    unfold so_AddBalance, empty, touch. cbn [Z.eqb]. fold o.
    rewrite !(bool_decide_eq_true_2 (CodeHash _ = _)) by done. cbn [andb].
    by rewrite bool_decide_eq_true_2. }
  set (r := {| rev_id := nextRevisionId s; journalIndex := length (entries (journal_ s)) |}).
  assert (He : entries (journal_ s1) = entries (journal_ s) ++ [createObjectChange ripemd; touchChange ripemd]).
  { rewrite Hs1. simpl. by rewrite <- app_assoc. }
  assert (Hr1 : revs_ok s1).
  { destruct (revs_ok_Snapshot s Hr) as [Hs Hb]. split; rewrite ?He, Hs1; [exact Hs|].
    intros j rj Hj. destruct (Hb j rj Hj) as [H1 H2]. split; [|done]. rewrite length_app. simpl in H1. lia. }
  assert (Hi : validRevisions s1 !! length (validRevisions s) = Some r).
  { rewrite Hs1. simpl. by rewrite lookup_app_r, Nat.sub_diag. }
  change ((Snapshot s).1) with (rev_id r).
  rewrite (RevertToSnapshot_found s1 _ r Hr1 Hi). unfold journal_revert. rewrite He. cbn [r journalIndex].
  rewrite drop_app_length. cbn [reverse rev_append revert_loop revert bind].
  eexists. split; [reflexivity|]. unfold Finalise. set (s2 := put_validRevisions _ _).
  assert (Hd : dirties (journal_ s2) !! ripemd = Some 1).
  { unfold s2, undirty. rewrite Hs1. simpl. rewrite !lookup_insert_eq, Hclean. simpl.
    rewrite !lookup_insert_eq. simpl. by rewrite lookup_insert_eq. }
  assert (Hn2 : stateObjects s2 !! ripemd = None).
  { unfold s2, undirty. rewrite Hs1. simpl. rewrite delete_insert_eq. by rewrite lookup_delete_eq. }
  assert (Ha2 : addressed s2).
  { intros a o'. unfold s2, undirty. rewrite Hs1. simpl. rewrite delete_insert_eq, lookup_delete_Some.
    intros [_ H]. by eapply wf_address. }
  destruct (Finalise_loop_panics b (range (dom (dirties (journal_ s2)))) s2 ripemd Ha2 Hn2) as [w ->].
  { rewrite range_perm, elem_of_elements, elem_of_dom. by exists 1. }
  by exists w.
Qed.
End Finalise.

Module ToyFinalise.
Import ToyState.
#[local] Existing Instance toyDatabase.
#[local] Instance longCrypto : Crypto := {|
  Keccak256 b := set_bytes 32 b;
  ValidateSignatureValues _ _ _ _ := true;
  Ecrecover _ _ := Err "no key"
|}.
#[local] Instance toyRange : MapOrder := {| range := elements; range_perm s := reflexivity _ |}.

#[local] Instance toyTrieLaws : TrieLaws (λ _, True).
Proof.
  split; simpl; intros t k; [intros v _ Hv|intros _]; eexists; (split; [done|]); (split; [done|]).
  - split; [by rewrite lookup_insert_eq|]. intros k' Hne. rewrite lookup_insert_ne by (by intros ->). done.
  - split; [by rewrite lookup_delete_eq|]. intros k' Hne. rewrite lookup_delete_ne by (by intros ->). done.
Qed.

Definition paid_state : StateDB := AddBalance (toy_state ∅) [1] 10.

Lemma Finalise_persists_witness :
  ∃ s', Finalise paid_state true = Ok s' ∧ refund s' = 0 ∧
        (∀ a, set_bytes 32 a ≠ set_bytes 32 [1] → TryGet (trie s') a = Ok []).
Proof.
  assert (Hdom : ∀ a, a ∈ dom (dirties (journal_ paid_state)) → a = [1]).
  { intros a Ha. change (dom (dirties (journal_ paid_state))) with (dom ({[ [1] := 2 ]} : gmap Address Z)) in Ha.
    rewrite dom_singleton_L in Ha. by apply elem_of_singleton in Ha. }
  destruct (Finalise_persists (λ _, True) true paid_state) as (s' & Hf & _ & _ & Hother & _ & _ & Hr).
  - assert (Hk : ∀ b, length (@Keccak256 longCrypto b) = HashLength) by (intros b; apply set_bytes_length).
    apply (write_step Hk true); [apply so_AddBalance_step|]. split; try done.
  - done.
  - by intros a a' ->%Hdom ->%Hdom.
  - intros a ->%Hdom. exists (setBalance (setNonce (newObject [1] noAccount) 0) 10).
    split; [reflexivity|]. right. split; [|vm_compute; reflexivity].
    split; simpl; try (unfold is_u64; word); try lia; try done.
    + split; [reflexivity|]. repeat constructor; vm_compute; congruence.
    + change (wf_bytes (CodeHash (so_data (newObject [1] noAccount)))). repeat constructor; vm_compute; congruence.
  - exists s'. split; [exact Hf|]. split; [exact Hr|]. intros a Ha. rewrite Hother; [reflexivity|].
    by intros a' ->%Hdom.
Defined.

Lemma Finalise_panics_witness :
  ∃ s2, RevertToSnapshot (AddBalance (Snapshot (toy_state ∅)).2 ripemd 0) 0 = Ok s2 ∧
        ∃ w, Finalise s2 true = Panic w.
Proof.
  apply (Finalise_panics_on_reverted_touch true (toy_state ∅)); try reflexivity.
  - split; try done.
  - by split.
Defined.
End ToyFinalise.
