(* ===== verification/Trie.v ===== *)
(** * Merkle Patricia trie ([trie])

    Key encodings ([encoding.go]), nodes with their decoding ([node.go]), the
    operations of the trie ([trie.go]), hashing and committing ([hasher.go]) and
    the part of [database.go] that stores and finds nodes.

    The nil node is a constructor.  Nodes that have not been loaded are hash
    nodes; the operations load them from the database.  What the source passes
    along to report the path of a missing node is left out. *)

From Stdlib Require Import ZArith Lia.
From stdpp Require Import base option list gmap strings.
From S2P Require Import Prelude GoFloat Params Rlp Types.

(** ** Key encodings ([encoding.go]) *)

Definition out_of_range : string := "index out of range".

Definition keybytesToHex (str : bytes) : bytes := concat ((λ b, [b / 16; b mod 16]) <$> str) ++ [16].

Definition hasTerm (s : bytes) : bool := bool_decide (last s = Some 16).

Fixpoint decodeNibbles (nibbles : bytes) : result bytes :=
  match nibbles with
  | [] => Ok []
  | [_] => Panic out_of_range
  | x :: y :: nibbles =>
      let* b := decodeNibbles nibbles in
      Ok (Z.lor (Z.shiftl x 4 mod 256) y :: b)
  end.

Definition hexToCompact (hex : bytes) : result bytes :=
  let terminator := if hasTerm hex then 1 else 0 in
  let hex := if hasTerm hex then take (length hex - 1) hex else hex in
  let flag := Z.shiftl terminator 5 in
  match Nat.odd (length hex), hex with
  | true, x :: hex => let* b := decodeNibbles hex in Ok (Z.lor (Z.lor flag 16) x :: b)
  | _, _ => let* b := decodeNibbles hex in Ok (flag :: b)
  end.

Definition compactToHex (compact : bytes) : result bytes :=
  let base := keybytesToHex compact in
  match base with
  | [] => Panic out_of_range
  | x :: _ =>
      let base := if x <? 2 then take (length base - 1) base else base in
      let chop := Z.to_nat (2 - Z.land x 1) in
      if (chop <=? length base)%nat then Ok (drop chop base) else Panic "slice bounds out of range"
  end.

Definition hexToKeybytes (hex : bytes) : result bytes :=
  let hex := if hasTerm hex then take (length hex - 1) hex else hex in
  if Nat.odd (length hex) then Panic "can't convert hex key of odd length" else decodeNibbles hex.

Fixpoint prefixLen (a b : bytes) : nat :=
  match a, b with
  | x :: a, y :: b => if x =? y then S (prefixLen a b) else O
  | _, _ => O
  end.

(** ** Nodes ([node.go]) *)

Record nodeFlag := {
  flag_hash : option bytes;
  flag_gen : Z;
  flag_dirty : bool
}.

Inductive node :=
| Nil
| Full (children : list node) (flags : nodeFlag)
| Short (key : bytes) (val : node) (flags : nodeFlag)
| HashNode (h : bytes)
| ValueNode (v : bytes).

Definition canUnload_flag (f : nodeFlag) (cachegen cachelimit : Z) : bool :=
  negb (flag_dirty f) && (cachelimit <=? (cachegen - flag_gen f) mod 2 ^ 16).

Definition canUnload (n : node) (gen limit : Z) : bool :=
  match n with
  | Full _ f | Short _ _ f => canUnload_flag f gen limit
  | _ => false
  end.

Definition cache (n : node) : option bytes * bool :=
  match n with
  | Full _ f | Short _ _ f => (flag_hash f, flag_dirty f)
  | _ => (None, true)
  end.

(** What [rlp.Encode] writes for a collapsed node: exported fields of a short
    node, the 17 children of a full node with the empty string for nil. *)
Fixpoint node_item (n : node) : item :=
  match n with
  | Nil => RStr []
  | Full cs _ => RList (node_item <$> cs)
  | Short k v _ => RList [RStr k; node_item v]
  | HashNode h => RStr h
  | ValueNode v => RStr v
  end.

Definition stored_flag (hash : option bytes) (gen : Z) : nodeFlag :=
  {| flag_hash := hash; flag_gen := gen; flag_dirty := false |}.

Section Decode.
Context (decode : bytes → result node).

Definition hashLen : Z := 32.

Definition decodeRef (buf : bytes) : result (node * bytes) :=
  let* (kind, val, rest) := Split buf in
  match kind with
  | KList =>
      if hashLen <? Z.of_nat (length buf) - Z.of_nat (length rest) then Err "oversized embedded node"
      else let* n := decode buf in Ok (n, rest)
  | _ =>
      match kind, length val with
      | KString, O => Ok (Nil, rest)
      | KString, 32%nat => Ok (HashNode val, rest)
      | _, _ => Err "invalid RLP string size"
      end
  end.

Definition decodeShort (hash : option bytes) (elems : bytes) (gen : Z) : result node :=
  let* (kbuf, rest) := SplitString elems in
  let* key := compactToHex kbuf in
  if hasTerm key then
    let* (val, _) := SplitString rest in Ok (Short key (ValueNode val) (stored_flag hash gen))
  else
    let* (r, _) := decodeRef rest in Ok (Short key r (stored_flag hash gen)).

Fixpoint decode_children (n : nat) (elems : bytes) : result (list node * bytes) :=
  match n with
  | O => Ok ([], elems)
  | S n =>
      let* (cld, rest) := decodeRef elems in
      let* (l, rest) := decode_children n rest in
      Ok (cld :: l, rest)
  end.

Definition decodeFull (hash : option bytes) (elems : bytes) (gen : Z) : result node :=
  let* (l, rest) := decode_children 16 elems in
  let* (val, _) := SplitString rest in
  Ok (Full (l ++ [match val with [] => Nil | _ => ValueNode val end]) (stored_flag hash gen)).
End Decode.

(** Embedded nodes are shorter than the buffer they are in, so its length is
    enough fuel. *)
Fixpoint decodeNode_fuel (fuel : nat) (hash : option bytes) (buf : bytes) (gen : Z) : result node :=
  match fuel with
  | O => Hang
  | S fuel =>
      match buf with
      | [] => Err "unexpected EOF"
      | _ :: _ =>
          let* (elems, _) := SplitList buf in
          let decode b := decodeNode_fuel fuel None b gen in
          match CountValues elems with
          | Ok 2 => decodeShort decode hash elems gen
          | Ok 17 => decodeFull decode hash elems gen
          | _ => Err "invalid number of list elements"
          end
      end
  end.

Definition decodeNode (hash : option bytes) (buf : bytes) (gen : Z) : result node :=
  decodeNode_fuel (S (length buf)) hash buf gen.

Definition mustDecodeNode (hash : option bytes) (buf : bytes) (gen : Z) : result node :=
  match decodeNode hash buf gen with
  | Err e => Panic e
  | r => r
  end.

(** ** The node store ([database.go]) *)

Definition no_flag : nodeFlag := {| flag_hash := None; flag_gen := 0; flag_dirty := false |}.

(** Raw nodes are nodes without flags. *)
Fixpoint simplifyNode (n : node) : node :=
  match n with
  | Full cs _ => Full (simplifyNode <$> cs) no_flag
  | Short k v _ => Short k (simplifyNode v) no_flag
  | n => n
  end.

Fixpoint expandNode (hash : option bytes) (n : node) (gen : Z) : result node :=
  match n with
  | Full cs _ =>
      let* cs := (fix all (l : list node) : result (list node) :=
                    match l with
                    | [] => Ok []
                    | c :: l => let* c := expandNode None c gen in let* l := all l in Ok (c :: l)
                    end) cs in
      Ok (Full cs (stored_flag hash gen))
  | Short k v _ =>
      let* k := compactToHex k in
      let* v := expandNode None v gen in
      Ok (Short k v (stored_flag hash gen))
  | n => Ok n
  end.

(** A collapsed node, or encoded data such as contract code. *)
Inductive cachedNode :=
| Collapsed (n : node)
| RawNode (b : bytes).

Definition cached_rlp (c : cachedNode) : bytes :=
  match c with RawNode b => b | Collapsed n => rlp_encode (node_item n) end.

Definition cached_obj (c : cachedNode) (hash : Hash) (gen : Z) : result node :=
  match c with
  | RawNode b => mustDecodeNode (Some hash) b gen
  | Collapsed n => expandNode (Some hash) n gen
  end.

(** Nodes waiting to be written, and what is on disk.  The cache of clean nodes
    holds copies of the latter.  The entry under the zero hash, which counts
    references only, is left out. *)
Record TrieDB := {
  dirties : gmap Hash cachedNode;
  diskdb : gmap bytes bytes;
  preimages : gmap Hash bytes
}.

Definition db_node (db : TrieDB) (hash : Hash) (gen : Z) : result node :=
  match dirties db !! hash with
  | Some c => cached_obj c hash gen
  | None =>
      match diskdb db !! hash with
      | None => Ok Nil
      | Some enc => mustDecodeNode (Some hash) enc gen
      end
  end.

(** [Node]: the encoding. *)
Definition db_Node (db : TrieDB) (hash : Hash) : option bytes :=
  match dirties db !! hash with
  | Some c => Some (cached_rlp c)
  | None => diskdb db !! hash
  end.

Definition db_insert (db : TrieDB) (hash : Hash) (c : cachedNode) : TrieDB :=
  match dirties db !! hash with
  | Some _ => db
  | None => {| dirties := <[hash := c]> (dirties db); diskdb := diskdb db; preimages := preimages db |}
  end.

Definition db_InsertBlob (db : TrieDB) (hash : Hash) (blob : bytes) : TrieDB := db_insert db hash (RawNode blob).

Definition db_insertPreimage (db : TrieDB) (hash : Hash) (preimage : bytes) : TrieDB :=
  match preimages db !! hash with
  | Some _ => db
  | None => {| dirties := dirties db; diskdb := diskdb db; preimages := <[hash := preimage]> (preimages db) |}
  end.

(** [secure-key-] and the hash. *)
Definition secureKey (key : bytes) : bytes := [115; 101; 99; 117; 114; 101; 45; 107; 101; 121; 45] ++ key.

Definition db_preimage (db : TrieDB) (hash : Hash) : option bytes :=
  match preimages db !! hash with
  | Some p => Some p
  | None => diskdb db !! secureKey hash
  end.

(** ** The trie ([trie.go]) *)

Record Trie := {
  root : node;
  cachegen : Z;
  cachelimit : Z
}.

Definition put_root (t : Trie) (n : node) : Trie :=
  {| root := n; cachegen := cachegen t; cachelimit := cachelimit t |}.

Section Operations.
Context (db : TrieDB) (gen : Z).

Definition newFlag : nodeFlag := {| flag_hash := None; flag_gen := gen; flag_dirty := true |}.
Definition with_gen (f : nodeFlag) : nodeFlag :=
  {| flag_hash := flag_hash f; flag_gen := gen; flag_dirty := flag_dirty f |}.

Definition errMissingNode : string := "missing trie node".

Definition resolveHash (h : bytes) : result node :=
  let* n := db_node db (set_bytes HashLength h) gen in
  match n with Nil => Err errMissingNode | n => Ok n end.

Definition resolve (n : node) : result node :=
  match n with HashNode h => resolveHash h | n => Ok n end.

(** [n.Children[i]]. *)
Definition child (cs : list node) (i : Z) : result node :=
  match cs !! Z.to_nat i with Some c => Ok c | None => Panic out_of_range end.

Definition invalid_node : string := "invalid node".

(** The value, the node with everything on the way loaded, and whether
    something was loaded.  [key] is what is left of the key. *)
Fixpoint tryGet (fuel : nat) (n : node) (key : bytes) : result (option bytes * node * bool) :=
  match fuel with
  | O => Hang
  | S fuel =>
      match n with
      | Nil => Ok (None, Nil, false)
      | ValueNode v => Ok (Some v, n, false)
      | Short k v f =>
          if bool_decide (take (length k) key = k) then
            let* (value, nn, didResolve) := tryGet fuel v (drop (length k) key) in
            Ok (value, if (didResolve : bool) then Short k nn (with_gen f) else n, didResolve)
          else Ok (None, n, false)
      | Full cs f =>
          match key with
          | [] => Panic out_of_range
          | x :: key =>
              let* c := child cs x in
              let* (value, nn, didResolve) := tryGet fuel c key in
              Ok (value, if (didResolve : bool) then Full (<[Z.to_nat x := nn]> cs) (with_gen f) else n, didResolve)
          end
      | HashNode h =>
          let* c := resolveHash h in
          let* (value, nn, _) := tryGet fuel c key in
          Ok (value, nn, true)
      end
  end.

(** Inserting below the nil node. *)
Definition insert_nil (key : bytes) (value : node) : node :=
  match key with [] => value | _ => Short key value newFlag end.

(** Branching out where the keys differ. *)
Definition branch_out (k : bytes) (v : node) (key : bytes) (value : node) (matchlen : nat) : result node :=
  match drop matchlen k, drop matchlen key with
  | x :: k', y :: key' =>
      let cs := <[Z.to_nat y := insert_nil key' value]> (<[Z.to_nat x := insert_nil k' v]> (replicate 17 Nil)) in
      if (x <? 17) && (y <? 17) then
        let branch := Full cs newFlag in
        Ok (match matchlen with O => branch | _ => Short (take matchlen key) branch newFlag end)
      else Panic out_of_range
  | _, _ => Panic out_of_range
  end.

Fixpoint insert (fuel : nat) (n : node) (key : bytes) (value : node) : result (bool * node) :=
  match fuel with
  | O => Hang
  | S fuel =>
      match key with
      | [] =>
          match n, value with
          | ValueNode v, ValueNode v' => Ok (negb (bool_decide (v = v')), value)
          | ValueNode _, _ => Panic "interface conversion"
          | _, _ => Ok (true, value)
          end
      | x :: key' =>
          match n with
          | Short k v f =>
              let matchlen := prefixLen key k in
              if (matchlen =? length k)%nat then
                let* (dirty, nn) := insert fuel v (drop matchlen key) value in
                Ok (if (dirty : bool) then (true, Short k nn newFlag) else (false, n))
              else let* b := branch_out k v key value matchlen in Ok (true, b)
          | Full cs f =>
              let* c := child cs x in
              let* (dirty, nn) := insert fuel c key' value in
              Ok (if (dirty : bool) then (true, Full (<[Z.to_nat x := nn]> cs) newFlag) else (false, n))
          | Nil => Ok (true, Short key value newFlag)
          | HashNode h =>
              let* rn := resolveHash h in
              let* (dirty, nn) := insert fuel rn key value in
              Ok (if (dirty : bool) then (true, nn) else (false, rn))
          | ValueNode _ => Panic invalid_node
          end
      end
  end.

(** The only child of a full node that is not nil, when there is only one. *)
Fixpoint single_child (i : nat) (cs : list node) (pos : option nat) : option nat :=
  match cs with
  | [] => pos
  | Nil :: cs => single_child (S i) cs pos
  | _ :: cs => match pos with None => single_child (S i) cs (Some i) | Some _ => None end
  end.

(** A full node with one child left becomes a short node. *)
Definition reduce_full (cs : list node) : result node :=
  match single_child 0 cs None with
  | None => Ok (Full cs newFlag)
  | Some pos =>
      let* c := child cs (Z.of_nat pos) in
      if negb (pos =? 16)%nat then
        let* cnode := resolve c in
        match cnode with
        | Short k v _ => Ok (Short (Z.of_nat pos :: k) v newFlag)
        | _ => Ok (Short [Z.of_nat pos] c newFlag)
        end
      else Ok (Short [Z.of_nat pos] c newFlag)
  end.

Fixpoint delete (fuel : nat) (n : node) (key : bytes) : result (bool * node) :=
  match fuel with
  | O => Hang
  | S fuel =>
      match n with
      | Short k v f =>
          let matchlen := prefixLen key k in
          if (matchlen <? length k)%nat then Ok (false, n)
          else if (matchlen =? length key)%nat then Ok (true, Nil)
          else
            let* (dirty, c) := delete fuel v (drop (length k) key) in
            Ok (if (dirty : bool)
                then (true, match c with
                            | Short k' v' _ => Short (k ++ k') v' newFlag
                            | _ => Short k c newFlag
                            end)
                else (false, n))
      | Full cs f =>
          match key with
          | [] => Panic out_of_range
          | x :: key =>
              let* c := child cs x in
              let* (dirty, nn) := delete fuel c key in
              if (dirty : bool) then let* r := reduce_full (<[Z.to_nat x := nn]> cs) in Ok (true, r)
              else Ok (false, n)
          end
      | ValueNode _ => Ok (true, Nil)
      | Nil => Ok (false, Nil)
      | HashNode h =>
          let* rn := resolveHash h in
          let* (dirty, nn) := delete fuel rn key in
          Ok (if (dirty : bool) then (true, nn) else (false, rn))
      end
  end.
End Operations.

(** A short or full node takes at least one nibble, and below a hash node is
    one of them: twice the length of the key bounds the depth. *)
Definition depth (key : bytes) : nat := S (S (2 * length key)).

Definition TryGet (db : TrieDB) (t : Trie) (key : bytes) : result (option bytes * Trie) :=
  let k := keybytesToHex key in
  let* (value, newroot, didResolve) := tryGet db (cachegen t) (depth k) (root t) k in
  Ok (value, if (didResolve : bool) then put_root t newroot else t).

Definition TryUpdate (db : TrieDB) (t : Trie) (key value : bytes) : result Trie :=
  let k := keybytesToHex key in
  match value with
  | _ :: _ =>
      let* (_, n) := insert db (cachegen t) (depth k) (root t) k (ValueNode value) in Ok (put_root t n)
  | [] => let* (_, n) := delete db (cachegen t) (depth k) (root t) k in Ok (put_root t n)
  end.

Definition TryDelete (db : TrieDB) (t : Trie) (key : bytes) : result Trie :=
  let k := keybytesToHex key in
  let* (_, n) := delete db (cachegen t) (depth k) (root t) k in Ok (put_root t n).

(** ** Hashing and committing ([hasher.go]) *)

Section Hasher.
Context {C : Crypto} (gen limit : Z).

(** Nodes shorter than a hash stay inside their parent; the hash of the others
    replaces them, and they go to the database if there is one. *)
Definition store (n : node) (db : option TrieDB) (force : bool) : node * option TrieDB :=
  match n with
  | HashNode _ | Nil => (n, db)
  | _ =>
      let blob := rlp_encode (node_item n) in
      if (length blob <? 32)%nat && negb force then (n, db)
      else
        let h := match (cache n).1 with Some h => h | None => Keccak256 blob end in
        (HashNode h, (λ d, db_insert d (set_bytes HashLength h) (Collapsed (simplifyNode n))) <$> db)
  end.

(** The flags of the node that replaces the original. *)
Definition with_hash (n hashed : node) (commit : bool) : node :=
  let flags f := {| flag_hash := match hashed with HashNode h => Some h | _ => None end;
                    flag_gen := flag_gen f; flag_dirty := if commit then false else flag_dirty f |} in
  match n with
  | Short k v f => Short k v (flags f)
  | Full cs f => Full cs (flags f)
  | n => n
  end.

Definition is_some {A} (o : option A) : bool := match o with Some _ => true | None => false end.

(** The first sixteen children of a full node. *)
Definition hash_children (hash : node → option TrieDB → result (node * node * option TrieDB)) :=
  fix all (k : nat) (cs : list node) (db : option TrieDB) : result (list node * list node * option TrieDB) :=
    match k, cs with
    | S k, c :: cs =>
        let* (hc, cc, db) := match c with Nil => Ok (Nil, Nil, db) | _ => hash c db end in
        let* (hs, ccs, db) := all k cs db in
        Ok (hc :: hs, cc :: ccs, db)
    | _, _ => Ok (cs, cs, db)
    end.

(** The collapsed node (its hash, or itself when it is short), the node with
    its hash cached, and the database. *)
Fixpoint hash (force : bool) (n : node) (db : option TrieDB) : result (node * node * option TrieDB) :=
  let cached_hash :=
    match cache n with
    | (Some h, dirty) =>
        if negb (is_some db) then Some (HashNode h, n, db)
        else if canUnload n gen limit then Some (HashNode h, HashNode h, db)
        else if negb dirty then Some (HashNode h, n, db)
        else None
    | (None, _) => None
    end in
  match cached_hash with
  | Some r => Ok r
  | None =>
      let* (collapsed, cached, db) :=
        match n with
        | Short k v f =>
            let* compact := hexToCompact k in
            let* (hv, cv, db) := match v with ValueNode _ => Ok (v, v, db) | _ => hash false v db end in
            Ok (Short compact hv f, Short k cv f, db)
        | Full cs f =>
            let* (hs, ccs, db) := hash_children (hash false) 16 cs db in
            Ok (Full hs f, Full ccs f, db)
        | Nil => Panic "nil pointer dereference"
        | n => Ok (n, n, db)
        end in
      let '(hashed, db) := store collapsed db force in
      Ok (hashed, with_hash cached hashed (is_some db), db)
  end.

Definition emptyRoot : Hash :=
  set_bytes HashLength (Z_be 0x56e81f171bcc55a6ff8345e692c0f86e5b48e01b996cadc001622fb5e363b421).

Definition hashRoot (n : node) (db : option TrieDB) : result (node * node * option TrieDB) :=
  match n with
  | Nil => Ok (HashNode emptyRoot, Nil, db)
  | _ => hash true n db
  end.
End Hasher.

Definition root_hash (n : node) : result Hash :=
  match n with HashNode h => Ok (set_bytes HashLength h) | _ => Panic "interface conversion" end.

Section Root.
Context {C : Crypto}.

Definition Trie_Hash (t : Trie) : result (Hash * Trie) :=
  let* (h, cached, _) := hashRoot (cachegen t) (cachelimit t) (root t) None in
  let* r := root_hash h in
  Ok (r, put_root t cached).

Definition Commit (db : TrieDB) (t : Trie) : result (Hash * Trie * TrieDB) :=
  let* (h, cached, db) := hashRoot (cachegen t) (cachelimit t) (root t) (Some db) in
  let* r := root_hash h in
  Ok (r, {| root := cached; cachegen := (cachegen t + 1) mod 2 ^ 16; cachelimit := cachelimit t |},
      default {| dirties := ∅; diskdb := ∅; preimages := ∅ |} db).

Definition New (rt : Hash) (db : TrieDB) : result Trie :=
  if negb (bool_decide (rt = zeroHash)) && negb (bool_decide (rt = emptyRoot)) then
    let* n := resolveHash db 0 rt in Ok {| root := n; cachegen := 0; cachelimit := 0 |}
  else Ok {| root := Nil; cachegen := 0; cachelimit := 0 |}.
End Root.
