(* ===== verification/TrieKeys.v ===== *)
(** * Keys of the trie

    The encodings of keys are injective and can be undone; two keys have a
    longest common part. *)

From Stdlib Require Import ZArith Lia.
From stdpp Require Import base option list gmap strings.
From S2P Require Import Prelude Rlp Types Trie.

(** ** Keys *)

(** Nibbles followed by the terminator. *)
Fixpoint leaf_key (k : bytes) : Prop :=
  match k with
  | [] => False
  | x :: k => (x = 16 ∧ k = []) ∨ (0 ≤ x < 16 ∧ leaf_key k)
  end.
Abbreviation nibbles := (Forall (λ x, 0 ≤ x < 16)).

Lemma leaf_key_app a b : leaf_key (a ++ b) → nibbles a ∧ leaf_key b ∨ leaf_key a ∧ b = [].
Proof.
  induction a as [|x a IH]; simpl; [by left|]. intros [[-> Hn]|[Hx Hk]].
  - apply app_eq_nil in Hn as [-> ->]. right. split; [by left|done].
  - destruct (IH Hk) as [[Ha Hb]|[Ha ->]]; [left|right]; (split; [|done]); [by constructor|by right].
Qed.

Lemma leaf_key_nibbles a b : nibbles a → leaf_key b → leaf_key (a ++ b).
Proof. intros Ha Hb. induction Ha; simpl; [done|]. right. split; [lia|done]. Qed.

Lemma leaf_key_prefix a b : leaf_key a → leaf_key (a ++ b) → b = [].
Proof.
  induction a as [|x a IH]; simpl; [done|]. intros [[-> ->]|[Hx Ha]] [[E Hn]|[Hy Hb]]; try lia; [done|auto].
Qed.

Lemma leaf_key_not_nibbles a : leaf_key a → nibbles a → False.
Proof.
  induction a as [|x a IH]; simpl; [done|]. intros [[-> ->]|[Hx Ha]] Hn; apply Forall_cons in Hn as [Hx' Hn]; [lia|auto].
Qed.

Lemma leaf_key_hex key : wf_bytes key → leaf_key (keybytesToHex key).
Proof.
  intros Hk. unfold keybytesToHex. apply leaf_key_nibbles; [|by left]. induction Hk as [|b key Hb Hk IH]; simpl; [done|].
  unfold is_byte in Hb. repeat constructor; try done; zdiv.
Qed.

Lemma keybytesToHex_inj a b : wf_bytes a → wf_bytes b → keybytesToHex a = keybytesToHex b → a = b.
Proof.
  unfold keybytesToHex. intros Ha. revert b. induction Ha as [|x a Hx Ha IH]; intros b Hb.
  - destruct Hb as [|y b Hy Hb]; simpl; [done|]. intros E. apply (f_equal length) in E. simpl in E. rewrite length_app in E. simpl in E. lia.
  - destruct Hb as [|y b Hy Hb]; simpl; [intros E; apply (f_equal length) in E; simpl in E; rewrite length_app in E; simpl in E; lia|].
    intros [= E1 E2 E3]. f_equal; [|by apply IH].
    rewrite (Z.div_mod x 16), (Z.div_mod y 16) by lia. lia.
Qed.

(** Two keys as a common part and two parts that begin differently. *)
Lemma prefixLen_cases a b :
  ∃ p a' b', a = p ++ a' ∧ b = p ++ b' ∧ prefixLen a b = length p ∧
             match a', b' with x :: _, y :: _ => x ≠ y | _, _ => True end.
Proof.
  revert b. induction a as [|x a IH]; intros b; [by exists [], [], b|].
  destruct b as [|y b]; [by exists [], (x :: a), []|]. cbn [prefixLen]. destruct (Z.eqb_spec x y) as [->|].
  - destruct (IH b) as (p & a' & b' & -> & -> & -> & H). by exists (y :: p), a', b'.
  - by exists [], (x :: a), (y :: b).
Qed.

(** ** Round trips *)

Definition hex_bytes (b : bytes) : bytes := concat ((λ b, [b / 16; b mod 16]) <$> b).

Lemma nibble_pair x y : 0 ≤ x < 16 → 0 ≤ y < 16 → Z.lor (Z.shiftl x 4 mod 256) y = 16 * x + y.
Proof.
  intros Hx Hy.
  assert (H : forallb (λ x, forallb (λ y, Z.lor (Z.shiftl x 4 mod 256) y =? 16 * x + y) (seqZ 0 16)) (seqZ 0 16) = true)
    by by vm_compute.
  rewrite forallb_forall in H. specialize (H x). rewrite forallb_forall in H.
  apply Z.eqb_eq, H; apply list_elem_of_In, elem_of_seqZ; lia.
Qed.

Lemma nibbles_ind (P : bytes → Prop) :
  P [] → (∀ x, P [x]) → (∀ x y l, P l → P (x :: y :: l)) → ∀ l, P l.
Proof. intros H0 H1 H2. exact (fix IH l := match l with [] => H0 | [x] => H1 x | x :: y :: l => H2 x y l (IH l) end). Qed.

Lemma decodeNibbles_ok l :
  nibbles l → Nat.odd (length l) = false → ∃ b, decodeNibbles l = Ok b ∧ wf_bytes b ∧ hex_bytes b = l.
Proof.
  induction l as [|x|x y l IH] using nibbles_ind; intros Hl Hodd; [exists []; by repeat constructor|done|].
  apply Forall_cons in Hl as [Hx Hl]. apply Forall_cons in Hl as [Hy Hl].
  destruct (IH Hl Hodd) as (b & Hb & Hw & E). exists (16 * x + y :: b). cbn [decodeNibbles]. rewrite Hb. simpl.
  rewrite nibble_pair by done. split_and!; [done|constructor; [unfold is_byte; lia|done]|].
  change (hex_bytes (16 * x + y :: b)) with ((16 * x + y) / 16 :: (16 * x + y) mod 16 :: hex_bytes b).
  rewrite E. f_equal; [zdiv|]. f_equal. zdiv.
Qed.

Lemma hex_bytes_nibbles b : wf_bytes b → nibbles (hex_bytes b).
Proof. induction 1 as [|x b Hx Hb IH]; [done|]. unfold is_byte in Hx. repeat constructor; try done; zdiv. Qed.

Lemma hex_bytes_inj a b : wf_bytes a → wf_bytes b → hex_bytes a = hex_bytes b → a = b.
Proof. intros Ha Hb E. apply keybytesToHex_inj; [done..|]. unfold keybytesToHex. by f_equal. Qed.

Lemma hex_bytes_even b : Nat.odd (length (hex_bytes b)) = false.
Proof. induction b as [|x b IH]; [done|]. exact IH. Qed.

Lemma decodeNibbles_hex_bytes b : wf_bytes b → decodeNibbles (hex_bytes b) = Ok b.
Proof.
  intros Hb. destruct (decodeNibbles_ok (hex_bytes b)) as (b' & -> & Hb' & E);
    [by apply hex_bytes_nibbles|apply hex_bytes_even|]. f_equal. by apply hex_bytes_inj.
Qed.

(** ** Terminators *)

Lemma hasTerm_app l : hasTerm (l ++ [16]) = true ∧ take (length (l ++ [16]) - 1) (l ++ [16]) = l.
Proof.
  split; [unfold hasTerm; by rewrite last_snoc|]. rewrite length_app. simpl. rewrite Nat.add_sub.
  by rewrite take_app_length.
Qed.

Lemma hasTerm_nibbles l : nibbles l → hasTerm l = false.
Proof.
  intros Hl. unfold hasTerm. apply bool_decide_eq_false_2. intros E%last_Some.
  destruct E as (l' & ->). apply Forall_app in Hl as [_ Hl]. inversion Hl; lia.
Qed.

Lemma leaf_key_snoc k : leaf_key k → ∃ l, k = l ++ [16] ∧ nibbles l.
Proof.
  induction k as [|x k IH]; simpl; [done|]. intros [[-> ->]|[Hx Hk]]; [by exists []|].
  destruct (IH Hk) as (l & -> & Hl). exists (x :: l). split; [done|by constructor].
Qed.

(** ** The compact encoding *)

Definition terminator (term : bool) : bytes := if term then [16] else [].

Lemma hexToCompact_eq l term :
  nibbles l →
  hexToCompact (l ++ terminator term) =
  let flag := if term then 32 else 0 in
  match Nat.odd (length l), l with
  | true, x :: l => let* b := decodeNibbles l in Ok (flag + 16 + x :: b)
  | _, _ => let* b := decodeNibbles l in Ok (flag :: b)
  end.
Proof.
  intros Hl. unfold hexToCompact.
  assert (Ht : hasTerm (l ++ terminator term) = term ∧
               (if term then take (length (l ++ terminator term) - 1) (l ++ terminator term) else l ++ terminator term) = l).
  { destruct term; simpl; [apply hasTerm_app|]. rewrite app_nil_r. split; [by apply hasTerm_nibbles|done]. }
  destruct Ht as [-> ->]. destruct (Nat.odd (length l)) eqn:E; [|by destruct term].
  destruct Hl as [|x l Hx Hl]; [done|]. destruct (decodeNibbles l); [|done..]. simpl. f_equal. f_equal.
  assert (H : forallb (λ x, Z.lor (Z.lor (Z.shiftl (if term then 1 else 0) 5) 16) x =? (if term then 32 else 0) + 16 + x) (seqZ 0 16) = true)
    by by destruct term; vm_compute.
  rewrite forallb_forall in H. apply Z.eqb_eq, H. apply list_elem_of_In, elem_of_seqZ. lia.
Qed.

(** What [compactToHex] makes of a first byte with the flags and the rest. *)
Lemma compactToHex_eq (term : bool) b rest :
  (if term then 32 ≤ b < 64 else 0 ≤ b < 32) →
  compactToHex (b :: rest) =
  Ok ((if Z.land (b / 16) 1 =? 1 then [b mod 16] else []) ++ hex_bytes rest ++ terminator term).
Proof.
  intros Hb. unfold compactToHex.
  change (keybytesToHex (b :: rest)) with (b / 16 :: b mod 16 :: hex_bytes rest ++ [16]).
  set (base := b / 16 :: b mod 16 :: hex_bytes rest ++ [16]).
  assert (E : (if b / 16 <? 2 then take (length base - 1) base else base) = b / 16 :: b mod 16 :: hex_bytes rest ++ terminator term).
  { destruct term.
    - rewrite (proj2 (Z.ltb_ge _ _)) by zdiv. done.
    - rewrite (proj2 (Z.ltb_lt _ _)) by zdiv. subst base. rewrite app_nil_r.
      apply (hasTerm_app (b / 16 :: b mod 16 :: hex_bytes rest)). }
  unfold base at 1. rewrite E. cbn [length].
  assert (Hq : b / 16 = 0 ∨ b / 16 = 1 ∨ b / 16 = 2 ∨ b / 16 = 3) by (destruct term; zdiv).
  by destruct Hq as [->|[->|[->| ->]]].
Qed.

Lemma compact_ok l term :
  nibbles l →
  ∃ c, hexToCompact (l ++ terminator term) = Ok c ∧ wf_bytes c ∧ c ≠ [] ∧ compactToHex c = Ok (l ++ terminator term).
Proof.
  intros Hl. rewrite (hexToCompact_eq l term Hl). cbv zeta.
  destruct (Nat.odd (length l)) eqn:Hodd; [destruct Hl as [|x l Hx Hl]; [done|]|].
  - rewrite length_cons, Nat.odd_succ, <- Nat.negb_odd in Hodd.
    destruct (decodeNibbles_ok l Hl) as (b & -> & Hb & E); [by destruct (Nat.odd (length l))|]. simpl.
    eexists. split_and!; [done|constructor; [unfold is_byte; destruct term; lia|done]|done|].
    rewrite (compactToHex_eq term) by (destruct term; lia). rewrite E.
    replace (((if term then 32 else 0) + 16 + x) / 16) with (if term then 3 else 1) by (destruct term; zdiv).
    replace (((if term then 32 else 0) + 16 + x) mod 16) with x by (destruct term; zdiv). by destruct term.
  - destruct (decodeNibbles_ok l Hl Hodd) as (b & -> & Hb & E).
    replace (match l with [] | _ => _ end) with (Ok ((if term then 32 else 0) :: b)) by by destruct l.
    eexists. split_and!; [done|constructor; [unfold is_byte; destruct term; lia|done]|done|].
    rewrite (compactToHex_eq term) by (destruct term; lia). rewrite E. by destruct term.
Qed.
