(* ===== verification/TrieProps.v ===== *)
(** * The trie is a finite map

    What a trie stores is a relation between keys and values; nodes that are
    not loaded are looked up in the database.  On well-formed tries [TryGet],
    [TryUpdate] and [TryDelete] return, keep the trie well-formed, and are
    lookup, insertion and deletion of a finite map. *)

From Stdlib Require Import ZArith Lia.
From stdpp Require Import base option list gmap strings.
From S2P Require Import Prelude Rlp Types Trie TrieKeys.

Lemma Nil_or (n : node) : n = Nil ∨ n ≠ Nil.
Proof. destruct n; auto. Qed.

Section Stored.
Context (db : TrieDB) (gen : Z).

Abbreviation loads h n := (resolveHash db gen h = Ok n).

(** ** What a node stores *)

Inductive stored : node → bytes → bytes → Prop :=
| st_value v : stored (ValueNode v) [] v
| st_short k n f r v : stored n r v → stored (Short k n f) (k ++ r) v
| st_full cs f x c r v : 0 ≤ x → cs !! Z.to_nat x = Some c → stored c r v → stored (Full cs f) (x :: r) v
| st_hash h n k v : loads h n → stored n k v → stored (HashNode h) k v.

Lemma stored_Nil k v : ¬ stored Nil k v.
Proof. intros H. inversion H. Qed.

Lemma stored_Value x k v : stored (ValueNode x) k v ↔ k = [] ∧ v = x.
Proof. split; [by inversion 1|]. intros [-> ->]. constructor. Qed.

Lemma stored_Short kk n f k v : stored (Short kk n f) k v ↔ ∃ r, k = kk ++ r ∧ stored n r v.
Proof. split; [inversion 1; by eexists|]. intros (r & -> & ?). by constructor. Qed.

Lemma stored_Full cs f k v :
  stored (Full cs f) k v ↔ ∃ x c r, k = x :: r ∧ 0 ≤ x ∧ cs !! Z.to_nat x = Some c ∧ stored c r v.
Proof. split; [inversion 1; by eexists _, _, _|]. intros (x & c & r & -> & ? & ? & ?). by eapply st_full. Qed.

Lemma stored_Hash h n k v : loads h n → stored (HashNode h) k v ↔ stored n k v.
Proof. intros Hl. split; [|by apply st_hash]. inversion 1 as [| | |? n' ? ? Hl']; subst. congruence. Qed.

Lemma stored_fun n k v v' : stored n k v → stored n k v' → v = v'.
Proof.
  intros H. revert v'. induction H as [v|k n f r v H IH|cs f x c r v Hx Hc H IH|h n k v Hl H IH]; intros v' H'.
  - by apply stored_Value in H' as [_ ->].
  - apply stored_Short in H' as (r' & E & H'). apply app_inv_head in E. subst. auto.
  - apply stored_Full in H' as (x' & c' & r' & [= <- <-] & _ & Hc' & H'). simplify_eq. auto.
  - apply (stored_Hash h n) in H'; auto.
Qed.

(** ** Well-formed nodes *)

(** A full node, perhaps not loaded. *)
Definition is_branch (n : node) : Prop :=
  match n with
  | Full _ _ => True
  | HashNode h => ∃ cs f, loads h (Full cs f)
  | _ => False
  end.

Definition is_loaded (n : node) : Prop := match n with Full _ _ | Short _ _ _ => True | _ => False end.

Definition two_children (cs : list node) : Prop :=
  ∃ i j c d, i ≠ j ∧ cs !! i = Some c ∧ cs !! j = Some d ∧ c ≠ Nil ∧ d ≠ Nil.

Inductive wf_node : node → Prop :=
| wf_leaf k v f : leaf_key k → v ≠ [] → wf_node (Short k (ValueNode v) f)
| wf_ext k n f : k ≠ [] → nibbles k → is_branch n → wf_node n → wf_node (Short k n f)
| wf_full cs f :
    length cs = 17%nat → two_children cs →
    (∀ i c, (i < 16)%nat → cs !! i = Some c → c ≠ Nil → wf_node c) →
    (∀ c, cs !! 16%nat = Some c → c = Nil ∨ ∃ v, v ≠ [] ∧ c = ValueNode v) →
    wf_node (Full cs f)
| wf_hash h n : loads h n → is_loaded n → wf_node n → wf_node (HashNode h).

(** A node at which [key] is what is left of the key. *)
Definition wf_at (n : node) (key : bytes) : Prop :=
  match key with
  | [] => n = Nil ∨ ∃ v, v ≠ [] ∧ n = ValueNode v
  | _ => leaf_key key ∧ (n = Nil ∨ wf_node n)
  end.

Lemma wf_at_leaf n key : leaf_key key → n = Nil ∨ wf_node n → wf_at n key.
Proof. by destruct key. Qed.

(** The child of a full node on the way. *)
Lemma wf_at_child cs f x key :
  wf_node (Full cs f) → leaf_key (x :: key) →
  ∃ c, child cs x = Ok c ∧ 0 ≤ x ∧ (Z.to_nat x < 17)%nat ∧ cs !! Z.to_nat x = Some c ∧ wf_at c key.
Proof.
  intros Hw Hk. inversion Hw as [| |? ? Hlen _ Hlow Hval|]; subst.
  assert (Hx : 0 ≤ x ∧ (Z.to_nat x < 17)%nat) by (destruct Hk as [[-> _]|[? _]]; lia).
  destruct (lookup_lt_is_Some_2 cs (Z.to_nat x)) as [c Hc]; [lia|]. exists c. unfold child. rewrite Hc.
  split_and!; try done; try lia. destruct Hk as [[-> ->]|[Hx' Hk]]; [by apply Hval|].
  apply wf_at_leaf; [done|]. destruct (Nil_or c) as [|Hne]; [by left|right].
  eapply (Hlow (Z.to_nat x)); [lia|done|done].
Qed.

Lemma wf_at_short k n f key :
  wf_node (Short k n f) → leaf_key (k ++ key) → wf_at n key.
Proof.
  intros Hw Hk. inversion Hw as [? v ? Hleaf Hv|? ? ? Hne Hnib Hb Hwn| |]; subst.
  - rewrite (leaf_key_prefix _ _ Hleaf Hk). right. by exists v.
  - apply leaf_key_app in Hk as [[_ Hk]|[Hk ->]]; [|by destruct (leaf_key_not_nibbles k)].
    apply wf_at_leaf; [done|]. by right.
Qed.

Lemma stored_leaf n k v : wf_node n → stored n k v → leaf_key k ∧ v ≠ [].
Proof.
  intros Hw. revert k v.
  induction Hw as [kk x f Hk Hx|kk n f Hne Hnib Hb Hw IH|cs f Hlen _ Hlow IH Hval|h n Hl Hld Hw IH]; intros k v H.
  - apply stored_Short in H as (r & -> & H). apply stored_Value in H as [-> ->]. by rewrite app_nil_r.
  - apply stored_Short in H as (r & -> & H). destruct (IH _ _ H). split; [by apply leaf_key_nibbles|done].
  - apply stored_Full in H as (x & c & r & -> & Hx & Hc & H).
    pose proof (lookup_lt_Some _ _ _ Hc) as Hlt. destruct (decide (x = 16)) as [->|Hne].
    + destruct (Hval c Hc) as [->|(y & Hy & ->)]; [by apply stored_Nil in H|].
      apply stored_Value in H as [-> ->]. split; [by left|done].
    + destruct (IH (Z.to_nat x) c) with r v as [Hr Hv]; [lia|done|intros ->; by apply stored_Nil in H|done|].
      split; [right; split; [lia|done]|done].
  - apply (stored_Hash h n) in H; auto.
Qed.

Lemma wf_inhabited n : wf_node n → ∃ k v, stored n k v.
Proof.
  induction 1 as [k v f Hk Hv|k n f Hne Hnib Hb Hw IH|cs f Hlen Htwo Hlow IH Hval|h n Hl Hld Hw IH].
  - exists (k ++ []), v. apply st_short, st_value.
  - destruct IH as (r & v & H). exists (k ++ r), v. by apply st_short.
  - destruct Htwo as (i & j & c & d & _ & Hi & _ & Hc & _). pose proof (lookup_lt_Some _ _ _ Hi).
    assert (∃ r v, stored c r v) as (r & v & Hr).
    { destruct (decide (i < 16)%nat); [by eapply IH|]. replace i with 16%nat in Hi by lia.
      destruct (Hval _ Hi) as [->|(v & _ & ->)]; [done|]. exists [], v. constructor. }
    exists (Z.of_nat i :: r), v. apply st_full with c; [lia|by rewrite Nat2Z.id|done].
  - destruct IH as (r & v & H). exists r, v. by apply st_hash with n.
Qed.

Lemma child_inhabited cs f i c :
  wf_node (Full cs f) → cs !! i = Some c → c ≠ Nil → ∃ r v, stored (Full cs f) (Z.of_nat i :: r) v.
Proof.
  intros Hw Hi Hc. inversion Hw as [| |? ? Hlen _ Hlow Hval|]; subst. pose proof (lookup_lt_Some _ _ _ Hi).
  assert (∃ r v, stored c r v) as (r & v & Hr).
  { destruct (decide (i < 16)%nat); [apply wf_inhabited; eauto|]. replace i with 16%nat in Hi by lia.
    destruct (Hval _ Hi) as [->|(v & _ & ->)]; [done|]. exists [], v. constructor. }
  exists r, v. apply st_full with c; [lia|by rewrite Nat2Z.id|done].
Qed.

(** A full node stores something besides any one key. *)
Lemma branch_two n key : wf_node n → is_branch n → ∃ k v, k ≠ key ∧ stored n k v.
Proof.
  assert (Hfull : ∀ cs f, wf_node (Full cs f) → ∃ k v, k ≠ key ∧ stored (Full cs f) k v).
  { intros cs f Hw. inversion Hw as [| |? ? _ Htwo _ _|]; subst.
    destruct Htwo as (i & j & c & d & Hij & Hi & Hj & Hc & Hd).
    destruct (child_inhabited _ f _ _ Hw Hi Hc) as (r & v & Hr). destruct (child_inhabited _ f _ _ Hw Hj Hd) as (r' & v' & Hr').
    destruct (decide (Z.of_nat i :: r = key)) as [<-|]; [|by exists (Z.of_nat i :: r), v].
    exists (Z.of_nat j :: r'), v'. split; [|done]. intros [= E _]. lia. }
  intros Hw Hb. destruct n as [|cs f| |h|]; try done; [by apply Hfull|].
  destruct Hb as (cs & f & Hl). inversion Hw as [| | |? n Hl' _ Hwn]; subst.
  rewrite Hl in Hl'. injection Hl' as <-. destruct (Hfull _ _ Hwn) as (k & v & Hk & H).
  exists k, v. split; [done|by apply st_hash with (Full cs f)].
Qed.

(** ** Replacing a child *)

Lemma wf_short_put k n f key n' f' :
  wf_node (Short k n f) → leaf_key (k ++ key) → wf_at n' key → n' ≠ Nil → (is_branch n → is_branch n') →
  wf_node (Short k n' f').
Proof.
  intros Hw Hk Ha Hn Hb. inversion Hw as [? v ? Hleaf Hv|? ? ? Hne Hnib Hbn Hwn| |]; subst.
  - rewrite (leaf_key_prefix _ _ Hleaf Hk) in Ha. destruct Ha as [->|(w & Hw' & ->)]; [done|]. by apply wf_leaf.
  - specialize (Hb Hbn). destruct key as [|x key].
    + rewrite app_nil_r in Hk. by destruct (leaf_key_not_nibbles k).
    + destruct Ha as [_ [->|Hw']]; [done|]. by apply wf_ext.
Qed.

Definition wf_children (cs : list node) : Prop :=
  length cs = 17%nat ∧ (∀ i c, (i < 16)%nat → cs !! i = Some c → c ≠ Nil → wf_node c) ∧
  (∀ c, cs !! 16%nat = Some c → c = Nil ∨ ∃ v, v ≠ [] ∧ c = ValueNode v).

Lemma wf_full_inv cs f : wf_node (Full cs f) ↔ wf_children cs ∧ two_children cs.
Proof.
  split; [|intros [(? & ? & ?) ?]; by apply wf_full].
  intros Hw. inversion Hw; subst. by repeat split.
Qed.

Lemma wf_children_put cs x key c' :
  wf_children cs → leaf_key (x :: key) → wf_at c' key → wf_children (<[Z.to_nat x := c']> cs).
Proof.
  intros (Hlen & Hlow & Hval) Hk Ha.
  assert (Hx : (Z.to_nat x < length cs)%nat) by (destruct Hk as [[-> _]|[? _]]; lia).
  split_and!; [by rewrite length_insert| |].
  - intros i c Hi Hc Hne. destruct (decide (Z.to_nat x = i)) as [E|E].
    + subst i. rewrite list_lookup_insert_eq in Hc by done. injection Hc as ->.
      destruct Hk as [[-> _]|[_ Hk]]; [lia|]. destruct key; [done|]. by destruct Ha as [_ [?|?]].
    + rewrite list_lookup_insert_ne in Hc by done. by eapply Hlow.
  - intros c Hc. destruct (decide (Z.to_nat x = 16%nat)) as [E|E].
    + rewrite E in *. rewrite list_lookup_insert_eq in Hc by done. injection Hc as ->.
      destruct Hk as [[_ ->]|[Hx' _]]; [done|lia].
    + rewrite list_lookup_insert_ne in Hc by done. by apply Hval.
Qed.

Lemma wf_full_put cs f x key c' f' :
  wf_node (Full cs f) → leaf_key (x :: key) → wf_at c' key → c' ≠ Nil →
  wf_node (Full (<[Z.to_nat x := c']> cs) f').
Proof.
  intros [Hw Htwo]%wf_full_inv Hk Ha Hn. apply wf_full_inv. split; [by eapply wf_children_put|].
  assert (Hx : (Z.to_nat x < length cs)%nat) by (destruct Hw, Hk as [[-> _]|[? _]]; lia).
  destruct Htwo as (i & j & c & d & Hij & Hi & Hj & Hc & Hd).
  assert (Hput : ∀ i c, cs !! i = Some c → c ≠ Nil → ∃ e, <[Z.to_nat x := c']> cs !! i = Some e ∧ e ≠ Nil).
  { intros l e Hl He. destruct (decide (Z.to_nat x = l)) as [<-|Hne]; [exists c'; by rewrite list_lookup_insert_eq|].
    exists e. by rewrite list_lookup_insert_ne. }
  destruct (Hput _ _ Hi Hc) as (c1 & ? & ?), (Hput _ _ Hj Hd) as (d1 & ? & ?). by exists i, j, c1, d1.
Qed.

Lemma stored_full_put cs x c' f f' k v :
  0 ≤ x → (Z.to_nat x < length cs)%nat →
  stored (Full (<[Z.to_nat x := c']> cs) f') k v ↔
  (∃ r, k = x :: r ∧ stored c' r v) ∨ (head k ≠ Some x ∧ stored (Full cs f) k v).
Proof.
  intros Hx Hlt. rewrite !stored_Full. split.
  - intros (y & c & r & -> & Hy & Hc & H). destruct (decide (x = y)) as [->|Hne].
    + rewrite list_lookup_insert_eq in Hc by done. injection Hc as ->. left. by exists r.
    + rewrite list_lookup_insert_ne in Hc by lia. right. split; [simpl; congruence|]. by exists y, c, r.
  - intros [(r & -> & H)|[Hh (y & c & r & -> & Hy & Hc & H)]].
    + exists x, c', r. by rewrite list_lookup_insert_eq.
    + exists y, c, r. simpl in Hh. rewrite list_lookup_insert_ne; [done|]. intros E. apply Hh. f_equal. lia.
Qed.

Lemma stored_child cs f x c r v :
  0 ≤ x → cs !! Z.to_nat x = Some c → stored (Full cs f) (x :: r) v ↔ stored c r v.
Proof.
  intros Hx Hc. rewrite stored_Full. split; [|intros H; by exists x, c, r].
  intros (y & d & r' & [= <- <-] & _ & Hd & H). by simplify_eq.
Qed.

Lemma stored_below k n f r v : stored (Short k n f) (k ++ r) v ↔ stored n r v.
Proof.
  rewrite stored_Short. split; [|intros H; by exists r]. intros (r' & E & H). by apply app_inv_head in E as <-.
Qed.

(** Fuel a node needs: a hash node is followed by a node that is loaded. *)
Definition need (n : node) (key : bytes) : nat :=
  match n with HashNode _ => S (S (2 * length key)) | _ => S (2 * length key) end.

Lemma need_le n (key : bytes) : (need n key <= depth key)%nat.
Proof. unfold need, depth. destruct n; lia. Qed.

Lemma need_shorter n (key key' : bytes) fuel :
  (length key' < length key)%nat → (S (2 * length key) <= S fuel)%nat → (need n key' <= fuel)%nat.
Proof. unfold need. intros. destruct n; lia. Qed.

Lemma wf_short_prefix k n f : wf_node (Short k n f) → (0 < length k)%nat.
Proof. intros Hw. inversion Hw as [? v ? Hleaf Hv|? ? ? Hne| |]; subst; by destruct k; [|simpl; lia]. Qed.

(** ** Looking up *)

Definition reads (n : node) (key : bytes) (val : option bytes) (n' : node) (res : bool) : Prop :=
  (∀ v, val = Some v ↔ stored n key v) ∧ wf_at n' key ∧ (∀ k v, stored n' k v ↔ stored n k v) ∧
  (is_branch n → is_branch n') ∧ (res = true → n' ≠ Nil).

Lemma reads_short k n f key val n' res :
  wf_node (Short k n f) → leaf_key (k ++ key) → reads n key val n' res →
  reads (Short k n f) (k ++ key) val (if res then Short k n' (with_gen gen f) else Short k n f) res.
Proof.
  intros Hw Hk (Hval & Ha & Hst & Hb & Hn). split_and!; [| | |done|by destruct res].
  - intros v. by rewrite stored_below.
  - apply wf_at_leaf; [done|]. right. destruct res; [|done]. apply (wf_short_put k n f key); auto.
  - intros k' v. destruct res; [|done]. rewrite !stored_Short. by setoid_rewrite Hst.
Qed.

Lemma reads_full cs f x c key val n' res :
  wf_node (Full cs f) → leaf_key (x :: key) → 0 ≤ x → cs !! Z.to_nat x = Some c → reads c key val n' res →
  reads (Full cs f) (x :: key) val
    (if res then Full (<[Z.to_nat x := n']> cs) (with_gen gen f) else Full cs f) res.
Proof.
  intros Hw Hk Hx Hc (Hval & Ha & Hst & Hb & Hn). split_and!; [| | |by destruct res|by destruct res].
  - intros v. by rewrite (stored_child _ _ _ c).
  - apply wf_at_leaf; [done|]. right. destruct res; [|done]. eapply wf_full_put; eauto.
  - intros k' v. destruct res; [|done]. rewrite (stored_full_put cs x n' f) by (done || by eapply lookup_lt_Some).
    split.
    + intros [(r & -> & H)|[_ H]]; [|done]. apply (stored_child _ _ _ c); [done..|]. by apply Hst.
    + intros H. destruct (decide (head k' = Some x)) as [E|]; [left|by right].
      destruct k' as [|y r]; [done|]. injection E as ->. exists r. split; [done|].
      apply (stored_child _ _ _ c) in H; [|done..]. by apply Hst.
Qed.

Lemma tryGet_reads fuel n key :
  wf_at n key → (need n key <= fuel)%nat →
  ∃ val n' res, tryGet db gen fuel n key = Ok (val, n', res) ∧ reads n key val n' res.
Proof.
  revert n key. induction fuel as [|fuel IH]; intros n key Ha Hf; [destruct n; simpl in Hf; lia|].
  assert (Hnil : n = Nil → reads n key None Nil false).
  { intros ->. split_and!; try done. intros v. split; [done|]. by intros H%stored_Nil. }
  destruct key as [|x key].
  - destruct Ha as [->|(v & Hv & ->)]; simpl; [by eexists _, _, _; split; [|apply Hnil]|].
    eexists _, _, _. split; [done|]. split_and!; try done.
    + intros w. rewrite stored_Value. split; [by intros [= ->]|by intros [_ ->]].
    + right. by exists v.
  - destruct Ha as [Hk [->|Hw]]; [by eexists _, _, _; split; [|apply Hnil]|].
    destruct n as [|cs f|k c f|h|v]; [by inversion Hw| | | |by inversion Hw].
    + destruct (wf_at_child _ _ _ _ Hw Hk) as (c & Hch & Hx & _ & Hc & Hac). cbn [tryGet]. rewrite Hch. simpl.
      destruct (IH c key Hac) as (val & n' & res & -> & Hr); [eapply need_shorter; [|exact Hf]; simpl; lia|].
      simpl. eexists _, _, _. split; [done|]. by eapply reads_full.
    + cbn [tryGet]. case_bool_decide as Hp.
      * rewrite <- (take_drop (length k) (x :: key)), Hp in Hk |- *. rewrite drop_app_length.
        destruct (IH c (drop (length k) (x :: key))) as (val & n' & res & -> & Hr).
        { by eapply wf_at_short. }
        { pose proof (wf_short_prefix _ _ _ Hw). eapply need_shorter; [|exact Hf]. rewrite length_drop. simpl. lia. }
        simpl. eexists _, _, _. split; [done|]. by apply reads_short.
      * eexists _, _, _. split; [done|]. split_and!; try done; [|by split; [|right]].
        intros v. split; [done|]. intros (r & E & _)%stored_Short. destruct Hp. by rewrite E, take_app_length.
    + inversion Hw as [| | |? n Hl Hld Hwn]; subst. cbn [tryGet]. rewrite Hl. simpl.
      destruct (IH n (x :: key)) as (val & n' & res & -> & Hval & Ha' & Hst & Hb & Hn).
      { split; [done|by right]. } { destruct n; try done; simpl in *; lia. }
      simpl. eexists _, _, _. split; [done|]. split_and!; [|done| | |].
      * intros w. by rewrite (stored_Hash h n).
      * intros k w. by rewrite (stored_Hash h n).
      * intros (cs & f & Hl'). apply Hb. simpl in Hl'. rewrite Hl in Hl'. by injection Hl' as ->.
      * intros _ ->. destruct (wf_inhabited n Hwn) as (k & v & H). by apply Hst, stored_Nil in H.
Qed.

(** ** Inserting *)

Definition updates (n : node) (key v : bytes) (n' : node) : Prop :=
  wf_at n' key ∧ n' ≠ Nil ∧ (is_branch n → is_branch n') ∧
  ∀ k w, stored n' k w ↔ (k = key ∧ w = v) ∨ (k ≠ key ∧ stored n k w).

Lemma unchanged_updates n key v : wf_at n key → stored n key v → updates n key v n.
Proof.
  intros Ha H. split_and!; [done|intros ->; by apply stored_Nil in H|done|].
  intros k w. split.
  - intros Hk. destruct (decide (k = key)) as [->|]; [left|by right]. split; [done|by eapply stored_fun].
  - by intros [[-> ->]|[_ Hk]].
Qed.

Lemma short_updates k n f key v n' f' :
  wf_node (Short k n f) → leaf_key (k ++ key) → updates n key v n' →
  updates (Short k n f) (k ++ key) v (Short k n' f').
Proof.
  intros Hw Hk (Ha & Hn & Hb & Hst). split_and!; [|done|done|].
  - apply wf_at_leaf; [done|]. right. by eapply wf_short_put.
  - intros k' w. rewrite !stored_Short. setoid_rewrite Hst. split.
    + intros (r & -> & [[-> ->]|[Hr H]]); [by left|right]. split; [by intros E%app_inv_head|by exists r].
    + intros [[-> ->]|[Hr (r & -> & H)]]; [exists key; auto|]. exists r. split; [done|]. right.
      split; [by intros ->|done].
Qed.

Lemma full_updates cs f x c key v n' f' :
  wf_node (Full cs f) → leaf_key (x :: key) → 0 ≤ x → cs !! Z.to_nat x = Some c → updates c key v n' →
  updates (Full cs f) (x :: key) v (Full (<[Z.to_nat x := n']> cs) f').
Proof.
  intros Hw Hk Hx Hc (Ha & Hn & Hb & Hst). split_and!; [|done|done|].
  - apply wf_at_leaf; [done|]. right. by eapply wf_full_put.
  - intros k' w. rewrite (stored_full_put cs x n' f) by (done || by eapply lookup_lt_Some). split.
    + intros [(r & -> & [[-> ->]|[Hr H]]%Hst)|[Hh H]]; [by left|right|right].
      * split; [congruence|]. by apply (stored_child _ _ _ c).
      * split; [by intros ->|done].
    + intros [[-> ->]|[Hne H]]; [left; exists key; split; [done|apply Hst; by left]|].
      destruct (decide (head k' = Some x)) as [E|]; [left|by right].
      destruct k' as [|y r]; [done|]. injection E as ->. exists r. split; [done|]. apply Hst. right.
      split; [congruence|]. by apply (stored_child _ f _ c) in H.
Qed.

(** The part of a short node below its first nibble, as a child. *)
Lemma insert_nil_child p x k n f :
  wf_node (Short (p ++ x :: k) n f) →
  0 ≤ x < 17 ∧ insert_nil gen k n ≠ Nil ∧
  (x < 16 → wf_node (insert_nil gen k n)) ∧ (x = 16 → ∃ v, v ≠ [] ∧ insert_nil gen k n = ValueNode v) ∧
  ∀ r w, stored (insert_nil gen k n) r w ↔ ∃ r', r = k ++ r' ∧ stored n r' w.
Proof.
  intros Hw.
  assert (Hst : ∀ r w, stored (insert_nil gen k n) r w ↔ ∃ r', r = k ++ r' ∧ stored n r' w).
  { intros r w. unfold insert_nil. destruct k; [|by rewrite stored_Short]. simpl.
    split; [by exists r|by intros (? & -> & ?)]. }
  inversion Hw as [? v ? Hleaf Hv|? ? ? Hne Hnib Hb Hwn| |]; subst.
  - apply leaf_key_app in Hleaf as [[_ Hleaf]|[_ ?]]; [|done]. simpl in Hleaf.
    destruct Hleaf as [[-> ->]|[Hx Hleaf]].
    + split_and!; try done. intros _. by exists v.
    + destruct k as [|y k]; [done|]. split_and!; try done; try lia. intros _. by apply wf_leaf.
  - apply Forall_app in Hnib as [_ Hnib]. apply Forall_cons in Hnib as [Hx Hnib].
    split_and!; try done; try lia.
    + destruct k; [|done]. simpl; by intros ->.
    + intros _. destruct k; [done|]. by apply wf_ext.
Qed.

Section TwoChildren.
Context (x y : Z) (c d : node) (f : nodeFlag).
Context (Hxy : x ≠ y) (Hx : 0 ≤ x < 17) (Hy : 0 ≤ y < 17) (Hc : c ≠ Nil) (Hd : d ≠ Nil).
Let two : list node := <[Z.to_nat y := d]> (<[Z.to_nat x := c]> (replicate 17 Nil)).

Lemma lookup_two i e : two !! i = Some e ↔ i = Z.to_nat y ∧ e = d ∨ i = Z.to_nat x ∧ e = c ∨
  i ≠ Z.to_nat x ∧ i ≠ Z.to_nat y ∧ (i < 17)%nat ∧ e = Nil.
Proof.
  unfold two. rewrite !list_lookup_insert_Some, !length_insert, length_replicate, lookup_replicate.
  split; [intuition (subst; auto)|]. intros [[-> ->]|[[-> ->]|(? & ? & ? & ->)]].
  - left. split_and!; (done || lia).
  - right. split; [lia|]. left. split_and!; (done || lia).
  - right. split; [done|]. right. done.
Qed.

Lemma wf_two :
  (x < 16 → wf_node c) → (x = 16 → ∃ v, v ≠ [] ∧ c = ValueNode v) →
  (y < 16 → wf_node d) → (y = 16 → ∃ v, v ≠ [] ∧ d = ValueNode v) → wf_node (Full two f).
Proof.
  intros Hc1 Hc2 Hd1 Hd2. apply wf_full.
  - unfold two. by rewrite !length_insert, length_replicate.
  - exists (Z.to_nat x), (Z.to_nat y), c, d. rewrite !lookup_two. split_and!; try done; [lia|auto|auto].
  - intros i e Hi [[-> ->]|[[-> ->]|(? & ? & ? & ->)]]%lookup_two Hne; [apply Hd1; lia|apply Hc1; lia|done].
  - intros e [[E ->]|[[E ->]|(? & ? & ? & ->)]]%lookup_two; [right; apply Hd2; lia|right; apply Hc2; lia|by left].
Qed.

Lemma stored_two k w :
  stored (Full two f) k w ↔ (∃ r, k = x :: r ∧ stored c r w) ∨ (∃ r, k = y :: r ∧ stored d r w).
Proof.
  rewrite stored_Full. split.
  - intros (z & e & r & -> & Hz & [[E ->]|[[E ->]|(_ & _ & _ & ->)]]%lookup_two & H);
      [right|left|by apply stored_Nil in H]; exists r; (split; [f_equal; lia|done]).
  - intros [(r & -> & H)|(r & -> & H)]; [exists x, c, r|exists y, d, r];
      (split_and!; [done|lia|apply lookup_two; auto|done]).
Qed.
End TwoChildren.

(** A full node below a key of nibbles, perhaps an empty one. *)
Lemma below_prefix p cs f (n := match length p with O => Full cs f | _ => Short p (Full cs f) f end) :
  nibbles p → wf_node (Full cs f) →
  wf_node n ∧ ∀ k w, stored n k w ↔ ∃ r, k = p ++ r ∧ stored (Full cs f) r w.
Proof.
  intros Hp Hw. subst n. destruct p as [|z p]; simpl.
  - split; [done|]. intros k w. split; [by exists k|by intros (? & -> & ?)].
  - split; [by apply wf_ext|]. intros k w. by rewrite stored_Short.
Qed.

Lemma branch_updates p x k n f y key v :
  wf_node (Short (p ++ x :: k) n f) → leaf_key (p ++ y :: key) → x ≠ y → v ≠ [] →
  ∃ n', branch_out gen (p ++ x :: k) n (p ++ y :: key) (ValueNode v) (length p) = Ok n' ∧
        updates (Short (p ++ x :: k) n f) (p ++ y :: key) v n'.
Proof.
  intros Hw Hk Hxy Hv.
  destruct (insert_nil_child p x k n f Hw) as (Hx & Hc & Hc1 & Hc2 & Hcst).
  destruct (insert_nil_child p y key (ValueNode v) f) as (Hy & Hd & Hd1 & Hd2 & Hdst); [by apply wf_leaf|].
  assert (Hp : nibbles p) by (destruct (leaf_key_app _ _ Hk) as [[? _]|[_ ?]]; done).
  unfold branch_out. rewrite !drop_app_length, take_app_length.
  destruct (Z.ltb_spec x 17) as [_|]; [|lia]. destruct (Z.ltb_spec y 17) as [_|]; [|lia].
  eexists. split; [done|].
  pose proof (wf_two x y _ _ (newFlag gen) Hxy Hx Hy Hc Hd Hc1 Hc2 Hd1 Hd2) as Htwo.
  destruct (below_prefix p _ _ Hp Htwo) as [Hwn Hst]. split_and!; [| |done|].
  - apply wf_at_leaf; [done|by right].
  - by destruct (length p).
  - intros k' w. rewrite Hst, stored_Short. setoid_rewrite (stored_two x y _ _ _ Hxy Hx Hy Hc Hd). split.
    + intros (r & -> & [(r' & -> & (r2 & -> & H)%Hcst)|(r' & -> & (r2 & -> & [-> ->]%stored_Value)%Hdst)]).
      * right. split; [intros [= E _]%app_inv_head; done|]. exists r2. by rewrite <- app_assoc.
      * left. by rewrite app_nil_r.
    + intros [[-> ->]|[Hne (r & -> & H)]]; [exists (y :: key)|exists (x :: k ++ r); rewrite <- app_assoc].
      * split; [done|]. right. exists key. split; [done|]. apply Hdst. exists []. rewrite app_nil_r. split; [done|constructor].
      * split; [done|]. left. exists (k ++ r). split; [done|]. apply Hcst. by exists r.
Qed.

Lemma leaf_updates key v f : leaf_key key → v ≠ [] → updates Nil key v (Short key (ValueNode v) f).
Proof.
  intros Hk Hv. split_and!; [|done|done|].
  - apply wf_at_leaf; [done|]. right. by apply wf_leaf.
  - intros k w. rewrite stored_Short. setoid_rewrite stored_Value. split.
    + intros (r & -> & -> & ->). rewrite app_nil_r. by left.
    + intros [[-> ->]|[_ H%stored_Nil]]; [|done]. exists []. by rewrite app_nil_r.
Qed.

Lemma value_updates n v : wf_at n [] → v ≠ [] → updates n [] v (ValueNode v).
Proof.
  intros Ha Hv. split_and!; [right; by exists v|done| |].
  - by destruct Ha as [->|(w & _ & ->)].
  - intros k w. rewrite stored_Value. split; [auto|]. intros [[-> ->]|[Hk H]]; [done|].
    destruct Ha as [->|(w' & _ & ->)]; [by apply stored_Nil in H|]. by apply stored_Value in H as [-> _].
Qed.

Lemma hash_updates h n key v n' : loads h n → updates n key v n' → updates (HashNode h) key v n'.
Proof.
  intros Hl (Ha & Hn & Hb & Hst). split_and!; [done|done| |].
  - intros (cs & f & Hl'). apply Hb. rewrite Hl in Hl'. by injection Hl' as ->.
  - intros k w. by rewrite Hst, (stored_Hash h n).
Qed.

Lemma short_not_longer p k n f : wf_node (Short (p ++ k) n f) → leaf_key p → k = [].
Proof.
  intros Hw Hp. inversion Hw as [? v ? Hleaf Hv|? ? ? Hne Hnib Hb Hwn| |]; subst; [by apply (leaf_key_prefix p)|].
  apply Forall_app in Hnib as [Hnib _]. by destruct (leaf_key_not_nibbles p).
Qed.

Lemma insert_updates v fuel n key :
  v ≠ [] → wf_at n key → (need n key <= fuel)%nat →
  ∃ d n', insert db gen fuel n key (ValueNode v) = Ok (d, n') ∧ updates n key v n' ∧ (d = false → stored n key v).
Proof.
  intros Hv. revert n key. induction fuel as [|fuel IH]; intros n key Ha Hf; [destruct n; simpl in Hf; lia|].
  destruct key as [|x key].
  - pose proof (value_updates n v Ha Hv) as Hu. destruct Ha as [->|(w & Hw & ->)]; simpl; eexists _, _; (split; [done|]); [done|].
    split; [done|]. case_bool_decide as E; [|done]. intros _. rewrite E. constructor.
  - destruct Ha as [Hk [->|Hw]]; [by eexists _, _; split; [|split; [by apply leaf_updates|]]|].
    destruct n as [|cs f|k c f|h|w]; [by inversion Hw| | | |by inversion Hw].
    + destruct (wf_at_child _ _ _ _ Hw Hk) as (c & Hch & Hx & _ & Hc & Hac). cbn [insert]. rewrite Hch. simpl.
      destruct (IH c key Hac) as (d & n' & -> & Hu & Hd); [eapply need_shorter; [|exact Hf]; simpl; lia|].
      simpl. destruct d; eexists _, _; (split; [done|]); (split; [|rewrite (stored_child _ _ _ c); auto]).
      * by eapply full_updates.
      * apply unchanged_updates; [by split; [|right]|]. rewrite (stored_child _ _ _ c); auto.
    + destruct (prefixLen_cases (x :: key) k) as (p & key' & k' & Ek & -> & Hp & Hd). cbn [insert]. rewrite Hp.
      pose proof (wf_short_prefix _ _ _ Hw) as Hlen. rewrite Ek in *. destruct k' as [|z k'].
      * rewrite app_nil_r in *. rewrite Nat.eqb_refl, drop_app_length.
        destruct (IH c key') as (d & n' & -> & Hu & Hd'); [by eapply wf_at_short| |].
        { eapply need_shorter; [|exact Hf]. rewrite length_app. lia. }
        simpl. destruct d; eexists _, _; (split; [done|]); (split; [|rewrite stored_below; auto]).
        -- by apply short_updates.
        -- apply unchanged_updates; [apply wf_at_leaf; auto|]. rewrite stored_below. auto.
      * rewrite (proj2 (Nat.eqb_neq _ _)) by (rewrite length_app; simpl; lia). destruct key' as [|y key'].
        { rewrite app_nil_r in Hk. by pose proof (short_not_longer _ _ _ _ Hw Hk). }
        destruct (branch_updates p z k' c f y key' v) as (n' & -> & Hu); [done..|].
        simpl. eexists _, _. split; [done|]. by split.
    + inversion Hw as [| | |? n Hl Hld Hwn]; subst. cbn [insert]. rewrite Hl. simpl.
      destruct (IH n (x :: key)) as (d & n' & -> & Hu & Hd).
      { split; [done|by right]. } { destruct n; try done; simpl in *; lia. }
      simpl. destruct d; eexists _, _; (split; [done|]); (split; [|rewrite (stored_Hash h n); auto]).
      * by apply (hash_updates h n).
      * apply (hash_updates h n); [done|]. apply unchanged_updates; [by split; [|right]|auto].
Qed.

(** ** Deleting *)

Lemma single_child_after i cs q :
  match single_child i cs (Some q) with
  | Some p => p = q ∧ Forall (.= Nil) cs
  | None => ∃ j c, cs !! j = Some c ∧ c ≠ Nil
  end.
Proof.
  revert i. induction cs as [|c cs IH]; intros i; simpl; [done|].
  destruct c; try (by exists O; eexists). specialize (IH (S i)). destruct (single_child _ _ _).
  - destruct IH as [-> IH]. split; [done|by constructor].
  - destruct IH as (j & c & Hj & Hc). by exists (S j), c.
Qed.

Lemma single_child_spec i cs :
  match single_child i cs None with
  | Some p => ∃ j c, p = (i + j)%nat ∧ cs !! j = Some c ∧ c ≠ Nil ∧ ∀ j' c', cs !! j' = Some c' → c' ≠ Nil → j' = j
  | None => Forall (.= Nil) cs ∨ two_children cs
  end.
Proof.
  revert i. induction cs as [|c cs IH]; intros i; simpl; [by left|].
  destruct (Nil_or c) as [->|Hc].
  - specialize (IH (S i)). destruct (single_child _ _ _).
    + destruct IH as (j & c & -> & Hj & Hc & Hone). exists (S j), c. split_and!; [lia|done|done|].
      intros [|j'] c' Hj' Hc'; [simpl in Hj'; congruence|]. f_equal. by eapply Hone.
    + destruct IH as [IH|(j & k & c & d & Hjk & Hj & Hk & Hc & Hd)]; [left; by constructor|right].
      exists (S j), (S k), c, d. split_and!; (done || lia).
  - pose proof (single_child_after (S i) cs i) as H.
    assert (E : single_child (S i) cs (Some i) = match c with Nil => single_child (S i) cs None | _ => single_child (S i) cs (Some i) end)
      by by destruct c.
    rewrite E in H. destruct (match c with Nil => _ | _ => _ end).
    + destruct H as [-> H]. exists O, c. split_and!; [lia|done|done|].
      intros [|j'] c' Hj' Hc'; [done|]. by apply (Forall_lookup_1 _ _ _ _ H) in Hj'.
    + destruct H as (j & d & Hj & Hd). right. exists O, (S j), c, d. by split_and!.
Qed.

Lemma stored_single cs f i c k w :
  cs !! i = Some c → (∀ j d, cs !! j = Some d → d ≠ Nil → j = i) →
  stored (Full cs f) k w ↔ ∃ r, k = [Z.of_nat i] ++ r ∧ stored c r w.
Proof.
  intros Hi Hone. rewrite stored_Full. split.
  - intros (x & d & r & -> & Hx & Hd & H). assert (E : Z.to_nat x = i).
    { apply (Hone _ _ Hd). intros ->. by apply stored_Nil in H. }
    exists r. split; [simpl; f_equal; lia|]. congruence.
  - intros (r & -> & H). exists (Z.of_nat i), c, r. split_and!; [done|lia|by rewrite Nat2Z.id|done].
Qed.

Lemma wf_prepend p k n f f' : nibbles p → wf_node (Short k n f) → wf_node (Short (p ++ k) n f').
Proof.
  intros Hp Hw. inversion Hw as [? v ? Hleaf Hv|? ? ? Hne Hnib Hb Hwn| |]; subst.
  - apply wf_leaf; [by apply leaf_key_nibbles|done].
  - apply wf_ext; [by intros [_ ->]%app_eq_nil|by apply Forall_app|done|done].
Qed.

Lemma stored_prepend p k n f f' key w :
  stored (Short (p ++ k) n f') key w ↔ ∃ r, key = p ++ r ∧ stored (Short k n f) r w.
Proof.
  setoid_rewrite stored_Short. split.
  - intros (r & -> & H). exists (k ++ r). split; [by rewrite app_assoc|by exists r].
  - intros (? & -> & r & -> & H). exists r. by rewrite app_assoc.
Qed.

Definition no_hash (n : node) : Prop := match n with HashNode _ => False | _ => True end.

(** The node a full node with one child becomes. *)
Lemma reduce_single cs i c f :
  wf_children cs → cs !! i = Some c → c ≠ Nil → (∀ j d, cs !! j = Some d → d ≠ Nil → j = i) →
  single_child 0 cs None = Some i →
  ∃ n', reduce_full db gen cs = Ok n' ∧ wf_node n' ∧ no_hash n' ∧
        ∀ k w, stored n' k w ↔ stored (Full cs f) k w.
Proof.
  intros (Hlen & Hlow & Hval) Hi Hc Hone Hs. pose proof (lookup_lt_Some _ _ _ Hi).
  unfold reduce_full, child. rewrite Hs, Nat2Z.id, Hi. simpl.
  setoid_rewrite (stored_single _ f i c); [|done..]. destruct (Nat.eqb_spec i 16) as [->|Hne]; simpl.
  - destruct (Hval _ Hi) as [->|(v & Hv & ->)]; [done|].
    eexists. split_and!; [done|apply wf_leaf; [by left|done]|done|]. intros k w. by rewrite stored_Short.
  - assert (Hw : wf_node c) by (apply (Hlow i); [lia|done|done]).
    assert (Hnib : nibbles [Z.of_nat i]) by (constructor; [lia|done]).
    destruct c as [|ccs cf|ck cc cf|h|v]; [done| | | |by inversion Hw]; simpl.
    + eexists. split_and!; [done|by apply wf_ext|done|]. intros k w. by rewrite stored_Short.
    + eexists. split_and!; [done|by apply (wf_prepend [_] _ _ cf)|done|]. intros k w.
      apply (stored_prepend [_]).
    + inversion Hw as [| | |? n Hl Hld Hwn]; subst. rewrite Hl. simpl. setoid_rewrite (stored_Hash h n); [|done].
      destruct n as [|ccs cf|ck cc cf| |]; try done.
      * eexists. split_and!; [done|apply wf_ext; [done|done|by eexists _, _|done]|done|].
        intros k w. rewrite stored_Short. by setoid_rewrite (stored_Hash h _ _ _ Hl).
      * eexists. split_and!; [done|by apply (wf_prepend [_] _ _ cf)|done|]. intros k w.
        apply (stored_prepend [_]).
Qed.

Lemma reduce_full_stores cs f :
  wf_children cs → (∃ i c, cs !! i = Some c ∧ c ≠ Nil) →
  ∃ n', reduce_full db gen cs = Ok n' ∧ wf_node n' ∧ no_hash n' ∧
        ∀ k w, stored n' k w ↔ stored (Full cs f) k w.
Proof.
  intros Hcs (i & c & Hi & Hc). pose proof (single_child_spec 0 cs) as Hs.
  destruct (single_child 0 cs None) as [p|] eqn:E.
  - destruct Hs as (j & d & -> & Hj & Hd & Hone). by eapply reduce_single.
  - destruct Hs as [Hs|Hs]; [by apply (Forall_lookup_1 _ _ _ _ Hs) in Hi|].
    unfold reduce_full. rewrite E. eexists. split_and!; [done|by apply wf_full_inv|done|].
    intros k w. by rewrite !stored_Full.
Qed.

Definition removes (n : node) (key : bytes) (n' : node) : Prop :=
  wf_at n' key ∧ ∀ k w, stored n' k w ↔ k ≠ key ∧ stored n k w.

Lemma unchanged_removes n key : wf_at n key → (∀ w, ¬ stored n key w) → removes n key n.
Proof.
  intros Ha Hn. split; [done|]. intros k w. split; [|by intros [_ ?]].
  intros H. split; [|done]. intros ->. by apply Hn in H.
Qed.

Lemma full_removes cs f x c key c' :
  wf_node (Full cs f) → leaf_key (x :: key) → 0 ≤ x → cs !! Z.to_nat x = Some c → removes c key c' →
  ∃ n', reduce_full db gen (<[Z.to_nat x := c']> cs) = Ok n' ∧ removes (Full cs f) (x :: key) n' ∧ no_hash n'.
Proof.
  intros Hw Hk Hx Hc [Ha Hst]. pose proof Hw as [Hcs Htwo]%wf_full_inv.
  pose proof (lookup_lt_Some _ _ _ Hc) as Hlt.
  destruct (reduce_full_stores (<[Z.to_nat x := c']> cs) f) as (n' & -> & Hwn & Hno & Hst').
  { by eapply wf_children_put. }
  { destruct Htwo as (i & j & d & e & Hij & Hi & Hj & Hd & He). destruct (decide (Z.to_nat x = i)) as [E|E].
    - exists j, e. by rewrite list_lookup_insert_ne by congruence.
    - exists i, d. by rewrite list_lookup_insert_ne. }
  exists n'. split_and!; [done| |done]. split; [apply wf_at_leaf; auto|]. intros k w.
  rewrite Hst', (stored_full_put cs x c' f) by done. split.
  - intros [(r & -> & [Hr H]%Hst)|[Hh H]]; [|split; [by intros ->|done]].
    split; [congruence|]. by apply (stored_child _ _ _ c).
  - intros [Hne H]. destruct (decide (head k = Some x)) as [E|]; [left|by right].
    destruct k as [|y r]; [done|]. injection E as ->. exists r. split; [done|].
    apply Hst. split; [congruence|]. by apply (stored_child _ f _ c) in H.
Qed.

(** Deleting the whole of a short node. *)
Lemma leaf_removes k n f : wf_node (Short k n f) → leaf_key k → removes (Short k n f) k Nil.
Proof.
  intros Hw Hk. split; [apply wf_at_leaf; auto|]. intros k' w. split; [by intros H%stored_Nil|].
  intros [Hne H]. pose proof (stored_leaf _ _ _ Hw H) as [Hk' _].
  apply stored_Short in H as (r & -> & _). destruct Hne. by rewrite (leaf_key_prefix k r), app_nil_r.
Qed.

(** The node above the rest of a subtrie. *)
Definition join (k : bytes) (c : node) : node :=
  match c with Short k' v' _ => Short (k ++ k') v' (newFlag gen) | _ => Short k c (newFlag gen) end.

Lemma short_removes k n f key c :
  wf_node (Short k n f) → leaf_key (k ++ key) → key ≠ [] → removes n key c → no_hash c →
  removes (Short k n f) (k ++ key) (join k c).
Proof.
  intros Hw Hk Hne [Ha Hst] Hno.
  inversion Hw as [? v ? Hleaf Hv|? ? ? Hkne Hnib Hb Hwn| |]; subst; [by apply leaf_key_prefix in Hk|].
  destruct (branch_two n key Hwn Hb) as (k0 & v0 & Hk0 & H0).
  assert (Hc : c ≠ Nil). { intros ->. eapply stored_Nil, Hst. by split. }
  assert (Hwc : wf_node c) by (destruct key; [done|]; by destruct Ha as [_ [?|?]]).
  assert (Hjoin : wf_node (join k c) ∧ ∀ k' w, stored (join k c) k' w ↔ ∃ r, k' = k ++ r ∧ stored c r w).
  { destruct c as [|ccs cf|ck cc cf| |]; try done; simpl.
    - split; [by apply wf_ext|]. intros. by rewrite stored_Short.
    - split; [by eapply wf_prepend|]. intros. apply stored_prepend.
    - by inversion Hwc. }
  destruct Hjoin as [Hwj Hj]. split; [apply wf_at_leaf; auto|]. intros k' w. rewrite Hj, stored_Short. split.
  - intros (r & -> & [Hr H]%Hst). split; [by intros E%app_inv_head|by exists r].
  - intros [Hr (r & -> & H)]. exists r. split; [done|]. apply Hst. split; [by intros ->|done].
Qed.

Lemma hash_removes h n key n' : loads h n → removes n key n' → removes (HashNode h) key n'.
Proof. intros Hl [Ha Hst]. split; [done|]. intros k w. by rewrite Hst, (stored_Hash h n). Qed.

Lemma delete_short fuel k c f key :
  (∀ n key, wf_at n key → (need n key <= fuel)%nat →
   ∃ d n', delete db gen fuel n key = Ok (d, n') ∧ removes n key n' ∧
           (if d then no_hash n' else ∀ w, ¬ stored n key w)) →
  wf_node (Short k c f) → leaf_key key → (S (2 * length key) <= S fuel)%nat →
  ∃ d n', delete db gen (S fuel) (Short k c f) key = Ok (d, n') ∧ removes (Short k c f) key n' ∧
          (if d then no_hash n' else ∀ w, ¬ stored (Short k c f) key w).
Proof.
  intros IH Hw Hk Hf. destruct (prefixLen_cases key k) as (p & key' & k' & -> & -> & Hp & Hd).
  cbn [delete]. rewrite Hp. pose proof (wf_short_prefix _ _ _ Hw) as Hlen.
  destruct k' as [|z k']; rewrite !length_app; cbn [length].
  - rewrite app_nil_r in *. rewrite Nat.add_0_r, Nat.ltb_irrefl.
    destruct key' as [|y key'].
    + rewrite app_nil_r in *. rewrite Nat.add_0_r, Nat.eqb_refl. eexists _, _. split; [done|]. split; [by apply leaf_removes|done].
    + rewrite (proj2 (Nat.eqb_neq _ _)) by (simpl; lia). rewrite drop_app_length.
      destruct (IH c (y :: key')) as (d & n' & -> & Hr & Hd'); [by eapply wf_at_short| |].
      { eapply need_shorter; [|exact Hf]. rewrite length_app. lia. }
      simpl. destruct d; eexists _, _; (split; [done|]).
      * split; [by apply short_removes|by destruct n'].
      * assert (Hn : ∀ w, ¬ stored (Short p c f) (p ++ y :: key') w) by (intros w; by rewrite stored_below).
        split; [|done]. apply unchanged_removes; [apply wf_at_leaf; auto|done].
  - destruct (Nat.ltb_spec (length p) (length p + S (length k'))) as [_|]; [|lia]. eexists _, _. split; [done|].
    assert (Hn : ∀ w, ¬ stored (Short (p ++ z :: k') c f) (p ++ key') w).
    { intros w (r & E & _)%stored_Short. rewrite <- app_assoc in E. apply app_inv_head in E as ->. by destruct Hd. }
    split; [|done]. apply unchanged_removes; [apply wf_at_leaf; auto|done].
Qed.

Lemma delete_removes fuel n key :
  wf_at n key → (need n key <= fuel)%nat →
  ∃ d n', delete db gen fuel n key = Ok (d, n') ∧ removes n key n' ∧
          (if d then no_hash n' else ∀ w, ¬ stored n key w).
Proof.
  revert n key. induction fuel as [|fuel IH]; intros n key Ha Hf; [destruct n; simpl in Hf; lia|].
  assert (Hnil : n = Nil → removes n key Nil ∧ ∀ w, ¬ stored n key w).
  { intros ->. pose proof (λ w, stored_Nil key w). split; [by apply unchanged_removes|done]. }
  destruct key as [|x key].
  - destruct Ha as [->|(v & Hv & ->)]; simpl; eexists _, _; (split; [done|]); [by apply Hnil|].
    split; [|done]. split; [by left|]. intros k w. rewrite stored_Value.
    split; [by intros H%stored_Nil|by intros (? & ? & _)].
  - destruct Ha as [Hk [->|Hw]]; [by exists false, Nil; split; [|apply Hnil]|].
    destruct n as [|cs f|k c f|h|w]; [by inversion Hw| | | |by inversion Hw].
    + destruct (wf_at_child _ _ _ _ Hw Hk) as (c & Hch & Hx & _ & Hc & Hac). cbn [delete]. rewrite Hch. simpl.
      destruct (IH c key Hac) as (d & n' & -> & Hr & Hd); [eapply need_shorter; [|exact Hf]; simpl; lia|].
      simpl. destruct d.
      * destruct (full_removes cs f x c key n') as (n2 & -> & Hr2 & Hno); [done..|]. by eexists _, _.
      * assert (Hn : ∀ w, ¬ stored (Full cs f) (x :: key) w) by (intros w; by rewrite (stored_child _ _ _ c)).
        eexists _, _. split; [done|]. split; [|done]. apply unchanged_removes; [apply wf_at_leaf; auto|done].
    + by apply delete_short.
    + inversion Hw as [| | |? n Hl Hld Hwn]; subst. cbn [delete]. rewrite Hl. simpl.
      destruct (IH n (x :: key)) as (d & n' & -> & Hr & Hd).
      { split; [done|by right]. } { destruct n; try done; simpl in *; lia. }
      simpl. destruct d; eexists _, _; (split; [done|]); (split; [apply (hash_removes h n); [done|]|]); try done.
      * by apply unchanged_removes; [split; [|right]|].
      * intros w. by rewrite (stored_Hash h n).
Qed.
End Stored.

(** ** The trie as a map *)

(** The trie is well-formed and stores [m] under the hex keys. *)
Record represents (db : TrieDB) (t : Trie) (m : gmap bytes bytes) : Prop := {
  rep_wf : root t = Nil ∨ wf_node db (cachegen t) (root t);
  rep_keys : ∀ key v, m !! key = Some v → wf_bytes key;
  rep_stored : ∀ k v, stored db (cachegen t) (root t) k v ↔ ∃ key, k = keybytesToHex key ∧ m !! key = Some v
}.

Section Map.
Context (db : TrieDB) (t : Trie) (m : gmap bytes bytes).
Context (Hrep : represents db t m).

Lemma root_wf_at key : wf_bytes key → wf_at db (cachegen t) (root t) (keybytesToHex key).
Proof. intros Hk. apply wf_at_leaf; [by apply leaf_key_hex|by apply Hrep]. Qed.

Lemma stored_root key v : wf_bytes key → stored db (cachegen t) (root t) (keybytesToHex key) v ↔ m !! key = Some v.
Proof.
  intros Hk. rewrite (rep_stored _ _ _ Hrep). split; [|by exists key].
  intros (key' & E & H). apply keybytesToHex_inj in E as ->; [done|done|by eapply rep_keys].
Qed.

Lemma wf_at_root n key : wf_bytes key → wf_at db (cachegen t) n (keybytesToHex key) → n = Nil ∨ wf_node db (cachegen t) n.
Proof. intros Hk%leaf_key_hex. destruct (keybytesToHex key); [done|]. by intros [_ ?]. Qed.

Lemma get_represents key :
  wf_bytes key → ∃ t', TryGet db t key = Ok (m !! key, t') ∧ represents db t' m.
Proof.
  intros Hk. unfold TryGet.
  destruct (tryGet_reads db (cachegen t) _ _ _ (root_wf_at key Hk) (need_le _ _)) as (val & n' & res & -> & Hval & Ha & Hst & _).
  simpl. assert (val = m !! key) as ->.
  { apply option_eq. intros v. by rewrite Hval, stored_root. }
  eexists. split; [done|]. destruct res; [|done]. split; simpl.
  - by eapply wf_at_root.
  - apply Hrep.
  - intros k v. by rewrite Hst, (rep_stored _ _ _ Hrep).
Qed.

Lemma insert_represents key v :
  wf_bytes key → v ≠ [] →
  ∃ d n, insert db (cachegen t) (depth (keybytesToHex key)) (root t) (keybytesToHex key) (ValueNode v) = Ok (d, n) ∧
         represents db (put_root t n) (<[key := v]> m).
Proof.
  intros Hk Hv.
  destruct (insert_updates db (cachegen t) v _ _ _ Hv (root_wf_at key Hk) (need_le _ _)) as (d & n & -> & (Ha & _ & _ & Hst) & _).
  eexists _, _. split; [done|]. split; simpl.
  - by eapply wf_at_root.
  - intros k w [[<- _]|[_ H]]%lookup_insert_Some; [done|by eapply rep_keys].
  - intros k w. rewrite Hst, (rep_stored _ _ _ Hrep). setoid_rewrite lookup_insert_Some. split.
    + intros [[-> ->]|[Hne (key' & -> & H)]]; [by exists key; auto|]. exists key'. split; [done|].
      right. split; [by intros ->|done].
    + intros (key' & -> & [[<- ->]|[Hne H]]); [by left|right]. split; [|by exists key'].
      intros E. apply keybytesToHex_inj in E; [done|by eapply rep_keys|done].
Qed.

Lemma delete_represents key :
  wf_bytes key →
  ∃ d n, delete db (cachegen t) (depth (keybytesToHex key)) (root t) (keybytesToHex key) = Ok (d, n) ∧
         represents db (put_root t n) (base.delete key m).
Proof.
  intros Hk.
  destruct (delete_removes db (cachegen t) _ _ _ (root_wf_at key Hk) (need_le _ _)) as (d & n & -> & (Ha & Hst) & _).
  eexists _, _. split; [done|]. split; simpl.
  - by eapply wf_at_root.
  - intros k w [_ H]%lookup_delete_Some. by eapply rep_keys.
  - intros k w. rewrite Hst, (rep_stored _ _ _ Hrep). setoid_rewrite lookup_delete_Some. split.
    + intros [Hne (key' & -> & H)]. exists key'. split; [done|]. split; [by intros ->|done].
    + intros (key' & -> & Hne & H). split; [|by exists key'].
      intros E. apply keybytesToHex_inj in E; [done|by eapply rep_keys|done].
Qed.
End Map.
