(* ===== verification/TrieHash.v ===== *)
(** * The root hash of a trie

    The hash of a trie is a function of what it stores: neither the order of
    the operations that built it, nor which of its nodes are loaded or have
    their hash cached, matter. *)

From Stdlib Require Import ZArith Lia.
From stdpp Require Import base option list gmap strings.
From S2P Require Import Prelude Rlp Types Trie TrieKeys TrieProps.

(** A hash loads one node. *)
Ltac same_load :=
  match goal with
  | H : resolveHash ?db ?gen ?h = Ok ?n, H' : resolveHash ?db ?gen ?h = Ok ?n' |- _ =>
      assert (n' = n) by congruence; subst n'; clear H'
  end.

(** ** Nodes up to their flags *)

Lemma node_tree_ind (P : node → Prop) :
  P Nil → (∀ cs f, Forall P cs → P (Full cs f)) → (∀ k v f, P v → P (Short k v f)) →
  (∀ h, P (HashNode h)) → (∀ v, P (ValueNode v)) → ∀ n, P n.
Proof.
  intros Hnil Hfull Hshort Hhash Hvalue. fix IH 1. intros [|cs f|k v f|h|v]; [done| |by apply Hshort|done|done].
  apply Hfull. induction cs; constructor; [apply IH|done].
Qed.

Abbreviation alike n n' := (simplifyNode n = simplifyNode n').

Lemma alike_full cs f n' : alike (Full cs f) n' → ∃ cs' f', n' = Full cs' f' ∧ Forall2 (λ c c', alike c c') cs cs'.
Proof.
  destruct n' as [|cs' f'| | |]; simpl; try done. intros [= E]. exists cs', f'. split; [done|].
  revert cs' E. induction cs as [|c cs IH]; intros [|c' cs'] E; try done.
  injection E as E1 E2. constructor; auto.
Qed.

Lemma alike_short k v f n' : alike (Short k v f) n' → ∃ v' f', n' = Short k v' f' ∧ alike v v'.
Proof. destruct n' as [| |k' v' f'| |]; simpl; try done. intros [= -> E]. by exists v', f'. Qed.

Lemma alike_other n n' : alike n n' → match n with Full _ _ | Short _ _ _ => True | _ => n' = n end.
Proof. destruct n, n'; simpl; (done || congruence). Qed.

Section Alike.
Context (db : TrieDB) (gen : Z).

Lemma stored_alike n n' k v : alike n n' → stored db gen n k v → stored db gen n' k v.
Proof.
  intros Ha H. revert n' Ha. induction H as [v|k n f r v H IH|cs f x c r v Hx Hc H IH|h n k v Hl H IH]; intros n' Ha.
  - apply alike_other in Ha as ->. constructor.
  - apply alike_short in Ha as (v' & f' & -> & Ha). constructor. auto.
  - apply alike_full in Ha as (cs' & f' & -> & Ha). destruct (Forall2_lookup_l _ _ _ _ _ Ha Hc) as (c' & Hc' & Hcc).
    eapply st_full; eauto.
  - apply alike_other in Ha as ->. by eapply st_hash.
Qed.

Lemma alike_branch n n' : alike n n' → is_branch db gen n → is_branch db gen n'.
Proof. destruct n, n'; simpl; try done. by intros [= ->]. Qed.

Lemma alike_Nil n n' : alike n n' → n = Nil ↔ n' = Nil.
Proof. by destruct n, n'. Qed.

Lemma wf_alike n n' : alike n n' → wf_node db gen n → wf_node db gen n'.
Proof.
  intros Ha Hw. revert n' Ha.
  induction Hw as [k v f Hk Hv|k n f Hne Hnib Hb Hw IH|cs f Hlen Htwo Hlow IH Hval|h n Hl Hld Hw IH]; intros n' Ha.
  - apply alike_short in Ha as (v' & f' & -> & Ha). apply alike_other in Ha as ->. by apply wf_leaf.
  - apply alike_short in Ha as (v' & f' & -> & Ha). apply wf_ext; [done|done|by eapply alike_branch|auto].
  - apply alike_full in Ha as (cs' & f' & -> & Ha). apply wf_full.
    + by rewrite <- (Forall2_length _ _ _ Ha).
    + destruct Htwo as (i & j & c & d & Hij & Hi & Hj & Hc & Hd).
      destruct (Forall2_lookup_l _ _ _ _ _ Ha Hi) as (c' & Hc' & Hcc).
      destruct (Forall2_lookup_l _ _ _ _ _ Ha Hj) as (d' & Hd' & Hdd).
      exists i, j, c', d'. split_and!; [done..| |]; intros E; [apply Hc|apply Hd]; by eapply alike_Nil.
    + intros i c' Hi Hc' Hne. destruct (Forall2_lookup_r _ _ _ _ _ Ha Hc') as (c & Hc & Hcc).
      eapply (IH i c); [done|done| |done]. intros E. apply Hne. by eapply alike_Nil in Hcc as [Hcc _]; apply Hcc.
    + intros c' Hc'. destruct (Forall2_lookup_r _ _ _ _ _ Ha Hc') as (c & Hc & Hcc).
      destruct (Hval c Hc) as [->|(v & Hv & ->)]; apply alike_other in Hcc as ->; [by left|right; by exists v].
  - apply alike_other in Ha as ->. by eapply wf_hash.
Qed.
End Alike.

(** ** The item of a node *)

Section Items.
Context {C : Crypto}.

(** An item longer than a hash is replaced by its hash. *)
Definition embed (it : item) : item :=
  if (length (rlp_encode it) <? 32)%nat then it else RStr (Keccak256 (rlp_encode it)).

Definition compact (k : bytes) : bytes := match hexToCompact k with Ok c => c | _ => [] end.

(** What stands for a node in its parent. *)
Fixpoint ref_item (n : node) : item :=
  match n with
  | Nil => RStr []
  | ValueNode v => RStr v
  | HashNode h => RStr h
  | Short k v _ => embed (RList [RStr (compact k); ref_item v])
  | Full cs _ => embed (RList (ref_item <$> cs))
  end.

(** What a loaded node is hashed from. *)
Definition own_item (n : node) : item :=
  match n with
  | Short k v _ => RList [RStr (compact k); ref_item v]
  | Full cs _ => RList (ref_item <$> cs)
  | n => node_item n
  end.

Lemma ref_own n : is_loaded n → ref_item n = embed (own_item n).
Proof. by destruct n. Qed.

(** The hash of the item; below the root only long items are hashed. *)
Definition hash_ok (rooted : bool) (h : bytes) (it : item) : Prop :=
  h = Keccak256 (rlp_encode it) ∧ (rooted = false → (32 <= length (rlp_encode it))%nat).

Lemma hash_ok_embed h it : hash_ok false h it → embed it = RStr h.
Proof. intros [-> H]. unfold embed. destruct (Nat.ltb_spec (length (rlp_encode it)) 32); [specialize (H eq_refl); lia|done]. Qed.

Definition own_hash (n : node) : bytes := Keccak256 (rlp_encode (own_item n)).

Lemma hash_ok_own b h n : hash_ok b h (own_item n) → h = own_hash n.
Proof. by intros [-> _]. Qed.

(** ** The node as it is stored *)

(** What stands for a node in the stored form of its parent, once loaded. *)
Fixpoint fold_ref (gen : Z) (n : node) : node :=
  match n with
  | Short k v _ =>
      let it := RList [RStr (compact k); ref_item v] in
      if (length (rlp_encode it) <? 32)%nat then Short k (fold_ref gen v) (stored_flag None gen)
      else HashNode (Keccak256 (rlp_encode it))
  | Full cs _ =>
      let it := RList (ref_item <$> cs) in
      if (length (rlp_encode it) <? 32)%nat then Full (fold_ref gen <$> cs) (stored_flag None gen)
      else HashNode (Keccak256 (rlp_encode it))
  | n => n
  end.

Definition fold_node (hash : option bytes) (gen : Z) (n : node) : node :=
  match n with
  | Short k v _ => Short k (fold_ref gen v) (stored_flag hash gen)
  | Full cs _ => Full (fold_ref gen <$> cs) (stored_flag hash gen)
  | n => n
  end.

Lemma fold_ref_own gen n :
  is_loaded n →
  fold_ref gen n = if (length (rlp_encode (own_item n)) <? 32)%nat then fold_node None gen n else HashNode (own_hash n).
Proof. by destruct n. Qed.

Section Sound.
Context (db : TrieDB) (gen : Z).

(** The database has the node. *)
Definition in_db (n : node) : Prop :=
  ∀ g, resolveHash db g (own_hash n) = Ok (fold_node (Some (own_hash n)) g n).

(** The database has the parts of a node that are stored on their own. *)
Inductive refs : node → Prop :=
| refs_other n : ¬ is_loaded n → refs n
| refs_short k v f :
    refs v → ((32 <= length (rlp_encode (own_item (Short k v f))))%nat → in_db (Short k v f)) → refs (Short k v f)
| refs_full cs f :
    Forall refs cs → ((32 <= length (rlp_encode (own_item (Full cs f))))%nat → in_db (Full cs f)) → refs (Full cs f).

Definition below (n : node) : Prop :=
  match n with
  | Short _ v _ => refs v
  | Full cs _ => Forall refs cs
  | _ => True
  end.

(** Cached hashes are the hashes of the nodes; nodes that are not dirty are in
    the database, on their own or in their parent. *)
Record flags_sound (b : bool) (n : node) (f : nodeFlag) : Prop := {
  fs_hash : ∀ h, flag_hash f = Some h → hash_ok b h (own_item n);
  fs_clean : flag_dirty f = false →
             match flag_hash f with
             | Some _ => in_db n ∧ below n
             | None => b = false ∧ (length (rlp_encode (own_item n)) < 32)%nat
             end
}.

Inductive sound : bool → node → Prop :=
| so_nil b : sound b Nil
| so_value b v : sound b (ValueNode v)
| so_short b k n f : sound false n → flags_sound b (Short k n f) f → sound b (Short k n f)
| so_full b cs f : Forall (sound false) cs → flags_sound b (Full cs f) f → sound b (Full cs f)
| so_hash b h n :
    resolveHash db gen h = Ok n → is_loaded n → sound b n → hash_ok b h (own_item n) → in_db n → sound b (HashNode h).

Lemma new_flags b n : flags_sound b n (newFlag gen).
Proof. by split. Qed.

Lemma sound_short b k n f : sound b (Short k n f) → sound false n.
Proof. by inversion 1. Qed.

Lemma sound_child b cs f x c : sound b (Full cs f) → child cs x = Ok c → sound false c.
Proof.
  inversion 1 as [| | |? ? ? Hcs|]; subst. unfold child. destruct (cs !! Z.to_nat x) as [d|] eqn:E; [|done].
  intros [= <-]. by apply (Forall_lookup_1 _ _ _ _ Hcs) in E.
Qed.

Lemma sound_children b cs f : sound b (Full cs f) → Forall (sound false) cs.
Proof. by inversion 1. Qed.

Lemma sound_new_short b k n : sound false n → sound b (Short k n (newFlag gen)).
Proof. intros. apply so_short; [done|apply new_flags]. Qed.

Lemma sound_new_full b cs : Forall (sound false) cs → sound b (Full cs (newFlag gen)).
Proof. intros. apply so_full; [done|apply new_flags]. Qed.

(** ** Loading keeps what a node stands for *)

Definition same_ref (n n' : node) : Prop := ref_item n' = ref_item n ∧ ∀ g, fold_ref g n' = fold_ref g n.

Definition same_own (n n' : node) : Prop :=
  is_loaded n' ∧ own_item n' = own_item n ∧ (∀ h g, fold_node h g n' = fold_node h g n) ∧ (below n → below n').

Lemma same_own_ref n n' : is_loaded n → same_own n n' → same_ref n n' ∧ (refs n → refs n').
Proof.
  intros Hld (Hld' & E & Ef & Hb). split.
  - split; [by rewrite !ref_own, E by done|]. intros g. rewrite !fold_ref_own, E, Ef by done. unfold own_hash. by rewrite E.
  - intros Hr. assert (Hin : (32 <= length (rlp_encode (own_item n')))%nat → in_db n').
    { rewrite E. intros H g. unfold own_hash. rewrite E, Ef.
      assert (Hn : in_db n) by (inversion Hr; subst; auto; done). apply Hn. }
    assert (Hb' : below n') by (apply Hb; by inversion Hr; subst).
    destruct n'; try done; [by apply refs_full|by apply refs_short].
Qed.

Lemma same_own_flags b n n' f : same_own n n' → flags_sound b n f → flags_sound b n' (with_gen gen f).
Proof.
  intros (Hld' & E & Ef & Hb) [Hh Hc]. split; simpl.
  - by rewrite E.
  - intros Hd. specialize (Hc Hd). destruct (flag_hash f) as [h|]; [|by rewrite E]. destruct Hc as [Hin Hbn].
    split; [|auto]. intros g. unfold own_hash. rewrite E, Ef. apply Hin.
Qed.

Lemma same_own_short k n n' f f' : same_ref n n' ∧ (refs n → refs n') → same_own (Short k n f) (Short k n' f').
Proof. intros [[E Ef] Hr]. split_and!; [done|simpl; by rewrite E|intros; simpl; by rewrite Ef|done]. Qed.

Lemma same_own_full cs i c n' f f' :
  cs !! i = Some c → same_ref c n' ∧ (refs c → refs n') → same_own (Full cs f) (Full (<[i := n']> cs) f').
Proof.
  intros Hc [[E Ef] Hr].
  assert (Hid : ∀ A (g : node → A), g n' = g c → g <$> <[i := n']> cs = g <$> cs).
  { intros A g Hg. rewrite list_fmap_insert, Hg. apply list_insert_id. by rewrite list_lookup_fmap, Hc. }
  split_and!; [done|simpl; by rewrite Hid|intros; simpl; by rewrite Hid|]. intros Hcs. apply Forall_insert; [done|].
  apply Hr. by apply (Forall_lookup_1 _ _ _ _ Hcs) in Hc.
Qed.

(** A node that was loaded. *)
Lemma loaded_refs h n :
  resolveHash db gen h = Ok n → is_loaded n → sound false n → hash_ok false h (own_item n) → in_db n →
  same_ref (HashNode h) n ∧ refs n.
Proof.
  intros Hl Hld Hs Hok Hin. split.
  - split; [by rewrite ref_own, (hash_ok_embed h)|]. intros g. rewrite fold_ref_own by done.
    destruct Hok as [-> Hlong]. destruct (Nat.ltb_spec (length (rlp_encode (own_item n))) 32) as [H|]; [|done].
    specialize (Hlong eq_refl). lia.
  - assert (Hb : below n).
    { pose proof (Hin gen) as Hf. rewrite <- (hash_ok_own _ _ _ Hok), Hl in Hf. injection Hf as Hf.
      inversion Hs as [| |? k v f _ Hfl|? cs f _ Hfl|]; subst; try done; simpl in Hf; injection Hf as _ Ef;
        pose proof (fs_clean _ _ _ Hfl) as H; rewrite Ef in H; by destruct H. }
    destruct n; try done; [by apply refs_full|by apply refs_short].
Qed.

Lemma tryGet_sound fuel b n key val n' res :
  sound b n → tryGet db gen fuel n key = Ok (val, n', res) →
  sound b n' ∧ (is_loaded n → same_own n n') ∧ (b = false → same_ref n n' ∧ (refs n → refs n')).
Proof.
  revert b n key val n' res. induction fuel as [|fuel IH]; intros b n key val n' res Hs H; [done|].
  assert (Hown : is_loaded n → same_own n n' → (is_loaded n → same_own n n') ∧ (b = false → same_ref n n' ∧ (refs n → refs n'))).
  { intros Hld Hso. split; [done|]. intros _. by apply same_own_ref. }
  destruct n as [|cs f|k c f|h|v]; cbn [tryGet] in H; [by simplify_eq| | | |by simplify_eq].
  - destruct key as [|x key]; [done|]. destruct (child cs x) as [c| | |] eqn:Hc; try done. simpl in H.
    destruct (tryGet db gen fuel c key) as [[[v nn] r]| | |] eqn:Hr; try done. simpl in H. injection H as -> <- ->.
    destruct res; [|split; [done|by apply Hown]].
    destruct (IH _ _ _ _ _ _ (sound_child _ _ _ _ _ Hs Hc) Hr) as (Hnn & _ & Href).
    unfold child in Hc. destruct (cs !! Z.to_nat x) as [d|] eqn:Hd; [|done]. simplify_eq.
    pose proof (same_own_full _ _ _ _ f (with_gen gen f) Hd (Href eq_refl)) as Hso.
    split; [|by apply Hown]. inversion Hs as [| | |? ? ? Hcs Hf|]; subst.
    apply so_full; [by apply Forall_insert|]. by eapply same_own_flags.
  - case_bool_decide; [|by simplify_eq; split; [|apply Hown]].
    destruct (tryGet db gen fuel c _) as [[[v nn] r]| | |] eqn:Hr; try done.
    simpl in H. injection H as -> <- ->. destruct res; [|split; [done|by apply Hown]].
    destruct (IH _ _ _ _ _ _ (sound_short _ _ _ _ Hs) Hr) as (Hnn & _ & Href).
    pose proof (same_own_short k _ _ f (with_gen gen f) (Href eq_refl)) as Hso.
    split; [|by apply Hown]. inversion Hs as [| |? ? ? ? Hc Hf| |]; subst.
    apply so_short; [done|]. by eapply same_own_flags.
  - destruct (resolveHash db gen h) as [c| | |] eqn:Hc; try done. simpl in H.
    destruct (tryGet db gen fuel c key) as [[[v nn] r]| | |] eqn:Hr; try done. simpl in H. simplify_eq.
    inversion Hs as [| | | |? ? n Hl Hld Hsn Hok Hin]; subst. rewrite Hc in Hl. simplify_eq.
    destruct (IH _ _ _ _ _ _ Hsn Hr) as (Hnn & _ & Href). split; [done|]. split; [done|]. intros ->.
    destruct (loaded_refs h n Hc Hld Hsn Hok Hin) as [[E Ef] Hrn]. destruct (Href eq_refl) as [[E' Ef'] Hrr].
    split; [|auto]. split; [congruence|]. intros g. by rewrite Ef', Ef.
Qed.

Lemma insert_nil_sound k n : sound false n → sound false (insert_nil gen k n).
Proof. intros Hn. destruct k; [done|by apply sound_new_short]. Qed.

Lemma branch_out_sound b k v key value len n' :
  sound false v → sound false value → branch_out gen k v key value len = Ok n' → sound b n'.
Proof.
  intros Hv Hvalue H. unfold branch_out in H. destruct (drop len k) as [|x k'], (drop len key) as [|y key']; try done.
  destruct (_ && _); [|done]. simplify_eq.
  assert (Hcs : Forall (sound false) (<[Z.to_nat y := insert_nil gen key' value]> (<[Z.to_nat x := insert_nil gen k' v]> (replicate 17 Nil)))).
  { apply Forall_insert; [|by apply insert_nil_sound]. apply Forall_insert; [|by apply insert_nil_sound].
    apply Forall_replicate. constructor. }
  destruct len; [by apply sound_new_full|]. apply sound_new_short. by apply sound_new_full.
Qed.

Lemma insert_sound fuel b n key v d n' :
  sound b n → insert db gen fuel n key (ValueNode v) = Ok (d, n') → sound b n'.
Proof.
  revert b n key d n'. induction fuel as [|fuel IH]; intros b n key d n' Hs H; [done|]. cbn [insert] in H.
  destruct key as [|x key]; [destruct n; simplify_eq; constructor|].
  destruct n as [|cs f|k c f|h|w]; [simplify_eq; apply sound_new_short; constructor| | | |done].
  - destruct (child cs x) as [c| | |] eqn:Hc; try done. simpl in H.
    destruct (insert db gen fuel c key _) as [[dirty nn]| | |] eqn:Hi; try done. simpl in H.
    destruct dirty; simplify_eq; [|done]. apply sound_new_full, Forall_insert; [by eapply sound_children|].
    eapply IH; [|done]. by eapply sound_child.
  - destruct (_ =? _)%nat.
    + destruct (insert db gen fuel c _ _) as [[dirty nn]| | |] eqn:Hi; try done. simpl in H.
      destruct dirty; simplify_eq; [|done]. apply sound_new_short. eapply IH; [|done]. by eapply sound_short.
    + destruct (branch_out _ _ _ _ _ _) as [nn| | |] eqn:Hb; try done. simpl in H. simplify_eq.
      eapply branch_out_sound; [|constructor|done]. by eapply sound_short.
  - destruct (resolveHash db gen h) as [c| | |] eqn:Hc; try done. simpl in H.
    inversion Hs as [| | | |? ? n Hl Hld Hsn Hok Hin]; subst. rewrite Hc in Hl. simplify_eq.
    destruct (insert db gen fuel n _ _) as [[dirty nn]| | |] eqn:Hi; try done. simpl in H.
    destruct dirty; simplify_eq; [by eapply IH|done].
Qed.

Lemma reduce_full_sound b cs n' :
  Forall (sound false) cs → reduce_full db gen cs = Ok n' → sound b n'.
Proof.
  intros Hcs H. unfold reduce_full in H. destruct (single_child 0 cs None) as [pos|]; [|simplify_eq; by apply sound_new_full].
  unfold child in H. rewrite Nat2Z.id in H. destruct (cs !! pos) as [c|] eqn:Hc; [|done]. simpl in H.
  apply (Forall_lookup_1 _ _ _ _ Hcs) in Hc. destruct (negb _); [|simplify_eq; by apply sound_new_short].
  destruct (resolve db gen c) as [cn| | |] eqn:Hr; try done. simpl in H.
  assert (Hcn : sound false cn).
  { destruct c as [| | |h|]; simpl in Hr; try (injection Hr as <-; done).
    inversion Hc as [| | | |? ? n Hl Hld Hsn Hok Hin]; subst. congruence. }
  destruct cn; simplify_eq; try by apply sound_new_short. apply sound_new_short. by eapply sound_short.
Qed.

Lemma delete_sound fuel b n key d n' :
  sound b n → delete db gen fuel n key = Ok (d, n') → sound b n'.
Proof.
  revert b n key d n'. induction fuel as [|fuel IH]; intros b n key d n' Hs H; [done|]. cbn [delete] in H.
  destruct n as [|cs f|k c f|h|w]; [by simplify_eq| | | |simplify_eq; constructor].
  - destruct key as [|x key]; [done|]. destruct (child cs x) as [c| | |] eqn:Hc; try done. simpl in H.
    destruct (delete db gen fuel c key) as [[dirty nn]| | |] eqn:Hi; try done. simpl in H.
    destruct dirty; [|by simplify_eq]. destruct (reduce_full _ _ _) as [r| | |] eqn:Hr; try done. simpl in H. simplify_eq.
    eapply reduce_full_sound; [|done]. apply Forall_insert; [by eapply sound_children|].
    eapply IH; [|done]. by eapply sound_child.
  - destruct (_ <? _)%nat; [by simplify_eq|]. destruct (_ =? _)%nat; [simplify_eq; constructor|].
    destruct (delete db gen fuel c _) as [[dirty nn]| | |] eqn:Hi; try done. simpl in H.
    destruct dirty; simplify_eq; [|done]. eapply IH in Hi; [|by eapply sound_short].
    destruct nn; try by apply sound_new_short. apply sound_new_short. by eapply sound_short.
  - destruct (resolveHash db gen h) as [c| | |] eqn:Hc; try done. simpl in H.
    inversion Hs as [| | | |? ? n Hl Hld Hsn Hok Hin]; subst. rewrite Hc in Hl. simplify_eq.
    destruct (delete db gen fuel n _) as [[dirty nn]| | |] eqn:Hi; try done. simpl in H.
    destruct dirty; simplify_eq; [by eapply IH|done].
Qed.
End Sound.
End Items.

(** ** Nodes that store the same *)

(** All keys begin with [p], and two of them differ behind it. *)
Definition fork (S : bytes → bytes → Prop) (p : bytes) : Prop :=
  (∀ k v, S k v → ∃ r, k = p ++ r) ∧ ∃ x y r s v w, x ≠ y ∧ S (p ++ x :: r) v ∧ S (p ++ y :: s) w.

Lemma fork_shorter S p z q : fork S p → (∀ k v, S k v → ∃ r, k = (p ++ z :: q) ++ r) → False.
Proof.
  intros [_ (x & y & r & s & v & w & Hxy & Hx & Hy)] Hq.
  destruct (Hq _ _ Hx) as (r1 & E1), (Hq _ _ Hy) as (r2 & E2). rewrite <- app_assoc in E1, E2.
  apply app_inv_head in E1, E2. by simplify_eq/=.
Qed.

Lemma fork_unique S p q : fork S p → fork S q → p = q.
Proof.
  intros Hp Hq. destruct (prefixLen_cases p q) as (c & p' & q' & -> & -> & _ & Hd).
  destruct p' as [|x p'], q' as [|y q'].
  - done.
  - rewrite app_nil_r in Hp. destruct (fork_shorter _ _ _ _ Hp (proj1 Hq)).
  - rewrite app_nil_r in Hq. destruct (fork_shorter _ _ _ _ Hq (proj1 Hp)).
  - destruct Hp as [Hp (x' & _ & r & _ & v & _ & _ & Hx & _)]. destruct Hq as [Hq _].
    destruct (Hq _ _ Hx) as (r1 & E). rewrite <- !app_assoc in E. apply app_inv_head in E. by simplify_eq/=.
Qed.

Section Forks.
Context (db : TrieDB) (gen : Z).

Lemma full_fork cs f : wf_node db gen (Full cs f) → fork (stored db gen (Full cs f)) [].
Proof.
  intros Hw. split; [by eexists|]. pose proof Hw as [_ (i & j & c & d & Hij & Hi & Hj & Hc & Hd)]%wf_full_inv.
  destruct (child_inhabited _ _ _ f _ _ Hw Hi Hc) as (r & v & Hr), (child_inhabited _ _ _ f _ _ Hw Hj Hd) as (s & w & Hs).
  exists (Z.of_nat i), (Z.of_nat j), r, s, v, w. split; [lia|done].
Qed.

Lemma branch_fork n : wf_node db gen n → is_branch db gen n → fork (stored db gen n) [].
Proof.
  intros Hw Hb. destruct n as [|cs f| |h|]; try done; [by apply full_fork|].
  destruct Hb as (cs & f & Hl). inversion Hw as [| | |? n Hl' _ Hwn]; subst. rewrite Hl in Hl'. simplify_eq.
  destruct (full_fork cs f Hwn) as [_ (x & y & r & s & v & w & Hxy & Hx & Hy)]. split; [by eexists|].
  exists x, y, r, s, v, w. split_and!; [done|by eapply st_hash..].
Qed.

Lemma ext_fork k n f : wf_node db gen n → is_branch db gen n → fork (stored db gen (Short k n f)) k.
Proof.
  intros Hw Hb. destruct (branch_fork n Hw Hb) as [_ (x & y & r & s & v & w & Hxy & Hx & Hy)].
  split; [intros ? ? (r' & -> & _)%stored_Short; by exists r'|].
  exists x, y, r, s, v, w. split_and!; [done|by apply st_short..].
Qed.

Lemma leaf_single k v f p : fork (stored db gen (Short k (ValueNode v) f)) p → False.
Proof.
  intros [_ (x & y & r & s & v1 & v2 & Hxy & H1 & H2)].
  apply stored_Short in H1 as (r1 & E1 & [-> _]%stored_Value), H2 as (r2 & E2 & [-> _]%stored_Value).
  rewrite <- E2 in E1. apply app_inv_head in E1. by simplify_eq/=.
Qed.
End Forks.

Lemma fork_same S S' p : (∀ k v, S k v ↔ S' k v) → fork S p → fork S' p.
Proof.
  intros E [Hp (x & y & r & s & v & w & Hxy & Hx & Hy)]. split; [intros ? ? H%E; eauto|].
  exists x, y, r, s, v, w. by rewrite <- !E.
Qed.

Section Unique.
Context {C : Crypto}.

(** A node that is not loaded, looked through. *)
Lemma look_through db gen n :
  wf_node db gen n → sound db gen false n →
  ∃ n', is_loaded n' ∧ wf_node db gen n' ∧ sound db gen false n' ∧
        (∀ k v, stored db gen n k v ↔ stored db gen n' k v) ∧ ref_item n = embed (own_item n').
Proof.
  intros Hw Hs. destruct n as [|cs f|k c f|h|v]; [by inversion Hw|by exists (Full cs f)|by exists (Short k c f)| |by inversion Hw].
  inversion Hs as [| | | |? ? n Hl Hld Hsn Hok Hin]; subst. inversion Hw as [| | |? n' Hl' _ Hwn]; subst. same_load.
  exists n. split_and!; [done..| |by rewrite (hash_ok_embed h)]. intros k v. by apply stored_Hash.
Qed.

Context (db1 : TrieDB) (gen1 : Z) (db2 : TrieDB) (gen2 : Z).

Abbreviation same n1 n2 := (∀ k v, stored db1 gen1 n1 k v ↔ stored db2 gen2 n2 k v).

Definition items_agree (n1 : node) : Prop :=
  ∀ b1 b2 n2, sound db1 gen1 b1 n1 → is_loaded n2 → wf_node db2 gen2 n2 → sound db2 gen2 b2 n2 → same n1 n2 →
  (b1 = false → ref_item n1 = embed (own_item n2)) ∧ (is_loaded n1 → own_item n1 = own_item n2).

Lemma loaded_agree n1 :
  is_loaded n1 →
  (∀ b1 b2 n2, sound db1 gen1 b1 n1 → is_loaded n2 → wf_node db2 gen2 n2 → sound db2 gen2 b2 n2 → same n1 n2 →
   own_item n1 = own_item n2) → items_agree n1.
Proof.
  intros Hld H b1 b2 n2 Hs1 Hld2 Hw2 Hs2 Hst. pose proof (H _ _ _ Hs1 Hld2 Hw2 Hs2 Hst) as E.
  split; [|done]. intros _. by rewrite ref_own, E.
Qed.

Lemma child_agree n1 n2 :
  items_agree n1 → sound db1 gen1 false n1 → wf_node db2 gen2 n2 → sound db2 gen2 false n2 → same n1 n2 →
  ref_item n1 = ref_item n2.
Proof.
  intros H Hs1 Hw2 Hs2 Hst. destruct (look_through _ _ _ Hw2 Hs2) as (n' & Hld & Hw' & Hs' & Hst' & ->).
  eapply (H false false n'); [done..| |done]. intros k v. by rewrite Hst.
Qed.

Lemma leaf_agree k v f : v ≠ [] → items_agree (Short k (ValueNode v) f).
Proof.
  intros Hv. apply loaded_agree; [done|]. intros b1 b2 n2 _ Hld Hw2 _ Hst.
  inversion Hw2 as [k2 v2 f2 Hk2 Hv2|k2 m f2 Hne Hnib Hb Hw| cs f2|? ? Hl]; subst; [| | |done].
  - assert (H : stored db1 gen1 (Short k (ValueNode v) f) (k ++ []) v) by apply st_short, st_value.
    apply Hst, stored_Short in H as (r & E & [-> ->]%stored_Value).
    rewrite !app_nil_r in E. by subst.
  - destruct (leaf_single db1 gen1 k v f k2). eapply fork_same; [|by apply ext_fork]. intros ? ?. by rewrite Hst.
  - destruct (leaf_single db1 gen1 k v f []). eapply fork_same; [|by apply full_fork]. intros ? ?. by rewrite Hst.
Qed.

Lemma ext_agree k n f :
  k ≠ [] → is_branch db1 gen1 n → wf_node db1 gen1 n → items_agree n → items_agree (Short k n f).
Proof.
  intros Hne Hb Hw IH. apply loaded_agree; [done|]. intros b1 b2 n2 Hs1 Hld Hw2 Hs2 Hst.
  pose proof (fork_same _ _ _ Hst (ext_fork _ _ k n f Hw Hb)) as Hf.
  inversion Hw2 as [k2 v2 f2 Hk2 Hv2|k2 m f2 Hne2 Hnib Hb2 Hwm| cs f2|? ? Hl]; subst; [| | |done].
  - by apply leaf_single in Hf.
  - pose proof (fork_unique _ _ _ Hf (ext_fork _ _ k2 m f2 Hwm Hb2)) as <-. simpl. do 3 f_equal.
    apply child_agree; [done|by eapply sound_short|done|by eapply sound_short|].
    intros r v. specialize (Hst (k ++ r) v). by rewrite !stored_below in Hst.
  - by pose proof (fork_unique _ _ _ Hf (full_fork _ _ _ _ Hw2)).
Qed.

Lemma same_child cs1 f1 cs2 f2 i c1 c2 :
  same (Full cs1 f1) (Full cs2 f2) → cs1 !! i = Some c1 → cs2 !! i = Some c2 → same c1 c2.
Proof.
  intros Hst H1 H2 k v. rewrite <- (Nat2Z.id i) in H1, H2.
  by rewrite <- (stored_child _ _ cs1 f1 (Z.of_nat i) c1), Hst, (stored_child _ _ cs2 f2 (Z.of_nat i) c2) by (done || lia).
Qed.

Lemma full_agree cs f :
  wf_node db1 gen1 (Full cs f) →
  (∀ i c, (i < 16)%nat → cs !! i = Some c → c ≠ Nil → items_agree c) → items_agree (Full cs f).
Proof.
  intros Hw IH. apply loaded_agree; [done|]. intros b1 b2 n2 Hs1 Hld Hw2 Hs2 Hst.
  pose proof (fork_same _ _ _ Hst (full_fork _ _ cs f Hw)) as Hf.
  inversion Hw2 as [k2 v2 f2 Hk2 Hv2|k2 m f2 Hne2 Hnib Hb2 Hwm|cs2 f2 Hlen2 _ Hlow2 Hval2|? ? Hl]; subst; [| | |done].
  - by apply leaf_single in Hf.
  - by pose proof (fork_unique _ _ _ Hf (ext_fork _ _ k2 m f2 Hwm Hb2)).
  - inversion Hw as [| |? ? Hlen _ Hlow Hval|]; subst. simpl. f_equal. apply list_eq_same_length with 17%nat;
      rewrite ?length_fmap; [done..|]. intros i x y Hi Hx Hy.
    apply list_lookup_fmap_Some in Hx as (c1 & -> & Hc1), Hy as (c2 & -> & Hc2).
    pose proof (same_child _ _ _ _ _ _ _ Hst Hc1 Hc2) as Hc.
    pose proof (Forall_lookup_1 _ _ _ _ (sound_children _ _ _ _ _ Hs1) Hc1) as Hsc1.
    pose proof (Forall_lookup_1 _ _ _ _ (sound_children _ _ _ _ _ Hs2) Hc2) as Hsc2.
    destruct (decide (i = 16%nat)) as [->|Hne].
    + destruct (Hval _ Hc1) as [->|(v1 & Hv1 & ->)], (Hval2 _ Hc2) as [->|(v2 & Hv2 & ->)]; try done.
      * specialize (Hc [] v2). rewrite stored_Value in Hc. by destruct (stored_Nil db1 gen1 [] v2); apply Hc.
      * specialize (Hc [] v1). rewrite stored_Value in Hc. by destruct (stored_Nil db2 gen2 [] v1); apply Hc.
      * specialize (Hc [] v1). rewrite !stored_Value in Hc. by destruct Hc as [[_ ->] _].
    + destruct (Nil_or c1) as [->|Hn1], (Nil_or c2) as [->|Hn2]; [done| | |].
      * destruct (wf_inhabited db2 gen2 c2) as (k & v & H); [by eapply (Hlow2 i); [lia|..]|]. by apply Hc, stored_Nil in H.
      * destruct (wf_inhabited db1 gen1 c1) as (k & v & H); [by eapply (Hlow i); [lia|..]|]. by apply Hc, stored_Nil in H.
      * apply child_agree; [by eapply (IH i); [lia|..]|done|by eapply (Hlow2 i); [lia|..]|done|done].
Qed.

(** Well-formed nodes with the same contents have the same items. *)
Lemma items_unique n1 : wf_node db1 gen1 n1 → items_agree n1.
Proof.
  induction 1 as [k v f Hk Hv|k n f Hne Hnib Hb Hw IH|cs f Hlen Htwo Hlow IH Hval|h n Hl Hld Hw IH].
  - by apply leaf_agree.
  - by apply ext_agree.
  - apply full_agree; [by apply wf_full|done].
  - intros b1 b2 n2 Hs1 Hld2 Hw2 Hs2 Hst. inversion Hs1 as [| | | |? ? n' Hl' _ Hsn Hok _]; subst. same_load.
    split; [|done]. intros ->. simpl. rewrite <- (hash_ok_embed h (own_item n)) by done. f_equal.
    eapply (IH false b2 n2); [done..| |done]. intros k v. by rewrite <- Hst, (stored_Hash db1 gen1 h n).
Qed.
End Unique.

(** ** Computing the hash *)

Section Computing.
Context {C : Crypto} (db : TrieDB) (dbgen gen limit : Z).

Lemma wf_compact k n f : wf_node db dbgen (Short k n f) → hexToCompact k = Ok (compact k).
Proof.
  intros Hw. assert (∃ l term, k = l ++ terminator term ∧ nibbles l) as (l & term & -> & Hl).
  { inversion Hw as [? v ? Hleaf Hv|? ? ? Hne Hnib Hb Hwn| |]; subst.
    - destruct (leaf_key_snoc _ Hleaf) as (l & -> & Hl). by exists l, true.
    - exists k, false. by rewrite app_nil_r. }
  unfold compact. by destruct (compact_ok l term Hl) as (c & -> & _).
Qed.

(** The hash that replaces a collapsed node, or the node. *)
Lemma store_item n odb force it :
  is_loaded n → node_item n = it → (∀ h, (cache n).1 = Some h → hash_ok force h it) →
  store n odb force =
  let h := Keccak256 (rlp_encode it) in
  if (length (rlp_encode it) <? 32)%nat && negb force then (n, odb)
  else (HashNode h, (λ d, db_insert d (set_bytes HashLength h) (Collapsed (simplifyNode n))) <$> odb).
Proof.
  intros Hld Hit Hc. destruct n as [|cs f|k v f| |]; try done; unfold store; rewrite Hit;
    (destruct (_ && _) eqn:E; [done|]); simpl in *; (destruct (flag_hash f) as [h|]; [by destruct (Hc h eq_refl) as [-> _]|done]).
Qed.

Definition hashed_ok (force : bool) (n hashed : node) : Prop :=
  if force then hashed = HashNode (match n with HashNode h => h | _ => Keccak256 (rlp_encode (own_item n)) end)
  else node_item hashed = ref_item n.

(** What hashing without a database gives. *)
Definition hashes (force : bool) (n : node) : Prop :=
  ∃ hashed cached, hash gen limit force n None = Ok (hashed, cached, None) ∧ hashed_ok force n hashed ∧
    alike cached n ∧ sound db dbgen force cached ∧ ref_item cached = ref_item n ∧ (n ≠ Nil → hashed ≠ Nil).

Lemma hash_children_ok k cs :
  (∀ i c, cs !! i = Some c → c ≠ Nil → if (i <? k)%nat then hashes false c else node_item c = ref_item c ∧ sound db dbgen false c) →
  ∃ hs ccs, hash_children (hash gen limit false) k cs None = Ok (hs, ccs, None) ∧
    node_item <$> hs = ref_item <$> cs ∧ Forall2 (λ c c', alike c c') ccs cs ∧
    Forall (sound db dbgen false) ccs ∧ ref_item <$> ccs = ref_item <$> cs.
Proof.
  revert cs. induction k as [|k IH]; intros cs H.
  - exists cs, cs. split_and!; [done| | | |done].
    + apply list_fmap_ext. intros i c Hc. destruct (Nil_or c) as [->|Hn]; [done|]. by apply (H i c).
    + by apply Forall_Forall2_diag, Forall_true.
    + apply Forall_lookup_2. intros i c Hc. destruct (Nil_or c) as [->|Hn]; [constructor|]. by apply (H i c).
  - destruct cs as [|c cs]; [by exists [], []; split_and!|].
    destruct (IH cs) as (hs & ccs & Hhs & E1 & E2 & E3 & E4).
    { intros i d Hd Hn. exact (H (S i) d Hd Hn). }
    cbn [hash_children]. destruct (Nil_or c) as [->|Hn].
    + simpl. rewrite Hhs. simpl. exists (Nil :: hs), (Nil :: ccs). rewrite !fmap_cons, E1, E4.
      split_and!; try done; constructor; (done || constructor).
    + destruct (H O c eq_refl Hn) as (hc & cc & Hc & Hok & Ha & Hs & Hr & _).
      exists (hc :: hs), (cc :: ccs). rewrite !fmap_cons, E1, E4, Hr, Hok.
      split_and!; try done; [|by constructor..]. destruct c; try done; rewrite Hc; simpl; by rewrite Hhs.
Qed.

Lemma sound_flags b n : sound db dbgen b n → match n with Short _ _ f | Full _ f => flags_sound db b n f | _ => True end.
Proof. by destruct 1. Qed.

Lemma cached_hashes force n h :
  is_loaded n → (cache n).1 = Some h → sound db dbgen force n → hashes force n.
Proof.
  intros Hld Hc Hs. exists (HashNode h), n.
  assert (Hok : hash_ok force h (own_item n)).
  { apply sound_flags in Hs. destruct n; try done; by apply Hs. }
  split_and!; [|  |done|done|done|done].
  - destruct n as [|cs f|k v f| |]; try done; simpl in *; by rewrite Hc.
  - destruct force; simpl; [destruct Hok as [-> _]; by destruct n|]. by rewrite ref_own, (hash_ok_embed h).
Qed.

(** Storing the collapsed node and caching its hash. *)
Lemma finish_hashes force n collapsed cached :
  is_loaded n → is_loaded collapsed → (cache collapsed).1 = None → node_item collapsed = own_item n →
  (∀ h, (∀ h', h = HashNode h' → hash_ok force h' (own_item n)) → sound db dbgen force (with_hash cached h false)) →
  (∀ h, alike (with_hash cached h false) n ∧ ref_item (with_hash cached h false) = ref_item n) →
  hash gen limit force n None =
    (let '(hashed, odb) := store collapsed None force in Ok (hashed, with_hash cached hashed (is_some odb), odb)) →
  hashes force n.
Proof.
  intros Hld Hldc Hc Hit Hs Ha H. rewrite (store_item _ _ _ (own_item n)) in H; [|done|done|by rewrite Hc].
  cbv zeta in H. destruct (_ && _) eqn:E.
  - apply andb_true_iff in E as [El Ef%negb_true_iff]. subst force.
    eexists _, _. split; [exact H|]. split_and!; [|by apply Ha| |by apply Ha|by destruct collapsed].
    + simpl. rewrite ref_own by done. unfold embed. by rewrite El, Hit.
    + apply Hs. intros h' ->. done.
  - assert (Hok : hash_ok force (Keccak256 (rlp_encode (own_item n))) (own_item n)).
    { split; [done|]. intros ->. apply andb_false_iff in E as [E|E]; [|done]. by apply Nat.ltb_ge. }
    eexists _, _. split; [exact H|]. split_and!; [|by apply Ha| |by apply Ha|done].
    + destruct force; simpl; [by destruct n|]. rewrite ref_own by done. by rewrite (hash_ok_embed (Keccak256 (rlp_encode (own_item n)))).
    + apply Hs. by intros h' [= <-].
Qed.

Lemma hashed_flags b n n' f hashed g :
  own_item n' = own_item n → flag_hash f = None → flags_sound db b n f →
  (∀ h, hashed = HashNode h → hash_ok b h (own_item n)) →
  flags_sound db b n' {| flag_hash := match hashed with HashNode h => Some h | _ => None end;
                         flag_gen := g; flag_dirty := flag_dirty f |}.
Proof.
  intros E Hf [_ Hc] Hok. rewrite Hf in Hc. split; simpl; rewrite E.
  - destruct hashed; naive_solver.
  - intros Hd. destruct (Hc Hd) as [-> Hlt]. destruct hashed; try done.
    destruct (Hok _ eq_refl) as [_ Hlong]. specialize (Hlong eq_refl). lia.
Qed.

Lemma short_hashes force k v f hv cv :
  wf_node db dbgen (Short k v f) → flags_sound db force (Short k v f) f → flag_hash f = None →
  node_item hv = ref_item v → alike cv v → sound db dbgen false cv → ref_item cv = ref_item v →
  match v with ValueNode _ => Ok (v, v, None) | _ => hash gen limit false v None end = Ok (hv, cv, None) →
  hashes force (Short k v f).
Proof.
  intros Hw Hfl Hf Hhv Ha Hs Hr H. apply (finish_hashes force _ (Short (compact k) hv f) (Short k cv f)); try done.
  - simpl. by rewrite Hhv.
  - intros h Hok. simpl. apply so_short; [done|]. eapply hashed_flags; [|done..]. simpl. by rewrite Hr.
  - intros h. simpl. by rewrite Ha, Hr.
  - cbn [hash cache]. rewrite Hf, (wf_compact _ _ _ Hw). cbn [mbind]. rewrite H. done.
Qed.

Lemma full_hashes force cs f hs ccs :
  flags_sound db force (Full cs f) f → flag_hash f = None → node_item <$> hs = ref_item <$> cs → Forall2 (λ c c', alike c c') ccs cs →
  Forall (sound db dbgen false) ccs → ref_item <$> ccs = ref_item <$> cs →
  hash_children (hash gen limit false) 16 cs None = Ok (hs, ccs, None) →
  hashes force (Full cs f).
Proof.
  intros Hfl Hf Hhs Ha Hs Hr H. apply (finish_hashes force _ (Full hs f) (Full ccs f)); try done.
  - simpl. by rewrite Hhs.
  - intros h Hok. simpl. apply so_full; [done|]. eapply hashed_flags; [|done..]. simpl. by rewrite Hr.
  - intros h. simpl. rewrite Hr. split; [|done]. f_equal. clear -Ha. induction Ha; [done|]. rewrite !fmap_cons. by f_equal.
  - cbn [hash cache]. rewrite Hf. cbn [mbind]. by rewrite H.
Qed.

Lemma node_hashes n : wf_node db dbgen n → ∀ force, sound db dbgen force n → hashes force n.
Proof.
  induction 1 as [k v f Hk Hv|k n f Hne Hnib Hb Hw IH|cs f Hlen Htwo Hlow IH Hval|h n Hl Hld Hw IH]; intros force Hs.
  - destruct (flag_hash f) as [h|] eqn:Hf; [by apply (cached_hashes _ _ h)|].
    apply (short_hashes force k _ f (ValueNode v) (ValueNode v)); [by apply wf_leaf|by apply (sound_flags _ _ Hs)|done|done|done|constructor|done|done].
  - destruct (flag_hash f) as [h|] eqn:Hf; [by apply (cached_hashes _ _ h)|].
    destruct (IH false) as (hv & cv & Hh & Hok & Ha & Hsc & Hr & _); [by eapply sound_short|].
    apply (short_hashes force k n f hv cv); [by apply wf_ext|by apply (sound_flags _ _ Hs)|done|done|done|done|done|]. by destruct n.
  - destruct (flag_hash f) as [h|] eqn:Hf; [by apply (cached_hashes _ _ h)|].
    destruct (hash_children_ok 16 cs) as (hs & ccs & Hh & E1 & E2 & E3 & E4).
    { intros i c Hc Hn. pose proof (Forall_lookup_1 _ _ _ _ (sound_children _ _ _ _ _ Hs) Hc) as Hsc.
      destruct (Nat.ltb_spec i 16); [by eapply IH|]. pose proof (lookup_lt_Some _ _ _ Hc).
      replace i with 16%nat in Hc by lia. by destruct (Hval _ Hc) as [->|(v & _ & ->)]. }
    eapply full_hashes; [by apply (sound_flags _ _ Hs)|done..].
  - exists (HashNode h), (HashNode h). split_and!; try done. by destruct force.
Qed.
End Computing.

(** ** The invariant of a trie *)

Section Invariant.
Context {C : Crypto}.

Record trie_ok (db : TrieDB) (t : Trie) (m : gmap bytes bytes) : Prop := {
  ok_represents : represents db t m;
  ok_sound : sound db (cachegen t) true (root t)
}.

(** The hash of the root, loaded or not. *)
Definition root_of (n : node) : Hash :=
  set_bytes HashLength (match n with
                        | Nil => emptyRoot
                        | HashNode h => h
                        | n => Keccak256 (rlp_encode (own_item n))
                        end).

Lemma Trie_Hash_ok db t m :
  trie_ok db t m → ∃ t', Trie_Hash t = Ok (root_of (root t), t') ∧ trie_ok db t' m.
Proof.
  intros [Hrep Hs]. unfold Trie_Hash, hashRoot. destruct (rep_wf _ _ _ Hrep) as [E|Hw].
  - rewrite E. exists (put_root t Nil). split; [reflexivity|]. destruct t; simpl in *; subst. by split.
  - destruct (node_hashes db (cachegen t) (cachegen t) (cachelimit t) _ Hw true Hs)
      as (hashed & cached & Hh & -> & Ha & Hsc & _).
    exists (put_root t cached). split.
    + replace (match root t with Nil => _ | _ => _ end) with (hash (cachegen t) (cachelimit t) true (root t) None)
        by (destruct (root t); [by inversion Hw|done..]).
      rewrite Hh. simpl. destruct (root t); [by inversion Hw|done..].
    + split; [split|done]; simpl.
      * right. by eapply wf_alike.
      * apply Hrep.
      * intros k v. rewrite <- (rep_stored _ _ _ Hrep). split; by apply stored_alike.
Qed.

(** The root, looked through. *)
Lemma root_loaded db gen n :
  wf_node db gen n → sound db gen true n →
  ∃ n', is_loaded n' ∧ wf_node db gen n' ∧ sound db gen true n' ∧
        (∀ k v, stored db gen n k v ↔ stored db gen n' k v) ∧
        root_of n = set_bytes HashLength (Keccak256 (rlp_encode (own_item n'))).
Proof.
  intros Hw Hs. destruct n as [|cs f|k c f|h|v]; [by inversion Hw|by exists (Full cs f)|by exists (Short k c f)| |by inversion Hw].
  inversion Hs as [| | | |? ? n Hl Hld Hsn [-> _] _]; subst. inversion Hw as [| | |? n' Hl' _ Hwn]; subst. same_load.
  exists n. split_and!; [done..| |done]. intros k v. by apply stored_Hash.
Qed.

Lemma root_of_unique db1 t1 db2 t2 m :
  trie_ok db1 t1 m → trie_ok db2 t2 m → root_of (root t1) = root_of (root t2).
Proof.
  intros [Hr1 Hs1] [Hr2 Hs2].
  assert (Hst : ∀ k v, stored db1 (cachegen t1) (root t1) k v ↔ stored db2 (cachegen t2) (root t2) k v).
  { intros k v. by rewrite (rep_stored _ _ _ Hr1), (rep_stored _ _ _ Hr2). }
  destruct (rep_wf _ _ _ Hr1) as [E1|Hw1], (rep_wf _ _ _ Hr2) as [E2|Hw2].
  - by rewrite E1, E2.
  - rewrite E1 in Hst. destruct (wf_inhabited _ _ _ Hw2) as (k & v & H). by apply Hst, stored_Nil in H.
  - rewrite E2 in Hst. destruct (wf_inhabited _ _ _ Hw1) as (k & v & H). by apply Hst, stored_Nil in H.
  - destruct (root_loaded _ _ _ Hw1 Hs1) as (n1 & Hld1 & Hwn1 & Hsn1 & Hst1 & ->).
    destruct (root_loaded _ _ _ Hw2 Hs2) as (n2 & Hld2 & Hwn2 & Hsn2 & Hst2 & ->). do 3 f_equal.
    eapply (items_unique _ _ db2 (cachegen t2) n1 Hwn1); [done..| |done]. intros k v. by rewrite <- Hst1, Hst.
Qed.

Lemma get_ok db t m key :
  trie_ok db t m → wf_bytes key → ∃ t', TryGet db t key = Ok (m !! key, t') ∧ trie_ok db t' m.
Proof.
  intros [Hrep Hs] Hk. destruct (get_represents _ _ _ Hrep key Hk) as (t' & H & Hrep'). exists t'. split; [done|].
  split; [done|]. unfold TryGet in H. destruct (tryGet _ _ _ _ _) as [[[v n] res]| | |] eqn:E; try done. simpl in H.
  simplify_eq. destruct res; [|done]. by eapply tryGet_sound in E as [? _].
Qed.

Lemma update_ok db t m key v :
  trie_ok db t m → wf_bytes key → v ≠ [] → ∃ t', TryUpdate db t key v = Ok t' ∧ trie_ok db t' (<[key := v]> m).
Proof.
  intros [Hrep Hs] Hk Hv. destruct (insert_represents _ _ _ Hrep key v Hk Hv) as (d & n & H & Hrep').
  exists (put_root t n). unfold TryUpdate. destruct v; [done|]. rewrite H. split; [done|]. split; [done|].
  by eapply insert_sound in H.
Qed.

Lemma delete_ok db t m key :
  trie_ok db t m → wf_bytes key →
  ∃ t', TryDelete db t key = Ok t' ∧ TryUpdate db t key [] = Ok t' ∧ trie_ok db t' (base.delete key m).
Proof.
  intros [Hrep Hs] Hk. destruct (delete_represents _ _ _ Hrep key Hk) as (d & n & H & Hrep').
  exists (put_root t n). unfold TryDelete, TryUpdate. rewrite H. split; [done|]. split; [done|]. split; [done|].
  by eapply delete_sound in H.
Qed.

Lemma empty_ok db : ∃ t, New emptyRoot db = Ok t ∧ trie_ok db t ∅.
Proof.
  eexists. split; [unfold New; by rewrite (bool_decide_eq_true_2 (emptyRoot = emptyRoot)), andb_false_r|].
  split; [split|]; simpl; [by left|by intros ? ?; rewrite lookup_empty| |constructor].
  intros k v. split; [by intros H%stored_Nil|]. by intros (key & _ & H%lookup_empty_Some).
Qed.
End Invariant.
