(* ===== verification/TrieDecode.v ===== *)
(** * Reading nodes back

    Decoding the encoding of a node gives the node, with the children that are
    stored on their own as hash nodes. *)

From Stdlib Require Import ZArith Lia.
From stdpp Require Import base option list gmap strings.
From S2P Require Import Prelude Rlp RlpStream Types Trie TrieKeys TrieProps TrieHash.

(** ** Splitting encodings *)

Lemma encode_wf_item it : wf_bytes (rlp_encode it) → wf_item it.
Proof.
  induction it as [b|l IH] using item_ind'; cbn [rlp_encode].
  - unfold encodeString. intros H. destruct b as [|x [|y b]]; [by constructor| |by apply Forall_app in H as [_ H]].
    case_match; [done|]. by apply Forall_app in H as [_ H].
  - intros [_ H]%Forall_app. apply wf_item_RList. induction IH as [|it l Hit _ IHl]; [constructor|].
    rewrite fmap_cons, concat_cons in H. apply Forall_app in H as [H1 H2]. constructor; auto.
Qed.

(** The data fits in memory with room for a header. *)
Definition fits_memory (b : bytes) : Prop := Z.of_nat (length b) + 9 < two64.

Lemma fits_app_l a b : fits_memory (a ++ b) → fits_memory a.
Proof. unfold fits_memory. rewrite length_app. lia. Qed.
Lemma fits_app_r a b : fits_memory (a ++ b) → fits_memory b.
Proof. unfold fits_memory. rewrite length_app. lia. Qed.

Lemma Split_one it rest :
  wf_item it → fits_memory (rlp_encode it ++ rest) →
  ∃ k, Split (rlp_encode it ++ rest) = Ok (k, content it, rest) ∧ (k = KList ↔ is_list it = true) ∧
       (k = KByte → length (content it) = 1%nat).
Proof.
  intros Hw Hf. destruct (raw_readKind_encode it rest Hw Hf) as (k & ts & Hr & Hk & Hd & Hts).
  exists k. split; [|split; [done|]].
  - unfold Split. rewrite Hr. cbn [bind]. rewrite <- Nat2Z.inj_add, !Nat2Z.id, Hts, drop_app_length.
    by rewrite drop_app_le, Hd, take_app_length by lia.
  - intros ->. clear -Hr. unfold raw_readKind in Hr. destruct (rlp_encode it ++ rest) as [|b tl]; [done|].
    destruct (b <? 128); [simpl in Hr; case_match; simplify_eq; lia|].
    destruct (b <? 184); [destruct (_ && _); [done|]; simpl in Hr; by case_match|].
    destruct (b <? 192); [destruct (readSize _ _); try done; simpl in Hr; by case_match|].
    destruct (b <? 248); [simpl in Hr; by case_match|]. destruct (readSize _ _); try done. simpl in Hr. by case_match.
Qed.

Lemma SplitString_one b rest :
  wf_bytes b → fits_memory (rlp_encode (RStr b) ++ rest) → SplitString (rlp_encode (RStr b) ++ rest) = Ok (b, rest).
Proof.
  intros Hb Hf. destruct (Split_one (RStr b) rest Hb Hf) as (k & Hs & Hk & _). unfold SplitString. rewrite Hs.
  destruct k; try done. by destruct Hk as [Hk _]; specialize (Hk eq_refl).
Qed.

Lemma SplitList_one l rest :
  wf_item (RList l) → fits_memory (rlp_encode (RList l) ++ rest) →
  SplitList (rlp_encode (RList l) ++ rest) = Ok (concat (rlp_encode <$> l), rest).
Proof.
  intros Hl Hf. destruct (Split_one (RList l) rest Hl Hf) as (k & Hs & Hk & _). unfold SplitList. rewrite Hs.
  destruct Hk as [_ ->]; done.
Qed.

Lemma content_shorter l rest :
  fits_memory (rlp_encode (RList l) ++ rest) → fits_memory (concat (rlp_encode <$> l)).
Proof. intros H%fits_app_l. cbn [rlp_encode] in H. by apply fits_app_r in H. Qed.

(** ** Decoding *)

Section Decoding.
Context {C : Crypto} (Keccak_length : ∀ b, length (Keccak256 b) = HashLength).
Context (db : TrieDB) (gen : Z).

Lemma decodeRef_string decode b rest :
  wf_bytes b → length b = 0%nat ∨ length b = 32%nat → fits_memory (rlp_encode (RStr b) ++ rest) →
  decodeRef decode (rlp_encode (RStr b) ++ rest) = Ok (match b with [] => Nil | _ => HashNode b end, rest).
Proof.
  intros Hb Hlen Hf. destruct (Split_one (RStr b) rest Hb Hf) as (k & Hs & Hk & H1). cbn [content] in *.
  unfold decodeRef. rewrite Hs. cbn [bind]. destruct k; [specialize (H1 eq_refl); lia| |by destruct Hk as [Hk _]; specialize (Hk eq_refl)].
  by destruct Hlen as [->%nil_length_inv|E]; [|rewrite E; destruct b].
Qed.

(** A child that is read back: nothing, a hash, or a short node in place. *)
Definition child_read (decode : bytes → result node) (g : Z) (c : node) : Prop :=
  ∀ rest, wf_item (ref_item c) → fits_memory (rlp_encode (ref_item c) ++ rest) →
  decodeRef decode (rlp_encode (ref_item c) ++ rest) = Ok (fold_ref g c, rest).

Lemma loaded_read decode g c :
  is_loaded c →
  ((length (rlp_encode (own_item c)) < 32)%nat → ∀ rest, wf_item (own_item c) →
   fits_memory (rlp_encode (own_item c) ++ rest) →
   decode (rlp_encode (own_item c) ++ rest) = Ok (fold_node None g c)) →
  child_read decode g c.
Proof.
  intros Hld Hdec rest Hw Hf. rewrite ref_own in * by done. rewrite fold_ref_own by done. unfold embed in *.
  destruct (Nat.ltb_spec (length (rlp_encode (own_item c))) 32) as [Hlt|Hge].
  - specialize (Hdec Hlt rest Hw Hf). destruct (Split_one _ rest Hw Hf) as (k & Hs & Hk & _).
    unfold decodeRef. rewrite Hs. cbn [bind]. assert (k = KList) as -> by (apply Hk; by destruct c).
    rewrite length_app. rewrite (proj2 (Z.ltb_ge _ _)) by (unfold hashLen; lia). by rewrite Hdec.
  - pose proof (Keccak_length (rlp_encode (own_item c))) as Hl. unfold own_hash.
    rewrite decodeRef_string; [|done|by right|done]. by destruct (Keccak256 _).
Qed.

Lemma hash_read decode g h : length h = HashLength → child_read decode g (HashNode h).
Proof.
  intros Hl rest Hw Hf. cbn [ref_item fold_ref] in *. rewrite decodeRef_string; [|done|by right|done]. by destruct h.
Qed.

Lemma nil_read decode g : child_read decode g Nil.
Proof. intros rest Hw Hf. apply (decodeRef_string decode []); [done|by left|done]. Qed.

Lemma decode_children_ok decode g cs rest :
  Forall (child_read decode g) cs → Forall wf_item (ref_item <$> cs) →
  fits_memory (concat (rlp_encode <$> (ref_item <$> cs)) ++ rest) →
  decode_children decode (length cs) (concat (rlp_encode <$> (ref_item <$> cs)) ++ rest) = Ok (fold_ref g <$> cs, rest).
Proof.
  induction 1 as [|c cs Hc Hcs IH]; [done|]. rewrite !fmap_cons, concat_cons, <- app_assoc.
  intros [Hw Hws]%Forall_cons Hf. cbn [length decode_children]. rewrite Hc by done. cbn [bind].
  rewrite IH; [done..|by apply fits_app_r in Hf].
Qed.

Lemma decodeFull_ok decode hash g cs n :
  length cs = 16%nat → Forall (child_read decode g) cs → (n = Nil ∨ ∃ v, v ≠ [] ∧ n = ValueNode v) →
  Forall wf_item (ref_item <$> (cs ++ [n])) → fits_memory (concat (rlp_encode <$> (ref_item <$> (cs ++ [n])))) →
  decodeFull decode hash (concat (rlp_encode <$> (ref_item <$> (cs ++ [n])))) g =
  Ok (fold_node hash g (Full (cs ++ [n]) no_flag)).
Proof.
  intros Hlen Hcs Hn Hw Hf. rewrite fmap_app in Hw. apply Forall_app in Hw as [Hw [Hwn _]%Forall_cons].
  rewrite !fmap_app, concat_app in *. unfold decodeFull. rewrite <- Hlen at 1.
  rewrite (decode_children_ok decode g) by done. cbn [bind].
  assert (∃ b, ref_item n = RStr b ∧ n = match b with [] => Nil | _ => ValueNode b end) as (b & E & En).
  { destruct Hn as [->|(v & Hv & ->)]; [by exists []|]. exists v. by destruct v. }
  assert (Ef : fold_ref g n = match b with [] => Nil | _ => ValueNode b end) by (rewrite En; by destruct b).
  apply fits_app_r in Hf. cbn [fmap list_fmap concat] in Hf |- *. rewrite E in *.
  rewrite SplitString_one by done. cbn [bind fold_node]. rewrite fmap_app. cbn [fmap list_fmap]. by rewrite Ef.
Qed.

Lemma decodeShort_leaf decode hash g k v :
  leaf_key k → Forall wf_item [RStr (compact k); RStr v] →
  fits_memory (concat (rlp_encode <$> [RStr (compact k); RStr v])) →
  decodeShort decode hash (concat (rlp_encode <$> [RStr (compact k); RStr v])) g =
  Ok (Short k (ValueNode v) (stored_flag hash g)).
Proof.
  intros (l & -> & Hl)%leaf_key_snoc Hw Hf. apply Forall_cons in Hw as [Hk [Hv _]%Forall_cons].
  cbn [fmap list_fmap concat] in *. unfold decodeShort. rewrite SplitString_one by done. cbn [bind].
  destruct (compact_ok l true Hl) as (c & Hc & _ & _ & Hhex). unfold compact. cbn [terminator] in *.
  rewrite Hc, Hhex. cbn [bind]. rewrite (proj1 (hasTerm_app l)).
  rewrite SplitString_one; [done|done|by apply fits_app_r in Hf].
Qed.

Lemma decodeShort_ext decode hash g k n :
  nibbles k → child_read decode g n → Forall wf_item [RStr (compact k); ref_item n] →
  fits_memory (concat (rlp_encode <$> [RStr (compact k); ref_item n])) →
  decodeShort decode hash (concat (rlp_encode <$> [RStr (compact k); ref_item n])) g =
  Ok (Short k (fold_ref g n) (stored_flag hash g)).
Proof.
  intros Hk Hn Hw Hf. apply Forall_cons in Hw as [Hkw [Hv _]%Forall_cons].
  cbn [fmap list_fmap concat] in *. unfold decodeShort. rewrite SplitString_one by done. cbn [bind].
  destruct (compact_ok k false Hk) as (c & Hc & _ & _ & Hhex). unfold compact. cbn [terminator] in *.
  rewrite app_nil_r in Hc, Hhex. rewrite Hc, Hhex. cbn [bind]. rewrite hasTerm_nibbles by done.
  rewrite Hn; [done|done|by apply fits_app_r in Hf].
Qed.

Definition node_read (fuel : nat) (n : node) : Prop := ∀ hash g rest,
  wf_item (own_item n) → fits_memory (rlp_encode (own_item n) ++ rest) →
  decodeNode_fuel fuel hash (rlp_encode (own_item n) ++ rest) g = Ok (fold_node hash g n).

Lemma decodeNode_step fuel hash l rest g :
  wf_item (RList l) → fits_memory (rlp_encode (RList l) ++ rest) →
  decodeNode_fuel (S fuel) hash (rlp_encode (RList l) ++ rest) g =
  match length l with
  | 2%nat => decodeShort (λ b, decodeNode_fuel fuel None b g) hash (concat (rlp_encode <$> l)) g
  | 17%nat => decodeFull (λ b, decodeNode_fuel fuel None b g) hash (concat (rlp_encode <$> l)) g
  | _ => Err "invalid number of list elements"
  end.
Proof.
  intros Hw Hf. cbn [decodeNode_fuel]. pose proof (rlp_encode_pos (RList l)) as Hpos.
  rewrite SplitList_one by done. destruct (rlp_encode (RList l)) as [|x b] eqn:E; [simpl in Hpos; lia|].
  cbn [app bind]. rewrite CountValues_encode; [|by apply wf_item_RList|rewrite <- E in Hf; by eapply content_shorter].
  do 18 (destruct l as [|? l]; [reflexivity|]). cbn [length]. 
  destruct (Z.of_nat _) as [|q|q] eqn:Eq; [lia| |lia].
  assert (18 <= Z.pos q) by lia. clear Eq. 
  repeat match goal with |- context [match ?p with xI _ => _ | xO _ => _ | xH => _ end] => destruct p; try lia; try reflexivity end.
Qed.

Lemma embedded_shorter c l : ref_item c = own_item c → ref_item c ∈ l →
  (length (rlp_encode (own_item c)) < length (rlp_encode (RList l)))%nat.
Proof.
  intros E Hin. rewrite <- E. cbn [rlp_encode]. rewrite length_app.
  assert (H : (length (rlp_encode (ref_item c)) <= length (concat (rlp_encode <$> l)))%nat).
  { clear -Hin. induction Hin as [|it it' l Hin IH]; rewrite fmap_cons, concat_cons, length_app; lia. }
  pose proof (header_pos KList (Z.of_nat (length (concat (rlp_encode <$> l)))) 0) as Hp. simpl in Hp. lia.
Qed.

Lemma short_ref c : is_loaded c → (length (rlp_encode (own_item c)) < 32)%nat → ref_item c = own_item c.
Proof. intros Hld Hlt. rewrite ref_own by done. unfold embed. by rewrite (proj2 (Nat.ltb_lt _ _)). Qed.

(** A child below a node that is read with one more unit of fuel. *)
Lemma child_reads fuel g c l :
  wf_node db gen c → sound db gen false c → ref_item c ∈ l → (length (rlp_encode (RList l)) <= S fuel)%nat →
  (is_loaded c → (length (rlp_encode (own_item c)) <= fuel)%nat → node_read fuel c) →
  child_read (λ b, decodeNode_fuel fuel None b g) g c.
Proof.
  intros Hw Hs Hin Hf IH. destruct c as [|cs f|k v f|h|v]; [by inversion Hw| | | |by inversion Hw].
  - apply loaded_read; [done|]. intros Hlt rest Hwi Hfi. apply IH; [done| |done|done].
    pose proof (embedded_shorter _ l (short_ref (Full cs f) I Hlt) Hin). lia.
  - apply loaded_read; [done|]. intros Hlt rest Hwi Hfi. apply IH; [done| |done|done].
    pose proof (embedded_shorter _ l (short_ref (Short k v f) I Hlt) Hin). lia.
  - apply hash_read. inversion Hs as [| | | |? ? n Hl Hld Hsn [-> _] Hin']; subst. apply Keccak_length.
Qed.

Lemma full_reads fuel cs f :
  wf_node db gen (Full cs f) → Forall (sound db gen false) cs →
  (length (rlp_encode (own_item (Full cs f))) <= S fuel)%nat →
  (∀ i c, (i < 16)%nat → cs !! i = Some c → c ≠ Nil → is_loaded c →
   (length (rlp_encode (own_item c)) <= fuel)%nat → node_read fuel c) →
  node_read (S fuel) (Full cs f).
Proof.
  intros Hw Hs Hf IH hash g rest Hwi Hfi. pose proof Hw as [(Hlen & Hlow & Hval) _]%wf_full_inv.
  cbn [own_item] in *. rewrite decodeNode_step, length_fmap, Hlen by done.
  assert (∃ cs' n, cs = cs' ++ [n]) as (cs' & n & ->).
  { destruct (rev cs) as [|n r] eqn:E; [apply (f_equal length) in E; rewrite length_rev in E; simpl in E; lia|].
    exists (rev r), n. by rewrite <- (rev_involutive cs), E. }
  rewrite length_app in Hlen. simpl in Hlen. rewrite decodeFull_ok; [done|lia| | |by apply wf_item_RList|by eapply content_shorter].
  - apply Forall_lookup_2. intros i c Hc. pose proof (lookup_lt_Some _ _ _ Hc). destruct (Nil_or c) as [->|Hn]; [apply nil_read|].
    assert (Hc' : (cs' ++ [n]) !! i = Some c) by (rewrite lookup_app_l by lia; done).
    eapply child_reads; [eapply Hlow; [|done|done]; lia|by apply (Forall_lookup_1 _ _ _ _ Hs) in Hc'| |done|eapply IH; [|done|done]; lia].
    apply list_elem_of_fmap. exists c. split; [done|]. by eapply list_elem_of_lookup_2.
  - apply Hval. rewrite lookup_app_r by lia. by replace (16 - length cs')%nat with O by lia.
Qed.

Lemma node_reads n :
  wf_node db gen n → ∀ b fuel, sound db gen b n → is_loaded n →
  (length (rlp_encode (own_item n)) <= fuel)%nat → node_read fuel n.
Proof.
  induction 1 as [k v f Hk Hv|k n f Hne Hnib Hb Hw IH|cs f Hlen Htwo Hlow IH Hval|h n Hl Hld Hw IH];
    intros b fuel Hs Hld' Hf; [| | |done];
    (destruct fuel as [|fuel]; [match type of Hf with context [rlp_encode ?it] => pose proof (rlp_encode_pos it); lia end|]).
  - intros hash g rest Hwi Hfi. cbn [own_item ref_item] in *. rewrite decodeNode_step by done. cbn [length].
    apply decodeShort_leaf; [done|by apply wf_item_RList|by eapply content_shorter].
  - intros hash g rest Hwi Hfi. cbn [own_item] in *. rewrite decodeNode_step by done. cbn [length].
    apply decodeShort_ext; [done| |by apply wf_item_RList|by eapply content_shorter].
    eapply child_reads; [done|by eapply sound_short| |exact Hf|].
    + apply list_elem_of_further, list_elem_of_here.
    + intros Hldn Hfn. eapply IH; [by eapply sound_short|done|done].
  - apply full_reads; [by apply wf_full|by eapply sound_children|done|].
    intros i c Hi Hc Hn Hldc Hfc. eapply IH; [done|done|done| |done|done].
    by apply (Forall_lookup_1 _ _ _ _ (sound_children _ _ _ _ _ Hs)) in Hc.
Qed.

(** Decoding the encoding of a node. *)
Lemma decodeNode_own n b hash g :
  wf_node db gen n → sound db gen b n → is_loaded n →
  wf_bytes (rlp_encode (own_item n)) → fits_memory (rlp_encode (own_item n)) →
  decodeNode hash (rlp_encode (own_item n)) g = Ok (fold_node hash g n).
Proof.
  intros Hw Hs Hld Hwb Hf. unfold decodeNode. rewrite <- (app_nil_r (rlp_encode (own_item n))) at 2.
  eapply (node_reads n); [done|done|done|lia|by apply encode_wf_item|by rewrite app_nil_r].
Qed.
End Decoding.
