(* ===== verification/TrieMove.v ===== *)
(** * The same trie over a larger database

    Nodes keep what they store when the database grows, when the cache
    generation changes, and when the parts of them that are in the database are
    replaced by their hashes. *)

From Stdlib Require Import ZArith Lia.
From stdpp Require Import base option list gmap strings.
From S2P Require Import Prelude Rlp Types Trie TrieKeys TrieProps TrieHash.

Section Fold.
Context {C : Crypto}.

(** ** Folding keeps items *)

Lemma ref_fold g n : ref_item (fold_ref g n) = ref_item n.
Proof.
  induction n as [|cs f IH|k v f IH|h|v] using node_tree_ind; cbn [fold_ref ref_item]; try done.
  - unfold embed. case_match eqn:E; [|done]. cbn [ref_item].
    replace (ref_item <$> (fold_ref g <$> cs)) with (ref_item <$> cs); [unfold embed; by rewrite E|].
    rewrite <- list_fmap_compose. symmetry. apply list_fmap_ext. intros i c Hc. by apply (Forall_lookup_1 _ _ _ _ IH) in Hc.
  - unfold embed. case_match eqn:E; [|done]. cbn [ref_item]. rewrite IH. unfold embed. by rewrite E.
Qed.

Lemma fmap_ref_fold g (cs : list node) : ref_item <$> (fold_ref g <$> cs) = ref_item <$> cs.
Proof. rewrite <- list_fmap_compose. apply list_fmap_ext. intros i c _. apply ref_fold. Qed.

Lemma own_fold h g n : own_item (fold_node h g n) = own_item n.
Proof. destruct n; simpl; try done; [by rewrite fmap_ref_fold|by rewrite ref_fold]. Qed.

Lemma fold_fold g g' n : fold_ref g' (fold_ref g n) = fold_ref g' n.
Proof.
  induction n as [|cs f IH|k v f IH|h|v] using node_tree_ind; cbn [fold_ref]; try done.
  - case_match eqn:E; [|done]. cbn [fold_ref]. rewrite fmap_ref_fold, E. f_equal. rewrite <- list_fmap_compose.
    apply list_fmap_ext. intros i c Hc. by apply (Forall_lookup_1 _ _ _ _ IH) in Hc.
  - case_match eqn:E; [|done]. cbn [fold_ref]. by rewrite ref_fold, E, IH.
Qed.

Lemma fold_node_fold h g h' g' n : fold_node h' g' (fold_node h g n) = fold_node h' g' n.
Proof.
  destruct n; simpl; try done; [|by rewrite fold_fold]. f_equal. rewrite <- list_fmap_compose.
  apply list_fmap_ext. intros i c _. apply fold_fold.
Qed.

Lemma fold_loaded h g n : is_loaded n → is_loaded (fold_node h g n).
Proof. by destruct n. Qed.

Lemma fold_Nil g n : fold_ref g n = Nil ↔ n = Nil.
Proof. destruct n; simpl; try done; by case_match. Qed.

(** What is not hashed is short. *)
Lemma refs_fold db g n : refs db (fold_ref g n).
Proof.
  induction n as [|cs f IH|k v f IH|h|v] using node_tree_ind; cbn [fold_ref]; try (apply refs_other; by intros []).
  - case_match eqn:E; [|apply refs_other; by intros []]. apply refs_full.
    + apply Forall_fmap. exact IH.
    + cbn [own_item]. rewrite fmap_ref_fold. apply Nat.ltb_lt in E. lia.
  - case_match eqn:E; [|apply refs_other; by intros []]. apply refs_short; [done|].
    cbn [own_item]. rewrite ref_fold. apply Nat.ltb_lt in E. lia.
Qed.

Lemma below_fold db h g n : below db (fold_node h g n).
Proof. destruct n; simpl; try done; [|apply refs_fold]. apply Forall_fmap, Forall_forall. intros c _. apply refs_fold. Qed.

Lemma in_db_fold db h g n : in_db db n → in_db db (fold_node h g n).
Proof. intros H g'. unfold own_hash. rewrite own_fold, fold_node_fold. apply H. Qed.

(** ** Databases that grow *)

Definition grows (db db' : TrieDB) : Prop :=
  ∀ g h n, resolveHash db g h = Ok n → resolveHash db' g h = Ok n.

Lemma grows_refl db : grows db db.
Proof. by intros g h n. Qed.

Lemma grows_trans db1 db2 db3 : grows db1 db2 → grows db2 db3 → grows db1 db3.
Proof. intros H1 H2 g h n H. by apply H2, H1. Qed.

Lemma in_db_grows db db' n : grows db db' → in_db db n → in_db db' n.
Proof. intros Hg H g. apply Hg, H. Qed.

Lemma refs_grows db db' n : grows db db' → refs db n → refs db' n.
Proof.
  intros Hg. induction n as [|cs f IH|k v f IH|h|v] using node_tree_ind; intros Hr; try (apply refs_other; by intros []).
  - inversion Hr as [| |? ? Hcs Hin]; subst; [done|]. apply refs_full; [|intros; by eapply in_db_grows; eauto].
    apply Forall_lookup_2. intros i c Hc. apply (Forall_lookup_1 _ _ _ _ IH Hc). by apply (Forall_lookup_1 _ _ _ _ Hcs) in Hc.
  - inversion Hr as [|? ? ? Hv Hin|]; subst; [done|]. apply refs_short; [auto|intros; by eapply in_db_grows; eauto].
Qed.

Lemma below_grows db db' n : grows db db' → below db n → below db' n.
Proof.
  intros Hg. destruct n; simpl; try done; [|by apply refs_grows]. intros H. eapply Forall_impl; [done|].
  intros c. by apply refs_grows.
Qed.

Lemma flags_grows db db' b n f : grows db db' → flags_sound db b n f → flags_sound db' b n f.
Proof.
  intros Hg [Hh Hc]. split; [done|]. intros Hd. specialize (Hc Hd). destruct (flag_hash f); [|done].
  destruct Hc. split; [by eapply in_db_grows|by eapply below_grows].
Qed.
End Fold.

(** ** Moving a node *)

Section Moves.
Context {C : Crypto} (db : TrieDB) (gen : Z) (db' : TrieDB) (gen' : Z).

(** [n'] over the second database does for [n] over the first. *)
Record moves (b : bool) (n n' : node) : Prop := {
  mv_stored : ∀ k v, stored db gen n k v ↔ stored db' gen' n' k v;
  mv_sound : sound db' gen' b n';
  mv_wf : wf_node db gen n → wf_node db' gen' n';
  mv_nil : n = Nil ↔ n' = Nil;
  mv_value : ∀ v, n = ValueNode v → n' = ValueNode v;
  mv_branch : is_branch db gen n → is_branch db' gen' n'
}.

Lemma Nil_moves b : moves b Nil Nil.
Proof. split; try done; [|constructor|by inversion 1]. intros k v. by split; intros H%stored_Nil. Qed.

Lemma Value_moves b v : moves b (ValueNode v) (ValueNode v).
Proof. split; try done; [|constructor|by inversion 1]. intros k w. by rewrite !stored_Value. Qed.

Lemma short_moves b k n f n' f' :
  moves false n n' → flags_sound db' b (Short k n' f') f' → moves b (Short k n f) (Short k n' f').
Proof.
  intros Hm Hf. split; try done.
  - intros k' v. rewrite !stored_Short. by setoid_rewrite (mv_stored _ _ _ Hm).
  - apply so_short; [apply Hm|done].
  - intros Hw. inversion Hw as [? v ? Hleaf Hv|? ? ? Hne Hnib Hb Hwn| |]; subst.
    + rewrite (mv_value _ _ _ Hm v eq_refl). by apply wf_leaf.
    + apply wf_ext; [done|done|by apply Hm|by apply Hm].
Qed.

Lemma full_moves_wf cs f cs' f' :
  Forall2 (moves false) cs cs' → wf_node db gen (Full cs f) → wf_node db' gen' (Full cs' f').
Proof.
  intros Hm [(Hlen & Hlow & Hval) Htwo]%wf_full_inv. apply wf_full_inv. split_and!.
  - split_and!; [by rewrite <- (Forall2_length _ _ _ Hm)| |].
    + intros i c' Hi Hc' Hne. destruct (Forall2_lookup_r _ _ _ _ _ Hm Hc') as (c & Hc & Hcc).
      apply Hcc. eapply Hlow; [done|done|]. by intros E%(mv_nil _ _ _ Hcc).
    + intros c' Hc'. destruct (Forall2_lookup_r _ _ _ _ _ Hm Hc') as (c & Hc & Hcc).
      destruct (Hval _ Hc) as [->|(v & Hv & ->)]; [left; by apply (mv_nil _ _ _ Hcc)|right].
      exists v. split; [done|by apply (mv_value _ _ _ Hcc)].
  - destruct Htwo as (i & j & c & d & Hij & Hi & Hj & Hc & Hd).
    destruct (Forall2_lookup_l _ _ _ _ _ Hm Hi) as (c' & Hc' & Hcc).
    destruct (Forall2_lookup_l _ _ _ _ _ Hm Hj) as (d' & Hd' & Hdd).
    exists i, j, c', d'. split_and!; [done..| |]; [by intros E%(mv_nil _ _ _ Hcc)|by intros E%(mv_nil _ _ _ Hdd)].
Qed.

Lemma full_moves b cs f cs' f' :
  Forall2 (moves false) cs cs' → flags_sound db' b (Full cs' f') f' → moves b (Full cs f) (Full cs' f').
Proof.
  intros Hm Hf. split; try done; [| |by apply full_moves_wf].
  - intros k v. rewrite !stored_Full. split; intros (x & c & r & -> & Hx & Hc & H).
    + destruct (Forall2_lookup_l _ _ _ _ _ Hm Hc) as (c' & Hc' & Hcc). exists x, c', r.
      split_and!; try done. by apply (mv_stored _ _ _ Hcc).
    + destruct (Forall2_lookup_r _ _ _ _ _ Hm Hc) as (c' & Hc' & Hcc). exists x, c', r.
      split_and!; try done. by apply (mv_stored _ _ _ Hcc).
  - apply so_full; [|done]. apply Forall_lookup_2. intros i c' Hc'.
    destruct (Forall2_lookup_r _ _ _ _ _ Hm Hc') as (c & _ & Hcc). apply Hcc.
Qed.

(** A node that moves to what a hash loads, and the hash. *)
Lemma hash_moves b n h n' :
  is_loaded n → is_loaded n' → resolveHash db' gen' h = Ok n' → hash_ok b h (own_item n') → in_db db' n' →
  moves b n n' → moves b n (HashNode h).
Proof.
  intros Hld Hld' Hl Hok Hin Hm. split.
  - intros k v. rewrite (stored_Hash _ _ h n') by done. by apply Hm.
  - by eapply so_hash, Hin; [| |apply Hm|].
  - intros Hw. eapply wf_hash; [done|done|]. by apply Hm.
  - by destruct n.
  - by destruct n.
  - intros H%(mv_branch _ _ _ Hm). destruct n'; try done. by eexists _, _.
Qed.

Lemma unhash_moves b h n n' :
  resolveHash db gen h = Ok n → moves b n n' → is_loaded n → moves b (HashNode h) n'.
Proof.
  intros Hl Hm Hld. split; try done.
  - intros k v. rewrite (stored_Hash _ _ h n) by done. by apply Hm.
  - apply Hm.
  - intros Hw. inversion Hw as [| | |? n0 Hl0 _ Hwn]; subst. rewrite Hl in Hl0. simplify_eq. by apply Hm.
  - split; [done|]. intros E%(mv_nil _ _ _ Hm). by subst.
  - intros (cs & f & Hl'). rewrite Hl in Hl'. simplify_eq. by apply (mv_branch _ _ _ Hm).
Qed.

Context (Hgrows : grows db db').

(** How a node may be stored. *)
Definition fold_cond (b : bool) (hash : option bytes) (n : node) : Prop :=
  match hash with
  | Some h => hash_ok b h (own_item n) ∧ in_db db' n
  | None => b = false ∧ (length (rlp_encode (own_item n)) < 32)%nat
  end.

Lemma fold_flags b hash n : fold_cond b hash n → flags_sound db' b (fold_node hash gen' n) (stored_flag hash gen').
Proof.
  intros Hc. split; simpl; rewrite own_fold.
  - intros h ->. apply Hc.
  - intros _. destruct hash as [h|]; [|done]. destruct Hc as [_ Hin]. split; [by apply in_db_fold|apply below_fold].
Qed.

Definition node_moves_stmt (n : node) : Prop := ∀ b, sound db gen b n →
  moves b n n ∧
  (is_loaded n → below db' n → ∀ hash, fold_cond b hash n → moves b n (fold_node hash gen' n)).

Lemma loaded_or n : is_loaded n ∨ ¬ is_loaded n.
Proof. destruct n; simpl; tauto. Qed.

Lemma refs_below d n : is_loaded n → refs d n → below d n ∧ ((32 <= length (rlp_encode (own_item n)))%nat → in_db d n).
Proof. intros Hld Hr. by inversion Hr; subst. Qed.

Lemma child_folds c :
  (c = Nil ∨ (∃ v, c = ValueNode v) ∨ node_moves_stmt c) → sound db gen false c → refs db' c →
  moves false c (fold_ref gen' c).
Proof.
  intros [->|[(v & ->)|Hc]] Hs Hr; [apply Nil_moves|apply Value_moves|]. destruct (Hc false Hs) as [Hm Hf].
  destruct (loaded_or c) as [Hld|Hld]; [|by destruct c].
  destruct (refs_below _ _ Hld Hr) as [Hb Hin]. rewrite fold_ref_own by done.
  destruct (Nat.ltb_spec (length (rlp_encode (own_item c))) 32) as [Hlt|Hge]; [by apply Hf|].
  assert (Hok : hash_ok false (own_hash c) (own_item c)) by done.
  apply (hash_moves _ _ _ (fold_node (Some (own_hash c)) gen' c));
    [done|by apply fold_loaded|by apply Hin|by rewrite own_fold|by apply in_db_fold, Hin|].
  apply Hf; [done|done|]. split; [done|by apply Hin].
Qed.

(** A hash node, from what it loads. *)
Lemma hash_node_moves h n : resolveHash db gen h = Ok n → node_moves_stmt n → node_moves_stmt (HashNode h).
Proof.
  intros Hl IH b Hs. split; [|done]. inversion Hs as [| | | |? ? n' Hl' Hld Hsn Hok Hin]; subst. same_load.
  destruct (IH b Hsn) as [_ Hf]. pose proof (hash_ok_own _ _ _ Hok) as ->.
  assert (Hb : below db n).
  { pose proof (Hin gen) as E. rewrite Hl in E. injection E as E.
    destruct n; try done; apply sound_flags in Hsn; simpl in E; injection E as _ Ef;
      pose proof (fs_clean _ _ _ _ Hsn) as H; rewrite Ef in H; by destruct H. }
  assert (Hm : moves b n (fold_node (Some (own_hash n)) gen' n)).
  { apply Hf; [done|by eapply below_grows|]. split; [done|by eapply in_db_grows]. }
  eapply unhash_moves; [done| |done].
  eapply hash_moves; [done|by apply fold_loaded|apply Hgrows, Hin|by rewrite own_fold|by apply in_db_fold; eapply in_db_grows|done].
Qed.

Lemma short_node_moves k n f :
  (∃ v, n = ValueNode v) ∨ node_moves_stmt n → node_moves_stmt (Short k n f).
Proof.
  intros Hn b Hs. pose proof (sound_short _ _ _ _ _ _ Hs) as Hsn. apply sound_flags in Hs. split.
  - apply short_moves; [|by eapply flags_grows]. destruct Hn as [(v & ->)|Hn]; [apply Value_moves|by apply Hn].
  - intros _ Hb hash Hc. apply short_moves; [|by apply (fold_flags b hash (Short k n f))]. apply child_folds; auto.
Qed.

Lemma full_node_moves cs f :
  (∀ i c, cs !! i = Some c → c = Nil ∨ (∃ v, c = ValueNode v) ∨ node_moves_stmt c) → node_moves_stmt (Full cs f).
Proof.
  intros Hcs b Hs. pose proof (sound_children _ _ _ _ _ Hs) as Hsc. apply sound_flags in Hs. split.
  - apply full_moves; [|by eapply flags_grows]. apply Forall_Forall2_diag, Forall_lookup_2. intros i c Hc.
    apply (Forall_lookup_1 _ _ _ _ Hsc) in Hc as Hscc.
    destruct (Hcs i c Hc) as [->|[(v & ->)|Hm]]; [apply Nil_moves|apply Value_moves|by apply Hm].
  - intros _ Hb hash Hc. apply full_moves; [|by apply (fold_flags b hash (Full cs f))].
    apply Forall2_fmap_r, Forall_Forall2_diag, Forall_lookup_2. intros i c Hi. apply child_folds; [by eapply Hcs| |].
    + by apply (Forall_lookup_1 _ _ _ _ Hsc) in Hi.
    + by apply (Forall_lookup_1 _ _ _ _ Hb) in Hi.
Qed.

Lemma node_moves n : wf_node db gen n → node_moves_stmt n.
Proof.
  induction 1 as [k v f Hk Hv|k n f Hne Hnib Hb Hw IH|cs f Hlen Htwo Hlow IH Hval|h n Hl Hld Hw IH].
  - apply short_node_moves. left. by exists v.
  - apply short_node_moves. by right.
  - apply full_node_moves. intros i c Hc. destruct (Nil_or c) as [->|Hn]; [by left|right].
    pose proof (lookup_lt_Some _ _ _ Hc). destruct (decide (i < 16)%nat); [right; by eapply IH|].
    replace i with 16%nat in Hc by lia. destruct (Hval _ Hc) as [->|(v & _ & ->)]; [done|left; by exists v].
  - by eapply hash_node_moves.
Qed.
End Moves.

Section Trans.
Context {C : Crypto}.

Lemma node_moves_trans db1 g1 db2 g2 db3 g3 b n1 n2 n3 :
  moves db1 g1 db2 g2 b n1 n2 → moves db2 g2 db3 g3 b n2 n3 → moves db1 g1 db3 g3 b n1 n3.
Proof.
  intros H1 H2. split.
  - intros k v. by rewrite (mv_stored _ _ _ _ _ _ _ H1), (mv_stored _ _ _ _ _ _ _ H2).
  - apply H2.
  - intros Hw. by apply H2, H1.
  - by rewrite (mv_nil _ _ _ _ _ _ _ H1), (mv_nil _ _ _ _ _ _ _ H2).
  - intros v Hv. by apply (mv_value _ _ _ _ _ _ _ H2), (mv_value _ _ _ _ _ _ _ H1).
  - intros Hb. by apply (mv_branch _ _ _ _ _ _ _ H2), (mv_branch _ _ _ _ _ _ _ H1).
Qed.

(** A well-formed node, or none, over a database that has grown. *)
Lemma stay_moves db db' g g' b n :
  grows db db' → n = Nil ∨ wf_node db g n → sound db g b n → moves db g db' g' b n n.
Proof. intros Hg [->|Hw] Hs; [apply Nil_moves|]. by apply (node_moves db g db' g' Hg n Hw). Qed.
End Trans.
