(* ===== verification/TrieCommit.v ===== *)
(** * Committing a trie

    [Commit] writes every node that is not in the database yet.  The trie can
    be opened again under its root hash and stores the same; tries that could
    be read before still can. *)

From Stdlib Require Import ZArith Lia.
From stdpp Require Import base option list gmap strings.
From S2P Require Import Prelude Rlp RlpStream Types Trie TrieKeys TrieProps TrieHash TrieDecode TrieMove.

(** ** The blobs that are hashed *)

(** [B] holds of the encodings of all nodes in play: the hash has no collision
    among them, none has the hash that stands for the empty trie, and they
    consist of bytes and fit in memory. *)
Class Blobs `{C : Crypto} (B : bytes → Prop) : Prop := {
  Keccak_length : ∀ b, length (Keccak256 b) = HashLength;
  blob_bytes : ∀ b, B b → wf_bytes b ∧ fits_memory b;
  blob_inj : ∀ a b, B a → B b → Keccak256 a = Keccak256 b → a = b;
  blob_root : ∀ b, B b → Keccak256 b ≠ zeroHash ∧ Keccak256 b ≠ emptyRoot
}.

Section Database.
Context {C : Crypto} (B : bytes → Prop) {HB : Blobs B}.

(** Every entry is found under its hash, and in memory as it would be decoded. *)
Record coherent (db : TrieDB) : Prop := {
  dirty_entry : ∀ x c, dirties db !! x = Some c →
    B (cached_rlp c) ∧ x = Keccak256 (cached_rlp c) ∧ ∀ g, cached_obj c x g = mustDecodeNode (Some x) (cached_rlp c) g;
  disk_entry : ∀ x enc, length x = HashLength → diskdb db !! x = Some enc → B enc ∧ x = Keccak256 enc
}.

Lemma own_hash_key n : set_bytes HashLength (own_hash n) = own_hash n.
Proof using HB. apply set_bytes_id, Keccak_length. Qed.

Lemma coherent_entry db x g n :
  coherent db → length x = HashLength → db_node db x g = Ok n → n ≠ Nil →
  ∃ blob, B blob ∧ x = Keccak256 blob ∧ ∀ g, db_node db x g = mustDecodeNode (Some x) blob g.
Proof using.
  intros [Hd Hk] Hx Hn Hne. unfold db_node in *. destruct (dirties db !! x) as [c|] eqn:E.
  - destruct (Hd _ _ E) as (? & ? & ?). by eexists.
  - destruct (diskdb db !! x) as [enc|] eqn:E'; [|by simplify_eq]. destruct (Hk _ _ Hx E'). by exists enc.
Qed.

Section Insert.
Context (db : TrieDB) (gen : Z) (b : bool) (n : node).
Context (Hco : coherent db) (Hw : wf_node db gen n) (Hs : sound db gen b n) (Hld : is_loaded n).
Context (Hblob : B (rlp_encode (own_item n))).

Lemma decode_own g : mustDecodeNode (Some (own_hash n)) (rlp_encode (own_item n)) g = Ok (fold_node (Some (own_hash n)) g n).
Proof using All.
  destruct (blob_bytes _ Hblob). unfold mustDecodeNode. by erewrite decodeNode_own; [|apply Keccak_length|..].
Qed.

(** An entry under the hash of the node is the node. *)
Lemma entry_own g m : db_node db (own_hash n) g = Ok m → m ≠ Nil → ∀ g, db_node db (own_hash n) g = Ok (fold_node (Some (own_hash n)) g n).
Proof using All.
  intros Hm Hne g'. destruct (coherent_entry _ _ _ _ Hco (Keccak_length _) Hm Hne) as (blob & Hb & E & H).
  apply blob_inj in E; [|done|done]. subst blob. by rewrite H, decode_own.
Qed.

Lemma in_db_node d : (∀ g, db_node d (own_hash n) g = Ok (fold_node (Some (own_hash n)) g n)) → in_db d n.
Proof using All. intros H g. unfold resolveHash. rewrite own_hash_key, H. by destruct n. Qed.

Context (collapsed : node) (Hitem : node_item (simplifyNode collapsed) = own_item n).
Context (Hexpand : ∀ g, expandNode (Some (own_hash n)) (simplifyNode collapsed) g = Ok (fold_node (Some (own_hash n)) g n)).

Lemma db_insert_ok (db' := db_insert db (own_hash n) (Collapsed (simplifyNode collapsed))) :
  coherent db' ∧ grows db db' ∧ in_db db' n.
Proof using All.
  subst db'. unfold db_insert. destruct (dirties db !! own_hash n) as [c|] eqn:E.
  - split_and!; [done|apply grows_refl|]. destruct (dirty_entry _ Hco _ _ E) as (Hc & Ec & Hobj). apply in_db_node.
    apply blob_inj in Ec; [|done|done]. intros g. unfold db_node. by rewrite E, Hobj, <- Ec, decode_own.
  - assert (Hnew : ∀ x g, db_node {| dirties := <[own_hash n := Collapsed (simplifyNode collapsed)]> (dirties db); diskdb := diskdb db; preimages := preimages db |} x g =
        if decide (x = own_hash n) then Ok (fold_node (Some (own_hash n)) g n) else db_node db x g).
    { intros x g. unfold db_node. simpl. case_decide as Hx; [subst; rewrite lookup_insert_eq; apply Hexpand|]. by rewrite lookup_insert_ne. }
    split_and!.
    + split; simpl; [|apply Hco]. intros x c [[<- <-]|[_ Hc]]%lookup_insert_Some; [|by eapply dirty_entry].
      simpl. rewrite Hitem. split_and!; [done|done|]. intros g. by rewrite Hexpand, decode_own.
    + intros g h m Hm. unfold resolveHash in *. rewrite Hnew. case_decide as Hx; [|done]. rewrite Hx in Hm.
      destruct (db_node db (own_hash n) g) as [m'| | |] eqn:Hm'; try done. simpl in Hm.
      rewrite (entry_own g m' Hm') in Hm'; [by simplify_eq|by intros ->].
    + apply in_db_node. intros g. rewrite Hnew. by rewrite decide_True.
Qed.
End Insert.

(** Other data under its hash. *)
Lemma InsertBlob_ok db blob (db' := db_InsertBlob db (Keccak256 blob) blob) :
  coherent db → B blob → coherent db' ∧ grows db db'.
Proof using HB.
  intros Hco Hb. subst db'. unfold db_InsertBlob, db_insert.
  destruct (Trie.dirties db !! Keccak256 blob) as [c|] eqn:E; [split; [done|apply grows_refl]|]. split.
  - split; simpl; [|apply Hco]. intros x c [[<- <-]|[_ Hc]]%lookup_insert_Some; [done|by eapply dirty_entry].
  - intros g h n. unfold resolveHash, db_node. simpl. destruct (decide (set_bytes HashLength h = Keccak256 blob)) as [Hx|Hx].
    + rewrite Hx, E, lookup_insert_eq. destruct (diskdb db !! Keccak256 blob) as [enc|] eqn:Ed; [|done].
      destruct (disk_entry _ Hco _ _ (Keccak_length _) Ed) as [He Ex]. by apply blob_inj in Ex as ->.
    + by rewrite lookup_insert_ne.
Qed.
End Database.

Lemma item_simplify n : node_item (simplifyNode n) = node_item n.
Proof.
  induction n as [|cs f IH|k v f IH|h|v] using node_tree_ind; cbn [simplifyNode node_item]; [done| |by rewrite IH|done..].
  f_equal. rewrite <- list_fmap_compose. apply list_fmap_ext. intros i c Hc. exact (Forall_lookup_1 _ _ _ _ IH Hc).
Qed.

(** ** Committing the nodes *)

(** The encodings of the nodes that are loaded. *)
Fixpoint blobs {C : Crypto} (n : node) : list bytes :=
  match n with
  | Short k v f => rlp_encode (own_item (Short k v f)) :: blobs v
  | Full cs f => rlp_encode (own_item (Full cs f)) :: concat (blobs <$> cs)
  | _ => []
  end.

Section Nodes.
Context {C : Crypto} (B : bytes → Prop) {HB : Blobs B} (gen limit : Z).

(** A place in the trie: nothing, a value or a node. *)
Definition placed (db : TrieDB) (n : node) : Prop := n = Nil ∨ (∃ v, n = ValueNode v) ∨ wf_node db gen n.

Lemma placed_moves db db' b n : grows db db' → placed db n → sound db gen b n → moves db gen db' gen b n n.
Proof. intros Hg [->|[(v & ->)|Hw]] Hs; [apply Nil_moves|apply Value_moves|]. apply stay_moves; auto. Qed.

Lemma moves_placed db db' b n n' : moves db gen db' gen b n n' → placed db n → placed db' n'.
Proof.
  intros Hm [E|[(v & E)|Hw]]; [left; by apply Hm|right; left; exists v; by apply Hm|right; right; by apply Hm].
Qed.

(** What committing a child has done: [c] was hashed to [h] and replaced by [cc]. *)
Record child_done (db db' : TrieDB) (c h cc : node) : Prop := {
  cd_moves : moves db gen db' gen false c cc;
  cd_item : node_item h = ref_item c;
  cd_ref : same_ref c cc;
  cd_refs : refs db' c;
  cd_refs' : refs db' cc;
  cd_expand : ∀ g, expandNode None (simplifyNode h) g = Ok (fold_ref g c)
}.

(** A child that is left alone. *)
Lemma child_left db db' c :
  grows db db' → placed db c → sound db gen false c → ¬ is_loaded c → child_done db db' c c c.
Proof.
  intros Hg Hp Hs Hld. split; [by apply placed_moves|by destruct c|done|by apply refs_other..|]. intros g. by destruct c.
Qed.

Lemma child_later db db1 db2 c h cc :
  grows db1 db2 → placed db c → child_done db db1 c h cc → child_done db db2 c h cc.
Proof.
  intros Hg Hp [Hm Hi Hr Hrc Hrcc He]. split; [|done|done|by eapply refs_grows..|done].
  eapply node_moves_trans; [done|]. apply placed_moves; [done|by eapply moves_placed|apply Hm].
Qed.

Lemma child_earlier db db1 db2 c h cc :
  grows db db1 → placed db c → sound db gen false c → child_done db1 db2 c h cc → child_done db db2 c h cc.
Proof. intros Hg Hp Hs [Hm Hi Hr Hrc Hrcc He]. split; try done. eapply node_moves_trans; [by apply placed_moves|done]. Qed.

Definition child_commits (c : node) : Prop := ∀ db,
  coherent B db → wf_node db gen c → sound db gen false c → Forall B (blobs c) →
  ∃ h cc db', hash gen limit false c (Some db) = Ok (h, cc, Some db') ∧ coherent B db' ∧ grows db db' ∧
              child_done db db' c h cc.

(** A child before it is committed; those from position [k] on are values. *)
Definition child_ready (db : TrieDB) (k i : nat) (c : node) : Prop :=
  sound db gen false c ∧
  (c = Nil ∨ if (i <? k)%nat then wf_node db gen c ∧ Forall B (blobs c) ∧ child_commits c else ∃ v, c = ValueNode v).

Lemma ready_placed db k i c : child_ready db k i c → placed db c.
Proof. intros [_ [->|H]]; [by left|right]. case_match; [right; by destruct H as [? _]|by left]. Qed.

Lemma ready_grows db db' k i c : grows db db' → child_ready db k i c → child_ready db' k i c.
Proof.
  intros Hg Hr. pose proof (placed_moves db db' false c Hg (ready_placed _ _ _ _ Hr) (proj1 Hr)) as Hm.
  split; [apply Hm|]. destruct Hr as [_ [->|H]]; [by left|right]. case_match; [|done].
  destruct H as (Hw & Hb & Hc). split_and!; [by apply Hm|done|done].
Qed.

Lemma hash_children_commit k cs db :
  coherent B db → (∀ i c, cs !! i = Some c → child_ready db k i c) →
  ∃ hs ccs db', hash_children (hash gen limit false) k cs (Some db) = Ok (hs, ccs, Some db') ∧
    coherent B db' ∧ grows db db' ∧ Forall3 (child_done db db') cs hs ccs.
Proof.
  revert cs db. induction k as [|k IH]; intros cs db Hco Hcs.
  - exists cs, cs, db. split_and!; [done|done|apply grows_refl|]. induction cs as [|c cs IHc]; [constructor|].
    constructor; [|apply IHc; intros i d Hd; by apply (Hcs (S i))]. pose proof (Hcs O c eq_refl) as Hr.
    apply child_left; [apply grows_refl|by eapply ready_placed|apply Hr|].
    destruct Hr as [_ [->|(v & ->)]]; by intros [].
  - destruct cs as [|c cs]; [exists [], [], db; split_and!; [done|done|apply grows_refl|constructor]|].
    pose proof (Hcs O c eq_refl) as Hr. pose proof (ready_placed _ _ _ _ Hr) as Hp.
    assert (∃ h cc db1, match c with Nil => Ok (Nil, Nil, Some db) | _ => hash gen limit false c (Some db) end = Ok (h, cc, Some db1) ∧
              coherent B db1 ∧ grows db db1 ∧ child_done db db1 c h cc) as (h & cc & db1 & Hh & Hco1 & Hg1 & Hd1).
    { destruct Hr as [Hs [->|(Hw & Hb & Hc)]].
      - exists Nil, Nil, db. split_and!; [done|done|apply grows_refl|]. apply child_left; [apply grows_refl|done|done|by intros []].
      - destruct (Hc db Hco Hw Hs Hb) as (h & cc & db1 & Hh & ?). exists h, cc, db1. split; [|done]. destruct c; [by inversion Hw|done..]. }
    destruct (IH cs db1 Hco1) as (hs & ccs & db2 & Hhs & Hco2 & Hg2 & Hds).
    { intros i d Hd. eapply ready_grows; [done|]. exact (Hcs (S i) d Hd). }
    exists (h :: hs), (cc :: ccs), db2. split_and!; [|done|by eapply grows_trans|].
    + cbn [hash_children]. rewrite Hh. cbn [bind]. by rewrite Hhs.
    + constructor; [by eapply child_later|].
      assert (Hready : ∀ i d, cs !! i = Some d → placed db d ∧ sound db gen false d).
      { intros i d Hd. pose proof (Hcs (S i) d Hd) as Hrd. split; [by eapply ready_placed|apply Hrd]. }
      clear -Hds Hready Hg1. induction Hds as [|d h cc cs hs ccs Hd Hds IHd]; constructor.
      * destruct (Hready O d eq_refl). by eapply child_earlier.
      * apply IHd. intros i e He. exact (Hready (S i) e He).
Qed.

(** What committing a node has done. *)
Record committed (db : TrieDB) (force : bool) (n hashed cached : node) (db' : TrieDB) : Prop := {
  cm_coherent : coherent B db';
  cm_grows : grows db db';
  cm_moves : moves db gen db' gen force n cached;
  cm_hashed : hashed_ok force n hashed;
  cm_child : force = false → child_done db db' n hashed cached;
  cm_root : is_loaded n → force = true → in_db db' n ∧ below db' n
}.

Definition commits (force : bool) (db : TrieDB) (n : node) : Prop :=
  ∃ hashed cached db', hash gen limit force n (Some db) = Ok (hashed, cached, Some db') ∧
                       committed db force n hashed cached db'.

Lemma below_refs db n :
  is_loaded n → below db n → ((32 <= length (rlp_encode (own_item n)))%nat → in_db db n) → refs db n.
Proof. intros Hld Hb Hin. destruct n; try done; [by apply refs_full|by apply refs_short]. Qed.

Lemma long_fold force h n g : is_loaded n → force = false → hash_ok force h (own_item n) → fold_ref g n = HashNode h ∧ ref_item n = RStr h.
Proof.
  intros Hld -> Hok. split; [|by rewrite ref_own, (hash_ok_embed h)]. rewrite fold_ref_own by done.
  destruct Hok as [-> Hlong]. specialize (Hlong eq_refl). by rewrite (proj2 (Nat.ltb_ge _ _)).
Qed.

(** A node that is in the database already stays as it is or is unloaded. *)
Lemma clean_commits force db n h :
  coherent B db → wf_node db gen n → sound db gen force n → is_loaded n → cache n = (Some h, false) →
  commits force db n.
Proof.
  intros Hco Hw Hs Hld Hc.
  assert (Hfl : hash_ok force h (own_item n) ∧ in_db db n ∧ below db n).
  { pose proof (sound_flags _ _ _ _ Hs) as Hf. destruct n as [|cs f|k v f| |]; try done; simpl in Hc; injection Hc as Hh Hd;
      pose proof (fs_clean _ _ _ _ Hf Hd) as H; rewrite Hh in H; split; try done; by apply Hf. }
  destruct Hfl as (Hok & Hin & Hb). pose proof (hash_ok_own _ _ _ Hok) as Eh.
  assert (Hstay : moves db gen db gen force n n) by (apply stay_moves; auto using grows_refl).
  assert (Hun : moves db gen db gen force n (HashNode h)).
  { subst h. apply (hash_moves _ _ _ _ _ _ _ (fold_node (Some (own_hash n)) gen n));
      [done|by apply fold_loaded|apply Hin|by rewrite own_fold|by apply in_db_fold|].
    by apply (node_moves db gen db gen (grows_refl db) n Hw force Hs). }
  assert (Hrefs : refs db n) by by apply below_refs.
  assert (Hlong : force = false → ∀ g, fold_ref g n = HashNode h ∧ ref_item n = RStr h).
  { intros Hf g. by eapply long_fold. }
  assert (Hdone : ∀ cached, cached = n ∨ cached = HashNode h → committed db force n (HashNode h) cached db).
  { intros cached Hcd. split; [done|apply grows_refl|by destruct Hcd as [->| ->]| | |done].
    - destruct force; simpl; [by destruct n; subst h|]. by destruct (Hlong eq_refl 0).
    - intros Hf. specialize (Hlong Hf). subst force. split; [by destruct Hcd as [->| ->]|by destruct (Hlong 0)| |done| |].
      + destruct Hcd as [->| ->]; [done|]. split; [by destruct (Hlong 0)|]. intros g. by destruct (Hlong g) as [-> _].
      + destruct Hcd as [->| ->]; [done|]. apply refs_other. by intros [].
      + intros g. by destruct (Hlong g) as [-> _]. }
  exists (HashNode h), (if canUnload n gen limit then HashNode h else n), db. split.
  - destruct n as [|cs f|k v f| |]; try done; simpl in Hc; injection Hc as Hh Hd; cbn [hash cache]; rewrite Hh, Hd;
      simpl; by destruct (canUnload_flag _ _ _).
  - apply Hdone. destruct (canUnload n gen limit); auto.
Qed.

(** *** A node that is not in the database *)

Definition reflag (n : node) (f : nodeFlag) : node :=
  match n with Short k v _ => Short k v f | Full cs _ => Full cs f | n => n end.

Lemma reflag_own n f :
  own_item (reflag n f) = own_item n ∧ (∀ h g, fold_node h g (reflag n f) = fold_node h g n) ∧
  (∀ db, below db (reflag n f) = below db n) ∧ (is_loaded n → is_loaded (reflag n f)).
Proof. by destruct n. Qed.

(** What is known of a node once its children are committed: it collapses to
    [collapsed] and is replaced by [cached]. *)
Record children_done (db db1 : TrieDB) (force : bool) (n collapsed cached : node) : Prop := {
  ch_coherent : coherent B db1;
  ch_grows : grows db db1;
  ch_loaded : is_loaded collapsed ∧ is_loaded cached;
  ch_cache : (cache collapsed).1 = (cache n).1;
  ch_item : node_item collapsed = own_item n;
  ch_expand : ∀ h g, expandNode h (simplifyNode collapsed) g = Ok (fold_node h g n);
  ch_below : below db1 n ∧ below db1 cached;
  ch_own : own_item cached = own_item n ∧ ∀ h g, fold_node h g cached = fold_node h g n;
  ch_moves : ∀ db2 f, grows db1 db2 → flags_sound db2 force (reflag cached f) f →
                      moves db gen db2 gen force n (reflag cached f)
}.

Section Finish.
Context (db db1 : TrieDB) (force : bool) (n collapsed cached : node).
Context (Hw : wf_node db gen n) (Hs : sound db gen force n) (Hld : is_loaded n).
Context (Hblob : B (rlp_encode (own_item n))) (Hch : children_done db db1 force n collapsed cached).

(** The node with its hash, over the database it is in. *)
Lemma finish_committed hashed db2 f :
  coherent B db2 → grows db1 db2 → hashed_ok force n hashed →
  match flag_hash f with
  | Some h => hash_ok force h (own_item n) ∧ in_db db2 n
  | None => force = false ∧ (length (rlp_encode (own_item n)) < 32)%nat
  end →
  (force = false → ∀ g, expandNode None (simplifyNode hashed) g = Ok (fold_ref g n)) →
  committed db force n hashed (reflag cached f) db2.
Proof using Hch Hld Hs.
  intros Hco2 Hg2 Hhd Hf Hex. destruct Hch as [_ Hg1 [_ Hldc] _ _ _ [Hb Hbc] [Eo Ef] Hm].
  destruct (reflag_own cached f) as (Eo' & Ef' & Eb & Hld'). specialize (Hld' Hldc).
  assert (Hin : in_db db2 n → in_db db2 (reflag cached f)).
  { intros H g. unfold own_hash. rewrite Eo', Eo, Ef', Ef. apply H. }
  assert (Hbel : below db2 n ∧ below db2 (reflag cached f)).
  { rewrite Eb. split; by eapply below_grows. }
  assert (Hlong : (32 <= length (rlp_encode (own_item n)))%nat → in_db db2 n).
  { intros H. destruct (flag_hash f); [by apply Hf|]. destruct Hf as [_ Hf]. lia. }
  assert (Hmv : moves db gen db2 gen force n (reflag cached f)).
  { apply Hm; [done|]. split; rewrite Eo', Eo.
    - intros h Eh. rewrite Eh in Hf. apply Hf.
    - intros _. destruct (flag_hash f); [|done]. split; [apply Hin, Hf|apply Hbel]. }
  split; [done|by eapply grows_trans|done|done| |].
  - intros Hforce. split; [by subst force| | | | |by apply Hex].
    + by rewrite Hforce in Hhd.
    + apply same_own_ref with db2; [done|]. split_and!; [done|by rewrite Eo'|intros; by rewrite Ef'|intros _; apply Hbel].
    + apply below_refs; [done|apply Hbel|done].
    + apply below_refs; [done|apply Hbel|]. rewrite Eo', Eo. auto.
  - intros _ Hforce. split; [|apply Hbel]. destruct (flag_hash f); [apply Hf|]. destruct Hf. congruence.
Qed.

Lemma finish_commits :
  hash gen limit force n (Some db) =
    (let '(hashed, odb) := store collapsed (Some db1) force in Ok (hashed, with_hash cached hashed (is_some odb), odb)) →
  commits force db n.
Proof using HB Hw Hs Hld Hblob Hch.
  pose proof Hch as [Hco1 Hg1 [Hldc Hldc'] Hcache Hit Hex _ _ _]. intros H.
  rewrite (store_item _ _ _ (own_item n)) in H; [|done|done|].
  2: { rewrite Hcache. pose proof (sound_flags _ _ _ _ Hs) as Hf. destruct n; try done; apply Hf. }
  cbv zeta in H. fold (own_hash n) in H. rewrite (own_hash_key B) in H. destruct (_ && _) eqn:E.
  - apply andb_true_iff in E as [El%Nat.ltb_lt Ef%negb_true_iff]. eexists _, _, _. split; [exact H|].
    replace (with_hash cached collapsed (is_some (Some db1))) with
      (reflag cached {| flag_hash := None; flag_gen := match cached with Full _ f | Short _ _ f => flag_gen f | _ => 0 end; flag_dirty := false |})
      by (by destruct cached, collapsed).
    apply finish_committed; [done|apply grows_refl| |done|].
    + rewrite Ef. simpl. rewrite ref_own by done. unfold embed. by rewrite (proj2 (Nat.ltb_lt _ _)), Hit.
    + intros _ g. rewrite Hex, fold_ref_own by done. by rewrite (proj2 (Nat.ltb_lt _ _)).
  - assert (Hok : hash_ok force (own_hash n) (own_item n)).
    { split; [done|]. intros ->. apply andb_false_iff in E as [E|E]; [by apply Nat.ltb_ge|done]. }
    assert (Hmv1 : moves db gen db1 gen force n n) by (apply stay_moves; auto).
    destruct (db_insert_ok B db1 gen force n Hco1 ltac:(by apply Hmv1) ltac:(apply Hmv1) Hld Hblob collapsed ltac:(by rewrite item_simplify) ltac:(intros; apply Hex))
      as (Hco2 & Hg2 & Hin2).
    eexists _, _, _. split; [exact H|].
    replace (with_hash cached _ _) with
      (reflag cached {| flag_hash := Some (own_hash n); flag_gen := match cached with Full _ f | Short _ _ f => flag_gen f | _ => 0 end; flag_dirty := false |})
      by (by destruct cached).
    apply finish_committed; [done|done| |done|].
    + destruct force; simpl; [by destruct n|]. by destruct (long_fold false (own_hash n) n 0 Hld eq_refl Hok).
    + intros Hforce g. by destruct (long_fold force (own_hash n) n g Hld Hforce Hok) as [-> _].
Qed.
End Finish.

Lemma compact_hex db k n f : wf_node db gen (Short k n f) → hexToCompact k = Ok (compact k) ∧ compactToHex (compact k) = Ok k.
Proof.
  intros Hw. assert (∃ l term, k = l ++ terminator term ∧ nibbles l) as (l & term & -> & Hl).
  { inversion Hw as [? v ? Hleaf Hv|? ? ? Hne Hnib Hb Hwn| |]; subst.
    - destruct (leaf_key_snoc _ Hleaf) as (l & -> & Hl). by exists l, true.
    - exists k, false. by rewrite app_nil_r. }
  unfold compact. by destruct (compact_ok l term Hl) as (c & -> & _ & _ & ->).
Qed.

Lemma short_children db db1 force k v f hv cv :
  coherent B db1 → grows db db1 → wf_node db gen (Short k v f) → placed db v → child_done db db1 v hv cv →
  children_done db db1 force (Short k v f) (Short (compact k) hv f) (Short k cv f).
Proof.
  intros Hco Hg Hw Hp Hd. destruct (compact_hex _ _ _ _ Hw) as [_ Hhex]. split; try done.
  - simpl. by rewrite (cd_item _ _ _ _ _ Hd).
  - intros h g. cbn [simplifyNode expandNode]. rewrite Hhex. cbn [bind]. by rewrite (cd_expand _ _ _ _ _ Hd).
  - split; [by apply Hd|by eapply cd_refs'].
  - destruct (cd_ref _ _ _ _ _ Hd) as [E Ef]. simpl. split; [by rewrite E|intros; by rewrite Ef].
  - intros db2 f' Hg2 Hf. apply short_moves; [|done]. by apply (child_later _ _ _ _ _ _ Hg2 Hp Hd).
Qed.

Section Lists.
Context {X Y Z' : Type} (P : X → Y → Z' → Prop).

Lemma Forall3_12 (Q : X → Y → Prop) l k m : (∀ x y z, P x y z → Q x y) → Forall3 P l k m → Forall2 Q l k.
Proof. intros H. induction 1; constructor; eauto. Qed.

Lemma Forall3_13 (Q : X → Z' → Prop) l k m : (∀ x y z, P x y z → Q x z) → Forall3 P l k m → Forall2 Q l m.
Proof. intros H. induction 1; constructor; eauto. Qed.
End Lists.

Lemma Forall2_fmap_eq {X Y W} (f : X → W) (g : Y → W) l k : Forall2 (λ x y, g y = f x) l k → g <$> k = f <$> l.
Proof. induction 1; [done|]. rewrite !fmap_cons. congruence. Qed.

Lemma expand_all g cs hs :
  Forall2 (λ c h, ∀ g, expandNode None (simplifyNode h) g = Ok (fold_ref g c)) cs hs →
  (fix all (l : list node) : result (list node) :=
     match l with
     | [] => Ok []
     | c :: l => let* c := expandNode None c g in let* l := all l in Ok (c :: l)
     end) (simplifyNode <$> hs) = Ok (fold_ref g <$> cs).
Proof. induction 1 as [|c h cs hs Hc _ IH]; [done|]. rewrite !fmap_cons, Hc. cbn [bind]. by rewrite IH. Qed.

Lemma full_children db db1 force cs f hs ccs :
  coherent B db1 → grows db db1 → Forall (placed db) cs → Forall3 (child_done db db1) cs hs ccs →
  children_done db db1 force (Full cs f) (Full hs f) (Full ccs f).
Proof.
  intros Hco Hg Hp Hd.
  assert (Href : Forall2 same_ref cs ccs) by (eapply Forall3_13; [|done]; intros ? ? ?; apply cd_ref).
  split; try done.
  - simpl. f_equal. apply Forall2_fmap_eq. eapply Forall3_12; [|done]. intros ? ? ?. apply cd_item.
  - intros h g. cbn [simplifyNode expandNode]. rewrite (expand_all g cs); [done|].
    eapply Forall3_12; [|done]. intros ? ? ?. apply cd_expand.
  - simpl. clear -Hd. induction Hd as [|c h cc cs hs ccs Hc Hd [IH1 IH2]]; [done|].
    destruct Hc. by split; constructor.
  - simpl. split; [f_equal; apply Forall2_fmap_eq; eapply Forall2_impl; [done|]; by intros ? ? []|].
    intros h g. f_equal. apply Forall2_fmap_eq. eapply Forall2_impl; [done|]. by intros ? ? [].
  - intros db2 f' Hg2 Hf. apply full_moves; [|done]. clear -Hd Hp Hg2.
    induction Hd as [|c h cc cs hs ccs Hc Hd IH]; [constructor|]. apply Forall_cons in Hp as [Hpc Hp].
    constructor; [|auto]. by apply (child_later _ _ _ _ _ _ Hg2 Hpc Hc).
Qed.

Lemma commits_child c :
  (∀ force db, coherent B db → wf_node db gen c → sound db gen force c → Forall B (blobs c) → commits force db c) →
  child_commits c.
Proof.
  intros H db Hco Hw Hs Hb. destruct (H false db Hco Hw Hs Hb) as (h & cc & db' & Hh & Hc). exists h, cc, db'.
  split; [done|]. split_and!; [apply Hc|apply Hc|by apply Hc].
Qed.

(** A node is in the database already, or it is collapsed. *)
Lemma clean_or_dirty (n : node) (db : TrieDB) :
  is_loaded n →
  (∃ h, cache n = (Some h, false)) ∨
  match cache n with
  | (Some h, dirty) =>
      if negb (is_some (Some db)) then Some (HashNode h, n, Some db)
      else if canUnload n gen limit then Some (HashNode h, HashNode h, Some db)
      else if negb dirty then Some (HashNode h, n, Some db)
      else None
  | (None, _) => None
  end = None.
Proof.
  intros Hld. destruct n as [|cs [[h|] g [|]] |k v [[h|] g [|]] | |]; try done; simpl; auto; left; by exists h.
Qed.

Lemma hash_node_commits force db h :
  coherent B db → wf_node db gen (HashNode h) → sound db gen force (HashNode h) → commits force db (HashNode h).
Proof.
  intros Hco Hw Hs. exists (HashNode h), (HashNode h), db. split; [done|].
  split; [done|apply grows_refl|by apply stay_moves; auto using grows_refl|by destruct force| |done].
  intros ->. apply child_left; [apply grows_refl|by right; right|done|by intros []].
Qed.

Lemma short_commits force db k v f :
  ((∃ x, v = ValueNode x) ∨ child_commits v) →
  coherent B db → wf_node db gen (Short k v f) → sound db gen force (Short k v f) → Forall B (blobs (Short k v f)) →
  commits force db (Short k v f).
Proof using HB.
  intros IH Hco Hw Hs Hb. apply Forall_cons in Hb as [Hb Hbv]. pose proof (sound_short _ _ _ _ _ _ Hs) as Hsv.
  destruct (clean_or_dirty (Short k v f) db I) as [(h & Hc)|Hc]; [by eapply clean_commits|].
  assert (Hp : placed db v).
  { inversion Hw as [? x ? Hleaf Hx|? ? ? Hne Hnib Hbr Hwn| |]; subst; right; [left; by exists x|by right]. }
  assert (∃ hv cv db1, match v with ValueNode _ => Ok (v, v, Some db) | _ => hash gen limit false v (Some db) end = Ok (hv, cv, Some db1) ∧
            coherent B db1 ∧ grows db db1 ∧ child_done db db1 v hv cv) as (hv & cv & db1 & Hh & Hco1 & Hg1 & Hd).
  { inversion Hw as [? x ? Hleaf Hx|? ? ? Hne Hnib Hbr Hwn| |]; subst.
    - exists (ValueNode x), (ValueNode x), db. split_and!; [done|done|apply grows_refl|].
      apply child_left; [apply grows_refl|done|done|by intros []].
    - destruct IH as [(x & ->)|IH]; [by inversion Hwn|]. destruct (IH db Hco Hwn Hsv Hbv) as (h & cc & db1 & Hh & ?).
      exists h, cc, db1. split; [|done]. by destruct v; [..|inversion Hwn]. }
  eapply finish_commits; [done|done|done|done|by apply (short_children db db1 force k v f hv cv)|].
  cbn [hash]. rewrite Hc, (proj1 (compact_hex _ _ _ _ Hw)). cbn [bind]. rewrite Hh. done.
Qed.

Lemma full_commits force db cs f :
  (∀ i c, cs !! i = Some c → child_commits c) →
  coherent B db → wf_node db gen (Full cs f) → sound db gen force (Full cs f) → Forall B (blobs (Full cs f)) →
  commits force db (Full cs f).
Proof using HB.
  intros IH Hco Hw Hs Hb. apply Forall_cons in Hb as [Hb Hbs]. pose proof (sound_children _ _ _ _ _ Hs) as Hsc.
  destruct (clean_or_dirty (Full cs f) db I) as [(h & Hc)|Hc]; [by eapply clean_commits|].
  pose proof Hw as [(Hlen & Hlow & Hval) _]%wf_full_inv.
  assert (Hready : ∀ i c, cs !! i = Some c → child_ready db 16 i c).
  { intros i c Hi. split; [by apply (Forall_lookup_1 _ _ _ _ Hsc) in Hi|]. destruct (Nil_or c) as [->|Hn]; [by left|right].
    pose proof (lookup_lt_Some _ _ _ Hi). destruct (Nat.ltb_spec i 16).
    - split_and!; [by eapply Hlow| |by eapply IH]. rewrite Forall_concat in Hbs. rewrite Forall_fmap in Hbs.
      by apply (Forall_lookup_1 _ _ _ _ Hbs) in Hi.
    - replace i with 16%nat in Hi by lia. destruct (Hval _ Hi) as [->|(x & _ & ->)]; [done|by exists x]. }
  destruct (hash_children_commit 16 cs db Hco Hready) as (hs & ccs & db1 & Hh & Hco1 & Hg1 & Hd).
  eapply finish_commits; [done|done|done|done|eapply (full_children db db1 force cs f hs ccs); [done|done| |done]|].
  - apply Forall_lookup_2. intros i c Hi. by eapply ready_placed, Hready.
  - cbn [hash]. rewrite Hc. cbn [bind]. rewrite Hh. done.
Qed.

Lemma node_commits n : ∀ force db,
  coherent B db → wf_node db gen n → sound db gen force n → Forall B (blobs n) → commits force db n.
Proof using HB.
  induction n as [|cs f IH|k v f IH|h|v] using node_tree_ind; intros force db Hco Hw Hs Hb.
  - by inversion Hw.
  - apply full_commits; try done. intros i c Hi. apply commits_child. exact (Forall_lookup_1 _ _ _ _ IH Hi).
  - apply short_commits; try done. right. by apply commits_child.
  - by apply hash_node_commits.
  - by inversion Hw.
Qed.
End Nodes.

(** ** Committing a trie *)

Section Tries.
Context {C : Crypto} (B : bytes → Prop) {HB : Blobs B}.

Lemma moved_ok db t m db' t' :
  trie_ok db t m → moves db (cachegen t) db' (cachegen t') true (root t) (root t') → trie_ok db' t' m.
Proof using.
  intros [Hr Hs] Hm. split; [split|apply Hm].
  - destruct (rep_wf _ _ _ Hr) as [E|Hw]; [left; by apply Hm|right; by apply Hm].
  - apply Hr.
  - intros k v. rewrite <- (rep_stored _ _ _ Hr). symmetry. apply Hm.
Qed.

Lemma grown_ok db t m db' : grows db db' → trie_ok db t m → trie_ok db' t m.
Proof using. intros Hg Ht. eapply moved_ok; [done|]. apply stay_moves; [done|apply Ht|apply Ht]. Qed.

(** A root that is in the database. *)
Definition root_in (db : TrieDB) (gen : Z) (n n' : node) : Prop :=
  is_loaded n' ∧ wf_node db gen n' ∧ sound db gen true n' ∧ in_db db n' ∧ below db n' ∧
  root_of n = own_hash n' ∧ ∀ k v, stored db gen n k v ↔ stored db gen n' k v.

Lemma hash_root_in db gen h :
  wf_node db gen (HashNode h) → sound db gen true (HashNode h) → ∃ n', root_in db gen (HashNode h) n'.
Proof using HB.
  intros Hw Hs. inversion Hs as [| | | |? ? n Hl Hld Hsn Hok Hin]; subst.
  inversion Hw as [| | |? n' Hl' _ Hwn]; subst. same_load. pose proof (hash_ok_own _ _ _ Hok) as ->.
  exists n. split_and!; [done..| | |].
  - pose proof (Hin gen) as E. rewrite Hl in E. injection E as E.
    destruct n; try done; apply sound_flags in Hsn; simpl in E; injection E as _ Ef;
      pose proof (fs_clean _ _ _ _ Hsn) as H; rewrite Ef in H; by destruct H.
  - apply (own_hash_key B).
  - intros k v. by apply stored_Hash.
Qed.

Lemma loaded_root_in db gen n :
  wf_node db gen n → sound db gen true n → is_loaded n → in_db db n → below db n → root_in db gen n n.
Proof using HB.
  intros Hw Hs Hld Hin Hb. split_and!; try done. rewrite <- (own_hash_key B). by destruct n.
Qed.

(** The trie opened again. *)
Lemma reopen db t m n' :
  coherent B db → trie_ok db t m → root_in db (cachegen t) (root t) n' →
  ∃ t', New (root_of (root t)) db = Ok t' ∧ trie_ok db t' m.
Proof using HB.
  intros Hco Ht (Hld & Hw & Hs & Hin & Hb & -> & Hst).
  exists {| root := fold_node (Some (own_hash n')) 0 n'; cachegen := 0; cachelimit := 0 |}. split.
  - unfold New. rewrite (Hin 0). pose proof (Hin 0) as Hn. unfold resolveHash in Hn. rewrite (own_hash_key B) in Hn.
    destruct (db_node db (own_hash n') 0) as [x| | |] eqn:Hx; try done.
    destruct (coherent_entry _ _ _ _ _ Hco (Keccak_length _) Hx) as (blob & Hblob & E & _); [by intros ->|].
    destruct (blob_root _ Hblob) as [Hz He]. rewrite <- E in Hz, He.
    by rewrite (bool_decide_eq_false_2 _ Hz), (bool_decide_eq_false_2 _ He).
  - destruct Ht as [Hr _]. split; [split|]; simpl.
    + right. by apply (node_moves db (cachegen t) db 0 (grows_refl db) n' Hw true Hs).
    + apply Hr.
    + intros k v. rewrite <- (rep_stored _ _ _ Hr), Hst. symmetry.
      by apply (node_moves db (cachegen t) db 0 (grows_refl db) n' Hw true Hs).
    + by apply (node_moves db (cachegen t) db 0 (grows_refl db) n' Hw true Hs).
Qed.

Lemma emptyRoot_key : set_bytes HashLength emptyRoot = emptyRoot.
Proof using. by vm_compute. Qed.

Lemma Commit_Nil db t m :
  coherent B db → trie_ok db t m → root t = Nil →
  ∃ t' db', Commit db t = Ok (root_of (root t), t', db') ∧ coherent B db' ∧ grows db db' ∧ trie_ok db' t' m ∧
            ∃ t2, New (root_of (root t)) db' = Ok t2 ∧ trie_ok db' t2 m.
Proof using.
  intros Hco Ht E. eexists _, db. rewrite E. split_and!; [unfold Commit, hashRoot; rewrite E; reflexivity|done|apply grows_refl| |].
  - eapply moved_ok; [done|]. simpl. rewrite E. apply Nil_moves.
  - assert (Hn : New (root_of Nil) db = Ok {| root := Nil; cachegen := 0; cachelimit := 0 |}).
    { unfold root_of. rewrite emptyRoot_key. unfold New. by rewrite (bool_decide_eq_true_2 (emptyRoot = emptyRoot)), andb_false_r. }
    eexists. split; [exact Hn|]. eapply moved_ok; [done|]. rewrite E. apply Nil_moves.
Qed.

Lemma Commit_node db t m :
  coherent B db → trie_ok db t m → Forall B (blobs (root t)) → wf_node db (cachegen t) (root t) →
  ∃ t' db', Commit db t = Ok (root_of (root t), t', db') ∧ coherent B db' ∧ grows db db' ∧ trie_ok db' t' m ∧
            ∃ t2, New (root_of (root t)) db' = Ok t2 ∧ trie_ok db' t2 m.
Proof using HB.
  intros Hco Ht Hb Hw. pose proof (ok_sound _ _ _ Ht) as Hs.
  destruct (node_commits B (cachegen t) (cachelimit t) (root t) true db Hco Hw Hs Hb)
    as (hashed & cached & db' & Hh & [Hco' Hg Hm Hhd _ Hroot]). simpl in Hhd. subst hashed.
  eexists _, db'. split_and!; [|done|done| |].
  - unfold Commit, hashRoot.
    replace (match root t with Nil => _ | _ => _ end) with (hash (cachegen t) (cachelimit t) true (root t) (Some db))
      by (destruct (root t); [by inversion Hw|done..]).
    rewrite Hh. simpl. destruct (root t); [by inversion Hw|done..].
  - eapply moved_ok; [done|]. simpl. eapply node_moves_trans; [done|].
    apply stay_moves; [apply grows_refl|right; by apply Hm|apply Hm].
  - assert (Hst : moves db (cachegen t) db' (cachegen t) true (root t) (root t)) by (apply stay_moves; auto).
    assert (∃ n', root_in db' (cachegen t) (root t) n') as (n' & Hin).
    { destruct (loaded_or (root t)) as [Hld|Hld].
      - exists (root t). destruct (Hroot Hld eq_refl). apply loaded_root_in; try done; [by apply Hst|apply Hst].
      - destruct (root t) as [| | |h|]; try (by destruct Hld); try by inversion Hw.
        apply hash_root_in; [by apply Hst|apply Hst]. }
    eapply reopen; [done|by eapply grown_ok|done].
Qed.

Lemma Commit_ok db t m :
  coherent B db → trie_ok db t m → Forall B (blobs (root t)) →
  ∃ t' db', Commit db t = Ok (root_of (root t), t', db') ∧ coherent B db' ∧ grows db db' ∧ trie_ok db' t' m ∧
            ∃ t2, New (root_of (root t)) db' = Ok t2 ∧ trie_ok db' t2 m.
Proof using HB.
  intros Hco Ht Hb. destruct (rep_wf _ _ _ (ok_represents _ _ _ Ht)) as [E|Hw]; [by apply Commit_Nil|by apply Commit_node].
Qed.
End Tries.
