(* ===== verification/TrieSpec.v ===== *)
(** * The trie as other components see it

    The main statements about the trie, for concrete tries too. *)

From Stdlib Require Import ZArith Lia.
From stdpp Require Import base option list gmap strings.
From S2P Require Import Prelude Rlp Types Trie TrieKeys TrieProps TrieHash TrieDecode TrieMove TrieCommit.

Section Spec.
Context {C : Crypto}.

(** C3: on a trie that stores a finite map, whichever of its nodes are loaded,
    [TryGet] returns what the map has, [TryUpdate] inserts (an empty value
    deletes) and [TryDelete] deletes; the operations always return and the new
    trie satisfies the invariant for the new map. *)
Theorem Trie_refines_map db t m key v (Hok : trie_ok db t m) (Hkey : wf_bytes key) :
  (∃ t', TryGet db t key = Ok (m !! key, t') ∧ trie_ok db t' m) ∧
  (∃ t', TryUpdate db t key v = Ok t' ∧
         trie_ok db t' (match v with [] => base.delete key m | _ => <[key := v]> m end)) ∧
  (∃ t', TryDelete db t key = Ok t' ∧ trie_ok db t' (base.delete key m)).
Proof.
  destruct (delete_ok db t m key Hok Hkey) as (t' & Hd & Hu & Hok').
  split_and!; [by apply get_ok| |by exists t']. destruct v as [|x v]; [by exists t'|by apply update_ok].
Qed.

(** C4: the root hash depends on what is stored only: two tries that store the
    same map, over whatever databases, with whatever nodes loaded and whatever
    hashes cached, have the same hash.  Hashing keeps the invariant. *)
Theorem Trie_Hash_of_contents db1 t1 db2 t2 m (H1 : trie_ok db1 t1 m) (H2 : trie_ok db2 t2 m) :
  ∃ r t1' t2', Trie_Hash t1 = Ok (r, t1') ∧ Trie_Hash t2 = Ok (r, t2') ∧
               trie_ok db1 t1' m ∧ trie_ok db2 t2' m.
Proof.
  destruct (Trie_Hash_ok db1 t1 m H1) as (t1' & E1 & H1'), (Trie_Hash_ok db2 t2 m H2) as (t2' & E2 & H2').
  exists (root_of (root t1)), t1', t2'. split_and!; [done| |done|done].
  by rewrite E2, (root_of_unique db1 t1 db2 t2 m).
Qed.

(** C5: committing a trie returns its root hash, and opening that hash again
    gives a trie that stores the same; the trie itself, which may have unloaded
    nodes, and every trie that could be read from the database before, store
    what they stored.  [B] are the encodings in play, among which the hash has
    no collision. *)
Theorem Commit_then_New B `{!Blobs B} db t m
    (Hco : coherent B db) (Hok : trie_ok db t m) (Hblobs : Forall B (blobs (root t))) :
  ∃ r t' db', Commit db t = Ok (r, t', db') ∧ (∃ t2, Trie_Hash t = Ok (r, t2)) ∧
    coherent B db' ∧ trie_ok db' t' m ∧ (∃ t2, New r db' = Ok t2 ∧ trie_ok db' t2 m) ∧
    ∀ t0 m0, trie_ok db t0 m0 → trie_ok db' t0 m0.
Proof.
  destruct (Commit_ok B db t m Hco Hok Hblobs) as (t' & db' & Hc & Hco' & Hg & Hok' & Hnew).
  destruct (Trie_Hash_ok db t m Hok) as (t2 & Hh & _).
  exists (root_of (root t)), t', db'. split_and!; [done|by exists t2|done|done|done|].
  intros t0 m0. by apply grown_ok.
Qed.
End Spec.

(** The encodings of keys can be undone: [hexToKeybytes] undoes
    [keybytesToHex], and [compactToHex] undoes [hexToCompact] on nibbles with or
    without terminator. *)
Theorem key_encodings_round_trip key l term (Hkey : wf_bytes key) (Hl : nibbles l) :
  hexToKeybytes (keybytesToHex key) = Ok key ∧
  ∃ c, hexToCompact (l ++ terminator term) = Ok c ∧ wf_bytes c ∧ compactToHex c = Ok (l ++ terminator term).
Proof.
  split; [|destruct (compact_ok l term Hl) as (c & ? & ? & _ & ?); by exists c].
  unfold hexToKeybytes, keybytesToHex. destruct (hasTerm_app (hex_bytes key)) as [Ht El]. unfold hex_bytes in Ht, El.
  rewrite Ht, El. fold (hex_bytes key). by rewrite hex_bytes_even, decodeNibbles_hex_bytes.
Qed.

Lemma key_encodings_round_trip_witness :
  hexToKeybytes (keybytesToHex [18; 255]) = Ok [18; 255] ∧
  ∃ c, hexToCompact ([3; 15; 2] ++ terminator true) = Ok c ∧ wf_bytes c ∧
       compactToHex c = Ok ([3; 15; 2] ++ terminator true).
Proof. apply key_encodings_round_trip; repeat constructor; unfold is_byte; lia. Defined.

(** ** A trie whose root is not loaded *)

Module Toy.
#[local] Instance crypto : Crypto := {|
  Keccak256 b := set_bytes 32 (map (λ x, x `mod` 256) b);
  ValidateSignatureValues _ _ _ _ := true;
  Ecrecover _ b := Ok b
|}.

Definition leaf : node := Short [0; 1; 16] (ValueNode [7]) (newFlag 0).
Definition leaf_hash : bytes := set_bytes 32 [196; 130; 32; 1; 7].
Definition db : TrieDB := {| dirties := {[ leaf_hash := Collapsed (Short [32; 1] (ValueNode [7]) no_flag) ]}; diskdb := ∅; preimages := ∅ |}.
Definition unloaded : Trie := {| root := HashNode leaf_hash; cachegen := 0; cachelimit := 0 |}.
Definition loaded : Trie := {| root := leaf; cachegen := 0; cachelimit := 0 |}.

Lemma loads_leaf : resolveHash db 0 leaf_hash = Ok (Short [0; 1; 16] (ValueNode [7]) (stored_flag (Some leaf_hash) 0)).
Proof. vm_compute. reflexivity. Qed.

Lemma leaf_stores d f k v :
  stored d 0 (Short [0; 1; 16] (ValueNode [7]) f) k v ↔
  ∃ key, k = keybytesToHex key ∧ ({[ [1] := [7] ]} : gmap bytes bytes) !! key = Some v.
Proof.
  rewrite stored_Short. setoid_rewrite stored_Value. setoid_rewrite lookup_singleton_Some. split.
  - intros (r & -> & -> & ->). by exists [1].
  - intros (key & -> & <- & <-). by exists [].
Qed.

Lemma leaf_wf d f : wf_node d 0 (Short [0; 1; 16] (ValueNode [7]) f).
Proof. apply wf_leaf; [|done]. apply (leaf_key_hex [1]). repeat constructor; unfold is_byte; lia. Qed.

Lemma singleton_keys key v : ({[ [1] := [7] ]} : gmap bytes bytes) !! key = Some v → wf_bytes key.
Proof. intros [<- _]%lookup_singleton_Some. repeat constructor; unfold is_byte; lia. Qed.

Lemma loaded_ok d : trie_ok d loaded {[ [1] := [7] ]}.
Proof.
  split; [split|]; simpl; [right; apply leaf_wf|apply singleton_keys|apply leaf_stores|].
  apply so_short; [constructor|apply new_flags].
Qed.

Lemma leaf_in_db f : in_db db (Short [0; 1; 16] (ValueNode [7]) f).
Proof. intros g. vm_compute. reflexivity. Qed.

Lemma unloaded_ok : trie_ok db unloaded {[ [1] := [7] ]}.
Proof.
  split; [split|]; simpl.
  - right. eapply wf_hash; [apply loads_leaf|done|apply leaf_wf].
  - apply singleton_keys.
  - intros k v. rewrite (stored_Hash _ _ _ _ _ _ loads_leaf). apply leaf_stores.
  - assert (Hok : hash_ok true leaf_hash (own_item leaf)) by by vm_compute.
    eapply so_hash; [apply loads_leaf|done| |done|apply leaf_in_db]. apply so_short; [constructor|].
    split; [by intros h [= <-]|]. intros _. split; [apply leaf_in_db|apply refs_other; by intros []].
Qed.

Lemma Trie_refines_map_witness :
  (∃ t', TryGet db unloaded [1] = Ok (Some [7], t') ∧ trie_ok db t' {[ [1] := [7] ]}) ∧
  (∃ t', TryUpdate db unloaded [1] [9; 9] = Ok t' ∧ trie_ok db t' (<[[1] := [9; 9]]> {[ [1] := [7] ]})) ∧
  (∃ t', TryDelete db unloaded [1] = Ok t' ∧ trie_ok db t' (base.delete [1] {[ [1] := [7] ]})).
Proof. apply (Trie_refines_map db unloaded _ [1] [9; 9] unloaded_ok). repeat constructor; unfold is_byte; lia. Defined.

Lemma Trie_Hash_of_contents_witness :
  ∃ r t1' t2', Trie_Hash loaded = Ok (r, t1') ∧ Trie_Hash unloaded = Ok (r, t2') ∧
               trie_ok db t1' {[ [1] := [7] ]} ∧ trie_ok db t2' {[ [1] := [7] ]}.
Proof. exact (Trie_Hash_of_contents db loaded db unloaded _ (loaded_ok db) unloaded_ok). Defined.

Definition empty_db : TrieDB := {| dirties := ∅; diskdb := ∅; preimages := ∅ |}.

#[local] Instance leaf_blobs : Blobs (eq [196; 130; 32; 1; 7]).
Proof.
  split.
  - intros b. apply set_bytes_length.
  - intros b <-. split; [repeat constructor; unfold is_byte; lia|]. vm_compute. reflexivity.
  - by intros a b <- <-.
  - intros b <-. split; vm_compute; congruence.
Qed.

Lemma Commit_then_New_witness :
  ∃ r t' db', Commit empty_db loaded = Ok (r, t', db') ∧ (∃ t2, Trie_Hash loaded = Ok (r, t2)) ∧
    coherent (eq [196; 130; 32; 1; 7]) db' ∧ trie_ok db' t' {[ [1] := [7] ]} ∧
    (∃ t2, New r db' = Ok t2 ∧ trie_ok db' t2 {[ [1] := [7] ]}) ∧
    ∀ t0 m0, trie_ok empty_db t0 m0 → trie_ok db' t0 m0.
Proof.
  apply (Commit_then_New (eq [196; 130; 32; 1; 7]) empty_db loaded).
  - split; intros x c; simpl; by rewrite lookup_empty.
  - apply loaded_ok.
  - repeat constructor.
Defined.
End Toy.
