(* ===== verification/SecureTrie.v ===== *)
(** * Tries with hashed keys and the database of the state

    [trie/secure_trie.go] and [core/state/database.go]: keys are hashed before
    they go to the trie, their preimages are kept beside it, and the last tries
    that were committed are kept for the next time they are opened. *)

From Stdlib Require Import ZArith Lia.
From stdpp Require Import base option list gmap strings.
From S2P Require Import Prelude Rlp Types Trie TrieKeys TrieProps TrieHash TrieDecode TrieMove TrieCommit.

(** ** [SecureTrie] *)

(** [keyOwner] tells whether [secKeyCacheOwner] points to the trie itself; that
    of a copy does not. *)
Record SecureTrie := {
  st_trie : Trie;
  secKeyCache : gmap bytes bytes;
  keyOwner : bool
}.

Definition put_trie (t : SecureTrie) (tr : Trie) : SecureTrie :=
  {| st_trie := tr; secKeyCache := secKeyCache t; keyOwner := keyOwner t |}.

Definition put_keys (t : SecureTrie) (keys : gmap bytes bytes) : SecureTrie :=
  {| st_trie := st_trie t; secKeyCache := keys; keyOwner := true |}.

Definition SetCacheLimit (t : Trie) (l : Z) : Trie :=
  {| root := root t; cachegen := cachegen t; cachelimit := l |}.

Definition NewSecure (rt : Hash) (db : TrieDB) (cachelimit : Z) : result SecureTrie :=
  let* t := New rt db in
  Ok {| st_trie := SetCacheLimit t cachelimit; secKeyCache := ∅; keyOwner := false |}.

Definition getSecKeyCache (t : SecureTrie) : gmap bytes bytes := if keyOwner t then secKeyCache t else ∅.

Definition SecureTrie_Copy (t : SecureTrie) : SecureTrie :=
  {| st_trie := st_trie t; secKeyCache := secKeyCache t; keyOwner := false |}.

Section Secure.
Context {C : Crypto}.

Definition hashKey (key : bytes) : bytes := Keccak256 key.

Definition secure_TryGet (db : TrieDB) (t : SecureTrie) (key : bytes) : result (option bytes) * SecureTrie :=
  match TryGet db (st_trie t) (hashKey key) with
  | Ok (v, tr) => (Ok v, put_trie t tr)
  | Err e => (Err e, t)
  | Panic w => (Panic w, t)
  | Hang => (Hang, t)
  end.

Definition secure_TryUpdate (db : TrieDB) (t : SecureTrie) (key value : bytes) : result unit * SecureTrie :=
  let hk := hashKey key in
  match TryUpdate db (st_trie t) hk value with
  | Ok tr => (Ok (), put_keys (put_trie t tr) (<[hk := key]> (getSecKeyCache t)))
  | Err e => (Err e, t)
  | Panic w => (Panic w, t)
  | Hang => (Hang, t)
  end.

(** The preimage goes first. *)
Definition secure_TryDelete (db : TrieDB) (t : SecureTrie) (key : bytes) : result unit * SecureTrie :=
  let hk := hashKey key in
  let t := put_keys t (base.delete hk (getSecKeyCache t)) in
  match TryDelete db (st_trie t) hk with
  | Ok tr => (Ok (), put_trie t tr)
  | Err e => (Err e, t)
  | Panic w => (Panic w, t)
  | Hang => (Hang, t)
  end.

Definition GetKey (db : TrieDB) (t : SecureTrie) (shaKey : bytes) : option bytes :=
  match getSecKeyCache t !! shaKey with
  | Some key => Some key
  | None => db_preimage db (set_bytes HashLength shaKey)
  end.

Definition insertPreimages (keys : gmap bytes bytes) (db : TrieDB) : TrieDB :=
  map_fold (λ hk key db, db_insertPreimage db (set_bytes HashLength hk) key) db keys.

Definition secure_Commit (db : TrieDB) (t : SecureTrie) : result Hash * SecureTrie * TrieDB :=
  let keys := getSecKeyCache t in
  let db := insertPreimages keys db in
  let t := put_keys t ∅ in
  match Commit db (st_trie t) with
  | Ok (r, tr, db) => (Ok r, put_trie t tr, db)
  | Err e => (Err e, t, db)
  | Panic w => (Panic w, t, db)
  | Hang => (Hang, t, db)
  end.

Definition secure_Hash (t : SecureTrie) : result (Hash * SecureTrie) :=
  let* (r, tr) := Trie_Hash (st_trie t) in Ok (r, put_trie t tr).

(** ** The database of the state ([cachingDB]) *)

(** The cache of code sizes is left out. *)
Record cachingDB := {
  cdb : TrieDB;
  pastTries : list SecureTrie
}.

Definition put_cdb (d : cachingDB) (db : TrieDB) : cachingDB := {| cdb := db; pastTries := pastTries d |}.

Definition MaxTrieCacheGen : Z := 120.
Definition maxPastTries : nat := 12.

(** The last of the tries with the root; comparing the hashes caches them. *)
Fixpoint find_past (root : Hash) (newest_first : list SecureTrie) : result (option SecureTrie * list SecureTrie) :=
  match newest_first with
  | [] => Ok (None, [])
  | t :: l =>
      let* (r, t) := secure_Hash t in
      if bool_decide (r = root) then Ok (Some (SecureTrie_Copy t), t :: l)
      else let* (found, l) := find_past root l in Ok (found, t :: l)
  end.

Definition caching_OpenTrie (d : cachingDB) (root : Hash) : result (SecureTrie * cachingDB) :=
  let* (found, l) := find_past root (reverse (pastTries d)) in
  let d := {| cdb := cdb d; pastTries := reverse l |} in
  match found with
  | Some t => Ok (t, d)
  | None => let* t := NewSecure root (cdb d) MaxTrieCacheGen in Ok (t, d)
  end.

Definition pushTrie (d : cachingDB) (t : SecureTrie) : cachingDB :=
  {| cdb := cdb d;
     pastTries := (if (maxPastTries <=? length (pastTries d))%nat then drop 1 (pastTries d) else pastTries d) ++ [t] |}.

Definition caching_OpenStorageTrie (d : cachingDB) (addrHash root : Hash) : result SecureTrie := NewSecure root (cdb d) 0.

Definition caching_ContractCode (d : cachingDB) (addrHash codeHash : Hash) : option bytes * option string :=
  match db_Node (cdb d) codeHash with
  | Some code => (Some code, None)
  | None => (None, Some "not found"%string)
  end.

Definition caching_ContractCodeSize (d : cachingDB) (addrHash codeHash : Hash) : Z * option string :=
  let '(code, err) := caching_ContractCode d addrHash codeHash in
  (Z.of_nat (length (default [] code)), err).

(** [cachedTrie.Commit]: an account trie joins the past tries. *)
Definition cachedTrie_Commit (d : cachingDB) (t : SecureTrie) : result Hash * SecureTrie * cachingDB :=
  let '(r, t, db) := secure_Commit (cdb d) t in
  let d := put_cdb d db in
  match r with
  | Ok _ => (r, t, pushTrie d t)
  | _ => (r, t, d)
  end.
End Secure.

(** ** Preimages *)

Section Preimages.
Context {C : Crypto} (Keccak_length : ∀ b, length (Keccak256 b) = HashLength).

(** Keys are cached under their hashes. *)
Definition keys_ok (keys : gmap bytes bytes) : Prop := ∀ hk key, keys !! hk = Some key → hk = Keccak256 key.

Definition preimages_ok (db : TrieDB) : Prop := ∀ hk key, db_preimage db hk = Some key → hk = Keccak256 key.

Lemma insertPreimage_frame db hk key :
  dirties (db_insertPreimage db hk key) = dirties db ∧ diskdb (db_insertPreimage db hk key) = diskdb db.
Proof. unfold db_insertPreimage. by case_match. Qed.

Lemma insertPreimages_frame keys db :
  dirties (insertPreimages keys db) = dirties db ∧ diskdb (insertPreimages keys db) = diskdb db.
Proof.
  unfold insertPreimages. apply (map_fold_weak_ind (λ db' _, dirties db' = dirties db ∧ diskdb db' = diskdb db)); [done|].
  intros hk key m db' _ [E1 E2].
  destruct (insertPreimage_frame db' (set_bytes HashLength hk) key). split; congruence.
Qed.

Lemma db_preimage_insert db hk key x :
  db_preimage (db_insertPreimage db hk key) x = db_preimage db x ∨
  x = hk ∧ db_preimage (db_insertPreimage db hk key) x = Some key.
Proof.
  unfold db_preimage, db_insertPreimage. destruct (preimages db !! hk) eqn:E; [by left|]. simpl.
  destruct (decide (x = hk)) as [->|Hne]; [right; by rewrite lookup_insert_eq|left]. by rewrite lookup_insert_ne.
Qed.

Lemma db_preimage_kept db hk key : is_Some (db_preimage (db_insertPreimage db hk key) hk).
Proof.
  unfold db_preimage, db_insertPreimage. destruct (preimages db !! hk) eqn:E; [by rewrite E|]. simpl.
  by rewrite lookup_insert_eq.
Qed.

Lemma preimage_still db hk key x : is_Some (db_preimage db x) → is_Some (db_preimage (db_insertPreimage db hk key) x).
Proof. intros H. destruct (db_preimage_insert db hk key x) as [->|[-> ->]]; [done|by eexists]. Qed.

(** Afterwards the database has a preimage of every cached key. *)
Lemma insertPreimages_ok keys db :
  keys_ok keys → preimages_ok db →
  preimages_ok (insertPreimages keys db) ∧
  (∀ x, is_Some (db_preimage db x) → is_Some (db_preimage (insertPreimages keys db) x)) ∧
  ∀ hk, is_Some (keys !! hk) → is_Some (db_preimage (insertPreimages keys db) hk).
Proof using Keccak_length.
  intros Hk Hdb. unfold insertPreimages. revert Hk.
  apply (map_fold_weak_ind (λ db' keys, keys_ok keys → preimages_ok db' ∧
    (∀ x, is_Some (db_preimage db x) → is_Some (db_preimage db' x)) ∧
    ∀ hk, is_Some (keys !! hk) → is_Some (db_preimage db' hk))).
  - intros _. split_and!; [done|done|]. intros hk [x Hx]. by rewrite lookup_empty in Hx.
  - intros hk key m db' Hm IH Hk.
    assert (E : hk = Keccak256 key) by (apply Hk; by rewrite lookup_insert_eq).
    destruct IH as (IH1 & IH2 & IH3).
    { intros x y Hx. apply Hk. rewrite lookup_insert_ne; [done|]. intros ->. congruence. }
    rewrite set_bytes_id by (rewrite E; apply Keccak_length). split_and!.
    + intros x y Hx. destruct (db_preimage_insert db' hk key x) as [Ex|[-> Ex]]; rewrite Ex in Hx; [auto|by simplify_eq].
    + intros x Hx. by apply preimage_still, IH2.
    + intros x [y Hx]. apply lookup_insert_Some in Hx as [[<- _]|[_ Hx]]; [apply db_preimage_kept|].
      apply preimage_still, IH3. by eexists.
Qed.
End Preimages.

(** ** What the tries store *)

Section Contents.
Context {C : Crypto}.
Context (Keccak_bytes : ∀ b, length (Keccak256 b) = HashLength ∧ wf_bytes (Keccak256 b)).

Definition secure_ok (db : TrieDB) (t : SecureTrie) (m : gmap bytes bytes) : Prop := trie_ok db (st_trie t) m.

Lemma secure_get db t m key :
  secure_ok db t m →
  ∃ t', secure_TryGet db t key = (Ok (m !! Keccak256 key), t') ∧ secure_ok db t' m.
Proof using Keccak_bytes.
  intros Hok. destruct (get_ok db (st_trie t) m (Keccak256 key) Hok) as (tr & H & Hok'); [apply Keccak_bytes|].
  unfold secure_TryGet, hashKey. rewrite H. by eexists.
Qed.

Lemma secure_update db t m key v :
  secure_ok db t m → v ≠ [] →
  ∃ t', secure_TryUpdate db t key v = (Ok (), t') ∧ secure_ok db t' (<[Keccak256 key := v]> m).
Proof using Keccak_bytes.
  intros Hok Hv. destruct (update_ok db (st_trie t) m (Keccak256 key) v Hok) as (tr & H & Hok'); [apply Keccak_bytes|done|].
  unfold secure_TryUpdate, hashKey. rewrite H. by eexists.
Qed.

Lemma secure_delete db t m key :
  secure_ok db t m →
  ∃ t', secure_TryDelete db t key = (Ok (), t') ∧ secure_ok db t' (base.delete (Keccak256 key) m).
Proof using Keccak_bytes.
  intros Hok. destruct (delete_ok db (st_trie t) m (Keccak256 key) Hok) as (tr & H & _ & Hok'); [apply Keccak_bytes|].
  unfold secure_TryDelete, hashKey. simpl. rewrite H. by eexists.
Qed.

(** The invariant does not look at the limit of the cache or the preimages. *)
Lemma limit_ok db t m l : trie_ok db t m → trie_ok db (SetCacheLimit t l) m.
Proof using. intros [[H1 H2 H3] H4]. split; [split|]; done. Qed.

Lemma same_nodes_grows db db' : dirties db' = dirties db → diskdb db' = diskdb db → grows db db'.
Proof using. intros E1 E2 g h n. unfold resolveHash, db_node. by rewrite E1, E2. Qed.

Lemma same_nodes_coherent B db db' :
  dirties db' = dirties db → diskdb db' = diskdb db → coherent B db → coherent B db'.
Proof using. intros E1 E2 [H1 H2]. split; rewrite ?E1, ?E2; done. Qed.

Lemma secure_commit B `{!Blobs B} db t m :
  coherent B db → secure_ok db t m → Forall B (blobs (root (st_trie t))) →
  ∃ t' db', secure_Commit db t = (Ok (root_of (root (st_trie t))), t', db') ∧ coherent B db' ∧ grows db db' ∧
            secure_ok db' t' m ∧
            ∀ l, ∃ t2, NewSecure (root_of (root (st_trie t))) db' l = Ok t2 ∧ secure_ok db' t2 m.
Proof using.
  intros Hco Hok Hb. destruct (insertPreimages_frame (getSecKeyCache t) db) as [E1 E2].
  assert (Hg1 : grows db (insertPreimages (getSecKeyCache t) db)) by by apply same_nodes_grows.
  destruct (Commit_ok B (insertPreimages (getSecKeyCache t) db) (st_trie t) m) as (t' & db' & Hc & Hco' & Hg & Hok' & t2 & Hn & Hok2);
    [by eapply same_nodes_coherent|by eapply grown_ok|done|].
  unfold secure_Commit. simpl. rewrite Hc. eexists _, db'. split; [reflexivity|].
  split_and!; [done|by eapply grows_trans|done|]. intros l. unfold NewSecure. rewrite Hn. eexists. split; [reflexivity|].
  by apply limit_ok.
Qed.
End Contents.
