(* ===== verification/StateTries.v ===== *)
(** * The tries under the state database

    The state database is written against the interface [Database].  Here the
    interface is the tries with hashed keys over the node store, and the laws
    the state database relies on are theorems about them. *)

From Stdlib Require Import ZArith Lia.
From stdpp Require Import base option list gmap sets strings.
From S2P Require Import Prelude Rlp RlpStream Types Account.
From S2P Require Import Trie TrieKeys TrieProps TrieHash TrieDecode TrieMove TrieCommit TrieSpec SecureTrie.
From S2P Require Import State StateRevert StateFinalise.

(** A trie with the node store it reads from.  [ot_account] holds of the
    account trie, which joins the past tries when it is committed.  The store
    only grows, so a trie may keep the one it was opened with. *)
Record openTrie := {
  ot_db : TrieDB;
  ot_trie : SecureTrie;
  ot_account : bool
}.

Definition put_ot (o : openTrie) (t : SecureTrie) : openTrie :=
  {| ot_db := ot_db o; ot_trie := t; ot_account := ot_account o |}.

Definition no_nodes : TrieDB := {| Trie.dirties := ∅; diskdb := ∅; Trie.preimages := ∅ |}.

Definition no_trie : SecureTrie :=
  {| st_trie := {| root := Nil; cachegen := 0; cachelimit := 0 |}; secKeyCache := ∅; keyOwner := false |}.

Definition updated {A} (o : openTrie) (r : result A * SecureTrie) : result openTrie :=
  let* _ := r.1 in Ok (put_ot o r.2).

#[export] Instance stateDatabase {C : Crypto} : Database := {|
  State.Trie := openTrie;
  DB := cachingDB;
  emptyTrie := {| ot_db := no_nodes; ot_trie := no_trie; ot_account := false |};
  OpenTrie d root :=
    let* (t, d) := caching_OpenTrie d root in Ok {| ot_db := cdb d; ot_trie := t; ot_account := true |};
  OpenStorageTrie d addrHash root :=
    let* t := caching_OpenStorageTrie d addrHash root in Ok {| ot_db := cdb d; ot_trie := t; ot_account := false |};
  State.TryGet o key := let* v := (secure_TryGet (ot_db o) (ot_trie o) key).1 in Ok (default [] v);
  State.TryUpdate o key value := updated o (secure_TryUpdate (ot_db o) (ot_trie o) key value);
  State.TryDelete o key := updated o (secure_TryDelete (ot_db o) (ot_trie o) key);
  State.Trie_Hash o := match secure_Hash (ot_trie o) with Ok (r, _) => r | _ => zeroHash end;
  Trie_Commit d o :=
    if ot_account o then let '(r, _, d) := cachedTrie_Commit d (ot_trie o) in (r, d)
    else let '(r, _, db) := secure_Commit (cdb d) (ot_trie o) in (r, put_cdb d db);
  ContractCode := caching_ContractCode;
  ContractCodeSize := caching_ContractCodeSize;
  InsertBlob d hash blob := put_cdb d (db_InsertBlob (cdb d) hash blob)
|}.

(** ** The laws *)

Section Laws.
Context {C : Crypto}.
Context (Keccak_bytes : ∀ b, length (Keccak256 b) = HashLength ∧ wf_bytes (Keccak256 b)).

(** The trie stores the map. *)
Definition holds (o : openTrie) (m : gmap bytes bytes) : Prop := secure_ok (ot_db o) (ot_trie o) m.

Definition good_trie (o : openTrie) : Prop := ∃ m, holds o m.

Lemma holds_get o m key : holds o m → State.TryGet o key = Ok (default [] (m !! Keccak256 key)).
Proof using Keccak_bytes. intros Ho. destruct (secure_get Keccak_bytes _ _ _ key Ho) as (t' & H & _). simpl. by rewrite H. Qed.

Lemma holds_update o m key v :
  holds o m → v ≠ [] → ∃ o', State.TryUpdate o key v = Ok o' ∧ holds o' (<[Keccak256 key := v]> m).
Proof using Keccak_bytes.
  intros Ho Hv. destruct (secure_update Keccak_bytes _ _ _ key v Ho Hv) as (t' & H & Ho'). simpl. unfold updated.
  rewrite H. by eexists.
Qed.

Lemma holds_delete o m key :
  holds o m → ∃ o', State.TryDelete o key = Ok o' ∧ holds o' (base.delete (Keccak256 key) m).
Proof using Keccak_bytes.
  intros Ho. destruct (secure_delete Keccak_bytes _ _ _ key Ho) as (t' & H & Ho'). simpl. unfold updated.
  rewrite H. by eexists.
Qed.

Lemma laws_of_tries : TrieLaws good_trie.
Proof using Keccak_bytes.
  split.
  - intros t k v [m Hm] Hv. destruct (holds_update t m k v Hm Hv) as (t' & H & Hm'). exists t'.
    split; [done|]. split; [by eexists|]. split; [by rewrite (holds_get _ _ _ Hm'), lookup_insert_eq|].
    intros k' Hne. by rewrite (holds_get _ _ _ Hm'), (holds_get _ _ _ Hm), lookup_insert_ne.
  - intros t k [m Hm]. destruct (holds_delete t m k Hm) as (t' & H & Hm'). exists t'.
    split; [done|]. split; [by eexists|]. split; [by rewrite (holds_get _ _ _ Hm'), lookup_delete_eq|].
    intros k' Hne. by rewrite (holds_get _ _ _ Hm'), (holds_get _ _ _ Hm), lookup_delete_ne.
Qed.

(** C29: with hashes of 32 bytes the laws the state database relies on hold of
    its tries: writing or deleting a key succeeds, the key then reads as
    written, every key with another hash reads as before, and all this goes on
    holding of the new trie. *)
Theorem state_tries_lawful : TrieLaws good_trie.
Proof using Keccak_bytes. exact laws_of_tries. Qed.

(** ** Commit and open *)

(** The trie that was just pushed is the one that is found. *)
Lemma find_pushed d t m r :
  secure_ok (cdb d) t m → r = root_of (root (st_trie t)) →
  ∃ t' d', caching_OpenTrie (pushTrie d t) r = Ok (t', d') ∧ cdb d' = cdb d ∧ secure_ok (cdb d) t' m.
Proof using.
  intros Hok ->. destruct (Trie_Hash_ok _ _ _ Hok) as (t' & Hh & Hok'). unfold caching_OpenTrie, pushTrie. simpl.
  rewrite reverse_app. simpl. unfold secure_Hash. rewrite Hh. simpl. rewrite bool_decide_eq_true_2 by done. simpl.
  eexists _, _. split; [reflexivity|]. split; [done|]. exact Hok'.
Qed.

Lemma holds_Hash o m : holds o m → State.Trie_Hash o = root_of (root (st_trie (ot_trie o))).
Proof using. intros Ho. destruct (Trie_Hash_ok _ _ _ Ho) as (t' & Hh & _). simpl. unfold secure_Hash. by rewrite Hh. Qed.

(** Committing a trie of the state, an account trie or a storage trie,
    returns its root hash, and opening that hash gives a trie that stores the
    same; an account trie is found among the past tries, a storage trie is read
    from the nodes.  What the database held before it still holds. *)
Theorem committed_tries_reopen B `{!Blobs B} d o m addrHash
    (Hco : coherent B (cdb d)) (Hdb : grows (ot_db o) (cdb d)) (Hok : holds o m)
    (Hblobs : Forall B (blobs (root (st_trie (ot_trie o))))) :
  ∃ d' o', Trie_Commit d o = (Ok (State.Trie_Hash o), d') ∧ coherent B (cdb d') ∧ grows (cdb d) (cdb d') ∧
    (if ot_account o then OpenTrie d' (State.Trie_Hash o) else OpenStorageTrie d' addrHash (State.Trie_Hash o)) = Ok o' ∧
    holds o' m.
Proof using.
  rewrite (holds_Hash o m Hok). assert (Hok1 : secure_ok (cdb d) (ot_trie o) m) by by eapply grown_ok.
  destruct (secure_commit B (cdb d) (ot_trie o) m Hco Hok1 Hblobs) as (t' & db' & Hc & Hco' & Hg & Hok' & Hnew).
  simpl. unfold cachedTrie_Commit. rewrite Hc. destruct (ot_account o).
  - destruct (find_pushed (put_cdb d db') t' m (root_of (root (st_trie (ot_trie o))))) as (t2 & d2 & Ho & Hd2 & Hok2);
      [done|by eapply root_of_unique|].
    eexists _, _. split_and!; [reflexivity|done|done|by rewrite Ho|]. unfold holds. simpl. rewrite Hd2. exact Hok2.
  - destruct (Hnew 0) as (t2 & Hn & Hok2). eexists _, _. split_and!; [reflexivity|done|done| |].
    + simpl. unfold caching_OpenStorageTrie. simpl. by rewrite Hn.
    + exact Hok2.
Qed.
End Laws.

(** ** An account trie with one leaf *)

Module ToyState.
#[local] Existing Instance Toy.crypto.
#[local] Existing Instance Toy.leaf_blobs.

Lemma toy_hash_bytes b : length (Keccak256 b) = HashLength ∧ wf_bytes (Keccak256 b).
Proof.
  split; [apply set_bytes_length|]. apply set_bytes_wf, Forall_map, Forall_forall. intros x _. unfold is_byte. simpl.
  apply Z.mod_pos_bound. lia.
Qed.

Lemma state_tries_lawful_witness : TrieLaws good_trie.
Proof. exact (state_tries_lawful toy_hash_bytes). Defined.

Definition disk : cachingDB := {| cdb := Toy.empty_db; pastTries := [] |}.

Definition one_leaf (account : bool) : openTrie :=
  {| ot_db := Toy.empty_db;
     ot_trie := {| st_trie := Toy.loaded; secKeyCache := ∅; keyOwner := false |};
     ot_account := account |}.

Lemma committed_tries_reopen_witness :
  ∃ d' o', Trie_Commit disk (one_leaf true) = (Ok (State.Trie_Hash (one_leaf true)), d') ∧
    coherent (eq [196; 130; 32; 1; 7]) (cdb d') ∧ grows (cdb disk) (cdb d') ∧
    OpenTrie d' (State.Trie_Hash (one_leaf true)) = Ok o' ∧ holds o' {[ [1] := [7] ]}.
Proof.
  apply (committed_tries_reopen (eq [196; 130; 32; 1; 7]) disk (one_leaf true) {[ [1] := [7] ]} []).
  - split; intros x c; simpl; by rewrite lookup_empty.
  - by apply same_nodes_grows.
  - apply Toy.loaded_ok.
  - repeat constructor.
Defined.
End ToyState.
