(* ===== verification/Heap.v ===== *)
(** * Heaps

    [container/heap] of the standard library on slices, for the orders of the
    transaction pool: a slice is a list, [Less] compares two elements. *)

From Stdlib Require Import ZArith Lia.
From stdpp Require Import base option list.
From S2P Require Import Prelude.

Section Heap.
Context {A : Type} (less : A → A → bool).

Definition swap (l : list A) (i j : nat) : list A :=
  match l !! i, l !! j with
  | Some x, Some y => <[j := x]> (<[i := y]> l)
  | _, _ => l
  end.

(** [Less(i, j)]. *)
Definition less_at (l : list A) (i j : nat) : bool :=
  match l !! i, l !! j with
  | Some x, Some y => less x y
  | _, _ => false
  end.

(** The parent of position 0 is position 0: [(0-1)/2] rounds towards zero. *)
Fixpoint up (fuel : nat) (l : list A) (j : nat) : list A :=
  match fuel with
  | O => l
  | S fuel =>
      let i := ((j - 1) / 2)%nat in
      if (i =? j)%nat || negb (less_at l j i) then l else up fuel (swap l i j) i
  end.

(** The list and the position at which the element stops. *)
Fixpoint down_loop (fuel : nat) (l : list A) (i n : nat) : list A * nat :=
  match fuel with
  | O => (l, i)
  | S fuel =>
      let j1 := (2 * i + 1)%nat in
      if (n <=? j1)%nat then (l, i)
      else
        let j := if (j1 + 1 <? n)%nat && less_at l (j1 + 1) j1 then (j1 + 1)%nat else j1 in
        if negb (less_at l j i) then (l, i) else down_loop fuel (swap l i j) j n
  end.

Definition down (l : list A) (i0 n : nat) : list A * bool :=
  let '(l, i) := down_loop n l i0 n in (l, (i0 <? i)%nat).

Fixpoint Init_loop (l : list A) (k n : nat) : list A :=
  match k with
  | O => l
  | S i => Init_loop (down l i n).1 i n
  end.

Definition heap_Init (l : list A) : list A := Init_loop l (length l / 2) (length l).

Definition heap_Push (l : list A) (x : A) : list A := up (S (length l)) (l ++ [x]) (length l).

(** [Pop] on an empty heap panics; the callers ask for the length first. *)
Definition heap_Pop (l : list A) : option (A * list A) :=
  let n := (length l - 1)%nat in
  let l := (down (swap l 0 n) 0 n).1 in
  x ← last l; Some (x, take n l).

Definition heap_Remove (l : list A) (i : nat) : list A :=
  let n := (length l - 1)%nat in
  if (n =? i)%nat then take n l
  else
    let l := swap l i n in
    let '(l, moved) := down l i n in
    take n (if (moved : bool) then l else up n l i).

Definition heap_Fix (l : list A) (i : nat) : list A :=
  let n := length l in
  let '(l, moved) := down l i n in
  if (moved : bool) then l else up n l i.

(** ** Swapping *)

Lemma insert_permutation (l : list A) i x y : l !! i = Some x → x :: <[i := y]> l ≡ₚ y :: l.
Proof.
  revert i. induction l as [|z l IH]; intros [|i] H; simplify_eq/=; [by constructor|].
  rewrite Permutation_swap, IH by done. apply Permutation_swap.
Qed.

Lemma swap_perm (l : list A) i j : swap l i j ≡ₚ l.
Proof.
  unfold swap. destruct (l !! i) as [x|] eqn:Ex; [|done]. destruct (l !! j) as [y|] eqn:Ey; [|done].
  destruct (decide (i = j)) as [->|Hne].
  - simplify_eq. by rewrite !list_insert_id by (rewrite ?list_insert_id; done).
  - apply (Permutation_cons_inv (a := y)).
    rewrite (insert_permutation _ j y x) by (by rewrite list_lookup_insert_ne).
    by apply insert_permutation.
Qed.

Lemma swap_length (l : list A) i j : length (swap l i j) = length l.
Proof. by rewrite swap_perm. Qed.

Lemma swap_lookup (l : list A) i j k :
  (i < length l)%nat → (j < length l)%nat →
  swap l i j !! k = if decide (k = i) then l !! j else if decide (k = j) then l !! i else l !! k.
Proof.
  intros Hi Hj. unfold swap. destruct (lookup_lt_is_Some_2 l i Hi) as [x Ex], (lookup_lt_is_Some_2 l j Hj) as [y Ey].
  rewrite Ex, Ey. destruct (decide (k = j)) as [->|].
  - rewrite list_lookup_insert_eq by (by rewrite length_insert). destruct (decide (j = i)); congruence.
  - rewrite list_lookup_insert_ne by done. destruct (decide (k = i)) as [->|].
    + by rewrite list_lookup_insert_eq.
    + by rewrite list_lookup_insert_ne.
Qed.

Lemma up_perm fuel l j : up fuel l j ≡ₚ l.
Proof. revert l j. induction fuel as [|fuel IH]; intros l j; simpl; [done|]. case_match; [done|]. rewrite IH. apply swap_perm. Qed.

Lemma down_loop_perm fuel l i n : (down_loop fuel l i n).1 ≡ₚ l.
Proof.
  revert l i. induction fuel as [|fuel IH]; intros l i; simpl; [done|].
  repeat case_match; try done; rewrite IH; apply swap_perm.
Qed.

Lemma down_loop_ge fuel l i n : (i ≤ (down_loop fuel l i n).2)%nat.
Proof.
  revert l i. induction fuel as [|fuel IH]; intros l i; cbn [down_loop]; [done|].
  repeat case_match; try done; (etrans; [|apply IH]); lia.
Qed.

(** Positions from [n] on stay. *)
Lemma down_loop_beyond fuel l i n k :
  (n ≤ length l)%nat → (n ≤ k)%nat → (down_loop fuel l i n).1 !! k = l !! k.
Proof.
  intros Hn Hk. revert l i Hn. induction fuel as [|fuel IH]; intros l i Hn; cbn [down_loop]; [done|].
  destruct (Nat.leb_spec n (2 * i + 1)); [done|].
  set (j := if _ && _ then _ else _).
  assert (j < n)%nat by (unfold j; destruct (Nat.ltb_spec (2 * i + 1 + 1) n); simpl; [case_match|]; lia).
  clearbody j. case_match; [done|].
  rewrite IH by (by rewrite swap_length). rewrite swap_lookup by lia. by rewrite !decide_False by lia.
Qed.

Lemma down_beyond l i n k : (n ≤ length l)%nat → (n ≤ k)%nat → (down l i n).1 !! k = l !! k.
Proof. intros Hn Hk. unfold down. pose proof (down_loop_beyond n l i n k Hn Hk). by destruct (down_loop n l i n). Qed.

(** Sifting up leaves the positions below the start. *)
Lemma up_below fuel l j k : (j < k)%nat → (k < length l)%nat → up fuel l j !! k = l !! k.
Proof.
  revert l j. induction fuel as [|fuel IH]; intros l j Hj Hk; cbn [up]; [done|]. case_match; [done|].
  assert ((j - 1) / 2 ≤ j)%nat by (etrans; [apply Nat.Div0.div_le_upper_bound with (q := j); lia|done]).
  rewrite IH by (rewrite ?swap_length; lia). rewrite swap_lookup by lia. by rewrite !decide_False by lia.
Qed.

Lemma down_perm l i n : (down l i n).1 ≡ₚ l.
Proof. unfold down. pose proof (down_loop_perm n l i n). by destruct (down_loop n l i n). Qed.

Lemma Init_loop_perm l k n : Init_loop l k n ≡ₚ l.
Proof. revert l. induction k as [|i IH]; intros l; simpl; [done|]. rewrite IH. apply down_perm. Qed.

Lemma heap_Init_perm l : heap_Init l ≡ₚ l.
Proof. apply Init_loop_perm. Qed.

Lemma heap_Push_perm l x : heap_Push l x ≡ₚ x :: l.
Proof. unfold heap_Push. rewrite up_perm. symmetry. apply Permutation_cons_append. Qed.

Lemma heap_Init_length l : length (heap_Init l) = length l.
Proof. by rewrite heap_Init_perm. Qed.

Lemma heap_Push_length l x : length (heap_Push l x) = S (length l).
Proof. by rewrite heap_Push_perm. Qed.

Lemma heap_Fix_perm l i : heap_Fix l i ≡ₚ l.
Proof.
  unfold heap_Fix. pose proof (down_perm l i (length l)) as H. destruct (down l i (length l)) as [l' []]; simpl in *; [done|].
  by rewrite up_perm.
Qed.

Lemma heap_Fix_length l i : length (heap_Fix l i) = length l.
Proof. by rewrite heap_Fix_perm. Qed.
End Heap.

(** ** The order

    [Less] is a strict weak order: "not greater" is total and transitive. *)

Class WeakOrder {A : Type} (less : A → A → bool) : Prop := {
  less_asym x y : less x y = true → less y x = false;
  less_trans x y z : less y x = false → less z y = false → less z x = false
}.

Section Order.
Context {A : Type} (less : A → A → bool) {W : WeakOrder less}.

(** [x] may stand above [y]. *)
Definition above (x y : A) : Prop := less y x = false.

Definition above_at (l : list A) (i j : nat) : Prop := ∀ x y, l !! i = Some x → l !! j = Some y → above x y.

Definition child_of (i j : nat) : Prop := j = (2 * i + 1)%nat ∨ j = (2 * i + 2)%nat.

(** Among the first [n] positions, the edges from [lo] on are in order. *)
Definition heap_from (lo n : nat) (l : list A) : Prop :=
  ∀ i j, (lo ≤ i)%nat → child_of i j → (j < n)%nat → above_at l i j.

Definition is_heap (l : list A) : Prop := heap_from 0 (length l) l.

(** The same but for the edges at position [k]; those that bypass it are in
    order. *)
Definition heap_around (lo n k : nat) (l : list A) : Prop :=
  (∀ i j, (lo ≤ i)%nat → child_of i j → (j < n)%nat → i ≠ k → j ≠ k → above_at l i j) ∧
  (∀ i j, (lo ≤ i)%nat → child_of i k → child_of k j → (j < n)%nat → above_at l i j).

Definition edges_into (lo k : nat) (l : list A) : Prop := ∀ i, (lo ≤ i)%nat → child_of i k → above_at l i k.

Definition edges_from (n k : nat) (l : list A) : Prop := ∀ j, child_of k j → (j < n)%nat → above_at l k j.

Lemma above_refl x : above x x.
Proof using W. unfold above. destruct (less x x) eqn:E; [|done]. by rewrite (less_asym _ _ E) in E. Qed.

Lemma above_trans x y z : above x y → above y z → above x z.
Proof using W. intros H1 H2. by eapply less_trans. Qed.

Lemma less_at_true (l : list A) i j :
  less_at less l i j = true → ∃ x y, l !! i = Some x ∧ l !! j = Some y ∧ less x y = true.
Proof using. unfold less_at. destruct (l !! i), (l !! j); naive_solver. Qed.

Lemma less_at_false (l : list A) i j : less_at less l i j = false → above_at l j i.
Proof using. unfold less_at. intros H x y Hx Hy. by rewrite Hx, Hy in H. Qed.

Lemma child_lt i j : child_of i j → (i < j)%nat.
Proof using. unfold child_of. lia. Qed.

Lemma child_inj i i' j : child_of i j → child_of i' j → i = i'.
Proof using. unfold child_of. lia. Qed.

Lemma parent_child j : (0 < j)%nat → child_of ((j - 1) / 2) j.
Proof using.
  intros H. unfold child_of. pose proof (Nat.div_mod (j - 1) 2 ltac:(lia)). pose proof (Nat.mod_upper_bound (j - 1) 2 ltac:(lia)). lia.
Qed.

(** *** Sifting down *)

(** The child that is compared. *)
Lemma smaller_child (l : list A) i n :
  let j1 := (2 * i + 1)%nat in
  let j := if (j1 + 1 <? n)%nat && less_at less l (j1 + 1) j1 then (j1 + 1)%nat else j1 in
  (j1 < n)%nat → child_of i j ∧ (j < n)%nat ∧ ∀ j', child_of i j' → (j' < n)%nat → above_at l j j'.
Proof using W.
  intros j1 j Hj. unfold j. destruct (Nat.ltb_spec (j1 + 1) n); simpl.
  - destruct (less_at less l (j1 + 1) j1) eqn:E.
    + split; [right; lia|]. split; [lia|]. intros j' [->| ->] _ x y Hx Hy.
      * destruct (less_at_true _ _ _ E) as (x' & y' & Hx' & Hy' & Hl). unfold j1 in *. simplify_eq. by apply less_asym.
      * replace (2 * i + 2)%nat with (j1 + 1)%nat in Hy by lia. simplify_eq. apply above_refl.
    + split; [by left|]. split; [lia|]. intros j' [->| ->] _ x y Hx Hy.
      * unfold j1 in *. simplify_eq. apply above_refl.
      * replace (2 * i + 2)%nat with (j1 + 1)%nat in Hy by lia. by eapply (less_at_false _ _ _ E).
  - split; [by left|]. split; [lia|]. intros j' [->| ->] Hj' x y Hx Hy; [|lia]. unfold j1 in *. simplify_eq. apply above_refl.
Qed.

Lemma heap_around_both lo n k (l : list A) :
  heap_around lo n k l → edges_into lo k l → edges_from n k l → heap_from lo n l.
Proof using.
  intros [He _] Hi Ho a b Ha Hab Hb. destruct (decide (a = k)) as [->|]; [by apply Ho|].
  destruct (decide (b = k)) as [->|]; [by apply Hi|]. by apply He.
Qed.

Lemma swap_down lo n (l : list A) i j :
  (n ≤ length l)%nat → child_of i j → (j < n)%nat → less_at less l j i = true →
  (∀ j', child_of i j' → (j' < n)%nat → above_at l j j') →
  heap_around lo n i l → heap_around lo n j (swap l i j) ∧ edges_into lo j (swap l i j).
Proof using W.
  intros Hn Hij Hj Hl Hmin [He Hb]. pose proof (child_lt _ _ Hij).
  destruct (less_at_true _ _ _ Hl) as (y & x & Hy & Hx & Hlt).
  assert (Hsw := λ k, swap_lookup l i j k ltac:(lia) ltac:(lia)). split; [split|].
  - intros a b Ha Hab Hb' Haj Hbj u v. rewrite !Hsw. pose proof (child_lt _ _ Hab).
    destruct (decide (a = i)) as [->|Hai].
    + destruct (decide (b = i)); [lia|]. rewrite decide_False by done. intros Hu Hv. by eapply (Hmin b).
    + rewrite (decide_False (P := a = j)) by done. intros Hu. destruct (decide (b = i)) as [->|].
      * intros Hv. by eapply (Hb a j).
      * rewrite decide_False by done. intros Hv. by eapply (He a b).
  - intros a b Ha Haj Hjb Hb' u v. rewrite !Hsw. assert (a = i) as -> by by eapply child_inj.
    pose proof (child_lt _ _ Hjb). rewrite decide_True by done. rewrite !decide_False by lia. intros Hu Hv.
    eapply (He j b); try done; lia.
  - intros a Ha Haj u v. rewrite !Hsw. assert (a = i) as -> by by eapply child_inj.
    rewrite decide_True by done. rewrite decide_False, decide_True by lia. intros Hu Hv. simplify_eq. by apply less_asym.
Qed.

(** One round: the element stops, or it changes places with a child. *)
Lemma down_round lo n (l : list A) i :
  let j1 := (2 * i + 1)%nat in
  let j := if (j1 + 1 <? n)%nat && less_at less l (j1 + 1) j1 then (j1 + 1)%nat else j1 in
  (n ≤ length l)%nat → (j1 < n)%nat → heap_around lo n i l →
  if less_at less l j i then child_of i j ∧ heap_around lo n j (swap l i j) ∧ edges_into lo j (swap l i j)
  else edges_from n i l.
Proof using W.
  intros j1 j Hn Hlt Hh. pose proof (smaller_child l i n Hlt) as (Hc & Hj & Hmin). fold j1 j in Hc, Hj, Hmin.
  clearbody j. destruct (less_at less l j i) eqn:E; [split; [done|]; by apply swap_down|].
  intros b Hib Hb x y Hx Hy. apply less_at_false in E.
  assert (is_Some (l !! j)) as [z Hz] by (apply lookup_lt_is_Some; lia).
  eapply above_trans; [by eapply E|]. by eapply (Hmin b).
Qed.

Lemma no_edges_from n k (l : list A) : (n ≤ 2 * k + 1)%nat → edges_from n k l.
Proof using. intros H j [->| ->] Hj; lia. Qed.

Lemma down_loop_heap fuel lo n (l : list A) i :
  (n ≤ length l)%nat → (n - i ≤ fuel)%nat → heap_around lo n i l → edges_into lo i l →
  heap_from lo n (down_loop less fuel l i n).1.
Proof using W.
  revert l i. induction fuel as [|fuel IH]; intros l i Hn Hf Hh Hi; cbn [down_loop].
  - eapply heap_around_both; [done..|]. apply no_edges_from. lia.
  - destruct (Nat.leb_spec n (2 * i + 1)) as [|Hlt]; [eapply heap_around_both; [done..|by apply no_edges_from]|].
    pose proof (down_round lo n l i Hn Hlt Hh) as Hr.
    set (j := if _ && _ then _ else _) in *. clearbody j. destruct (less_at less l j i) eqn:E; simpl.
    + destruct Hr as (Hc & Hh' & Hi'). pose proof (child_lt _ _ Hc). apply IH; rewrite ?swap_length; try done; lia.
    + by eapply heap_around_both.
Qed.

(** Without an order above, either the element moved and everything is in
    order, or nothing changed. *)
Lemma down_heap lo n (l : list A) i :
  (n ≤ length l)%nat → heap_around lo n i l →
  let '(l', moved) := down less l i n in
  if moved : bool then heap_from lo n l' else l' = l ∧ edges_from n i l.
Proof using W.
  intros Hn Hh. unfold down. destruct (down_loop less n l i n) as [l' i'] eqn:E.
  destruct n as [|n]; [simplify_eq/=; rewrite Nat.ltb_irrefl; split; [done|apply no_edges_from; lia]|].
  cbn [down_loop] in E. destruct (Nat.leb_spec (S n) (2 * i + 1)) as [|Hlt].
  { simplify_eq. rewrite Nat.ltb_irrefl. split; [done|by apply no_edges_from]. }
  pose proof (down_round lo (S n) l i Hn Hlt Hh) as Hr. set (j := if _ && _ then _ else _) in *. clearbody j.
  destruct (less_at less l j i) eqn:El; simpl in E; [|simplify_eq; by rewrite Nat.ltb_irrefl].
  destruct Hr as (Hc & Hh' & Hi'). pose proof (child_lt _ _ Hc).
  pose proof (down_loop_heap n lo (S n) (swap l i j) j) as Hd. rewrite swap_length in Hd.
  pose proof (down_loop_ge less n (swap l i j) j (S n)) as Hge. rewrite E in Hd, Hge. simpl in Hge.
  rewrite (proj2 (Nat.ltb_lt i i')) by lia. apply Hd; try done. lia.
Qed.

(** *** Sifting up *)

Lemma swap_up n (l : list A) i j :
  (n ≤ length l)%nat → child_of i j → (j < n)%nat → less_at less l j i = true →
  heap_around 0 n j l → edges_from n j l → heap_around 0 n i (swap l i j) ∧ edges_from n i (swap l i j).
Proof using W.
  intros Hn Hij Hj Hl [He Hb] Ho. pose proof (child_lt _ _ Hij).
  destruct (less_at_true _ _ _ Hl) as (y & x & Hy & Hx & Hlt).
  assert (Hsw := λ k, swap_lookup l i j k ltac:(lia) ltac:(lia)). split; [split|].
  - intros a b _ Hab Hb' Hai Hbi u v. rewrite !Hsw. pose proof (child_lt _ _ Hab).
    rewrite (decide_False (P := a = i)), (decide_False (P := b = i)) by done. destruct (decide (a = j)) as [->|].
    + rewrite decide_False by lia. intros Hu Hv. simplify_eq. eapply (Hb i b); try done. lia.
    + destruct (decide (b = j)) as [->|]; [by destruct Hai; eapply child_inj|]. intros Hu Hv. eapply (He a b); try done. lia.
  - intros a b _ Hai Hib Hb' u v. rewrite !Hsw. pose proof (child_lt _ _ Hai). pose proof (child_lt _ _ Hib).
    rewrite !(decide_False (P := a = _)), (decide_False (P := b = i)) by lia. intros Hu. destruct (decide (b = j)) as [->|].
    + intros Hv. eapply (He a i); try done; lia.
    + intros Hv. eapply above_trans; [eapply (He a i)|eapply (He i b)]; try done; lia.
  - intros b Hib Hb' u v. rewrite !Hsw. pose proof (child_lt _ _ Hib). rewrite decide_True by done.
    rewrite (decide_False (P := b = i)) by lia. intros Hu. simplify_eq. apply less_asym in Hlt. destruct (decide (b = j)) as [->|].
    + intros Hv. by simplify_eq.
    + intros Hv. eapply above_trans; [exact Hlt|]. eapply (He i b); try done; lia.
Qed.

Lemma up_heap fuel n (l : list A) j :
  (n ≤ length l)%nat → (j < n)%nat → (j < fuel)%nat → heap_around 0 n j l → edges_from n j l →
  heap_from 0 n (up less fuel l j).
Proof using W.
  revert l j. induction fuel as [|fuel IH]; intros l j Hn Hj Hf Hh Ho; [lia|]. cbn [up].
  destruct (Nat.eqb_spec ((j - 1) / 2) j) as [E|Hne]; cbn [orb negb].
  - eapply heap_around_both; [done| |done]. intros i _ Hij. pose proof (child_lt _ _ Hij).
    pose proof (child_lt _ _ (parent_child j ltac:(lia))). lia.
  - assert (Hc : child_of ((j - 1) / 2) j).
    { apply parent_child. destruct j; [|lia]. by destruct Hne. }
    pose proof (child_lt _ _ Hc). destruct (less_at less l j ((j - 1) / 2)) eqn:E; cbn [orb negb].
    + destruct (swap_up n l _ j Hn Hc Hj E Hh Ho). apply IH; rewrite ?swap_length; try done; lia.
    + eapply heap_around_both; [done| |done]. intros i _ Hij. rewrite (child_inj _ _ _ Hij Hc). by apply less_at_false.
Qed.

(** *** The operations *)

Lemma heap_take n (l : list A) : (n ≤ length l)%nat → heap_from 0 n l → is_heap (take n l).
Proof using.
  intros Hn Hh i j Hi Hij. rewrite length_take, Nat.min_l by done. intros Hj x y.
  pose proof (child_lt _ _ Hij). rewrite !lookup_take_lt by lia. by apply Hh.
Qed.

Lemma is_heap_nil : is_heap [].
Proof using. intros i j _ _ Hj. simpl in Hj. lia. Qed.

Lemma Init_loop_heap (l : list A) k n :
  (n ≤ length l)%nat → heap_from k n l → heap_from 0 n (Init_loop less l k n).
Proof using W.
  revert l. induction k as [|k IH]; intros l Hn Hh; simpl; [done|]. apply IH; [by rewrite down_perm|].
  unfold down. destruct (down_loop less n l k n) as [l' i'] eqn:E. simpl.
  pose proof (down_loop_heap n k n l k Hn ltac:(lia)) as Hd. rewrite E in Hd. apply Hd.
  - split; [intros i j Hi Hij Hj Hne _; apply Hh; try done; lia|]. intros i j Hi Hik. pose proof (child_lt _ _ Hik). lia.
  - intros i Hi Hik. pose proof (child_lt _ _ Hik). lia.
Qed.

Lemma heap_Init_heap (l : list A) : is_heap (heap_Init less l).
Proof using W.
  unfold is_heap. rewrite heap_Init_length. apply Init_loop_heap; [done|]. intros i j Hi Hij Hj.
  pose proof (Nat.div_mod (length l) 2 ltac:(lia)). pose proof (Nat.mod_upper_bound (length l) 2 ltac:(lia)).
  unfold child_of in Hij. lia.
Qed.

Lemma heap_Push_heap (l : list A) x : is_heap l → is_heap (heap_Push less l x).
Proof using W.
  intros Hh. unfold is_heap. rewrite heap_Push_length. unfold heap_Push.
  assert (Hl : length (l ++ [x]) = S (length l)) by (rewrite length_app; simpl; lia).
  apply up_heap; simpl; [lia|lia|lia| |apply no_edges_from; lia]. split.
  - intros i j _ Hij Hj Hi Hj' u v. pose proof (child_lt _ _ Hij).
    rewrite !lookup_app_l by lia. apply Hh; [lia|done|lia].
  - intros i j _ _ Hj Hlt. pose proof (child_lt _ _ Hj). lia.
Qed.

(** The root is a least element. *)
Lemma heap_root (l : list A) x : is_heap l → l !! 0%nat = Some x → ∀ k y, l !! k = Some y → above x y.
Proof using W.
  intros Hh Hx k. induction (lt_wf k) as [k _ IH]. intros y Hy. destruct (decide (k = 0%nat)) as [->|Hk].
  - simplify_eq. apply above_refl.
  - pose proof (parent_child k ltac:(lia)) as Hc. pose proof (child_lt _ _ Hc). pose proof (lookup_lt_Some _ _ _ Hy).
    destruct (lookup_lt_is_Some_2 l ((k - 1) / 2)) as [z Hz]; [lia|].
    eapply above_trans; [by eapply IH|]. by apply (Hh ((k - 1) / 2)%nat k); [lia| | |..].
Qed.

Lemma heap_Pop_spec (l : list A) x l0 :
  is_heap l → l = x :: l0 →
  ∃ rest, heap_Pop less l = Some (x, rest) ∧ l ≡ₚ x :: rest ∧ is_heap rest ∧ ∀ y, y ∈ rest → above x y.
Proof using W.
  intros Hh Hl. set (n := length l0). assert (Hlen : length l = S n) by by subst l.
  set (l1 := swap l 0 n). assert (Hl1 : length l1 = S n) by (unfold l1; by rewrite swap_length).
  assert (Hd : heap_from 0 n (down less l1 0 n).1).
  { unfold down. pose proof (down_loop_heap n 0 n l1 0 ltac:(lia) ltac:(lia)) as Hd.
    destruct (down_loop less n l1 0 n) as [l' i']. apply Hd.
    - split; [|intros i j _ Hi; pose proof (child_lt _ _ Hi); lia]. intros i j _ Hij Hj Hi Hj0 u v.
      pose proof (child_lt _ _ Hij). unfold l1. rewrite !swap_lookup by lia. rewrite !decide_False by lia. apply Hh; lia || done.
    - intros i _ Hi. pose proof (child_lt _ _ Hi). lia. }
  pose proof (down_perm less l1 0 n) as Hp. pose proof (down_beyond less l1 0 n n ltac:(lia) ltac:(lia)) as Hn.
  destruct (down less l1 0 n) as [l2 b] eqn:E. simpl in *. assert (Hl2 : length l2 = S n) by by rewrite Hp.
  assert (Hx : l2 !! n = Some x).
  { rewrite Hn. unfold l1. rewrite swap_lookup by lia. subst l. destruct (decide (n = 0%nat)) as [->|]; [done|]. by rewrite decide_True. }
  exists (take n l2). unfold heap_Pop. rewrite Hlen, Nat.sub_succ, Nat.sub_0_r. fold l1. rewrite E. simpl.
  rewrite last_lookup, Hl2. simpl. rewrite Hx. split; [done|].
  assert (Hperm : l ≡ₚ x :: take n l2).
  { rewrite <- (swap_perm l 0 n). fold l1. rewrite <- Hp. rewrite <- (take_drop_middle l2 n x Hx) at 1.
    rewrite (drop_ge l2 (S n)) by lia. rewrite Permutation_app_comm. done. }
  split; [done|]. split; [apply heap_take; [lia|done]|]. intros y Hy.
  assert (y ∈ l) as [k Hk]%list_elem_of_lookup by (rewrite Hperm; by right). eapply (heap_root l x); [done|by subst l|done].
Qed.

(** After a change of one element only, [down] and then [up] restore the order. *)
Lemma repair n (l : list A) i :
  (n ≤ length l)%nat → (i < n)%nat → heap_around 0 n i l →
  heap_from 0 n (let '(l, moved) := down less l i n in if (moved : bool) then l else up less n l i).
Proof using W.
  intros Hn Hi Hh. pose proof (down_heap 0 n l i Hn Hh) as Hd. destruct (down less l i n) as [l' []]; [done|].
  destruct Hd as [-> Ho]. by apply up_heap.
Qed.

Lemma heap_Remove_spec (l : list A) i x :
  is_heap l → l !! i = Some x → is_heap (heap_Remove less l i) ∧ l ≡ₚ x :: heap_Remove less l i.
Proof using W.
  intros Hh Hx. pose proof (lookup_lt_Some _ _ _ Hx). unfold heap_Remove. set (n := (length l - 1)%nat).
  destruct (Nat.eqb_spec n i) as [E|Hne].
  - split; [apply heap_take; [lia|]; intros a b Ha Hab Hb; apply Hh; lia || done|].
    rewrite <- (take_drop_middle l i x Hx) at 1. rewrite (drop_ge l (S i)), E by lia. by rewrite Permutation_app_comm.
  - set (l1 := swap l i n). assert (Hl1 : length l1 = S n) by (unfold l1; rewrite swap_length; lia).
    assert (Hr := repair n l1 i ltac:(lia) ltac:(lia)).
    assert (Hp : (let '(l, moved) := down less l1 i n in if (moved : bool) then l else up less n l i) ≡ₚ l1).
    { pose proof (down_perm less l1 i n). destruct (down less l1 i n) as [l' []]; [done|]. by rewrite up_perm. }
    assert (Hk : (let '(l, moved) := down less l1 i n in if (moved : bool) then l else up less n l i) !! n = Some x).
    { assert (H1 : l1 !! n = Some x).
      { unfold l1. rewrite swap_lookup by lia. by rewrite decide_False, decide_True by lia. }
      pose proof (down_beyond less l1 i n n ltac:(lia) ltac:(lia)) as Hb.
      destruct (down less l1 i n) as [l' []]; simpl in Hb; [congruence|]. rewrite up_below; [congruence|lia|].
      apply lookup_lt_Some in H1. apply lookup_lt_is_Some. rewrite Hb. by apply lookup_lt_is_Some. }
    destruct (down less l1 i n) as [l2 moved]. set (l3 := if moved then l2 else _) in *. clearbody l3.
    assert (Hl3 : length l3 = S n) by by rewrite Hp. split.
    + apply heap_take; [lia|]. apply Hr. split.
      * intros a b _ Hab Hb Ha' Hb' u v. pose proof (child_lt _ _ Hab). unfold l1. rewrite !swap_lookup by lia.
        rewrite !decide_False by lia. apply Hh; lia || done.
      * intros a b _ Hai Hib Hb u v. pose proof (child_lt _ _ Hai). pose proof (child_lt _ _ Hib). unfold l1.
        rewrite !swap_lookup by lia. rewrite !decide_False by lia. intros Hu Hv.
        eapply above_trans; [by eapply (Hh a i); [lia| |lia|..]|by eapply (Hh i b); [lia| |lia|..]].
    + rewrite <- (swap_perm l i n). fold l1. rewrite <- Hp. rewrite <- (take_drop_middle l3 n x Hk) at 1.
      rewrite (drop_ge l3 (S n)) by lia. by rewrite Permutation_app_comm.
Qed.

Lemma heap_Fix_heap (l : list A) i y :
  is_heap l → (i < length l)%nat → is_heap (heap_Fix less (<[i := y]> l) i).
Proof using W.
  intros Hh Hi. unfold is_heap. rewrite heap_Fix_length. unfold heap_Fix. rewrite !length_insert.
  apply (repair (length l) (<[i := y]> l) i); rewrite ?length_insert; try done. split.
  - intros a b _ Hab Hb Ha' Hb' u v. rewrite !list_lookup_insert_ne by done. pose proof (child_lt _ _ Hab). apply Hh; lia || done.
  - intros a b _ Hai Hib Hb u v. pose proof (child_lt _ _ Hai). pose proof (child_lt _ _ Hib).
    rewrite !list_lookup_insert_ne by lia. intros Hu Hv. destruct (lookup_lt_is_Some_2 l i Hi) as [x Hx].
    eapply above_trans; [by eapply (Hh a i); [lia| |lia|..]|by eapply (Hh i b); [lia| |lia|..]].
Qed.
End Order.
