(* ===== verification/TxList.v ===== *)
(** * Lists of transactions

    The transactions of an account by nonce and those of the pool by price:
    [core/tx_list.go]. *)

From Stdlib Require Import ZArith Lia.
From stdpp Require Import base option list gmap sets strings sorting.
From S2P Require Import Prelude Params Rlp Types Heap.

(** The order in which Go visits a map from nonces. *)
Class NonceOrder := {
  range_nonces : gset Z → list Z;
  range_nonces_perm s : range_nonces s ≡ₚ elements s
}.

#[export] Instance txdata_eq_dec : EqDecision txdata.
Proof. solve_decision. Defined.

(** ** Transactions by nonce *)

(** The sorted transactions are cached; a nil cache is [None]. *)
Record txSortedMap := {
  items : gmap Z txdata;
  index : list Z;
  sorted : option (list txdata)
}.

Definition newTxSortedMap : txSortedMap := {| items := ∅; index := []; sorted := None |}.

Definition sm_Get (m : txSortedMap) (nonce : Z) : option txdata := items m !! nonce.

Definition sm_Put (m : txSortedMap) (tx : txdata) : txSortedMap :=
  let nonce := AccountNonce tx in
  {| items := <[nonce := tx]> (items m);
     index := match items m !! nonce with None => heap_Push Z.ltb (index m) nonce | Some _ => index m end;
     sorted := None |}.

Definition nonce_le (a b : txdata) : Prop := AccountNonce a ≤ AccountNonce b.

#[export] Instance nonce_le_dec : RelDecision nonce_le := λ a b, Z_le_dec (AccountNonce a) (AccountNonce b).

(** [sort.Sort] leaves open where equal elements go; the nonces of a list are
    distinct. *)
Definition sort_nonces (l : list Z) : list Z := merge_sort Z.le l.
Definition sort_txs (l : list txdata) : list txdata := merge_sort nonce_le l.

(** A nonce of the index without a transaction would give a nil pointer, which
    panics where it is used. *)
Definition tx_at (m : gmap Z txdata) (nonce : Z) : result txdata :=
  match m !! nonce with Some tx => Ok tx | None => nil_deref end.

(** [c[n:]] and [c[:len(c)-n]] of a cache that may be nil. *)
Definition cut_front (n : nat) (c : option (list txdata)) : result (option (list txdata)) :=
  match c with
  | None => Ok None
  | Some c => if (n <=? length c)%nat then Ok (Some (drop n c)) else Panic "slice bounds out of range"
  end.

Definition cut_back (n : nat) (c : option (list txdata)) : result (option (list txdata)) :=
  match c with
  | None => Ok None
  | Some c => if (n <=? length c)%nat then Ok (Some (take (length c - n) c)) else Panic "slice bounds out of range"
  end.

Fixpoint Forward_loop (fuel : nat) (its : gmap Z txdata) (ix : list Z) (threshold : Z) (removed : list txdata)
  : result (list txdata * gmap Z txdata * list Z) :=
  match fuel with
  | O => Ok (removed, its, ix)
  | S fuel =>
      match ix with
      | x :: _ =>
          if x <? threshold then
            match heap_Pop Z.ltb ix with
            | Some (nonce, ix) =>
                let* tx := tx_at its nonce in
                Forward_loop fuel (delete nonce its) ix threshold (removed ++ [tx])
            | None => Ok (removed, its, ix)
            end
          else Ok (removed, its, ix)
      | [] => Ok (removed, its, ix)
      end
  end.

Definition sm_Forward (m : txSortedMap) (threshold : Z) : result (list txdata * txSortedMap) :=
  let* (removed, its, ix) := Forward_loop (length (index m)) (items m) (index m) threshold [] in
  let* c := cut_front (length removed) (sorted m) in
  Ok (removed, {| items := its; index := ix; sorted := c |}).

Section Ranges.
Context {NO : NonceOrder}.

(** What the map has, in the order of the visit. *)
Definition range_items (its : gmap Z txdata) : list txdata := omap (λ k, its !! k) (range_nonces (dom its)).

Definition sm_Filter (m : txSortedMap) (f : txdata → bool) : list txdata * txSortedMap :=
  let removed := filter (λ tx, f tx = true) (range_items (items m)) in
  let its := filter (λ '(_, tx), f tx = false) (items m) in
  match removed with
  | [] => (removed, m)
  | _ => (removed, {| items := its; index := heap_Init Z.ltb (range_nonces (dom its)); sorted := None |})
  end.

(** The transactions are dropped from the highest nonce on. *)
Fixpoint Cap_loop (k : nat) (its : gmap Z txdata) (ix : list Z) (size : nat) (drops : list txdata)
  : result (list txdata * gmap Z txdata) :=
  match k with
  | O => Ok (drops, its)
  | S k =>
      match ix !! (size - 1)%nat with
      | None => Panic "index out of range"
      | Some nonce =>
          let* tx := tx_at its nonce in
          Cap_loop k (delete nonce its) ix (size - 1) (drops ++ [tx])
      end
  end.

Definition sm_Cap (m : txSortedMap) (threshold : Z) : result (list txdata * txSortedMap) :=
  let len := size (items m) in
  if Z.of_nat len <=? threshold then Ok ([], m)
  else if threshold <? 0 then Panic "index out of range"
  else
    let t := Z.to_nat threshold in
    let ix := sort_nonces (index m) in
    let* (drops, its) := Cap_loop (len - t) (items m) ix len [] in
    let* c := cut_back (length drops) (sorted m) in
    Ok (drops, {| items := its; index := heap_Init Z.ltb (take t ix); sorted := c |}).

Definition position (ix : list Z) (nonce : Z) : option nat := fst <$> list_find (eq nonce) ix.

Definition sm_Remove (m : txSortedMap) (nonce : Z) : bool * txSortedMap :=
  match items m !! nonce with
  | None => (false, m)
  | Some _ =>
      (true, {| items := delete nonce (items m);
                index := match position (index m) nonce with Some i => heap_Remove Z.ltb (index m) i | None => index m end;
                sorted := None |})
  end.

Fixpoint Ready_loop (fuel : nat) (its : gmap Z txdata) (ix : list Z) (next : Z) (ready : list txdata)
  : result (list txdata * gmap Z txdata * list Z) :=
  match fuel with
  | O => Ok (ready, its, ix)
  | S fuel =>
      match ix with
      | x :: _ =>
          if x =? next then
            let* tx := tx_at its next in
            match heap_Pop Z.ltb ix with
            | Some (_, ix) => Ready_loop fuel (delete next its) ix (u64 (next + 1)) (ready ++ [tx])
            | None => Ok (ready, its, ix)
            end
          else Ok (ready, its, ix)
      | [] => Ok (ready, its, ix)
      end
  end.

Definition sm_Ready (m : txSortedMap) (start : Z) : result (list txdata * txSortedMap) :=
  match index m with
  | [] => Ok ([], m)
  | x :: _ =>
      if start <? x then Ok ([], m)
      else
        let* (ready, its, ix) := Ready_loop (length (index m)) (items m) (index m) x [] in
        Ok (ready, {| items := its; index := ix; sorted := None |})
  end.

Definition sm_Len (m : txSortedMap) : Z := Z.of_nat (size (items m)).

Definition sm_Flatten (m : txSortedMap) : list txdata * txSortedMap :=
  let c := match sorted m with Some c => c | None => sort_txs (range_items (items m)) end in
  (c, {| items := items m; index := index m; sorted := Some c |}).
End Ranges.

(** ** The transactions of an account *)

Record txList := {
  strict : bool;
  txs : txSortedMap;
  costcap : Z;
  gascap : Z
}.

Definition newTxList (strict : bool) : txList :=
  {| strict := strict; txs := newTxSortedMap; costcap := 0; gascap := 0 |}.

Definition put_txs (l : txList) (m : txSortedMap) : txList :=
  {| strict := strict l; txs := m; costcap := costcap l; gascap := gascap l |}.

Definition Overlaps (l : txList) (tx : txdata) : bool :=
  match sm_Get (txs l) (AccountNonce tx) with Some _ => true | None => false end.

(** Whether the transaction was inserted, and the one it replaced. *)
Definition l_Add (l : txList) (tx : txdata) (priceBump : Z) : bool * option txdata * txList :=
  let old := sm_Get (txs l) (AccountNonce tx) in
  let refused :=
    match old with
    | Some o =>
        let threshold := Price o * i64 (100 + i64 priceBump) / 100 in
        (Price tx <=? Price o) || (Price tx <? threshold)
    | None => false
    end in
  if refused then (false, None, l)
  else (true, old, {| strict := strict l; txs := sm_Put (txs l) tx;
                      costcap := if costcap l <? Cost tx then Cost tx else costcap l;
                      gascap := if gascap l <? TxGasLimit tx then TxGasLimit tx else gascap l |}).

Definition l_Forward (l : txList) (threshold : Z) : result (list txdata * txList) :=
  let* (removed, m) := sm_Forward (txs l) threshold in Ok (removed, put_txs l m).

Section Lists.
Context {NO : NonceOrder}.

(** What the account cannot pay, or does not fit into a block. *)
Definition too_costly (mainbal gasLimit : Z) (tx : txdata) : bool :=
  if Base tx =? Main then (mainbal <? Cost tx) || (gasLimit <? TxGasLimit tx)
  else (mainbal <? MainFee tx) || (gasLimit <? TxGasLimit tx).

Definition lowest_nonce (removed : list txdata) : Z :=
  foldl (λ lowest tx, if AccountNonce tx <? lowest then AccountNonce tx else lowest) maxUint64 removed.

Definition l_Filter (l : txList) (mainbal gasLimit : Z) : list txdata * list txdata * txList :=
  if (costcap l <=? mainbal) && (gascap l <=? gasLimit) then ([], [], l)
  else
    let '(removed, m) := sm_Filter (txs l) (too_costly mainbal gasLimit) in
    let '(invalids, m) :=
      match strict l, removed with
      | true, _ :: _ =>
          let lowest := lowest_nonce removed in sm_Filter m (λ tx, lowest <? AccountNonce tx)
      | _, _ => ([], m)
      end in
    (removed, invalids, {| strict := strict l; txs := m; costcap := mainbal; gascap := gasLimit |}).

Definition l_Cap (l : txList) (threshold : Z) : result (list txdata * txList) :=
  let* (drops, m) := sm_Cap (txs l) threshold in Ok (drops, put_txs l m).

Definition l_Remove (l : txList) (tx : txdata) : bool * list txdata * txList :=
  let nonce := AccountNonce tx in
  let '(removed, m) := sm_Remove (txs l) nonce in
  if negb removed then (false, [], put_txs l m)
  else if strict l then
    let '(invalids, m) := sm_Filter m (λ tx, nonce <? AccountNonce tx) in (true, invalids, put_txs l m)
  else (true, [], put_txs l m).

Definition l_Ready (l : txList) (start : Z) : result (list txdata * txList) :=
  let* (ready, m) := sm_Ready (txs l) start in Ok (ready, put_txs l m).

Definition l_Len (l : txList) : Z := sm_Len (txs l).

Definition l_Empty (l : txList) : bool := l_Len l =? 0.

Definition l_Flatten (l : txList) : list txdata * txList :=
  let '(c, m) := sm_Flatten (txs l) in (c, put_txs l m).
End Lists.

(** ** Transactions by price *)

(** [priceHeap.Less]: the cheaper first, then the higher nonce. *)
Definition price_less (a b : txdata) : bool :=
  match Z.compare (Price a) (Price b) with
  | Lt => true
  | Gt => false
  | Eq => AccountNonce b <? AccountNonce a
  end.

(** [accountSet]; the cached list of its addresses is left out. *)
Record accountSet := {
  accounts : gset Address;
  as_signer : Signer
}.

Definition contains (locals : accountSet) (addr : Address) : bool := bool_decide (addr ∈ accounts locals).

Definition as_add (locals : accountSet) (addr : Address) : accountSet :=
  {| accounts := {[ addr ]} ∪ accounts locals; as_signer := as_signer locals |}.

(** The list shares the map of all transactions with the pool; it is an
    argument here. *)
Record txPricedList := {
  prices : list txdata;
  stales : Z
}.

Definition newTxPricedList : txPricedList := {| prices := []; stales := 0 |}.

Section Priced.
Context {C : Crypto} {MO : MapOrder}.

Definition containsTx (locals : accountSet) (tx : txdata) : result bool :=
  match Signer_Sender (as_signer locals) tx with
  | Ok addr => Ok (contains locals addr)
  | Err _ => Ok false
  | Panic w => Panic w
  | Hang => Hang
  end.

Definition priced_Put (l : txPricedList) (tx : txdata) : txPricedList :=
  {| prices := heap_Push price_less (prices l) tx; stales := stales l |}.

Definition range_all (all : gmap Hash txdata) : list txdata := omap (λ h, all !! h) (range (dom all)).

Definition priced_Removed (all : gmap Hash txdata) (l : txPricedList) : txPricedList :=
  let stales := i64 (stales l + 1) in
  if stales <=? Z.of_nat (length (prices l)) / 4 then {| prices := prices l; stales := stales |}
  else {| prices := heap_Init price_less (range_all all); stales := 0 |}.

Definition is_stale (all : gmap Hash txdata) (tx : txdata) : bool :=
  match all !! Tx_Hash tx with None => true | Some _ => false end.

Definition put_back (save : list txdata) (items : list txdata) : list txdata :=
  foldl (heap_Push price_less) items save.

(** What is dropped, what is saved, and the rest of the heap. *)
Fixpoint priced_Cap_loop (fuel : nat) (all : gmap Hash txdata) (locals : accountSet) (threshold : Z)
    (items : list txdata) (stales : Z) (drop save : list txdata)
  : result (list txdata * list txdata * list txdata * Z) :=
  match fuel with
  | O => Ok (drop, save, items, stales)
  | S fuel =>
      match heap_Pop price_less items with
      | None => Ok (drop, save, items, stales)
      | Some (tx, items) =>
          if is_stale all tx then priced_Cap_loop fuel all locals threshold items (i64 (stales - 1)) drop save
          else if threshold <=? Price tx then Ok (drop, save ++ [tx], items, stales)
          else
            let* b := containsTx locals tx in
            if (b : bool) then priced_Cap_loop fuel all locals threshold items stales drop (save ++ [tx])
            else priced_Cap_loop fuel all locals threshold items stales (drop ++ [tx]) save
      end
  end.

Definition priced_Cap (all : gmap Hash txdata) (locals : accountSet) (l : txPricedList) (threshold : Z)
  : result (list txdata * txPricedList) :=
  let* (drop, save, items, stales) :=
    priced_Cap_loop (length (prices l)) all locals threshold (prices l) (stales l) [] [] in
  Ok (drop, {| prices := put_back save items; stales := stales |}).

(** Stale transactions at the top are removed. *)
Fixpoint drop_stale (fuel : nat) (all : gmap Hash txdata) (items : list txdata) (stales : Z) : list txdata * Z :=
  match fuel with
  | O => (items, stales)
  | S fuel =>
      match items with
      | head :: _ =>
          if is_stale all head then
            match heap_Pop price_less items with
            | Some (_, items) => drop_stale fuel all items (i64 (stales - 1))
            | None => (items, stales)
            end
          else (items, stales)
      | [] => (items, stales)
      end
  end.

Definition Underpriced (all : gmap Hash txdata) (locals : accountSet) (l : txPricedList) (tx : txdata)
  : result (bool * txPricedList) :=
  let* b := containsTx locals tx in
  if (b : bool) then Ok (false, l)
  else
    let '(items, stales) := drop_stale (length (prices l)) all (prices l) (stales l) in
    let l := {| prices := items; stales := stales |} in
    match items with
    | [] => Ok (false, l)
    | cheapest :: _ => Ok (Price tx <=? Price cheapest, l)
    end.

Fixpoint Discard_loop (fuel : nat) (all : gmap Hash txdata) (locals : accountSet) (count : Z)
    (items : list txdata) (stales : Z) (drop save : list txdata)
  : result (list txdata * list txdata * list txdata * Z) :=
  match fuel with
  | O => Ok (drop, save, items, stales)
  | S fuel =>
      if 0 <? count then
        match heap_Pop price_less items with
        | None => Ok (drop, save, items, stales)
        | Some (tx, items) =>
            if is_stale all tx then Discard_loop fuel all locals count items (i64 (stales - 1)) drop save
            else
              let* b := containsTx locals tx in
              if (b : bool) then Discard_loop fuel all locals count items stales drop (save ++ [tx])
              else Discard_loop fuel all locals (count - 1) items stales (drop ++ [tx]) save
        end
      else Ok (drop, save, items, stales)
  end.

(** [make] panics on a negative count. *)
Definition Discard (all : gmap Hash txdata) (locals : accountSet) (l : txPricedList) (count : Z)
  : result (list txdata * txPricedList) :=
  if count <? 0 then Panic makeslice_panic
  else
    let* (drop, save, items, stales) :=
      Discard_loop (length (prices l)) all locals count (prices l) (stales l) [] [] in
    Ok (drop, {| prices := put_back save items; stales := stales |}).
End Priced.
