(* ===== verification/TxListProps.v ===== *)
(** * Lists of transactions: invariants and behaviour

    The map with its heap and its cache is a finite map that can be read in the
    order of nonces; the caps of a list do not change what [Filter] removes. *)

From Stdlib Require Import ZArith Lia.
From stdpp Require Import base option list gmap sets strings sorting.
From S2P Require Import Prelude Params Rlp Types Heap TxList.

(** ** The contents in order *)

#[export] Instance Z_ltb_order : WeakOrder Z.ltb.
Proof. split; intros *; rewrite ?Z.ltb_lt, ?Z.ltb_ge; lia. Qed.

Definition txs_of (its : gmap Z txdata) : list txdata := omap (λ k, its !! k) (merge_sort Z.le (elements (dom its))).

(** Every transaction is kept under its nonce. *)
Definition by_nonce (its : gmap Z txdata) : Prop := ∀ k tx, its !! k = Some tx → AccountNonce tx = k ∧ is_u64 k.

Lemma sort_unique (l1 l2 : list Z) : l1 ≡ₚ l2 → StronglySorted Z.le l1 → StronglySorted Z.le l2 → l1 = l2.
Proof. intros Hp H1 H2. by apply (StronglySorted_unique Z.le). Qed.

Lemma sorted_sort (l : list Z) : StronglySorted Z.le (merge_sort Z.le l).
Proof. apply (StronglySorted_merge_sort _). Qed.

(** The lookups of keys that are present. *)
Lemma omap_nonces (its : gmap Z txdata) (l : list Z) : by_nonce its → (∀ k, k ∈ l → k ∈ dom its) → AccountNonce <$> omap (λ k, its !! k) l = l.
Proof.
  intros Hn. induction l as [|k l IH]; intros Hl; [done|]. simpl.
  assert (is_Some (its !! k)) as [tx Htx] by (apply elem_of_dom, Hl; by left). rewrite Htx. simpl. f_equal.
  - by apply Hn.
  - apply IH. intros k' Hk'. apply Hl. by right.
Qed.

Lemma omap_of_nonces (its : gmap Z txdata) (l : list txdata) :
  (∀ tx, tx ∈ l → its !! AccountNonce tx = Some tx) → omap (λ k, its !! k) (AccountNonce <$> l) = l.
Proof.
  induction l as [|tx l IH]; intros Hl; [done|]. simpl. rewrite Hl by by left. f_equal. apply IH. intros tx' Htx'. apply Hl. by right.
Qed.

Lemma txs_of_nonces its : by_nonce its → AccountNonce <$> txs_of its = merge_sort Z.le (elements (dom its)).
Proof. intros Hn. apply omap_nonces; [done|]. intros k. rewrite merge_sort_Permutation. by rewrite elem_of_elements. Qed.

Lemma elem_of_txs_of its tx : by_nonce its → tx ∈ txs_of its ↔ its !! AccountNonce tx = Some tx.
Proof.
  intros Hn. unfold txs_of. rewrite list_elem_of_omap. split.
  - intros (k & _ & Hk). by destruct (Hn _ _ Hk) as [-> _].
  - intros H. eexists. split; [|done]. rewrite merge_sort_Permutation, elem_of_elements. by eapply elem_of_dom_2.
Qed.

(** A sorted list of exactly the transactions of the map. *)
Lemma txs_of_unique its (l : list txdata) :
  by_nonce its → (∀ tx, tx ∈ l → its !! AccountNonce tx = Some tx) →
  AccountNonce <$> l ≡ₚ elements (dom its) → StronglySorted Z.le (AccountNonce <$> l) → l = txs_of its.
Proof.
  intros Hn Hl Hp Hs. rewrite <- (omap_of_nonces its l Hl). unfold txs_of. f_equal.
  apply sort_unique; [by rewrite merge_sort_Permutation|done|apply sorted_sort].
Qed.

Lemma fmap_sort_txs (l : list txdata) : AccountNonce <$> sort_txs l = merge_sort Z.le (AccountNonce <$> l).
Proof.
  apply sort_unique; [unfold sort_txs; by rewrite !merge_sort_Permutation| |apply sorted_sort].
  assert (H : StronglySorted nonce_le (sort_txs l)).
  { apply StronglySorted_merge_sort; [intros a b c; unfold nonce_le; lia|intros a b; unfold nonce_le; lia]. }
  induction H as [|tx l' _ IH Hall]; simpl; [constructor|]. constructor; [done|].
  apply Forall_fmap. by eapply Forall_impl.
Qed.

Lemma txs_of_length its : by_nonce its → length (txs_of its) = size its.
Proof.
  intros Hn. rewrite <- (length_fmap AccountNonce), (txs_of_nonces _ Hn), merge_sort_Permutation.
  by rewrite <- size_dom.
Qed.

Section RangeLemmas.
Context {NO : NonceOrder}.

Lemma elem_of_range_items its tx : by_nonce its → tx ∈ range_items its ↔ its !! AccountNonce tx = Some tx.
Proof.
  intros Hn. unfold range_items. rewrite list_elem_of_omap. split.
  - intros (k & _ & Hk). by destruct (Hn _ _ Hk) as [-> _].
  - intros H. eexists. split; [|done]. rewrite range_nonces_perm, elem_of_elements. by eapply elem_of_dom_2.
Qed.

Lemma range_items_nonces its : by_nonce its → AccountNonce <$> range_items its ≡ₚ elements (dom its).
Proof.
  intros Hn. unfold range_items. rewrite omap_nonces; [apply range_nonces_perm|done|].
  intros k. by rewrite range_nonces_perm, elem_of_elements.
Qed.

Lemma sort_range_items its : by_nonce its → sort_txs (range_items its) = txs_of its.
Proof.
  intros Hn. apply txs_of_unique; [done| | |].
  - intros tx. unfold sort_txs. rewrite merge_sort_Permutation. by apply elem_of_range_items.
  - rewrite fmap_sort_txs, merge_sort_Permutation. by apply range_items_nonces.
  - rewrite fmap_sort_txs. apply sorted_sort.
Qed.

Lemma range_items_perm its : by_nonce its → range_items its ≡ₚ txs_of its.
Proof. intros Hn. rewrite <- sort_range_items by done. unfold sort_txs. by rewrite merge_sort_Permutation. Qed.
End RangeLemmas.

(** ** The invariant *)

Record sm_ok (m : txSortedMap) : Prop := {
  ok_nonces : by_nonce (items m);
  ok_index : index m ≡ₚ elements (dom (items m));
  ok_heap : is_heap Z.ltb (index m);
  ok_sorted : ∀ c, sorted m = Some c → c = txs_of (items m)
}.

Lemma new_ok : sm_ok newTxSortedMap.
Proof. split; [by intros ? ?|done|apply is_heap_nil|done]. Qed.

Lemma by_nonce_insert its tx : by_nonce its → is_u64 (AccountNonce tx) → by_nonce (<[AccountNonce tx := tx]> its).
Proof. intros Hn Hu k tx' [[<- <-]|[_ H]]%lookup_insert_Some; [done|by apply Hn]. Qed.

Lemma by_nonce_delete its k : by_nonce its → by_nonce (delete k its).
Proof. intros Hn k' tx' [_ H]%lookup_delete_Some. by apply Hn. Qed.

Lemma by_nonce_filter its (P : Z * txdata → Prop) `{!∀ x, Decision (P x)} : by_nonce its → by_nonce (filter P its).
Proof. intros Hn k tx [Hk _]%map_lookup_filter_Some. by apply Hn. Qed.

Lemma elements_dom_insert (its : gmap Z txdata) k tx :
  its !! k = None → elements (dom (<[k := tx]> its)) ≡ₚ k :: elements (dom its).
Proof. intros H. rewrite dom_insert_L. apply elements_union_singleton. by apply not_elem_of_dom. Qed.

Lemma elements_dom_delete (its : gmap Z txdata) k :
  k ∈ dom its → elements (dom its) ≡ₚ k :: elements (dom (delete k its)).
Proof.
  intros [tx H]%elem_of_dom. rewrite <- (insert_delete_id its k tx H) at 1. apply elements_dom_insert. apply lookup_delete_eq.
Qed.

Lemma Put_ok m tx : sm_ok m → is_u64 (AccountNonce tx) → sm_ok (sm_Put m tx).
Proof.
  intros [Hn Hi Hh Hs] Hu. unfold sm_Put. split; simpl; [by apply by_nonce_insert| | |done].
  - destruct (items m !! AccountNonce tx) as [o|] eqn:E.
    + rewrite Hi. f_equiv. rewrite dom_insert_lookup_L; [done|by eexists].
    + by rewrite heap_Push_perm, Hi, elements_dom_insert.
  - destruct (items m !! AccountNonce tx); [done|exact (heap_Push_heap Z.ltb _ _ Hh)].
Qed.

(** ** The smallest nonce *)

Lemma txs_of_empty : txs_of ∅ = [].
Proof. done. Qed.

Lemma txs_of_min its x tx :
  by_nonce its → its !! x = Some tx → (∀ k, k ∈ dom its → x ≤ k) → txs_of its = tx :: txs_of (delete x its).
Proof.
  intros Hn Hx Hmin. symmetry. destruct (Hn _ _ Hx) as [Hk _].
  pose proof (by_nonce_delete its x Hn) as Hn'.
  apply txs_of_unique; [done| | |].
  - intros tx' [->|Htx']%elem_of_cons; [by rewrite Hk|]. apply elem_of_txs_of in Htx'; [|done].
    by apply lookup_delete_Some in Htx' as [_ ?].
  - cbn [fmap list_fmap]. fold (AccountNonce <$> txs_of (delete x its)). rewrite Hk, txs_of_nonces, merge_sort_Permutation by done.
    symmetry. apply elements_dom_delete. by eapply elem_of_dom_2.
  - cbn [fmap list_fmap]. fold (AccountNonce <$> txs_of (delete x its)). rewrite Hk, txs_of_nonces by done.
    constructor; [apply sorted_sort|]. apply Forall_forall. intros k. rewrite merge_sort_Permutation, elem_of_elements.
    intros Hk'. apply Hmin. set_solver.
Qed.

(** The root of the heap is the smallest nonce. *)
Lemma index_min (its : gmap Z txdata) x ix :
  x :: ix ≡ₚ elements (dom its) → is_heap Z.ltb (x :: ix) → is_Some (its !! x) ∧ ∀ k, k ∈ dom its → x ≤ k.
Proof.
  intros Hp Hh. split; [apply elem_of_dom, elem_of_elements; rewrite <- Hp; by left|].
  intros k Hk. apply elem_of_elements in Hk. rewrite <- Hp in Hk. apply list_elem_of_lookup in Hk as [i Hi].
  pose proof (heap_root Z.ltb (x :: ix) x Hh eq_refl i k Hi) as Ha. unfold above in Ha. apply Z.ltb_ge in Ha. lia.
Qed.

(** Taking it off the heap. *)
Lemma pop_min (its : gmap Z txdata) x ix :
  x :: ix ≡ₚ elements (dom its) → is_heap Z.ltb (x :: ix) →
  ∃ rest, heap_Pop Z.ltb (x :: ix) = Some (x, rest) ∧ rest ≡ₚ elements (dom (delete x its)) ∧ is_heap Z.ltb rest ∧
          length rest = length ix.
Proof.
  intros Hp Hh. destruct (heap_Pop_spec Z.ltb _ x ix Hh eq_refl) as (rest & Hpop & Hperm & Hh' & _).
  exists rest. split; [done|]. split; [|split; [done|]].
  - apply (Permutation_cons_inv (a := x)). rewrite <- Hperm, Hp. apply elements_dom_delete.
    apply elem_of_elements. rewrite <- Hp. by left.
  - apply Permutation_length in Hperm. simpl in Hperm. lia.
Qed.

(** ** [Forward] *)

Definition below (t : Z) (its : gmap Z txdata) : gmap Z txdata := filter (λ '(k, _), k < t) its.
Definition from (t : Z) (its : gmap Z txdata) : gmap Z txdata := filter (λ '(k, _), t ≤ k) its.

Lemma no_items its : [] ≡ₚ elements (dom its) → (its : gmap Z txdata) = ∅.
Proof. intros H. symmetry in H. apply Permutation_nil_r in H. apply elements_empty_inv in H. by apply dom_empty_iff_L, leibniz_equiv. Qed.

Lemma below_none its t : (∀ k, k ∈ dom its → t ≤ k) → below t its = ∅ ∧ from t its = its.
Proof.
  intros H. split; [|apply map_filter_id; intros k tx Hk; by eapply H, elem_of_dom_2].
  apply map_empty. intros k. apply map_lookup_filter_None. right. intros tx Hk. apply elem_of_dom_2, H in Hk. lia.
Qed.

(** Removing the smallest nonce and then those below a bound. *)
Lemma below_min its x tx t :
  by_nonce its → its !! x = Some tx → (∀ k, k ∈ dom its → x ≤ k) → x < t →
  txs_of (below t its) = tx :: txs_of (below t (delete x its)) ∧ from t (delete x its) = from t its.
Proof.
  intros Hn Hx Hmin Hlt. split.
  - rewrite (txs_of_min (below t its) x tx); [unfold below; by rewrite map_filter_delete|by apply by_nonce_filter|by apply map_lookup_filter_Some|].
    intros k [tx' [Hk _]%map_lookup_filter_Some]%elem_of_dom. apply Hmin. by eapply elem_of_dom_2.
  - unfold from. rewrite map_filter_delete, delete_id; [done|]. apply map_lookup_filter_None. right. intros ? _. lia.
Qed.

Lemma Forward_loop_spec fuel its ix t removed :
  (length ix ≤ fuel)%nat → by_nonce its → ix ≡ₚ elements (dom its) → is_heap Z.ltb ix →
  ∃ ix', Forward_loop fuel its ix t removed = Ok (removed ++ txs_of (below t its), from t its, ix') ∧
         ix' ≡ₚ elements (dom (from t its)) ∧ is_heap Z.ltb ix'.
Proof.
  revert its ix removed. induction fuel as [|fuel IH]; intros its ix removed Hf Hn Hp Hh.
  - destruct ix; [|simpl in Hf; lia]. rewrite (no_items its Hp). exists []. simpl. by rewrite app_nil_r.
  - destruct ix as [|x ix].
    { rewrite (no_items its Hp). exists []. simpl. by rewrite app_nil_r. }
    destruct (index_min its x ix Hp Hh) as [[tx Htx] Hmin]. cbn [Forward_loop].
    destruct (Z.ltb_spec x t) as [Hlt|Hge].
    + destruct (pop_min its x ix Hp Hh) as (rest & -> & Hp' & Hh' & Hl). unfold tx_at. rewrite Htx. cbn [bind].
      destruct (IH (delete x its) rest (removed ++ [tx])) as (ix' & -> & Hp2 & Hh2);
        [simpl in Hf; lia|by apply by_nonce_delete|done|done|].
      destruct (below_min its x tx t) as [Eb Ef]; [done..|]. rewrite Ef in *. exists ix'.
      split; [|done]. by rewrite Eb, <- app_assoc.
    + exists (x :: ix). destruct (below_none its t) as [-> ->]; [intros k Hk; apply Hmin in Hk; lia|].
      by rewrite txs_of_empty, app_nil_r.
Qed.

(** Transactions below and from a nonce on. *)
Lemma txs_of_split its t : by_nonce its → txs_of its = txs_of (below t its) ++ txs_of (from t its).
Proof.
  intros Hn. assert (Hb : by_nonce (below t its)) by by apply by_nonce_filter.
  assert (Hf : by_nonce (from t its)) by by apply by_nonce_filter.
  assert (Hd : below t its ##ₘ from t its).
  { apply map_disjoint_spec. intros k x y [_ H1]%map_lookup_filter_Some [_ H2]%map_lookup_filter_Some. lia. }
  assert (Hu : its = below t its ∪ from t its).
  { apply map_eq. intros k. destruct (its !! k) as [tx|] eqn:E; symmetry.
    - apply lookup_union_Some; [done|]. destruct (decide (k < t)); [left|right]; apply map_lookup_filter_Some; split; try done. lia.
    - apply lookup_union_None. split; apply map_lookup_filter_None; left; done. }
  symmetry. apply txs_of_unique; [done| | |].
  - intros tx [H|H]%elem_of_app; apply elem_of_txs_of in H; try done; by apply map_lookup_filter_Some in H as [? _].
  - rewrite fmap_app, !txs_of_nonces, !merge_sort_Permutation by done. rewrite Hu at 3. rewrite dom_union_L.
    symmetry. apply elements_disj_union. by apply map_disjoint_dom.
  - rewrite fmap_app, !txs_of_nonces by done. apply StronglySorted_app. split; [|split; apply sorted_sort].
    intros x y. rewrite !merge_sort_Permutation, !elem_of_elements.
    intros [? [_ H1]%map_lookup_filter_Some]%elem_of_dom [? [_ H2]%map_lookup_filter_Some]%elem_of_dom. lia.
Qed.

Lemma Forward_spec m t :
  sm_ok m → ∃ m', sm_Forward m t = Ok (txs_of (below t (items m)), m') ∧ sm_ok m' ∧ items m' = from t (items m).
Proof.
  intros [Hn Hi Hh Hs]. unfold sm_Forward.
  destruct (Forward_loop_spec (length (index m)) (items m) (index m) t []) as (ix' & -> & Hp & Hh'); try done.
  cbn [bind app]. assert (Hc : ∃ c, cut_front (length (txs_of (below t (items m)))) (sorted m) = Ok c ∧
                                  ∀ c', c = Some c' → c' = txs_of (from t (items m))).
  { unfold cut_front. destruct (sorted m) as [c|]; [|by exists None]. rewrite (Hs c eq_refl), (txs_of_split _ t Hn).
    rewrite (proj2 (Nat.leb_le _ _)) by (rewrite length_app; lia). eexists. split; [done|]. intros c' [= <-].
    by rewrite drop_app_length. }
  destruct Hc as (c & -> & Hc). eexists. split; [reflexivity|]. split; [|done]. split; simpl; try done. by apply by_nonce_filter.
Qed.

(** ** [Filter] *)

Lemma sorted_sublist (l k : list Z) : l `sublist_of` k → StronglySorted Z.le k → StronglySorted Z.le l.
Proof.
  induction 1 as [|x l k Hsub IH|x l k Hsub IH]; [done| |]; intros [Hk Hall]%StronglySorted_inv; [|by apply IH].
  constructor; [by apply IH|]. apply Forall_forall. intros y Hy. rewrite Forall_forall in Hall. apply Hall.
  by eapply elem_of_sublist.
Qed.

Lemma txs_of_sorted its : by_nonce its → StronglySorted Z.le (AccountNonce <$> txs_of its).
Proof. intros Hn. rewrite txs_of_nonces by done. apply sorted_sort. Qed.

Lemma txs_of_NoDup its : by_nonce its → NoDup (AccountNonce <$> txs_of its).
Proof. intros Hn. rewrite txs_of_nonces, merge_sort_Permutation by done. apply NoDup_elements. Qed.

(** A part of the transactions in order. *)
Lemma txs_of_sublist its its' (l : list txdata) :
  by_nonce its → by_nonce its' → l `sublist_of` txs_of its → (∀ tx, tx ∈ l ↔ its' !! AccountNonce tx = Some tx) →
  l = txs_of its'.
Proof.
  intros Hn Hn' Hsub Hel. apply txs_of_unique; [done|by intros tx Htx; apply Hel| |].
  - apply NoDup_Permutation; [|apply NoDup_elements|].
    + eapply sublist_NoDup; [|by apply fmap_sublist]. by apply txs_of_NoDup.
    + intros k. rewrite list_elem_of_fmap, elem_of_elements, elem_of_dom. split.
      * intros (tx & -> & Htx). apply Hel in Htx. by eexists.
      * intros [tx Htx]. destruct (Hn' _ _ Htx) as [<- _]. exists tx. split; [done|]. by apply Hel.
  - eapply sorted_sublist; [by apply fmap_sublist|]. by apply txs_of_sorted.
Qed.

Lemma txs_of_filter its (f : txdata → bool) b :
  by_nonce its → txs_of (filter (λ '(_, tx), f tx = b) its) = filter (λ tx, f tx = b) (txs_of its).
Proof.
  intros Hn. symmetry. eapply (txs_of_sublist its); [done|by apply by_nonce_filter|apply sublist_filter|].
  intros tx. rewrite list_elem_of_filter, elem_of_txs_of, map_lookup_filter_Some by done. naive_solver.
Qed.

Section Filtering.
Context {NO : NonceOrder}.

Lemma Filter_spec m (f : txdata → bool) :
  sm_ok m →
  let '(removed, m') := sm_Filter m f in
  removed ≡ₚ filter (λ tx, f tx = true) (txs_of (items m)) ∧
  items m' = filter (λ '(_, tx), f tx = false) (items m) ∧ sm_ok m'.
Proof.
  intros Hm. pose proof Hm as [Hn Hi Hh Hs]. unfold sm_Filter.
  set (removed := filter (λ tx, f tx = true) (range_items (items m))).
  assert (Hr : removed ≡ₚ filter (λ tx, f tx = true) (txs_of (items m))).
  { unfold removed. by rewrite range_items_perm. }
  destruct removed as [|tx l] eqn:E.
  - split; [done|]. split; [|done]. symmetry. apply map_filter_id. intros k tx Hk. destruct (f tx) eqn:Ef; [|done].
    exfalso. assert (tx ∈ removed) as Htx.
    { apply list_elem_of_filter. split; [done|]. apply elem_of_range_items; [done|]. by destruct (Hn _ _ Hk) as [-> _]. }
    rewrite E in Htx. by apply elem_of_nil in Htx.
  - split; [done|]. split; [done|]. split; simpl; [by apply by_nonce_filter| |apply heap_Init_heap, _|done].
    by rewrite heap_Init_perm, range_nonces_perm.
Qed.

(** ** [Remove] *)

Lemma position_spec (ix : list Z) nonce : nonce ∈ ix → ∃ i, position ix nonce = Some i ∧ ix !! i = Some nonce.
Proof.
  intros Hin. unfold position. destruct (list_find (eq nonce) ix) as [[i x]|] eqn:E; simpl.
  - apply list_find_Some in E as (Hx & <- & _). by exists i.
  - apply list_find_None in E. rewrite Forall_forall in E. by destruct (E nonce Hin).
Qed.

Lemma sm_Remove_spec m nonce :
  sm_ok m →
  let '(removed, m') := sm_Remove m nonce in
  removed = bool_decide (is_Some (items m !! nonce)) ∧ items m' = delete nonce (items m) ∧ sm_ok m'.
Proof.
  intros Hm. pose proof Hm as [Hn Hi Hh Hs]. unfold sm_Remove. destruct (items m !! nonce) as [tx|] eqn:E.
  - split; [done|]. split; [done|].
    assert (Hin : nonce ∈ index m) by (rewrite Hi, elem_of_elements; by eapply elem_of_dom_2).
    destruct (position_spec _ _ Hin) as (i & -> & Hpos). destruct (heap_Remove_spec Z.ltb _ _ _ Hh Hpos) as [Hh' Hp].
    split; simpl; [by apply by_nonce_delete| |done|done].
    apply (Permutation_cons_inv (a := nonce)). rewrite <- Hp, Hi. apply elements_dom_delete. by eapply elem_of_dom_2.
  - split; [done|]. split; [by rewrite delete_id|done].
Qed.

(** ** [Flatten] *)

Lemma Flatten_spec m :
  sm_ok m → let '(c, m') := sm_Flatten m in c = txs_of (items m) ∧ items m' = items m ∧ sm_ok m'.
Proof.
  intros [Hn Hi Hh Hs]. unfold sm_Flatten.
  assert (Hc : (match sorted m with Some c => c | None => sort_txs (range_items (items m)) end) = txs_of (items m)).
  { destruct (sorted m) as [c|]; [by apply Hs|by apply sort_range_items]. }
  split; [done|]. split; [done|]. split; simpl; try done. intros c [= <-]. done.
Qed.
End Filtering.

(** ** [Cap] *)

Definition keep (ks : list Z) (its : gmap Z txdata) : gmap Z txdata := filter (λ '(k, _), k ∈ ks) its.

Lemma keep_lookup ks its k : keep ks its !! k = if decide (k ∈ ks) then its !! k else None.
Proof.
  unfold keep. case_decide as H.
  - destruct (its !! k) as [tx|] eqn:E; [by apply map_lookup_filter_Some|]. apply map_lookup_filter_None. by left.
  - apply map_lookup_filter_None. right. by intros tx _ ?.
Qed.

Lemma keep_snoc ks k its : k ∉ ks → delete k (keep (ks ++ [k]) its) = keep ks its.
Proof.
  intros Hk. apply map_eq. intros k'. destruct (decide (k' = k)) as [->|Hne].
  - rewrite lookup_delete_eq, keep_lookup. by rewrite decide_False.
  - rewrite lookup_delete_ne, !keep_lookup by done. destruct (decide (k' ∈ ks)); [rewrite decide_True by set_solver|rewrite decide_False by set_solver]; done.
Qed.

Lemma keep_all ks its : (∀ k, k ∈ dom its → k ∈ ks) → keep ks its = its.
Proof. intros H. apply map_filter_id. intros k tx Hk. apply H. by eapply elem_of_dom_2. Qed.

Lemma Cap_loop_spec k its (ix : list Z) n drops :
  NoDup ix → (∀ k, k ∈ ix → k ∈ dom its) → (k ≤ n)%nat → (n ≤ length ix)%nat →
  Cap_loop k (keep (take n ix) its) ix n drops =
  Ok (drops ++ reverse (omap (λ k, its !! k) (drop (n - k) (take n ix))), keep (take (n - k) ix) its).
Proof.
  intros Hnd Hin. revert n drops. induction k as [|k IH]; intros n drops Hk Hn.
  - simpl. rewrite Nat.sub_0_r, drop_ge by (rewrite length_take; lia). simpl. by rewrite app_nil_r.
  - destruct n as [|n]; [lia|]. cbn [Cap_loop]. rewrite !Nat.sub_succ, !Nat.sub_0_r.
    destruct (lookup_lt_is_Some_2 ix n) as [x Hx]; [lia|]. rewrite Hx.
    assert (is_Some (its !! x)) as [tx Htx] by (apply elem_of_dom, Hin; by eapply list_elem_of_lookup_2).
    assert (Hni : x ∉ take n ix).
    { intros (i & Hi)%list_elem_of_lookup. pose proof (lookup_lt_Some _ _ _ Hi) as Hlt. rewrite length_take in Hlt.
      rewrite lookup_take_lt in Hi by lia. pose proof (NoDup_lookup _ _ _ _ Hnd Hi Hx). lia. }
    unfold tx_at. rewrite (take_S_r _ _ _ Hx), keep_lookup, decide_True, Htx by set_solver. cbn [bind].
    rewrite keep_snoc, IH by (done || lia). rewrite <- app_assoc.
    rewrite drop_app_le by (rewrite length_take; lia). rewrite omap_app. simpl. rewrite Htx.
    by rewrite reverse_app.
Qed.

Lemma omap_keep its ks : (∀ k, k ∈ ks → k ∈ dom its) → NoDup ks → StronglySorted Z.le ks →
  txs_of (keep ks its) = omap (λ k, its !! k) ks.
Proof.
  intros Hin Hnd Hs. unfold txs_of.
  assert (E : merge_sort Z.le (elements (dom (keep ks its))) = ks).
  { apply sort_unique; [|apply sorted_sort|done]. rewrite merge_sort_Permutation. apply NoDup_Permutation; [apply NoDup_elements|done|].
    intros k. rewrite elem_of_elements, elem_of_dom, keep_lookup. destruct (decide (k ∈ ks)) as [H|H].
    - split; [done|]. intros _. by apply elem_of_dom, Hin.
    - split; [by intros [? ?]|done]. }
  rewrite E. clear E Hnd Hs. assert (Hk : ∀ k, k ∈ ks → keep ks its !! k = its !! k).
  { intros k Hk. rewrite keep_lookup. by rewrite decide_True. }
  revert Hk. generalize (keep ks its). intros g Hk. clear Hin. induction ks as [|k ks IH]; [done|]. simpl.
  rewrite Hk by by left. case_match; [f_equal|]; apply IH; intros k' Hk'; apply Hk; by right.
Qed.

Lemma omap_take (its : gmap Z txdata) (l : list Z) n :
  (∀ k, k ∈ l → k ∈ dom its) → omap (λ k, its !! k) (take n l) = take n (omap (λ k, its !! k) l).
Proof.
  revert n. induction l as [|k l IH]; intros [|n] Hin; try done. simpl.
  assert (is_Some (its !! k)) as [tx ->] by (apply elem_of_dom, Hin; by left). simpl. f_equal. apply IH.
  intros k' Hk'. apply Hin. by right.
Qed.

Lemma omap_drop (its : gmap Z txdata) (l : list Z) n :
  (∀ k, k ∈ l → k ∈ dom its) → omap (λ k, its !! k) (drop n l) = drop n (omap (λ k, its !! k) l).
Proof.
  revert n. induction l as [|k l IH]; intros [|n] Hin; try done. simpl.
  assert (is_Some (its !! k)) as [tx ->] by (apply elem_of_dom, Hin; by left). simpl. apply IH.
  intros k' Hk'. apply Hin. by right.
Qed.

Lemma Cap_spec m t :
  sm_ok m → 0 ≤ t →
  ∃ m', sm_Cap m t = Ok (reverse (drop (Z.to_nat t) (txs_of (items m))), m') ∧ sm_ok m' ∧
        items m' ⊆ items m ∧ txs_of (items m') = take (Z.to_nat t) (txs_of (items m)).
Proof.
  intros Hm Ht. pose proof Hm as [Hn Hi Hh Hs]. unfold sm_Cap. pose proof (txs_of_length _ Hn) as Hl.
  destruct (Z.leb_spec (Z.of_nat (size (items m))) t) as [Hle|Hlt].
  { exists m. rewrite drop_ge, take_ge by lia. by split_and!. }
  rewrite (proj2 (Z.ltb_ge t 0)) by lia. set (n := Z.to_nat t). assert (Hnt : (n < size (items m))%nat) by lia.
  assert (Eix : sort_nonces (index m) = merge_sort Z.le (elements (dom (items m)))).
  { apply sort_unique; [|apply sorted_sort..]. unfold sort_nonces. by rewrite !merge_sort_Permutation, Hi. }
  set (ix := merge_sort Z.le (elements (dom (items m)))) in *.
  assert (Hperm : ix ≡ₚ elements (dom (items m))) by apply merge_sort_Permutation.
  assert (Hlen : length ix = size (items m)) by (rewrite Hperm; by rewrite <- size_dom).
  assert (Hnd : NoDup ix) by (rewrite Hperm; apply NoDup_elements).
  assert (Hin : ∀ k, k ∈ ix → k ∈ dom (items m)) by (intros k; by rewrite Hperm, elem_of_elements).
  pose proof (Cap_loop_spec (size (items m) - n) (items m) ix (size (items m)) [] Hnd Hin ltac:(lia) ltac:(lia)) as Hc.
  rewrite Eix. rewrite take_ge in Hc by lia.
  rewrite keep_all in Hc by (intros k Hk; rewrite Hperm; by apply elem_of_elements).
  replace (size (items m) - (size (items m) - n))%nat with n in Hc by lia. rewrite Hc. cbn [bind app].
  assert (Hsub : NoDup (take n ix) ∧ StronglySorted Z.le (take n ix)).
  { split; [by eapply sublist_NoDup, sublist_take|]. eapply sorted_sublist; [apply sublist_take|]. apply sorted_sort. }
  assert (Etxs : txs_of (keep (take n ix) (items m)) = take n (txs_of (items m))).
  { rewrite omap_keep; [by apply omap_take|intros k Hk; by eapply Hin, elem_of_sublist, sublist_take|apply Hsub..]. }
  rewrite omap_drop by done. change (omap (λ k, items m !! k) ix) with (txs_of (items m)).
  assert (Hcut : ∃ c, cut_back (length (reverse (drop n (txs_of (items m))))) (sorted m) = Ok c ∧
                      ∀ c', c = Some c' → c' = txs_of (keep (take n ix) (items m))).
  { unfold cut_back. destruct (sorted m) as [c|]; [|by exists None]. rewrite (Hs c eq_refl), length_reverse, length_drop, Hl.
    rewrite (proj2 (Nat.leb_le _ _)) by lia. eexists. split; [done|]. intros c' [= <-]. rewrite Etxs. f_equal. lia. }
  destruct Hcut as (c & -> & Hcut). eexists. split; [reflexivity|]. split; [|split; [apply map_filter_subseteq|done]].
  split; simpl; [by apply by_nonce_filter| |apply heap_Init_heap, _|done].
  rewrite heap_Init_perm. apply NoDup_Permutation; [apply Hsub|apply NoDup_elements|].
  intros k. rewrite elem_of_elements, elem_of_dom, keep_lookup. destruct (decide (k ∈ take n ix)) as [H|H].
  - split; [|done]. intros _. apply elem_of_dom, Hin. by eapply elem_of_sublist, sublist_take.
  - split; [done|]. by intros [? ?].
Qed.

(** ** [Ready] *)

(** The run of nonces that starts at [next]. *)
Lemma Ready_loop_spec fuel its ix next ready :
  (length ix ≤ fuel)%nat → by_nonce its → ix ≡ₚ elements (dom its) → is_heap Z.ltb ix →
  is_u64 next → (∀ k, k ∈ dom its → next ≤ k) →
  ∃ n ix', 0 ≤ n ∧ Ready_loop fuel its ix next ready = Ok (ready ++ txs_of (below (next + n) its), from (next + n) its, ix') ∧
         ix' ≡ₚ elements (dom (from (next + n) its)) ∧ is_heap Z.ltb ix' ∧
         (∀ k, next ≤ k < next + n → k ∈ dom its) ∧ next + n ∉ dom its.
Proof.
  revert its ix next ready. induction fuel as [|fuel IH]; intros its ix next ready Hf Hn Hp Hh Hu Hmin.
  - destruct ix; [|simpl in Hf; lia]. rewrite (no_items its Hp). exists 0, []. cbn [Ready_loop].
    rewrite app_nil_r. split_and!; try done; lia.
  - destruct ix as [|x ix].
    { rewrite (no_items its Hp). exists 0, []. cbn [Ready_loop]. rewrite app_nil_r. split_and!; try done; lia. }
    destruct (index_min its x ix Hp Hh) as [[tx Htx] Hmin']. cbn [Ready_loop].
    destruct (Z.eqb_spec x next) as [->|Hne].
    + destruct (pop_min its next ix Hp Hh) as (rest & -> & Hp' & Hh' & Hl). unfold tx_at. rewrite Htx. cbn [bind].
      pose proof (by_nonce_delete its next Hn) as Hn'. simpl in Hf.
      assert (Hrest : ∀ k, k ∈ dom (delete next its) → next + 1 ≤ k).
      { intros k Hk. assert (k ≠ next ∧ k ∈ dom its) as [? ?%Hmin] by set_solver. lia. }
      destruct (decide (next + 1 < two64)) as [Hlt|Hge].
      * rewrite u64_small by (unfold is_u64 in *; lia).
        destruct (IH (delete next its) rest (next + 1) (ready ++ [tx])) as (n & ix' & Hn0 & -> & Hp2 & Hh2 & Hrun & Hend);
          [lia|done..|unfold is_u64 in *; lia|done|].
        destruct (below_min its next tx (next + 1 + n)) as [Eb Ef]; [done..|lia|]. rewrite Ef in *.
        exists (1 + n), ix'. replace (next + (1 + n)) with (next + 1 + n) by lia. rewrite Eb, <- app_assoc.
        split_and!; try done; [lia| |set_solver by lia].
        intros k Hk. destruct (decide (k = next)) as [->|]; [by eapply elem_of_dom_2|].
        assert (k ∈ dom (delete next its)) by (apply Hrun; lia). set_solver.
      * assert (Hemp : delete next its = ∅).
        { apply map_empty. intros k. destruct (delete next its !! k) as [tx'|] eqn:E; [|done].
          destruct (Hn' _ _ E) as [_ Hk]. apply elem_of_dom_2, Hrest in E. unfold is_u64 in Hk. lia. }
        destruct (below_min its next tx (next + 1)) as [Eb Ef]; [done..|lia|]. rewrite Hemp in *. simpl in Hp'.
        apply Permutation_nil_r in Hp'. subst rest. exists 1, []. rewrite <- Ef, Eb.
        split_and!; [lia|by destruct fuel|done|done| |].
        -- intros k Hk. assert (k = next) as -> by lia. by eapply elem_of_dom_2.
        -- intros [tx' Hk]%elem_of_dom. destruct (Hn _ _ Hk) as [_ Hu']. unfold is_u64 in Hu'. lia.
    + exists 0, (x :: ix). rewrite Z.add_0_r. destruct (below_none its next Hmin) as [-> ->]. rewrite app_nil_r.
      split_and!; try done; [lia|]. intros Hk. apply Hmin' in Hk. assert (next ≤ x) by (apply Hmin; by eapply elem_of_dom_2). lia.
Qed.

(** [Ready] takes the run of nonces that starts at the smallest one, when that
    is not above [start]. *)
Definition ready_run (its : gmap Z txdata) (start x n : Z) : Prop :=
  x ≤ start ∧ (∀ k, k ∈ dom its → x ≤ k) ∧ 0 < n ∧ (∀ k, x ≤ k < x + n → k ∈ dom its) ∧ x + n ∉ dom its.

Lemma Ready_spec m start :
  sm_ok m →
  (sm_Ready m start = Ok ([], m) ∧ ∀ k, k ∈ dom (items m) → start < k) ∨
  ∃ x n m', ready_run (items m) start x n ∧ sm_Ready m start = Ok (txs_of (below (x + n) (items m)), m') ∧
            sm_ok m' ∧ items m' = from (x + n) (items m).
Proof.
  intros [Hn Hi Hh Hs]. unfold sm_Ready. destruct (index m) as [|x ix] eqn:E.
  { left. split; [done|]. rewrite (no_items _ Hi). set_solver. }
  destruct (index_min (items m) x ix Hi Hh) as [[tx Htx] Hmin]. destruct (Z.ltb_spec start x) as [Hlt|Hge].
  { left. split; [done|]. intros k Hk. apply Hmin in Hk. lia. }
  right. destruct (Ready_loop_spec (length (x :: ix)) (items m) (x :: ix) x []) as (n & ix' & Hn0 & Hr & Hp & Hh' & Hrun & Hend);
    [done..|by apply (Hn x tx)|done|].
  exists x, n. rewrite Hr. cbn [bind app]. eexists. split; [|split; [reflexivity|]].
  - split_and!; try done. destruct (decide (n = 0)) as [->|]; [|lia]. rewrite Z.add_0_r in Hend.
    exfalso. by eapply Hend, elem_of_dom_2.
  - split; [|done]. split; simpl; try done. by apply by_nonce_filter.
Qed.

(** ** Lists

    The caps bound what [Filter] compares. *)

Lemma list_eq_nil_2 {A} (l : list A) : (∀ x, x ∉ l) → l = [].
Proof. intros H. destruct l as [|x l]; [done|]. destruct (H x). by left. Qed.

Lemma filter_all {A} (P : A → Prop) `{!∀ x, Decision (P x)} (l : list A) : (∀ x, x ∈ l → P x) → filter P l = l.
Proof.
  induction l as [|x l IH]; intros Hall; [done|]. rewrite filter_cons, decide_True by (apply Hall; by left). f_equal. apply IH.
  intros y Hy. apply Hall. by right.
Qed.

Abbreviation held l := (items (txs l)).

Definition fee (tx : txdata) : Z := if Base tx =? Main then Cost tx else MainFee tx.

Record list_ok (l : txList) : Prop := {
  lo_txs : sm_ok (txs l);
  lo_caps : ∀ k tx, held l !! k = Some tx → 0 ≤ Amount tx ∧ TxGasLimit tx ≤ gascap l ∧ fee tx ≤ costcap l
}.

Lemma list_new b : list_ok (newTxList b).
Proof. split; [apply new_ok|]. intros k tx Hk. by destruct (lookup_empty_Some k tx). Qed.

(** A list with fewer transactions. *)
Lemma list_less l m : list_ok l → sm_ok m → items m ⊆ held l → list_ok (put_txs l m).
Proof. intros [_ Hc] Hm Hsub. split; [done|]. intros k tx Hk. apply (Hc k). simpl in Hk. by eapply lookup_weaken. Qed.

Lemma from_subseteq t m : from t m ⊆ m.
Proof. apply map_filter_subseteq. Qed.

Lemma too_costly_fee b g tx : too_costly b g tx = (b <? fee tx) || (g <? TxGasLimit tx).
Proof. unfold too_costly, fee. by destruct (Base tx =? Main). Qed.

Lemma fee_le_Cost tx : 0 ≤ Amount tx → fee tx ≤ Cost tx.
Proof. unfold fee, Cost, MainFee. intros H. destruct (Base tx =? Main); lia. Qed.

Lemma l_Add_spec l tx bump :
  list_ok l → is_u64 (AccountNonce tx) → 0 ≤ Amount tx →
  let '(inserted, old, l') := l_Add l tx bump in
  if inserted : bool then
    list_ok l' ∧ strict l' = strict l ∧ old = held l !! AccountNonce tx ∧ held l' = <[AccountNonce tx := tx]> (held l) ∧
    (∀ o, old = Some o → Price o < Price tx)
  else l' = l ∧ old = None ∧ is_Some (held l !! AccountNonce tx).
Proof.
  intros [Hm Hc] Hu Ha. unfold l_Add, sm_Get. cbv zeta.
  match goal with |- context [if ?b then _ else _] => destruct b eqn:E end.
  - split_and!; [done|done|]. destruct (held l !! AccountNonce tx); [by eexists|done].
  - split_and!; try done.
    + split; [by apply Put_ok|]. simpl. intros k tx' [[<- <-]|[_ Hk]]%lookup_insert_Some.
      * pose proof (fee_le_Cost tx Ha). split; [done|].
        destruct (Z.ltb_spec (gascap l) (TxGasLimit tx)), (Z.ltb_spec (costcap l) (Cost tx)); lia.
      * destruct (Hc _ _ Hk) as (? & ? & ?). split; [done|].
        destruct (Z.ltb_spec (gascap l) (TxGasLimit tx)), (Z.ltb_spec (costcap l) (Cost tx)); lia.
    + intros o Ho. rewrite Ho in E. apply orb_false_iff in E as [?%Z.leb_gt _]. lia.
Qed.

Lemma l_Forward_spec l t :
  list_ok l → ∃ l', l_Forward l t = Ok (txs_of (below t (held l)), l') ∧ list_ok l' ∧ strict l' = strict l ∧ held l' = from t (held l).
Proof.
  intros Hl. destruct (Forward_spec (txs l) t (lo_txs l Hl)) as (m' & Hf & Hm' & Hi). unfold l_Forward. rewrite Hf. cbn [bind].
  eexists. split; [reflexivity|]. split_and!; [|done|done]. apply list_less; [done..|]. rewrite Hi. apply from_subseteq.
Qed.

Section Lists.
Context {NO : NonceOrder}.

Lemma l_Cap_spec l t :
  list_ok l → 0 ≤ t →
  ∃ l', l_Cap l t = Ok (reverse (drop (Z.to_nat t) (txs_of (held l))), l') ∧ list_ok l' ∧ strict l' = strict l ∧
        held l' ⊆ held l ∧ txs_of (held l') = take (Z.to_nat t) (txs_of (held l)).
Proof.
  intros Hl Ht. destruct (Cap_spec (txs l) t (lo_txs l Hl) Ht) as (m' & Hf & Hm' & Hsub & Hi). unfold l_Cap. rewrite Hf. cbn [bind].
  eexists. split; [reflexivity|]. split_and!; try done. by apply list_less.
Qed.

Lemma l_Ready_spec l start :
  list_ok l →
  (l_Ready l start = Ok ([], l) ∧ ∀ k, k ∈ dom (held l) → start < k) ∨
  ∃ x n l', ready_run (held l) start x n ∧ l_Ready l start = Ok (txs_of (below (x + n) (held l)), l') ∧
            list_ok l' ∧ strict l' = strict l ∧ held l' = from (x + n) (held l).
Proof.
  intros Hl. unfold l_Ready. destruct (Ready_spec (txs l) start (lo_txs l Hl)) as [[-> Hr]|(x & n & m' & Hrun & -> & Hm' & Hi)].
  - left. split; [|done]. cbn [bind]. by destruct l.
  - right. cbn [bind]. eexists x, n, _. split; [done|]. split; [reflexivity|]. split_and!; [|done|done].
    apply list_less; [done..|]. rewrite Hi. apply from_subseteq.
Qed.

Lemma l_Flatten_spec l :
  list_ok l → let '(c, l') := l_Flatten l in c = txs_of (held l) ∧ list_ok l' ∧ strict l' = strict l ∧ held l' = held l.
Proof.
  intros Hl. unfold l_Flatten. pose proof (Flatten_spec (txs l) (lo_txs l Hl)) as Hf. destruct (sm_Flatten (txs l)) as [c m'].
  destruct Hf as (-> & Hi & Hm'). split_and!; try done. apply list_less; [done..|]. by rewrite Hi.
Qed.

(** *** [Filter] with and without the caps *)

Lemma lowest_nonce_acc (l : list txdata) a :
  let n := foldl (λ lowest tx, if AccountNonce tx <? lowest then AccountNonce tx else lowest) a l in
  (n = a ∨ ∃ tx, tx ∈ l ∧ n = AccountNonce tx) ∧ n ≤ a ∧ ∀ tx, tx ∈ l → n ≤ AccountNonce tx.
Proof.
  revert a. induction l as [|tx l IH]; intros a; simpl; [split_and!; [by left|lia|by intros ? ?%elem_of_nil]|].
  set (a' := if AccountNonce tx <? a then AccountNonce tx else a).
  assert (Ha : (a' = a ∨ a' = AccountNonce tx) ∧ a' ≤ a ∧ a' ≤ AccountNonce tx).
  { unfold a'. destruct (Z.ltb_spec (AccountNonce tx) a); split_and!; try lia; auto. }
  destruct Ha as (Ha & ? & ?), (IH a') as (H1 & H2 & H3). split_and!; [|lia|].
  - destruct H1 as [->|(tx' & Htx' & ->)]; [destruct Ha as [->| ->]; [by left|right; exists tx; split; [by left|done]]|].
    right. exists tx'. split; [by right|done].
  - intros tx' [->|Htx']%elem_of_cons; [lia|by apply H3].
Qed.

Lemma lowest_nonce_spec (l : list txdata) :
  l ≠ [] → (∀ tx, tx ∈ l → is_u64 (AccountNonce tx)) →
  (∃ tx, tx ∈ l ∧ lowest_nonce l = AccountNonce tx) ∧ ∀ tx, tx ∈ l → lowest_nonce l ≤ AccountNonce tx.
Proof.
  intros Hl Hu. destruct (lowest_nonce_acc l maxUint64) as (H1 & H2 & H3). fold (lowest_nonce l) in *. split; [|done].
  destruct H1 as [E|H1]; [|done]. destruct l as [|tx l]; [done|]. exists tx. split; [by left|].
  pose proof (H3 tx ltac:(by left)). assert (is_u64 (AccountNonce tx)) as Htx by (apply Hu; by left).
  rewrite E in *. unfold is_u64, maxUint64 in *. lia.
Qed.

(** Within the caps nothing is too costly. *)
Lemma caps_cover l b g k tx :
  list_ok l → costcap l ≤ b → gascap l ≤ g → held l !! k = Some tx → too_costly b g tx = false.
Proof.
  intros Hl Hb Hg Hk. destruct (lo_caps l Hl _ _ Hk) as (_ & ? & ?). rewrite too_costly_fee.
  apply orb_false_iff. split; apply Z.ltb_ge; lia.
Qed.

(** What the second filter of a strict list leaves. *)
Lemma filter_then_above (m : gmap Z txdata) (f : txdata → bool) lowest :
  by_nonce m → (∃ tx, m !! lowest = Some tx ∧ f tx = true) →
  (∀ k tx, m !! k = Some tx → f tx = true → lowest ≤ k) →
  filter (λ '(_, tx), (lowest <? AccountNonce tx) = false) (filter (λ '(_, tx), f tx = false) m) = below lowest m.
Proof.
  intros Hn (tx0 & H0 & Hf0) Hmin. apply map_eq. intros k. apply option_eq. intros tx. unfold below.
  rewrite !map_lookup_filter_Some, Z.ltb_ge. split.
  - intros [[Hk Hf] Hle]. split; [done|]. destruct (Hn _ _ Hk) as [<- _]. destruct (decide (AccountNonce tx = lowest)) as [E|]; [|lia].
    rewrite E, H0 in Hk. congruence.
  - intros [Hk Hlt]. destruct (Hn _ _ Hk) as [Ek _]. split_and!; [done| |lia]. destruct (f tx) eqn:E; [|done].
    pose proof (Hmin _ _ Hk E). lia.
Qed.

(** What is not too costly but comes after the lowest that is. *)
Lemma costly_after m (f : txdata → bool) lowest tx0 :
  by_nonce m → m !! lowest = Some tx0 → f tx0 = true →
  filter (λ tx, (lowest <? AccountNonce tx) = true) (filter (λ tx, f tx = false) (txs_of m)) =
  filter (λ tx, f tx = false) (txs_of (from lowest m)).
Proof.
  intros Hn H0 Hf0. assert (Hfr : by_nonce (from lowest m)) by by apply by_nonce_filter.
  rewrite (txs_of_split m lowest Hn), !filter_app.
  rewrite (list_eq_nil_2 (filter (λ tx, (lowest <? AccountNonce tx) = true) (filter _ (txs_of (below lowest m))))).
  - simpl. apply filter_all. intros tx [Hf Hin]%list_elem_of_filter. apply Z.ltb_lt.
    apply elem_of_txs_of in Hin; [|done]. apply map_lookup_filter_Some in Hin as [Hin Hle].
    destruct (decide (AccountNonce tx = lowest)) as [E|]; [|lia]. rewrite E in Hin. congruence.
  - intros tx [Hlt%Z.ltb_lt [_ Hin]%list_elem_of_filter]%list_elem_of_filter.
    apply elem_of_txs_of in Hin; [|by apply by_nonce_filter]. apply map_lookup_filter_Some in Hin as [_ ?]. lia.
Qed.

Lemma below_everything m : by_nonce m → below two64 m = m ∧ from two64 m = ∅.
Proof.
  intros Hn. split; [apply map_filter_id; intros k tx Hk; by apply (Hn k tx)|].
  apply map_empty. intros k. apply map_lookup_filter_None. right. intros tx Hk. destruct (Hn _ _ Hk) as [_ Hu]. unfold is_u64 in Hu. lia.
Qed.

(** Nothing is too costly. *)
Lemma no_costly m (f : txdata → bool) :
  by_nonce m → filter (λ tx, f tx = true) (txs_of m) = [] → ∀ k tx, m !! k = Some tx → f tx = false.
Proof.
  intros Hn E k tx Hk. destruct (f tx) eqn:Ef; [|done]. exfalso.
  assert (tx ∈ filter (λ tx, f tx = true) (txs_of m)) as H; [|rewrite E in H; by apply elem_of_nil in H].
  apply list_elem_of_filter. split; [done|]. apply elem_of_txs_of; [done|]. by destruct (Hn _ _ Hk) as [-> _].
Qed.

Lemma filter_none m (f : txdata → bool) :
  by_nonce m → (∀ k tx, m !! k = Some tx → f tx = false) →
  filter (λ tx, f tx = true) (txs_of m) = [] ∧ filter (λ '(_, tx), f tx = false) m = m.
Proof.
  intros Hn Hf. split; [|by apply map_filter_id]. apply list_eq_nil_2. intros tx [Ht Hin]%list_elem_of_filter.
  apply elem_of_txs_of in Hin; [|done]. apply Hf in Hin. congruence.
Qed.

Lemma lowest_removed m (f : txdata → bool) (removed : list txdata) :
  by_nonce m → removed ≡ₚ filter (λ tx, f tx = true) (txs_of m) → removed ≠ [] →
  ∃ tx0, m !! lowest_nonce removed = Some tx0 ∧ f tx0 = true ∧
         ∀ k tx, m !! k = Some tx → f tx = true → lowest_nonce removed ≤ k.
Proof.
  intros Hn Hr Hne.
  assert (Hin : ∀ tx, tx ∈ removed ↔ m !! AccountNonce tx = Some tx ∧ f tx = true).
  { intros tx. rewrite Hr, list_elem_of_filter, elem_of_txs_of by done. naive_solver. }
  destruct (lowest_nonce_spec removed Hne) as [(tx0 & Htx0 & ->) Hlow].
  { intros tx Htx. apply Hin in Htx as [Htx _]. by apply (Hn _ _ Htx). }
  apply Hin in Htx0 as [H0 Hf0]. exists tx0. split_and!; [done|done|]. intros k tx Hk Hc.
  destruct (Hn _ _ Hk) as [<- _]. by apply Hlow, Hin.
Qed.

(** The list behaves as one without caps: what is too costly is removed; from a
    strict list what comes after it is removed too. *)
Lemma l_Filter_spec l b g :
  list_ok l →
  let '(removed, invalids, l') := l_Filter l b g in
  removed ≡ₚ filter (λ tx, too_costly b g tx = true) (txs_of (held l)) ∧ list_ok l' ∧ strict l' = strict l ∧
  if strict l then
    ∃ t, held l' = below t (held l) ∧ invalids ≡ₚ filter (λ tx, too_costly b g tx = false) (txs_of (from t (held l))) ∧
         (∀ k tx, held l !! k = Some tx → too_costly b g tx = true → t ≤ k) ∧
         ((∃ tx, held l !! t = Some tx ∧ too_costly b g tx = true) ∨ from t (held l) = ∅)
  else invalids = [] ∧ held l' = filter (λ '(_, tx), too_costly b g tx = false) (held l).
Proof.
  intros Hl. unfold l_Filter. pose proof (ok_nonces _ (lo_txs l Hl)) as Hn.
  destruct ((costcap l <=? b) && (gascap l <=? g)) eqn:E.
  { apply andb_true_iff in E as [Hb%Z.leb_le Hg%Z.leb_le].
    destruct (filter_none (held l) (too_costly b g) Hn) as [-> E2]; [intros k tx Hk; by eapply caps_cover|].
    split_and!; try done. destruct (strict l); [|by rewrite E2]. exists two64.
    destruct (below_everything _ Hn) as [-> ->]. split_and!; [done|done| |by right]. intros k tx Hk. by rewrite (caps_cover l b g k tx). }
  clear E. pose proof (Filter_spec (txs l) (too_costly b g) (lo_txs l Hl)) as Hf.
  destruct (sm_Filter (txs l) (too_costly b g)) as [removed m]. destruct Hf as (Hr & Hi & Hm).
  assert (Hcap : ∀ m', sm_ok m' → items m' ⊆ items m →
    list_ok {| strict := strict l; txs := m'; costcap := b; gascap := g |}).
  { intros m' Hm' Hsub. split; [done|]. simpl. intros k tx Hk. eapply lookup_weaken in Hk; [|done].
    rewrite Hi in Hk. apply map_lookup_filter_Some in Hk as [Hk Hc]. destruct (lo_caps l Hl _ _ Hk) as (? & _ & _).
    rewrite too_costly_fee in Hc. apply orb_false_iff in Hc as [?%Z.ltb_ge ?%Z.ltb_ge]. done. }
  destruct (strict l) eqn:Es; [|split_and!; try done; by apply Hcap].
  destruct removed as [|tx0 r] eqn:Er.
  { symmetry in Hr. apply Permutation_nil_r in Hr. pose proof (no_costly _ _ Hn Hr) as Hnc.
    destruct (filter_none (held l) (too_costly b g) Hn Hnc) as [_ E2]. rewrite Hr. split_and!; try done; [by apply Hcap|].
    exists two64. destruct (below_everything _ Hn) as [-> ->]. simpl. rewrite Hi, E2. split_and!; [done|done| |by right].
    intros k tx Hk. by rewrite (Hnc k tx). }
  rewrite <- Er in *. destruct (lowest_removed (held l) (too_costly b g) removed) as (txm & Htxm & Hcm & Hlow); [done..|by rewrite Er|].
  set (lowest := lowest_nonce removed) in *.
  pose proof (Filter_spec m (λ tx, lowest <? AccountNonce tx) Hm) as Hf2.
  destruct (sm_Filter m (λ tx, lowest <? AccountNonce tx)) as [invalids m2]. destruct Hf2 as (Hr2 & Hi2 & Hm2).
  split_and!; [done|apply Hcap; [done|rewrite Hi2; apply map_filter_subseteq]|done|]. exists lowest. simpl. split_and!; [| |done|left; by exists txm].
  - rewrite Hi2, Hi. apply filter_then_above; [done|by exists txm|done].
  - rewrite Hr2, Hi, txs_of_filter by done. by rewrite (costly_after (held l) (too_costly b g) lowest txm).
Qed.

Lemma below_after_delete m nonce :
  by_nonce m → filter (λ '(_, tx), (nonce <? AccountNonce tx) = false) (delete nonce m) = below nonce m.
Proof.
  intros Hn. apply map_eq. intros k. apply option_eq. intros tx. unfold below.
  rewrite !map_lookup_filter_Some, lookup_delete_Some, Z.ltb_ge. split.
  - intros [[Hk Hl] Hle]. destruct (Hn _ _ Hl) as [E _]. split; [done|lia].
  - intros [Hk Hlt]. destruct (Hn _ _ Hk) as [E _]. split_and!; try done; lia.
Qed.

Lemma from_after_delete m nonce :
  by_nonce m → filter (λ tx, (nonce <? AccountNonce tx) = true) (txs_of (delete nonce m)) = txs_of (from (nonce + 1) m).
Proof.
  intros Hn. rewrite <- txs_of_filter by by apply by_nonce_delete. f_equal. apply map_eq. intros k. apply option_eq. intros tx.
  unfold from. rewrite !map_lookup_filter_Some, lookup_delete_Some, Z.ltb_lt. split.
  - intros [[Hk Hl] Hle]. destruct (Hn _ _ Hl) as [E _]. split; [done|lia].
  - intros [Hk Hlt]. destruct (Hn _ _ Hk) as [E _]. split_and!; try done; lia.
Qed.

Lemma l_Remove_spec l tx :
  list_ok l →
  let nonce := AccountNonce tx in
  let '(removed, invalids, l') := l_Remove l tx in
  removed = bool_decide (is_Some (held l !! nonce)) ∧ list_ok l' ∧ strict l' = strict l ∧
  if removed then
    if strict l then held l' = below nonce (held l) ∧ invalids ≡ₚ txs_of (from (nonce + 1) (held l))
    else held l' = delete nonce (held l) ∧ invalids = []
  else l' = l ∧ invalids = [].
Proof.
  intros Hl nonce. unfold l_Remove. fold nonce. pose proof (ok_nonces _ (lo_txs l Hl)) as Hn.
  pose proof (sm_Remove_spec (txs l) nonce (lo_txs l Hl)) as Hr.
  destruct (sm_Remove (txs l) nonce) as [removed m] eqn:Em. destruct Hr as (-> & Hi & Hm).
  case_bool_decide as Hs; simpl.
  - destruct (strict l) eqn:Es; simpl.
    + pose proof (Filter_spec m (λ tx, nonce <? AccountNonce tx) Hm) as Hf.
      destruct (sm_Filter m (λ tx, nonce <? AccountNonce tx)) as [invalids m2]. destruct Hf as (Hr2 & Hi2 & Hm2).
      rewrite Hi in Hr2, Hi2. split_and!; [done| |done|simpl; rewrite Hi2; by apply below_after_delete|].
      * apply list_less; [done..|]. rewrite Hi2, below_after_delete by done. apply map_filter_subseteq.
      * by rewrite Hr2, from_after_delete.
    + split_and!; try done. apply list_less; [done..|]. rewrite Hi. apply delete_subseteq.
  - assert (E : m = txs l).
    { unfold sm_Remove in Em. destruct (held l !! nonce) eqn:En; [by destruct Hs; eexists|]. by simplify_eq. }
    subst m. replace (put_txs l (txs l)) with l by by destruct l. by split_and!.
Qed.
End Lists.

(** ** Taking transactions out of a list *)

Record takes (l : txList) (gone : list txdata) (l' : txList) : Prop := {
  tk_ok : list_ok l';
  tk_strict : strict l' = strict l;
  tk_sub : held l' ⊆ held l;
  tk_gone : ∀ tx, tx ∈ gone ↔ held l !! AccountNonce tx = Some tx ∧ held l' !! AccountNonce tx = None;
  tk_nodup : NoDup gone
}.

Lemma txs_of_NoDup_txs m : by_nonce m → NoDup (txs_of m).
Proof. intros Hn. eapply NoDup_fmap_1. by apply txs_of_NoDup. Qed.

(** The list splits into what stays and what goes. *)
Lemma takes_split l gone l' (m : gmap Z txdata) :
  list_ok l → list_ok l' → strict l' = strict l → held l' ⊆ held l → gone ≡ₚ txs_of m → m ⊆ held l → m ##ₘ held l' →
  (∀ k, is_Some (held l !! k) → is_Some (m !! k) ∨ is_Some (held l' !! k)) → takes l gone l'.
Proof.
  intros Hl Hl' Hs Hsub Hg Hm Hd Hc. pose proof (ok_nonces _ (lo_txs l Hl)) as Hn.
  assert (Hnm : by_nonce m) by (intros k tx Hk; apply Hn; by eapply lookup_weaken).
  split; try done; [|rewrite Hg; by apply txs_of_NoDup_txs].
  intros tx. rewrite Hg, elem_of_txs_of by done. split.
  - intros H. split; [by eapply lookup_weaken|]. by eapply map_disjoint_Some_l.
  - intros [H H']. destruct (Hc (AccountNonce tx)) as [[tx' Htx']|[tx' Htx']]; [by eexists| |congruence].
    pose proof (lookup_weaken _ _ _ _ Htx' Hm). congruence.
Qed.

Lemma below_from_split m t k : is_Some ((m : gmap Z txdata) !! k) → is_Some (below t m !! k) ∨ is_Some (from t m !! k).
Proof.
  intros [tx H]. destruct (decide (k < t)); [left|right]; exists tx; apply map_lookup_filter_Some; split; try done. lia.
Qed.

Lemma below_from_disjoint m t : below t m ##ₘ from t m.
Proof. apply map_disjoint_spec. intros k x y [_ H1]%map_lookup_filter_Some [_ H2]%map_lookup_filter_Some. lia. Qed.

(** Keeping what is from a nonce on, or what is below. *)
Lemma takes_below l l' t :
  list_ok l → list_ok l' → strict l' = strict l → held l' = from t (held l) → takes l (txs_of (below t (held l))) l'.
Proof.
  intros Hl Hl' Hs E. eapply takes_split; try done.
  - rewrite E. apply map_filter_subseteq.
  - apply map_filter_subseteq.
  - rewrite E. apply below_from_disjoint.
  - intros k. rewrite E. apply below_from_split.
Qed.

Lemma takes_from l gone l' t :
  list_ok l → list_ok l' → strict l' = strict l → held l' = below t (held l) → gone ≡ₚ txs_of (from t (held l)) → takes l gone l'.
Proof.
  intros Hl Hl' Hs E Hg. eapply takes_split; try done.
  - rewrite E. apply map_filter_subseteq.
  - apply map_filter_subseteq.
  - rewrite E. symmetry. apply below_from_disjoint.
  - intros k Hk. rewrite E. destruct (below_from_split _ t k Hk); [by right|by left].
Qed.

Lemma takes_nothing l : list_ok l → takes l [] l.
Proof.
  intros Hl. split; try done; [|constructor]. intros tx. rewrite elem_of_nil. split; [done|]. intros [? ?]. congruence.
Qed.

Lemma takes_filter l gone l' (f : txdata → bool) :
  list_ok l → list_ok l' → strict l' = strict l → gone ≡ₚ filter (λ tx, f tx = true) (txs_of (held l)) →
  held l' = filter (λ '(_, tx), f tx = false) (held l) → takes l gone l'.
Proof.
  intros Hl Hl' Hs Hg E. pose proof (ok_nonces _ (lo_txs l Hl)) as Hn.
  rewrite <- txs_of_filter in Hg by done. eapply takes_split; try done.
  - rewrite E. apply map_filter_subseteq.
  - apply map_filter_subseteq.
  - rewrite E. apply map_disjoint_spec. intros k x y [Hx H1]%map_lookup_filter_Some [Hy H2]%map_lookup_filter_Some. congruence.
  - intros k [tx Hk]. rewrite E. destruct (f tx) eqn:Ef; [left|right]; exists tx; by apply map_lookup_filter_Some.
Qed.

(** The transactions come out in order, and a prefix stays. *)
Lemma takes_cap l l' n :
  list_ok l → list_ok l' → strict l' = strict l → held l' ⊆ held l → txs_of (held l') = take n (txs_of (held l)) →
  takes l (reverse (drop n (txs_of (held l)))) l'.
Proof.
  intros Hl Hl' Hs Hsub E. pose proof (ok_nonces _ (lo_txs l Hl)) as Hn. pose proof (ok_nonces _ (lo_txs l' Hl')) as Hn'.
  pose proof (txs_of_NoDup _ Hn) as Hnd. rewrite <- (take_drop n (txs_of (held l))), fmap_app in Hnd.
  apply NoDup_app in Hnd as (Hnd1 & Hnd2 & Hnd3).
  assert (Hin' : ∀ tx, tx ∈ take n (txs_of (held l)) ↔ held l' !! AccountNonce tx = Some tx).
  { intros tx. rewrite <- E. by apply elem_of_txs_of. }
  split; try done; [|rewrite reverse_Permutation; by eapply NoDup_fmap_1].
  intros tx. rewrite elem_of_reverse. split.
  - intros Hd. assert (Hin : tx ∈ txs_of (held l)) by (rewrite <- (take_drop n (txs_of (held l))); by apply elem_of_app; right).
    split; [by apply elem_of_txs_of|]. destruct (held l' !! AccountNonce tx) as [tx'|] eqn:E'; [|done].
    destruct (Hn' _ _ E') as [En _]. assert (tx' ∈ take n (txs_of (held l))) as Ht by (apply Hin'; by rewrite En).
    exfalso. apply (Hnd2 (AccountNonce tx)); [rewrite <- En|]; by apply list_elem_of_fmap_2.
  - intros [H1 H2]. apply elem_of_txs_of in H1; [|done]. rewrite <- (take_drop n (txs_of (held l))) in H1.
    apply elem_of_app in H1 as [H1|H1]; [|done]. apply Hin' in H1. congruence.
Qed.

Lemma filter_split (f : txdata → bool) (l : list txdata) : filter (λ tx, f tx = true) l ++ filter (λ tx, f tx = false) l ≡ₚ l.
Proof.
  induction l as [|tx l IH]; [done|]. rewrite !filter_cons. destruct (f tx).
  - rewrite decide_True, decide_False by done. simpl. by rewrite IH.
  - rewrite decide_False, decide_True by done. by rewrite <- Permutation_middle, IH.
Qed.

(** The costly ones are among those from the lowest on. *)
Lemma costly_from m (f : txdata → bool) t :
  by_nonce m → (∀ k tx, m !! k = Some tx → f tx = true → t ≤ k) →
  filter (λ tx, f tx = true) (txs_of m) = filter (λ tx, f tx = true) (txs_of (from t m)).
Proof.
  intros Hn Ht. rewrite (txs_of_split m t) by done. rewrite filter_app, (list_eq_nil_2 (filter _ (txs_of (below t m)))); [done|].
  intros tx [Hf Hin]%list_elem_of_filter. apply elem_of_txs_of in Hin; [|by apply by_nonce_filter].
  apply map_lookup_filter_Some in Hin as [Hin Hlt]. pose proof (Ht _ _ Hin Hf). lia.
Qed.

(** What [Filter] takes from a strict list. *)
Lemma takes_strict l (removed invalids : list txdata) l' (f : txdata → bool) t :
  list_ok l → list_ok l' → strict l' = strict l → held l' = below t (held l) →
  removed ≡ₚ filter (λ tx, f tx = true) (txs_of (held l)) → invalids ≡ₚ filter (λ tx, f tx = false) (txs_of (from t (held l))) →
  (∀ k tx, held l !! k = Some tx → f tx = true → t ≤ k) → takes l (removed ++ invalids) l'.
Proof.
  intros Hl Hl' Hs E Hr Hi Ht. pose proof (ok_nonces _ (lo_txs l Hl)) as Hn. apply (takes_from l _ l' t); try done.
  rewrite Hr, Hi, (costly_from _ _ t Hn Ht). apply filter_split.
Qed.

(** Taking out one transaction. *)
Definition without (l : txList) (nonce : Z) : txList := put_txs l (sm_Remove (txs l) nonce).2.

Lemma takes_one l old nonce :
  list_ok l → held l !! nonce = Some old → takes l [old] (without l nonce) ∧ held (without l nonce) = delete nonce (held l).
Proof.
  intros Hl Ho. unfold without. pose proof (sm_Remove_spec (txs l) nonce (lo_txs l Hl)) as Hr.
  destruct (sm_Remove (txs l) nonce) as [b m]. destruct Hr as (_ & Hi & Hm). simpl in *. split; [|done].
  destruct (ok_nonces _ (lo_txs l Hl) _ _ Ho) as [En _]. split; simpl; [|done| | |by apply NoDup_singleton].
  - apply list_less; [done..|]. rewrite Hi. apply delete_subseteq.
  - rewrite Hi. apply delete_subseteq.
  - intros tx. rewrite list_elem_of_singleton, Hi, lookup_delete_None. split.
    + intros ->. split; [by rewrite En|by left].
    + intros [H1 [E|H2]]; [|congruence]. rewrite <- E, Ho in H1. congruence.
Qed.
