(* ===== verification/TxListRef.v ===== *)
(** * Lists of transactions refine maps

    The lists of the pool keep a heap of nonces, a sorted copy and two caps
    beside their map.  None of it shows: every operation does to the map what
    it says. *)

From Stdlib Require Import ZArith Lia.
From stdpp Require Import base option list gmap sets strings sorting.
From S2P Require Import Prelude Rlp Types Heap TxList TxListProps.

Section Refine.
Context {NO : NonceOrder}.

Inductive list_op :=
  | OpAdd (tx : txdata) (bump : Z)
  | OpForward (threshold : Z)
  | OpFilter (balance gas : Z)
  | OpCap (threshold : Z)
  | OpRemove (tx : txdata)
  | OpReady (start : Z)
  | OpFlatten.

(** What an operation returns, and the list after it. *)
Definition run_op (l : txList) (o : list_op) : result (list txdata * txList) :=
  match o with
  | OpAdd tx bump => let '(_, old, l) := l_Add l tx bump in Ok (option_list old, l)
  | OpForward t => l_Forward l t
  | OpFilter b g => let '(removed, invalids, l) := l_Filter l b g in Ok (removed ++ invalids, l)
  | OpCap t => l_Cap l t
  | OpRemove tx => let '(_, invalids, l) := l_Remove l tx in Ok (invalids, l)
  | OpReady start => l_Ready l start
  | OpFlatten => Ok (l_Flatten l)
  end.

Definition op_ok (o : list_op) : Prop :=
  match o with
  | OpAdd tx _ => is_u64 (AccountNonce tx) ∧ 0 ≤ Amount tx
  | OpCap t => 0 ≤ t
  | _ => True
  end.

(** A replacement must be dearer than the old one, by [bump] percent. *)
Definition bumped (old tx : txdata) (bump : Z) : Prop :=
  Price old < Price tx ∧ Price old * i64 (100 + i64 bump) / 100 ≤ Price tx.

(** The operations on a map from nonces to transactions. *)
Inductive map_step (strict : bool) (m : gmap Z txdata) : list_op → list txdata → gmap Z txdata → Prop :=
  | step_add tx bump :
      (∀ old, m !! AccountNonce tx = Some old → bumped old tx bump) →
      map_step strict m (OpAdd tx bump) (option_list (m !! AccountNonce tx)) (<[AccountNonce tx := tx]> m)
  | step_refuse tx bump old :
      m !! AccountNonce tx = Some old → ¬ bumped old tx bump → map_step strict m (OpAdd tx bump) [] m
  | step_forward t : map_step strict m (OpForward t) (txs_of (below t m)) (from t m)
  | step_filter b g gone :
      strict = false → gone ≡ₚ txs_of (filter (λ '(_, tx), too_costly b g tx = true) m) →
      map_step strict m (OpFilter b g) gone (filter (λ '(_, tx), too_costly b g tx = false) m)
  | step_filter_strict b g t gone :
      strict = true → (∀ k tx, m !! k = Some tx → k < t → too_costly b g tx = false) →
      (∃ tx, m !! t = Some tx ∧ too_costly b g tx = true) ∨ from t m = ∅ → gone ≡ₚ txs_of (from t m) →
      map_step strict m (OpFilter b g) gone (below t m)
  | step_cap t m' :
      m' ⊆ m → txs_of m' = take (Z.to_nat t) (txs_of m) →
      map_step strict m (OpCap t) (reverse (drop (Z.to_nat t) (txs_of m))) m'
  | step_remove tx gone :
      is_Some (m !! AccountNonce tx) →
      (if strict then gone ≡ₚ txs_of (from (AccountNonce tx + 1) m) else gone = []) →
      map_step strict m (OpRemove tx) gone (if strict then below (AccountNonce tx) m else delete (AccountNonce tx) m)
  | step_absent tx : m !! AccountNonce tx = None → map_step strict m (OpRemove tx) [] m
  | step_ready start x n : ready_run m start x n → map_step strict m (OpReady start) (txs_of (below (x + n) m)) (from (x + n) m)
  | step_not_ready start : (∀ k, k ∈ dom m → start < k) → map_step strict m (OpReady start) [] m
  | step_flatten : map_step strict m OpFlatten (txs_of m) m.

(** The lists an account may have. *)
Inductive list_reached (strict : bool) : txList → Prop :=
  | reached_new : list_reached strict (newTxList strict)
  | reached_op l o out l' : list_reached strict l → op_ok o → run_op l o = Ok (out, l') → list_reached strict l'.

Lemma run_Add l tx bump :
  list_ok l → is_u64 (AccountNonce tx) → 0 ≤ Amount tx →
  let '(_, old, l') := l_Add l tx bump in
  list_ok l' ∧ TxList.strict l' = TxList.strict l ∧ map_step (TxList.strict l) (held l) (OpAdd tx bump) (option_list old) (held l').
Proof using.
  intros Hl Hu Ha. pose proof (l_Add_spec l tx bump Hl Hu Ha) as H. unfold l_Add, sm_Get in *.
  set (refused := match held l !! AccountNonce tx with Some o => _ | None => false end) in *. destruct refused eqn:E.
  - split_and!; [done|done|]. unfold refused in E. destruct (held l !! AccountNonce tx) as [o|] eqn:Eo; [|done].
    apply (step_refuse _ _ tx bump o); [done|]. unfold bumped. apply orb_true_iff in E as [?%Z.leb_le|?%Z.ltb_lt]; lia.
  - destruct H as (Hl' & Hs & _ & Eh & _). split_and!; [done|done|]. rewrite Eh. apply step_add. intros o Ho. unfold refused in E.
    rewrite Ho in E. apply orb_false_iff in E as [?%Z.leb_gt ?%Z.ltb_ge]. split; lia.
Qed.

Lemma run_Filter l b g :
  list_ok l →
  let '(removed, invalids, l') := l_Filter l b g in
  list_ok l' ∧ TxList.strict l' = TxList.strict l ∧ map_step (TxList.strict l) (held l) (OpFilter b g) (removed ++ invalids) (held l').
Proof using.
  intros Hl. pose proof (l_Filter_spec l b g Hl) as Hf. pose proof (ok_nonces _ (lo_txs l Hl)) as Hn.
  destruct (l_Filter l b g) as [[removed invalids] l']. destruct Hf as (Hr & Hl' & Hs & Hf). split_and!; [done|done|].
  destruct (TxList.strict l) eqn:Es.
  - destruct Hf as (t & -> & Hi & Ht & Hlow). apply step_filter_strict; [done| |done|].
    + intros k tx Hk Hlt. destruct (too_costly b g tx) eqn:E; [|done]. pose proof (Ht _ _ Hk E). lia.
    + rewrite Hr, Hi, (costly_from _ _ t Hn Ht). apply filter_split.
  - destruct Hf as [-> ->]. apply step_filter; [done|]. by rewrite app_nil_r, Hr, txs_of_filter.
Qed.

(** Every operation keeps the invariant of the list and is one on its map. *)
Lemma run_op_ok l o :
  list_ok l → op_ok o →
  ∃ out l', run_op l o = Ok (out, l') ∧ list_ok l' ∧ TxList.strict l' = TxList.strict l ∧
            map_step (TxList.strict l) (held l) o out (held l').
Proof using.
  intros Hl Ho. destruct o as [tx bump|t|b g|t|tx|start|]; cbn [run_op op_ok] in *.
  - destruct Ho as [Hu Ha]. pose proof (run_Add l tx bump Hl Hu Ha) as H. destruct (l_Add l tx bump) as [[i old] l']. by eexists _, l'.
  - destruct (l_Forward_spec l t Hl) as (l' & -> & Hl' & Hs & Eh). eexists _, l'. split_and!; try done. rewrite Eh. constructor.
  - pose proof (run_Filter l b g Hl) as H. destruct (l_Filter l b g) as [[removed invalids] l']. by eexists _, l'.
  - destruct (l_Cap_spec l t Hl Ho) as (l' & -> & Hl' & Hs & Hsub & Et). eexists _, l'. split_and!; try done. by constructor.
  - pose proof (l_Remove_spec l tx Hl) as H. cbv zeta in H. destruct (l_Remove l tx) as [[removed invalids] l'].
    destruct H as (-> & Hl' & Hs & H). eexists _, l'. split_and!; try done. case_bool_decide as Hin.
    + destruct (TxList.strict l); destruct H as [-> Hi]; [by apply (step_remove true)|by apply (step_remove false)].
    + destruct H as [-> ->]. apply step_absent. by destruct (held l !! AccountNonce tx); [destruct Hin|].
  - destruct (l_Ready_spec l start Hl) as [[-> Hr]|(x & n & l' & Hr & -> & Hl' & Hs & Eh)].
    + eexists _, l. split_and!; try done. by constructor.
    + eexists _, l'. split_and!; try done. rewrite Eh. by constructor.
  - pose proof (l_Flatten_spec l Hl) as H. destruct (l_Flatten l) as [c l']. destruct H as (-> & Hl' & Hs & Eh).
    eexists _, l'. split_and!; try done. rewrite Eh. constructor.
Qed.

Lemma list_reached_ok b l : list_reached b l → list_ok l ∧ TxList.strict l = b.
Proof using.
  induction 1 as [|l o out l' _ [Hl Hs] Ho E]; [split; [apply list_new|done]|].
  destruct (run_op_ok l o Hl Ho) as (out' & l1 & E' & Hl1 & Hs1 & _). rewrite E in E'. injection E' as -> ->. by rewrite Hs1.
Qed.

End Refine.

Module ToyList.
#[local] Instance toyNonces : NonceOrder := {| range_nonces := elements; range_nonces_perm s := reflexivity _ |}.

Definition tx (nonce price : Z) : txdata := {|
  AccountNonce := nonce; Price := price; TxGasLimit := 21000; Recipient := None; Amount := 1; Payload := [];
  Base := Main; Target := Main; V := 27; R := 1; S_ := 1
|}.

(** Two transactions, of which the first cannot be paid. *)
Definition two : txList := (l_Add (l_Add (newTxList true) (tx 3 9) 10).2 (tx 4 1) 10).2.

Lemma two_reached : list_reached true two.
Proof.
  eapply (reached_op true (l_Add (newTxList true) (tx 3 9) 10).2 (OpAdd (tx 4 1) 10)); [|split; done|reflexivity].
  eapply (reached_op true (newTxList true) (OpAdd (tx 3 9) 10)); [apply reached_new|split; done|reflexivity].
Qed.

End ToyList.
