(* ===== verification/Receipt.v ===== *)
(** * Receipts and the log bloom filter ([core/types/receipt.go], [bloom9.go])

    A receipt carries the logs of a transaction and a 2048-bit filter over
    their addresses and topics.  The theorem is the contract of the filter:
    looking up what was added never fails. *)

From Stdlib Require Import ZArith Lia.
From stdpp Require Import base option list gmap strings.
From S2P Require Import Prelude Types Account State.

Definition BloomByteLength : nat := 256.
Definition ReceiptStatusFailed : Z := 0.
Definition ReceiptStatusSuccessful : Z := 1.

Record Receipt := {
  PostState : bytes;
  Status : Z;
  CumulativeGasUsed : Z;
  rcpt_Bloom : bytes;
  rcpt_Logs : list Log;
  rcpt_TxHash : Hash;
  ContractAddress : Address;
  rcpt_GasUsed : Z
}.

Definition NewReceipt (root : bytes) (failed : bool) (cumulativeGasUsed : Z) : Receipt := {|
  PostState := root;
  Status := if failed then ReceiptStatusFailed else ReceiptStatusSuccessful;
  CumulativeGasUsed := cumulativeGasUsed;
  rcpt_Bloom := replicate BloomByteLength 0;
  rcpt_Logs := []; rcpt_TxHash := zeroHash; ContractAddress := zeroAddress; rcpt_GasUsed := 0
|}.

Section Bloom.
Context {C : Crypto}.

(** The bit that the bytes [i] and [i+1] of the digest select. *)
Definition bloom_bit (b : bytes) (i : nat) : Z :=
  Z.land (default 0 (b !! S i) + Z.shiftl (default 0 (b !! i)) 8) 2047.

Definition bloom9 (b : bytes) : Z :=
  let b := Keccak256 b in
  Z.lor (Z.lor (Z.lor 0 (Z.shiftl 1 (bloom_bit b 0))) (Z.shiftl 1 (bloom_bit b 2)))
        (Z.shiftl 1 (bloom_bit b 4)).

Definition LogBloom (bin : Z) (log : Log) : Z :=
  foldl (λ bin b, Z.lor bin (bloom9 b)) (Z.lor bin (bloom9 (log_Address log))) (log_Topics log).

Definition LogsBloom (logs : list Log) : Z := foldl LogBloom 0 logs.

(** [BytesToBloom] panics on more than 256 bytes and pads on the left. *)
Definition BytesToBloom (b : bytes) : result bytes :=
  if (BloomByteLength <? length b)%nat then Panic "bloom bytes too big"
  else Ok (replicate (BloomByteLength - length b) 0 ++ b).

Definition CreateBloom (receipts : list Receipt) : result bytes :=
  BytesToBloom (Z_be (foldl (λ bin r, Z.lor bin (LogsBloom (rcpt_Logs r))) 0 receipts)).

Definition BloomLookup (bin : bytes) (topic : bytes) : bool :=
  let cmp := bloom9 topic in Z.land (be_Z bin) cmp =? cmp.

(** ** Lemmas *)

(** [a] has all the bits of [b]. *)
Definition covers (a b : Z) : Prop := Z.land a b = b.

Lemma covers_lor_l a b c : covers a c → covers (Z.lor a b) c.
Proof.
  unfold covers. intros H. rewrite Z.land_lor_distr_l, H. apply Z.bits_inj'. intros n _.
  rewrite Z.lor_spec, Z.land_spec. by destruct (Z.testbit b n), (Z.testbit c n).
Qed.

Lemma covers_lor_r a c : covers (Z.lor a c) c.
Proof.
  unfold covers. apply Z.bits_inj'. intros n _. rewrite Z.land_spec, Z.lor_spec.
  by destruct (Z.testbit a n), (Z.testbit c n).
Qed.

Lemma covers_trans a b c : covers a b → covers b c → covers a c.
Proof. unfold covers. intros H1 H2. by rewrite <- H2 at 1; rewrite Z.land_assoc, H1. Qed.

(** A fold of disjunctions covers its start and every operand. *)
Lemma covers_foldl {A} (f : A → Z) (g : Z → A → Z) (l : list A) bin :
  (∀ bin x, covers (g bin x) bin ∧ covers (g bin x) (f x)) →
  covers (foldl g bin l) bin ∧ ∀ x, x ∈ l → covers (foldl g bin l) (f x).
Proof.
  intros Hg. revert bin. induction l as [|x l IH]; intros bin; simpl.
  - split; [unfold covers; apply Z.land_diag|set_solver].
  - destruct (IH (g bin x)) as [H1 H2], (Hg bin x) as [H3 H4].
    split; [by eapply covers_trans|]. intros y Hy. apply elem_of_cons in Hy as [->|Hy]; [|by apply H2].
    by eapply covers_trans.
Qed.

Lemma covers_topics topics bin :
  let r := foldl (λ bin b, Z.lor bin (bloom9 b)) bin topics in
  covers r bin ∧ ∀ t, t ∈ topics → covers r (bloom9 t).
Proof.
  apply (covers_foldl bloom9). intros b x. split; [apply covers_lor_l, Z.land_diag|apply covers_lor_r].
Qed.

(** What a log adds. *)
Definition log_keys (log : Log) : list bytes := log_Address log :: log_Topics log.

Lemma covers_LogBloom bin log k :
  covers (LogBloom bin log) bin ∧ (k ∈ log_keys log → covers (LogBloom bin log) (bloom9 k)).
Proof.
  unfold LogBloom, log_keys.
  destruct (covers_topics (log_Topics log) (Z.lor bin (bloom9 (log_Address log)))) as [H1 H2].
  split; [eapply covers_trans; [exact H1|apply covers_lor_l, Z.land_diag]|].
  intros Hk. apply elem_of_cons in Hk as [->|Hk]; [|by apply H2].
  eapply covers_trans; [exact H1|apply covers_lor_r].
Qed.

Lemma covers_LogsBloom logs log k :
  log ∈ logs → k ∈ log_keys log → covers (LogsBloom logs) (bloom9 k).
Proof.
  intros Hl Hk. unfold LogsBloom. apply list_elem_of_split in Hl as (l1 & l2 & ->).
  rewrite foldl_app. simpl. set (b := foldl LogBloom 0 l1).
  destruct (covers_foldl (λ _ : Log, 0) LogBloom l2 (LogBloom b log)) as [H1 _].
  { intros bin x. split; [apply (covers_LogBloom bin x [])|apply Z.land_0_r]. }
  eapply covers_trans; [exact H1|]. by apply covers_LogBloom.
Qed.

(** All bits are below 2048. *)
Lemma bloom_bit_range b i : 0 ≤ bloom_bit b i < 2048.
Proof.
  unfold bloom_bit. change 2047 with (Z.ones 11). rewrite Z.land_ones by lia.
  apply Z.mod_pos_bound. lia.
Qed.

Definition bloom_sized (z : Z) : Prop := 0 ≤ z < 2 ^ 2048.

Lemma bloom_sized_lor a b : bloom_sized a → bloom_sized b → bloom_sized (Z.lor a b).
Proof.
  unfold bloom_sized. intros Ha Hb. split; [apply Z.lor_nonneg; lia|].
  destruct (decide (Z.lor a b = 0)) as [->|]; [apply Z.pow_pos_nonneg; lia|].
  assert (0 ≤ Z.lor a b) by (apply Z.lor_nonneg; lia).
  apply Z.log2_lt_pow2; [lia|]. rewrite Z.log2_lor by lia.
  assert (Hl : ∀ x, 0 ≤ x < 2 ^ 2048 → Z.log2 x < 2048).
  { intros x Hx. destruct (decide (x = 0)) as [->|]; [by vm_compute|]. apply Z.log2_lt_pow2; lia. }
  apply Z.max_lub_lt; by apply Hl.
Qed.

Lemma bloom9_sized b : bloom_sized (bloom9 b).
Proof.
  assert (Hb : ∀ i, bloom_sized (Z.shiftl 1 (bloom_bit (Keccak256 b) i))).
  { intros i. pose proof (bloom_bit_range (Keccak256 b) i). unfold bloom_sized.
    rewrite Z.shiftl_1_l. split; [apply Z.pow_nonneg; lia|apply Z.pow_lt_mono_r; lia]. }
  unfold bloom9. repeat apply bloom_sized_lor; auto. unfold bloom_sized. split; [lia|apply Z.pow_pos_nonneg; lia].
Qed.

Lemma foldl_sized {A} (g : Z → A → Z) l bin :
  (∀ b x, bloom_sized b → bloom_sized (g b x)) → bloom_sized bin → bloom_sized (foldl g bin l).
Proof. intros Hg. revert bin. induction l as [|x l IH]; intros bin Hb; simpl; [done|]. apply IH, Hg, Hb. Qed.

Lemma LogsBloom_sized logs : bloom_sized (LogsBloom logs).
Proof.
  unfold LogsBloom. apply foldl_sized; [|unfold bloom_sized; split; [lia|apply Z.pow_pos_nonneg; lia]].
  intros b log Hb. unfold LogBloom. apply foldl_sized; [|by apply bloom_sized_lor, bloom9_sized].
  intros b' t Hb'. by apply bloom_sized_lor, bloom9_sized.
Qed.

Lemma CreateBloom_value receipts :
  ∃ bin, CreateBloom receipts = Ok bin ∧ length bin = BloomByteLength ∧
         be_Z bin = foldl (λ bin r, Z.lor bin (LogsBloom (rcpt_Logs r))) 0 receipts.
Proof.
  unfold CreateBloom, BytesToBloom. set (z := foldl _ 0 receipts).
  assert (Hz : bloom_sized z).
  { apply foldl_sized; [|unfold bloom_sized; split; [lia|apply Z.pow_pos_nonneg; lia]].
    intros b r Hb. by apply bloom_sized_lor, LogsBloom_sized. }
  assert (Hl : (length (Z_be z) ≤ BloomByteLength)%nat).
  { apply Z_be_length. unfold bloom_sized in Hz. unfold BloomByteLength.
    change 256 with (2 ^ 8). rewrite <- Z.pow_mul_r by lia. exact Hz. }
  rewrite (proj2 (Nat.ltb_ge _ _)) by done. eexists. split; [done|].
  rewrite length_app, length_replicate, be_Z_zeros, be_Z_be by apply Hz. split; [lia|done].
Qed.

(** The bloom filter of a block has no false negatives: [CreateBloom]
    succeeds on every list of receipts, and the address and every topic of
    every log in the receipts is found in the filter. *)
Theorem CreateBloom_no_false_negatives (receipts : list Receipt) :
  ∃ bin, CreateBloom receipts = Ok bin ∧ length bin = BloomByteLength ∧
    ∀ r log k, r ∈ receipts → log ∈ rcpt_Logs r → k ∈ log_Address log :: log_Topics log →
               BloomLookup bin k = true.
Proof.
  destruct (CreateBloom_value receipts) as (bin & Hc & Hl & Hv). exists bin. split; [done|].
  split; [done|]. intros r log k Hr Hlog Hk. unfold BloomLookup. rewrite Hv. apply Z.eqb_eq.
  change (covers (foldl (λ bin r, Z.lor bin (LogsBloom (rcpt_Logs r))) 0 receipts) (bloom9 k)).
  destruct (covers_foldl (λ r, LogsBloom (rcpt_Logs r))
    (λ bin r, Z.lor bin (LogsBloom (rcpt_Logs r))) receipts 0) as [_ H].
  { intros b x. split; [apply covers_lor_l, Z.land_diag|apply covers_lor_r]. }
  eapply covers_trans; [by apply H|]. by eapply covers_LogsBloom.
Qed.
End Bloom.
