(* ===== verification/DeriveSha.v ===== *)
(** * The roots of a block body ([core/types/derive_sha.go], [receipt.go], [log.go])

    The transactions and the receipts of a block are committed to by the root
    of a trie that stores their encodings under their positions.  The root
    determines them, as long as the hash has no collision among the nodes. *)

From Stdlib Require Import ZArith Lia.
From stdpp Require Import base option list gmap strings.
From S2P Require Import Prelude Rlp RlpStream Types Account State Receipt.
From S2P Require Import Trie TrieKeys TrieProps TrieHash TrieDecode TrieMove TrieCommit.

(** ** Encodings *)

Definition Log_item (l : Log) : item :=
  RList [RStr (log_Address l); RList (RStr <$> log_Topics l); RStr (log_Data l)].

Definition statusEncoding (r : Receipt) : bytes :=
  match PostState r with
  | [] => if Status r =? ReceiptStatusFailed then [] else [1]
  | root => root
  end.

Definition Receipt_item (r : Receipt) : item :=
  RList [RStr (statusEncoding r); RUint (CumulativeGasUsed r); RStr (rcpt_Bloom r); RList (Log_item <$> rcpt_Logs r)].

Definition Receipts_GetRlp (rs : list Receipt) : list bytes := (λ r, rlp_encode (Receipt_item r)) <$> rs.

Definition Transactions_GetRlp (txs : list txdata) : list bytes := (λ tx, rlp_encode (RList (Tx_fields tx))) <$> txs.

(** ** The root *)

Section Derive.
Context {C : Crypto}.

(** [new(trie.Trie)] has no database; none of its nodes is ever unloaded. *)
Definition new_trie : Trie.Trie := {| root := Nil; cachegen := 0; cachelimit := 0 |}.
Definition no_db : TrieDB := {| Trie.dirties := ∅; diskdb := ∅; Trie.preimages := ∅ |}.

(** [Trie.Update] logs an error and goes on. *)
Definition trie_Update (t : Trie.Trie) (key value : bytes) : result Trie.Trie :=
  match Trie.TryUpdate no_db t key value with
  | Err _ => Ok t
  | r => r
  end.

Fixpoint derive (i : Z) (list : list bytes) (t : Trie.Trie) : result Trie.Trie :=
  match list with
  | [] => Ok t
  | v :: list => let* t := trie_Update t (rlp_encode (RUint i)) v in derive (i + 1) list t
  end.

Definition DeriveSha (list : list bytes) : result Hash :=
  let* t := derive 0 list new_trie in
  let* (h, _) := Trie.Trie_Hash t in Ok h.

(** ** What it commits to *)

(** The values under their positions from [i]. *)
Fixpoint placed (i : Z) (l : list bytes) (m : gmap bytes bytes) : gmap bytes bytes :=
  match l with
  | [] => m
  | v :: l => placed (i + 1) l (<[rlp_encode (RUint i) := v]> m)
  end.

Lemma position_small i : is_u64 i → (length (if (i =? 0)%Z then [] else Z_be i) ≤ 8)%nat.
Proof using. intros Hi. destruct (i =? 0); [simpl; lia|]. apply Z_be_length. exact Hi. Qed.

Lemma encode_short b : wf_bytes b → (length b ≤ 8)%nat → wf_bytes (encodeString b) ∧ (length (encodeString b) ≤ 9)%nat.
Proof using.
  intros Hb Hl. assert (Hh : ∀ n, (n ≤ 8)%nat → wf_bytes (encodeStringHeader (Z.of_nat n)) ∧ length (encodeStringHeader (Z.of_nat n)) = 1%nat).
  { intros n Hn. unfold encodeStringHeader. destruct (Z.ltb_spec (Z.of_nat n) 56); [|lia]. split; [|done].
    constructor; [|constructor]. unfold is_byte. apply Z.mod_pos_bound. lia. }
  destruct (Hh (length b) Hl) as [Hw H1]. unfold encodeString. destruct b as [|x [|y b]]; [split; [done|simpl; lia]| |].
  - destruct (x <=? 0x7F); [split; [done|simpl; lia]|]. destruct (Hh 1%nat) as [Hw1 _]; [lia|]. split; [by apply Forall_app|simpl; lia].
  - split; [by apply Forall_app|]. rewrite length_app, H1. simpl in *. lia.
Qed.

Lemma position_key i : is_u64 i → wf_bytes (rlp_encode (RUint i)) ∧ wf_item (RUint i) ∧ sized (RUint i).
Proof using.
  intros Hi. assert (Hw : wf_bytes (if i =? 0 then [] else Z_be i)) by (destruct (i =? 0); [constructor|apply wf_Z_be]).
  destruct (encode_short _ Hw (position_small i Hi)) as [H1 H2]. split_and!; [done|done|].
  unfold sized, RUint. cbn [rlp_encode]. unfold two64. lia.
Qed.

Lemma position_inj i j : is_u64 i → is_u64 j → rlp_encode (RUint i) = rlp_encode (RUint j) → i = j.
Proof using.
  intros Hi Hj E. destruct (position_key i Hi) as (_ & Wi & Si), (position_key j Hj) as (_ & Wj & Sj).
  pose proof (DecodeItem_encode _ Wi Si) as Di. rewrite E, (DecodeItem_encode _ Wj Sj) in Di. injection Di as Di.
  destruct Hi, Hj. destruct (Z.eqb_spec i 0), (Z.eqb_spec j 0); subst; try done.
  - rewrite <- (be_Z_be j), Di by done. done.
  - rewrite <- (be_Z_be i), <- Di by done. done.
  - rewrite <- (be_Z_be i), <- (be_Z_be j), Di by done. done.
Qed.

Lemma placed_below i l m k :
  0 ≤ k < i → i + Z.of_nat (length l) ≤ two64 → placed i l m !! rlp_encode (RUint k) = m !! rlp_encode (RUint k).
Proof using.
  revert i m. induction l as [|v l IH]; intros i m Hk Hl; [done|]. cbn [placed length] in *. rewrite IH by lia.
  apply lookup_insert_ne. intros E%position_inj; [lia|split; lia..].
Qed.

(** The map has the values at their positions, and nothing else. *)
Lemma placed_spec l (k : nat) :
  Z.of_nat (length l) < two64 → (k ≤ length l)%nat → placed 0 l ∅ !! rlp_encode (RUint (Z.of_nat k)) = l !! k.
Proof using.
  intros Hl Hk. assert (H : ∀ i m, i + Z.of_nat (length l) < two64 → 0 ≤ i → m !! rlp_encode (RUint (i + Z.of_nat (length l))) = None →
    placed i l m !! rlp_encode (RUint (i + Z.of_nat k)) = l !! k).
  { clear Hl. revert k Hk. induction l as [|v l IH]; intros k Hk i m Hl Hi Hm; cbn [placed length] in *.
    - destruct k; [|simpl in Hk; lia]. simpl in *. done.
    - destruct k as [|k].
      + rewrite Z.add_0_r, placed_below by lia. by rewrite lookup_insert_eq.
      + replace (i + Z.of_nat (S k)) with (i + 1 + Z.of_nat k) by lia. rewrite IH; [done|lia..|].
        replace (i + 1 + Z.of_nat (length l)) with (i + Z.of_nat (S (length l))) by lia.
        rewrite lookup_insert_ne; [done|]. intros E%position_inj; [lia|split; lia..]. }
  apply (H 0 ∅); [lia|lia|done].
Qed.

Lemma placed_inj l1 l2 :
  Z.of_nat (length l1) < two64 → Z.of_nat (length l2) < two64 → placed 0 l1 ∅ = placed 0 l2 ∅ → l1 = l2.
Proof using.
  assert (Hlt : ∀ a b, Z.of_nat (length a) < two64 → Z.of_nat (length b) < two64 → placed 0 a ∅ = placed 0 b ∅ → (length a ≤ length b)%nat).
  { intros a b Ha Hb E. destruct (Nat.le_gt_cases (length a) (length b)) as [|Hgt]; [done|]. exfalso.
    pose proof (placed_spec b (length b) Hb (Nat.le_refl _)) as H1. rewrite <- E, (placed_spec a (length b) Ha) in H1 by lia.
    rewrite (lookup_ge_None_2 b) in H1 by done. apply lookup_ge_None_1 in H1. lia. }
  intros H1 H2 E. assert (El : length l1 = length l2) by (apply Nat.le_antisymm; auto).
  apply list_eq. intros k. destruct (Nat.le_gt_cases (length l1) k) as [Hk|Hk].
  - rewrite !lookup_ge_None_2 by lia. done.
  - rewrite <- (placed_spec l1), <- (placed_spec l2) by lia. by rewrite E.
Qed.

Lemma derive_ok i l t m :
  0 ≤ i → i + Z.of_nat (length l) ≤ two64 → Forall (λ v, v ≠ []) l → trie_ok no_db t m →
  ∃ t', derive i l t = Ok t' ∧ trie_ok no_db t' (placed i l m).
Proof using.
  revert i t m. induction l as [|v l IH]; intros i t m Hi Hl Hv Ht; cbn [derive placed]; [by exists t|].
  apply Forall_cons in Hv as [Hv Hvs]. cbn [length] in Hl.
  destruct (update_ok no_db t m (rlp_encode (RUint i)) v Ht) as (t1 & E & Ht1); [apply position_key; split; lia|done|].
  unfold trie_Update. rewrite E. cbn [bind]. apply IH; [lia|lia|done|done].
Qed.

Lemma new_trie_ok : trie_ok no_db new_trie ∅.
Proof using.
  destruct (empty_ok no_db) as (t & E & Ht). unfold New in E. rewrite (bool_decide_eq_true_2 (emptyRoot = emptyRoot)), andb_false_r in E by done.
  injection E as <-. exact Ht.
Qed.

(** The root that [DeriveSha] returns is that of any trie that stores the values
    at their positions. *)
Lemma DeriveSha_root l :
  Z.of_nat (length l) < two64 → Forall (λ v, v ≠ []) l →
  ∃ t, trie_ok no_db t (placed 0 l ∅) ∧ DeriveSha l = Ok (root_of (root t)) ∧ derive 0 l new_trie = Ok t.
Proof using.
  intros Hl Hv. destruct (derive_ok 0 l new_trie ∅) as (t & E & Ht); [lia|lia|done|apply new_trie_ok|].
  destruct (Trie_Hash_ok no_db t _ Ht) as (t' & Eh & _). exists t. split_and!; [done| |done].
  unfold DeriveSha. rewrite E. cbn [bind]. by rewrite Eh.
Qed.

Lemma encoded_list_nonempty l : rlp_encode (RList l) ≠ [].
Proof using. cbn [rlp_encode]. unfold puthead. destruct (_ <? 56); done. Qed.

Lemma GetRlp_nonempty {A} (f : A → list item) (l : list A) : Forall (λ v, v ≠ []) ((λ x, rlp_encode (RList (f x))) <$> l).
Proof using. apply Forall_fmap, Forall_forall. intros x _. apply encoded_list_nonempty. Qed.

(** ** Roots determine contents *)

Context (B : bytes → Prop) {HB : Blobs B}.

Lemma trie_ok_fun db t m1 m2 : trie_ok db t m1 → trie_ok db t m2 → m1 = m2.
Proof using.
  intros [R1 _] [R2 _]. apply map_eq. intros key. apply option_eq. intros v.
  assert (H : ∀ a b, represents db t a → represents db t b → a !! key = Some v → b !! key = Some v).
  { intros a b Ra Rb Ha. assert (Hs : stored db (cachegen t) (root t) (keybytesToHex key) v) by (apply (rep_stored _ _ _ Ra); by exists key).
    apply (rep_stored _ _ _ Rb) in Hs as (key' & E & Hb). apply keybytesToHex_inj in E as <-; [done|exact (rep_keys _ _ _ Ra _ _ Ha)|exact (rep_keys _ _ _ Rb _ _ Hb)]. }
  split; by apply H.
Qed.

Lemma New_grows db db' r t : grows db db' → New r db = Ok t → New r db' = Ok t.
Proof using.
  intros Hg. unfold New. destruct (_ && _); [|done]. intros H. destruct (resolveHash db 0 r) as [n| | |] eqn:E; try done.
  by rewrite (Hg _ _ _ E).
Qed.

(** Two tries with one root hash store the same. *)
Lemma root_binding db t1 m1 t2 m2 :
  coherent B db → trie_ok db t1 m1 → trie_ok db t2 m2 → Forall B (blobs (root t1)) → Forall B (blobs (root t2)) →
  root_of (root t1) = root_of (root t2) → m1 = m2.
Proof using HB.
  intros Hco H1 H2 B1 B2 E. destruct (Commit_ok B db t1 m1 Hco H1 B1) as (_ & db1 & _ & Hco1 & G1 & _ & t1' & N1 & O1).
  destruct (Commit_ok B db1 t2 m2 Hco1 (grown_ok db t2 m2 db1 G1 H2) B2) as (_ & db2 & _ & _ & G2 & _ & t2' & N2 & O2).
  apply (New_grows _ _ _ _ G2) in N1. rewrite E, N2 in N1. injection N1 as ->.
  exact (trie_ok_fun db2 t1' m1 m2 (grown_ok _ _ _ _ G2 O1) O2).
Qed.

Lemma no_db_coherent : coherent B no_db.
Proof using. split; intros x c; simpl; intros H; [by rewrite lookup_empty in H|intros H'; by rewrite lookup_empty in H']. Qed.

(** The nodes of the trie of [l]. *)
Definition list_nodes (l : list bytes) : list bytes :=
  match derive 0 l new_trie with Ok t => blobs (root t) | _ => [] end.

Lemma DeriveSha_inj l1 l2 :
  Z.of_nat (length l1) < two64 → Z.of_nat (length l2) < two64 → Forall (λ v, v ≠ []) l1 → Forall (λ v, v ≠ []) l2 →
  Forall B (list_nodes l1) → Forall B (list_nodes l2) → DeriveSha l1 = DeriveSha l2 → l1 = l2.
Proof using HB.
  intros Hl1 Hl2 Hv1 Hv2 B1 B2 E. destruct (DeriveSha_root l1 Hl1 Hv1) as (t1 & O1 & E1 & D1), (DeriveSha_root l2 Hl2 Hv2) as (t2 & O2 & E2 & D2).
  rewrite E1, E2 in E. injection E as E. unfold list_nodes in B1, B2. rewrite D1 in B1. rewrite D2 in B2.
  apply placed_inj; [done|done|]. exact (root_binding no_db t1 _ t2 _ no_db_coherent O1 O2 B1 B2 E).
Qed.

(** C26: the transaction root of a block can always be computed, and it commits to
    the transactions: lists with the same root have the same encodings, hence
    the same hashes, in the same order.  [B] are the encodings of trie nodes in
    play, among which the hash has no collision. *)
Theorem transaction_root_commits txs1 txs2
    (L1 : Z.of_nat (length txs1) < two64) (L2 : Z.of_nat (length txs2) < two64)
    (B1 : Forall B (list_nodes (Transactions_GetRlp txs1))) (B2 : Forall B (list_nodes (Transactions_GetRlp txs2))) :
  ∃ r1 r2, DeriveSha (Transactions_GetRlp txs1) = Ok r1 ∧ DeriveSha (Transactions_GetRlp txs2) = Ok r2 ∧
    (r1 = r2 ↔ Transactions_GetRlp txs1 = Transactions_GetRlp txs2) ∧ (r1 = r2 → Tx_Hash <$> txs1 = Tx_Hash <$> txs2).
Proof using HB.
  assert (N : ∀ txs, Forall (λ v, v ≠ []) (Transactions_GetRlp txs)) by (intros txs; apply GetRlp_nonempty).
  assert (L : ∀ txs, length (Transactions_GetRlp txs) = length txs) by (intros txs; apply length_fmap).
  destruct (DeriveSha_root (Transactions_GetRlp txs1)) as (t1 & _ & E1 & _); [by rewrite L|done|].
  destruct (DeriveSha_root (Transactions_GetRlp txs2)) as (t2 & _ & E2 & _); [by rewrite L|done|].
  assert (H : root_of (root t1) = root_of (root t2) ↔ Transactions_GetRlp txs1 = Transactions_GetRlp txs2).
  { split; intros E; [apply DeriveSha_inj; rewrite ?L; try done; by rewrite E1, E2, E|]. rewrite E, E2 in E1. congruence. }
  eexists _, _. split_and!; [done|done|done|]. intros E%H. assert (K : ∀ txs, Tx_Hash <$> txs = Keccak256 <$> Transactions_GetRlp txs).
  { intros txs. unfold Transactions_GetRlp. by rewrite <- list_fmap_compose. }
  by rewrite !K, E.
Qed.
End Derive.

Module ToyRoots.
#[local] Instance toyCrypto : Crypto := {|
  Keccak256 b := set_bytes 32 b;
  ValidateSignatureValues _ _ _ _ := true;
  Ecrecover _ b := Ok b
|}.

Definition pay (n : Z) : txdata := {|
  AccountNonce := n; Price := 1; TxGasLimit := 21000; Recipient := None; Amount := 5; Payload := [];
  Base := Main; Target := Main; V := 27; R := 1; S_ := 1
|}.

Definition nodes : list bytes := list_nodes (Transactions_GetRlp [pay 0; pay 1]) ++ list_nodes (Transactions_GetRlp [pay 1; pay 0]).

#[local] Instance toyBlobs : Blobs (λ b, b ∈ nodes).
Proof.
  assert (H : Forall (λ b, wf_bytes b ∧ fits_memory b ∧ Keccak256 b ≠ zeroHash ∧ Keccak256 b ≠ emptyRoot) nodes).
  { set (ok := λ b : bytes, forallb (λ x, (0 <=? x) && (x <? 256)) b && (Z.of_nat (length b) <? 1000) &&
                 negb (bool_decide (Keccak256 b = zeroHash)) && negb (bool_decide (Keccak256 b = emptyRoot))).
    assert (E : forallb ok nodes = true) by (vm_compute; reflexivity). rewrite forallb_forall in E.
    apply Forall_forall. intros b Hb%list_elem_of_In%E. unfold ok in Hb. rewrite !andb_true_iff, !negb_true_iff, !bool_decide_eq_false in Hb.
    destruct Hb as [[[Hw Hl%Z.ltb_lt] Hz] He]. split_and!; [|unfold fits_memory, two64; lia|done|done].
    rewrite forallb_forall in Hw. apply Forall_forall. intros x Hx%list_elem_of_In%Hw. unfold is_byte. lia. }
  assert (I : Forall (λ a, Forall (λ b, Keccak256 a = Keccak256 b → a = b) nodes) nodes).
  { set (same := λ a b : bytes, negb (bool_decide (Keccak256 a = Keccak256 b)) || bool_decide (a = b)).
    assert (E : forallb (λ a, forallb (same a) nodes) nodes = true) by (vm_compute; reflexivity).
    rewrite forallb_forall in E. apply Forall_forall. intros a Ha%list_elem_of_In%E. rewrite forallb_forall in Ha.
    apply Forall_forall. intros b Hb%list_elem_of_In%Ha. unfold same in Hb. apply orb_true_iff in Hb as [Hb|Hb].
    - apply negb_true_iff, bool_decide_eq_false in Hb. done.
    - by apply bool_decide_eq_true in Hb. }
  rewrite Forall_forall in H, I. split.
  - intros b. apply set_bytes_length.
  - intros b Hb. by destruct (H b Hb) as (? & ? & _).
  - intros a b Ha Hb. specialize (I a Ha). rewrite Forall_forall in I. by apply I.
  - intros b Hb. by destruct (H b Hb) as (_ & _ & ? & ?).
Qed.

Lemma transaction_root_commits_witness :
  ∃ r1 r2, DeriveSha (Transactions_GetRlp [pay 0; pay 1]) = Ok r1 ∧ DeriveSha (Transactions_GetRlp [pay 1; pay 0]) = Ok r2 ∧ r1 ≠ r2.
Proof.
  destruct (transaction_root_commits (λ b, b ∈ nodes) [pay 0; pay 1] [pay 1; pay 0]) as (r1 & r2 & E1 & E2 & Hi & _).
  - done.
  - done.
  - apply Forall_forall. intros b Hb. apply elem_of_app. by left.
  - apply Forall_forall. intros b Hb. apply elem_of_app. by right.
  - exists r1, r2. split_and!; [exact E1|exact E2|]. intros E%Hi. vm_compute in E. discriminate.
Defined.
End ToyRoots.
