(* ===== verification/Funds.v ===== *)
(** * Funds in the state database

    What an account owns is its main balance and its stake.  How each
    operation of [core/state/statedb.go] moves funds, the total over a set of
    accounts, and the relation "funds are not created". *)

From Stdlib Require Import ZArith Lia.
From stdpp Require Import base option list gmap sets strings.
From S2P Require Import Prelude Rlp RlpStream Types Account State StateRevert.

Section Funds.
Context {C : Crypto} {D : Database}.

Definition bal (s : StateDB) (a : Address) : Z :=
  match lookup s a with Some o => Balance (so_data o) | None => 0 end.

Definition stk (s : StateDB) (a : Address) : Z :=
  match lookup s a with Some o => StakeBalance (so_data o) | None => 0 end.

Definition total (L : list Address) (s : StateDB) : Z :=
  foldr (λ a n, bal s a + stk s a + n) 0 L.

(** [s'] is [s] with [x] more in the main balance and [y] more in the stake of [a]. *)
Definition moves (s s' : StateDB) (a : Address) (x y : Z) : Prop := ∀ b,
  bal s' b = bal s b + (if decide (b = a) then x else 0) ∧
  stk s' b = stk s b + (if decide (b = a) then y else 0).

Definition still (s s' : StateDB) : Prop := ∀ b, bal s' b = bal s b ∧ stk s' b = stk s b.

#[export] Instance still_preorder : PreOrder still.
Proof.
  split; [by intros s b|]. intros s1 s2 s3 H1 H2 b. destruct (H1 b), (H2 b). split; congruence.
Qed.

Lemma still_sym s s' : still s s' → still s' s.
Proof. intros H b. by destruct (H b). Qed.

Lemma still_moves s s' a : still s s' → moves s s' a 0 0.
Proof. intros H b. destruct (H b) as [-> ->]. case_decide; lia. Qed.

Lemma moves_still s s' a : moves s s' a 0 0 → still s s'.
Proof. intros H b. destruct (H b) as [-> ->]. case_decide; lia. Qed.

Lemma moves_trans s1 s2 s3 a x y x' y' :
  moves s1 s2 a x y → moves s2 s3 a x' y' → moves s1 s3 a (x + x') (y + y').
Proof. intros H1 H2 b. destruct (H1 b) as [H3 H4], (H2 b) as [-> ->]. rewrite H3, H4. case_decide; lia. Qed.

Lemma still_moves_l s1 s2 s3 a x y : still s1 s2 → moves s2 s3 a x y → moves s1 s3 a x y.
Proof. intros H1 H2. by apply (moves_trans _ _ _ _ 0 0 x y (still_moves _ _ a H1)). Qed.

Lemma still_lookup s s' : (∀ b, lookup s' b = lookup s b) → still s s'.
Proof. intros H b. unfold bal, stk. by rewrite H. Qed.

Lemma still_equiv bh s s' : state_equiv bh s' s → still s s'.
Proof.
  intros H b. unfold bal, stk. pose proof (se_lookup _ _ _ H b) as Hb.
  destruct Hb as [o1 o2 Ho|]; [|done]. pose proof (oe_data _ _ _ _ Ho) as Hd.
  destruct bh; simpl in Hd; [by rewrite Hd|].
  split; [apply (f_equal Balance) in Hd|apply (f_equal StakeBalance) in Hd]; exact Hd.
Qed.

Lemma still_cached s s' a : cached s s' a → still s s'.
Proof. intros. apply still_lookup. intros b. by eapply cached_lookup. Qed.

(** ** Single operations *)

Lemma setStateObject_moves s o o' :
  lookup s (so_address o) = Some o → so_address o' = so_address o → so_deleted o' = false →
  moves s (setStateObject s o') (so_address o)
    (Balance (so_data o') - Balance (so_data o)) (StakeBalance (so_data o') - StakeBalance (so_data o)).
Proof.
  intros Hl Ha Hd b. unfold bal, stk. rewrite lookup_setStateObject, Ha, Hd.
  case_decide as Hb; [subst b; rewrite Hl; lia|]. destruct (lookup s b); lia.
Qed.

Lemma GetOrNewStateObject_still s a o s1 :
  wf s → GetOrNewStateObject s a = (o, s1) →
  still s s1 ∧ lookup s1 a = Some o ∧ so_address o = a ∧ so_deleted o = false ∧
  Balance (so_data o) = bal s a ∧ StakeBalance (so_data o) = stk s a.
Proof.
  intros Hw. unfold GetOrNewStateObject, createObject. destruct (getStateObject_spec s a) as (s2 & E & Hc).
  rewrite E. destruct (lookup s a) as [o2|] eqn:El.
  - intros [= <- <-]. destruct (lookup_wf s a o2 Hw El) as (Ha & Hd & _).
    split; [by eapply still_cached|]. split; [by rewrite (cached_lookup _ _ _ _ Hc)|].
    unfold bal, stk. by rewrite El.
  - assert (El2 : lookup s2 a = None) by (by rewrite (cached_lookup _ _ _ _ Hc)).
    destruct (getStateObject_spec s2 a) as (s3 & E3 & Hc3). rewrite E3, El2. intros [= <- <-].
    split; [|split; [by rewrite lookup_setStateObject, decide_True|unfold bal, stk; by rewrite El]].
    intros b. unfold bal, stk. rewrite lookup_setStateObject. simpl. case_decide as Hb.
    + subst b. by rewrite El.
    + change (lookup (append s3 (createObjectChange a)) b) with (lookup s3 b).
      by rewrite (cached_lookup _ _ _ _ Hc3), (cached_lookup _ _ _ _ Hc).
Qed.

(** A write whose step on the object moves [x] and [y]. *)
Lemma write_moves f s a x y :
  wf s →
  (∀ s1 o, so_address o = a → so_deleted o = false → lookup s1 a = Some o →
    Balance (so_data o) = bal s a → StakeBalance (so_data o) = stk s a → moves s1 (f s1 o) a x y) →
  moves s (write f s a) a x y.
Proof.
  intros Hw Hf. unfold write. destruct (GetOrNewStateObject s a) as [o s1] eqn:E.
  destruct (GetOrNewStateObject_still s a o s1 Hw E) as (Hs & Hl & Ha & Hd & Hb & Hk).
  eapply still_moves_l; [exact Hs|]. by apply Hf.
Qed.

(** An object step that journals an entry and installs [o']. *)
Lemma install_moves s e o o' a x y :
  so_address o = a → lookup s a = Some o → so_address o' = a → so_deleted o' = false →
  Balance (so_data o') = Balance (so_data o) + x → StakeBalance (so_data o') = StakeBalance (so_data o) + y →
  moves s (setStateObject (append s e) o') a x y.
Proof.
  intros Ha Hl Ha' Hd Hx Hy. subst a.
  pose proof (setStateObject_moves (append s e) o o' Hl Ha' Hd) as H.
  rewrite Hx, Hy in H. replace x with (Balance (so_data o) + x - Balance (so_data o)) by lia.
  replace y with (StakeBalance (so_data o) + y - StakeBalance (so_data o)) by lia. exact H.
Qed.

Lemma touch_still s o : still s (touch s o).
Proof. unfold touch. apply still_lookup. intros b. by case_match. Qed.

Lemma AddBalance_moves s a x : wf s → moves s (AddBalance s a x) a x 0.
Proof.
  intros Hw. apply write_moves; [done|]. intros s1 o Ha Hd Hl _ _. unfold so_AddBalance.
  destruct (Z.eqb_spec x 0) as [->|]; [apply still_moves; case_match; [by apply touch_still|done]|].
  eapply (install_moves s1 _ o); try done. simpl. lia.
Qed.

Lemma SubBalance_moves s a x : wf s → moves s (SubBalance s a x) a (- x) 0.
Proof.
  intros Hw. apply write_moves; [done|]. intros s1 o Ha Hd Hl _ _. unfold so_SubBalance.
  destruct (Z.eqb_spec x 0) as [->|]; [by apply still_moves|].
  eapply (install_moves s1 _ o); try done. simpl. lia.
Qed.

Lemma SetBalance_moves s a x : wf s → moves s (SetBalance s a x) a (x - bal s a) 0.
Proof.
  intros Hw. apply write_moves; [done|]. intros s1 o Ha Hd Hl Hb _.
  eapply (install_moves s1 _ o); try done; simpl; lia.
Qed.

Lemma AddStakeBalance_moves s a x n : wf s → moves s (AddStakeBalance s a x n) a 0 x.
Proof.
  intros Hw. apply write_moves; [done|]. intros s1 o Ha Hd Hl _ _. unfold so_AddStakeBalance.
  destruct (Z.eqb_spec x 0) as [->|]; [apply still_moves; case_match; [by apply touch_still|done]|].
  eapply (install_moves s1 _ o); try done. simpl. lia.
Qed.

Lemma RemoveStakeBalance_moves s a :
  wf s → moves s (RemoveStakeBalance s a) a (stk s a) (- stk s a).
Proof.
  intros Hw. apply write_moves; [done|]. intros s1 o Ha Hd Hl Hb Hk. unfold so_RemoveStakeBalance.
  rewrite Hk. destruct (Z.eqb_spec (stk s a) 0) as [->|Hz]; [by apply still_moves|].
  set (o' := setStaking o 0 (StakeUpdated (so_data o))).
  rewrite <- (Z.add_0_l (stk s a)) at 2. rewrite <- (Z.add_0_r (- stk s a)).
  eapply (moves_trans s1 (so_SetStaking s1 o 0 (StakeUpdated (so_data o)))).
  - eapply (install_moves s1 _ o o' a 0 (- stk s a)); try done; simpl; lia.
  - unfold so_AddBalance. rewrite (proj2 (Z.eqb_neq _ _) Hz).
    eapply (install_moves _ _ o'); try done; simpl; try lia.
    unfold so_SetStaking. rewrite lookup_setStateObject. simpl. by rewrite decide_True, Hd.
Qed.

Lemma SetNonce_still s a n : wf s → still s (SetNonce s a n).
Proof.
  intros Hw. apply (moves_still _ _ a), write_moves; [done|]. intros s1 o Ha Hd Hl _ _.
  eapply (install_moves s1 _ o); try done; simpl; lia.
Qed.

Lemma SetCode_still s a c : wf s → still s (SetCode s a c).
Proof.
  intros Hw. apply (moves_still _ _ a), write_moves; [done|]. intros s1 o Ha Hd Hl _ _.
  unfold so_SetCode. destruct (so_Code_spec (db s1) o) as (o1 & E & Hr). rewrite E.
  destruct Hr as [Hr Hdata]. pose proof (oe_address _ _ _ _ Hr). pose proof (oe_deleted _ _ _ _ Hr).
  eapply (install_moves s1 _ o); simpl; rewrite ?Hdata; try congruence; lia.
Qed.

Lemma SetPoint_still s a x : wf s → still s (SetPoint s a x).
Proof.
  intros Hw. apply (moves_still _ _ a), write_moves; [done|]. intros s1 o Ha Hd Hl _ _.
  eapply (install_moves s1 _ o); try done; simpl; lia.
Qed.

Lemma read_update_still {A} (f : DB → stateObject → A * stateObject) none s a :
  (∀ d o, reloaded d o (f d o).2) → wf s → still s (read_update f none s a).2.
Proof.
  intros Hf Hw. unfold read_update. destruct (getStateObject_spec s a) as (s1 & -> & Hc).
  pose proof (still_cached _ _ _ Hc) as Hs. destruct (lookup s a) as [o|] eqn:E; [|done].
  destruct (lookup_wf s a o Hw E) as (Ha & Hd & _).
  specialize (Hf (db s1) o). destruct (f (db s1) o) as [x o1]. destruct Hf as [Hr Hdata]. simpl in *.
  etrans; [exact Hs|]. apply (moves_still _ _ (so_address o)).
  pose proof (setStateObject_moves s1 o o1) as Hm. rewrite Hdata, !Z.sub_diag in Hm. apply Hm.
  - by rewrite (cached_lookup _ _ _ _ Hc), Ha.
  - apply Hr.
  - by rewrite (oe_deleted _ _ _ _ Hr).
Qed.

Lemma GetCodeSize_still s a : still s (GetCodeSize s a).2.
Proof.
  destruct (GetCodeSize_cached s a) as (s1 & Hc%still_cached & [-> | [e ->]]); [done|].
  etrans; [exact Hc|]. apply still_lookup. intros b. unfold setError. by case_match.
Qed.

Lemma SetState_still s a k v : wf s → still s (SetState s a k v).
Proof.
  intros Hw. apply (moves_still _ _ a), write_moves; [done|]. intros s1 o Ha Hd Hl _ _.
  unfold so_SetState. destruct (so_GetState_spec (db s1) o k) as (o1 & E & Hr). rewrite E.
  destruct Hr as [Hr Hdata]. pose proof (oe_address _ _ _ _ Hr). pose proof (oe_deleted _ _ _ _ Hr).
  case_bool_decide.
  - subst a. pose proof (setStateObject_moves s1 o o1 Hl) as Hm. rewrite Hdata, !Z.sub_diag in Hm.
    apply Hm; congruence.
  - eapply (install_moves s1 _ o); simpl; rewrite ?Hdata; try congruence; lia.
Qed.

(** [Suicide] drops the balance and keeps the stake. *)
Lemma Suicide_moves s a : wf s → moves s (Suicide s a).2 a (- bal s a) 0.
Proof.
  intros Hw b. unfold Suicide. destruct (getStateObject_spec s a) as (s1 & -> & Hc).
  assert (Hl : ∀ e, lookup (append s1 e) b = lookup s b) by (intros; by apply (cached_lookup s s1 a)).
  destruct (lookup s a) as [o|] eqn:E.
  - destruct (lookup_wf s a o Hw E) as (Ha & Hd & _). unfold bal, stk. simpl.
    rewrite lookup_setStateObject, Hl. simpl. rewrite Ha, Hd.
    case_decide as Hb; [subst b; rewrite E; simpl; lia|destruct (lookup s b); lia].
  - unfold bal, stk. simpl. rewrite (cached_lookup _ _ _ _ Hc), E. case_decide; destruct (lookup s b); lia.
Qed.

Lemma read_value {A} (f : stateObject → A) none s a :
  (read f none s a).1 = match lookup s a with Some o => f o | None => none end.
Proof. unfold read. destruct (getStateObject_spec s a) as (s1 & -> & _). by destruct (lookup s a). Qed.

Lemma read_still {A} (f : stateObject → A) none s a : still s (read f none s a).2.
Proof.
  unfold read. destruct (getStateObject_spec s a) as (s1 & -> & Hc). apply still_cached in Hc.
  by destruct (lookup s a).
Qed.

(** [CreateAccount] keeps the balance and drops the stake. *)
Lemma CreateAccount_moves s a : wf s → moves s (CreateAccount s a) a 0 (- stk s a).
Proof.
  intros Hw b. unfold CreateAccount, createObject. destruct (getStateObject_spec s a) as (s1 & -> & Hc).
  assert (Hl : ∀ e, lookup (append s1 e) b = lookup s b) by (intros; by apply (cached_lookup s s1 a)).
  unfold bal, stk. destruct (lookup s a) as [p|] eqn:E; rewrite !lookup_setStateObject, Hl; simpl;
    (case_decide as Hb; [subst b; rewrite E; simpl; lia|destruct (lookup s b); lia]).
Qed.

(** A missing account is created with no funds. *)
Lemma still_create s a ex s1 :
  wf s1 → Exist s a = (ex, s1) → still s (if negb ex then CreateAccount s1 a else s1).
Proof.
  intros Hw E. pose proof (read_value (λ _, true) false s a) as Hv.
  pose proof (read_still (λ _, true) false s a) as Hs. fold Exist in Hv, Hs. rewrite E in Hv, Hs.
  simpl in Hv, Hs. destruct ex; [done|]. etrans; [exact Hs|]. apply (moves_still _ _ a).
  pose proof (CreateAccount_moves s1 a Hw) as Hm.
  assert (Hz : stk s1 a = 0) by (destruct (Hs a) as [_ ->]; unfold stk; by destruct (lookup s a)).
  by rewrite Hz in Hm.
Qed.

(** ** Totals *)

Lemma total_moves L s s' a x y :
  NoDup L → moves s s' a x y →
  total L s' = total L s + (if decide (a ∈ L) then x + y else 0).
Proof.
  intros HL Hm. induction HL as [|b L Hb HL IH]; [rewrite decide_False by apply not_elem_of_nil; simpl; lia|].
  cbn [total foldr]. fold (total L s') (total L s). rewrite IH. destruct (Hm b) as [-> ->].
  destruct (decide (b = a)) as [->|Hne].
  - rewrite decide_False by done. rewrite decide_True by (left; done). lia.
  - destruct (decide (a ∈ L)); [rewrite decide_True by (by right); lia|].
    rewrite decide_False; [lia|]. rewrite elem_of_cons. naive_solver.
Qed.

Lemma total_still L s s' : still s s' → total L s' = total L s.
Proof. intros H. induction L as [|b L IH]; [done|]. simpl. destruct (H b) as [-> ->]. by rewrite <- IH. Qed.

Definition solvent (s : StateDB) : Prop := ∀ a, 0 ≤ bal s a ∧ 0 ≤ stk s a.

(** The step from [s] to [s'] keeps balances non-negative and creates no
    funds: from some set of accounts on, the total does not grow. *)
Record frugal (s s' : StateDB) : Prop := {
  fr_solvent : solvent s → solvent s';
  fr_total : solvent s → ∃ L0, ∀ L, NoDup L → L0 ⊆ L → total L s' ≤ total L s
}.

#[export] Instance frugal_preorder : PreOrder frugal.
Proof.
  split; [intros s; split; [done|]; intros; by exists []|].
  intros s1 s2 s3 [S1 T1] [S2 T2]. split; [auto|]. intros Hs.
  destruct (T1 Hs) as [L1 H1], (T2 (S1 Hs)) as [L2 H2]. exists (L1 ++ L2). intros L HL Hsub.
  specialize (H1 L HL ltac:(set_solver)). specialize (H2 L HL ltac:(set_solver)). lia.
Qed.

Lemma frugal_still s s' : still s s' → frugal s s'.
Proof.
  intros H. split; intros Hs; [intros a; destruct (H a) as [-> ->]; apply Hs|].
  exists []. intros L _ _. by rewrite (total_still L s s' H).
Qed.

Lemma frugal_moves s s' a x y :
  moves s s' a x y → (solvent s → 0 ≤ bal s a + x ∧ 0 ≤ stk s a + y ∧ x + y ≤ 0) → frugal s s'.
Proof.
  intros Hm Hxy. split; intros Hs; specialize (Hxy Hs).
  - intros b. destruct (Hm b) as [-> ->], (Hs b). case_decide; [subst|]; lia.
  - exists [a]. intros L HL Hsub. rewrite (total_moves L s s' a x y HL Hm). case_decide; lia.
Qed.

(** Two moves that balance each other. *)
Lemma frugal_transfer s s1 s' a b x x' y' :
  moves s s1 a (- x) 0 → moves s1 s' b x' y' → 0 ≤ x' → 0 ≤ y' → x' + y' ≤ x →
  x ≤ bal s a → frugal s s'.
Proof.
  intros H1 H2 Hx' Hy' Hsum Hle. split; intros Hs.
  - intros c. destruct (H2 c) as [-> ->], (H1 c) as [-> ->], (Hs c).
    repeat case_decide; subst; lia.
  - exists [a; b]. intros L HL Hsub.
    rewrite (total_moves L s1 s' b x' y' HL H2), (total_moves L s s1 a (- x) 0 HL H1).
    rewrite !decide_True by (apply Hsub; set_solver). lia.
Qed.

(** A payment to [b] followed by the loss of everything [a] holds. *)
Lemma frugal_forfeit s s1 s' a b :
  moves s s1 b (bal s a) 0 → moves s1 s' a (- bal s1 a) 0 → frugal s s'.
Proof.
  intros H1 H2. assert (Ha : bal s1 a = bal s a + (if decide (a = b) then bal s a else 0)) by apply H1.
  split; intros Hs; pose proof (Hs a).
  - intros c. destruct (H2 c) as [-> ->], (H1 c) as [-> ->], (Hs c).
    repeat case_decide; subst; simplify_eq; lia.
  - exists [a; b]. intros L HL Hsub.
    rewrite (total_moves L s1 s' a _ _ HL H2), (total_moves L s s1 b _ _ HL H1).
    rewrite !decide_True by (apply Hsub; set_solver). case_decide; lia.
Qed.
End Funds.
