(* ===== verification/Evm.v ===== *)
(** * Calls and value transfer ([core/vm/evm.go], [core/evm.go])

    The entry points of the virtual machine: depth and balance guards,
    snapshots, account creation, the transfer between main and stake balances,
    and the revert of a failed call.  The byte code interpreter and the
    precompiled contracts behind [run] are an interface here, as in the source
    ([Interpreter], [PrecompiledContract]); the files [Vm] and [Precompiles]
    implement it. *)

From Stdlib Require Import ZArith Lia.
From stdpp Require Import base option list gmap sets strings.
From S2P Require Import Prelude Params Rlp Types Account State StateRevert.

(** ** Environment *)

Definition CallCreateDepth : Z := 1024.
Definition MaxCodeSize : Z := 24576.
Definition CreateDataGas : Z := 200.

Definition ErrOutOfGas : string := "out of gas".
Definition ErrDepth : string := "max call depth exceeded".
Definition ErrInsufficientBalance : string := "insufficient balance for transfer".
Definition ErrContractAddressCollision : string := "contract address collision".
Definition ErrCodeStoreOutOfGas : string := "contract creation code storage out of gas".
Definition errExecutionReverted : string := "evm: execution reverted".
Definition errMaxCodeSizeExceeded : string := "evm: max code size exceeded".

Record EVM := {
  evm_Origin : Address;
  evm_GasPrice : Z;
  evm_Coinbase : Address;
  evm_GasLimit : Z;
  evm_BlockNumber : Z;
  evm_Time : Z;
  evm_Difficulty : Z;
  evm_GetHash : Z → Hash;           (* the hash of an ancestor, by number *)
  evm_depth : Z;
  evm_chainConfig : ChainConfig;
  evm_NoRecursion : bool;
  evm_EnablePreimageRecording : bool;
  evm_readOnly : bool               (* readOnly of evm.interpreter *)
}.

Record Contract := {
  CallerAddress : Address;
  contract_self : Address;
  contract_value : Z;
  contract_Gas : Z;
  contract_Code : option bytes;
  contract_CodeHash : Hash;
  contract_CodeAddr : Address
}.

Definition UseGas (c_Gas gas : Z) : bool * Z :=
  if c_Gas <? gas then (false, c_Gas) else (true, c_Gas - gas).

Definition precompile (n : Z) : Address := replicate 19 0 ++ [n].
Definition PrecompiledContractsHomestead : list Address := precompile <$> [1; 2; 3; 4].
Definition PrecompiledContractsByzantium : list Address := precompile <$> [1; 2; 3; 4; 5; 6; 7; 8].

Definition is_precompile (evm : EVM) (addr : Address) : bool :=
  bool_decide (addr ∈ if IsByzantium (evm_chainConfig evm) (Some (evm_BlockNumber evm))
                      then PrecompiledContractsByzantium else PrecompiledContractsHomestead).

Section Calls.
Context {C : Crypto} {D : Database}.

(** What [run] dispatches to: [PrecompiledContract], by its address, and
    [Interpreter], both interfaces of the source.  [Run] returns the return
    data, the error, the gas left and the new state. *)
Class Interpreter := {
  RequiredGas : Address → option bytes → Z;
  precompile_Run : Address → option bytes → result (option bytes * option string);
  Interpreter_Run : EVM → Contract → option bytes → bool → StateDB →
                    result (option bytes * option string * Z * StateDB)
}.

(** ** Transfers ([core/evm.go]) *)

Definition CanTransfer (s : StateDB) (addr : Address) (amount base : Z) : bool * StateDB :=
  if base =? Main then
    let '(b, s) := GetBalance s addr in (amount <=? b, s)
  else if base =? Stake then
    let '(b, s) := GetStakeBalance s addr in (amount <=? b, s)
  else (false, s).

Definition Transfer (s : StateDB) (sender recipient : Address) (amount blockNumber base target : Z)
    : StateDB :=
  if base =? Main then
    if target =? Main then AddBalance (SubBalance s sender amount) recipient amount
    else if target =? Stake then
      AddStakeBalance (SubBalance s sender amount) recipient amount blockNumber
    else s
  else if base =? Stake then
    if target =? Main then RemoveStakeBalance s sender else s
  else s.

(** ** Calls *)

Context {I : Interpreter}.

Definition RunPrecompiledContract (p : Address) (input : option bytes) (contract : Contract)
    : result (option bytes * option string * Z) :=
  let '(paid, gas) := UseGas (contract_Gas contract) (RequiredGas p input) in
  if paid then let* (ret, err) := precompile_Run p input in Ok (ret, err, gas)
  else Ok (None, Some ErrOutOfGas, gas).

Definition run (evm : EVM) (contract : Contract) (input : option bytes) (readOnly : bool) (s : StateDB)
    : result (option bytes * option string * Z * StateDB) :=
  if is_precompile evm (contract_CodeAddr contract) then
    let* (ret, err, gas) := RunPrecompiledContract (contract_CodeAddr contract) input contract in
    Ok (ret, err, gas, s)
  else Interpreter_Run evm contract input readOnly s.

Definition outcome : Type := option bytes * Z * option string.

(** What follows [run] in every kind of call. *)
Definition settle (s : StateDB) (snapshot : Z) (ret : option bytes) (gas : Z) (err : option string)
    : result (outcome * StateDB) :=
  match err with
  | None => Ok ((ret, gas, None), s)
  | Some e =>
      let* s := RevertToSnapshot s snapshot in
      let gas := if String.eqb e errExecutionReverted then gas else (UseGas gas gas).2 in
      Ok ((ret, gas, Some e), s)
  end.

(** [run] on a contract with the code of [addr]. *)
Definition run_code (evm : EVM) (s : StateDB) (caller self addr : Address) (input : option bytes)
    (gas value : Z) (readOnly : bool) : result (option bytes * option string * Z * StateDB) :=
  let '(hash, s) := GetCodeHash s addr in
  let '(code, s) := GetCode s addr in
  run evm {| CallerAddress := caller; contract_self := self; contract_value := value;
                contract_Gas := gas; contract_Code := code; contract_CodeHash := hash;
                contract_CodeAddr := addr |} input readOnly s.

Definition Call (evm : EVM) (s : StateDB) (caller addr : Address) (input : option bytes)
    (gas value base target : Z) : result (outcome * StateDB) :=
  let '(_, s) := GetBalance s caller in
  if evm_NoRecursion evm && (0 <? evm_depth evm) then Ok ((None, gas, None), s)
  else if CallCreateDepth <? evm_depth evm then Ok ((None, gas, Some ErrDepth), s)
  else
    let '(ok, s) := CanTransfer s caller value base in
    if negb ok then Ok ((None, gas, Some ErrInsufficientBalance), s)
    else
      let '(snapshot, s) := Snapshot s in
      let '(ex, s) := Exist s addr in
      if negb ex && negb (is_precompile evm addr) &&
         IsEIP158 (evm_chainConfig evm) (Some (evm_BlockNumber evm)) && (value =? 0)
      then Ok ((None, gas, None), s)
      else
        let s := if negb ex then CreateAccount s addr else s in
        let s := Transfer s caller addr value (evm_BlockNumber evm) base target in
        let '(_, s) := GetBalance s caller in
        let* (ret, err, gas, s) := run_code evm s caller addr addr input gas value false in
        settle s snapshot ret gas err.

Definition CallCode (evm : EVM) (s : StateDB) (caller addr : Address) (input : option bytes)
    (gas value : Z) : result (outcome * StateDB) :=
  if evm_NoRecursion evm && (0 <? evm_depth evm) then Ok ((None, gas, None), s)
  else if CallCreateDepth <? evm_depth evm then Ok ((None, gas, Some ErrDepth), s)
  else
    let '(ok, s) := CanTransfer s caller value Main in
    if negb ok then Ok ((None, gas, Some ErrInsufficientBalance), s)
    else
      let '(snapshot, s) := Snapshot s in
      let* (ret, err, gas, s) := run_code evm s caller caller addr input gas value false in
      settle s snapshot ret gas err.

(** [DelegateCall] runs with the caller and the value of the calling contract. *)
Definition DelegateCall (evm : EVM) (s : StateDB) (parent : Contract) (addr : Address)
    (input : option bytes) (gas : Z) : result (outcome * StateDB) :=
  if evm_NoRecursion evm && (0 <? evm_depth evm) then Ok ((None, gas, None), s)
  else if CallCreateDepth <? evm_depth evm then Ok ((None, gas, Some ErrDepth), s)
  else
    let '(snapshot, s) := Snapshot s in
    let* (ret, err, gas, s) :=
      run_code evm s (CallerAddress parent) (contract_self parent) addr input gas
        (contract_value parent) false in
    settle s snapshot ret gas err.

Definition StaticCall (evm : EVM) (s : StateDB) (caller addr : Address) (input : option bytes)
    (gas : Z) : result (outcome * StateDB) :=
  if evm_NoRecursion evm && (0 <? evm_depth evm) then Ok ((None, gas, None), s)
  else if CallCreateDepth <? evm_depth evm then Ok ((None, gas, Some ErrDepth), s)
  else
    let '(snapshot, s) := Snapshot s in
    let '(hash, s) := GetCodeHash s addr in
    let '(code, s) := GetCode s addr in
    let s := AddBalance s addr 0 in
    let* (ret, err, gas, s) :=
      run evm {| CallerAddress := caller; contract_self := addr; contract_value := 0;
                    contract_Gas := gas; contract_Code := code; contract_CodeHash := hash;
                    contract_CodeAddr := addr |} input true s in
    settle s snapshot ret gas err.

(** ** Contract creation *)

Definition CreateAddress (b : Address) (nonce : Z) : Address :=
  set_bytes AddressLength (drop 12 (Keccak256 (rlp_encode (RList [RStr b; RUint nonce])))).

(** The end of [create]: store the code, or undo. *)
Definition create_finish (evm : EVM) (address : Address) (snapshot : Z) (ret : option bytes)
    (err : option string) (gas : Z) (s : StateDB) : result (outcome * Address * StateDB) :=
  let eip158 := IsEIP158 (evm_chainConfig evm) (Some (evm_BlockNumber evm)) in
  let len := Z.of_nat (length (default [] ret)) in
  let maxCodeSizeExceeded := eip158 && (MaxCodeSize <? len) in
  let '(err, gas, s) :=
    match err with
    | None =>
        if negb maxCodeSizeExceeded then
          let '(paid, gas) := UseGas gas (u64 (len * CreateDataGas)) in
          if paid then (None, gas, SetCode s address ret)
          else (Some ErrCodeStoreOutOfGas, gas, s)
        else (None, gas, s)
    | Some _ => (err, gas, s)
    end in
  let homestead := IsHomestead (evm_chainConfig evm) (Some (evm_BlockNumber evm)) in
  let* (gas, s) :=
    if maxCodeSizeExceeded ||
       match err with
       | Some e => homestead || negb (String.eqb e ErrCodeStoreOutOfGas)
       | None => false
       end
    then
      let* s := RevertToSnapshot s snapshot in
      let gas := match err with
                 | Some e => if String.eqb e errExecutionReverted then gas else 0
                 | None => 0
                 end in
      Ok (gas, s)
    else Ok (gas, s) in
  let err := match err with
             | None => if maxCodeSizeExceeded then Some errMaxCodeSizeExceeded else None
             | Some _ => err
             end in
  Ok ((ret, gas, err), address, s).

Definition create (evm : EVM) (s : StateDB) (caller : Address) (code : option bytes) (hash : Hash)
    (gas value : Z) (address : Address) : result (outcome * Address * StateDB) :=
  if CallCreateDepth <? evm_depth evm then Ok ((None, gas, Some ErrDepth), zeroAddress, s)
  else
    let '(ok, s) := CanTransfer s caller value Main in
    if negb ok then Ok ((None, gas, Some ErrInsufficientBalance), zeroAddress, s)
    else
      let '(nonce, s) := GetNonce s caller in
      let s := SetNonce s caller (u64 (nonce + 1)) in
      let '(contractHash, s) := GetCodeHash s address in
      let '(n, s) := GetNonce s address in
      if negb (n =? 0) ||
         (negb (bool_decide (contractHash = zeroHash)) && negb (bool_decide (contractHash = emptyCodeHash)))
      then Ok ((None, 0, Some ErrContractAddressCollision), zeroAddress, s)
      else
        let '(snapshot, s) := Snapshot s in
        let s := CreateAccount s address in
        let eip158 := IsEIP158 (evm_chainConfig evm) (Some (evm_BlockNumber evm)) in
        let s := if eip158 then SetNonce s address 1 else s in
        let s := Transfer s caller address value (evm_BlockNumber evm) Main Main in
        if evm_NoRecursion evm && (0 <? evm_depth evm) then Ok ((None, gas, None), address, s)
        else
          let* (ret, err, gas, s) :=
            run evm {| CallerAddress := caller; contract_self := address; contract_value := value;
                          contract_Gas := gas; contract_Code := code; contract_CodeHash := hash;
                          contract_CodeAddr := address |} None false s in
          create_finish evm address snapshot ret err gas s.

Definition Create (evm : EVM) (s : StateDB) (caller : Address) (code : option bytes) (gas value : Z)
    : result (outcome * Address * StateDB) :=
  let '(nonce, s) := GetNonce s caller in
  create evm s caller code zeroHash gas value (CreateAddress caller nonce).

Definition CreateAddress2 (b : Address) (salt : Hash) (inithash : bytes) : Address :=
  set_bytes AddressLength (drop 12 (Keccak256 ([255] ++ b ++ salt ++ inithash))).

(** [salt]: the 32 big-endian bytes of the stack word. *)
Definition Create2 (evm : EVM) (s : StateDB) (caller : Address) (code : option bytes)
    (gas endowment : Z) (salt : Hash) : result (outcome * Address * StateDB) :=
  let hash := set_bytes HashLength (Keccak256 (default [] code)) in
  create evm s caller code hash gas endowment (CreateAddress2 caller salt hash).
End Calls.
