(* ===== verification/EvmProps.v ===== *)
(** * Calls are atomic and create no funds

    What the calls of [core/vm/evm.go] rely on is that the interpreter changes
    the state through the operations of the state database only and reverts to
    its own snapshots only ([InterpreterLaws], which the interpreter of the
    file [Vm] satisfies).  Under this contract every call is again such a step,
    leaves no trace when it fails, and moves funds without creating any. *)

From Stdlib Require Import ZArith Lia.
From stdpp Require Import base option list gmap sets strings.
From S2P Require Import Prelude Params Rlp Types Account State StateRevert Funds Evm.

Section Acts.
Context {C : Crypto} {D : Database}.

Definition good (s : StateDB) : Prop := wf s ∧ revs_ok s.

(** [s'] is reached from [s] by operations that do not revert below [s]. *)
Definition acts (s s' : StateDB) : Prop :=
  ∃ ops, StateRevert.run ops s = Ok s' ∧ Forall (reverts_above (nextRevisionId s - 1)) ops.

Lemma run_app ops1 ops2 s :
  StateRevert.run (ops1 ++ ops2) s = let* s := StateRevert.run ops1 s in StateRevert.run ops2 s.
Proof.
  revert s. induction ops1 as [|o ops1 IH]; intros s; [done|]. cbn [app StateRevert.run].
  destruct (run_op o s); cbn [bind]; auto.
Qed.

Lemma good_Snapshot s : good s → good (Snapshot s).2.
Proof. intros [[] Hr]. split; [by split|by apply revs_ok_Snapshot]. Qed.

Section Keccak.
Context (Keccak256_length : ∀ b, length (Keccak256 b) = HashLength).

Lemma run_op_good o s s' :
  good s → run_op o s = Ok s' → good s' ∧ nextRevisionId s ≤ nextRevisionId s'.
Proof.
  intros [Hw Hr] H. destruct (is_snapshot_op o) eqn:Eo.
  - destruct o; try discriminate; cbn [run_op] in H.
    + injection H as <-. split; [by apply good_Snapshot|]. simpl. lia.
    + destruct (RevertToSnapshot_inv _ _ _ H) as (i & r & u & Hi & _ & Hu & ->).
      destruct (reverted_ok s i r u Hw Hr Hi Hu) as (? & ? & (_ & _ & Hn)).
      split; [done|]. cbn [put_validRevisions put_journal nextRevisionId]. lia.
  - pose proof (run_op_step Keccak256_length false o s s' ltac:(done) Eo Hw H) as Hs.
    split; [split; [apply Hs|by eapply revs_ok_step]|]. by rewrite (st_next _ _ _ Hs).
Qed.

Lemma run_good ops s s' :
  good s → StateRevert.run ops s = Ok s' → good s' ∧ nextRevisionId s ≤ nextRevisionId s'.
Proof.
  revert s. induction ops as [|o ops IH]; intros s Hg; cbn [StateRevert.run].
  { by intros [= <-]. }
  destruct (run_op o s) as [s1| | |] eqn:E; try done. cbn [bind]. intros H.
  destruct (run_op_good o s s1 Hg E) as [Hg1 Hn], (IH s1 Hg1 H). split; [done|lia].
Qed.

Lemma acts_good s s' : good s → acts s s' → good s' ∧ nextRevisionId s ≤ nextRevisionId s'.
Proof. intros Hg (ops & H & _). by eapply run_good. Qed.

Lemma acts_refl s : acts s s.
Proof. by exists []. Qed.

Lemma acts_trans s1 s2 s3 : good s1 → acts s1 s2 → acts s2 s3 → acts s1 s3.
Proof.
  intros Hg H1 (ops2 & H2 & F2). destruct (acts_good _ _ Hg H1) as [_ Hn].
  destruct H1 as (ops1 & H1 & F1). exists (ops1 ++ ops2). split; [by rewrite run_app, H1|].
  apply Forall_app. split; [done|]. eapply Forall_impl; [exact F2|]. intros []; simpl; lia.
Qed.

Lemma acts_op o s s' : is_snapshot_op o = false ∨ o = OSnapshot → run_op o s = Ok s' → acts s s'.
Proof.
  intros Ho H. exists [o]. split; [cbn [StateRevert.run]; by rewrite H|]. constructor; [|done].
  destruct Ho as [Ho| ->]; [|done]. by destruct o.
Qed.

Lemma acts_read {A} (f : stateObject → A) none s a : acts s (read f none s a).2.
Proof.
  apply (acts_op (OGetBalance a)); [by left|]. cbn [run_op]. f_equal. unfold GetBalance, read.
  by destruct (getStateObject s a) as [[]].
Qed.

(** Everything done behind a snapshot can be undone. *)
Lemma acts_revert s s2 :
  good s → acts (Snapshot s).2 s2 →
  ∃ s3, RevertToSnapshot s2 (nextRevisionId s) = Ok s3 ∧ state_equiv false s3 s ∧ good s3 ∧ acts s s3.
Proof.
  intros [Hw Hr] (ops & Hrun & Hab).
  set (r := {| rev_id := nextRevisionId s; journalIndex := length (entries (journal_ s)) |}).
  assert (Hab' : Forall (reverts_above (rev_id r)) ops).
  { eapply Forall_impl; [exact Hab|]. intros []; simpl; lia. }
  pose proof (recoverable_run Keccak256_length false s r ops _ s2 ltac:(done) Hab'
    (recoverable_start false s Hw Hr) Hrun) as Hrc.
  destruct (recoverable_reverts false s r s2 Hrc) as (s3 & H3 & Heq & Hg). exists s3.
  split; [exact H3|]. split; [done|]. split; [done|].
  exists (OSnapshot :: ops ++ [ORevertToSnapshot (nextRevisionId s)]). split.
  - cbn [StateRevert.run run_op bind]. rewrite run_app, Hrun. cbn [bind StateRevert.run run_op].
    change (nextRevisionId s) with (rev_id r). by rewrite H3.
  - constructor; [done|]. apply Forall_app. split; [|by repeat constructor; simpl; lia].
    eapply Forall_impl; [exact Hab'|]. intros []; simpl; lia.
Qed.
End Keccak.
End Acts.

(** ** Steps of a call *)

Section Fine.
Context {C : Crypto} {D : Database}.
Context (Keccak256_length : ∀ b, length (Keccak256 b) = HashLength).

Definition fine (s s' : StateDB) : Prop := good s → good s' ∧ acts s s' ∧ frugal s s'.

(** Steps that only load and cache. *)
Definition quiet (s s' : StateDB) : Prop := fine s s' ∧ state_equiv false s' s.

#[local] Instance fine_preorder : PreOrder fine.
Proof using Keccak256_length.
  split; [intros s Hg; split; [done|]; split; [apply acts_refl|done]|].
  intros s1 s2 s3 H1 H2 Hg. destruct (H1 Hg) as (Hg2 & A1 & F1), (H2 Hg2) as (Hg3 & A2 & F2).
  split; [done|]. split; [by apply (acts_trans Keccak256_length s1 s2 s3)|by etrans].
Qed.

#[local] Instance quiet_preorder : PreOrder quiet.
Proof using Keccak256_length.
  split; [by intros s; split|]. intros s1 s2 s3 [F1 E1] [F2 E2]. split; by etrans.
Qed.

Lemma fine_op o s s' :
  is_snapshot_op o = false ∨ o = OSnapshot → run_op o s = Ok s' → (good s → frugal s s') → fine s s'.
Proof using Keccak256_length.
  intros Ho H Hf Hg. split; [by eapply run_op_good|]. split; [by eapply acts_op|auto].
Qed.

Lemma quiet_read {A} (f : stateObject → A) none s a : quiet s (read f none s a).2.
Proof using Keccak256_length.
  split.
  - intros Hg. destruct (acts_read f none s a) as (ops & H & F).
    split; [by eapply run_good|]. split; [by exists ops|]. apply frugal_still, read_still.
  - unfold read. destruct (getStateObject_spec s a) as (s1 & -> & Hc).
    destruct (lookup s a); by eapply cached_equiv.
Qed.

Lemma fine_read {A} (f : stateObject → A) none s a : fine s (read f none s a).2.
Proof using Keccak256_length. apply quiet_read. Qed.

Lemma fine_GetCode s a : fine s (GetCode s a).2.
Proof using Keccak256_length.
  apply (fine_op (OGetCode a)); [by left|done|]. intros [Hw _].
  by apply frugal_still, read_update_still; [apply reloaded_code|].
Qed.

Lemma fine_GetState s a k : fine s (GetState s a k).2.
Proof using Keccak256_length.
  apply (fine_op (OGetState a k)); [by left|done|]. intros [Hw _].
  by apply frugal_still, (read_update_still (λ d o, so_GetState d o k)); [apply reloaded_state|].
Qed.

Lemma fine_GetCodeSize s a : fine s (GetCodeSize s a).2.
Proof using Keccak256_length.
  apply (fine_op (OGetCodeSize a)); [by left|done|]. intros _. apply frugal_still, GetCodeSize_still.
Qed.

Lemma fine_SetState s a k v : fine s (SetState s a k v).
Proof using Keccak256_length.
  apply (fine_op (OSetState a k v)); [by left|done|]. intros [Hw _]. by apply frugal_still, SetState_still.
Qed.

Lemma fine_AddLog s l : fine s (AddLog s l).
Proof using Keccak256_length.
  apply (fine_op (OAddLog l)); [by left|done|]. intros _. by apply frugal_still, still_lookup.
Qed.

Lemma fine_AddPreimage s h b : fine s (AddPreimage s h b).
Proof using Keccak256_length.
  apply (fine_op (OAddPreimage h b)); [by left|done|]. intros _. apply frugal_still, still_lookup.
  intros a. unfold AddPreimage. by case_match.
Qed.

(** The end of a contract: its balance goes to the beneficiary. *)
Lemma fine_forfeit s a b : fine s (Suicide (AddBalance s b (bal s a)) a).2.
Proof using Keccak256_length.
  intros Hg. destruct (run_op_good Keccak256_length (OAddBalance b (bal s a)) s _ Hg eq_refl) as [Hg1 _].
  destruct (run_op_good Keccak256_length (OSuicide a) _ _ Hg1 eq_refl) as [Hg2 _]. split; [done|].
  split; [by exists [OAddBalance b (bal s a); OSuicide a]; repeat constructor|].
  eapply frugal_forfeit; [by apply AddBalance_moves, Hg|by apply Suicide_moves, Hg1].
Qed.

Lemma fine_Snapshot s : fine s (Snapshot s).2.
Proof using Keccak256_length.
  apply (fine_op OSnapshot); [by right|done|]. intros _. by apply frugal_still, still_lookup.
Qed.

Lemma fine_SetNonce s a n : fine s (SetNonce s a n).
Proof using Keccak256_length.
  apply (fine_op (OSetNonce a n)); [by left|done|]. intros [Hw _]. by apply frugal_still, SetNonce_still.
Qed.

Lemma fine_SetCode s a c : fine s (SetCode s a c).
Proof using Keccak256_length.
  apply (fine_op (OSetCode a c)); [by left|done|]. intros [Hw _]. by apply frugal_still, SetCode_still.
Qed.

Lemma fine_touch s a : fine s (AddBalance s a 0).
Proof using Keccak256_length.
  apply (fine_op (OAddBalance a 0)); [by left|done|]. intros [Hw _].
  apply (frugal_moves _ _ a 0 0); [by apply AddBalance_moves|]. intros Hs. destruct (Hs a). lia.
Qed.

Lemma fine_CreateAccount s a : fine s (CreateAccount s a).
Proof using Keccak256_length.
  apply (fine_op (OCreateAccount a)); [by left|done|]. intros [Hw _].
  apply (frugal_moves _ _ a 0 (- stk s a)); [by apply CreateAccount_moves|]. intros Hs. destruct (Hs a). lia.
Qed.

(** ** Transfers *)

Lemma CanTransfer_spec s a v base :
  quiet s (CanTransfer s a v base).2 ∧ still s (CanTransfer s a v base).2 ∧
  ((CanTransfer s a v base).1 = true → base = Main ∧ v ≤ bal s a ∨ base = Stake ∧ v ≤ stk s a).
Proof using Keccak256_length.
  unfold CanTransfer, GetBalance, GetStakeBalance.
  destruct (Z.eqb_spec base Main) as [Hb|]; [|destruct (Z.eqb_spec base Stake) as [Hb|]; [|done]];
    match goal with |- context [read ?f ?n s a] =>
      pose proof (quiet_read f n s a); pose proof (read_still f n s a); pose proof (read_value f n s a);
      destruct (read f n s a) as [b s1] end; simpl in *;
    (split; [done|]; split; [done|]); intros Hle%Z.leb_le; [left|right]; (split; [done|]);
    unfold bal, stk in *; by subst b.
Qed.

Lemma fine_Transfer s sender recipient v n base target :
  0 ≤ v → base = Main ∧ v ≤ bal s sender ∨ base = Stake ∧ v ≤ stk s sender →
  fine s (Transfer s sender recipient v n base target).
Proof using Keccak256_length.
  intros Hv Hbase. unfold Transfer.
  destruct (Z.eqb_spec base Main) as [->|]; [|destruct (Z.eqb_spec base Stake); [|done]].
  - assert (Hle : v ≤ bal s sender) by naive_solver.
    destruct (Z.eqb_spec target Main); [|destruct (Z.eqb_spec target Stake); [|done]]; intros Hg.
    + destruct (run_good Keccak256_length [OSubBalance sender v; OAddBalance recipient v] s _ Hg eq_refl) as [Hg' _].
      split; [done|]. split; [by exists [OSubBalance sender v; OAddBalance recipient v]; repeat constructor|].
      destruct (run_op_good Keccak256_length (OSubBalance sender v) s _ Hg eq_refl) as [[Hw1 _] _].
      eapply (frugal_transfer s _ _ sender recipient v v 0); try lia;
        [by apply SubBalance_moves, Hg|by apply AddBalance_moves].
    + destruct (run_good Keccak256_length [OSubBalance sender v; OAddStakeBalance recipient v n] s _ Hg eq_refl) as [Hg' _].
      split; [done|]. split; [by exists [OSubBalance sender v; OAddStakeBalance recipient v n]; repeat constructor|].
      destruct (run_op_good Keccak256_length (OSubBalance sender v) s _ Hg eq_refl) as [[Hw1 _] _].
      eapply (frugal_transfer s _ _ sender recipient v 0 v); try lia;
        [by apply SubBalance_moves, Hg|by apply AddStakeBalance_moves].
  - destruct (Z.eqb_spec target Main); [|done]. apply (fine_op (ORemoveStakeBalance sender)); [by left|done|].
    intros [Hw _]. apply (frugal_moves _ _ sender (stk s sender) (- stk s sender)); [by apply RemoveStakeBalance_moves|].
    intros Hs. destruct (Hs sender). lia.
Qed.
End Fine.

(** ** What the calls rely on *)

(** The panics of the interpreter itself: a nil function or pointer, and a
    memory request beyond the address space. *)
Definition vm_panics : list string := [nil_panic; makeslice_panic].

(** How a run can fail to return: by one of these panics, by the panic of a
    precompiled contract, or by not terminating. *)
Definition crash {C : Crypto} {D : Database} {I : Interpreter} {A} (r : result A) : Prop :=
  match r with
  | Ok _ | Err _ => False
  | Panic p => p ∈ vm_panics ∨ ∃ a input, precompile_Run a input = Panic p
  | Hang => True
  end.

Class InterpreterLaws {C : Crypto} {D : Database} {I : Interpreter} : Prop := {
  Keccak256_size : ∀ b, length (Keccak256 b) = HashLength;
  RequiredGas_nonneg : ∀ p input, 0 ≤ RequiredGas p input;
  precompile_Run_returns : ∀ p input, is_ok (precompile_Run p input) = true ∨
                                      ∃ e, precompile_Run p input = Panic e;
  Interpreter_Run_spec : ∀ evm c input ro s, good s → is_u64 (contract_Gas c) →
    match Interpreter_Run evm c input ro s with
    | Ok (_, _, gas, s') => good s' ∧ acts s s' ∧ frugal s s' ∧ is_u64 gas
    | r => crash r
    end
}.

Section CallTheorems.
Context {C : Crypto} {D : Database} {I : Interpreter} {L : InterpreterLaws}.

#[local] Instance fine_pre : PreOrder fine := fine_preorder Keccak256_size.
#[local] Instance quiet_pre : PreOrder quiet := quiet_preorder Keccak256_size.
#[local] Hint Resolve Keccak256_size : core.

(** What a call from [s] gives. *)
Definition call_spec (s : StateDB) (r : result (outcome * StateDB)) : Prop :=
  match r with
  | Ok ((_, gas', err), s') =>
      good s' ∧ acts s s' ∧ frugal s s' ∧ is_u64 gas' ∧ (err ≠ None → state_equiv false s' s)
  | r => crash r
  end.

Lemma crash_bind {A B} (r : result A) (k : A → result B) : crash r → crash (bind r k).
Proof. by destruct r. Qed.

Lemma run_spec evm c input ro s :
  good s → is_u64 (contract_Gas c) →
  match run evm c input ro s with
  | Ok (_, _, gas, s') => fine s s' ∧ is_u64 gas
  | r => crash r
  end.
Proof.
  intros Hg Hgas. unfold run. destruct (is_precompile evm (contract_CodeAddr c)).
  - unfold RunPrecompiledContract, UseGas.
    pose proof (RequiredGas_nonneg (contract_CodeAddr c) input). unfold is_u64 in *.
    destruct (Z.ltb_spec (contract_Gas c) (RequiredGas (contract_CodeAddr c) input)); [by split|].
    destruct (precompile_Run_returns (contract_CodeAddr c) input) as [Hok|[p Hp]].
    + destruct (precompile_Run (contract_CodeAddr c) input) as [[]| | |]; try done. cbn [bind]. split; [done|lia].
    + rewrite Hp. cbn [bind crash]. right. eauto.
  - pose proof (Interpreter_Run_spec evm c input ro s Hg Hgas) as H.
    destruct (Interpreter_Run evm c input ro s) as [[[[ret err] gas] s']| | |]; try done.
    destruct H as (? & ? & ? & ?). by split.
Qed.

Lemma settle_spec s s2 g ret err :
  good s → fine (Snapshot s).2 s2 → is_u64 g →
  call_spec s (settle s2 (nextRevisionId s) ret g err).
Proof.
  intros Hg Hf Hgas. destruct (Hf (good_Snapshot s Hg)) as (Hg2 & Ha & Hfr).
  unfold settle. destruct err as [e|].
  - destruct (acts_revert Keccak256_size s s2 Hg Ha) as (s3 & -> & Heq & Hg3 & Ha3). cbn [bind call_spec].
    split; [done|]. split; [done|]. split; [by eapply frugal_still, still_equiv|]. split; [|done].
    unfold UseGas. rewrite Z.ltb_irrefl. case_match; [done|]. simpl. rewrite Z.sub_diag. by apply is_u64_0.
  - assert (Hs : fine s s2) by (etrans; [by apply (fine_Snapshot Keccak256_size)|done]).
    destruct (Hs Hg) as (? & ? & ?). cbn [call_spec]. done.
Qed.

(** Reads before the call proper do not show. *)
Lemma call_spec_quiet s s1 r :
  good s → quiet s s1 → call_spec s1 r → call_spec s r.
Proof.
  intros Hg [Hf He]. destruct (Hf Hg) as (Hg1 & A1 & F1).
  destruct r as [[[[ret gas'] err] s']| | |]; try done. cbn [call_spec]. intros (? & A2 & F2 & ? & E2).
  split; [done|]. split; [by apply (acts_trans Keccak256_size s s1)|]. split; [by etrans|].
  split; [done|]. intros Hne. etrans; [by apply E2|done].
Qed.

Lemma call_spec_return s gas ret err : good s → is_u64 gas → call_spec s (Ok ((ret, gas, err), s)).
Proof. intros Hg Hgas. cbn [call_spec]. split; [done|]. split; [apply acts_refl|]. by split. Qed.

(** [run] behind a snapshot, followed by [settle]. *)
Lemma run_settle evm s s1 c input ro :
  good s → fine (Snapshot s).2 s1 → is_u64 (contract_Gas c) →
  call_spec s
    (let* (ret, err, gas, s') := run evm c input ro s1 in settle s' (nextRevisionId s) ret gas err).
Proof.
  intros Hg Hf Hgas. destruct (Hf (good_Snapshot s Hg)) as (Hg1 & _).
  pose proof (run_spec evm c input ro s1 Hg1 Hgas) as Hr.
  destruct (run evm c input ro s1) as [[[[ret err] g] s2]| | |]; try done. destruct Hr as [Hf2 Hg2].
  cbn [bind]. apply settle_spec; [done|by etrans|done].
Qed.

Lemma run_code_settle evm s s1 caller self addr input gas value :
  good s → fine (Snapshot s).2 s1 → is_u64 gas →
  call_spec s
    (let* (ret, err, gas, s') := run_code evm s1 caller self addr input gas value false in
     settle s' (nextRevisionId s) ret gas err).
Proof.
  intros Hg Hf Hgas. unfold run_code, GetCodeHash.
  match goal with |- context [read ?f ?n s1 addr] =>
    pose proof (quiet_read Keccak256_size f n s1 addr) as [Hq _]; destruct (read f n s1 addr) as [hash s2] end.
  pose proof (fine_GetCode Keccak256_size s2 addr) as Hc. destruct (GetCode s2 addr) as [code s3]. simpl in *.
  apply run_settle; [done| |done]. etrans; [exact Hf|]. by etrans.
Qed.

Definition affordable (s : StateDB) (caller : Address) (value base : Z) : Prop :=
  base = Main ∧ value ≤ bal s caller ∨ base = Stake ∧ value ≤ stk s caller.

Lemma affordable_still s s' caller value base :
  still s s' → affordable s caller value base → affordable s' caller value base.
Proof. intros Hs. unfold affordable. by destruct (Hs caller) as [-> ->]. Qed.

Lemma Snapshot_eq s : Snapshot s = (nextRevisionId s, (Snapshot s).2).
Proof. done. Qed.

Lemma still_Snapshot s : still s (Snapshot s).2.
Proof. by apply still_lookup. Qed.

(** [Call] once the guards have passed. *)
Lemma Call_body evm s caller addr input gas value base target :
  good s → is_u64 gas → 0 ≤ value → affordable s caller value base →
  call_spec s
    (let '(snapshot, s) := Snapshot s in
     let '(ex, s) := Exist s addr in
     if negb ex && negb (is_precompile evm addr) &&
        IsEIP158 (evm_chainConfig evm) (Some (evm_BlockNumber evm)) && (value =? 0)
     then Ok ((None, gas, None), s)
     else
       let s := if negb ex then CreateAccount s addr else s in
       let s := Transfer s caller addr value (evm_BlockNumber evm) base target in
       let '(_, s) := GetBalance s caller in
       let* (ret, err, gas, s) := run_code evm s caller addr addr input gas value false in
       settle s snapshot ret gas err).
Proof.
  intros Hg Hgas Hv Hcan. rewrite Snapshot_eq. pose proof (fine_Snapshot Keccak256_size s) as Hf2.
  destruct (Hf2 Hg) as (Hg2 & _). pose proof (still_Snapshot s) as Hst2. set (s2 := (Snapshot s).2) in *.
  destruct (quiet_read Keccak256_size (λ _, true) false s2 addr) as [Hf3 _]. fold Exist in Hf3.
  destruct (Exist s2 addr) as [ex s3] eqn:Eex. simpl in Hf3. destruct (Hf3 Hg2) as ([Hw3 _] & _).
  pose proof (still_create s2 addr ex s3 Hw3 Eex) as Hst4.
  destruct (_ && (value =? 0)).
  { assert (Hf : fine s s3) by (by etrans). destruct (Hf Hg) as (? & ? & ?).
    cbn [call_spec]. split_and!; try done; lia. }
  set (s4 := if negb ex then CreateAccount s3 addr else s3) in *.
  assert (Hf4 : fine s3 s4) by (unfold s4; destruct ex; [done|by apply (fine_CreateAccount Keccak256_size)]).
  pose proof (fine_Transfer Keccak256_size s4 caller addr value (evm_BlockNumber evm) base target Hv) as Hf5.
  specialize (Hf5 (affordable_still _ _ _ _ _ Hst4 (affordable_still _ _ _ _ _ Hst2 Hcan))).
  cbv zeta. set (s5 := Transfer s4 _ _ _ _ _ _) in *.
  destruct (quiet_read Keccak256_size (λ o, Balance (so_data o)) 0 s5 caller) as [Hf6 _]. fold GetBalance in Hf6.
  destruct (GetBalance s5 caller) as [b6 s6]. simpl in Hf6.
  apply run_code_settle; [done| |done]. do 3 (etrans; [eassumption|]). done.
Qed.

Lemma Call_ok (evm : EVM) (s : StateDB) (caller addr : Address) (input : option bytes)
    (gas value base target : Z) (Hg : good s) (Hgas : is_u64 gas) (Hv : 0 ≤ value) :
  call_spec s (Call evm s caller addr input gas value base target).
Proof.
  unfold Call.
  destruct (quiet_read Keccak256_size (λ o, Balance (so_data o)) 0 s caller) as [Hf0 He0]. fold GetBalance in Hf0, He0.
  destruct (GetBalance s caller) as [b0 s0]. simpl in Hf0, He0. destruct (Hf0 Hg) as (Hg0 & _).
  apply (call_spec_quiet s s0); [done|done|].
  destruct (_ && _); [by apply call_spec_return|].
  destruct (CallCreateDepth <? evm_depth evm); [by apply call_spec_return|].
  destruct (CanTransfer_spec Keccak256_size s0 caller value base) as (Hq1 & Hst & Hcan).
  destruct (CanTransfer s0 caller value base) as [ok s1]. simpl in Hq1, Hst, Hcan.
  destruct (proj1 Hq1 Hg0) as (Hg1 & _). apply (call_spec_quiet s0 s1); [done|done|].
  destruct ok; [|by apply call_spec_return].
  apply Call_body; [done|done|done|]. by apply (affordable_still s0), Hcan.
Qed.


Lemma other_calls_ok (evm : EVM) (s : StateDB) (caller addr : Address) (parent : Contract)
    (input : option bytes) (gas value : Z) (Hg : good s) (Hgas : is_u64 gas) :
  call_spec s (CallCode evm s caller addr input gas value) ∧
  call_spec s (DelegateCall evm s parent addr input gas) ∧
  call_spec s (StaticCall evm s caller addr input gas).
Proof.
  unfold CallCode, DelegateCall, StaticCall.
  destruct (_ && _); [split_and!; by apply call_spec_return|].
  destruct (CallCreateDepth <? evm_depth evm); [split_and!; by apply call_spec_return|].
  split_and!.
  - destruct (CanTransfer_spec Keccak256_size s caller value Main) as (Hq & _ & _).
    destruct (CanTransfer s caller value Main) as [ok s1]. simpl in Hq.
    destruct (proj1 Hq Hg) as (Hg1 & _). apply (call_spec_quiet s s1); [done|done|].
    destruct ok; [|by apply call_spec_return]. rewrite Snapshot_eq. by apply run_code_settle.
  - rewrite Snapshot_eq. by apply run_code_settle.
  - rewrite Snapshot_eq. set (s2 := (Snapshot s).2). unfold GetCodeHash.
    match goal with |- context [read ?f ?n s2 addr] =>
      destruct (quiet_read Keccak256_size f n s2 addr) as [Hf _]; destruct (read f n s2 addr) as [hash s3] end.
    pose proof (fine_GetCode Keccak256_size s3 addr) as Hc. destruct (GetCode s3 addr) as [code s4]. simpl in Hf, Hc.
    apply run_settle; [done| |done]. etrans; [exact Hf|]. etrans; [exact Hc|].
    apply (fine_touch Keccak256_size).
Qed.

(** The calls that keep the caller's context are atomic too: [CallCode],
    [DelegateCall] and [StaticCall] have the same guarantees as [Call]. *)
Theorem other_calls_atomic (evm : EVM) (s : StateDB) (caller addr : Address) (parent : Contract)
    (input : option bytes) (gas value : Z) (Hg : good s) (Hgas : is_u64 gas) :
  call_spec s (CallCode evm s caller addr input gas value) ∧
  call_spec s (DelegateCall evm s parent addr input gas) ∧
  call_spec s (StaticCall evm s caller addr input gas).
Proof. by apply other_calls_ok. Qed.

(** ** Contract creation *)

Definition bumped (s : StateDB) (caller : Address) (s' : StateDB) : Prop :=
  ∃ s1, state_equiv false s1 s ∧
        state_equiv false s' (SetNonce s1 caller (u64 ((GetNonce s caller).1 + 1))).

Definition create_spec (evm : EVM) (caller : Address) (s : StateDB)
    (r : result (outcome * Address * StateDB)) : Prop :=
  match r with
  | Ok ((_, gas', err), _, s') =>
      good s' ∧ acts s s' ∧ frugal s s' ∧ is_u64 gas' ∧
      (err ≠ None → IsHomestead (evm_chainConfig evm) (Some (evm_BlockNumber evm)) = true →
       state_equiv false s' s ∨ bumped s caller s')
  | r => crash r
  end.

Lemma reverted_spec s s2 :
  good s → fine (Snapshot s).2 s2 →
  ∃ s3, RevertToSnapshot s2 (nextRevisionId s) = Ok s3 ∧ state_equiv false s3 s ∧
        good s3 ∧ acts s s3 ∧ frugal s s3.
Proof.
  intros Hg Hf. destruct (Hf (good_Snapshot s Hg)) as (_ & Ha & _).
  destruct (acts_revert Keccak256_size s s2 Hg Ha) as (s3 & ? & ? & ? & ?). exists s3.
  split_and!; try done. by eapply frugal_still, still_equiv.
Qed.

Lemma create_finish_spec evm address s s2 ret err g :
  good s → fine (Snapshot s).2 s2 → is_u64 g →
  match create_finish evm address (nextRevisionId s) ret err g s2 with
  | Ok ((_, gas', err'), _, s') =>
      good s' ∧ acts s s' ∧ frugal s s' ∧ is_u64 gas' ∧
      (err' ≠ None → IsHomestead (evm_chainConfig evm) (Some (evm_BlockNumber evm)) = true →
       state_equiv false s' s)
  | _ => False
  end.
Proof.
  intros Hg Hf Hgas. unfold create_finish.
  assert (Hdone : ∀ s3, fine (Snapshot s).2 s3 → good s3 ∧ acts s s3 ∧ frugal s s3).
  { intros s3 Hf3. assert (H : fine s s3) by (etrans; [apply (fine_Snapshot Keccak256_size)|done]). by apply H. }
  destruct (reverted_spec s s2 Hg Hf) as (s3 & Hrev & Heq & Hg3 & Ha3 & Hf3).
  pose proof (Hdone s2 Hf) as (? & ? & ?).
  set (len := Z.of_nat (length (default [] ret))).
  assert (Hu : 0 ≤ u64 (len * CreateDataGas)) by (pose proof (u64_range (len * CreateDataGas)); word).
  assert (Hz : is_u64 0) by apply is_u64_0.
  destruct (IsEIP158 _ _ && _); destruct err as [e|]; cbn [negb orb].
  - rewrite Hrev. cbn [bind]. split_and!; try done; by case_match.
  - rewrite Hrev. cbn [bind]. split_and!; done.
  - destruct (IsHomestead _ _); cbn [orb].
    + rewrite Hrev. cbn [bind]. split_and!; try done; by case_match.
    + destruct (negb _); [rewrite Hrev|]; cbn [bind]; split_and!; try done; by case_match.
  - unfold UseGas. destruct (Z.ltb_spec g (u64 (len * CreateDataGas))); cbn [negb].
    + destruct (IsHomestead _ _); cbn [orb]; [rewrite Hrev|]; cbn [bind String.eqb negb]; split_and!; try done;
        by case_match.
    + cbn [bind]. destruct (Hdone (SetCode s2 address ret)) as (? & ? & ?);
        [etrans; [exact Hf|apply (fine_SetCode Keccak256_size)]|]. unfold is_u64 in *. split_and!; try done; lia.
Qed.

(** [create] once the nonce is bumped and the address is known to be free. *)
Definition create_body (evm : EVM) (s : StateDB) (caller : Address) (code : option bytes) (hash : Hash)
    (gas value : Z) (address : Address) : result (outcome * Address * StateDB) :=
  let '(snapshot, s) := Snapshot s in
  let s := CreateAccount s address in
  let eip158 := IsEIP158 (evm_chainConfig evm) (Some (evm_BlockNumber evm)) in
  let s := if eip158 then SetNonce s address 1 else s in
  let s := Transfer s caller address value (evm_BlockNumber evm) Main Main in
  if evm_NoRecursion evm && (0 <? evm_depth evm) then Ok ((None, gas, None), address, s)
  else
    let* (ret, err, gas, s) :=
      run evm {| CallerAddress := caller; contract_self := address; contract_value := value;
                 contract_Gas := gas; contract_Code := code; contract_CodeHash := hash;
                 contract_CodeAddr := address |} None false s in
    create_finish evm address snapshot ret err gas s.

Lemma bal_create s a b : good s → bal (CreateAccount s a) b = bal s b.
Proof. intros [Hw _]. destruct (CreateAccount_moves s a Hw b) as [-> _]. case_decide; lia. Qed.

Lemma create_body_spec evm s caller code hash gas value address :
  good s → is_u64 gas → 0 ≤ value → value ≤ bal s caller →
  match create_body evm s caller code hash gas value address with
  | Ok ((_, gas', err'), _, s') =>
      good s' ∧ acts s s' ∧ frugal s s' ∧ is_u64 gas' ∧
      (err' ≠ None → IsHomestead (evm_chainConfig evm) (Some (evm_BlockNumber evm)) = true →
       state_equiv false s' s)
  | r => crash r
  end.
Proof.
  intros Hg Hgas Hv Hcan. unfold create_body. rewrite Snapshot_eq. cbv zeta.
  pose proof (fine_Snapshot Keccak256_size s) as Hf2. destruct (Hf2 Hg) as (Hg2 & _).
  pose proof (fine_CreateAccount Keccak256_size (Snapshot s).2 address) as Hf3. destruct (Hf3 Hg2) as (Hg3 & _).
  set (s3 := CreateAccount (Snapshot s).2 address) in *.
  assert (Hb3 : bal s3 caller = bal s caller)
    by (unfold s3; rewrite bal_create by done; apply still_Snapshot).
  set (s4 := if IsEIP158 _ _ then SetNonce s3 address 1 else s3).
  assert (Hf4 : fine s3 s4) by (unfold s4; case_match; [apply (fine_SetNonce Keccak256_size)|done]).
  assert (Hb4 : bal s4 caller = bal s caller).
  { unfold s4. case_match; [|done]. rewrite <- Hb3. by apply SetNonce_still, Hg3. }
  pose proof (fine_Transfer Keccak256_size s4 caller address value (evm_BlockNumber evm) Main Main Hv) as Hf5.
  specialize (Hf5 ltac:(left; split; [done|lia])). set (s5 := Transfer s4 _ _ _ _ _ _) in *.
  assert (Hf : fine (Snapshot s).2 s5) by (etrans; [exact Hf3|]; by etrans).
  destruct (_ && _).
  { assert (H : fine s s5) by (by etrans). destruct (H Hg) as (? & ? & ?). split_and!; try done; lia. }
  set (c := {| CallerAddress := caller |}).
  destruct (Hf (good_Snapshot s Hg)) as (Hg5 & _).
  pose proof (run_spec evm c None false s5 Hg5 Hgas) as Hr. destruct (run evm c None false s5)
    as [[[[ret err] g] s6]| | |]; try done. destruct Hr as [Hf6 Hg6]. cbn [bind].
  pose proof (create_finish_spec evm address s s6 ret err g Hg) as H.
  specialize (H ltac:(by etrans) Hg6). by destruct (create_finish _ _ _ _ _ _ _) as [[[[[]]]]| | |].
Qed.

Lemma GetNonce_equiv s s1 a : state_equiv false s1 s → (GetNonce s1 a).1 = (GetNonce s a).1.
Proof.
  intros He. unfold GetNonce. rewrite !read_value. pose proof (se_lookup _ _ _ He a) as Ha.
  destruct Ha as [o1 o2 Ho|]; [|done]. exact (f_equal acc_Nonce (oe_data _ _ _ _ Ho)).
Qed.

Lemma create_ok (evm : EVM) (s : StateDB) (caller : Address) (code : option bytes) (hash : Hash)
    (gas value : Z) (address : Address) (Hg : good s) (Hgas : is_u64 gas) (Hv : 0 ≤ value) :
  create_spec evm caller s (create evm s caller code hash gas value address).
Proof.
  unfold create. destruct (CallCreateDepth <? evm_depth evm).
  { cbn. split_and!; try done; [apply acts_refl|by left]. }
  destruct (CanTransfer_spec Keccak256_size s caller value Main) as ([Hf1 He1] & Hst & Hcan).
  destruct (CanTransfer s caller value Main) as [ok s1]. simpl in Hf1, He1, Hst, Hcan.
  destruct (Hf1 Hg) as (Hg1 & ? & ?). destruct ok; cbn [negb].
  2:{ cbn. split_and!; try done. intros _ _. by left. }
  assert (Hbal : value ≤ bal s caller) by (destruct (Hcan eq_refl) as [[]|[]]; done).
  pose proof (GetNonce_equiv s s1 caller He1) as Hn.
  pose proof (quiet_read Keccak256_size (λ o, acc_Nonce (so_data o)) 0 s1 caller) as [Hf2 He2].
  pose proof (read_still (λ o, acc_Nonce (so_data o)) 0 s1 caller) as Hst2. fold GetNonce in Hf2, He2, Hst2.
  destruct (GetNonce s1 caller) as [nonce s2]. simpl in Hn, Hf2, He2, Hst2. subst nonce.
  pose proof (fine_SetNonce Keccak256_size s2 caller (u64 ((GetNonce s caller).1 + 1))) as Hf3.
  destruct (Hf2 Hg1) as (Hg2 & _). pose proof (SetNonce_still s2 caller (u64 ((GetNonce s caller).1 + 1)) (proj1 Hg2)) as Hst3.
  set (s3 := SetNonce s2 caller (u64 ((GetNonce s caller).1 + 1))) in *. unfold GetCodeHash.
  match goal with |- context [read ?f ?n s3 address] =>
    pose proof (quiet_read Keccak256_size f n s3 address) as Hq4; pose proof (read_still f n s3 address) as Hst4;
    destruct (read f n s3 address) as [chash s4] end. simpl in Hq4, Hst4.
  pose proof (quiet_read Keccak256_size (λ o, acc_Nonce (so_data o)) 0 s4 address) as Hq5.
  pose proof (read_still (λ o, acc_Nonce (so_data o)) 0 s4 address) as Hst5. fold GetNonce in Hq5, Hst5.
  destruct (GetNonce s4 address) as [n s5]. simpl in Hq5, Hst5.
  assert (Hq35 : quiet s3 s5) by (by etrans).
  assert (Hb : ∀ s', state_equiv false s' s5 → bumped s caller s').
  { intros s' He. exists s2. split; [by etrans|]. etrans; [exact He|]. apply Hq35. }
  assert (Hf : fine s s5) by (rewrite Hf1, Hf2, Hf3; apply Hq35).
  destruct (Hf Hg) as (Hg5 & Ha5 & Hfr5).
  destruct (_ || _). { cbn. split_and!; try done; try lia. intros _ _. right. by apply Hb. }
  pose proof (create_body_spec evm s5 caller code hash gas value address Hg5 Hgas Hv) as Hbody.
  assert (Hbal5 : bal s5 caller = bal s caller).
  { assert (Hall : still s s5) by (by rewrite Hst, Hst2, Hst3, Hst4). apply Hall. }
  specialize (Hbody ltac:(lia)).
  change (create_spec evm caller s (create_body evm s5 caller code hash gas value address)).
  destruct (create_body _ _ _ _ _ _ _ _) as [[[[[ret g] err] adr] s']| | |]; try done.
  destruct Hbody as (? & ? & ? & ? & Herr). cbn [create_spec]. split_and!; try done; try lia.
  - by apply (acts_trans Keccak256_size s s5).
  - by etrans.
  - intros ? ?. right. by apply Hb, Herr.
Qed.

(** Creation as the instructions call it. *)
Lemma Create_ok evm s caller code gas value :
  good s → is_u64 gas → 0 ≤ value →
  match Create evm s caller code gas value with
  | Ok ((_, gas', _), _, s') => good s' ∧ acts s s' ∧ frugal s s' ∧ is_u64 gas'
  | r => crash r
  end.
Proof.
  intros Hg Hgas Hv. unfold Create.
  pose proof (fine_read Keccak256_size (λ o, acc_Nonce (so_data o)) 0 s caller Hg) as (Hg1 & Ha1 & Hf1).
  fold GetNonce in Hg1, Ha1, Hf1. destruct (GetNonce s caller) as [nonce s1]. simpl in Hg1, Ha1, Hf1.
  pose proof (create_ok evm s1 caller code zeroHash gas value (CreateAddress caller nonce) Hg1 Hgas Hv) as H.
  destruct (create _ _ _ _ _ _ _ _) as [[[[[ret g] err] adr] s']| | |]; try done.
  destruct H as (? & ? & ? & ? & _). split_and!; try done; [by apply (acts_trans Keccak256_size s s1)|by etrans].
Qed.

Lemma Create2_ok evm s caller code gas value salt :
  good s → is_u64 gas → 0 ≤ value →
  match Create2 evm s caller code gas value salt with
  | Ok ((_, gas', _), _, s') => good s' ∧ acts s s' ∧ frugal s s' ∧ is_u64 gas'
  | r => crash r
  end.
Proof.
  intros Hg Hgas Hv. unfold Create2. set (h := set_bytes _ _).
  pose proof (create_ok evm s caller code h gas value (CreateAddress2 caller salt h) Hg Hgas Hv) as H.
  destruct (create _ _ _ _ _ _ _ _) as [[[[[ret g] err] adr] s']| | |]; try done.
  by destruct H as (? & ? & ? & ? & _).
Qed.

End CallTheorems.

(** ** An interpreter that runs *)

Module ToyEvm.
#[local] Existing Instance ToyState.toyCrypto.
#[local] Existing Instance ToyState.toyDatabase.

(** Sets the nonce of the callee and pays one unit of gas. *)
#[local] Instance toyInterpreter : Interpreter := {|
  RequiredGas := fun _ _ => 3;
  precompile_Run := fun _ input => Ok (input, None);
  Interpreter_Run := fun _ c _ _ s =>
    let s := SetNonce s (contract_self c) 7 in
    if contract_Gas c <? 1 then Ok (None, Some ErrOutOfGas, contract_Gas c, s)
    else Ok (None, None, contract_Gas c - 1, s)
|}.

#[local] Instance toyLaws : InterpreterLaws.
Proof.
  assert (Hk : ∀ b, length (Keccak256 b) = HashLength) by (intros b; reflexivity).
  split; [done|intros; simpl; lia|by left|]. simpl. intros evm c input ro s Hg Hgas.
  destruct (fine_SetNonce Hk s (contract_self c) 7 Hg) as (? & ? & ?). unfold is_u64 in *.
  destruct (Z.ltb_spec (contract_Gas c) 1); split_and!; try done; lia.
Qed.

Definition toy_evm : EVM := {|
  evm_Origin := [1]; evm_GasPrice := 1; evm_Coinbase := [9]; evm_GasLimit := 100; evm_BlockNumber := 5;
  evm_Time := 0; evm_Difficulty := 1; evm_GetHash := fun _ => zeroHash; evm_depth := 0;
  evm_chainConfig := MainnetChainConfig; evm_NoRecursion := false; evm_EnablePreimageRecording := false;
  evm_readOnly := false
|}.

Definition toy : StateDB := ToyState.toy_state {[ [1] := ToyState.toy_object [1] 10 [] ]}.

Lemma toy_good : good toy.
Proof. split; [apply ToyState.toy_wf|by split]. Qed.

Definition error_of (r : result (outcome * StateDB)) : option string :=
  match r with Ok ((_, _, err), _) => err | _ => None end.


Definition toy_contract : Contract := {|
  CallerAddress := [1]; contract_self := [1]; contract_value := 0; contract_Gas := 5; contract_Code := None;
  contract_CodeHash := zeroHash; contract_CodeAddr := [2]
|}.

Lemma other_calls_witness :
  error_of (StaticCall toy_evm toy [1] [2] None 0) = Some ErrOutOfGas ∧
  call_spec toy (StaticCall toy_evm toy [1] [2] None 0).
Proof.
  split; [vm_compute; reflexivity|].
  apply (other_calls_atomic toy_evm toy [1] [2] toy_contract None 0 4 toy_good is_u64_0).
Defined.

End ToyEvm.
