(* ===== verification/VmBase.v ===== *)
(** * The machine of the byte code interpreter

    Words, stack, memory and the code analysis of the virtual machine
    ([core/vm/stack.go], [memory.go], [common.go], [memory_table.go],
    [analysis.go], [opcodes.go] and the jump destinations of [contract.go]).

    A [uint256.Int] is an integer in [0, 2^256).  The arithmetic of that
    package is the class [Uint256]; its documented meaning is [Uint256Laws]. *)

From Stdlib Require Import ZArith Lia.
From stdpp Require Import base option list strings.
From S2P Require Import Prelude.

(** ** Words *)

Definition two256 : Z := 2 ^ 256.
Definition is_u256 (z : Z) : Prop := 0 ≤ z < two256.

Lemma two256_eq : two256 = 115792089237316195423570985008687907853269984665640564039457584007913129639936.
Proof. reflexivity. Qed.

(** The binary methods of [uint256.Int], receiver and result left out. *)
Inductive uint256_method :=
| U_Add | U_Sub | U_Mul | U_Div | U_SDiv | U_Mod | U_SMod | U_Exp | U_ExtendSign
| U_And | U_Or | U_Xor | U_Byte | U_Lsh | U_Rsh | U_SRsh.

Class Uint256 := {
  uint256 : uint256_method → Z → Z → Z;
  uint256_Not : Z → Z;
  uint256_AddMod : Z → Z → Z → Z;
  uint256_MulMod : Z → Z → Z → Z;
  uint256_Slt : Z → Z → bool;
  uint256_Sign : Z → Z
}.

(** The signed reading of a word. *)
Definition signed256 (x : Z) : Z := if x <? 2 ^ 255 then x else x - two256.

(** What the package documents of its methods. *)
Definition uint256_spec (m : uint256_method) (x y : Z) : Z :=
  match m with
  | U_Add => (x + y) mod two256
  | U_Sub => (x - y) mod two256
  | U_Mul => (x * y) mod two256
  | U_Div => if y =? 0 then 0 else x / y
  | U_SDiv => if y =? 0 then 0 else Z.quot (signed256 x) (signed256 y) mod two256
  | U_Mod => if y =? 0 then 0 else x mod y
  | U_SMod => if y =? 0 then 0 else Z.rem (signed256 x) (signed256 y) mod two256
  | U_Exp => x ^ y mod two256
  | U_ExtendSign =>
      if 30 <? y then x
      else let b := 8 * y + 7 in
           if Z.testbit x b then (x mod 2 ^ b - 2 ^ b) mod two256 else x mod 2 ^ b
  | U_And => Z.land x y
  | U_Or => Z.lor x y
  | U_Xor => Z.lxor x y
  | U_Byte => if 31 <? y then 0 else Z.shiftr x (8 * (31 - y)) mod 256
  | U_Lsh => Z.shiftl x y mod two256
  | U_Rsh => Z.shiftr x y
  | U_SRsh => Z.shiftr (signed256 x) y mod two256
  end.

Class Uint256Laws {U : Uint256} : Prop := {
  uint256_meaning m x y : is_u256 x → is_u256 y → uint256 m x y = uint256_spec m x y;
  uint256_Not_meaning x : is_u256 x → uint256_Not x = two256 - 1 - x;
  uint256_AddMod_meaning x y m : 0 < m < two256 → is_u256 x → is_u256 y → uint256_AddMod x y m = (x + y) mod m;
  uint256_MulMod_meaning x y m :
    is_u256 m → is_u256 x → is_u256 y → uint256_MulMod x y m = if m =? 0 then 0 else (x * y) mod m;
  uint256_Slt_meaning x y : is_u256 x → is_u256 y → uint256_Slt x y = (signed256 x <? signed256 y);
  uint256_Sign_meaning x : is_u256 x → uint256_Sign x = Z.sgn (signed256 x)
}.

(** Conversions: [SetBytes] and [SetFromBig] keep the low 256 bits, [Bytes32]
    and [Bytes20] are big-endian, [Uint64] keeps the low 64 bits. *)
Definition SetBytes (b : bytes) : Z := be_Z b mod two256.
Definition SetFromBig (z : Z) : Z := z mod two256.
Definition Bytes32 (w : Z) : bytes := set_bytes HashLength (Z_be w).
Definition Bytes20 (w : Z) : bytes := set_bytes AddressLength (Z_be w).
Definition Uint64WithOverflow (w : Z) : Z * bool := (u64 w, two64 <=? w).
Definition IsUint64 (w : Z) : bool := w <? two64.

(** ** Slices *)

(** The length of a slice; no Go slice is longer than the largest [int]. *)
Definition golen (b : bytes) : Z := Z.min (Z.of_nat (length b)) (two63 - 1).

Definition index_panic : string := "index out of range".
Definition slice_panic : string := "slice bounds out of range".
Definition memory_panic : string := "invalid memory: store empty".

(** [b[lo:hi]]. *)
Definition slice (b : bytes) (lo hi : Z) : result bytes :=
  if (0 <=? lo) && (lo <=? hi) && (hi <=? Z.of_nat (length b))
  then Ok (take (Z.to_nat (hi - lo)) (drop (Z.to_nat lo) b))
  else Panic slice_panic.

(** The largest allocation of the runtime on 64-bit platforms. *)
Definition maxAlloc : Z := 2 ^ 48.

(** [common.RightPadBytes], [common.LeftPadBytes]. *)
Definition RightPadBytes (b : bytes) (l : Z) : result bytes :=
  if l <=? golen b then Ok b
  else if maxAlloc <? l then Panic makeslice_panic
  else Ok (b ++ replicate (Z.to_nat l - length b) 0).

Definition LeftPadBytes (b : bytes) (l : Z) : result bytes :=
  if l <=? golen b then Ok b
  else if maxAlloc <? l then Panic makeslice_panic
  else Ok (replicate (Z.to_nat l - length b) 0 ++ b).

(** ** [common.go] *)

Definition calcMemSize64WithUint (off length64 : Z) : Z * bool :=
  if length64 =? 0 then (0, false)
  else
    let '(offset64, overflow) := Uint64WithOverflow off in
    if overflow then (0, true)
    else let val := u64 (offset64 + length64) in (val, val <? offset64).

Definition calcMemSize64 (off l : Z) : Z * bool :=
  if negb (IsUint64 l) then (0, true) else calcMemSize64WithUint off (u64 l).

Definition getData (data : bytes) (start size : Z) : result bytes :=
  let length := golen data in
  let start := if length <? start then length else start in
  let end_ := u64 (start + size) in
  let end_ := if length <? end_ then length else end_ in
  let* part := slice data start end_ in
  RightPadBytes part (i64 size).

Definition toWordSize (size : Z) : Z :=
  if maxUint64 - 31 <? size then maxUint64 / 32 + 1 else (size + 31) / 32.

Definition allZero (b : bytes) : bool := forallb (λ x, x =? 0) b.

(** [math.SafeMul]. *)
Definition SafeMul (x y : Z) : Z * bool :=
  if (x =? 0) || (y =? 0) then (0, false) else (u64 (x * y), maxUint64 / x <? y).

(** ** Stack: the top is the head of the list *)

Definition Back (st : list Z) (n : nat) : result Z :=
  match st !! n with Some x => Ok x | None => Panic index_panic end.

Definition st_swap (st : list Z) (n : nat) : result (list Z) :=
  match st, st !! (n - 1)%nat with
  | x :: _, Some y => Ok (<[0%nat := y]> (<[(n - 1)%nat := x]> st))
  | _, _ => Panic index_panic
  end.

Definition st_dup (st : list Z) (n : nat) : result (list Z) :=
  match st !! (n - 1)%nat with Some x => Ok (x :: st) | None => Panic index_panic end.

Definition StackLimit : Z := 1024.
Definition maxStack (pop push : Z) : Z := StackLimit + pop - push.
Definition minStack (pops push : Z) : Z := pops.
Definition minSwapStack (n : Z) : Z := minStack n n.
Definition maxSwapStack (n : Z) : Z := maxStack n n.
Definition minDupStack (n : Z) : Z := minStack n (n + 1).
Definition maxDupStack (n : Z) : Z := maxStack n (n + 1).

(** ** Memory *)

(** How [append] chooses the capacity of a grown slice is left to the runtime. *)
Class GoRuntime := { growslice : Z → Z → Z }.
Class GoRuntimeLaws {G : GoRuntime} : Prop := {
  growslice_enough : ∀ cap len, len ≤ growslice cap len
}.

Record Memory := { store : bytes; store_cap : Z }.
Definition NewMemory : Memory := {| store := []; store_cap := 0 |}.
Definition mem_Len (m : Memory) : Z := Z.of_nat (length (store m)).

Definition overwrite (b : bytes) (offset : nat) (value : bytes) : bytes :=
  take offset b ++ value ++ drop (offset + length value) b.

(** [copy] stops at the end of [value]. *)
Definition mem_Set (m : Memory) (offset size : Z) (value : bytes) : result Memory :=
  if 0 <? size then
    if mem_Len m <? u64 (offset + size) then Panic memory_panic
    else if u64 (offset + size) <? offset then Panic slice_panic
    else Ok {| store := overwrite (store m) (Z.to_nat offset) (take (Z.to_nat size) value);
               store_cap := store_cap m |}
  else Ok m.

Definition mem_Set32 (m : Memory) (offset val : Z) : result Memory :=
  if mem_Len m <? u64 (offset + 32) then Panic memory_panic
  else if u64 (offset + 32) <? offset then Panic slice_panic
  else Ok {| store := overwrite (store m) (Z.to_nat offset) (Bytes32 val); store_cap := store_cap m |}.

(** The memory and whether it moved to a new array. *)
Definition mem_Resize `{GoRuntime} (m : Memory) (size : Z) : result (Memory * bool) :=
  if mem_Len m <? size then
    if maxAlloc <? size then Panic makeslice_panic
    else
      let b := store m ++ replicate (Z.to_nat size - length (store m)) 0 in
      if store_cap m <? size then Ok ({| store := b; store_cap := growslice (store_cap m) size |}, true)
      else Ok ({| store := b; store_cap := store_cap m |}, false)
  else Ok (m, false).

(** [GetPtr] and [GetCopy] give the same bytes; nil is [None]. *)
Definition mem_Get (m : Memory) (offset size : Z) : result (option bytes) :=
  if size =? 0 then Ok None
  else if offset <? mem_Len m then let* b := slice (store m) offset (i64 (offset + size)) in Ok (Some b)
  else Ok None.

(** ** Memory needed by an instruction ([memory_table.go]) *)

Definition memory_at (off len : nat) (st : list Z) : result (Z * bool) :=
  let* o := Back st off in
  let* l := Back st len in
  Ok (calcMemSize64 o l).

Definition memorySha3 := memory_at 0 1.
Definition memoryCallDataCopy := memory_at 0 2.
Definition memoryReturnDataCopy := memory_at 0 2.
Definition memoryCodeCopy := memory_at 0 2.
Definition memoryExtCodeCopy := memory_at 1 3.
Definition memoryCreate := memory_at 1 2.
Definition memoryCreate2 := memory_at 1 2.
Definition memoryReturn := memory_at 0 1.
Definition memoryRevert := memory_at 0 1.
Definition memoryLog := memory_at 0 1.

Definition memory_word (len : Z) (st : list Z) : result (Z * bool) :=
  let* o := Back st 0 in Ok (calcMemSize64WithUint o len).

Definition memoryMLoad := memory_word 32.
Definition memoryMStore8 := memory_word 1.
Definition memoryMStore := memory_word 32.

(** The larger of the return area and the argument area. *)
Definition memory_both (roff rlen aoff alen : nat) (st : list Z) : result (Z * bool) :=
  let* (x, overflow) := memory_at roff rlen st in
  if overflow then Ok (0, true)
  else
    let* (y, overflow) := memory_at aoff alen st in
    if overflow then Ok (0, true) else Ok (if y <? x then x else y, false).

Definition memoryCall := memory_both 5 6 3 4.
Definition memoryDelegateCall := memory_both 4 5 2 3.
Definition memoryStaticCall := memory_both 4 5 2 3.

(** ** Opcodes *)

Definition STOP : Z := 0.
Definition ADD : Z := 1.
Definition MUL : Z := 2.
Definition SUB : Z := 3.
Definition DIV : Z := 4.
Definition SDIV : Z := 5.
Definition MOD : Z := 6.
Definition SMOD : Z := 7.
Definition ADDMOD : Z := 8.
Definition MULMOD : Z := 9.
Definition EXP : Z := 10.
Definition SIGNEXTEND : Z := 11.
Definition LT : Z := 16.
Definition GT : Z := 17.
Definition SLT : Z := 18.
Definition SGT : Z := 19.
Definition EQ : Z := 20.
Definition ISZERO : Z := 21.
Definition AND : Z := 22.
Definition OR : Z := 23.
Definition XOR : Z := 24.
Definition NOT : Z := 25.
Definition BYTE : Z := 26.
Definition SHL : Z := 27.
Definition SHR : Z := 28.
Definition SAR : Z := 29.
Definition SHA3 : Z := 32.
Definition ADDRESS : Z := 48.
Definition BALANCE : Z := 49.
Definition ORIGIN : Z := 50.
Definition CALLER : Z := 51.
Definition CALLVALUE : Z := 52.
Definition CALLDATALOAD : Z := 53.
Definition CALLDATASIZE : Z := 54.
Definition CALLDATACOPY : Z := 55.
Definition CODESIZE : Z := 56.
Definition CODECOPY : Z := 57.
Definition GASPRICE : Z := 58.
Definition EXTCODESIZE : Z := 59.
Definition EXTCODECOPY : Z := 60.
Definition RETURNDATASIZE : Z := 61.
Definition RETURNDATACOPY : Z := 62.
Definition EXTCODEHASH : Z := 63.
Definition BLOCKHASH : Z := 64.
Definition COINBASE : Z := 65.
Definition TIMESTAMP : Z := 66.
Definition NUMBER : Z := 67.
Definition DIFFICULTY : Z := 68.
Definition GASLIMIT : Z := 69.
Definition CHAINID : Z := 70.
Definition SELFBALANCE : Z := 71.
Definition POP : Z := 80.
Definition MLOAD : Z := 81.
Definition MSTORE : Z := 82.
Definition MSTORE8 : Z := 83.
Definition SLOAD : Z := 84.
Definition SSTORE : Z := 85.
Definition JUMP : Z := 86.
Definition JUMPI : Z := 87.
Definition PC : Z := 88.
Definition MSIZE : Z := 89.
Definition GAS : Z := 90.
Definition JUMPDEST : Z := 91.
Definition PUSH1 : Z := 96.
Definition PUSH32 : Z := 127.
Definition DUP1 : Z := 128.
Definition SWAP1 : Z := 144.
Definition LOG0 : Z := 160.
Definition CREATE : Z := 240.
Definition CALL : Z := 241.
Definition CALLCODE : Z := 242.
Definition RETURN : Z := 243.
Definition DELEGATECALL : Z := 244.
Definition CREATE2 : Z := 245.
Definition STATICCALL : Z := 250.
Definition REVERT : Z := 253.
Definition SELFDESTRUCT : Z := 255.

(** ** Code analysis ([analysis.go]) *)

Abbreviation bitvec := bytes.

Definition or_byte (bits : bitvec) (i : nat) (x : Z) : result bitvec :=
  match bits !! i with
  | Some b => Ok (<[i := Z.lor b x]> bits)
  | None => Panic index_panic
  end.

Definition bit_set (bits : bitvec) (pos : nat) : result bitvec :=
  or_byte bits (pos / 8) (Z.shiftr 128 (Z.of_nat (pos mod 8))).

Definition bit_set8 (bits : bitvec) (pos : nat) : result bitvec :=
  let* bits := or_byte bits (pos / 8) (Z.shiftr 255 (Z.of_nat (pos mod 8))) in
  or_byte bits (pos / 8 + 1) (255 - Z.shiftr 255 (Z.of_nat (pos mod 8))).

Definition codeSegment (bits : bitvec) (pos : nat) : result bool :=
  match bits !! (pos / 8)%nat with
  | Some b => Ok (Z.land b (Z.shiftr 128 (Z.of_nat (pos mod 8))) =? 0)
  | None => Panic index_panic
  end.

(** The two inner loops: eight positions at a time, then one at a time.  The
    number of positions falls at every round. *)
Fixpoint mark_data (fuel : nat) (bits : bitvec) (pc numbits : nat) : result bitvec :=
  match fuel with
  | O => Ok bits
  | S fuel =>
      if (8 <=? numbits)%nat then
        let* bits := bit_set8 bits pc in mark_data fuel bits (pc + 8) (numbits - 8)
      else if (0 <? numbits)%nat then
        let* bits := bit_set bits pc in mark_data fuel bits (pc + 1) (numbits - 1)
      else Ok bits
  end.

(** The operand bytes of an opcode. *)
Definition push_size (op : Z) : nat :=
  if (PUSH1 <=? op) && (op <=? PUSH32) then Z.to_nat (op - PUSH1 + 1) else 0.

Fixpoint codeBitmap_loop (fuel : nat) (code : bytes) (pc : nat) (bits : bitvec) : result bitvec :=
  match fuel with
  | O => Ok bits
  | S fuel =>
      match code !! pc with
      | None => Ok bits
      | Some op =>
          let n := push_size op in
          let* bits := mark_data n bits (pc + 1) n in
          codeBitmap_loop fuel code (pc + 1 + n) bits
      end
  end.

Definition codeBitmap (code : bytes) : result bitvec :=
  codeBitmap_loop (length code) code 0 (replicate (length code / 8 + 1 + 4) 0).

(** [validJumpdest]: the analysis is a function of the code; where the source
    keeps it makes no difference to the answer. *)
Definition validJumpdest (code : bytes) (dest : Z) : result bool :=
  let '(udest, overflow) := Uint64WithOverflow dest in
  if overflow || (golen code <=? udest) then Ok false
  else
    match code !! Z.to_nat udest with
    | Some op =>
        if negb (op =? JUMPDEST) then Ok false
        else let* bits := codeBitmap code in codeSegment bits (Z.to_nat udest)
    | None => Panic index_panic
    end.

(** [GetOp]. *)
Definition GetOp (code : bytes) (n : Z) : Z :=
  if n <? golen code then default 0 (code !! Z.to_nat n) else 0.
