(* ===== verification/VmAnalysis.v ===== *)
(** * Jump destinations

    The bit vector of [codeBitmap] ([core/vm/analysis.go]), which marks operand
    bytes eight at a time, is the plain sweep over the code that skips the
    operands of every PUSH; and [validJumpdest] accepts exactly the JUMPDEST
    instructions of that sweep. *)

From Stdlib Require Import ZArith Lia.
From stdpp Require Import base option list strings.
From S2P Require Import Prelude VmBase.

(** Which bytes are operands, by reading the code once from the left. *)
Fixpoint operand (skip : nat) (code : bytes) : list bool :=
  match code with
  | [] => []
  | op :: code =>
      match skip with
      | O => false :: operand (push_size op) code
      | S skip => true :: operand skip code
      end
  end.

Definition is_operand (code : bytes) (pos : nat) : bool := default false (operand 0 code !! pos).

Lemma operand_skip n l i :
  (i < length l)%nat →
  operand n l !! i = if (i <? n)%nat then Some true else operand 0 (drop n l) !! (i - n)%nat.
Proof.
  revert n i. induction l as [|x l IH]; intros n i Hi; simpl in Hi; [lia|].
  destruct n as [|n]; [by rewrite Nat.sub_0_r|]. simpl. destruct i as [|i]; [done|].
  cbn [lookup list_lookup]. rewrite IH by lia. done.
Qed.

Lemma push_size_max op : (push_size op ≤ 32)%nat.
Proof.
  unfold push_size, PUSH1, PUSH32. destruct (Z.leb_spec 96 op), (Z.leb_spec op 127); simpl; lia.
Qed.

(** ** Bits *)

Definition bit (bits : bitvec) (p : nat) : bool :=
  match bits !! (p / 8)%nat with Some b => Z.testbit b (7 - Z.of_nat (p mod 8)) | None => false end.

Lemma mod8 p : (p mod 8 < 8)%nat.
Proof. by apply Nat.mod_upper_bound. Qed.

(** A statement on a position in a byte, by cases. *)
Lemma forall8 (P : nat → Prop) : Forall P (seq 0 8) → ∀ k, (k < 8)%nat → P k.
Proof. intros H k Hk. rewrite Forall_forall in H. apply H, elem_of_seq. lia. Qed.

Lemma land_bit b k : (k < 8)%nat → (Z.land b (Z.shiftr 128 (Z.of_nat k)) =? 0) = negb (Z.testbit b (7 - Z.of_nat k)).
Proof.
  intros Hk. assert (E : Z.shiftr 128 (Z.of_nat k) = 2 ^ (7 - Z.of_nat k)).
  { revert k Hk. apply forall8. by repeat constructor. }
  rewrite E. set (j := 7 - Z.of_nat k). assert (Hj : 0 ≤ j) by (unfold j; lia). clearbody j.
  destruct (Z.testbit b j) eqn:Hb; simpl.
  - apply Z.eqb_neq. intros H0. assert (Ht : Z.testbit (Z.land b (2 ^ j)) j = true)
      by (by rewrite Z.land_spec, Hb, Z.pow2_bits_true). rewrite H0, Z.bits_0 in Ht. done.
  - apply Z.eqb_eq, Z.bits_inj. intros i. rewrite Z.land_spec, Z.bits_0.
    destruct (decide (i = j)) as [->|]; [by rewrite Hb|]. by rewrite Z.pow2_bits_false, andb_false_r by lia.
Qed.

Lemma codeSegment_bit bits pos :
  (pos / 8 < length bits)%nat → codeSegment bits pos = Ok (negb (bit bits pos)).
Proof.
  intros H. unfold codeSegment, bit. destruct (bits !! (pos / 8)%nat) as [b|] eqn:E.
  - by rewrite land_bit by apply mod8.
  - apply lookup_ge_None in E. lia.
Qed.

Lemma or_byte_spec bits i x :
  (i < length bits)%nat →
  ∃ bits', or_byte bits i x = Ok bits' ∧ length bits' = length bits ∧
    ∀ p, bit bits' p = bit bits p || bool_decide (p / 8 = i)%nat && Z.testbit x (7 - Z.of_nat (p mod 8)).
Proof.
  intros Hi. unfold or_byte. destruct (bits !! i) as [b|] eqn:E; [|apply lookup_ge_None in E; lia].
  eexists. split; [done|]. split; [apply length_insert|]. intros p. unfold bit.
  destruct (decide ((p / 8)%nat = i)) as [Hp|Hp].
  - rewrite Hp, bool_decide_eq_true_2, list_lookup_insert_eq, E by done. simpl. by rewrite Z.lor_spec.
  - rewrite bool_decide_eq_false_2, list_lookup_insert_ne by done. simpl. by rewrite orb_false_r.
Qed.

(** The bits of the masks, counted from the most significant one. *)
Lemma mask_bits k o :
  (k < 8)%nat → (o < 8)%nat →
  Z.testbit (Z.shiftr 128 (Z.of_nat k)) (7 - Z.of_nat o) = (o =? k)%nat ∧
  Z.testbit (Z.shiftr 255 (Z.of_nat k)) (7 - Z.of_nat o) = (k <=? o)%nat ∧
  Z.testbit (255 - Z.shiftr 255 (Z.of_nat k)) (7 - Z.of_nat o) = (o <? k)%nat.
Proof.
  intros Hk Ho. revert k Hk. apply forall8. revert o Ho. apply (forall8 (λ o, Forall _ _)).
  by repeat constructor.
Qed.

(** Quotient and remainder by eight of two positions. *)
Ltac eighths p q :=
  pose proof (mod8 p); pose proof (mod8 q);
  pose proof (Nat.div_mod_eq p 8); pose proof (Nat.div_mod_eq q 8).

Definition marks (bits bits' : bitvec) (pos n : nat) : Prop :=
  length bits' = length bits ∧ ∀ p, bit bits' p = bit bits p || bool_decide (pos ≤ p < pos + n)%nat.

Lemma bit_set_spec bits pos :
  (pos / 8 < length bits)%nat → ∃ bits', bit_set bits pos = Ok bits' ∧ marks bits bits' pos 1.
Proof.
  intros H. unfold bit_set. destruct (or_byte_spec bits (pos / 8) (Z.shiftr 128 (Z.of_nat (pos mod 8))) H)
    as (bits' & -> & Hl & Hb).
  exists bits'. split; [done|]. split; [done|]. intros p. rewrite Hb. f_equal.
  destruct (mask_bits (pos mod 8) (p mod 8) (mod8 _) (mod8 _)) as (-> & _). eighths p pos.
  apply eq_true_iff_eq. rewrite andb_true_iff, !bool_decide_eq_true, Nat.eqb_eq. lia.
Qed.

Lemma bit_set8_spec bits pos :
  (pos / 8 + 1 < length bits)%nat → ∃ bits', bit_set8 bits pos = Ok bits' ∧ marks bits bits' pos 8.
Proof.
  intros H. unfold bit_set8.
  destruct (or_byte_spec bits (pos / 8) (Z.shiftr 255 (Z.of_nat (pos mod 8))) ltac:(lia)) as (b1 & -> & Hl1 & Hb1).
  cbn [bind].
  destruct (or_byte_spec b1 (pos / 8 + 1) (255 - Z.shiftr 255 (Z.of_nat (pos mod 8))) ltac:(lia)) as (b2 & -> & Hl2 & Hb2).
  exists b2. split; [done|]. split; [lia|]. intros p. rewrite Hb2, Hb1, <- orb_assoc. f_equal.
  destruct (mask_bits (pos mod 8) (p mod 8) (mod8 _) (mod8 _)) as (_ & -> & ->). eighths p pos.
  apply eq_true_iff_eq. rewrite orb_true_iff, !andb_true_iff, !bool_decide_eq_true, Nat.leb_le, Nat.ltb_lt. lia.
Qed.

Lemma marks_trans b1 b2 b3 pos n m :
  marks b1 b2 pos n → marks b2 b3 (pos + n) m → marks b1 b3 pos (n + m).
Proof.
  intros [L1 M1] [L2 M2]. split; [lia|]. intros p. rewrite M2, M1, <- orb_assoc. f_equal.
  apply eq_true_iff_eq. rewrite orb_true_iff, !bool_decide_eq_true. lia.
Qed.

Lemma mark_data_spec fuel bits pc n :
  (n ≤ fuel)%nat → ((pc + n) / 8 < length bits)%nat →
  ∃ bits', mark_data fuel bits pc n = Ok bits' ∧ marks bits bits' pc n.
Proof.
  revert bits pc n. induction fuel as [|fuel IH]; intros bits pc n Hn Hl; cbn [mark_data].
  { replace n with 0%nat by lia. exists bits. split; [done|]. split; [done|]. intros p.
    rewrite bool_decide_eq_false_2, orb_false_r by lia. done. }
  eighths pc (pc + n)%nat. destruct (Nat.leb_spec 8 n).
  - destruct (bit_set8_spec bits pc) as (b1 & -> & M1); [lia|]. cbn [bind].
    destruct (IH b1 (pc + 8)%nat (n - 8)%nat) as (b2 & -> & M2); [lia|destruct M1 as [-> _]|].
    { by replace (pc + 8 + (n - 8))%nat with (pc + n)%nat by lia. }
    exists b2. split; [done|]. replace n with (8 + (n - 8))%nat by lia. by eapply marks_trans.
  - destruct (Nat.ltb_spec 0 n).
    + destruct (bit_set_spec bits pc) as (b1 & -> & M1); [lia|]. cbn [bind].
      destruct (IH b1 (pc + 1)%nat (n - 1)%nat) as (b2 & -> & M2); [lia|destruct M1 as [-> _]|].
      { by replace (pc + 1 + (n - 1))%nat with (pc + n)%nat by lia. }
      exists b2. split; [done|]. replace n with (1 + (n - 1))%nat by lia. by eapply marks_trans.
    + replace n with 0%nat by lia. exists bits. split; [done|]. split; [done|]. intros p.
      rewrite bool_decide_eq_false_2, orb_false_r by lia. done.
Qed.

(** ** The sweep *)

Lemma codeBitmap_loop_spec code fuel pc bits :
  (length code ≤ pc + fuel)%nat → ((length code + 32) / 8 < length bits)%nat →
  ∃ bits', codeBitmap_loop fuel code pc bits = Ok bits' ∧ length bits' = length bits ∧
    ∀ p, (p < length code)%nat →
      bit bits' p = bit bits p || bool_decide (pc ≤ p)%nat && is_operand (drop pc code) (p - pc).
Proof.
  revert pc bits. induction fuel as [|fuel IH]; intros pc bits Hf Hl; cbn [codeBitmap_loop].
  { exists bits. split; [done|]. split; [done|]. intros p Hp. rewrite bool_decide_eq_false_2 by lia.
    by rewrite orb_false_r. }
  destruct (code !! pc) as [op|] eqn:Eop.
  2:{ apply lookup_ge_None in Eop. exists bits. split; [done|]. split; [done|]. intros p Hp.
      rewrite bool_decide_eq_false_2 by lia. by rewrite orb_false_r. }
  pose proof (lookup_lt_Some _ _ _ Eop) as Hpc. pose proof (push_size_max op) as Hn. set (n := push_size op) in *.
  eighths (pc + 1 + n)%nat (length code + 32)%nat.
  destruct (mark_data_spec n bits (pc + 1) n) as (b1 & -> & L1 & M1); [lia|lia|]. cbn [bind].
  destruct (IH (pc + 1 + n)%nat b1) as (b2 & -> & L2 & M2); [lia|lia|].
  exists b2. split; [done|]. split; [lia|]. intros p Hp. rewrite M2, M1, <- orb_assoc by done. f_equal.
  unfold is_operand. rewrite (drop_S _ _ _ Eop). cbn [operand]. fold n.
  destruct (decide (p = pc)) as [->|Hne].
  { rewrite Nat.sub_diag, (bool_decide_eq_false_2 (pc + 1 ≤ pc < _)%nat), (bool_decide_eq_false_2 (pc + 1 + n ≤ pc)%nat) by lia.
    by rewrite andb_false_r. }
  destruct (decide (pc ≤ p)%nat) as [Hle|Hlt].
  2:{ rewrite !bool_decide_eq_false_2 by lia. done. }
  rewrite (bool_decide_eq_true_2 (pc ≤ p)%nat) by done. cbn [andb].
  replace (p - pc)%nat with (S (p - pc - 1)) by lia. cbn [lookup list_lookup].
  rewrite (operand_skip n (drop (S pc) code)) by (rewrite length_drop; lia). rewrite drop_drop.
  destruct (Nat.ltb_spec (p - pc - 1) n).
  - rewrite bool_decide_eq_true_2 by lia. done.
  - rewrite (bool_decide_eq_false_2 (pc + 1 ≤ p < _)%nat), (bool_decide_eq_true_2 (pc + 1 + n ≤ p)%nat) by lia. cbn [orb andb].
    replace (p - (pc + 1 + n))%nat with (p - pc - 1 - n)%nat by lia.
    by replace (S pc + n)%nat with (pc + 1 + n)%nat by lia.
Qed.

Lemma codeBitmap_sweep code :
  ∃ bits, codeBitmap code = Ok bits ∧
    ∀ pos, (pos < length code)%nat → codeSegment bits pos = Ok (negb (is_operand code pos)).
Proof.
  unfold codeBitmap. set (b0 := replicate _ 0).
  assert (L0 : length b0 = (length code / 8 + 5)%nat) by (unfold b0; rewrite length_replicate; lia).
  eighths (length code) (length code + 32)%nat.
  destruct (codeBitmap_loop_spec code (length code) 0 b0) as (bits & -> & L & M); [lia|lia|].
  exists bits. split; [done|]. intros pos Hpos. eighths pos (length code).
  rewrite codeSegment_bit by lia. rewrite M by done. do 2 f_equal.
  assert (Hz : bit b0 pos = false).
  { unfold bit, b0. rewrite lookup_replicate_2 by lia. apply Z.bits_0. }
  rewrite Hz, bool_decide_eq_true_2, Nat.sub_0_r, drop_0 by lia. done.
Qed.

(** C30: the code analysis is the plain sweep.  [codeBitmap] never indexes out
    of its bit vector, and for every position of the code [codeSegment] says
    whether the sweep that skips the operands of PUSH instructions reads the
    byte as an instruction. *)
Theorem codeBitmap_correct (code : bytes) :
  ∃ bits, codeBitmap code = Ok bits ∧
    ∀ pos, (pos < length code)%nat → codeSegment bits pos = Ok (negb (is_operand code pos)).
Proof. apply codeBitmap_sweep. Qed.

Definition jumpdest (code : bytes) (dest : Z) : bool :=
  (dest <? golen code) && bool_decide (code !! Z.to_nat dest = Some JUMPDEST) && negb (is_operand code (Z.to_nat dest)).

(** The answer of [validJumpdest]; no jump panics. *)
Lemma validJumpdest_spec code dest : 0 ≤ dest → validJumpdest code dest = Ok (jumpdest code dest).
Proof.
  intros Hd. unfold validJumpdest, jumpdest, Uint64WithOverflow.
  assert (Hg : golen code ≤ two63 - 1 ∧ golen code ≤ Z.of_nat (length code)) by (unfold golen; lia).
  destruct (Z.leb_spec two64 dest) as [Ho|Ho]; cbn [orb].
  { destruct (Z.ltb_spec dest (golen code)); [word|done]. }
  rewrite u64_small by (unfold is_u64; lia).
  destruct (Z.leb_spec (golen code) dest) as [Hle|Hlt].
  { destruct (Z.ltb_spec dest (golen code)); [lia|done]. }
  destruct (Z.ltb_spec dest (golen code)); [|lia]. cbn [andb].
  destruct (code !! Z.to_nat dest) as [op|] eqn:E; [|apply lookup_ge_None in E; lia].
  destruct (Z.eqb_spec op JUMPDEST) as [->|Hne]; cbn [negb].
  - rewrite bool_decide_eq_true_2 by done. destruct (codeBitmap_sweep code) as (bits & -> & Hs). cbn [bind].
    apply Hs. lia.
  - rewrite bool_decide_eq_false_2 by congruence. done.
Qed.
