(* ===== verification/VmMachine.v ===== *)
(** * Words, memory and slices of the interpreter

    The arithmetic of the stack stays in 256 bits, memory that was resized for
    an instruction holds everything the instruction reads and writes, and the
    copies of [getData] never slice out of range. *)

From Stdlib Require Import ZArith Lia.
From stdpp Require Import base option list strings.
From S2P Require Import Prelude StateRevert VmBase.

Create HintDb vm.

(** ** Words *)

Lemma two256_pos : 0 < two256.
Proof. reflexivity. Qed.

Lemma mod_u256 z : is_u256 (z mod two256).
Proof. apply Z.mod_pos_bound, two256_pos. Qed.

Lemma SetBytes_u256 b : is_u256 (SetBytes b).
Proof. apply mod_u256. Qed.

Lemma SetFromBig_u256 z : is_u256 (SetFromBig z).
Proof. apply mod_u256. Qed.

Lemma u64_u256 z : is_u64 z → is_u256 z.
Proof. unfold is_u64, is_u256. rewrite two256_eq. word. Qed.

Lemma u64_word z : is_u256 (u64 z).
Proof. apply u64_u256, u64_range. Qed.

Lemma flag_u256 (b : bool) : is_u256 (if b then 1 else 0).
Proof. unfold is_u256. rewrite two256_eq. destruct b; lia. Qed.

Lemma zero_u256 : is_u256 0.
Proof. apply (flag_u256 false). Qed.

Lemma max_u256 : is_u256 (two256 - 1).
Proof. by vm_compute. Qed.

Lemma golen_u64 b : is_u64 (golen b).
Proof. unfold golen, is_u64. word. Qed.

#[export] Hint Resolve mod_u256 SetBytes_u256 SetFromBig_u256 u64_u256 u64_word flag_u256 zero_u256 max_u256 golen_u64
  u64_range : vm.

(** A word is a number without bits from 256 on. *)
Lemma u256_bits z : 0 ≤ z → (∀ i, 256 ≤ i → Z.testbit z i = false) → is_u256 z.
Proof. intros H0 H. split; [done|]. by apply Z.bounded_iff_bits_nonneg. Qed.

Lemma u256_high z i : is_u256 z → 256 ≤ i → Z.testbit z i = false.
Proof. intros [H0 H] Hi. by apply (Z.bounded_iff_bits_nonneg 256). Qed.

Lemma bitwise_u256 x y :
  is_u256 x → is_u256 y → is_u256 (Z.land x y) ∧ is_u256 (Z.lor x y) ∧ is_u256 (Z.lxor x y).
Proof.
  intros Hx Hy. assert (0 ≤ x ∧ 0 ≤ y) as [] by (unfold is_u256 in *; lia).
  split_and!; (apply u256_bits; [rewrite ?Z.land_nonneg, ?Z.lor_nonneg, ?Z.lxor_nonneg; lia|]); intros i Hi;
    by rewrite ?Z.land_spec, ?Z.lor_spec, ?Z.lxor_spec, (u256_high x i Hx Hi), (u256_high y i Hy Hi).
Qed.

Lemma div_u256 x y : is_u256 x → 0 < y → is_u256 (x / y).
Proof.
  unfold is_u256. intros Hx Hy. split; [apply Z.div_pos; lia|].
  assert (x / y ≤ x); [|lia]. apply Z.div_le_upper_bound; [lia|]. nia.
Qed.

Lemma mod_le_u256 x y : 0 < y → y ≤ two256 → is_u256 (x mod y).
Proof. intros Hy Hle. pose proof (Z.mod_pos_bound x y Hy). unfold is_u256. lia. Qed.

(** Every method of the package gives a word. *)
Lemma uint256_spec_range m x y : is_u256 x → is_u256 y → is_u256 (uint256_spec m x y).
Proof.
  intros Hx Hy. destruct (bitwise_u256 x y Hx Hy) as (? & ? & ?).
  destruct m; cbn [uint256_spec]; try done; try apply mod_u256.
  - destruct (Z.eqb_spec y 0); [apply zero_u256|]. apply div_u256; [done|unfold is_u256 in Hy; lia].
  - destruct (_ =? _); auto with vm.
  - destruct (Z.eqb_spec y 0); [apply zero_u256|]. unfold is_u256 in Hy. apply mod_le_u256; lia.
  - destruct (_ =? _); auto with vm.
  - destruct (Z.ltb_spec 30 y); [done|]. destruct (Z.testbit _ _); [apply mod_u256|]. unfold is_u256 in Hy.
    apply mod_le_u256; [apply Z.pow_pos_nonneg; lia|]. apply Z.pow_le_mono_r; lia.
  - destruct (31 <? y); [apply zero_u256|]. apply mod_le_u256; rewrite ?two256_eq; lia.
  - unfold is_u256 in Hy. rewrite Z.shiftr_div_pow2 by lia. apply div_u256; [done|]. apply Z.pow_pos_nonneg; lia.
Qed.

Section Words.
Context {U : Uint256} {UL : Uint256Laws}.

Lemma uint256_range m x y : is_u256 x → is_u256 y → is_u256 (uint256 m x y).
Proof. intros. rewrite uint256_meaning by done. by apply uint256_spec_range. Qed.

Lemma uint256_Not_range x : is_u256 x → is_u256 (uint256_Not x).
Proof. intros H. rewrite uint256_Not_meaning by done. unfold is_u256 in *. lia. Qed.

Lemma uint256_AddMod_range x y m :
  is_u256 x → is_u256 y → is_u256 m → is_u256 (if m =? 0 then 0 else uint256_AddMod x y m).
Proof.
  intros Hx Hy Hm. destruct (Z.eqb_spec m 0); [apply zero_u256|].
  assert (0 < m < two256) by (unfold is_u256 in Hm; lia).
  rewrite uint256_AddMod_meaning by done. apply mod_le_u256; lia.
Qed.

Lemma uint256_MulMod_range x y m : is_u256 x → is_u256 y → is_u256 m → is_u256 (uint256_MulMod x y m).
Proof.
  intros Hx Hy Hm. rewrite uint256_MulMod_meaning by done. destruct (Z.eqb_spec m 0); [apply zero_u256|].
  unfold is_u256 in Hm. apply mod_le_u256; lia.
Qed.
End Words.

#[export] Hint Resolve uint256_range uint256_Not_range uint256_AddMod_range uint256_MulMod_range : vm.

(** ** Memory *)

Lemma maxAlloc_eq : maxAlloc = 281474976710656.
Proof. reflexivity. Qed.

(** The area of [size] bytes at [off] is inside the memory, or empty. *)
Definition fits (m : Memory) (off size : Z) : Prop := size = 0 ∨ 0 ≤ off ∧ 0 < size ∧ off + size ≤ mem_Len m.

Lemma calcMemSize64WithUint_fits m off l n :
  0 ≤ off → is_u64 l → calcMemSize64WithUint off l = (n, false) → n ≤ mem_Len m → fits m off l.
Proof.
  intros Ho Hl. unfold calcMemSize64WithUint, Uint64WithOverflow.
  destruct (Z.eqb_spec l 0); [by left|]. destruct (Z.leb_spec two64 off); [done|].
  rewrite (u64_small off) by (unfold is_u64; lia). intros [= <- Hlt%Z.ltb_ge] Hn. right.
  assert (Hs : u64 (off + l) = off + l); [|unfold is_u64 in Hl; lia].
  destruct (decide (off + l < two64)); [apply u64_small; unfold is_u64 in *; lia|].
  assert (u64 (off + l) = off + l - two64); [|unfold is_u64 in Hl; lia].
  unfold u64. symmetry. apply Z.mod_unique_pos with 1; [unfold is_u64 in Hl|]; word.
Qed.

Lemma calcMemSize64_fits m off l n :
  is_u256 off → is_u256 l → calcMemSize64 off l = (n, false) → n ≤ mem_Len m → fits m off l.
Proof.
  intros Ho Hl. unfold calcMemSize64, IsUint64. destruct (Z.ltb_spec l two64); [|done]. cbn [negb].
  unfold is_u256 in Ho, Hl. assert (is_u64 l) by (unfold is_u64; lia). rewrite u64_small by done.
  apply calcMemSize64WithUint_fits; [lia|done].
Qed.

Lemma memory_at_fits a b st n m off l :
  memory_at a b st = Ok (n, false) → n ≤ mem_Len m → st !! a = Some off → st !! b = Some l →
  is_u256 off → is_u256 l → fits m off l.
Proof.
  unfold memory_at, Back. intros H Hn Ho Hl. rewrite Ho, Hl in H. cbn [bind] in H. injection H as H. intros; by eapply calcMemSize64_fits.
Qed.

Lemma memory_word_fits len st n m off :
  memory_word len st = Ok (n, false) → n ≤ mem_Len m → st !! 0%nat = Some off →
  is_u256 off → is_u64 len → fits m off len.
Proof.
  unfold memory_word, Back. intros H Hn Hst Ho Hl. rewrite Hst in H. cbn [bind] in H. injection H as H.
  apply calcMemSize64WithUint_fits with n; try done. unfold is_u256 in Ho. lia.
Qed.

Lemma memory_both_inv a b c d st n :
  memory_both a b c d st = Ok (n, false) →
  ∃ x y, memory_at a b st = Ok (x, false) ∧ memory_at c d st = Ok (y, false) ∧ x ≤ n ∧ y ≤ n.
Proof.
  unfold memory_both. destruct (memory_at a b st) as [[x []]| | |]; try done. cbn [bind].
  destruct (memory_at c d st) as [[y []]| | |]; try done. cbn [bind]. intros [= <-]. exists x, y.
  destruct (Z.ltb_spec y x); split_and!; done || lia.
Qed.

Section Fits.
Context (m : Memory) (off size : Z) (Hfits : fits m off size) (Hmax : mem_Len m ≤ maxAlloc).

(** The conversions of the instructions keep such an area. *)
Lemma fits_small : 0 < size → u64 off = off ∧ i64 off = off ∧ is_u64 (off + size).
Proof using Hfits Hmax.
  intros Hs. destruct Hfits as [?|(? & _ & Hle)]; [lia|]. rewrite maxAlloc_eq in Hmax.
  split; [apply u64_small; word|]. split; [apply i64_small; word|word].
Qed.

Lemma fits_size : 0 ≤ size ≤ maxAlloc ∧ u64 size = size ∧ i64 size = size.
Proof using Hfits Hmax.
  assert (Hs : 0 ≤ size ≤ maxAlloc) by (destruct Hfits; rewrite ?maxAlloc_eq in *; lia).
  split; [done|]. rewrite maxAlloc_eq in Hs. split; [apply u64_small|apply i64_small]; word.
Qed.

Lemma slice_ok b lo hi : 0 ≤ lo → lo ≤ hi → hi ≤ Z.of_nat (length b) → ∃ p, slice b lo hi = Ok p.
Proof using.
  intros. unfold slice. eexists. rewrite (proj2 (Z.leb_le 0 lo)), (proj2 (Z.leb_le lo hi)), (proj2 (Z.leb_le hi _)) by lia.
  done.
Qed.

Lemma mem_Get_ok : ∃ b, mem_Get m (i64 (u64 off)) (i64 (u64 size)) = Ok b.
Proof using Hfits Hmax.
  destruct fits_size as (Hs & -> & ->). unfold mem_Get. destruct (Z.eqb_spec size 0); [by eexists|].
  destruct fits_small as (-> & -> & Hsum); [lia|]. destruct Hfits as [?|(? & ? & Hle)]; [lia|].
  destruct (_ <? _); [|by eexists]. rewrite maxAlloc_eq in Hmax. rewrite i64_small by word.
  destruct (slice_ok (store m) off (off + size)) as [p ->]; [lia|lia|done|]. by eexists.
Qed.

Lemma length_overwrite b o v : (o + length v ≤ length b)%nat → length (overwrite b o v) = length b.
Proof using. intros. unfold overwrite. rewrite !length_app, length_take, length_drop. lia. Qed.

Lemma mem_Set_ok v : ∃ m', mem_Set m (u64 off) (u64 size) v = Ok m' ∧ mem_Len m' = mem_Len m.
Proof using Hfits Hmax.
  destruct fits_size as (Hs & -> & _). unfold mem_Set. destruct (Z.ltb_spec 0 size); [|by eexists].
  destruct fits_small as (-> & _ & Hsum); [lia|]. destruct Hfits as [?|(? & ? & Hle)]; [lia|].
  rewrite u64_small by done. rewrite (proj2 (Z.ltb_ge (mem_Len m) _)), (proj2 (Z.ltb_ge _ off)) by lia.
  eexists. split; [done|]. unfold mem_Len in *. simpl. rewrite length_overwrite; [done|].
  rewrite length_take. lia.
Qed.
End Fits.

Lemma mem_Set32_ok m off v :
  fits m off 32 → mem_Len m ≤ maxAlloc → ∃ m', mem_Set32 m (u64 off) v = Ok m' ∧ mem_Len m' = mem_Len m.
Proof.
  intros Hf Hm. destruct (fits_small m off 32 Hf Hm) as (-> & _ & Hs); [lia|].
  destruct Hf as [?|(? & _ & Hle)]; [lia|]. unfold mem_Set32. rewrite u64_small by done.
  rewrite (proj2 (Z.ltb_ge (mem_Len m) _)), (proj2 (Z.ltb_ge _ off)) by lia. eexists. split; [done|].
  unfold mem_Len in *. simpl. rewrite length_overwrite; [done|]. unfold Bytes32. rewrite set_bytes_length.
  unfold HashLength. lia.
Qed.

(** ** Copies *)

Lemma RightPadBytes_ok b l : l ≤ maxAlloc → ∃ p, RightPadBytes b l = Ok p.
Proof.
  intros. unfold RightPadBytes. destruct (_ <=? _); [by eexists|].
  rewrite (proj2 (Z.ltb_ge maxAlloc l)) by done. by eexists.
Qed.

Lemma getData_ok data start size :
  is_u64 start → 0 ≤ size ≤ maxAlloc → ∃ p, getData data start size = Ok p.
Proof.
  intros Hstart Hs. unfold getData. pose proof (golen_u64 data) as Hg.
  assert (Hl : golen data ≤ Z.of_nat (length data) ∧ golen data < two63) by (unfold golen; lia).
  rewrite maxAlloc_eq in Hs.
  set (lo := if golen data <? start then golen data else start).
  assert (Hlo : 0 ≤ lo ≤ golen data) by (unfold lo, is_u64 in *; destruct (Z.ltb_spec (golen data) start); lia).
  rewrite u64_small by word. rewrite i64_small by word.
  set (hi := if golen data <? lo + size then golen data else lo + size).
  assert (Hhi : lo ≤ hi ≤ golen data) by (unfold hi; destruct (Z.ltb_spec (golen data) (lo + size)); lia).
  destruct (slice_ok data lo hi) as [p ->]; [lia..|]. cbn [bind]. apply RightPadBytes_ok. rewrite maxAlloc_eq. lia.
Qed.

(** ** Resizing *)

Lemma mem_Resize_spec `{GoRuntime} m size :
  mem_Len m ≤ maxAlloc →
  match mem_Resize m size with
  | Ok (m', _) => mem_Len m ≤ mem_Len m' ≤ maxAlloc ∧ size ≤ mem_Len m'
  | Panic p => p = makeslice_panic
  | _ => False
  end.
Proof.
  intros Hm. unfold mem_Resize. destruct (Z.ltb_spec (mem_Len m) size); [|simpl; lia].
  destruct (Z.ltb_spec maxAlloc size); [done|].
  destruct (_ <? _); unfold mem_Len in *; simpl; rewrite length_app, length_replicate; lia.
Qed.

Lemma toWordSize_bytes n size :
  is_u64 n → SafeMul (toWordSize n) 32 = (size, false) → 0 ≤ size ∧ n ≤ size ∧ (n = 0 → size = 0).
Proof.
  intros Hn. unfold toWordSize, SafeMul, is_u64, maxUint64 in *.
  destruct (Z.ltb_spec (two64 - 1 - 31) n) as [Hbig|Hsmall].
  { vm_compute. discriminate. }
  pose proof (Z.div_mod (n + 31) 32 ltac:(lia)) as Hd. pose proof (Z.mod_pos_bound (n + 31) 32 ltac:(lia)).
  destruct (Z.eqb_spec ((n + 31) / 32) 0) as [E|E]; cbn [orb Z.eqb]; intros Heq; injection Heq as <-; [lia|].
  rewrite u64_small by word. lia.
Qed.

(** ** Sizes *)

(** A memory function that answers on stacks of [n] words. *)
Definition sizes (n : Z) (m : list Z → result (Z * bool)) : Prop := ∀ st,
  n ≤ Z.of_nat (length st) → ∃ size overflow, m st = Ok (size, overflow) ∧ is_u64 size.

Lemma Back_ok st (n : nat) : (n < length st)%nat → ∃ x, Back st n = Ok x.
Proof. intros H. unfold Back. destruct (lookup_lt_is_Some_2 st n H) as [x ->]. by exists x. Qed.

Lemma calcMemSize64WithUint_u64 off l : is_u64 (calcMemSize64WithUint off l).1.
Proof. unfold calcMemSize64WithUint, Uint64WithOverflow. repeat case_match; simpl; auto using is_u64_0, u64_range. Qed.

Lemma calcMemSize64_u64 off l : is_u64 (calcMemSize64 off l).1.
Proof. unfold calcMemSize64. case_match; [apply is_u64_0|]. apply calcMemSize64WithUint_u64. Qed.

Lemma memory_at_sizes n a b : Z.of_nat a < n → Z.of_nat b < n → sizes n (memory_at a b).
Proof.
  intros Ha Hb st Hst. unfold memory_at. destruct (Back_ok st a) as [x ->]; [lia|].
  destruct (Back_ok st b) as [y ->]; [lia|]. cbn [bind]. pose proof (calcMemSize64_u64 x y).
  destruct (calcMemSize64 x y) as [size o]. by exists size, o.
Qed.

Lemma memory_word_sizes n len : 0 < n → sizes n (memory_word len).
Proof.
  intros Hn st Hst. unfold memory_word. destruct (Back_ok st 0) as [x ->]; [lia|]. cbn [bind].
  pose proof (calcMemSize64WithUint_u64 x len). destruct (calcMemSize64WithUint x len) as [size o]. by exists size, o.
Qed.

Lemma memory_both_sizes n a b c d :
  Z.of_nat a < n → Z.of_nat b < n → Z.of_nat c < n → Z.of_nat d < n → sizes n (memory_both a b c d).
Proof.
  intros Ha Hb Hc Hd st Hst. unfold memory_both.
  destruct (memory_at_sizes n a b Ha Hb st Hst) as (x & o & -> & Hx). cbn [bind].
  destruct o; [by exists 0, true; auto using is_u64_0|].
  destruct (memory_at_sizes n c d Hc Hd st Hst) as (y & o & -> & Hy). cbn [bind].
  destruct o; [by exists 0, true; auto using is_u64_0|]. exists (if y <? x then x else y), false.
  by destruct (y <? x).
Qed.
