(* ===== verification/Vm.v ===== *)
(** * The byte code interpreter ([core/vm/instructions.go], [jump_table.go], [eips.go], [interpreter.go])

    One definition per instruction, the instruction tables of the forks, the
    restrictions of static calls and the main loop.

    The interpreter of this client charges no gas: the statements that compute
    and deduct the cost of an instruction are commented out in [Run].  The gas
    fields of an operation and the functions behind them ([gas_table.go],
    [operations_acl.go]) are therefore never evaluated and have no counterpart
    here; [callGasTemp], which only they set, is always zero.  The abort flag
    is never set while a block is processed, and is left out. *)

From Stdlib Require Import ZArith Lia.
From stdpp Require Import base option list gmap sets strings.
From S2P Require Import Prelude Params Rlp Types Account State Evm VmBase.

Definition CallStipend : Z := 2300.
Definition callGasTemp : Z := 0.

Definition errWriteProtection : string := "evm: write protection".
Definition errGasUintOverflow : string := "gas uint64 overflow".
Definition ErrExecutionReverted : string := "execution reverted".
Definition ErrInvalidJump : string := "invalid jump destination".
Definition ErrReturnDataOutOfBounds : string := "return data out of bounds".

(** ** Frames *)

(** The data of the last call: a slice of its own, or a slice of the memory of
    this frame (the identity contract returns its argument). *)
Inductive retData :=
| RBytes (b : option bytes)
| RAlias (offset size : Z).

Section Frames.
Context {D : Database}.

Record Frame := {
  f_pc : Z;
  f_stack : list Z;
  f_mem : Memory;
  f_gas : Z;                  (* contract.Gas *)
  f_returnData : retData;
  f_state : StateDB
}.

Definition set_pc (f : Frame) (x : Z) : Frame :=
  {| f_pc := x; f_stack := f_stack f; f_mem := f_mem f; f_gas := f_gas f;
     f_returnData := f_returnData f; f_state := f_state f |}.
Definition set_stack (f : Frame) (x : list Z) : Frame :=
  {| f_pc := f_pc f; f_stack := x; f_mem := f_mem f; f_gas := f_gas f;
     f_returnData := f_returnData f; f_state := f_state f |}.
Definition set_mem (f : Frame) (x : Memory) : Frame :=
  {| f_pc := f_pc f; f_stack := f_stack f; f_mem := x; f_gas := f_gas f;
     f_returnData := f_returnData f; f_state := f_state f |}.
Definition set_gas (f : Frame) (x : Z) : Frame :=
  {| f_pc := f_pc f; f_stack := f_stack f; f_mem := f_mem f; f_gas := x;
     f_returnData := f_returnData f; f_state := f_state f |}.
Definition set_returnData (f : Frame) (x : retData) : Frame :=
  {| f_pc := f_pc f; f_stack := f_stack f; f_mem := f_mem f; f_gas := f_gas f;
     f_returnData := x; f_state := f_state f |}.
Definition set_state (f : Frame) (x : StateDB) : Frame :=
  {| f_pc := f_pc f; f_stack := f_stack f; f_mem := f_mem f; f_gas := f_gas f;
     f_returnData := f_returnData f; f_state := x |}.

(** The bytes of [returnData] now. *)
Definition resolve (m : Memory) (r : retData) : bytes :=
  match r with
  | RBytes b => default [] b
  | RAlias o n => take (Z.to_nat n) (drop (Z.to_nat o) (store m))
  end.

(** An alias of the old array keeps the old bytes when the memory moves. *)
Definition detach (m : Memory) (r : retData) : retData :=
  match r with RBytes _ => r | RAlias _ _ => RBytes (Some (resolve m r)) end.

(** Instructions change the frame or panic. *)
Definition Exec (A : Type) : Type := Frame → result (A * Frame).

Definition ret {A} (a : A) : Exec A := λ f, Ok (a, f).
Definition andThen {A B} (m : Exec A) (k : A → Exec B) : Exec B :=
  λ f, let* (a, f) := m f in k a f.
Definition lift {A} (r : result A) : Exec A := λ f, let* a := r in Ok (a, f).
Definition with_frame {A} (k : Frame → Exec A) : Exec A := λ f, k f f.

Definition pop : Exec Z := λ f,
  match f_stack f with x :: st => Ok (x, set_stack f st) | [] => Panic index_panic end.
Definition push (x : Z) : Exec unit := λ f, Ok (tt, set_stack f (x :: f_stack f)).
Definition peek : Exec Z := λ f,
  match f_stack f with x :: _ => Ok (x, f) | [] => Panic index_panic end.

(** Writing through the pointer of [peek]. *)
Definition set_top (x : Z) : Exec unit := λ f,
  match f_stack f with _ :: st => Ok (tt, set_stack f (x :: st)) | [] => Panic index_panic end.
Definition modify (g : Frame → Frame) : Exec unit := λ f, Ok (tt, g f).
Definition memory (g : Memory → result Memory) : Exec unit := λ f,
  let* m := g (f_mem f) in Ok (tt, set_mem f m).
Definition state {A} (g : StateDB → A * StateDB) : Exec A := λ f,
  let '(a, s) := g (f_state f) in Ok (a, set_state f s).

(** [return nil, nil] and [return nil, err]. *)
Definition done_ : Exec (retData * option string) := ret (RBytes None, None).
Definition fail (e : string) : Exec (retData * option string) := ret (RBytes None, Some e).
End Frames.

Notation "'let!' x := m 'in' k" := (andThen m (λ x, k))
  (at level 10, x pattern, m at level 100, k at level 200,
   format "'[v' 'let!'  x  :=  m  'in' '/' k ']'") : go_scope.

(** ** Instructions *)

Section Instructions.
Context {C : Crypto} {D : Database} {U : Uint256} {I : Interpreter}.
Context (evm : EVM) (contract : Contract) (input : option bytes).

Abbreviation executionFunc := (Exec (retData * option string)).

Definition code : bytes := default [] (contract_Code contract).
Definition rules : Rules := mkRules (evm_chainConfig evm) (Some (evm_BlockNumber evm)).

(** *** Arithmetic and comparison *)

Definition unary (g : Z → Z) : executionFunc :=
  let! x := peek in
  let! _ := set_top (g x) in
  done_.
Definition binary (g : Z → Z → Z) : executionFunc :=
  let! x := pop in
  let! y := peek in
  let! _ := set_top (g x y) in
  done_.
Definition ternary (g : Z → Z → Z → Z) : executionFunc :=
  let! x := pop in
  let! y := pop in
  let! z := peek in
  let! _ := set_top (g x y z) in
  done_.
Definition flag (b : bool) : Z := if b then 1 else 0.

Definition opAdd := binary (uint256 U_Add).
Definition opSub := binary (uint256 U_Sub).
Definition opMul := binary (uint256 U_Mul).
Definition opDiv := binary (uint256 U_Div).
Definition opSdiv := binary (uint256 U_SDiv).
Definition opMod := binary (uint256 U_Mod).
Definition opSmod := binary (uint256 U_SMod).
Definition opExp := binary (uint256 U_Exp).
Definition opSignExtend := binary (λ back num, uint256 U_ExtendSign num back).
Definition opNot := unary uint256_Not.
Definition opLt := binary (λ x y, flag (x <? y)).
Definition opGt := binary (λ x y, flag (y <? x)).
Definition opSlt := binary (λ x y, flag (uint256_Slt x y)).
Definition opSgt := binary (λ x y, flag (uint256_Slt y x)).
Definition opEq := binary (λ x y, flag (x =? y)).
Definition opIszero := unary (λ x, flag (x =? 0)).
Definition opAnd := binary (uint256 U_And).
Definition opOr := binary (uint256 U_Or).
Definition opXor := binary (uint256 U_Xor).
Definition opByte := binary (λ th val, uint256 U_Byte val th).
Definition opAddmod := ternary (λ x y z, if z =? 0 then 0 else uint256_AddMod x y z).
Definition opMulmod := ternary uint256_MulMod.
Definition opSHL := binary (λ shift value, if shift <? 256 then uint256 U_Lsh value (u64 shift) else 0).
Definition opSHR := binary (λ shift value, if shift <? 256 then uint256 U_Rsh value (u64 shift) else 0).
Definition opSAR := binary (λ shift value,
  if 256 <? shift then (if 0 <=? uint256_Sign value then 0 else two256 - 1)
  else uint256 U_SRsh value (u64 shift)).

(** *** Hashing and the environment *)

(** Memory read at a stack offset and size. *)
Definition get_memory (offset size : Z) : Exec (option bytes) :=
  with_frame (λ f, lift (mem_Get (f_mem f) (i64 (u64 offset)) (i64 (u64 size)))).

Definition opSha3 : executionFunc :=
  let! offset := pop in
  let! size := peek in
  let! data := get_memory offset size in
  let hash := set_bytes HashLength (Keccak256 (default [] data)) in
  let! _ := modify (λ f, if evm_EnablePreimageRecording evm
                         then set_state f (AddPreimage (f_state f) hash (default [] data)) else f) in
  let! _ := set_top (SetBytes hash) in
  done_.

Definition push_word (x : Z) : executionFunc := let! _ := push x in done_.

Definition opAddress := push_word (SetBytes (contract_self contract)).

Definition opBalance : executionFunc :=
  let! slot := peek in
  let! b := state (λ s, GetBalance s (Bytes20 slot)) in
  let! _ := set_top (SetFromBig b) in
  done_.

Definition opOrigin := push_word (SetBytes (evm_Origin evm)).
Definition opCaller := push_word (SetBytes (CallerAddress contract)).
Definition opCallValue := push_word (SetFromBig (contract_value contract)).

Definition opCallDataLoad : executionFunc :=
  let! x := peek in
  let '(offset, overflow) := Uint64WithOverflow x in
  let! v := if negb overflow
            then let! data := lift (getData (default [] input) offset 32) in ret (SetBytes data)
            else ret 0 in
  let! _ := set_top v in
  done_.

Definition opCallDataSize := push_word (golen (default [] input)).

(** The copies: a data offset beyond 64 bits is past every end. *)
Definition copy_data (data : bytes) (memOffset dataOffset length : Z) : executionFunc :=
  let '(offset64, overflow) := Uint64WithOverflow dataOffset in
  let offset64 := if overflow then maxUint64 else offset64 in
  let! part := lift (getData data offset64 (u64 length)) in
  let! _ := memory (λ m, mem_Set m (u64 memOffset) (u64 length) part) in
  done_.

Definition opCallDataCopy : executionFunc :=
  let! memOffset := pop in
  let! dataOffset := pop in
  let! length := pop in
  copy_data (default [] input) memOffset dataOffset length.

Definition opReturnDataSize : executionFunc :=
  with_frame (λ f, push_word (golen (resolve (f_mem f) (f_returnData f)))).

Definition opReturnDataCopy : executionFunc :=
  let! memOffset := pop in
  let! dataOffset := pop in
  let! length := pop in
  with_frame (λ f,
    let data := resolve (f_mem f) (f_returnData f) in
    let '(offset64, overflow) := Uint64WithOverflow dataOffset in
    if overflow then fail ErrReturnDataOutOfBounds
    else
      let '(end64, overflow) := Uint64WithOverflow (uint256 U_Add dataOffset length) in
      if overflow || (golen data <? end64) then fail ErrReturnDataOutOfBounds
      else
        let! part := lift (slice data offset64 end64) in
        let! _ := memory (λ m, mem_Set m (u64 memOffset) (u64 length) part) in
        done_).

Definition opExtCodeSize : executionFunc :=
  let! slot := peek in
  let! n := state (λ s, GetCodeSize s (Bytes20 slot)) in
  let! _ := set_top (u64 n) in
  done_.

Definition opCodeSize := push_word (golen code).

Definition opCodeCopy : executionFunc :=
  let! memOffset := pop in
  let! codeOffset := pop in
  let! length := pop in
  copy_data code memOffset codeOffset length.

Definition opExtCodeCopy : executionFunc :=
  let! a := pop in
  let! memOffset := pop in
  let! codeOffset := pop in
  let! length := pop in
  let! c := state (λ s, GetCode s (Bytes20 a)) in
  copy_data (default [] c) memOffset codeOffset length.

Definition opExtCodeHash : executionFunc :=
  let! slot := peek in
  let! empty := state (λ s, Empty s (Bytes20 slot)) in
  if (empty : bool) then let! _ := set_top 0 in done_
  else
    let! h := state (λ s, GetCodeHash s (Bytes20 slot)) in
    let! _ := set_top (SetBytes h) in
    done_.

Definition opGasprice := push_word (SetFromBig (evm_GasPrice evm)).

Definition opBlockhash : executionFunc :=
  let! num := peek in
  let '(num64, overflow) := Uint64WithOverflow num in
  let upper := big_Uint64 (evm_BlockNumber evm) in
  let lower := if upper <? 257 then 0 else upper - 256 in
  let! _ := set_top (if overflow then 0
                     else if (lower <=? num64) && (num64 <? upper) then SetBytes (evm_GetHash evm num64) else 0) in
  done_.

Definition opCoinbase := push_word (SetBytes (evm_Coinbase evm)).
Definition opTimestamp := push_word (SetFromBig (evm_Time evm)).
Definition opNumber := push_word (SetFromBig (evm_BlockNumber evm)).
Definition opDifficulty := push_word (SetFromBig (evm_Difficulty evm)).
Definition opGasLimit := push_word (u64 (evm_GasLimit evm)).

Definition opSelfBalance : executionFunc :=
  let! b := state (λ s, GetBalance s (contract_self contract)) in
  push_word (SetFromBig b).

Definition opChainID : executionFunc :=
  match ChainID (evm_chainConfig evm) with
  | Some id => push_word (SetFromBig id)
  | None => λ _, nil_deref
  end.

(** *** Stack, memory, storage and flow *)

Definition opPop : executionFunc := let! _ := pop in done_.

Definition opMload : executionFunc :=
  let! v := peek in
  let! b := with_frame (λ f, lift (mem_Get (f_mem f) (i64 (u64 v)) 32)) in
  let! _ := set_top (SetBytes (default [] b)) in
  done_.

Definition opMstore : executionFunc :=
  let! mStart := pop in
  let! val := pop in
  let! _ := memory (λ m, mem_Set32 m (u64 mStart) val) in
  done_.

Definition opMstore8 : executionFunc :=
  let! off := pop in
  let! val := pop in
  let! _ := memory (λ m,
    if mem_Len m <=? u64 off then Panic index_panic
    else Ok {| store := <[Z.to_nat (u64 off) := val mod 256]> (store m); store_cap := store_cap m |}) in
  done_.

Definition opSload : executionFunc :=
  let! loc := peek in
  let! v := state (λ s, GetState s (contract_self contract) (Bytes32 loc)) in
  let! _ := set_top (SetBytes v) in
  done_.

Definition opSstore : executionFunc :=
  let! loc := pop in
  let! val := pop in
  let! _ := modify (λ f, set_state f (SetState (f_state f) (contract_self contract) (Bytes32 loc) (Bytes32 val))) in
  done_.

Definition jump_to (pos : Z) : executionFunc :=
  let! ok := lift (validJumpdest code pos) in
  if negb ok then fail ErrInvalidJump
  else let! _ := modify (λ f, set_pc f (u64 pos)) in done_.

Definition opJump : executionFunc := let! pos := pop in jump_to pos.

Definition opJumpi : executionFunc :=
  let! pos := pop in
  let! cond := pop in
  if negb (cond =? 0) then jump_to pos
  else let! _ := modify (λ f, set_pc f (u64 (f_pc f + 1))) in done_.

Definition opJumpdest : executionFunc := done_.
Definition opPc : executionFunc := with_frame (λ f, push_word (f_pc f)).
Definition opMsize : executionFunc := with_frame (λ f, push_word (mem_Len (f_mem f))).
Definition opGas : executionFunc := with_frame (λ f, push_word (f_gas f)).

(** *** Calls and creation *)

(** The value pushed after a creation. *)
Definition created (suberr : option string) (ignored : bool) (addr : Address) : Z :=
  match suberr with
  | None => SetBytes addr
  | Some e => if ignored && String.eqb e ErrCodeStoreOutOfGas then SetBytes addr else 0
  end.

(** The end of a creation; the data of a creation that reverted. *)
Definition create_done (out : outcome * Address * StateDB) (ignored : bool) (gas : Z) : executionFunc :=
  let '((r, returnGas, suberr), addr, s) := out in
  let! _ := modify (λ f, set_state f s) in
  let! _ := push (created suberr ignored addr) in
  let! _ := modify (λ f, set_gas f (u64 (gas + returnGas))) in
  ret (RBytes (if bool_decide (suberr = Some ErrExecutionReverted) then r else None), None).

Definition opCreate : executionFunc :=
  let! value := pop in
  let! offset := pop in
  let! size := pop in
  let! code := get_memory offset size in
  with_frame (λ f,
    let gas := if R_IsEIP150 rules then f_gas f - f_gas f / 64 else f_gas f in
    let! out := lift (Create evm (f_state f) (contract_self contract) code gas value) in
    create_done out (negb (R_IsHomestead rules)) (UseGas (f_gas f) gas).2).

Definition opCreate2 : executionFunc :=
  let! endowment := pop in
  let! offset := pop in
  let! size := pop in
  let! salt := pop in
  let! code := get_memory offset size in
  with_frame (λ f,
    let gas := f_gas f - f_gas f / 64 in
    let! out := lift (Create2 evm (f_state f) (contract_self contract) code gas endowment (Bytes32 salt)) in
    create_done out false (UseGas (f_gas f) gas).2).

(** The identity contract returns its argument, a slice of the memory of the
    caller. *)
Definition call_data (addr : Address) (inOffset inSize : Z) (r : option bytes) (err : option string) : retData :=
  match err, r with
  | None, Some _ => if bool_decide (addr = precompile 4) then RAlias (u64 inOffset) (u64 inSize) else RBytes r
  | _, _ => RBytes r
  end.

(** What follows every kind of call. *)
Definition call_done (out : outcome * StateDB) (addr : Address) (inOffset inSize retOffset retSize : Z)
    : executionFunc :=
  let '((r, returnGas, err), s) := out in
  let! _ := modify (λ f, set_state f s) in
  let! _ := push (flag (bool_decide (err = None))) in
  let! _ := if bool_decide (err = None) || bool_decide (err = Some ErrExecutionReverted)
            then memory (λ m, mem_Set m (u64 retOffset) (u64 retSize) (default [] r)) else ret tt in
  let! _ := modify (λ f, set_gas f (u64 (f_gas f + returnGas))) in
  ret (call_data addr inOffset inSize r err, None).

Definition stipend (value : Z) : Z := if negb (value =? 0) then callGasTemp + CallStipend else callGasTemp.

Definition opCall : executionFunc :=
  let! _ := pop in
  let! addr := pop in
  let! value := pop in
  let! inOffset := pop in
  let! inSize := pop in
  let! retOffset := pop in
  let! retSize := pop in
  let! args := get_memory inOffset inSize in
  with_frame (λ f,
    let! out := lift (Call evm (f_state f) (contract_self contract) (Bytes20 addr) args
                        (stipend value) value Main Main) in
    call_done out (Bytes20 addr) inOffset inSize retOffset retSize).

Definition opCallCode : executionFunc :=
  let! _ := pop in
  let! addr := pop in
  let! value := pop in
  let! inOffset := pop in
  let! inSize := pop in
  let! retOffset := pop in
  let! retSize := pop in
  let! args := get_memory inOffset inSize in
  with_frame (λ f,
    let! out := lift (CallCode evm (f_state f) (contract_self contract) (Bytes20 addr) args
                        (stipend value) value) in
    call_done out (Bytes20 addr) inOffset inSize retOffset retSize).

Definition opDelegateCall : executionFunc :=
  let! _ := pop in
  let! addr := pop in
  let! inOffset := pop in
  let! inSize := pop in
  let! retOffset := pop in
  let! retSize := pop in
  let! args := get_memory inOffset inSize in
  with_frame (λ f,
    let! out := lift (DelegateCall evm (f_state f) contract (Bytes20 addr) args callGasTemp) in
    call_done out (Bytes20 addr) inOffset inSize retOffset retSize).

Definition opStaticCall : executionFunc :=
  let! _ := pop in
  let! addr := pop in
  let! inOffset := pop in
  let! inSize := pop in
  let! retOffset := pop in
  let! retSize := pop in
  let! args := get_memory inOffset inSize in
  with_frame (λ f,
    let! out := lift (StaticCall evm (f_state f) (contract_self contract) (Bytes20 addr) args callGasTemp) in
    call_done out (Bytes20 addr) inOffset inSize retOffset retSize).

Definition opReturn : executionFunc :=
  let! offset := pop in
  let! size := pop in
  let! r := get_memory offset size in
  ret (RBytes r, None).

Definition opRevert : executionFunc := opReturn.
Definition opStop : executionFunc := done_.

Definition opSuicide : executionFunc :=
  let! beneficiary := pop in
  let! balance := state (λ s, GetBalance s (contract_self contract)) in
  let! _ := modify (λ f, set_state f (AddBalance (f_state f) (Bytes20 beneficiary) balance)) in
  let! _ := state (λ s, Suicide s (contract_self contract)) in
  done_.

(** *** Families of instructions *)

Fixpoint pop_topics (n : nat) : Exec (list Hash) :=
  match n with
  | O => ret []
  | S n => let! x := pop in let! l := pop_topics n in ret (Bytes32 x :: l)
  end.

Definition makeLog (size : nat) : executionFunc :=
  let! mStart := pop in
  let! mSize := pop in
  let! topics := pop_topics size in
  let! d := get_memory mStart mSize in
  let! _ := modify (λ f, set_state f (AddLog (f_state f) {|
    log_Address := contract_self contract; log_Topics := topics; log_Data := default [] d;
    log_BlockNumber := big_Uint64 (evm_BlockNumber evm); log_TxHash := zeroHash; log_TxIndex := 0;
    log_BlockHash := zeroHash; log_Index := 0; log_Removed := false |})) in
  done_.

Definition opPush1 : executionFunc :=
  let! _ := modify (λ f, set_pc f (u64 (f_pc f + 1))) in
  with_frame (λ f, push_word (if f_pc f <? golen code then default 0 (code !! Z.to_nat (f_pc f)) mod 256 else 0)).

Definition makePush (size pushByteSize : Z) : executionFunc :=
  let! _ := with_frame (λ f,
    let codeLen := golen code in
    let startMin := Z.min codeLen (u64 (f_pc f + 1)) in
    let endMin := Z.min codeLen (startMin + pushByteSize) in
    let! part := lift (slice code startMin endMin) in
    let! b := lift (RightPadBytes part pushByteSize) in
    push (SetBytes b)) in
  let! _ := modify (λ f, set_pc f (u64 (f_pc f + size))) in
  done_.

Definition makeDup (size : nat) : executionFunc := λ f,
  let* st := st_dup (f_stack f) size in done_ (set_stack f st).

(** [n + 1], otherwise [n] would be swapped with [n]. *)
Definition makeSwap (size : nat) : executionFunc := λ f,
  let* st := st_swap (f_stack f) (size + 1) in done_ (set_stack f st).

(** ** Instruction tables ([jump_table.go]) *)

Record operation := {
  op_execute : option executionFunc;
  op_minStack : Z;
  op_maxStack : Z;
  op_memorySize : option (list Z → result (Z * bool));
  op_halts : bool;
  op_jumps : bool;
  op_writes : bool;
  op_reverts : bool;
  op_returns : bool
}.

(** The zero value of an entry that a table leaves out. *)
Definition no_operation : operation := {|
  op_execute := None; op_minStack := 0; op_maxStack := 0; op_memorySize := None;
  op_halts := false; op_jumps := false; op_writes := false; op_reverts := false; op_returns := false
|}.

Definition plain (ex : executionFunc) (pops pushes : Z) : operation := {|
  op_execute := Some ex; op_minStack := minStack pops pushes; op_maxStack := maxStack pops pushes;
  op_memorySize := None; op_halts := false; op_jumps := false; op_writes := false; op_reverts := false;
  op_returns := false
|}.
Definition with_memory (o : operation) (m : list Z → result (Z * bool)) : operation := {|
  op_execute := op_execute o; op_minStack := op_minStack o; op_maxStack := op_maxStack o;
  op_memorySize := Some m; op_halts := op_halts o; op_jumps := op_jumps o; op_writes := op_writes o;
  op_reverts := op_reverts o; op_returns := op_returns o
|}.
Definition with_flags (o : operation) (halts jumps writes reverts returns : bool) : operation := {|
  op_execute := op_execute o; op_minStack := op_minStack o; op_maxStack := op_maxStack o;
  op_memorySize := op_memorySize o; op_halts := halts; op_jumps := jumps; op_writes := writes;
  op_reverts := reverts; op_returns := returns
|}.
Definition halts (o : operation) : operation := with_flags o true false (op_writes o) false false.
Definition jumps (o : operation) : operation := with_flags o false true false false false.
Definition writes (o : operation) : operation := with_flags o (op_halts o) false true false (op_returns o).
Definition returns (o : operation) : operation := with_flags o false false (op_writes o) false true.

Abbreviation table := (list (Z * operation)).

Definition frontier_arithmetic : table := [
  (STOP, halts (plain opStop 0 0)); (ADD, plain opAdd 2 1); (MUL, plain opMul 2 1); (SUB, plain opSub 2 1);
  (DIV, plain opDiv 2 1); (SDIV, plain opSdiv 2 1); (MOD, plain opMod 2 1); (SMOD, plain opSmod 2 1);
  (ADDMOD, plain opAddmod 3 1); (MULMOD, plain opMulmod 3 1); (EXP, plain opExp 2 1);
  (SIGNEXTEND, plain opSignExtend 2 1); (LT, plain opLt 2 1); (GT, plain opGt 2 1); (SLT, plain opSlt 2 1);
  (SGT, plain opSgt 2 1); (EQ, plain opEq 2 1); (ISZERO, plain opIszero 1 1); (AND, plain opAnd 2 1);
  (XOR, plain opXor 2 1); (OR, plain opOr 2 1); (NOT, plain opNot 1 1); (BYTE, plain opByte 2 1);
  (SHA3, with_memory (plain opSha3 2 1) memorySha3) ].

Definition frontier_environment : table := [
  (ADDRESS, plain opAddress 0 1); (BALANCE, plain opBalance 1 1); (ORIGIN, plain opOrigin 0 1);
  (CALLER, plain opCaller 0 1); (CALLVALUE, plain opCallValue 0 1); (CALLDATALOAD, plain opCallDataLoad 1 1);
  (CALLDATASIZE, plain opCallDataSize 0 1);
  (CALLDATACOPY, with_memory (plain opCallDataCopy 3 0) memoryCallDataCopy);
  (CODESIZE, plain opCodeSize 0 1); (CODECOPY, with_memory (plain opCodeCopy 3 0) memoryCodeCopy);
  (GASPRICE, plain opGasprice 0 1); (EXTCODESIZE, plain opExtCodeSize 1 1);
  (EXTCODECOPY, with_memory (plain opExtCodeCopy 4 0) memoryExtCodeCopy);
  (BLOCKHASH, plain opBlockhash 1 1); (COINBASE, plain opCoinbase 0 1); (TIMESTAMP, plain opTimestamp 0 1);
  (NUMBER, plain opNumber 0 1); (DIFFICULTY, plain opDifficulty 0 1); (GASLIMIT, plain opGasLimit 0 1) ].

Definition frontier_flow : table := [
  (POP, plain opPop 1 0); (MLOAD, with_memory (plain opMload 1 1) memoryMLoad);
  (MSTORE, with_memory (plain opMstore 2 0) memoryMStore);
  (MSTORE8, with_memory (plain opMstore8 2 0) memoryMStore8);
  (SLOAD, plain opSload 1 1); (SSTORE, writes (plain opSstore 2 0)); (JUMP, jumps (plain opJump 1 0));
  (JUMPI, jumps (plain opJumpi 2 0)); (PC, plain opPc 0 1); (MSIZE, plain opMsize 0 1);
  (GAS, plain opGas 0 1); (JUMPDEST, plain opJumpdest 0 0) ].

(** [PUSH1] to [PUSH32], [DUP1] to [DUP16], [SWAP1] to [SWAP16], [LOG0] to [LOG4]. *)
Definition frontier_push : table :=
  (PUSH1, plain opPush1 0 1) ::
  ((λ n : nat, (PUSH1 + Z.of_nat n - 1, plain (makePush (Z.of_nat n) (Z.of_nat n)) 0 1)) <$> seq 2 31).

Definition frontier_dup : table :=
  (λ n : nat, (DUP1 + Z.of_nat n - 1, plain (makeDup n) (Z.of_nat n) (Z.of_nat n + 1))) <$> seq 1 16.

Definition frontier_swap : table :=
  (λ n : nat, (SWAP1 + Z.of_nat n - 1, plain (makeSwap n) (Z.of_nat n + 1) (Z.of_nat n + 1))) <$> seq 1 16.

Definition frontier_log : table :=
  (λ n : nat, (LOG0 + Z.of_nat n,
     with_memory (writes (plain (makeLog n) (Z.of_nat n + 2) 0)) memoryLog)) <$> seq 0 5.

Definition frontier_system : table := [
  (CREATE, with_memory (returns (writes (plain opCreate 3 1))) memoryCreate);
  (CALL, with_memory (returns (plain opCall 7 1)) memoryCall);
  (CALLCODE, with_memory (returns (plain opCallCode 7 1)) memoryCall);
  (RETURN, with_memory (halts (plain opReturn 2 0)) memoryReturn);
  (SELFDESTRUCT, halts (writes (plain opSuicide 1 0))) ].

Definition newFrontierInstructionSet : table :=
  frontier_arithmetic ++ frontier_environment ++ frontier_flow ++ frontier_push ++ frontier_dup ++
  frontier_swap ++ frontier_log ++ frontier_system.

Definition newHomesteadInstructionSet : table :=
  (DELEGATECALL, with_memory (returns (plain opDelegateCall 6 1)) memoryDelegateCall) ::
  newFrontierInstructionSet.

Definition newByzantiumInstructionSet : table :=
  [ (STATICCALL, with_memory (returns (plain opStaticCall 6 1)) memoryStaticCall);
    (RETURNDATASIZE, plain opReturnDataSize 0 1);
    (RETURNDATACOPY, with_memory (plain opReturnDataCopy 3 0) memoryReturnDataCopy);
    (REVERT, with_memory (with_flags (plain opRevert 2 0) false false false true true) memoryRevert) ] ++
  newHomesteadInstructionSet.

Definition newConstantinopleInstructionSet : table :=
  [ (SHL, plain opSHL 2 1); (SHR, plain opSHR 2 1); (SAR, plain opSAR 2 1);
    (EXTCODEHASH, plain opExtCodeHash 1 1);
    (CREATE2, with_memory (returns (writes (plain opCreate2 4 1))) memoryCreate2) ] ++
  newByzantiumInstructionSet.

(** What the activated EIPs add; the rest of them are gas costs. *)
Definition enable1884 (jt : table) : table := (SELFBALANCE, plain opSelfBalance 0 1) :: jt.
Definition enable1344 (jt : table) : table := (CHAINID, plain opChainID 0 1) :: jt.

Definition JumpTable : table :=
  let number := Some (evm_BlockNumber evm) in
  let config := evm_chainConfig evm in
  enable1344 (enable1884 (
    if IsConstantinople config number then newConstantinopleInstructionSet
    else if IsByzantium config number then newByzantiumInstructionSet
    else if IsHomestead config number then newHomesteadInstructionSet
    else newFrontierInstructionSet)).

Fixpoint table_lookup (jt : table) (op : Z) : operation :=
  match jt with
  | [] => no_operation
  | (c, o) :: jt => if c =? op then o else table_lookup jt op
  end.

(** ** The main loop ([interpreter.go]) *)

Context {G : GoRuntime}.

Definition enforceRestrictions (op : Z) (o : operation) (st : list Z) : result (option string) :=
  if R_IsByzantium rules && evm_readOnly evm then
    if op_writes o then Ok (Some errWriteProtection)
    else if op =? CALL then
      let* value := Back st 2 in Ok (if negb (value =? 0) then Some errWriteProtection else None)
    else Ok None
  else Ok None.

(** The memory size of the operation in whole words, or the overflow error. *)
Definition memory_words (o : operation) (st : list Z) : result (Z + string) :=
  match op_memorySize o with
  | None => Ok (inl 0)
  | Some m =>
      let* (memSize, overflow) := m st in
      if overflow then Ok (inr errGasUintOverflow)
      else
        let '(memorySize, overflow) := SafeMul (toWordSize memSize) 32 in
        Ok (if overflow then inr errGasUintOverflow else inl memorySize)
  end.

Definition resize (memorySize : Z) (f : Frame) : result Frame :=
  if 0 <? memorySize then
    let* (m, moved) := mem_Resize (f_mem f) memorySize in
    let f' := set_mem f m in
    Ok (if (moved : bool) then set_returnData f' (detach (f_mem f) (f_returnData f)) else f')
  else Ok f.

(** A round ends the run with its data, error and frame, or goes on. *)
Definition finished : Type := option bytes * option string * Frame.

Definition bytes_of (m : Memory) (r : retData) : option bytes :=
  match r with RBytes b => b | RAlias _ _ => Some (resolve m r) end.

Definition finish_round (o : operation) (res : retData) (err : option string) (f : Frame) : finished + Frame :=
  let f := if op_returns o then set_returnData f res else f in
  match err with
  | Some e => inl (None, Some e, f)
  | None =>
      if op_reverts o then inl (bytes_of (f_mem f) res, Some errExecutionReverted, f)
      else if op_halts o then inl (bytes_of (f_mem f) res, None, f)
      else if negb (op_jumps o) then inr (set_pc f (u64 (f_pc f + 1)))
      else inr f
  end.

(** A stack that is too deep or too shallow ends the run with the named result
    [err], which is nil at that point. *)
Definition step (f : Frame) : result (finished + Frame) :=
  let op := GetOp code (f_pc f) in
  let o := table_lookup JumpTable op in
  let len := Z.of_nat (length (f_stack f)) in
  if op_maxStack o <? len then Ok (inl (None, None, f))
  else if len <? op_minStack o then Ok (inl (None, None, f))
  else
    let* restricted := enforceRestrictions op o (f_stack f) in
    match restricted with
    | Some e => Ok (inl (None, Some e, f))
    | None =>
        let* size := memory_words o (f_stack f) in
        match size with
        | inr e => Ok (inl (None, Some e, f))
        | inl memorySize =>
            let* f := resize memorySize f in
            match op_execute o with
            | None => nil_deref
            | Some execute =>
                let* (r, f) := execute f in
                let '(res, err) := r in
                Ok (finish_round o res err f)
            end
        end
    end.
End Instructions.

Section Run.
Context {C : Crypto} {D : Database} {U : Uint256} {G : GoRuntime}.

(** The precompiled contracts: gas and result by address. *)
Class PrecompiledContracts := {
  pc_RequiredGas : Address → option bytes → Z;
  pc_Run : Address → option bytes → result (option bytes * option string)
}.
Context {P : PrecompiledContracts}.

Definition ran : Type := option bytes * option string * Z * StateDB.

(** The evm while a contract runs: one level deeper, and read-only once a
    caller asked for it. *)
Definition enter (evm : EVM) (readOnly : bool) : EVM := {|
  evm_Origin := evm_Origin evm; evm_GasPrice := evm_GasPrice evm; evm_Coinbase := evm_Coinbase evm;
  evm_GasLimit := evm_GasLimit evm; evm_BlockNumber := evm_BlockNumber evm; evm_Time := evm_Time evm;
  evm_Difficulty := evm_Difficulty evm; evm_GetHash := evm_GetHash evm; evm_depth := evm_depth evm + 1;
  evm_chainConfig := evm_chainConfig evm; evm_NoRecursion := evm_NoRecursion evm;
  evm_EnablePreimageRecording := evm_EnablePreimageRecording evm;
  evm_readOnly := evm_readOnly evm || readOnly
|}.

Definition first_frame (contract : Contract) (s : StateDB) : Frame := {|
  f_pc := 0; f_stack := []; f_mem := NewMemory; f_gas := contract_Gas contract;
  f_returnData := RBytes None; f_state := s
|}.

Definition Run (loop : EVM → Contract → option bytes → Frame → result ran)
    (evm : EVM) (contract : Contract) (input : option bytes) (readOnly : bool) (s : StateDB) : result ran :=
  match code contract with
  | [] => Ok (None, None, contract_Gas contract, s)
  | _ :: _ => loop (enter evm readOnly) contract input (first_frame contract s)
  end.

Definition interpreter (loop : EVM → Contract → option bytes → Frame → result ran) : Interpreter := {|
  RequiredGas := pc_RequiredGas;
  precompile_Run := pc_Run;
  Interpreter_Run := Run loop
|}.

(** [fuel] bounds the rounds of this run and of every run inside it; a run
    that needs more has not returned. *)
Fixpoint run_loop (fuel : nat) (evm : EVM) (contract : Contract) (input : option bytes) (f : Frame)
    : result ran :=
  match fuel with
  | O => Hang
  | S fuel =>
      let* r := step (I := interpreter (run_loop fuel)) evm contract input f in
      match r with
      | inl (data, err, f) => Ok (data, err, f_gas f, f_state f)
      | inr f => run_loop fuel evm contract input f
      end
  end.

Definition EVMInterpreter (fuel : nat) : Interpreter := interpreter (run_loop fuel).
End Run.
