(* ===== verification/VmSafe.v ===== *)
(** * Instructions are safe

    Every instruction of the tables, run on a frame that satisfies the checks
    the main loop makes before it (the depth of the stack, the size of the
    memory), neither indexes nor slices out of range, keeps the stack in words
    and within its limit, and changes the state only as its effects allow
    ([Effects], below).  The main loop makes these checks, so a run either
    returns or stops by one of the crashes of [crash]. *)

From Stdlib Require Import ZArith Lia.
From stdpp Require Import base option list gmap sets strings.
From S2P Require Import Prelude Params Rlp Types Account State StateRevert Funds Evm EvmProps VmBase.
From S2P Require Import VmAnalysis VmMachine Vm.

(** ** Frames *)

Record frame_ok {D : Database} (f : Frame) : Prop := {
  fo_pc : is_u64 (f_pc f);
  fo_gas : is_u64 (f_gas f);
  fo_words : Forall is_u256 (f_stack f);
  fo_depth : Z.of_nat (length (f_stack f)) ≤ StackLimit;
  fo_memory : mem_Len (f_mem f) ≤ maxAlloc
}.

(** What the calls promise to the instructions, for effects [R]. *)
Definition call_effect {C : Crypto} {D : Database} {I : Interpreter} (R : StateDB → StateDB → Prop)
    (s : StateDB) (r : result (outcome * StateDB)) : Prop :=
  match r with
  | Ok ((_, gas, _), s') => R s s' ∧ is_u64 gas
  | r => crash r
  end.

(** The effects instructions may have on the state.  Of the instructions that
    write, only calls with an allowed value are part of it. *)
Class Effects {C : Crypto} {D : Database} {I : Interpreter} (evm : EVM) (contract : Contract)
    (R : StateDB → StateDB → Prop) (allowed : Z → Prop) : Prop := {
  ef_refl : ∀ s, R s s;
  ef_trans : ∀ s1 s2 s3, R s1 s2 → R s2 s3 → R s1 s3;
  ef_read : ∀ A (f : stateObject → A) none s a, R s (read f none s a).2;
  ef_GetCode : ∀ s a, R s (GetCode s a).2;
  ef_GetCodeSize : ∀ s a, R s (GetCodeSize s a).2;
  ef_GetState : ∀ s a k, R s (GetState s a k).2;
  ef_AddPreimage : ∀ s h b, R s (AddPreimage s h b);
  ef_Call : ∀ s addr input gas value, good s → is_u64 gas → 0 ≤ value → allowed value →
    call_effect R s (Call evm s (contract_self contract) addr input gas value Main Main);
  ef_CallCode : ∀ s addr input gas value, good s → is_u64 gas →
    call_effect R s (CallCode evm s (contract_self contract) addr input gas value);
  ef_DelegateCall : ∀ s addr input gas, good s → is_u64 gas →
    call_effect R s (DelegateCall evm s contract addr input gas);
  ef_StaticCall : ∀ s addr input gas, good s → is_u64 gas →
    call_effect R s (StaticCall evm s (contract_self contract) addr input gas)
}.

(** ** Automation: an instruction on a stack of known shape *)

Ltac exec :=
  cbv [unary binary ternary push_word andThen lift with_frame pop push peek set_top modify memory state done_
       fail Vm.ret set_pc set_stack set_mem set_gas set_returnData set_state];
  cbn [bind f_pc f_stack f_mem f_gas f_returnData f_state fst snd].

(** Takes a ready frame apart; the stack gets as many words as the
    instruction pops. *)
Ltac start :=
  intros [pc st m g rd s] Hgood [Hpc Hgas Hwords Hdepth Hmem] (Hlen & Hready & Hcall);
  cbn [f_pc f_stack f_mem f_gas f_returnData f_state fst snd op_execute plain with_memory with_flags halts
       jumps writes returns op_minStack op_maxStack op_memorySize] in *;
  unfold minStack, maxStack, StackLimit in *;
  repeat (let x := fresh "x" in destruct st as [|x st]; [exfalso; cbn [length] in *; lia|]);
  cbn [length] in *; rewrite ?Forall_cons in Hwords; destruct_and?.

(** The frame that is left. *)
Ltac frame :=
  split; cbn [f_pc f_stack f_mem f_gas]; rewrite ?Forall_cons; cbn [length]; unfold StackLimit;
  split_and?; try done; try lia; eauto with vm.
Lemma get_memory_ok {D : Database} f off size :
  fits (f_mem f) off size → mem_Len (f_mem f) ≤ maxAlloc → ∃ b, get_memory off size f = Ok (b, f).
Proof.
  intros Hf Hm. unfold get_memory, with_frame, lift. destruct (mem_Get_ok _ _ _ Hf Hm) as [b ->]. by exists b.
Qed.

Ltac read_memory Hf Hm :=
  match goal with |- context [get_memory ?o ?n ?f] =>
    let b := fresh "b" in destruct (get_memory_ok f o n Hf Hm) as [b ->]; exec
  end.

Section Instructions.
Context {C : Crypto} {D : Database} {U : Uint256} {I : Interpreter} {UL : Uint256Laws}.
Context (evm : EVM) (contract : Contract) (input : option bytes).
Context (R : StateDB → StateDB → Prop) (allowed : Z → Prop).

Definition safe (s : StateDB) (r : result ((retData * option string) * Frame)) : Prop :=
  match r with
  | Ok (_, f') => frame_ok f' ∧ R s (f_state f')
  | r => crash r
  end.

(** What the main loop has checked. *)
Definition ready (f : Frame) (p : Z * operation) : Prop :=
  op_minStack p.2 ≤ Z.of_nat (length (f_stack f)) ≤ op_maxStack p.2 ∧
  match op_memorySize p.2 with
  | Some m => ∃ n, m (f_stack f) = Ok (n, false) ∧ n ≤ mem_Len (f_mem f)
  | None => True
  end ∧
  (p.1 = CALL → ∀ v, f_stack f !! 2%nat = Some v → allowed v).

Definition op_safe (p : Z * operation) : Prop := ∀ f,
  good (f_state f) → frame_ok f → ready f p →
  match op_execute p.2 with Some execute => safe (f_state f) (execute f) | None => True end.

Ltac finish := split; [frame|cbn [f_state]; first [apply ef_refl|assumption|idtac]].

Context {E : Effects evm contract R allowed}.

(** *** Arithmetic *)

Lemma unary_safe c h : (∀ x, is_u256 x → is_u256 (h x)) → op_safe (c, plain (unary h) 1 1).
Proof using E. intros Hh. start. exec. finish. Qed.

Lemma binary_safe c h : (∀ x y, is_u256 x → is_u256 y → is_u256 (h x y)) → op_safe (c, plain (binary h) 2 1).
Proof using E. intros Hh. start. exec. finish. Qed.

Lemma ternary_safe c h :
  (∀ x y z, is_u256 x → is_u256 y → is_u256 z → is_u256 (h x y z)) → op_safe (c, plain (ternary h) 3 1).
Proof using E. intros Hh. start. exec. finish. Qed.

Lemma push_word_safe c x : is_u256 x → op_safe (c, plain (push_word x) 0 1).
Proof using E. intros Hx. start. exec. finish. Qed.

(** *** The environment *)

Lemma opSha3_safe c : op_safe (c, with_memory (plain (opSha3 evm) 2 1) memorySha3).
Proof using E.
  start. destruct Hready as (n & Hn & Hle).
  assert (Hf : fits m x x0) by (by eapply (memory_at_fits 0 1)).
  unfold opSha3. exec. read_memory Hf Hmem. destruct (evm_EnablePreimageRecording evm); exec; finish. apply ef_AddPreimage.
Qed.

Lemma opBalance_safe c : op_safe (c, plain opBalance 1 1).
Proof using E.
  start. unfold opBalance. exec.
  pose proof (ef_read _ _ _ s (Bytes20 x) : R s (GetBalance s (Bytes20 x)).2) as HR.
  destruct (GetBalance s (Bytes20 x)) as [b s1]. finish.
Qed.

Lemma opSelfBalance_safe c : op_safe (c, plain (opSelfBalance contract) 0 1).
Proof using E.
  start. unfold opSelfBalance. exec.
  pose proof (ef_read _ _ _ s (contract_self contract) : R s (GetBalance s (contract_self contract)).2) as HR.
  destruct (GetBalance s (contract_self contract)) as [b s1]. exec. finish.
Qed.

Lemma opExtCodeSize_safe c : op_safe (c, plain opExtCodeSize 1 1).
Proof using E.
  start. unfold opExtCodeSize. exec. pose proof (ef_GetCodeSize s (Bytes20 x)) as HR.
  destruct (GetCodeSize s (Bytes20 x)) as [n s1]. finish.
Qed.

Lemma opExtCodeHash_safe c : op_safe (c, plain opExtCodeHash 1 1).
Proof using E.
  start. unfold opExtCodeHash. exec.
  pose proof (ef_read _ _ _ s (Bytes20 x) : R s (Empty s (Bytes20 x)).2) as HR.
  destruct (Empty s (Bytes20 x)) as [[] s1]; exec; [finish|].
  pose proof (ef_read _ _ _ s1 (Bytes20 x) : R s1 (GetCodeHash s1 (Bytes20 x)).2) as HR1.
  destruct (GetCodeHash s1 (Bytes20 x)) as [h s2]. finish. by eapply ef_trans.
Qed.

Lemma opCallDataLoad_safe c : op_safe (c, plain (opCallDataLoad input) 1 1).
Proof using E.
  start. unfold opCallDataLoad, Uint64WithOverflow. exec. destruct (two64 <=? x); exec; [finish|].
  destruct (getData_ok (default [] input) (u64 x) 32) as [b ->]; [auto with vm|rewrite maxAlloc_eq; lia|].
  exec. finish.
Qed.

Lemma opBlockhash_safe c : op_safe (c, plain (opBlockhash evm) 1 1).
Proof using E.
  start. unfold opBlockhash, Uint64WithOverflow. exec. finish. repeat case_match; auto with vm.
Qed.

Lemma opChainID_safe c : op_safe (c, plain (opChainID evm) 0 1).
Proof using E.
  start. unfold opChainID. destruct (ChainID (evm_chainConfig evm)); exec; [finish|].
  left. by constructor.
Qed.

(** *** Copies to memory *)

Lemma copy_data_safe f s data off doff len :
  frame_ok f → is_u256 doff → fits (f_mem f) off len → R s (f_state f) → safe s (copy_data data off doff len f).
Proof using E.
  intros [Hpc Hgas Hw Hd Hm] Hoff Hf HR. destruct f as [pc st m g rd s'].
  cbn [f_pc f_stack f_mem f_gas f_returnData f_state] in *.
  unfold copy_data, Uint64WithOverflow. exec.
  destruct (fits_size _ _ _ Hf Hm) as (Hl & Hul & _). rewrite Hul.
  destruct (getData_ok data (if two64 <=? doff then maxUint64 else u64 doff) len) as [b ->]; [|done|].
  { destruct (_ <=? _); [|auto with vm]. by vm_compute. }
  exec. destruct (mem_Set_ok _ _ _ Hf Hm b) as (m' & Hset & Hlen). rewrite Hul in Hset. rewrite Hset. exec.
  finish.
Qed.

Lemma opCallDataCopy_safe c : op_safe (c, with_memory (plain (opCallDataCopy input) 3 0) memoryCallDataCopy).
Proof using E.
  start. destruct Hready as (n & Hn & Hle). unfold opCallDataCopy. exec.
  apply copy_data_safe; [frame|done|by eapply (memory_at_fits 0 2)|apply ef_refl].
Qed.

Lemma opCodeCopy_safe c : op_safe (c, with_memory (plain (opCodeCopy contract) 3 0) memoryCodeCopy).
Proof using E.
  start. destruct Hready as (n & Hn & Hle). unfold opCodeCopy. exec.
  apply copy_data_safe; [frame|done|by eapply (memory_at_fits 0 2)|apply ef_refl].
Qed.

Lemma opExtCodeCopy_safe c : op_safe (c, with_memory (plain opExtCodeCopy 4 0) memoryExtCodeCopy).
Proof using E.
  start. destruct Hready as (n & Hn & Hle). unfold opExtCodeCopy. exec.
  pose proof (ef_GetCode s (Bytes20 x)) as HR. destruct (GetCode s (Bytes20 x)) as [d s1].
  apply copy_data_safe; [frame|done|by eapply (memory_at_fits 1 3)|done].
Qed.

Lemma opReturnDataSize_safe c : op_safe (c, plain opReturnDataSize 0 1).
Proof using E. start. unfold opReturnDataSize. exec. finish. Qed.

Lemma opReturnDataCopy_safe c :
  op_safe (c, with_memory (plain opReturnDataCopy 3 0) memoryReturnDataCopy).
Proof using E UL.
  start. destruct Hready as (n & Hn & Hle).
  assert (Hf : fits m x x1) by (by eapply (memory_at_fits 0 2)).
  unfold opReturnDataCopy, Uint64WithOverflow. exec. destruct (Z.leb_spec two64 x0); exec; [finish|].
  destruct (fits_size _ _ _ Hf Hmem) as (Hl & _ & _).
  assert (Hadd : uint256 U_Add x0 x1 = x0 + x1).
  { rewrite uint256_meaning by done. simpl. apply Z.mod_small. unfold is_u256 in *. rewrite maxAlloc_eq in Hl.
    rewrite two256_eq. word. }
  rewrite Hadd. destruct (Z.leb_spec two64 (x0 + x1)); exec; [finish|].
  unfold is_u256 in *. rewrite !u64_small by (unfold is_u64; lia). cbn [orb].
  set (data := resolve m rd). destruct (Z.ltb_spec (golen data) (x0 + x1)); exec; [finish|].
  destruct (slice_ok data x0 (x0 + x1)) as [b ->]; [lia|lia|unfold golen in *; lia|]. exec.
  destruct (mem_Set_ok _ _ _ Hf Hmem b) as (m' & -> & Hlen'). exec. finish.
Qed.

(** *** Stack, memory, storage and flow *)

Lemma opPop_safe c : op_safe (c, plain opPop 1 0).
Proof using E. start. unfold opPop. exec. finish. Qed.

Lemma opMload_safe c : op_safe (c, with_memory (plain opMload 1 1) memoryMLoad).
Proof using E.
  start. destruct Hready as (n & Hn & Hle). unfold opMload. exec.
  assert (Hf : fits m x 32) by (by eapply memory_word_fits).
  destruct (mem_Get_ok _ _ _ Hf Hmem) as [b Hb]. change (i64 (u64 32)) with 32 in Hb. rewrite Hb. exec. finish.
Qed.

Lemma opMstore_safe c : op_safe (c, with_memory (plain opMstore 2 0) memoryMStore).
Proof using E.
  start. destruct Hready as (n & Hn & Hle). unfold opMstore. exec.
  assert (Hf : fits m x 32) by (by eapply memory_word_fits).
  destruct (mem_Set32_ok _ _ x0 Hf Hmem) as (m' & -> & Hlen'). exec. finish.
Qed.

Lemma opMstore8_safe c : op_safe (c, with_memory (plain opMstore8 2 0) memoryMStore8).
Proof using E.
  start. destruct Hready as (n & Hn & Hle). unfold opMstore8. exec.
  assert (Hf : fits m x 1) by (by eapply memory_word_fits).
  destruct (fits_small _ _ _ Hf Hmem) as (-> & _ & _); [lia|]. destruct Hf as [?|(? & _ & Hlt)]; [lia|].
  rewrite (proj2 (Z.leb_gt (mem_Len m) x)) by lia. exec. finish. unfold mem_Len in *. simpl.
  by rewrite length_insert.
Qed.

Lemma opSload_safe c : op_safe (c, plain (opSload contract) 1 1).
Proof using E.
  start. unfold opSload. exec. pose proof (ef_GetState s (contract_self contract) (Bytes32 x)) as HR.
  destruct (GetState s (contract_self contract) (Bytes32 x)) as [v s1]. finish.
Qed.

Lemma jump_to_safe f s dest :
  frame_ok f → is_u256 dest → R s (f_state f) → safe s (jump_to contract dest f).
Proof using E.
  intros [Hpc Hgas Hw Hd Hm] Hdest HR. destruct f as [pc st m g rd s'].
  cbn [f_pc f_stack f_mem f_gas f_returnData f_state] in *.
  unfold jump_to. exec. rewrite validJumpdest_spec by (unfold is_u256 in Hdest; lia). exec.
  destruct (jumpdest _ _); exec; finish.
Qed.

Lemma opJump_safe c : op_safe (c, jumps (plain (opJump contract) 1 0)).
Proof using E. start. unfold opJump. exec. apply jump_to_safe; [frame|done|apply ef_refl]. Qed.

Lemma opJumpi_safe c : op_safe (c, jumps (plain (opJumpi contract) 2 0)).
Proof using E.
  start. unfold opJumpi. exec. destruct (x0 =? 0); cbn [negb]; exec; [finish|].
  apply jump_to_safe; [frame|done|apply ef_refl].
Qed.

Lemma done_safe c : op_safe (c, plain done_ 0 0).
Proof using E. start. exec. finish. Qed.

Lemma opStop_safe c : op_safe (c, halts (plain opStop 0 0)).
Proof using E. start. unfold opStop. exec. finish. Qed.

Lemma opPc_safe c : op_safe (c, plain opPc 0 1).
Proof using E. start. unfold opPc. exec. finish. Qed.

Lemma opMsize_safe c : op_safe (c, plain opMsize 0 1).
Proof using E.
  start. unfold opMsize. exec. finish. apply u64_u256. unfold mem_Len in *. rewrite maxAlloc_eq in Hmem. word.
Qed.

Lemma opGas_safe c : op_safe (c, plain opGas 0 1).
Proof using E. start. unfold opGas. exec. finish. Qed.

Lemma byte_u256 z : is_u256 (z mod 256).
Proof using. apply mod_le_u256; rewrite ?two256_eq; lia. Qed.

Lemma opPush1_safe c : op_safe (c, plain (opPush1 contract) 0 1).
Proof using E. start. unfold opPush1. exec. finish. case_match; auto using byte_u256 with vm. Qed.

Lemma makePush_safe c size n : 0 ≤ n ≤ 32 → op_safe (c, plain (makePush contract size n) 0 1).
Proof using E.
  intros Hn. start. unfold makePush. exec. set (lo := Z.min (golen _) (u64 (pc + 1))).
  assert (Hg : 0 ≤ golen (code contract) ≤ Z.of_nat (length (code contract))) by (unfold golen; word).
  pose proof (u64_range (pc + 1)) as Hp. unfold is_u64 in Hp.
  destruct (slice_ok (code contract) lo (Z.min (golen (code contract)) (lo + n))) as [b ->]; [unfold lo; lia..|].
  exec. destruct (RightPadBytes_ok b n) as [b' ->]; [rewrite maxAlloc_eq; lia|]. exec. finish.
Qed.

Lemma makeDup_safe c n :
  (0 < n)%nat → op_safe (c, plain (makeDup n) (Z.of_nat n) (Z.of_nat n + 1)).
Proof using E.
  intros Hn. intros [pc st m g rd s] Hgood [Hpc Hgas Hwords Hdepth Hmem] (Hlen & _ & _).
  cbn in *. unfold minStack, maxStack, StackLimit, makeDup, st_dup in *. exec.
  destruct (st !! (n - 1)%nat) as [x|] eqn:Hx; [|apply lookup_ge_None in Hx; lia]. exec. finish.
  by eapply Forall_lookup_1.
Qed.

Lemma makeSwap_safe c n :
  (0 < n)%nat → op_safe (c, plain (makeSwap n) (Z.of_nat n + 1) (Z.of_nat n + 1)).
Proof using E.
  intros Hn. intros [pc st m g rd s] Hgood [Hpc Hgas Hwords Hdepth Hmem] (Hlen & _ & _).
  cbn in *. unfold minStack, maxStack, StackLimit, makeSwap, st_swap in *. exec.
  destruct st as [|x st]; [cbn in *; lia|].
  destruct ((x :: st) !! (n + 1 - 1)%nat) as [y|] eqn:Hy; [|apply lookup_ge_None in Hy; cbn in *; lia]. exec.
  split; [|apply ef_refl]. split; cbn [f_pc f_stack f_mem f_gas]; try done.
  - apply Forall_insert; [apply Forall_insert; [done|]|by eapply Forall_lookup_1].
    apply Forall_cons in Hwords. apply Hwords.
  - rewrite !length_insert. done.
Qed.

Lemma opReturn_safe c : op_safe (c, with_memory (halts (plain opReturn 2 0)) memoryReturn).
Proof using E.
  start. destruct Hready as (n & Hn & Hle). unfold opReturn. exec.
  assert (Hf : fits m x x0) by (by eapply (memory_at_fits 0 1)). read_memory Hf Hmem. finish.
Qed.

Lemma opRevert_safe c :
  op_safe (c, with_memory (with_flags (plain opRevert 2 0) false false false true true) memoryRevert).
Proof using E. exact (opReturn_safe c). Qed.

(** *** Calls *)

Lemma call_done_safe f s r addr io is_ ro rs :
  frame_ok f → Z.of_nat (length (f_stack f)) < StackLimit → fits (f_mem f) ro rs →
  call_effect R (f_state f) r → s = f_state f →
  safe s ((let! out := lift r in call_done out addr io is_ ro rs) f).
Proof using E.
  intros [Hpc Hgas Hw Hd Hm] Hlt Hf Hr ->. destruct f as [pc st m g rd s].
  cbn [f_pc f_stack f_mem f_gas f_returnData f_state] in *. unfold StackLimit in *. exec.
  destruct r as [[[[ret g'] err] s1]| | |]; try done. destruct Hr as [HR Hg']. exec. unfold call_done. exec.
  destruct (mem_Set_ok _ _ _ Hf Hm (default [] ret)) as (m' & Hset & Hlen').
  unfold flag. destruct (_ || _); exec; rewrite ?Hset; exec; finish.
Qed.

Lemma stipend_u64 v : is_u64 (stipend v).
Proof using. unfold stipend. case_match; by vm_compute. Qed.

Ltac call Hargs Hret Hm lem :=
  read_memory Hargs Hm; apply call_done_safe; [frame|cbn [f_stack length]; unfold StackLimit; lia|exact Hret|
    apply lem; auto using stipend_u64, is_u64_0|done].

Lemma opCall_safe : op_safe (CALL, with_memory (returns (plain (opCall evm contract) 7 1)) memoryCall).
Proof using E.
  start. destruct Hready as (n & (a & b & Ha & Hb & Hle1 & Hle2)%memory_both_inv & Hle).
  assert (Hret : fits m x4 x5) by (eapply (memory_at_fits 5 6); try done; lia).
  assert (Hargs : fits m x2 x3) by (eapply (memory_at_fits 3 4); try done; lia).
  unfold opCall. exec. call Hargs Hret Hmem ef_Call. unfold is_u256 in *. lia.
Qed.

Lemma opCallCode_safe c : op_safe (c, with_memory (returns (plain (opCallCode evm contract) 7 1)) memoryCall).
Proof using E.
  start. destruct Hready as (n & (a & b & Ha & Hb & Hle1 & Hle2)%memory_both_inv & Hle).
  assert (Hret : fits m x4 x5) by (eapply (memory_at_fits 5 6); try done; lia).
  assert (Hargs : fits m x2 x3) by (eapply (memory_at_fits 3 4); try done; lia).
  unfold opCallCode. exec. call Hargs Hret Hmem ef_CallCode.
Qed.

Lemma opDelegateCall_safe c :
  op_safe (c, with_memory (returns (plain (opDelegateCall evm contract) 6 1)) memoryDelegateCall).
Proof using E.
  start. destruct Hready as (n & (a & b & Ha & Hb & Hle1 & Hle2)%memory_both_inv & Hle).
  assert (Hret : fits m x3 x4) by (eapply (memory_at_fits 4 5); try done; lia).
  assert (Hargs : fits m x1 x2) by (eapply (memory_at_fits 2 3); try done; lia).
  unfold opDelegateCall. exec. call Hargs Hret Hmem ef_DelegateCall.
Qed.

Lemma opStaticCall_safe c :
  op_safe (c, with_memory (returns (plain (opStaticCall evm contract) 6 1)) memoryStaticCall).
Proof using E.
  start. destruct Hready as (n & (a & b & Ha & Hb & Hle1 & Hle2)%memory_both_inv & Hle).
  assert (Hret : fits m x3 x4) by (eapply (memory_at_fits 4 5); try done; lia).
  assert (Hargs : fits m x1 x2) by (eapply (memory_at_fits 2 3); try done; lia).
  unfold opStaticCall. exec. call Hargs Hret Hmem ef_StaticCall.
Qed.

(** ** The tables *)

(** An entry that does not write is safe whatever the effects. *)
Definition guarded (p : Z * operation) : Prop := op_writes p.2 = false → op_safe p.

Definition sized (p : Z * operation) : Prop :=
  match op_memorySize p.2 with Some m => sizes (op_minStack p.2) m | None => True end.

Ltac entry :=
  lazymatch goal with
  | |- context [opJumpdest] => apply done_safe
  | |- context [opStop] => apply opStop_safe
  | |- context [opSha3] => apply opSha3_safe
  | |- context [opBalance] => apply opBalance_safe
  | |- context [opCallDataLoad] => apply opCallDataLoad_safe
  | |- context [opCallDataCopy] => apply opCallDataCopy_safe
  | |- context [opCodeCopy] => apply opCodeCopy_safe
  | |- context [opExtCodeSize] => apply opExtCodeSize_safe
  | |- context [opExtCodeCopy] => apply opExtCodeCopy_safe
  | |- context [opBlockhash] => apply opBlockhash_safe
  | |- context [opPop] => apply opPop_safe
  | |- context [opMload] => apply opMload_safe
  | |- context [opMstore] => apply opMstore_safe
  | |- context [opMstore8] => apply opMstore8_safe
  | |- context [opSload] => apply opSload_safe
  | |- context [opJump] => apply opJump_safe
  | |- context [opJumpi] => apply opJumpi_safe
  | |- context [opPc] => apply opPc_safe
  | |- context [opMsize] => apply opMsize_safe
  | |- context [opGas] => apply opGas_safe
  | |- context [opPush1] => apply opPush1_safe
  | |- context [opCall] => apply opCall_safe
  | |- context [opCallCode] => apply opCallCode_safe
  | |- context [opReturn] => apply opReturn_safe
  | |- context [opDelegateCall] => apply opDelegateCall_safe
  | |- context [opStaticCall] => apply opStaticCall_safe
  | |- context [opReturnDataSize] => apply opReturnDataSize_safe
  | |- context [opReturnDataCopy] => apply opReturnDataCopy_safe
  | |- context [opRevert] => apply opRevert_safe
  | |- context [opExtCodeHash] => apply opExtCodeHash_safe
  | |- context [opSelfBalance] => apply opSelfBalance_safe
  | |- context [opChainID] => apply opChainID_safe
  | _ => first [apply binary_safe|apply unary_safe|apply ternary_safe|apply push_word_safe]
  end;
  intros; cbn beta; first [solve [eauto 6 with vm]|unfold flag; repeat case_match; eauto with vm].

Ltac entries :=
  repeat first [assumption|apply Forall_cons_2; [intros Hw; first [discriminate Hw|entry]|]]; try apply Forall_nil_2.

Lemma arithmetic_guarded : Forall guarded (frontier_arithmetic evm).
Proof using E UL. entries. Qed.

Lemma environment_guarded : Forall guarded (frontier_environment evm contract input).
Proof using E UL. entries. Qed.

Lemma flow_guarded : Forall guarded (frontier_flow contract).
Proof using E UL. entries. Qed.

Lemma family_guarded {A} (P : A → Prop) (f : A → Z * operation) l :
  Forall P l → (∀ x, P x → guarded (f x)) → Forall guarded (f <$> l).
Proof using. intros Hl Hf. rewrite Forall_fmap. eapply Forall_impl; [exact Hl|]. exact Hf. Qed.

Lemma seq_Forall a n : Forall (λ k, a ≤ k < a + n)%nat (seq a n).
Proof using. rewrite Forall_forall. intros k. rewrite elem_of_seq. lia. Qed.

Lemma push_guarded : Forall guarded (frontier_push contract).
Proof using E UL.
  apply Forall_cons_2; [intros _; apply opPush1_safe|]. eapply family_guarded; [apply seq_Forall|].
  intros n [Hlo Hhi] _. apply makePush_safe. lia.
Qed.

Lemma dup_guarded : Forall guarded frontier_dup.
Proof using E UL. eapply family_guarded; [apply seq_Forall|]. intros n [Hlo Hhi] _. apply makeDup_safe. lia. Qed.

Lemma swap_guarded : Forall guarded frontier_swap.
Proof using E UL. eapply family_guarded; [apply seq_Forall|]. intros n [Hlo Hhi] _. apply makeSwap_safe. lia. Qed.

Lemma log_guarded : Forall guarded (frontier_log evm contract).
Proof using E UL. eapply family_guarded; [apply seq_Forall|]. intros n Hn Hw. discriminate Hw. Qed.

Lemma system_guarded : Forall guarded (frontier_system evm contract).
Proof using E UL. entries. Qed.

Lemma JumpTable_guarded : Forall guarded (JumpTable evm contract input).
Proof using E UL.
  assert (Hf : Forall guarded (newFrontierInstructionSet evm contract input)).
  { unfold newFrontierInstructionSet. rewrite !Forall_app.
    split_and!; auto using arithmetic_guarded, environment_guarded, flow_guarded, push_guarded, dup_guarded,
      swap_guarded, log_guarded, system_guarded. }
  assert (Hh : Forall guarded (newHomesteadInstructionSet evm contract input)) by entries.
  assert (Hb : Forall guarded (newByzantiumInstructionSet evm contract input)) by entries.
  assert (Hc : Forall guarded (newConstantinopleInstructionSet evm contract input)) by entries.
  unfold JumpTable, enable1344, enable1884. entries. by repeat case_match.
Qed.

Ltac size_entry :=
  first [ exact Logic.I | apply memory_at_sizes; vm_compute; reflexivity
        | apply memory_word_sizes; vm_compute; reflexivity | apply memory_both_sizes; vm_compute; reflexivity ].
Ltac size_entries := repeat first [assumption|apply Forall_cons_2; [size_entry|]]; try apply Forall_nil_2.

Lemma frontier_sized : Forall sized (newFrontierInstructionSet evm contract input).
Proof using.
  unfold newFrontierInstructionSet. rewrite !Forall_app. split_and!; size_entries.
Qed.

Lemma JumpTable_sized : Forall sized (JumpTable evm contract input).
Proof using.
  pose proof frontier_sized as Hf.
  assert (Hh : Forall sized (newHomesteadInstructionSet evm contract input)) by size_entries.
  assert (Hb : Forall sized (newByzantiumInstructionSet evm contract input)) by size_entries.
  assert (Hc : Forall sized (newConstantinopleInstructionSet evm contract input)) by size_entries.
  unfold JumpTable, enable1344, enable1884. size_entries. by repeat case_match.
Qed.
End Instructions.
