(* ===== verification/VmLoop.v ===== *)
(** * The main loop keeps its contract

    A round of the main loop ([Run] of [core/vm/interpreter.go]) makes the
    checks its instructions rely on; the loop therefore satisfies the contract
    [InterpreterLaws] on which the calls of [core/vm/evm.go] are proved
    atomic, for every bound on the number of rounds. *)

From Stdlib Require Import ZArith Lia.
From stdpp Require Import base option list gmap sets strings.
From S2P Require Import Prelude Params Rlp Types Account State StateRevert Funds Evm EvmProps VmBase.
From S2P Require Import VmAnalysis VmMachine Vm VmSafe.

Section Step.
Context {C : Crypto} {D : Database} {U : Uint256} {I : Interpreter} {G : GoRuntime} {UL : Uint256Laws}.
Context (evm : EVM) (contract : Contract) (input : option bytes).
Context (R : StateDB → StateDB → Prop) (allowed : Z → Prop) {E : Effects evm contract R allowed}.

Abbreviation table := (JumpTable evm contract input).
Definition read_only : bool := R_IsByzantium (rules evm) && evm_readOnly evm.

(** Either everything is allowed and safe, or the run is read-only. *)
Definition mode : Prop :=
  (∀ v, allowed v) ∧ Forall (λ p, op_writes p.2 = true → op_safe R allowed p) table ∨
  read_only = true ∧ allowed 0.

Lemma table_lookup_in jt op : table_lookup jt op = no_operation ∨ (op, table_lookup jt op) ∈ jt.
Proof.
  induction jt as [|[c o] jt IH]; cbn [table_lookup]; [by left|].
  destruct (Z.eqb_spec c op) as [->|]; [right; left|]. destruct IH; [by left|right; by right].
Qed.

Lemma table_CALL : op_minStack (table_lookup table CALL) = 7.
Proof. unfold JumpTable. by repeat case_match. Qed.

(** What one round leaves. *)
Definition round_ok (s : StateDB) (r : result (finished + Frame)) : Prop :=
  match r with
  | Ok (inl (_, _, f)) => is_u64 (f_gas f) ∧ R s (f_state f)
  | Ok (inr f) => frame_ok f ∧ R s (f_state f)
  | r => crash r
  end.

Lemma stopped_ok f data err : frame_ok f → round_ok (f_state f) (Ok (inl (data, err, f))).
Proof. intros [_ Hg _ _ _]. split; [done|apply ef_refl]. Qed.

(** The restrictions of read-only runs: an instruction that passes them does
    not write, and calls with an allowed value only. *)
Lemma restrictions_ok op st :
  mode → op_minStack (table_lookup table op) ≤ Z.of_nat (length st) →
  ∃ e, enforceRestrictions evm op (table_lookup table op) st = Ok e ∧
       (e = None →
        ((op, table_lookup table op) ∈ table → op_safe R allowed (op, table_lookup table op)) ∧
        (op = CALL → ∀ v, st !! 2%nat = Some v → allowed v)).
Proof.
  intros Hmode Hlen. pose proof (JumpTable_guarded evm contract input R allowed) as Hg.
  rewrite Forall_forall in Hg. unfold enforceRestrictions. fold read_only.
  destruct Hmode as [[Hall Hw]|[-> H0]].
  - rewrite Forall_forall in Hw.
    assert (Hok : ((op, table_lookup table op) ∈ table → op_safe R allowed (op, table_lookup table op)) ∧
                  (op = CALL → ∀ v, st !! 2%nat = Some v → allowed v)).
    { split; [|auto]. intros Hin. destruct (op_writes (table_lookup table op)) eqn:Ew; [by apply Hw|by apply Hg]. }
    destruct read_only; [|by exists None].
    destruct (op_writes (table_lookup table op)); [by eexists|]. destruct (Z.eqb_spec op CALL) as [->|]; [|by eexists].
    rewrite table_CALL in Hlen. destruct (Back_ok st 2) as [v ->]; [lia|]. by eexists.
  - destruct (op_writes (table_lookup table op)) eqn:Ew; [by eexists|].
    assert (Hs : (op, table_lookup table op) ∈ table → op_safe R allowed (op, table_lookup table op))
      by (intros Hin; by apply Hg).
    destruct (Z.eqb_spec op CALL) as [->|Hne]; [|by exists None].
    rewrite table_CALL in Hlen. unfold Back. destruct (lookup_lt_is_Some_2 st 2) as [v Hv]; [lia|]. rewrite Hv.
    cbn [bind]. eexists. split; [done|]. destruct (Z.eqb_spec v 0) as [->|]; [|done]. intros _. split; [done|].
    intros _ v' Hv'. congruence.
Qed.

(** The memory is resized to what the instruction asked for. *)
Lemma memory_words_ok op st :
  op_minStack (table_lookup table op) ≤ Z.of_nat (length st) →
  match memory_words (table_lookup table op) st with
  | Ok (inl size) =>
      match op_memorySize (table_lookup table op) with
      | Some m => ∃ n, m st = Ok (n, false) ∧ n ≤ size ∧ (size ≤ 0 → n ≤ 0)
      | None => size = 0
      end
  | Ok (inr _) => True
  | _ => False
  end.
Proof.
  intros Hlen. unfold memory_words.
  assert (Hs : sized (op, table_lookup table op)).
  { destruct (table_lookup_in table op) as [-> | Hin]; [done|].
    pose proof (JumpTable_sized evm contract input) as Hall. rewrite Forall_forall in Hall. by apply Hall. }
  unfold sized in Hs. cbn [snd] in Hs. destruct (op_memorySize (table_lookup table op)) as [m|]; [|done].
  destruct (Hs st Hlen) as (n & o & -> & Hn). cbn [bind]. destruct o; [done|].
  destruct (SafeMul (toWordSize n) 32) as [size []] eqn:Em; [done|].
  destruct (toWordSize_bytes n size Hn Em) as (? & ? & ?). exists n. split; [done|]. unfold is_u64 in Hn. lia.
Qed.

Lemma resize_ok size f :
  frame_ok f →
  match resize size f with
  | Ok f' => frame_ok f' ∧ f_state f' = f_state f ∧ f_stack f' = f_stack f ∧
             (0 < size → size ≤ mem_Len (f_mem f'))
  | r => crash r
  end.
Proof.
  intros [Hpc Hgas Hw Hd Hm]. unfold resize. destruct (Z.ltb_spec 0 size); [|split_and!; [by split|done|done|lia]].
  pose proof (mem_Resize_spec (f_mem f) size Hm) as H'.
  destruct (mem_Resize (f_mem f) size) as [[m moved]|?|p|]; try done; cbn [bind].
  - destruct moved; (split_and!; [split; simpl; try done; lia|done|done|intros _; simpl; lia]).
  - subst p. left. unfold vm_panics. set_solver.
Qed.

Lemma finish_round_ok s o res err f :
  frame_ok f → R s (f_state f) → round_ok s (Ok (finish_round o res err f)).
Proof.
  intros [Hpc Hgas Hw Hd Hm] HR. unfold finish_round. cbv zeta.
  assert (Hf : ∀ g : Frame, g = (if op_returns o then set_returnData f res else f) →
               frame_ok g ∧ f_state g = f_state f).
  { intros g ->. destruct (op_returns o); (split; [by split|done]). }
  destruct (Hf _ eq_refl) as [Hok Hst]. set (g := if op_returns o then _ else _) in *. clearbody g.
  destruct err; [split; [apply Hok|by rewrite Hst]|]. destruct (op_reverts o); [split; [apply Hok|by rewrite Hst]|].
  destruct (op_halts o); [split; [apply Hok|by rewrite Hst]|]. destruct (negb (op_jumps o)).
  - destruct Hok. split; [split; simpl; try done; auto with vm|simpl; by rewrite Hst].
  - split; [done|by rewrite Hst].
Qed.

Lemma step_safe f :
  mode → good (f_state f) → frame_ok f → round_ok (f_state f) (step evm contract input f).
Proof.
  intros Hmode Hg Hf. unfold step. cbv zeta. set (op := GetOp _ _).
  destruct (Z.ltb_spec (op_maxStack (table_lookup table op)) (Z.of_nat (length (f_stack f)))); [by apply stopped_ok|].
  destruct (Z.ltb_spec (Z.of_nat (length (f_stack f))) (op_minStack (table_lookup table op))); [by apply stopped_ok|].
  destruct (restrictions_ok op (f_stack f) Hmode ltac:(lia)) as (e & -> & Hrest). cbn [bind].
  destruct e as [e|]; [by apply stopped_ok|]. destruct (Hrest eq_refl) as [Hsafe Hcall].
  pose proof (memory_words_ok op (f_stack f) ltac:(lia)) as Hmem.
  destruct (memory_words _ _) as [[size|e]| | |]; try done; cbn [bind]; [|by apply stopped_ok].
  pose proof (resize_ok size f Hf) as Hres. destruct (resize size f) as [f1| | |]; try done. cbn [bind].
  destruct Hres as (Hf1 & Hst & Hstk & Hsize).
  destruct (op_execute (table_lookup table op)) as [ex|] eqn:Eex; [|left; unfold vm_panics; set_solver].
  destruct (table_lookup_in table op) as [Hno|Hin]; [rewrite Hno in Eex; done|].
  specialize (Hsafe Hin f1). rewrite Hst in Hsafe. specialize (Hsafe Hg Hf1).
  cbn [snd] in Hsafe. rewrite Eex in Hsafe.
  assert (Hready : ready allowed f1 (op, table_lookup table op)).
  { split; [cbn [snd]; rewrite Hstk; lia|]. cbn [fst snd]. rewrite Hstk. split; [|done].
    destruct (op_memorySize _) as [m|]; [|done]. destruct Hmem as (n & Hn & Hle & Hzero). exists n. split; [done|].
    destruct (decide (0 < size)); [specialize (Hsize ltac:(done)); lia|]. unfold mem_Len. lia. }
  specialize (Hsafe Hready). destruct (ex f1) as [[[res err] f2]| | |]; try done. cbn [bind].
  destruct Hsafe as [Hf2 HR]. by apply finish_round_ok.
Qed.
End Step.

(** ** Instructions that write *)

Section Writes.
Context {C : Crypto} {D : Database} {U : Uint256} {I : Interpreter} {L : InterpreterLaws} {UL : Uint256Laws}.
Context (evm : EVM) (contract : Contract) (input : option bytes).

#[local] Instance fine_pre : PreOrder fine := fine_preorder Keccak256_size.

Lemma call_spec_effect s r : call_spec s r → call_effect fine s r.
Proof. destruct r as [[[[ret g] err] s']| | |]; try done. intros (? & ? & ? & ? & _). by split. Qed.

(** Every effect on funds and state that the operations of the state database
    allow. *)
#[export] Instance fine_effects : Effects evm contract fine (λ _, True).
Proof.
  split; intros; [done|by etrans|apply (fine_read Keccak256_size)|apply (fine_GetCode Keccak256_size)
    |apply (fine_GetCodeSize Keccak256_size)|apply (fine_GetState Keccak256_size)
    |apply (fine_AddPreimage Keccak256_size)|by apply call_spec_effect, Call_ok|..]; apply call_spec_effect.
  - by apply (other_calls_ok evm s (contract_self contract) addr contract input0 gas value).
  - by apply (other_calls_ok evm s (contract_self contract) addr contract input0 gas 0).
  - by apply (other_calls_ok evm s (contract_self contract) addr contract input0 gas 0).
Qed.

Abbreviation op_fine := (op_safe fine (λ _, True)).

Lemma opSstore_safe c : op_fine (c, writes (plain (opSstore contract) 2 0)).
Proof. start. unfold opSstore. exec. split; [frame|apply (fine_SetState Keccak256_size)]. Qed.

Lemma opSuicide_safe c : op_fine (c, halts (writes (plain (opSuicide contract) 1 0))).
Proof.
  start. unfold opSuicide. exec. set (a := contract_self contract).
  pose proof (fine_read Keccak256_size (λ o, Balance (so_data o)) 0 s a) as Hr.
  pose proof (read_still (λ o, Balance (so_data o)) 0 s a) as Hst.
  pose proof (read_value (λ o, Balance (so_data o)) 0 s a) as Hv.
  fold GetBalance in Hr, Hst, Hv. destruct (GetBalance s a) as [b s1]. simpl in Hr, Hst, Hv.
  assert (Hb : b = bal s1 a) by (destruct (Hst a) as [-> _]; exact Hv). clear Hv. subst b.
  pose proof (fine_forfeit Keccak256_size s1 a (Bytes20 x)) as Hf. exec.
  destruct (Suicide _ a) as [ok s2]. split; [frame|]. simpl in Hf. simpl. by etrans.
Qed.

Lemma pop_topics_ok n f :
  (n ≤ length (f_stack f))%nat → ∃ l, pop_topics n f = Ok (l, set_stack f (drop n (f_stack f))).
Proof.
  revert f. induction n as [|n IH]; intros [pc st m g rd s] Hn; cbn [pop_topics]; exec; [by eexists|].
  cbn [f_stack] in Hn. destruct st as [|x st]; [cbn in Hn; lia|]. exec.
  destruct (IH {| f_pc := pc; f_stack := st; f_mem := m; f_gas := g; f_returnData := rd; f_state := s |})
    as [l ->]; [cbn in *; lia|]. exec. by eexists.
Qed.

Lemma makeLog_safe c n :
  op_fine (c, with_memory (writes (plain (makeLog evm contract n) (Z.of_nat n + 2) 0)) memoryLog).
Proof.
  intros [pc st m g rd s] Hgood [Hpc Hgas Hwords Hdepth Hmem] (Hlen & (k & Hk & Hle) & _).
  cbn [f_pc f_stack f_mem f_gas f_returnData f_state fst snd op_execute plain with_memory with_flags
       writes op_minStack op_maxStack op_memorySize] in *.
  unfold minStack, maxStack, StackLimit in *.
  destruct st as [|x [|x0 st]]; [cbn [length] in *; lia..|].
  rewrite !Forall_cons in Hwords. destruct Hwords as (? & ? & Hst). cbn [length] in *.
  assert (Hf : fits m x x0) by (by eapply (memory_at_fits 0 1)). unfold makeLog. exec.
  match goal with |- context [pop_topics n ?f] => destruct (pop_topics_ok n f) as [l ->]; [cbn; lia|] end.
  exec. read_memory Hf Hmem. split; [frame|apply (fine_AddLog Keccak256_size)].
  - by apply Forall_drop.
  - rewrite length_drop. lia.
Qed.

(** The gas of a creation, and what is left of it. *)
Lemma create_gas g (b : bool) : is_u64 g → is_u64 (if b then g - g / 64 else g).
Proof. unfold is_u64. intros Hg. destruct b; [|done]. zdiv. Qed.

Lemma create_done_safe f s out ignored gas :
  frame_ok f → Z.of_nat (length (f_stack f)) < StackLimit →
  match out with Ok ((_, g, _), _, s') => fine s s' ∧ is_u64 g | r => crash r end →
  safe fine s ((let! out := lift out in create_done out ignored gas) f).
Proof.
  intros [Hpc Hgas Hw Hd Hm] Hlt Hout. destruct f as [pc st m g rd s0].
  cbn [f_pc f_stack f_mem f_gas f_returnData f_state] in *. unfold StackLimit in *. exec.
  destruct out as [[[[[ret g'] err] adr] s1]| | |]; try done. destruct Hout as [HR Hg']. exec. unfold create_done.
  exec. split; [frame|done]. unfold created. repeat case_match; auto with vm.
Qed.

Lemma opCreate_safe c : op_fine (c, with_memory (returns (writes (plain (opCreate evm contract) 3 1))) memoryCreate).
Proof.
  start. destruct Hready as (k & Hk & Hle). assert (Hf : fits m x0 x1) by (by eapply (memory_at_fits 1 2)).
  unfold opCreate. exec. read_memory Hf Hmem. apply create_done_safe; [frame|cbn; unfold StackLimit; lia|].
  cbn [f_gas f_state]. set (gas := if R_IsEIP150 _ then _ else _).
  pose proof (Create_ok evm s (contract_self contract) b gas x Hgood (create_gas g _ Hgas)) as Hc.
  specialize (Hc ltac:(unfold is_u256 in *; lia)). destruct (Create _ _ _ _ _ _) as [[[[[ret g'] err] adr] s1]| | |];
    try done. by destruct Hc as (? & ? & ? & ?).
Qed.

Lemma opCreate2_safe c :
  op_fine (c, with_memory (returns (writes (plain (opCreate2 evm contract) 4 1))) memoryCreate2).
Proof.
  start. destruct Hready as (k & Hk & Hle). assert (Hf : fits m x0 x1) by (by eapply (memory_at_fits 1 2)).
  unfold opCreate2. exec. read_memory Hf Hmem. apply create_done_safe; [frame|cbn; unfold StackLimit; lia|].
  cbn [f_gas f_state].
  pose proof (Create2_ok evm s (contract_self contract) b (g - g / 64) x (Bytes32 x2) Hgood
    (create_gas g true Hgas)) as Hc.
  specialize (Hc ltac:(unfold is_u256 in *; lia)). destruct (Create2 _ _ _ _ _ _ _) as [[[[[ret g'] err] adr] s1]| | |];
    try done. by destruct Hc as (? & ? & ? & ?).
Qed.

Abbreviation writer := (λ p, op_writes p.2 = true → op_fine p).

Ltac writers :=
  repeat first [assumption
    |apply Forall_cons_2;
       [intros Hw; first [discriminate Hw|
          lazymatch goal with
          | |- context [opSstore] => apply opSstore_safe
          | |- context [opSuicide] => apply opSuicide_safe
          | |- context [makeLog] => apply makeLog_safe
          | |- context [opCreate] => apply opCreate_safe
          | |- context [opCreate2] => apply opCreate2_safe
          end]|]];
  try apply Forall_nil_2.

Lemma JumpTable_writers : Forall writer (JumpTable evm contract input).
Proof using L.
  assert (Hf : Forall writer (newFrontierInstructionSet evm contract input)).
  { unfold newFrontierInstructionSet. rewrite !Forall_app. split_and!; writers. }
  assert (Hh : Forall writer (newHomesteadInstructionSet evm contract input)) by writers.
  assert (Hb : Forall writer (newByzantiumInstructionSet evm contract input)) by writers.
  assert (Hc : Forall writer (newConstantinopleInstructionSet evm contract input)) by writers.
  unfold JumpTable, enable1344, enable1884. writers. by repeat case_match.
Qed.
End Writes.

(** ** The loop *)

Section Loop.
Context {C : Crypto} {D : Database} {U : Uint256} {UL : Uint256Laws} {G : GoRuntime} {P : PrecompiledContracts}.

(** What is assumed of the hash function and of the precompiled contracts. *)
Class VmLaws : Prop := {
  vm_Keccak256_size : ∀ b, length (Keccak256 b) = HashLength;
  pc_RequiredGas_nonneg : ∀ p input, 0 ≤ pc_RequiredGas p input;
  pc_Run_returns : ∀ p input, is_ok (pc_Run p input) = true ∨ ∃ e, pc_Run p input = Panic e
}.
Context {VL : VmLaws}.

Definition run_ok (fuel : nat) : Prop := ∀ evm contract input f,
  good (f_state f) → frame_ok f →
  match run_loop fuel evm contract input f with
  | Ok (_, _, gas, s') => fine (f_state f) s' ∧ is_u64 gas
  | r => crash (I := EVMInterpreter fuel) r
  end.

(** The contract of the calls inside a run, from that of the loop. *)
Lemma loop_laws fuel : run_ok fuel → InterpreterLaws (I := EVMInterpreter fuel).
Proof using VL.
  intros H. split; [apply vm_Keccak256_size|apply pc_RequiredGas_nonneg|apply pc_Run_returns|].
  intros evm c input ro s Hg Hgas. cbn [Interpreter_Run EVMInterpreter interpreter]. unfold Run.
  destruct (code c) as [|b l] eqn:Ecode; [split_and!; try done; apply acts_refl|].
  assert (Hf : frame_ok (first_frame c s)).
  { split; simpl; [apply is_u64_0|done|by constructor|by vm_compute|by vm_compute]. }
  specialize (H (enter evm ro) c input (first_frame c s) Hg Hf).
  destruct (run_loop fuel (enter evm ro) c input (first_frame c s)) as [[[[ret err] g] s']| | |]; try done.
  destruct H as [Hfine Hg']. by destruct (Hfine Hg) as (? & ? & ?).
Qed.

Lemma run_loop_ok fuel : run_ok fuel.
Proof using UL VL.
  induction fuel as [|fuel IH]; intros evm contract input f Hg Hf; [done|]. cbn [run_loop].
  pose proof (loop_laws fuel IH) as L.
  pose proof (step_safe (I := EVMInterpreter fuel) evm contract input fine (λ _, True) f) as Hstep.
  specialize (Hstep (or_introl (conj (λ _, Logic.I) (JumpTable_writers evm contract input))) Hg Hf).
  fold (EVMInterpreter fuel).
  destruct (step evm contract input f) as [[[[data err] f']|f']| | |]; try done; cbn [bind].
  - by destruct Hstep.
  - destruct Hstep as [Hf' HR]. destruct (HR Hg) as (Hg' & _).
    specialize (IH evm contract input f' Hg' Hf').
    destruct (run_loop fuel evm contract input f') as [[[[ret err] g] s']| | |]; try done.
    destruct IH as [HR' Hgas]. split; [|done]. pose proof (fine_preorder vm_Keccak256_size). by etrans.
Qed.

(** C6: the interpreter keeps the contract the calls rely on.  Whatever code
    runs, and however deep it calls: the stack stays within its limit and its
    words within 256 bits, no instruction indexes or slices out of range, the
    state changes through operations of the state database only, reverts only
    to snapshots of its own, and no funds appear.  A run that does not return
    stopped in a nil operation, in a memory request beyond the address space,
    in a panic of a precompiled contract, or does not terminate. *)
Theorem EVMInterpreter_laws (fuel : nat) : InterpreterLaws (I := EVMInterpreter fuel).
Proof using UL VL. apply loop_laws, run_loop_ok. Qed.
End Loop.
