(* ===== verification/VmStatic.v ===== *)
(** * Static calls change nothing

    From Byzantium on, code that runs in a static call, and everything it
    calls, leaves every account as it was: nonce, balances, stake, code and
    storage, and the logs and the refund counter.  At most it brings accounts
    that did not exist into the state, as empty accounts. *)

From Stdlib Require Import ZArith Lia.
From stdpp Require Import base option list gmap sets strings.
From S2P Require Import Prelude Params Rlp Types Account State StateRevert Funds Evm EvmProps VmBase.
From S2P Require Import VmAnalysis VmMachine Vm VmSafe VmLoop.

Section Frozen.
Context {C : Crypto} {D : Database}.

Definition fresh_account (a : Address) : stateObject := setNonce (newObject a noAccount) 0.

(** An account before and after. *)
Definition kept (d : DB) (a : Address) (o o' : option stateObject) : Prop :=
  match o, o' with
  | None, None => True
  | Some o, Some o' => obj_equiv false d o' o
  | None, Some o' => obj_equiv false d o' (fresh_account a)
  | Some _, None => False
  end.

Record frozen (s s' : StateDB) : Prop := {
  fz_db : db s' = db s;
  fz_refund : refund s' = refund s;
  fz_logs : ∀ h, GetLogs s' h = GetLogs s h;
  fz_accounts : ∀ a, kept (db s) a (lookup s a) (lookup s' a)
}.

Lemma frozen_lookup s s' :
  db s' = db s → refund s' = refund s → (∀ h, GetLogs s' h = GetLogs s h) → (∀ a, lookup s' a = lookup s a) →
  frozen s s'.
Proof. intros Hd Hr Hl Hs. split; try done. intros a. rewrite Hs. by destruct (lookup s a). Qed.

#[export] Instance frozen_preorder : PreOrder frozen.
Proof.
  split; [intros s; by apply frozen_lookup|]. intros s1 s2 s3 [D1 R1 L1 A1] [D2 R2 L2 A2].
  split; try congruence. intros a. specialize (A1 a). specialize (A2 a).
  rewrite D1 in A2. destruct (lookup s1 a), (lookup s2 a), (lookup s3 a); try done; simpl in *; by etrans.
Qed.

Lemma frozen_equiv s s' : state_equiv false s' s → frozen s s'.
Proof.
  intros H. split; [apply H..|]. intros a. pose proof (se_lookup _ _ _ H a) as Ha. rewrite (se_db _ _ _ H) in Ha.
  by destruct Ha.
Qed.

Lemma frozen_read {A} (f : stateObject → A) none s a : frozen s (read f none s a).2.
Proof.
  apply frozen_equiv. unfold read. destruct (getStateObject_spec s a) as (s1 & -> & Hc).
  destruct (lookup s a); by eapply cached_equiv.
Qed.

Lemma frozen_read_update {A} (f : DB → stateObject → A * stateObject) none s a :
  (∀ d o, reloaded d o (f d o).2) → wf s → frozen s (read_update f none s a).2.
Proof.
  intros Hf Hw. apply frozen_equiv. unfold read_update. destruct (getStateObject_spec s a) as (s1 & -> & Hc).
  pose proof (cached_equiv false _ _ _ Hc) as He. destruct (lookup s a) as [o|] eqn:E; [|done].
  destruct (lookup_wf s a o Hw E) as (Ha & _ & _). specialize (Hf (db s1) o). destruct (f (db s1) o) as [x o'].
  destruct Hf as [Hr Hdata]. simpl in *. etrans; [|exact He].
  eapply setStateObject_same; [by rewrite (cached_lookup _ _ _ _ Hc), Ha|].
  destruct Hr. split; try done. simpl in *. congruence.
Qed.

Lemma frozen_GetCodeSize s a : frozen s (GetCodeSize s a).2.
Proof.
  destruct (GetCodeSize_cached s a) as (s1 & Hc%(cached_equiv false)%frozen_equiv & [-> | [e ->]]); [done|].
  etrans; [exact Hc|]. unfold setError. case_match; [done|]. by apply frozen_lookup.
Qed.

Lemma frozen_AddPreimage s h b : frozen s (AddPreimage s h b).
Proof. apply frozen_lookup; unfold AddPreimage; intros; by case_match. Qed.

Lemma frozen_Snapshot s : frozen s (Snapshot s).2.
Proof. by apply frozen_lookup. Qed.

(** A missing account is created empty. *)
Lemma frozen_fresh s s1 e a :
  lookup s a = None → cached s s1 a → frozen s (setStateObject (append s1 e) (fresh_account a)).
Proof.
  intros El Hc. pose proof (frozen_equiv _ _ (cached_equiv false _ _ _ Hc)) as Hf. etrans; [exact Hf|].
  split; try done. intros b. rewrite lookup_setStateObject. simpl. case_decide as Hb.
  - subst b. rewrite (cached_lookup _ _ _ _ Hc), El. done.
  - change (lookup (append s1 e) b) with (lookup s1 b). by destruct (lookup s1 b).
Qed.

Lemma frozen_CreateAccount s a : lookup s a = None → frozen s (CreateAccount s a).
Proof.
  intros El. unfold CreateAccount, createObject. destruct (getStateObject_spec s a) as (s1 & -> & Hc). rewrite El.
  by apply frozen_fresh.
Qed.

Lemma frozen_GetOrNew s a : frozen s (GetOrNewStateObject s a).2.
Proof.
  unfold GetOrNewStateObject, createObject. destruct (getStateObject_spec s a) as (s1 & -> & Hc).
  pose proof (frozen_equiv _ _ (cached_equiv false _ _ _ Hc)) as Hf. destruct (lookup s a) as [o|] eqn:El; [done|].
  destruct (getStateObject_spec s1 a) as (s2 & -> & Hc2). rewrite (cached_lookup _ _ _ _ Hc), El. simpl.
  etrans; [exact Hf|]. apply frozen_fresh; [by rewrite (cached_lookup _ _ _ _ Hc)|done].
Qed.

(** A transfer of nothing. *)
Lemma frozen_SubBalance_0 s a : frozen s (SubBalance s a 0).
Proof.
  etrans; [apply (frozen_GetOrNew s a)|]. unfold SubBalance, write. by destruct (GetOrNewStateObject s a) as [o s1].
Qed.

Lemma frozen_AddBalance_0 s a : frozen s (AddBalance s a 0).
Proof.
  etrans; [apply (frozen_GetOrNew s a)|]. unfold AddBalance, write.
  destruct (GetOrNewStateObject s a) as [o s1]. simpl. unfold so_AddBalance. cbn.
  case_match; [|done]. unfold touch. apply frozen_lookup; intros; by case_match.
Qed.

Lemma frozen_Transfer_0 s a b n : frozen s (Transfer s a b 0 n Main Main).
Proof. etrans; [apply (frozen_SubBalance_0 s a)|]. apply frozen_AddBalance_0. Qed.
End Frozen.

(** ** Calls in a read-only run *)

Section Calls.
Context {C : Crypto} {D : Database} {I : Interpreter} {L : InterpreterLaws}.

#[local] Instance fine_pre : PreOrder fine := fine_preorder Keccak256_size.

(** What code does when a call of [evm] runs it. *)
Definition runs_frozen (evm : EVM) (ro : bool) : Prop := ∀ c input s,
  good s → is_u64 (contract_Gas c) →
  match run evm c input ro s with Ok (_, _, _, s') => frozen s s' | _ => True end.

Definition frozen_call (s : StateDB) (r : result (outcome * StateDB)) : Prop :=
  match r with Ok (_, s') => frozen s s' | r => crash r end.

(** Failed calls leave no trace; it is the others that count. *)
Lemma call_frozen s r :
  call_spec s r → (∀ ret gas s', r = Ok ((ret, gas, None), s') → frozen s s') → frozen_call s r.
Proof.
  destruct r as [[[[ret gas] [e|]] s']| | |]; try done.
  - intros (_ & _ & _ & _ & He) _. by apply frozen_equiv, He.
  - intros _ H. by eapply H.
Qed.

Lemma settle_ok s id ret gas err ret' gas' s' :
  settle s id ret gas err = Ok ((ret', gas', None), s') → s' = s.
Proof.
  unfold settle. destruct err as [e|]; [|by intros [= _ _ ->]]. by destruct (RevertToSnapshot s id).
Qed.

(** [run] behind a snapshot and reads of the code. *)
Lemma run_settle_frozen evm ro s s1 id c input :
  runs_frozen evm ro → good s1 → is_u64 (contract_Gas c) → frozen s s1 →
  ∀ ret gas s',
  (let* (ret, err, gas, s2) := run evm c input ro s1 in settle s2 id ret gas err) = Ok ((ret, gas, None), s') →
  frozen s s'.
Proof.
  intros Hr Hg Hgas Hf ret gas s' H. specialize (Hr c input s1 Hg Hgas).
  destruct (run evm c input ro s1) as [[[[ret1 err1] gas1] s2]| | |]; try done. cbn [bind] in H.
  apply settle_ok in H as ->. by etrans.
Qed.

Lemma reads_frozen s a :
  good s → good (GetCode (GetCodeHash s a).2 a).2 ∧ frozen s (GetCode (GetCodeHash s a).2 a).2.
Proof.
  intros Hg. unfold GetCodeHash. match goal with |- context [read ?f ?n s a] =>
    destruct (fine_read Keccak256_size f n s a Hg) as (Hg1 & _ & _); pose proof (frozen_read f n s a) as Hf;
    set (s1 := (read f n s a).2) in * end.
  split; [by apply (fine_GetCode Keccak256_size)|]. etrans; [exact Hf|].
  apply frozen_read_update; [apply reloaded_code|apply Hg1].
Qed.

Lemma run_code_frozen evm s s1 id caller self addr input gas value :
  runs_frozen evm false → good s1 → is_u64 gas → frozen s s1 →
  ∀ ret gas' s',
  (let* (ret, err, gas, s2) := run_code evm s1 caller self addr input gas value false in
   settle s2 id ret gas err) = Ok ((ret, gas', None), s') →
  frozen s s'.
Proof.
  intros Hr Hg Hgas Hf ret gas' s'. unfold run_code.
  destruct (reads_frozen s1 addr Hg) as [Hg3 Hf3]. destruct (GetCodeHash s1 addr) as [hash s2]. simpl in Hg3, Hf3.
  destruct (GetCode s2 addr) as [code s3]. simpl in Hg3, Hf3.
  apply run_settle_frozen; [done|done|done|by etrans].
Qed.

Lemma StaticCall_frozen evm s caller addr input gas :
  runs_frozen evm true → good s → is_u64 gas →
  frozen_call s (StaticCall evm s caller addr input gas).
Proof.
  intros Hr Hg Hgas. apply call_frozen; [by apply (other_calls_ok evm s caller addr
    {| CallerAddress := caller; contract_self := caller; contract_value := 0; contract_Gas := gas;
       contract_Code := None; contract_CodeHash := zeroHash; contract_CodeAddr := addr |} input gas 0)|].
  intros ret g s'. unfold StaticCall. case_match; [by intros [= _ _ <-]|]. case_match; [done|].
  rewrite Snapshot_eq. pose proof (good_Snapshot s Hg) as Hg1. pose proof (frozen_Snapshot s) as Hf1.
  set (s1 := (Snapshot s).2) in *.
  destruct (reads_frozen s1 addr Hg1) as [Hg3 Hf3]. destruct (GetCodeHash s1 addr) as [hash s2].
  simpl in Hg3, Hf3. destruct (GetCode s2 addr) as [code s3]. simpl in Hg3, Hf3.
  apply run_settle_frozen; [done|by apply (fine_touch Keccak256_size)|done|].
  rewrite Hf1, Hf3. apply frozen_AddBalance_0.
Qed.

Lemma DelegateCall_frozen evm s parent addr input gas :
  runs_frozen evm false → good s → is_u64 gas →
  frozen_call s (DelegateCall evm s parent addr input gas).
Proof.
  intros Hr Hg Hgas. apply call_frozen;
    [by apply (other_calls_ok evm s (contract_self parent) addr parent input gas 0)|].
  intros ret g s'. unfold DelegateCall. case_match; [by intros [= _ _ <-]|]. case_match; [done|].
  rewrite Snapshot_eq. apply run_code_frozen; [done|by apply good_Snapshot|done|apply frozen_Snapshot].
Qed.

Lemma CallCode_frozen evm s caller addr input gas value :
  runs_frozen evm false → good s → is_u64 gas →
  frozen_call s (CallCode evm s caller addr input gas value).
Proof.
  intros Hr Hg Hgas. apply call_frozen; [by apply (other_calls_ok evm s caller addr
    {| CallerAddress := caller; contract_self := caller; contract_value := 0; contract_Gas := gas;
       contract_Code := None; contract_CodeHash := zeroHash; contract_CodeAddr := addr |} input gas value)|].
  intros ret g s'. unfold CallCode. case_match; [by intros [= _ _ <-]|]. case_match; [done|].
  destruct (CanTransfer_spec Keccak256_size s caller value Main) as ([Hfine He] & _ & _).
  destruct (CanTransfer s caller value Main) as [ok s1]. simpl in Hfine, He. destruct ok; [|done]. cbn [negb].
  destruct (Hfine Hg) as (Hg1 & _). rewrite Snapshot_eq.
  apply run_code_frozen; [done|by apply good_Snapshot|done|].
  etrans; [by apply frozen_equiv|apply frozen_Snapshot].
Qed.

Lemma Call_frozen evm s caller addr input gas :
  runs_frozen evm false → good s → is_u64 gas →
  frozen_call s (Call evm s caller addr input gas 0 Main Main).
Proof.
  intros Hr Hg Hgas. apply call_frozen; [by apply Call_ok|]. intros ret g s'. unfold Call.
  pose proof (frozen_read (λ o, Balance (so_data o)) 0 s caller) as Hf0. fold GetBalance in Hf0.
  destruct (fine_read Keccak256_size (λ o, Balance (so_data o)) 0 s caller Hg) as (Hg0 & _). fold GetBalance in Hg0.
  destruct (GetBalance s caller) as [b s0]. simpl in Hf0, Hg0.
  case_match; [by intros [= _ _ <-]|]. case_match; [done|].
  destruct (CanTransfer_spec Keccak256_size s0 caller 0 Main) as ([Hfine He] & _ & Hok).
  destruct (CanTransfer s0 caller 0 Main) as [ok s1]. simpl in Hfine, He. destruct ok; [|done]. cbn [negb].
  destruct (Hfine Hg0) as (Hg1 & _). rewrite Snapshot_eq.
  assert (Hf2 : frozen s (Snapshot s1).2) by (etrans; [exact Hf0|]; etrans; [by apply frozen_equiv|apply frozen_Snapshot]).
  pose proof (good_Snapshot s1 Hg1) as Hg2. set (s2 := (Snapshot s1).2) in *.
  pose proof (read_value (λ _, true) false s2 addr) as Hv.
  pose proof (frozen_read (λ _, true) false s2 addr) as Hf3.
  destruct (fine_read Keccak256_size (λ _, true) false s2 addr Hg2) as (Hg3 & _).
  assert (Hl : lookup (Exist s2 addr).2 addr = lookup s2 addr).
  { unfold Exist, read. destruct (getStateObject_spec s2 addr) as (s4 & -> & Hc).
    destruct (lookup s2 addr) eqn:E; simpl; by rewrite (cached_lookup _ _ _ _ Hc). }
  fold Exist in Hv, Hf3, Hg3. destruct (Exist s2 addr) as [ex s3]. simpl in Hv, Hf3, Hg3, Hl.
  destruct (_ && (0 =? 0)); [intros [= _ _ <-]; by etrans|].
  set (s4 := if negb ex then CreateAccount s3 addr else s3).
  assert (H4 : frozen s s4 ∧ good s4).
  { unfold s4. destruct ex; simpl; [by split; [etrans|]|]. split; [|by apply (fine_CreateAccount Keccak256_size)].
    etrans; [exact Hf2|]. etrans; [exact Hf3|]. apply frozen_CreateAccount. rewrite Hl. by destruct (lookup s2 addr). }
  clearbody s4. destruct H4 as [Hf4 Hg4].
  destruct (run_good Keccak256_size [OSubBalance caller 0; OAddBalance addr 0] s4 _ Hg4 eq_refl) as [Hg5 _].
  change (AddBalance (SubBalance s4 caller 0) addr 0) with (Transfer s4 caller addr 0 (evm_BlockNumber evm) Main Main) in Hg5.
  pose proof (frozen_Transfer_0 s4 caller addr (evm_BlockNumber evm)) as Hf5. set (s5 := Transfer s4 _ _ _ _ _ _) in *.
  pose proof (frozen_read (λ o, Balance (so_data o)) 0 s5 caller) as Hf6.
  destruct (fine_read Keccak256_size (λ o, Balance (so_data o)) 0 s5 caller Hg5) as (Hg6 & _).
  fold GetBalance in Hf6, Hg6. destruct (GetBalance s5 caller) as [b' s6]. simpl in Hf6, Hg6.
  apply run_code_frozen; try done. by rewrite Hf4, Hf5.
Qed.
End Calls.

(** ** Effects of a read-only run *)

Section ReadOnly.
Context {C : Crypto} {D : Database}.

Definition static (s s' : StateDB) : Prop := fine s s' ∧ (good s → frozen s s').

Section Effects.
Context {I : Interpreter} {L : InterpreterLaws} (evm : EVM) (contract : Contract).
Context (Hruns : ∀ ro, runs_frozen evm ro).

#[local] Instance fine_pre2 : PreOrder fine := fine_preorder Keccak256_size.

Lemma static_call s r : good s → call_effect fine s r → frozen_call s r → call_effect static s r.
Proof using. intros Hg. destruct r as [[[[ret g] err] s']| | |]; try done. intros [Hf Hgas] Hz. by split. Qed.

#[local] Instance static_effects : Effects evm contract static (λ v, v = 0).
Proof using L Hruns.
  pose proof (fine_effects evm contract) as Hfine. split; intros.
  - split; [apply Hfine|done].
  - destruct H, H0. split; [by etrans|]. intros Hg. etrans; [by auto|]. apply H2. by apply H.
  - split; [apply Hfine|intros _; apply frozen_read].
  - split; [apply Hfine|]. intros [Hw _]. apply frozen_read_update; [apply reloaded_code|done].
  - split; [apply Hfine|intros _; apply frozen_GetCodeSize].
  - split; [apply Hfine|]. intros [Hw _].
    apply (frozen_read_update (λ d o, so_GetState d o k)); [apply reloaded_state|done].
  - split; [apply Hfine|intros _; apply frozen_AddPreimage].
  - subst value. apply static_call; [done|by apply Hfine|by apply Call_frozen].
  - apply static_call; [done|by apply Hfine|by apply CallCode_frozen].
  - apply static_call; [done|by apply Hfine|by apply DelegateCall_frozen].
  - apply static_call; [done|by apply Hfine|by apply StaticCall_frozen].
Qed.
End Effects.

Section Loop.
Context {U : Uint256} {UL : Uint256Laws} {G : GoRuntime} {P : PrecompiledContracts} {VL : VmLaws}.

Definition loop_static (fuel : nat) : Prop := ∀ evm contract input f,
  read_only evm = true → good (f_state f) → frame_ok f →
  match run_loop fuel evm contract input f with
  | Ok (_, _, _, s') => frozen (f_state f) s'
  | _ => True
  end.

(** Code run by a call of a read-only run, or by a static call. *)
Lemma loop_runs_frozen fuel evm ro :
  loop_static fuel → read_only (enter evm ro) = true → runs_frozen (I := EVMInterpreter fuel) evm ro.
Proof using.
  intros H Hro c input s Hg Hgas. unfold run. destruct (is_precompile _ _).
  { destruct (RunPrecompiledContract _ _ _) as [[[]]| | |]; try done. by cbn [bind]. }
  cbn [Interpreter_Run EVMInterpreter interpreter]. unfold Run. destruct (code c); [done|].
  apply (H (enter evm ro) c input (first_frame c s) Hro Hg).
  split; simpl; [apply is_u64_0|done|by constructor|by vm_compute|by vm_compute].
Qed.

Lemma run_loop_static fuel : loop_static fuel.
Proof using UL VL.
  induction fuel as [|fuel IH]; intros evm contract input f Hro Hg Hf; [done|]. cbn [run_loop].
  pose proof (loop_laws fuel (run_loop_ok fuel)) as L.
  assert (Hruns : ∀ ro, runs_frozen (I := EVMInterpreter fuel) evm ro).
  { intros ro. apply loop_runs_frozen; [done|]. unfold read_only in *. apply andb_true_iff in Hro as [HB HR].
    apply andb_true_iff. split; [exact HB|]. simpl. by rewrite HR. }
  pose proof (static_effects (I := EVMInterpreter fuel) evm contract Hruns) as E.
  pose proof (step_safe (I := EVMInterpreter fuel) evm contract input static (λ v, v = 0) f) as Hstep.
  specialize (Hstep (or_intror (conj Hro eq_refl)) Hg Hf). fold (EVMInterpreter fuel).
  destruct (step evm contract input f) as [[[[data err] f']|f']| | |]; try done; cbn [bind].
  - destruct Hstep as [_ [_ Hz]]. by apply Hz.
  - destruct Hstep as [Hf' [HR Hz]]. destruct (HR Hg) as (Hg' & _).
    specialize (IH evm contract input f' Hro Hg' Hf').
    destruct (run_loop fuel evm contract input f') as [[[[ret err] g] s']| | |]; try done.
    etrans; [by apply Hz|exact IH].
Qed.

(** C28: static calls change nothing.  From Byzantium on a static call, with
    everything that runs inside it, returns or crashes as any call does, and
    when it returns every account has the nonce, balances, stake, code and
    storage it had before; the logs and the refund counter are those from
    before, and an account that did not exist is at most an empty one. *)
Theorem StaticCall_changes_nothing (fuel : nat) (evm : EVM) (s : StateDB) (caller addr : Address)
    (input : option bytes) (gas : Z) (HB : R_IsByzantium (rules evm) = true) (Hg : good s) (Hgas : is_u64 gas) :
  frozen_call (I := EVMInterpreter fuel) s (StaticCall (I := EVMInterpreter fuel) evm s caller addr input gas).
Proof using UL VL.
  pose proof (loop_laws fuel (run_loop_ok fuel)) as L.
  apply StaticCall_frozen; [|done|done]. apply loop_runs_frozen; [apply run_loop_static|].
  unfold read_only. simpl. by rewrite orb_true_r, andb_true_r.
Qed.
End Loop.
End ReadOnly.
