(* ===== verification/Precompiles.v ===== *)
(** * Precompiled contracts ([core/vm/contracts.go])

    The gas and the result of the eight native contracts.  The hash functions
    and the curve arithmetic of [crypto/bn256] are parameters; their results
    are used as the source uses them.

    A slice handed to a contract is shared with the memory of the caller.
    [ecrecover] appends to it, which would overwrite a byte of that memory, but
    it needs 3000 units of gas and no instruction hands out more than the
    stipend of 2300: it runs for transactions only, on a slice of their own.
    What [dataCopy] shares is part of the model of the calls in the file [Vm]. *)

From Stdlib Require Import ZArith Lia.
From stdpp Require Import base option list gmap sets strings.
From S2P Require Import Prelude Params Rlp Types Account State StateRevert Evm EvmProps VmBase VmMachine Vm.
From S2P Require Import VmSafe VmLoop.

(** [crypto/ripemd160] and the types and functions of [crypto/bn256]. *)
Class Ripemd160 := { ripemd160 : bytes → bytes }.
Class Bn256 := {
  G1 : Type;
  G2 : Type;
  G1_Unmarshal : bytes → G1 + string;
  G2_Unmarshal : bytes → G2 + string;
  G1_Marshal : G1 → bytes;
  G1_Add : G1 → G1 → G1;
  G1_ScalarMult : G1 → Z → G1;
  PairingCheck : list G1 → list G2 → bool
}.

Definition EcrecoverGas : Z := 3000.
Definition Sha256BaseGas : Z := 60.
Definition Sha256PerWordGas : Z := 12.
Definition Ripemd160BaseGas : Z := 600.
Definition Ripemd160PerWordGas : Z := 120.
Definition IdentityBaseGas : Z := 15.
Definition IdentityPerWordGas : Z := 3.
Definition ModExpQuadCoeffDiv : Z := 20.
Definition Bn256AddGas : Z := 500.
Definition Bn256ScalarMulGas : Z := 40000.
Definition Bn256PairingBaseGas : Z := 100000.
Definition Bn256PairingPerPointGas : Z := 80000.

Abbreviation returned := (option bytes * option string)%type.
Definition errBadPairingInput : string := "bad elliptic curve pairing size".

(** [getData] with sizes of at most 32 bytes, which never panics. *)
Definition data_at (input : bytes) (start size : Z) : bytes :=
  match getData input start size with Ok b => b | _ => [] end.

(** [input[96:]], or nothing. *)
Definition operands (input : bytes) : bytes := drop 96 input.

(** ** Gas *)

Definition word_gas (perWord base : Z) (input : bytes) : Z :=
  u64 (u64 (golen input + 31) / 32 * perWord + base).

(** The gas of [bigModExp] before it is cut to 64 bits. *)
Definition modexp_complexity (x : Z) : Z :=
  if x <=? 64 then x * x
  else if x <=? 1024 then x * x / 4 + (96 * x - 3072)
  else x * x / 16 + (480 * x - 199680).

Definition bigModExp_RequiredGas (input : bytes) : Z :=
  let baseLen := be_Z (data_at input 0 32) in
  let expLen := be_Z (data_at input 32 32) in
  let modLen := be_Z (data_at input 64 32) in
  let input := operands input in
  let expHead :=
    if golen input <=? baseLen then 0
    else if 32 <? expLen then be_Z (data_at input (u64 baseLen) 32)
    else be_Z (data_at input (u64 baseLen) (u64 expLen)) in
  let msb := if 0 <? BitLen expHead then BitLen expHead - 1 else 0 in
  let adjExpLen := (if 32 <? expLen then 8 * (expLen - 32) else 0) + msb in
  let gas := modexp_complexity (Z.max modLen baseLen) * Z.max adjExpLen 1 / ModExpQuadCoeffDiv in
  if 64 <? BitLen gas then maxUint64 else u64 gas.

Definition bn256Pairing_RequiredGas (input : bytes) : Z :=
  u64 (Bn256PairingBaseGas + golen input / 192 * Bn256PairingPerPointGas).

(** ** Runs *)

Section Runs.
Context {C : Crypto} {S : Sha256} {Rip : Ripemd160} {B : Bn256}.

Definition ecrecover_Run (input : bytes) : result returned :=
  let* input := RightPadBytes input 128 in
  let* r := slice input 64 96 in
  let* s := slice input 96 128 in
  match input !! 63%nat with
  | None => Panic index_panic
  | Some x =>
      let v := (x - 27) mod 256 in
      let* pad := slice input 32 63 in
      if negb (allZero pad) || negb (ValidateSignatureValues v (be_Z r) (be_Z s) false) then Ok (None, None)
      else
        let* hash := slice input 0 32 in
        let* sig := slice input 64 128 in
        match Ecrecover hash (sig ++ [v]) with
        | Ok pubKey =>
            let* key := slice pubKey 1 (Z.of_nat (length pubKey)) in
            let h := Keccak256 key in
            let* tail := slice h 12 (Z.of_nat (length h)) in
            let* out := LeftPadBytes tail 32 in
            Ok (Some out, None)
        | Err _ => Ok (None, None)
        | Panic p => Panic p
        | Hang => Hang
        end
  end.

Definition sha256hash_Run (input : bytes) : result returned := Ok (Some (sha256 input), None).

Definition ripemd160hash_Run (input : bytes) : result returned :=
  let* out := LeftPadBytes (ripemd160 input) 32 in Ok (Some out, None).

Definition dataCopy_Run (input : option bytes) : result returned := Ok (input, None).

Definition bigModExp_Run (input : bytes) : result returned :=
  let* b := getData input 0 32 in
  let* e := getData input 32 32 in
  let* m := getData input 64 32 in
  let baseLen := big_Uint64 (be_Z b) in
  let expLen := big_Uint64 (be_Z e) in
  let modLen := big_Uint64 (be_Z m) in
  let input := operands input in
  if (baseLen =? 0) && (modLen =? 0) then Ok (Some [], None)
  else
    let* b := getData input 0 baseLen in
    let* e := getData input baseLen expLen in
    let* m := getData input (u64 (baseLen + expLen)) modLen in
    if BitLen (be_Z m) =? 0 then
      let* out := LeftPadBytes [] (i64 modLen) in Ok (Some out, None)
    else
      let* out := LeftPadBytes (Z_be (be_Z b ^ be_Z e mod be_Z m)) (i64 modLen) in Ok (Some out, None).

Definition bn256Add_Run (input : bytes) : result returned :=
  let* a := getData input 0 64 in
  match G1_Unmarshal a with
  | inr e => Ok (None, Some e)
  | inl x =>
      let* b := getData input 64 64 in
      match G1_Unmarshal b with
      | inr e => Ok (None, Some e)
      | inl y => Ok (Some (G1_Marshal (G1_Add x y)), None)
      end
  end.

Definition bn256ScalarMul_Run (input : bytes) : result returned :=
  let* a := getData input 0 64 in
  match G1_Unmarshal a with
  | inr e => Ok (None, Some e)
  | inl p =>
      let* k := getData input 64 32 in
      Ok (Some (G1_Marshal (G1_ScalarMult p (be_Z k))), None)
  end.

Definition true32Byte : bytes := replicate 31 0 ++ [1].
Definition false32Byte : bytes := replicate 32 0.

(** The loop over the pairs; [n] of them are left. *)
Fixpoint pairing_points (n : nat) (input : bytes) (i : Z) (cs : list G1) (ts : list G2)
    : result (list G1 * list G2 + string) :=
  match n with
  | O => Ok (inl (cs, ts))
  | Datatypes.S n =>
      let* a := slice input i (i + 64) in
      match G1_Unmarshal a with
      | inr e => Ok (inr e)
      | inl c =>
          let* b := slice input (i + 64) (i + 192) in
          match G2_Unmarshal b with
          | inr e => Ok (inr e)
          | inl t => pairing_points n input (i + 192) (cs ++ [c]) (ts ++ [t])
          end
      end
  end.

Definition bn256Pairing_Run (input : bytes) : result returned :=
  let len := Z.of_nat (length input) in
  if 0 <? len mod 192 then Ok (None, Some errBadPairingInput)
  else
    let* r := pairing_points (Z.to_nat (len / 192)) input 0 [] [] in
    match r with
    | inr e => Ok (None, Some e)
    | inl (cs, ts) => Ok (Some (if PairingCheck cs ts then true32Byte else false32Byte), None)
    end.

(** ** By address *)

Definition contract_number (a : Address) : Z := if bool_decide (a ∈ PrecompiledContractsByzantium) then be_Z a else 0.

#[export] Instance precompiledContracts : PrecompiledContracts := {|
  pc_RequiredGas := λ a input,
    let input := default [] input in
    match contract_number a with
    | 1 => EcrecoverGas
    | 2 => word_gas Sha256PerWordGas Sha256BaseGas input
    | 3 => word_gas Ripemd160PerWordGas Ripemd160BaseGas input
    | 4 => word_gas IdentityPerWordGas IdentityBaseGas input
    | 5 => bigModExp_RequiredGas input
    | 6 => Bn256AddGas
    | 7 => Bn256ScalarMulGas
    | _ => bn256Pairing_RequiredGas input
    end;
  pc_Run := λ a input,
    let data := default [] input in
    match contract_number a with
    | 1 => ecrecover_Run data
    | 2 => sha256hash_Run data
    | 3 => ripemd160hash_Run data
    | 4 => dataCopy_Run input
    | 5 => bigModExp_Run data
    | 6 => bn256Add_Run data
    | 7 => bn256ScalarMul_Run data
    | _ => bn256Pairing_Run data
    end
|}.
End Runs.

(** ** Runs return or panic *)

(** Neither an error result nor a loop without end. *)
Definition tame {A} (r : result A) : Prop := match r with Ok _ | Panic _ => True | _ => False end.

Lemma tame_bind {A B} (r : result A) (k : A → result B) : tame r → (∀ a, tame (k a)) → tame (bind r k).
Proof. destruct r; simpl; auto. Qed.

Lemma tame_slice b lo hi : tame (slice b lo hi).
Proof. unfold slice. by case_match. Qed.
Lemma tame_RightPadBytes b l : tame (RightPadBytes b l).
Proof. unfold RightPadBytes. by repeat case_match. Qed.
Lemma tame_LeftPadBytes b l : tame (LeftPadBytes b l).
Proof. unfold LeftPadBytes. by repeat case_match. Qed.
Lemma tame_getData b start size : tame (getData b start size).
Proof. unfold getData. apply tame_bind; [apply tame_slice|]. intros. apply tame_RightPadBytes. Qed.

Create HintDb tame.
#[export] Hint Resolve tame_slice tame_RightPadBytes tame_LeftPadBytes tame_getData : tame.
#[export] Hint Extern 1 (tame (Ok _)) => exact Logic.I : tame.
#[export] Hint Extern 1 (tame (Panic _)) => exact Logic.I : tame.

(** Steps through a run. *)
Ltac tame :=
  repeat match goal with
  | |- tame (bind _ _) => apply tame_bind; [auto with tame|intros]
  | |- tame (match ?x with _ => _ end) => destruct x eqn:?
  | |- tame (if ?x then _ else _) => destruct x
  end; auto with tame.

Section Laws.
Context {C : Crypto} {S : Sha256} {Rip : Ripemd160} {B : Bn256}.

(** What [crypto] documents of its functions. *)
Class CryptoLaws : Prop := {
  Keccak256_32 : ∀ b, length (Keccak256 b) = HashLength;
  Ecrecover_returns : ∀ hash sig, tame (Ecrecover hash sig) ∨ ∃ e, Ecrecover hash sig = Err e
}.
Context {CL : CryptoLaws}.

Lemma tame_pairing n input i cs ts : tame (pairing_points n input i cs ts).
Proof using. revert i cs ts. induction n as [|n IH]; intros i cs ts; cbn [pairing_points]; [done|]. tame. Qed.
#[local] Hint Resolve tame_pairing : tame.

Lemma tame_ecrecover input : tame (ecrecover_Run input).
Proof using CL.
  unfold ecrecover_Run. tame. destruct (Ecrecover_returns a3 (a4 ++ [(z - 27) mod 256])) as [H|[e H]];
    rewrite Heqr in H; done.
Qed.

Lemma tame_pc_Run a input : tame (pc_Run a input).
Proof using CL.
  cbn [pc_Run precompiledContracts].
  repeat first [apply tame_ecrecover | match goal with |- tame (match ?x with _ => _ end) => destruct x end];
    unfold bn256Pairing_Run, sha256hash_Run, ripemd160hash_Run, dataCopy_Run, bigModExp_Run, bn256Add_Run,
      bn256ScalarMul_Run; tame.
Qed.

Lemma bigModExp_gas_u64 input : is_u64 (bigModExp_RequiredGas input).
Proof using. unfold bigModExp_RequiredGas. destruct (64 <? _); [by vm_compute|apply u64_range]. Qed.

Lemma pc_gas_u64 a input : is_u64 (pc_RequiredGas a input).
Proof using.
  cbn [pc_RequiredGas precompiledContracts].
  repeat match goal with |- is_u64 (match ?x with _ => _ end) => destruct x end;
    first [apply bigModExp_gas_u64|apply u64_range|by vm_compute].
Qed.

(** The precompiled contracts keep the contract of the interpreter. *)
#[export] Instance precompiled_laws : VmLaws.
Proof using CL.
  split; [apply Keccak256_32|intros p input; apply pc_gas_u64|].
  intros p input. pose proof (tame_pc_Run p input) as H. destruct (pc_Run p input); try done; [by left|right; eauto].
Qed.
End Laws.

(** ** Modular exponentiation *)

Lemma getData_exact data (start size : nat) :
  Z.of_nat (length data) < two63 → (start + size ≤ length data)%nat →
  getData data (Z.of_nat start) (Z.of_nat size) = Ok (take size (drop start data)).
Proof.
  intros Hs Hle. unfold getData. assert (Hg : golen data = Z.of_nat (length data)) by (unfold golen; lia).
  rewrite Hg. rewrite (proj2 (Z.ltb_ge _ (Z.of_nat start))) by lia. rewrite u64_small by word.
  rewrite (proj2 (Z.ltb_ge _ (Z.of_nat start + Z.of_nat size))) by lia.
  unfold slice. rewrite (proj2 (Z.leb_le 0 _)), (proj2 (Z.leb_le (Z.of_nat start) _)), (proj2 (Z.leb_le _ (Z.of_nat _))) by lia.
  cbn [andb bind]. rewrite Z.add_simpl_l, !Nat2Z.id. unfold RightPadBytes.
  assert (Hl : length (take size (drop start data)) = size) by (rewrite length_take, length_drop; lia).
  rewrite i64_small by word. unfold golen. rewrite Hl. by rewrite (proj2 (Z.leb_le _ _)) by word.
Qed.

Lemma be_Z_Bytes32 n : 0 ≤ n < two256 → be_Z (Bytes32 n) = n.
Proof.
  intros Hn. unfold Bytes32, set_bytes.
  assert (Hl : (length (Z_be n) ≤ HashLength)%nat) by (apply Z_be_length; by rewrite two256_eq in Hn).
  destruct (Nat.leb_spec HashLength (length (Z_be n))).
  - replace (length (Z_be n) - HashLength)%nat with 0%nat by lia. rewrite drop_0. apply be_Z_be. lia.
  - rewrite be_Z_zeros. apply be_Z_be. lia.
Qed.

Definition modexp_input (b e m : bytes) : bytes :=
  Bytes32 (Z.of_nat (length b)) ++ Bytes32 (Z.of_nat (length e)) ++ Bytes32 (Z.of_nat (length m)) ++ b ++ e ++ m.

Lemma length_Bytes32 n : length (Bytes32 n) = 32%nat.
Proof. apply set_bytes_length. Qed.

(** Reading one field of an input made of fields. *)
Lemma getData_field l1 b l2 (start size : Z) :
  Z.of_nat (length (l1 ++ b ++ l2)) < two63 → start = Z.of_nat (length l1) → size = Z.of_nat (length b) →
  getData (l1 ++ b ++ l2) start size = Ok b.
Proof.
  intros Hlen -> ->. rewrite !length_app in Hlen. rewrite getData_exact by (rewrite ?length_app; lia).
  by rewrite drop_app_length, take_app_length.
Qed.

Lemma LeftPad_value z (n : nat) :
  0 ≤ z < 256 ^ Z.of_nat n → Z.of_nat n ≤ maxAlloc →
  ∃ out, LeftPadBytes (Z_be z) (Z.of_nat n) = Ok out ∧ length out = n ∧ be_Z out = z.
Proof.
  intros Hz Hn. pose proof (Z_be_length n z Hz) as Hl. unfold LeftPadBytes, golen. rewrite maxAlloc_eq in Hn.
  destruct (Z.leb_spec (Z.of_nat n) (Z.min (Z.of_nat (length (Z_be z))) (two63 - 1))).
  - eexists. split; [done|]. split; [lia|]. apply be_Z_be. lia.
  - rewrite (proj2 (Z.ltb_ge maxAlloc _)) by (rewrite maxAlloc_eq; lia). eexists. split; [done|].
    rewrite length_app, length_replicate, be_Z_zeros, be_Z_be by lia. split; [lia|done].
Qed.

(** Modular exponentiation.  On an input of three lengths and three
    numbers, [bigModExp] returns as many bytes as the modulus has, and they are
    the power modulo the modulus. *)
Theorem bigModExp_correct (b e m : bytes) (Hm : wf_bytes m) (Hpos : 0 < be_Z m)
    (Hsize : Z.of_nat (length b + length e + length m) ≤ maxAlloc) :
  ∃ out, bigModExp_Run (modexp_input b e m) = Ok (Some out, None) ∧ length out = length m ∧
         be_Z out = be_Z b ^ be_Z e mod be_Z m.
Proof.
  pose proof (be_Z_bound m Hm) as Hb.
  assert (Hm1 : (0 < length m)%nat) by (destruct m; [simpl in Hpos; done|simpl; lia]).
  destruct (LeftPad_value (be_Z b ^ be_Z e mod be_Z m) (length m)) as (out & Hout & Hlen & Hval).
  { pose proof (Z.mod_pos_bound (be_Z b ^ be_Z e) (be_Z m) Hpos). lia. }
  { lia. }
  rewrite maxAlloc_eq in Hsize. exists out. split; [|done]. unfold bigModExp_Run, modexp_input.
  set (L := Bytes32 (Z.of_nat (length b))). set (E := Bytes32 (Z.of_nat (length e))).
  set (M := Bytes32 (Z.of_nat (length m))).
  assert (HL : length L = 32%nat ∧ length E = 32%nat ∧ length M = 32%nat) by (split_and!; apply length_Bytes32).
  destruct HL as (HL & HE & HM).
  rewrite (getData_field [] L (E ++ M ++ b ++ e ++ m)) by (simpl; rewrite ?length_app; word).
  cbn [bind].
  rewrite (getData_field L E (M ++ b ++ e ++ m)) by (rewrite ?length_app; word). cbn [bind].
  pose proof (getData_field (L ++ E) M (b ++ e ++ m) 64 32) as HMd. rewrite <- app_assoc in HMd.
  rewrite HMd by (rewrite ?length_app; word). cbn [bind].
  assert (Hlens : be_Z L = Z.of_nat (length b) ∧ be_Z E = Z.of_nat (length e) ∧ be_Z M = Z.of_nat (length m)).
  { split_and!; apply be_Z_Bytes32; rewrite two256_eq; lia. }
  destruct Hlens as (-> & -> & ->).
  rewrite !big_Uint64_small by word.
  assert (Hop : operands (L ++ E ++ M ++ b ++ e ++ m) = b ++ e ++ m).
  { unfold operands. replace (L ++ E ++ M ++ b ++ e ++ m) with ((L ++ E ++ M) ++ b ++ e ++ m) by (by rewrite <- !app_assoc).
    apply drop_app_length'. rewrite !length_app. lia. }
  rewrite Hop, (proj2 (Z.eqb_neq (Z.of_nat (length m)) 0)), andb_false_r by lia.
  rewrite (getData_field [] b (e ++ m)) by (simpl; rewrite ?length_app; word). cbn [bind].
  rewrite (getData_field b e m) by (rewrite ?length_app; word). cbn [bind].
  rewrite u64_small by word.
  pose proof (getData_field (b ++ e) m [] (Z.of_nat (length b) + Z.of_nat (length e)) (Z.of_nat (length m))) as HMm.
  rewrite app_nil_r, <- app_assoc in HMm. rewrite HMm by (rewrite ?length_app; word). cbn [bind].
  assert (Hbl : (BitLen (be_Z m) =? 0) = false).
  { unfold BitLen. rewrite (proj2 (Z.leb_gt _ _)) by lia. apply Z.eqb_neq. pose proof (Z.log2_nonneg (be_Z m)). lia. }
  rewrite Hbl, i64_small by word. by rewrite Hout.
Qed.

Lemma bigModExp_correct_witness :
  ∃ out, bigModExp_Run (modexp_input [3] [2; 0] [7]) = Ok (Some out, None) ∧ length out = 1%nat ∧
         be_Z out = 3 ^ 512 mod 7.
Proof.
  apply (bigModExp_correct [3] [2; 0] [7]); [|reflexivity|vm_compute; discriminate].
  constructor; [unfold is_byte; lia|constructor].
Defined.
