(* ===== verification/Chain.v ===== *)
(** * Access to the local chain ([consensus/consensus.go], [core/types/block.go])

    Header hashes, blocks, and the [ChainReader] interface through which the
    consensus engine and the staking database look at the chain.  The laws of
    [ChainLaws] are what the engine relies on: a header found under a hash and a
    number has that hash and that number. *)

From Stdlib Require Import ZArith Lia.
From stdpp Require Import base option list gmap strings.
From S2P Require Import Prelude GoFloat Params Rlp Types.

Section HeaderHash.
Context {C : Crypto}.

(** [Header.Hash]: every field, in the order of the struct. *)
Definition header_fields (h : Header) : list item :=
  [RStr (ParentHash h); RStr (UncleHash h); RStr (Coinbase h); RStr (Root h);
   RStr (TxHash h); RStr (ReceiptHash h); RStr (Bloom h); RUint (Difficulty h);
   RUint (default 0 (Number h)); RUint (GasLimit h); RUint (GasUsed h);
   RUint (Time h); RStr (Extra h); RStr (MixDigest h); RStr (Nonce h)].

Definition Header_Hash (h : Header) : Hash := rlpHash (RList (header_fields h)).

(** [Hash] on a nil [*Header] encodes the empty list. *)
Definition nil_Header_Hash : Hash := rlpHash (RList []).

Definition CalcUncleHash (uncles : list Header) : Hash :=
  rlpHash (RList ((λ h, RList (header_fields h)) <$> uncles)).
End HeaderHash.

Record Block := {
  block_header : Header;
  block_transactions : list txdata;
  block_uncles : list Header
}.

(** [header.Number.Uint64()]; a nil number is a nil pointer dereference, which
    the callers exclude before. *)
Definition num (h : Header) : Z := default 0 (Number h).

Record ChainReader (St : Type) := {
  Config : ChainConfig;
  CurrentHeader : option Header;
  GetHeader : Hash → Z → option Header;
  GetHeaderByNumber : Z → option Header;
  GetBlock : Hash → Z → option Block;
  StateAt : Hash → result St;
  HasBlockAndState : Hash → Z → bool
}.
Arguments Config {St} _.
Arguments CurrentHeader {St} _.
Arguments GetHeader {St} _ _ _.
Arguments GetHeaderByNumber {St} _ _.
Arguments GetBlock {St} _ _ _.
Arguments StateAt {St} _ _.
Arguments HasBlockAndState {St} _ _ _.

(** What the database guarantees: lookups by hash and number are consistent,
    block numbers fit 64 bits. *)
Class ChainLaws {St} `{Crypto} (chain : ChainReader St) : Prop := {
  GetHeader_spec h n hd :
    GetHeader chain h n = Some hd → Header_Hash hd = h ∧ Number hd = Some n ∧ is_u64 n;
  GetHeaderByNumber_spec n hd :
    GetHeaderByNumber chain n = Some hd → Number hd = Some n ∧ is_u64 n;
  GetBlock_spec h n b :
    GetBlock chain h n = Some b →
    Header_Hash (block_header b) = h ∧ Number (block_header b) = Some n ∧ is_u64 n
}.
