(* ===== verification/ChainStore.v ===== *)
(** * The chain database ([core/rawdb])

    What the database keeps of the chain: one finite map per family of keys
    ([core/rawdb/schema.go]) and the hashes of the heads.  Entries are the values
    that were encoded; a database that cannot be written stops the client
    ([log.Crit]) and is not modelled. *)

From Stdlib Require Import ZArith Lia.
From stdpp Require Import base option list gmap strings.
From S2P Require Import Prelude Rlp Types Account State Receipt DeriveSha Chain.

Record TxLookupEntry := {
  entry_BlockHash : Hash;
  entry_BlockIndex : Z;
  entry_Index : Z
}.

(** The stored form of a receipt: what its status is encoded as, and the rest.
    [rlpStorageLog] has every field of a log but [Removed]. *)
Record receiptStorageRLP := {
  sr_PostStateOrStatus : bytes;
  sr_CumulativeGasUsed : Z;
  sr_Bloom : bytes;
  sr_TxHash : Hash;
  sr_ContractAddress : Address;
  sr_Logs : list Log;
  sr_GasUsed : Z
}.

Record ChainDb := {
  canonicalHashes : gmap Z Hash;
  headerNumbers : gmap Hash Z;
  headerData : gmap (Z * Hash) Header;
  bodyData : gmap (Z * Hash) (list txdata * list Header);
  tdData : gmap (Z * Hash) Z;
  receiptData : gmap (Z * Hash) (list receiptStorageRLP);
  txLookups : gmap Hash TxLookupEntry;
  preimageData : gmap Hash bytes;
  headHeaderHash : Hash;
  headBlockHash : Hash;
  headFastBlockHash : Hash
}.

Definition put_canonical (db : ChainDb) (m : gmap Z Hash) : ChainDb := {|
  canonicalHashes := m; headerNumbers := headerNumbers db; headerData := headerData db; bodyData := bodyData db; tdData := tdData db;
  receiptData := receiptData db; txLookups := txLookups db; preimageData := preimageData db; headHeaderHash := headHeaderHash db; headBlockHash := headBlockHash db;
  headFastBlockHash := headFastBlockHash db |}.
Definition put_headers (db : ChainDb) (m : gmap Hash Z) (hs : gmap (Z * Hash) Header) : ChainDb := {|
  canonicalHashes := canonicalHashes db; headerNumbers := m; headerData := hs; bodyData := bodyData db; tdData := tdData db;
  receiptData := receiptData db; txLookups := txLookups db; preimageData := preimageData db; headHeaderHash := headHeaderHash db; headBlockHash := headBlockHash db;
  headFastBlockHash := headFastBlockHash db |}.
Definition put_bodies (db : ChainDb) (m : gmap (Z * Hash) (list txdata * list Header)) : ChainDb := {|
  canonicalHashes := canonicalHashes db; headerNumbers := headerNumbers db; headerData := headerData db; bodyData := m; tdData := tdData db;
  receiptData := receiptData db; txLookups := txLookups db; preimageData := preimageData db; headHeaderHash := headHeaderHash db; headBlockHash := headBlockHash db;
  headFastBlockHash := headFastBlockHash db |}.
Definition put_tds (db : ChainDb) (m : gmap (Z * Hash) Z) : ChainDb := {|
  canonicalHashes := canonicalHashes db; headerNumbers := headerNumbers db; headerData := headerData db; bodyData := bodyData db; tdData := m;
  receiptData := receiptData db; txLookups := txLookups db; preimageData := preimageData db; headHeaderHash := headHeaderHash db; headBlockHash := headBlockHash db;
  headFastBlockHash := headFastBlockHash db |}.
Definition put_receipts (db : ChainDb) (m : gmap (Z * Hash) (list receiptStorageRLP)) : ChainDb := {|
  canonicalHashes := canonicalHashes db; headerNumbers := headerNumbers db; headerData := headerData db; bodyData := bodyData db; tdData := tdData db;
  receiptData := m; txLookups := txLookups db; preimageData := preimageData db; headHeaderHash := headHeaderHash db; headBlockHash := headBlockHash db;
  headFastBlockHash := headFastBlockHash db |}.
Definition put_lookups (db : ChainDb) (m : gmap Hash TxLookupEntry) : ChainDb := {|
  canonicalHashes := canonicalHashes db; headerNumbers := headerNumbers db; headerData := headerData db; bodyData := bodyData db; tdData := tdData db;
  receiptData := receiptData db; txLookups := m; preimageData := preimageData db; headHeaderHash := headHeaderHash db; headBlockHash := headBlockHash db;
  headFastBlockHash := headFastBlockHash db |}.
Definition put_preimages (db : ChainDb) (m : gmap Hash bytes) : ChainDb := {|
  canonicalHashes := canonicalHashes db; headerNumbers := headerNumbers db; headerData := headerData db; bodyData := bodyData db; tdData := tdData db;
  receiptData := receiptData db; txLookups := txLookups db; preimageData := m; headHeaderHash := headHeaderHash db; headBlockHash := headBlockHash db;
  headFastBlockHash := headFastBlockHash db |}.
Definition put_heads (db : ChainDb) (hdr blk fast : Hash) : ChainDb := {|
  canonicalHashes := canonicalHashes db; headerNumbers := headerNumbers db; headerData := headerData db; bodyData := bodyData db; tdData := tdData db;
  receiptData := receiptData db; txLookups := txLookups db; preimageData := preimageData db; headHeaderHash := hdr; headBlockHash := blk; headFastBlockHash := fast |}.

(** [Block.NumberU64]. *)
Definition NumberU64 (b : Block) : Z := big_Uint64 (num (block_header b)).

Section Rawdb.
Context {C : Crypto}.
Implicit Types (db : ChainDb) (hash : Hash) (number : Z).

Definition Block_Hash (b : Block) : Hash := Header_Hash (block_header b).

(** ** Canonical numbers and heads *)

Definition ReadCanonicalHash db number : Hash := default zeroHash (canonicalHashes db !! number).
Definition WriteCanonicalHash db hash number : ChainDb := put_canonical db (<[number := hash]> (canonicalHashes db)).
Definition DeleteCanonicalHash db number : ChainDb := put_canonical db (delete number (canonicalHashes db)).

Definition ReadHeaderNumber db hash : option Z := headerNumbers db !! hash.

Definition WriteHeadHeaderHash db hash : ChainDb := put_heads db hash (headBlockHash db) (headFastBlockHash db).
Definition WriteHeadBlockHash db hash : ChainDb := put_heads db (headHeaderHash db) hash (headFastBlockHash db).
Definition WriteHeadFastBlockHash db hash : ChainDb := put_heads db (headHeaderHash db) (headBlockHash db) hash.

(** ** Headers, bodies and total difficulties *)

Definition HasHeader db hash number : bool := bool_decide (is_Some (headerData db !! (number, hash))).
Definition ReadHeader db hash number : option Header := headerData db !! (number, hash).

Definition raw_WriteHeader db (header : Header) : ChainDb :=
  let hash := Header_Hash header in
  let number := big_Uint64 (num header) in
  put_headers db (<[hash := number]> (headerNumbers db)) (<[(number, hash) := header]> (headerData db)).

Definition DeleteHeader db hash number : ChainDb :=
  put_headers db (delete hash (headerNumbers db)) (delete (number, hash) (headerData db)).

Definition HasBody db hash number : bool := bool_decide (is_Some (bodyData db !! (number, hash))).
Definition ReadBody db hash number : option (list txdata * list Header) := bodyData db !! (number, hash).
Definition WriteBody db hash number (body : list txdata * list Header) : ChainDb :=
  put_bodies db (<[(number, hash) := body]> (bodyData db)).
Definition DeleteBody db hash number : ChainDb := put_bodies db (delete (number, hash) (bodyData db)).

Definition ReadTd db hash number : option Z := tdData db !! (number, hash).
Definition WriteTd db hash number (td : Z) : ChainDb := put_tds db (<[(number, hash) := td]> (tdData db)).
Definition DeleteTd db hash number : ChainDb := put_tds db (delete (number, hash) (tdData db)).

(** ** Receipts *)

Definition not_removed (l : Log) : Log := {|
  log_Address := log_Address l; log_Topics := log_Topics l; log_Data := log_Data l; log_BlockNumber := log_BlockNumber l;
  log_TxHash := log_TxHash l; log_TxIndex := log_TxIndex l; log_BlockHash := log_BlockHash l; log_Index := log_Index l;
  log_Removed := false |}.

Definition storage_form (r : Receipt) : receiptStorageRLP := {|
  sr_PostStateOrStatus := statusEncoding r; sr_CumulativeGasUsed := CumulativeGasUsed r; sr_Bloom := rcpt_Bloom r;
  sr_TxHash := rcpt_TxHash r; sr_ContractAddress := ContractAddress r; sr_Logs := not_removed <$> rcpt_Logs r;
  sr_GasUsed := rcpt_GasUsed r |}.

(** The post state and the status of a new receipt. *)
Definition setStatus (b : bytes) : option (bytes * Z) :=
  if bool_decide (b = [1]) then Some ([], ReceiptStatusSuccessful)
  else if bool_decide (b = []) then Some ([], ReceiptStatusFailed)
  else if (length b =? HashLength)%nat then Some (b, 0)
  else None.

Definition receipt_of (sr : receiptStorageRLP) : option Receipt :=
  '(post, status) ← setStatus (sr_PostStateOrStatus sr);
  Some {| PostState := post; Status := status; CumulativeGasUsed := sr_CumulativeGasUsed sr; rcpt_Bloom := sr_Bloom sr;
          rcpt_Logs := sr_Logs sr; rcpt_TxHash := sr_TxHash sr; ContractAddress := sr_ContractAddress sr;
          rcpt_GasUsed := sr_GasUsed sr |}.

Definition HasReceipts db hash number : bool := bool_decide (is_Some (receiptData db !! (number, hash))).

(** Nothing stored and a receipt that cannot be decoded both give nil. *)
Definition ReadReceipts db hash number : list Receipt :=
  default [] (receiptData db !! (number, hash) ≫= mapM receipt_of).

Definition WriteReceipts db hash number (rs : list Receipt) : ChainDb :=
  put_receipts db (<[(number, hash) := storage_form <$> rs]> (receiptData db)).
Definition DeleteReceipts db hash number : ChainDb := put_receipts db (delete (number, hash) (receiptData db)).

(** ** Blocks *)

Definition ReadBlock db hash number : option Block :=
  header ← ReadHeader db hash number;
  body ← ReadBody db hash number;
  Some {| block_header := header; block_transactions := body.1; block_uncles := body.2 |}.

Definition WriteBlock db (b : Block) : ChainDb :=
  raw_WriteHeader (WriteBody db (Block_Hash b) (NumberU64 b) (block_transactions b, block_uncles b)) (block_header b).

Definition DeleteBlock db hash number : ChainDb :=
  DeleteTd (DeleteBody (DeleteHeader (DeleteReceipts db hash number) hash number) hash number) hash number.

(** The parent of a header: [ReadHeader(db, a.ParentHash, a.Number.Uint64()-1)]. *)
Definition parent_header db (h : Header) : option Header := ReadHeader db (ParentHash h) (u64 (big_Uint64 (num h) - 1)).

(** Down to the number [n]; numbers fall, so that of [a] bounds the loop. *)
Fixpoint ancestor_down (fuel : nat) db (a : Header) (n : Z) : result (option Header) :=
  if n <? big_Uint64 (num a) then
    match fuel with
    | O => Hang
    | S fuel => match parent_header db a with None => Ok None | Some a => ancestor_down fuel db a n end
    end
  else Ok (Some a).

Fixpoint ancestor_both (fuel : nat) db (a b : Header) : result (option Header) :=
  if bool_decide (Header_Hash a = Header_Hash b) then Ok (Some a)
  else
    match fuel with
    | O => Hang
    | S fuel =>
        match parent_header db a with
        | None => Ok None
        | Some a => match parent_header db b with None => Ok None | Some b => ancestor_both fuel db a b end
        end
    end.

Definition FindCommonAncestor db (a b : Header) : result (option Header) :=
  let* a' := ancestor_down (Z.to_nat (big_Uint64 (num a))) db a (big_Uint64 (num b)) in
  match a' with
  | None => Ok None
  | Some a =>
      let* b' := ancestor_down (Z.to_nat (big_Uint64 (num b))) db b (big_Uint64 (num a)) in
      match b' with
      | None => Ok None
      | Some b => ancestor_both (S (Z.to_nat (big_Uint64 (num a)))) db a b
      end
  end.

(** ** The index of transactions ([accessors_indexes.go]) *)

Definition ReadTxLookupEntry db hash : Hash * Z * Z :=
  match txLookups db !! hash with
  | Some e => (entry_BlockHash e, entry_BlockIndex e, entry_Index e)
  | None => (zeroHash, 0, 0)
  end.

Fixpoint write_lookups (m : gmap Hash TxLookupEntry) hash number (i : Z) (txs : list txdata) : gmap Hash TxLookupEntry :=
  match txs with
  | [] => m
  | tx :: txs =>
      write_lookups (<[Tx_Hash tx := {| entry_BlockHash := hash; entry_BlockIndex := number; entry_Index := i |}]> m)
        hash number (i + 1) txs
  end.

Definition WriteTxLookupEntries db (b : Block) : ChainDb :=
  put_lookups db (write_lookups (txLookups db) (Block_Hash b) (NumberU64 b) 0 (block_transactions b)).

Definition DeleteTxLookupEntry db hash : ChainDb := put_lookups db (delete hash (txLookups db)).

(** The transaction, its block and its place. *)
Definition ReadTransaction db hash : option (txdata * Hash * Z * Z) :=
  let '(blockHash, blockNumber, txIndex) := ReadTxLookupEntry db hash in
  if bool_decide (blockHash = zeroHash) then None
  else
    '(txs, _) ← ReadBody db blockHash blockNumber;
    tx ← txs !! Z.to_nat txIndex;
    Some (tx, blockHash, blockNumber, txIndex).

Definition ReadReceipt db hash : option (Receipt * Hash * Z * Z) :=
  let '(blockHash, blockNumber, receiptIndex) := ReadTxLookupEntry db hash in
  if bool_decide (blockHash = zeroHash) then None
  else
    r ← ReadReceipts db blockHash blockNumber !! Z.to_nat receiptIndex;
    Some (r, blockHash, blockNumber, receiptIndex).

(** ** Preimages ([accessors_metadata.go]) *)

Definition ReadPreimage db hash : bytes := default [] (preimageData db !! hash).
Definition WritePreimages db (preimages : gmap Hash bytes) : ChainDb := put_preimages db (preimages ∪ preimageData db).
End Rawdb.
