(* ===== verification/HeaderChain.v ===== *)
(** * The chain of headers ([core/headerchain.go])

    The headers of all branches, their total difficulties and the current head.
    The caches hold what the database has under the same hash and are left out.
    What [math/rand] draws is an argument. *)

From Stdlib Require Import ZArith Lia.
From stdpp Require Import base option list gmap strings.
From S2P Require Import Prelude GoFloat Params Rlp Types Account State Receipt DeriveSha Chain ChainStore.

Inductive WriteStatus := NonStatTy | CanonStatTy | SideStatTy.

Definition ErrUnknownAncestor : string := "unknown ancestor".
Definition ErrNoGenesis : string := "Genesis not found in chain".
Definition ErrBlacklistedHash : string := "blacklisted hash".
Definition errNonContiguous : string := "non contiguous insert".

Record HeaderChain := {
  chainDb : ChainDb;
  genesisHeader : Header;
  currentHeader : option Header;
  currentHeaderHash : Hash
}.

Definition put_chainDb (hc : HeaderChain) (db : ChainDb) : HeaderChain :=
  {| chainDb := db; genesisHeader := genesisHeader hc; currentHeader := currentHeader hc; currentHeaderHash := currentHeaderHash hc |}.
Definition put_current (hc : HeaderChain) (h : option Header) (hash : Hash) : HeaderChain :=
  {| chainDb := chainDb hc; genesisHeader := genesisHeader hc; currentHeader := h; currentHeaderHash := hash |}.

Section HeaderChain.
Context {C : Crypto}.
Implicit Types (hc : HeaderChain) (hash : Hash) (number : Z).

(** ** Reading *)

Definition hc_GetBlockNumber hc hash : option Z := ReadHeaderNumber (chainDb hc) hash.
Definition hc_GetTd hc hash number : option Z := ReadTd (chainDb hc) hash number.
Definition hc_GetTdByHash hc hash : option Z := number ← hc_GetBlockNumber hc hash; hc_GetTd hc hash number.
Definition hc_GetHeader hc hash number : option Header := ReadHeader (chainDb hc) hash number.
Definition hc_GetHeaderByHash hc hash : option Header := number ← hc_GetBlockNumber hc hash; hc_GetHeader hc hash number.
Definition hc_HasHeader hc hash number : bool := HasHeader (chainDb hc) hash number.

Definition hc_GetHeaderByNumber hc number : option Header :=
  let hash := ReadCanonicalHash (chainDb hc) number in
  if bool_decide (hash = zeroHash) then None else hc_GetHeader hc hash number.

Fixpoint hashes_from (n : nat) hc (header : Header) : list Hash :=
  match n with
  | O => []
  | S n =>
      let next := ParentHash header in
      match hc_GetHeader hc next (u64 (big_Uint64 (num header) - 1)) with
      | None => []
      | Some header => next :: (if num header =? 0 then [] else hashes_from n hc header)
      end
  end.

Definition GetBlockHashesFromHash hc hash (max : Z) : list Hash :=
  match hc_GetHeaderByHash hc hash with
  | None => []
  | Some header => hashes_from (Z.to_nat max) hc header
  end.

(** The loop of [GetAncestor] with the counter it leaves behind; [ancestor] falls
    in every round. *)
Fixpoint ancestor_loop (ancestor : nat) hc hash number (maxNonCanonical : Z) : Hash * Z * Z :=
  match ancestor with
  | O => (hash, number, maxNonCanonical)
  | S rest =>
      if bool_decide (ReadCanonicalHash (chainDb hc) number = hash) then
        let number := u64 (number - Z.of_nat ancestor) in (ReadCanonicalHash (chainDb hc) number, number, maxNonCanonical)
      else if maxNonCanonical =? 0 then (zeroHash, 0, maxNonCanonical)
      else
        match hc_GetHeader hc hash number with
        | None => (zeroHash, 0, maxNonCanonical - 1)
        | Some header => ancestor_loop rest hc (ParentHash header) (u64 (number - 1)) (maxNonCanonical - 1)
        end
  end.

Definition GetAncestor hc hash number (ancestor maxNonCanonical : Z) : Hash * Z * Z :=
  if number <? ancestor then (zeroHash, 0, maxNonCanonical)
  else if ancestor =? 1 then
    match hc_GetHeader hc hash number with
    | Some header => (ParentHash header, u64 (number - 1), maxNonCanonical)
    | None => (zeroHash, 0, maxNonCanonical)
    end
  else ancestor_loop (Z.to_nat ancestor) hc hash number maxNonCanonical.

(** ** Writing *)

Definition hc_WriteTd hc hash number (td : Z) : HeaderChain := put_chainDb hc (WriteTd (chainDb hc) hash number td).

Definition SetCurrentHeader hc (head : Header) : HeaderChain :=
  put_current (put_chainDb hc (WriteHeadHeaderHash (chainDb hc) (Header_Hash head))) (Some head) (Header_Hash head).

(** The canonical numbers from [i] on, until one is free. *)
Fixpoint delete_above (fuel : nat) (db : ChainDb) (i : Z) : result ChainDb :=
  if bool_decide (ReadCanonicalHash db i = zeroHash) then Ok db
  else match fuel with O => Hang | S fuel => delete_above fuel (DeleteCanonicalHash db i) (u64 (i + 1)) end.

(** Stale canonical numbers, from [headNumber] downwards. *)
Fixpoint overwrite_stale (fuel : nat) (db : ChainDb) (headHash : Hash) (headNumber : Z) (headHeader : option Header)
  : result ChainDb :=
  if bool_decide (ReadCanonicalHash db headNumber = headHash) then Ok db
  else
    match fuel with
    | O => Hang
    | S fuel =>
        match headHeader with
        | None => nil_deref
        | Some h =>
            let number := u64 (big_Uint64 (num h) - 1) in
            overwrite_stale fuel (WriteCanonicalHash db headHash headNumber) (ParentHash h) number (ReadHeader db (ParentHash h) number)
        end
    end.

(** [mrand.Float64() < 0.5] is [coin]. *)
Definition hc_WriteHeader hc (coin : bool) (header : Header) : result ((WriteStatus + string) * HeaderChain) :=
  let hash := Header_Hash header in
  let number := big_Uint64 (num header) in
  match hc_GetTd hc (ParentHash header) (u64 (number - 1)) with
  | None => Ok (inr ErrUnknownAncestor, hc)
  | Some ptd =>
      match currentHeader hc with
      | None => nil_deref
      | Some current =>
          let localTd := hc_GetTd hc (currentHeaderHash hc) (big_Uint64 (num current)) in
          let externTd := Difficulty header + ptd in
          let hc := hc_WriteTd hc hash number externTd in
          let hc := put_chainDb hc (raw_WriteHeader (chainDb hc) header) in
          match localTd with
          | None => nil_deref
          | Some localTd =>
              if (localTd <? externTd) || ((externTd =? localTd) && coin) then
                let* db := delete_above (S (size (canonicalHashes (chainDb hc)))) (chainDb hc) (u64 (number + 1)) in
                let headNumber := u64 (number - 1) in
                let* db := overwrite_stale (S (Z.to_nat headNumber)) db (ParentHash header) headNumber
                             (ReadHeader db (ParentHash header) headNumber) in
                let db := WriteHeadHeaderHash (WriteCanonicalHash db hash number) hash in
                Ok (inl CanonStatTy, put_current (put_chainDb hc db) (Some header) hash)
              else Ok (inl SideStatTy, hc)
          end
      end
  end.

(** The callback writes the header; one coin per header. *)
Fixpoint hc_InsertHeaderChain hc (coins : list bool) (chain : list Header) (i : Z) : result (Z * option string * HeaderChain) :=
  match chain with
  | [] => Ok (0, None, hc)
  | header :: chain =>
      if hc_HasHeader hc (Header_Hash header) (big_Uint64 (num header)) then hc_InsertHeaderChain hc (tail coins) chain (i + 1)
      else
        let* (r, hc) := hc_WriteHeader hc (default false (head coins)) header in
        match r with
        | inr err => Ok (i, Some err, hc)
        | inl _ => hc_InsertHeaderChain hc (tail coins) chain (i + 1)
        end
  end.

(** Ordered and linked. *)
Fixpoint contiguous (chain : list Header) : bool :=
  match chain with
  | a :: (b :: _) as rest =>
      (big_Uint64 (num b) =? u64 (big_Uint64 (num a) + 1)) && bool_decide (ParentHash b = Header_Hash a) && contiguous rest
  | _ => true
  end.

(** ** Rewinding *)

(** The bodies go with the headers when [bodies] is set ([delFn] of
    [BlockChain.SetHead]). *)
Fixpoint rewind (fuel : nat) hc (head : Z) (bodies : bool) : result HeaderChain :=
  match currentHeader hc with
  | None => Ok hc
  | Some hdr =>
      if head <? big_Uint64 (num hdr) then
        match fuel with
        | O => Hang
        | S fuel =>
            let hash := Header_Hash hdr in
            let number := big_Uint64 (num hdr) in
            let parent := hc_GetHeader hc (ParentHash hdr) (u64 (number - 1)) in
            let db := if bodies then DeleteBody (chainDb hc) hash number else chainDb hc in
            let db := DeleteTd (DeleteHeader db hash number) hash number in
            rewind fuel (put_current (put_chainDb hc db) parent (currentHeaderHash hc)) head bodies
        end
      else Ok hc
  end.

(** The canonical numbers from [height] down to above [head]. *)
Fixpoint unnumber (n : nat) (db : ChainDb) (height : Z) : ChainDb :=
  match n with O => db | S n => unnumber n (DeleteCanonicalHash db height) (height - 1) end.

Definition hc_SetHead hc (head : Z) (bodies : bool) : result HeaderChain :=
  let height := match currentHeader hc with Some hdr => big_Uint64 (num hdr) | None => 0 end in
  let* hc := rewind (Z.to_nat height) hc head bodies in
  let hc := put_chainDb hc (unnumber (Z.to_nat (height - head)) (chainDb hc) height) in
  let current := match currentHeader hc with Some h => h | None => genesisHeader hc end in
  let hash := Header_Hash current in
  Ok (put_current (put_chainDb hc (WriteHeadHeaderHash (chainDb hc) hash)) (Some current) hash).

Definition SetGenesis hc (head : Header) : HeaderChain :=
  {| chainDb := chainDb hc; genesisHeader := head; currentHeader := currentHeader hc; currentHeaderHash := currentHeaderHash hc |}.

Definition NewHeaderChain (db : ChainDb) : result HeaderChain :=
  let hash := ReadCanonicalHash db 0 in
  match (if bool_decide (hash = zeroHash) then None else ReadHeader db hash 0) with
  | None => Err ErrNoGenesis
  | Some genesis =>
      let hc := {| chainDb := db; genesisHeader := genesis; currentHeader := Some genesis; currentHeaderHash := zeroHash |} in
      let current :=
        if bool_decide (headBlockHash db = zeroHash) then genesis else default genesis (hc_GetHeaderByHash hc (headBlockHash db)) in
      Ok (put_current hc (Some current) (Header_Hash current))
  end.
End HeaderChain.
