(* ===== verification/Staking.v ===== *)
(** * Staking list, selection points and staking database ([berith/staking])

    The set of staking accounts, the selection point an account earns with its
    stake, and the LevelDB-backed store of staking lists by block hash. *)

From Stdlib Require Import ZArith Lia SpecFloat.
From stdpp Require Import base option list gmap sets strings.
From S2P Require Import Prelude GoFloat Params Rlp RlpStream Types Account Chain.

(** ** Stakers ([stakers.go])

    [map[common.Address]struct{}] is a finite set. *)

Definition NewStakers : gset Address := ∅.
Definition IsContain (s : gset Address) (addr : Address) : bool := bool_decide (addr ∈ s).
Definition Put (s : gset Address) (addr : Address) : gset Address :=
  if negb (IsContain s addr) then {[addr]} ∪ s else s.
Definition Remove (s : gset Address) (addr : Address) : gset Address :=
  if IsContain s addr then s ∖ {[addr]} else s.
Definition FetchFromList (s : gset Address) (l : list Address) : gset Address :=
  foldl Put s l.

Section AsList.
Context `{MapOrder}.

Definition AsList (s : gset Address) : list Address := range s.

Definition Stakers_EncodeRLP (s : gset Address) : bytes :=
  rlp_encode (RList (RStr <$> AsList s)).
End AsList.

(** ** Selection points ([point.go]) *)

Definition BlockYear : Z := 3600000.
Definition DefaultBlockCreationSec : Z := 10.
Definition UnitForBer : Z := 10 ^ 18.

Definition referenceBlock (period : Z) : Z :=
  let correctionValue := f64_div (f64_of_Z period) (f64_of_Z DefaultBlockCreationSec) in
  int64_of_f64 (f64_div (f64_of_Z BlockYear) correctionValue).

Definition CalcPointBigint (prevStake addStake nowBlock stakeBlock period : Z) : result Z :=
  let* ratio := big_Div (nowBlock * 100) (referenceBlock period + stakeBlock) in
  let ratio := if 100 <? ratio then 100 else ratio in
  let* temp1 := big_Div prevStake (prevStake + addStake) in
  let temp2 := prevStake * temp1 in
  let temp3 := temp2 * ratio in
  let* advantage := big_Div temp3 100 in
  let temp1 := prevStake + advantage in
  Ok (temp1 + addStake).

(** ** Staking database ([stakeDB.go]) *)

Record StakingDB := {
  stakeDB : gmap Hash bytes;        (* keyed by the block hash in hex *)
  NoPruning : bool
}.

Definition set_stakeDB (s : StakingDB) (m : gmap Hash bytes) : StakingDB :=
  {| stakeDB := m; NoPruning := NoPruning s |}.

(** [rlp.DecodeBytes(val, &holder)] into a [[]common.Address]. *)
Definition DecodeAddresses (b : bytes) : result (list Address) :=
  DecodeBytes (decodeListSlice (S (length b)) (decodeByteArray (Z.of_nat AddressLength))) b.

Definition getValue (s : StakingDB) (key : Hash) : result bytes :=
  match stakeDB s !! key with
  | Some v => Ok v
  | None => Err "leveldb: not found"
  end.

Definition isExist (s : StakingDB) (key : Hash) : bool :=
  bool_decide (is_Some (stakeDB s !! key)).

Definition delete_ (s : StakingDB) (key : Hash) : StakingDB :=
  set_stakeDB s (delete key (stakeDB s)).

Section StakingDBOps.
Context `{Crypto, MapOrder}.

Definition pushValue (s : StakingDB) (k : Hash) (stakers : gset Address) : StakingDB :=
  set_stakeDB s (<[k := Stakers_EncodeRLP stakers]> (stakeDB s)).

Definition GetStakers (s : StakingDB) (key : Hash) : result (gset Address) :=
  let* val := getValue s key in
  let* holder := DecodeAddresses val in
  Ok (FetchFromList NewStakers holder).

Definition Commit (s : StakingDB) (key : Hash) (value : gset Address) : StakingDB :=
  pushValue s key value.

(** [Clean]: delete the list of [header] and of its ancestors, up to the first
    block that has none.  A nil header hashes as the empty list; reading its
    fields panics. *)
Fixpoint Clean_loop {St} (fuel : nat) (chain : ChainReader St) (s : StakingDB)
    (header : option Header) : result StakingDB :=
  match fuel with
  | O => Hang
  | S fuel' =>
      let key := match header with Some h => Header_Hash h | None => nil_Header_Hash end in
      if negb (isExist s key) then Ok s
      else
        let s := delete_ s key in
        match header with
        | None => Panic "nil pointer dereference"
        | Some h => Clean_loop fuel' chain s (GetHeader chain (ParentHash h) (u64 (num h - 1)))
        end
  end.

Definition Clean {St} (chain : ChainReader St) (s : StakingDB) (header : Header)
    : result StakingDB :=
  if NoPruning s then Ok s
  else Clean_loop (S (base.size (stakeDB s))) chain s (Some header).
End StakingDBOps.

(** ** Lemmas: the staking list is a set *)

Lemma IsContain_spec s a : IsContain s a = true ↔ a ∈ s.
Proof. unfold IsContain. by rewrite bool_decide_eq_true. Qed.

Lemma Put_spec s a : Put s a = {[a]} ∪ s.
Proof.
  unfold Put. destruct (IsContain s a) eqn:E; simpl; [|done].
  apply IsContain_spec in E. set_solver.
Qed.

Lemma Remove_spec s a : Remove s a = s ∖ {[a]}.
Proof.
  unfold Remove. destruct (IsContain s a) eqn:E; [done|].
  assert (a ∉ s) by (rewrite <- IsContain_spec; congruence). set_solver.
Qed.

Lemma FetchFromList_spec s l : FetchFromList s l = list_to_set l ∪ s.
Proof.
  unfold FetchFromList. revert s. induction l as [|a l IH]; intros s; simpl; [set_solver|].
  rewrite IH, Put_spec. set_solver.
Qed.

Section AsListLemmas.
Context `{MapOrder}.

Lemma elem_of_AsList s a : a ∈ AsList s ↔ a ∈ s.
Proof. unfold AsList. by rewrite range_perm, elem_of_elements. Qed.

Lemma NoDup_AsList s : NoDup (AsList s).
Proof. unfold AsList. rewrite range_perm. apply NoDup_elements. Qed.

Lemma list_to_set_AsList s : list_to_set (AsList s) = s.
Proof. apply set_eq. intros a. by rewrite elem_of_list_to_set, elem_of_AsList. Qed.
End AsListLemmas.

(** Addresses are 20 bytes, and the list fits the memory of the machine. *)
Record wf_stakers (s : gset Address) : Prop := {
  ws_address : ∀ a, a ∈ s → length a = AddressLength ∧ wf_bytes a;
  ws_size : Z.of_nat (base.size s) < 2 ^ 56
}.

Lemma encodeString_address a :
  length a = AddressLength → (length (encodeString a) = 21)%nat.
Proof.
  unfold AddressLength. intros Ha. unfold encodeString. destruct a as [|x [|y a]]; simpl in *; try lia.
  unfold encodeStringHeader. rewrite Ha. simpl. lia.
Qed.

Lemma addresses_length l :
  Forall (λ a, length a = AddressLength) l →
  (length (concat (encodeString <$> l)) = 21 * length l)%nat.
Proof.
  induction 1 as [|a l Ha Hl IH]; [done|]. rewrite fmap_cons, concat_cons, length_app, IH.
  rewrite encodeString_address by done. cbn [length]. lia.
Qed.

Lemma decodeByteArray_stops n : stops (decodeByteArray n).
Proof.
  intros s b st Hat He. destruct (Kind_eol s b st Hat He) as (s' & Hk & Hat').
  exists s'. split; [|done]. unfold decodeByteArray, sbind. by rewrite Hk.
Qed.

Lemma DecodeAddresses_encode l :
  Forall (λ a, length a = AddressLength ∧ wf_bytes a) l → Z.of_nat (length l) < 2 ^ 56 →
  DecodeAddresses (rlp_encode (RList (RStr <$> l))) = Ok l.
Proof.
  intros Hl Hsz. cbn [rlp_encode]. rewrite <- list_fmap_compose. cbn [rlp_encode compose].
  change ((rlp_encode ∘ RStr) <$> l) with (encodeString <$> l).
  assert (Hlen : (length (concat (encodeString <$> l)) = 21 * length l)%nat).
  { apply addresses_length. eapply Forall_impl; [exact Hl|]. naive_solver. }
  unfold DecodeAddresses. apply DecodeBytes_reads.
  - apply decodeListSlice_reads; [|apply decodeByteArray_stops|rewrite length_app; lia].
    eapply Forall_impl; [exact Hl|]. intros a [Ha Hw]. unfold reads_back. rewrite <- Ha.
    apply decodeByteArray_reads; [done|]. unfold AddressLength in Ha. lia.
  - rewrite length_app.
    pose proof (headsize_puthead 0xC0 0xF7 (Z.of_nat (length (concat (encodeString <$> l))))) as Hh.
    assert (Hb : (length (puthead 0xC0 0xF7 (Z.of_nat (length (concat (encodeString <$> l))))) ≤ 9)%nat).
    { unfold puthead. case_match; [simpl; lia|]. unfold putint. repeat case_match; simpl; lia. }
    rewrite two64_eq in *. lia.
Qed.

(** ** Lemmas: the staking database *)

Section StakingDBLemmas.
Context `{Crypto, MapOrder}.

Lemma GetStakers_Commit_eq s k stks :
  wf_stakers stks → GetStakers (Commit s k stks) k = Ok stks.
Proof.
  intros Hwf. unfold GetStakers, Commit, pushValue, getValue. simpl.
  rewrite lookup_insert_eq. simpl. unfold Stakers_EncodeRLP.
  rewrite DecodeAddresses_encode; cbn [bind].
  - f_equal. rewrite FetchFromList_spec, list_to_set_AsList. unfold NewStakers. set_solver.
  - apply Forall_forall. intros a Ha. apply Hwf. by rewrite <- elem_of_AsList.
  - unfold AsList. rewrite range_perm. apply Hwf.
Qed.

Lemma GetStakers_Commit_ne s k k' stks :
  k ≠ k' → GetStakers (Commit s k stks) k' = GetStakers s k'.
Proof.
  intros Hne. unfold GetStakers, Commit, pushValue, getValue. simpl.
  by rewrite lookup_insert_ne.
Qed.

(** The headers [Clean] can visit from [h]. *)
Inductive ancestor {St} (chain : ChainReader St) : Header → Header → Prop :=
| ancestor_refl h : ancestor chain h h
| ancestor_step h p a :
    GetHeader chain (ParentHash h) (u64 (num h - 1)) = Some p →
    ancestor chain p a → ancestor chain h a.

Lemma Clean_loop_spec {St} (chain : ChainReader St) fuel s h :
  (base.size (stakeDB s) < fuel)%nat → stakeDB s !! nil_Header_Hash = None →
  ∃ s', Clean_loop fuel chain s (Some h) = Ok s' ∧
    stakeDB s' !! Header_Hash h = None ∧
    ∀ k, stakeDB s' !! k = stakeDB s !! k ∨
         stakeDB s' !! k = None ∧ ∃ a, ancestor chain h a ∧ Header_Hash a = k.
Proof.
  revert s h. induction fuel as [|fuel IH]; intros s h Hfuel Hnil; [lia|]. simpl.
  unfold isExist. case_bool_decide as Hex; simpl.
  2: { exists s. split_and!; [done| |by left].
       apply eq_None_not_Some. done. }
  set (s1 := delete_ s (Header_Hash h)).
  assert (Hsz : (base.size (stakeDB s1) < fuel)%nat).
  { unfold s1. simpl. destruct Hex as [v Hv].
    rewrite map_size_delete, Hv. simpl.
    assert (base.size (stakeDB s) ≠ 0)%nat by (intros Hz; apply map_size_empty_inv in Hz; by rewrite Hz, lookup_empty in Hv).
    lia. }
  assert (Hnil1 : stakeDB s1 !! nil_Header_Hash = None).
  { unfold s1. simpl. rewrite lookup_delete_None. by right. }
  destruct (GetHeader chain (ParentHash h) (u64 (num h - 1))) as [p|] eqn:Hp.
  - destruct (IH s1 p Hsz Hnil1) as (s' & -> & Hgone & Hk).
    assert (Hdel : ∀ k, stakeDB s1 !! k = stakeDB s !! k ∨
      stakeDB s1 !! k = None ∧ Header_Hash h = k).
    { intros k. unfold s1. simpl. rewrite lookup_delete. case_decide; auto. }
    exists s'. split_and!; [done| |].
    + destruct (Hk (Header_Hash h)) as [->|[? _]]; [|done].
      unfold s1. simpl. by rewrite lookup_delete_eq.
    + intros k. destruct (Hk k) as [->|[Hn (a & Ha & Hak)]].
      * destruct (Hdel k) as [|[Hn <-]]; [by left|right].
        split; [done|]. exists h. split; [constructor|done].
      * right. split; [done|]. exists a. split; [by econstructor|done].
  - destruct fuel as [|fuel']; [lia|]. simpl. unfold isExist.
    rewrite Hnil1. case_bool_decide as Hc; [by destruct Hc|]. simpl.
    exists s1. split_and!; [done|unfold s1; simpl; by rewrite lookup_delete_eq|].
    intros k. unfold s1. simpl. rewrite lookup_delete. case_decide as Hk; [|by left].
    right. split; [done|]. exists h. split; [constructor|done].
Qed.
End StakingDBLemmas.

(** ** Properties *)

Section StakingProperties.
Context `{Crypto, MapOrder}.

(** A staking list committed under a block hash is read back unchanged
    whatever order the map was iterated in when it was encoded, and the lists of
    other blocks are not affected. *)
Theorem staking_list_round_trip s k k' stks (Hwf : wf_stakers stks) :
  GetStakers (Commit s k stks) k = Ok stks ∧
  (k ≠ k' → GetStakers (Commit s k stks) k' = GetStakers s k').
Proof. split; [by apply GetStakers_Commit_eq|apply GetStakers_Commit_ne]. Qed.

(** [Clean] terminates without error on every database, removes the list of
    the given block, removes only lists of its ancestors, and leaves every
    other list in place. *)
Theorem Clean_removes_only_ancestors {St} (chain : ChainReader St) s h
    (Hprune : NoPruning s = false) (Hnil : stakeDB s !! nil_Header_Hash = None) :
  ∃ s', Clean chain s h = Ok s' ∧
    stakeDB s' !! Header_Hash h = None ∧
    ∀ k, stakeDB s' !! k = stakeDB s !! k ∨
         stakeDB s' !! k = None ∧ ∃ a, ancestor chain h a ∧ Header_Hash a = k.
Proof. unfold Clean. rewrite Hprune. apply Clean_loop_spec; [lia|done]. Qed.
End StakingProperties.

(** The selection point of a non-empty stake.  An account that does not add
    stake keeps its stake plus the advantage [prevStake * ratio / 100], where
    the ratio grows with the age of the stake up to 100; an account that adds
    any stake has no advantage at all, because the quotient
    [prevStake / (prevStake + addStake)] is an integer division. *)
Theorem CalcPoint_formula prev add now stk period
    (Href : 0 < referenceBlock period + stk) (Hnow : 0 ≤ now)
    (Hprev : 0 ≤ prev) (Hadd : 0 ≤ add) (Hsum : 0 < prev + add) :
  let ratio := Z.min 100 (now * 100 / (referenceBlock period + stk)) in
  CalcPointBigint prev add now stk period =
    Ok (prev + add + (if add =? 0 then prev * ratio / 100 else 0)) ∧
  0 ≤ ratio ≤ 100 ∧
  prev + add ≤ prev + add + (if add =? 0 then prev * ratio / 100 else 0) ≤ 2 * prev + add.
Proof.
  intros ratio. assert (Hr : 0 ≤ ratio ≤ 100).
  { unfold ratio. pose proof (Z.div_pos (now * 100) (referenceBlock period + stk)). lia. }
  assert (Hadv : 0 ≤ prev * ratio / 100 ≤ prev).
  { split; [apply Z.div_pos; nia|]. apply Z.div_le_upper_bound; nia. }
  split; [|split; [done|destruct (Z.eqb_spec add 0); lia]].
  unfold CalcPointBigint. rewrite (big_Div_pos (now * 100)) by lia. cbn [bind].
  replace (if 100 <? now * 100 / (referenceBlock period + stk) then 100
           else now * 100 / (referenceBlock period + stk)) with ratio.
  2: { unfold ratio. destruct (Z.ltb_spec 100 (now * 100 / (referenceBlock period + stk))); lia. }
  rewrite (big_Div_pos prev) by lia. cbn [bind].
  rewrite (big_Div_pos _ 100) by lia. cbn [bind]. f_equal.
  destruct (Z.eqb_spec add 0) as [->|Hne].
  - rewrite !Z.add_0_r, Z.div_same, Z.mul_1_r by lia. lia.
  - rewrite (Z.div_small prev) by lia. rewrite Z.mul_0_r, Z.mul_0_l, Z.div_0_l by lia. lia.
Qed.

Lemma CalcPoint_formula_witness :
  referenceBlock 5 = 7200000 ∧
  let ratio := Z.min 100 (3600000 * 100 / (referenceBlock 5 + 0)) in
  CalcPointBigint 1000 0 3600000 0 5 = Ok (1000 + 0 + (if 0 =? 0 then 1000 * ratio / 100 else 0)) ∧
  0 ≤ ratio ≤ 100 ∧
  1000 + 0 ≤ 1000 + 0 + (if 0 =? 0 then 1000 * ratio / 100 else 0) ≤ 2 * 1000 + 0.
Proof.
  split; [vm_compute; reflexivity|].
  apply (CalcPoint_formula 1000 0 3600000 0 5); (vm_compute; congruence) || (vm_compute; reflexivity).
Defined.

(** ** Witnesses: a database with two blocks *)

Definition toy_range (s : gset Address) : list Address := reverse (elements s).

Lemma toy_range_perm (s : gset Address) : toy_range s ≡ₚ elements s.
Proof. apply reverse_Permutation. Qed.

#[local] Instance toyOrder : MapOrder := {| range := toy_range; range_perm := toy_range_perm |}.

Definition toy_stakers : gset Address := {[replicate 20 1; replicate 20 2]}.
Definition toy_db : StakingDB := {| stakeDB := {[ [7] := [0xC0] ]}; NoPruning := false |}.

Lemma staking_list_round_trip_witness :
  GetStakers (Commit toy_db [9] toy_stakers) [9] = Ok toy_stakers ∧
  ([9] ≠ [7] → GetStakers (Commit toy_db [9] toy_stakers) [7] = GetStakers toy_db [7]).
Proof.
  apply (staking_list_round_trip toy_db [9] [7] toy_stakers). split; [|vm_compute; reflexivity].
  intros a Ha. unfold toy_stakers in Ha.
  assert (a = replicate 20 1 ∨ a = replicate 20 2) as [->| ->] by set_solver;
    (split; [reflexivity|]); repeat constructor; vm_compute; congruence.
Defined.

(** A hash that separates the headers used here, and a chain of two headers. *)
#[local] Instance toyHash : Crypto := {|
  Keccak256 b := set_bytes 32 b;
  ValidateSignatureValues _ _ _ _ := true;
  Ecrecover _ _ := Err "no recovery"
|}.

Definition toy_header (n : Z) (parent : Hash) : Header := {|
  ParentHash := parent; UncleHash := []; Coinbase := []; Root := []; TxHash := [];
  ReceiptHash := []; Bloom := []; Difficulty := 1; Number := Some n; GasLimit := 0;
  GasUsed := 0; Time := n; Extra := []; MixDigest := []; Nonce := [0] |}.

Definition toy_h0 : Header := toy_header 0 zeroHash.
Definition toy_h1 : Header := toy_header 1 (Header_Hash toy_h0).
Definition toy_chain : ChainReader unit := {|
  Config := MainnetChainConfig; CurrentHeader := Some toy_h1;
  GetHeader h n := if bool_decide (h = Header_Hash toy_h0) && (n =? 0) then Some toy_h0 else None;
  GetHeaderByNumber n := if n =? 0 then Some toy_h0 else None;
  GetBlock _ _ := None; StateAt _ := Ok tt; HasBlockAndState _ _ := true |}.

Definition toy_db2 : StakingDB := {|
  stakeDB := <[Header_Hash toy_h0 := [0xC0]]> (<[Header_Hash toy_h1 := [0xC0]]> (stakeDB toy_db));
  NoPruning := false |}.

Lemma Clean_witness :
  NoPruning toy_db2 = false ∧ stakeDB toy_db2 !! nil_Header_Hash = None ∧
  ∃ s', Clean toy_chain toy_db2 toy_h1 = Ok s' ∧
    stakeDB s' !! Header_Hash toy_h1 = None ∧
    ∀ k, stakeDB s' !! k = stakeDB toy_db2 !! k ∨
         stakeDB s' !! k = None ∧ ∃ a, ancestor toy_chain toy_h1 a ∧ Header_Hash a = k.
Proof.
  split; [reflexivity|]. split; [vm_compute; reflexivity|].
  apply (Clean_removes_only_ancestors toy_chain toy_db2 toy_h1); vm_compute; reflexivity.
Defined.
