(* ===== verification/Transition.v ===== *)
(** * The state transition ([core/state_transition.go], [core/state_processor.go], [core/gaspool.go])

    Applying one transaction: buying gas, the wallet checks, the intrinsic gas,
    the call or creation, the refund and the fee; and applying a block: the
    transactions in order, then the rewards of the consensus engine.

    An error of [TransitionDb] is returned together with the state and the gas
    pool it leaves behind, as the callers see them. *)

From Stdlib Require Import ZArith Lia.
From stdpp Require Import base option list gmap sets strings.
From S2P Require Import Prelude Params Rlp Types Account State Receipt Evm Chain Dao Staking.

(** ** Gas pool *)

Definition ErrGasLimitReached : string := "gas limit reached".

Definition AddGas (gp amount : Z) : result Z :=
  if maxUint64 - amount <? gp then Panic "gas pool pushed above uint64" else Ok (gp + amount).

Definition SubGas (gp amount : Z) : result Z :=
  if gp <? amount then Err ErrGasLimitReached else Ok (gp - amount).

(** ** Intrinsic gas *)

Definition TxGas : Z := 21000.
Definition TxGasContractCreation : Z := 53000.
Definition TxDataZeroGas : Z := 4.
Definition TxDataNonZeroGas : Z := 68.

Definition nonzeros (data : bytes) : Z :=
  foldl (λ nz byt, if negb (byt =? 0) then u64 (nz + 1) else nz) 0 data.

Definition IntrinsicGas (data : bytes) (contractCreation homestead : bool) : result Z :=
  let gas := if contractCreation && homestead then TxGasContractCreation else TxGas in
  let len := Z.of_nat (length data) in
  if 0 <? len then
    let nz := nonzeros data in
    if (maxUint64 - gas) / TxDataNonZeroGas <? nz then Err ErrOutOfGas
    else
      let gas := u64 (gas + nz * TxDataNonZeroGas) in
      let z := u64 (len - nz) in
      if (maxUint64 - gas) / TxDataZeroGas <? z then Err ErrOutOfGas
      else Ok (u64 (gas + z * TxDataZeroGas))
  else Ok gas.

(** ** One message *)

Definition errInsufficientBalanceForGas : string := "insufficient balance to pay for gas".
Definition ErrNonceTooHigh : string := "nonce too high".
Definition ErrNonceTooLow : string := "nonce too low".
Definition ErrInvalidStakeReceiver : string := "berith account only can stake token on itself".

Section Transition.
Context {C : Crypto} {D : Database} {I : Interpreter}.

(** The error, the state, the gas pool and the gas bought. *)
Definition buyGas (s : StateDB) (gp : Z) (msg : Message) : option string * StateDB * Z * Z :=
  let mgval := msg_gasLimit msg * msg_gasPrice msg in
  let '(b, s) := GetBalance s (msg_from msg) in
  if b <? mgval then (Some errInsufficientBalanceForGas, s, gp, 0)
  else
    match SubGas gp (msg_gasLimit msg) with
    | Ok gp => (None, SubBalance s (msg_from msg) mgval, gp, msg_gasLimit msg)
    | _ => (Some ErrGasLimitReached, s, gp, 0)
    end.

Definition preCheck (s : StateDB) (gp : Z) (msg : Message) : option string * StateDB * Z * Z :=
  if msg_checkNonce msg then
    let '(nonce, s) := GetNonce s (msg_from msg) in
    if nonce <? msg_nonce msg then (Some ErrNonceTooHigh, s, gp, 0)
    else if msg_nonce msg <? nonce then (Some ErrNonceTooLow, s, gp, 0)
    else buyGas s gp msg
  else buyGas s gp msg.

Definition gasUsed (initialGas gas : Z) : Z := u64 (initialGas - gas).

(** The state, the gas pool and the gas left. *)
Definition refundGas (s : StateDB) (gp : Z) (msg : Message) (initialGas gas : Z)
    : result (StateDB * Z * Z) :=
  let refund := gasUsed initialGas gas / 2 in
  let refund := if GetRefund s <? refund then GetRefund s else refund in
  let gas := u64 (gas + refund) in
  let s := AddBalance s (msg_from msg) (gas * msg_gasPrice msg) in
  let* gp := AddGas gp gas in
  Ok (s, gp, gas).

Record txOutcome := {
  out_ret : option bytes;
  out_usedGas : Z;
  out_failed : bool;
  out_err : option string;
  out_state : StateDB;
  out_gp : Z
}.

Definition txError (e : string) (s : StateDB) (gp : Z) : result txOutcome :=
  Ok {| out_ret := None; out_usedGas := 0; out_failed := false; out_err := Some e;
        out_state := s; out_gp := gp |}.

(** The execution proper: the call or the creation with the gas left after the
    intrinsic gas. *)
Definition execute (evm : EVM) (s : StateDB) (msg : Message) (gas base target : Z)
    : result (outcome * StateDB) :=
  match msg_to msg with
  | None =>
      let* (out, _, s) := Create evm s (msg_from msg) (Some (msg_data msg)) gas (msg_amount msg) in
      Ok (out, s)
  | Some to =>
      let '(nonce, s) := GetNonce s (msg_from msg) in
      let s := SetNonce s (msg_from msg) (u64 (nonce + 1)) in
      Call evm s (msg_from msg) to (Some (msg_data msg)) gas (msg_amount msg) base target
  end.

(** What follows the execution: refund, fee, result. *)
Definition finishTx (evm : EVM) (s : StateDB) (gp : Z) (msg : Message) (initialGas : Z)
    (out : outcome) : result txOutcome :=
  let '(ret, gas, vmerr) := out in
  if bool_decide (vmerr = Some ErrInsufficientBalance) then txError ErrInsufficientBalance s gp
  else
    let* (s, gp, gas) := refundGas s gp msg initialGas gas in
    let s := AddBalance s (evm_Coinbase evm) (gasUsed initialGas gas * msg_gasPrice msg) in
    Ok {| out_ret := ret; out_usedGas := gasUsed initialGas gas;
          out_failed := bool_decide (vmerr ≠ None); out_err := None; out_state := s; out_gp := gp |}.

Definition TransitionDb (evm : EVM) (s : StateDB) (gp : Z) (msg : Message) (base target : Z)
    : result txOutcome :=
  let '(err, s, gp, initialGas) := preCheck s gp msg in
  match err with
  | Some e => txError e s gp
  | None =>
      let homestead := IsHomestead (evm_chainConfig evm) (Some (evm_BlockNumber evm)) in
      match ValidateJobWallet base target with
      | Some e => txError e s gp
      | None =>
          if match msg_to msg with
             | None => false
             | Some to => ((base =? Stake) || (target =? Stake)) && negb (bool_decide (msg_from msg = to))
             end
          then txError ErrInvalidStakeReceiver s gp
          else
            match IntrinsicGas (msg_data msg) (bool_decide (msg_to msg = None)) homestead with
            | Ok gas =>
                if initialGas <? gas then txError ErrOutOfGas s gp
                else
                  let* (out, s) := execute evm s msg (initialGas - gas) base target in
                  finishTx evm s gp msg initialGas out
            | _ => txError ErrOutOfGas s gp
            end
      end
  end.

Definition ApplyMessage (evm : EVM) (s : StateDB) (gp : Z) (msg : Message) : result txOutcome :=
  TransitionDb evm s gp msg (msg_base msg) (msg_target msg).

(** ** One transaction *)

(** What the processor uses of the consensus engine: the beneficiary of a
    block (the zero address when [Author] fails, the error is ignored) and the
    state changes of [Finalize] with its error. *)
Class Engine := {
  Engine_Author : Header → Address;
  Engine_Finalize : Header → StateDB → list txdata → list Header → list Receipt →
                    result (option string * StateDB)
}.

(** [LimitStakeBalance] behind the two pointers of the configuration. *)
Definition limitStake (config : ChainConfig) : result (BSRRConfig * Z) :=
  match Bsrr config with
  | Some b => match LimitStakeBalance b with Some l => Ok (b, l) | None => nil_deref end
  | None => nil_deref
  end.

Definition adjustStateForBIP4 (config : ChainConfig) (s : StateDB) (header : Header) (tx : txdata)
    : result StateDB :=
  let '(stakedBalance, s) :=
    match Recipient tx with Some r => GetStakeBalance s r | None => (0, s) end in
  if IsBIP4 config (Number header) then
    let* (bsrr, limit) := limitStake config in
    if limit <? stakedBalance then
      match Recipient tx with
      | Some recipient =>
          let difference := stakedBalance - limit in
          let s := AddStakeBalance s recipient (- difference) (num header) in
          let s := AddBalance s recipient difference in
          let '(lastStkBlock, s) := GetStakeUpdated s recipient in
          let* selectionPoint := CalcPointBigint limit 0 (num header) lastStkBlock (Period bsrr) in
          Ok (SetPoint s recipient selectionPoint)
      | None => nil_deref
      end
    else Ok s
  else Ok s.

Definition checkBreakTransaction (msg : Message) (blockNumber period : Z) : result bool :=
  let* _ := uint_quot (60 * 60 * 24 * 3) period in
  let elapsedBlockNumber := blockNumber - be_Z (msg_data msg) in
  let lockUpPeriod := 1 in
  Ok (lockUpPeriod <? elapsedBlockNumber).

Definition errLockUp : string := "Unstaking transactions are processed only after the lock up period.".

(** [GetHashFn]: the hash of the block [n] before [ref], by walking up the chain.
    Block numbers fall at every step, so the number of [ref] bounds the walk;
    the cache of the source holds what the walk finds. *)
Fixpoint GetHashFn_loop (fuel : nat) (bc : ChainReader StateDB) (n : Z) (header : option Header) : Hash :=
  match fuel, header with
  | S fuel, Some h =>
      if n =? u64 (big_Uint64 (num h) - 1) then ParentHash h
      else GetHashFn_loop fuel bc n (GetHeader bc (ParentHash h) (u64 (big_Uint64 (num h) - 1)))
  | _, _ => zeroHash
  end.

Definition GetHashFn (ref : Header) (bc : ChainReader StateDB) (n : Z) : Hash :=
  GetHashFn_loop (S (S (Z.to_nat (num ref)))) bc n (Some ref).

Definition NewEVM (config : ChainConfig) (bc : ChainReader StateDB) (msg : Message) (header : Header)
    (beneficiary : Address) (noRecursion preimages : bool) : EVM := {|
  evm_Origin := msg_from msg;
  evm_GasPrice := msg_gasPrice msg;
  evm_Coinbase := beneficiary;
  evm_GasLimit := GasLimit header;
  evm_BlockNumber := num header;
  evm_Time := Time header;
  evm_Difficulty := Difficulty header;
  evm_GetHash := GetHashFn header bc;
  evm_depth := 0;
  evm_chainConfig := config;
  evm_NoRecursion := noRecursion;
  evm_EnablePreimageRecording := preimages;
  evm_readOnly := false
|}.

Definition set_receipt (r : Receipt) (txHash : Hash) (gas : Z) (addr : Address) (ls : list Log)
    (bloom : bytes) : Receipt := {|
  PostState := PostState r; Status := Status r; CumulativeGasUsed := CumulativeGasUsed r;
  rcpt_Bloom := bloom; rcpt_Logs := ls; rcpt_TxHash := txHash; ContractAddress := addr;
  rcpt_GasUsed := gas
|}.

(** [config.Bsrr.Period] behind its guard. *)
Definition locked (config : ChainConfig) (msg : Message) (header : Header) : result bool :=
  if IsBIP4 config (Number header) && ((msg_base msg =? Stake) && (msg_target msg =? Main)) then
    match Bsrr config with
    | None => nil_deref
    | Some b => let* ok := checkBreakTransaction msg (num header) (Period b) in Ok (negb ok)
    end
  else Ok false.

Context {MO : MapOrder}.

(** The receipt, or the error; the state, the gas pool and the gas used so far. *)
Definition ApplyTransaction (config : ChainConfig) (bc : ChainReader StateDB) (author : Address)
    (noRecursion preimages : bool) (gp : Z) (s : StateDB) (header : Header) (tx : txdata) (usedGas : Z)
    : result ((Receipt * Z + string) * StateDB * Z * Z) :=
  match AsMessage tx (MakeSigner config (Number header)) with
  | Err e => Ok (inr e, s, gp, usedGas)
  | Panic p => Panic p
  | Hang => Hang
  | Ok msg =>
      let* s := adjustStateForBIP4 config s header tx in
      let* lock := locked config msg header in
      if lock then Ok (inr errLockUp, s, gp, usedGas)
      else
        let vmenv := NewEVM config bc msg header author noRecursion preimages in
        let* out := ApplyMessage vmenv s gp msg in
        let s := out_state out in
        match out_err out with
        | Some e => Ok (inr e, s, out_gp out, usedGas)
        | None =>
            let gas := out_usedGas out in
            let* (root, s) :=
              if IsByzantium config (Number header) then
                let* s := Finalise s true in Ok ([], s)
              else IntermediateRoot s (IsEIP158 config (Number header)) in
            let usedGas := u64 (usedGas + gas) in
            let receipt := NewReceipt root (out_failed out) usedGas in
            let addr := match msg_to msg with
                        | None => CreateAddress (evm_Origin vmenv) (AccountNonce tx)
                        | Some _ => ContractAddress receipt
                        end in
            let ls := GetLogs s (Tx_Hash tx) in
            let* bloom := CreateBloom [set_receipt receipt (Tx_Hash tx) gas addr ls (rcpt_Bloom receipt)] in
            Ok (inl (set_receipt receipt (Tx_Hash tx) gas addr ls bloom, gas), s, out_gp out, usedGas)
        end
  end.

(** ** One block *)

Fixpoint Process_loop (config : ChainConfig) (bc : ChainReader StateDB) (author : Address)
    (noRecursion preimages : bool) (header : Header)
    (i : Z) (txs : list txdata) (gp usedGas : Z) (s : StateDB) (receipts : list Receipt)
    : result ((list Receipt + string) * StateDB * Z * Z) :=
  match txs with
  | [] => Ok (inl receipts, s, gp, usedGas)
  | tx :: txs =>
      let s := Prepare s (Tx_Hash tx) (Header_Hash header) i in
      let* (r, s, gp, usedGas) := ApplyTransaction config bc author noRecursion preimages gp s header tx usedGas in
      match r with
      | inr e => Ok (inr e, s, gp, usedGas)
      | inl (receipt, _) =>
          Process_loop config bc author noRecursion preimages header (i + 1) txs gp usedGas s (receipts ++ [receipt])
      end
  end.

Context {E : Engine}.

Record processed := {
  pr_receipts : list Receipt;
  pr_logs : list Log;
  pr_usedGas : Z;
  pr_err : option string;
  pr_state : StateDB
}.

Definition Process (config : ChainConfig) (bc : ChainReader StateDB) (block : Block) (s : StateDB)
    (noRecursion preimages : bool)
    : result processed :=
  let header := block_header block in
  let* gp := AddGas 0 (GasLimit header) in
  let s := if DAOForkSupport config && bool_decide (DAOForkBlock config = Some (num header))
           then ApplyDAOHardFork s else s in
  let* (r, s, gp, usedGas) :=
    Process_loop config bc (Engine_Author header) noRecursion preimages header 0 (block_transactions block) gp 0 s [] in
  match r with
  | inr e => Ok {| pr_receipts := []; pr_logs := []; pr_usedGas := 0; pr_err := Some e; pr_state := s |}
  | inl receipts =>
      let* (err, s) := Engine_Finalize header s (block_transactions block) (block_uncles block) receipts in
      Ok {| pr_receipts := receipts; pr_logs := concat (rcpt_Logs <$> receipts); pr_usedGas := usedGas;
            pr_err := err; pr_state := s |}
  end.
End Transition.
