(* ===== verification/TransitionProps.v ===== *)
(** * Applying a message conserves funds and accounts for gas

    Theorems about [core/state_transition.go] and [core/gaspool.go]: the
    intrinsic gas is exact, a message creates no funds whatever it executes,
    the gas pool pays exactly the gas used; and the lock-up of unstaking
    transactions. *)

From Stdlib Require Import ZArith Lia.
From stdpp Require Import base option list gmap sets strings.
From S2P Require Import Prelude Params Rlp Types Account State StateRevert Funds Receipt Evm EvmProps.
From S2P Require Import Chain Staking Transition.

(** ** Intrinsic gas *)

Definition count_nonzero (data : bytes) : Z := Z.of_nat (length (filter (λ x, x ≠ 0) data)).

Lemma nonzeros_aux data n :
  0 ≤ n → n + Z.of_nat (length data) < two64 →
  foldl (λ nz byt, if negb (byt =? 0) then u64 (nz + 1) else nz) n data = n + count_nonzero data.
Proof.
  revert n. induction data as [|x data IH]; intros n Hn Hlen; unfold count_nonzero in *; [simpl; lia|].
  cbn [foldl length] in *. rewrite filter_cons. destruct (Z.eqb_spec x 0) as [->|Hx]; cbn [negb].
  - rewrite decide_False by (intros H; by apply H). rewrite IH by lia. lia.
  - rewrite decide_True by done. rewrite u64_small by (unfold is_u64; lia). rewrite IH by lia. cbn [length]. lia.
Qed.

Lemma nonzeros_count data :
  Z.of_nat (length data) < two64 → nonzeros data = count_nonzero data.
Proof. intros. unfold nonzeros. rewrite nonzeros_aux; lia. Qed.

Lemma count_nonzero_le data : 0 ≤ count_nonzero data ≤ Z.of_nat (length data).
Proof. unfold count_nonzero. pose proof (length_filter (λ x, x ≠ 0) data). lia. Qed.

(** What a message with this data costs before execution. *)
Definition intrinsic (data : bytes) (contractCreation homestead : bool) : Z :=
  (if contractCreation && homestead then TxGasContractCreation else TxGas) +
  count_nonzero data * TxDataNonZeroGas +
  (Z.of_nat (length data) - count_nonzero data) * TxDataZeroGas.

Lemma IntrinsicGas_nonneg data cc h g : IntrinsicGas data cc h = Ok g → 0 ≤ g.
Proof.
  unfold IntrinsicGas. repeat case_match; try done; intros [= <-]; try apply u64_range; done.
Qed.

(** The intrinsic gas is exact and never wraps.  For data of any length
    that fits the address space, [IntrinsicGas] is 21000 (53000 for a creation)
    plus 68 for each non-zero and 4 for each zero byte, and it is an error
    exactly when this sum does not fit 64 bits. *)
Theorem IntrinsicGas_exact (data : bytes) (contractCreation homestead : bool)
    (Hlen : Z.of_nat (length data) < two64) :
  IntrinsicGas data contractCreation homestead =
  if intrinsic data contractCreation homestead <=? maxUint64
  then Ok (intrinsic data contractCreation homestead) else Err ErrOutOfGas.
Proof.
  unfold IntrinsicGas, intrinsic. set (g := if contractCreation && homestead then _ else _).
  assert (Hg : g = 53000 ∨ g = 21000) by (unfold g; case_match; [by left|by right]).
  rewrite (nonzeros_count data Hlen). pose proof (count_nonzero_le data) as Hnz.
  set (n := count_nonzero data) in *. set (l := Z.of_nat (length data)) in *.
  unfold TxDataNonZeroGas, TxDataZeroGas, maxUint64 in *.
  assert (Htw : two64 = 18446744073709551616) by reflexivity.
  destruct (Z.ltb_spec 0 l) as [Hl|Hl].
  2:{ assert (n = 0) by lia. replace (g + n * 68 + (l - n) * 4) with g by lia.
      destruct (Z.leb_spec g (two64 - 1)); [done|lia]. }
  assert (D1 : (two64 - 1 - g) / 68 < n ↔ two64 - 1 < g + n * 68) by (split; intros; zdiv).
  destruct (Z.ltb_spec ((two64 - 1 - g) / 68) n) as [H1|H1].
  { destruct (Z.leb_spec (g + n * 68 + (l - n) * 4) (two64 - 1)); [lia|done]. }
  rewrite (u64_small (g + n * 68)) by (unfold is_u64; lia).
  rewrite (u64_small (l - n)) by (unfold is_u64; lia).
  assert (D2 : (two64 - 1 - (g + n * 68)) / 4 < l - n ↔ two64 - 1 < g + n * 68 + (l - n) * 4)
    by (split; intros; zdiv).
  destruct (Z.ltb_spec ((two64 - 1 - (g + n * 68)) / 4) (l - n)).
  - destruct (Z.leb_spec (g + n * 68 + (l - n) * 4) (two64 - 1)); [lia|done].
  - rewrite u64_small by (unfold is_u64; lia).
    destruct (Z.leb_spec (g + n * 68 + (l - n) * 4) (two64 - 1)); [done|lia].
Qed.

Lemma IntrinsicGas_exact_witness :
  IntrinsicGas [0; 5; 7] false true = Ok 21140.
Proof. rewrite (IntrinsicGas_exact [0; 5; 7] false true ltac:(vm_compute; reflexivity)). reflexivity. Defined.

(** ** Steps of a message *)

Section MessageSteps.
Context {C : Crypto} {D : Database} {I : Interpreter} {L : InterpreterLaws}.

#[local] Instance fine_pre : PreOrder fine := fine_preorder Keccak256_size.

Lemma good_op o s s' : good s → run_op o s = Ok s' → good s'.
Proof. intros Hg H. by destruct (run_op_good Keccak256_size o s s' Hg H). Qed.

Definition fee (msg : Message) : Z := msg_gasLimit msg * msg_gasPrice msg.

(** What buying gas does. *)
Definition bought (s : StateDB) (gp : Z) (msg : Message) (r : option string * StateDB * Z * Z) : Prop :=
  let '(err, s', gp', gas) := r in
  good s' ∧
  match err with
  | Some _ => still s s'
  | None => moves s s' (msg_from msg) (- fee msg) 0 ∧ fee msg ≤ bal s (msg_from msg) ∧
            gas = msg_gasLimit msg ∧ gas ≤ gp ∧ gp' = gp - gas
  end.

Lemma buyGas_spec s gp msg : good s → bought s gp msg (buyGas s gp msg).
Proof.
  intros Hg. unfold buyGas, SubGas. fold (fee msg).
  pose proof (read_value (λ o, Balance (so_data o)) 0 s (msg_from msg)) as Hv.
  pose proof (read_still (λ o, Balance (so_data o)) 0 s (msg_from msg)) as Hst.
  pose proof (good_op (OGetBalance (msg_from msg)) s _ Hg eq_refl) as Hg1. fold GetBalance in Hv, Hst.
  destruct (GetBalance s (msg_from msg)) as [b s1]. simpl in Hv, Hst, Hg1.
  change (b = bal s (msg_from msg)) in Hv. subst b.
  destruct (Z.ltb_spec (bal s (msg_from msg)) (fee msg)); [done|].
  destruct (Z.ltb_spec gp (msg_gasLimit msg)); [done|]. cbn [bought].
  split; [by apply (good_op (OSubBalance (msg_from msg) (fee msg)) s1)|]. split_and!; try done.
  eapply still_moves_l; [exact Hst|]. by apply SubBalance_moves, Hg1.
Qed.

Lemma preCheck_spec s gp msg : good s → bought s gp msg (preCheck s gp msg).
Proof.
  intros Hg. unfold preCheck. destruct (msg_checkNonce msg); [|by apply buyGas_spec].
  destruct (quiet_read Keccak256_size (λ o, acc_Nonce (so_data o)) 0 s (msg_from msg)) as [Hf _].
  pose proof (read_still (λ o, acc_Nonce (so_data o)) 0 s (msg_from msg)) as Hst. fold GetNonce in Hf, Hst.
  destruct (GetNonce s (msg_from msg)) as [n s1]. simpl in Hf, Hst. destruct (Hf Hg) as (Hg1 & _).
  repeat (case_match; [done|]). pose proof (buyGas_spec s1 gp msg Hg1) as Hb.
  destruct (buyGas s1 gp msg) as [[[err s2] gp2] g]. destruct Hb as [Hg2 Hb]. split; [done|].
  destruct err; [by etrans|]. destruct Hb as (Hm & Hle & Hrest).
  split; [by eapply still_moves_l|]. by destruct (Hst (msg_from msg)) as [<- _].
Qed.

Lemma execute_spec evm s msg gas base target :
  good s → is_u64 gas → 0 ≤ msg_amount msg →
  match execute evm s msg gas base target with
  | Ok ((_, g, _), s') => good s' ∧ frugal s s' ∧ is_u64 g
  | r => crash r
  end.
Proof.
  intros Hg Hgas Hv. unfold execute. destruct (msg_to msg) as [to|]; [|unfold Create];
    destruct (quiet_read Keccak256_size (λ o, acc_Nonce (so_data o)) 0 s (msg_from msg)) as [Hf _];
    fold GetNonce in Hf; destruct (GetNonce s (msg_from msg)) as [n s1]; simpl in Hf.
  - pose proof (fine_SetNonce Keccak256_size s1 (msg_from msg) (u64 (n + 1))) as Hf2.
    assert (Hff : fine s (SetNonce s1 (msg_from msg) (u64 (n + 1)))) by (by etrans).
    set (s2 := SetNonce s1 (msg_from msg) (u64 (n + 1))) in *. destruct (Hff Hg) as (Hg2 & _ & Hfr).
    pose proof (Call_ok evm s2 (msg_from msg) to (Some (msg_data msg)) gas (msg_amount msg) base target Hg2 Hgas Hv) as Hc.
    destruct (Call _ _ _ _ _ _ _ _ _) as [[[[ret g] err] s3]| | |]; try done.
    destruct Hc as (? & _ & ? & ? & _). split; [done|]. split; [by etrans|done].
  - destruct (Hf Hg) as (Hg1 & _ & Hfr).
    pose proof (create_ok evm s1 (msg_from msg) (Some (msg_data msg)) zeroHash gas (msg_amount msg)
      (CreateAddress (msg_from msg) n) Hg1 Hgas Hv) as Hc.
    destruct (create _ _ _ _ _ _ _ _) as [[[[[ret g] err] adr] s3]| | |]; try done.
    destruct Hc as (? & _ & ? & ? & _). cbn [bind]. split; [done|]. split; [by etrans|done].
Qed.

(** Gas left after the refund, and the funds given back. *)
Lemma refundGas_spec s gp msg gas :
  good s → 0 ≤ gas ≤ msg_gasLimit msg → 0 ≤ gp → gp + msg_gasLimit msg < two64 →
  ∃ s' gas', refundGas s gp msg (msg_gasLimit msg) gas = Ok (s', gp + gas', gas') ∧ good s' ∧
    moves s s' (msg_from msg) (gas' * msg_gasPrice msg) 0 ∧
    gas ≤ gas' ≤ msg_gasLimit msg ∧ msg_gasLimit msg - gas ≤ 2 * (msg_gasLimit msg - gas').
Proof.
  intros Hg Hgas Hgp Hsum. unfold refundGas, gasUsed, AddGas, GetRefund.
  set (I0 := msg_gasLimit msg) in *. pose proof (wf_refund s (proj1 Hg)) as Hr. unfold is_u64 in Hr.
  rewrite (u64_small (I0 - gas)) by (unfold is_u64; lia).
  set (r := if refund s <? (I0 - gas) / 2 then refund s else (I0 - gas) / 2).
  assert (Hrr : 0 ≤ r ≤ (I0 - gas) / 2) by (unfold r; destruct (Z.ltb_spec (refund s) ((I0 - gas) / 2)); zdiv).
  assert (Hb : 0 ≤ r ≤ I0 - gas ∧ 2 * r ≤ I0 - gas) by zdiv.
  rewrite (u64_small (gas + r)) by (unfold is_u64; lia).
  destruct (Z.ltb_spec (maxUint64 - (gas + r)) gp); [unfold maxUint64 in *; lia|]. cbn [bind].
  eexists _, (gas + r). split; [reflexivity|].
  split; [by apply (good_op (OAddBalance (msg_from msg) ((gas + r) * msg_gasPrice msg)) s)|].
  split; [by apply AddBalance_moves, Hg|]. lia.
Qed.

(** Gas is bought, spent on a frugal step, and paid back to the sender and
    the beneficiary. *)
Lemma frugal_paid s s1 s2 s3 s4 from coinbase x y z :
  moves s s1 from (- x) 0 → frugal s1 s2 → moves s2 s3 from y 0 → moves s3 s4 coinbase z 0 →
  0 ≤ y → 0 ≤ z → y + z = x → x ≤ bal s from → frugal s s4.
Proof.
  intros H1 [Sf Tf] H3 H4 Hy Hz Hsum Hle.
  assert (S1 : solvent s → solvent s1).
  { intros Hs a. destruct (H1 a) as [-> ->], (Hs a). case_decide; [subst|]; lia. }
  split; intros Hs.
  - intros a. destruct (H4 a) as [-> ->], (H3 a) as [-> ->], (Sf (S1 Hs) a). repeat case_decide; lia.
  - destruct (Tf (S1 Hs)) as [L0 T]. exists (from :: coinbase :: L0). intros L' HL Hsub.
    rewrite (total_moves L' s3 s4 coinbase z 0 HL H4), (total_moves L' s2 s3 from y 0 HL H3).
    rewrite !decide_True by (apply Hsub; set_solver). specialize (T L' HL ltac:(set_solver)).
    rewrite (total_moves L' s s1 from (- x) 0 HL H1), decide_True in T by (apply Hsub; set_solver). lia.
Qed.

Definition tx_spec (evm : EVM) (s : StateDB) (gp : Z) (msg : Message) (r : result txOutcome) : Prop :=
  match r with
  | Ok out =>
      good (out_state out) ∧ frugal s (out_state out) ∧
      (out_err out = None →
        0 ≤ out_usedGas out ≤ msg_gasLimit msg ∧ out_gp out = gp - out_usedGas out ∧
        ∀ g, IntrinsicGas (msg_data msg) (bool_decide (msg_to msg = None))
               (IsHomestead (evm_chainConfig evm) (Some (evm_BlockNumber evm))) = Ok g →
             g ≤ 2 * out_usedGas out)
  | r => crash r
  end.

Lemma txError_spec evm s gp msg e s' gp' : good s' → frugal s s' → tx_spec evm s gp msg (txError e s' gp').
Proof. done. Qed.

(** The end of a message that bought its gas in the step from [s] to [s1]. *)
Lemma finishTx_spec evm s s1 s2 gp msg out g :
  good s2 → moves s s1 (msg_from msg) (- fee msg) 0 → fee msg ≤ bal s (msg_from msg) → frugal s1 s2 →
  0 ≤ msg_gasPrice msg → 0 ≤ msg_gasLimit msg ≤ gp → gp < two64 →
  0 ≤ g → 0 ≤ out.1.2 ≤ msg_gasLimit msg - g →
  IntrinsicGas (msg_data msg) (bool_decide (msg_to msg = None))
    (IsHomestead (evm_chainConfig evm) (Some (evm_BlockNumber evm))) = Ok g →
  tx_spec evm s gp msg (finishTx evm s2 (gp - msg_gasLimit msg) msg (msg_gasLimit msg) out).
Proof.
  intros Hg2 Hm1 Hle Hfr Hp Hgl Hgp Hg0 Hout Hint. destruct out as [[ret gas] vmerr]. simpl in Hout.
  unfold finishTx. destruct (bool_decide (vmerr = Some ErrInsufficientBalance)).
  { apply txError_spec; [done|].
    assert (H1 : frugal s s1).
    { apply (frugal_moves s s1 (msg_from msg) (- fee msg) 0 Hm1). intros Hs. destruct (Hs (msg_from msg)).
      unfold fee in *. nia. }
    by etrans. }
  destruct (refundGas_spec s2 (gp - msg_gasLimit msg) msg gas Hg2 ltac:(lia) ltac:(lia) ltac:(lia))
    as (s3 & gas' & -> & Hg3 & Hm3 & Hb & Hhalf). cbn [bind]. unfold gasUsed.
  rewrite (u64_small (msg_gasLimit msg - gas')) by (unfold is_u64; lia).
  set (x := (msg_gasLimit msg - gas') * msg_gasPrice msg).
  cbn [tx_spec out_state out_err out_usedGas out_gp].
  split; [by apply (good_op (OAddBalance (evm_Coinbase evm) x) s3)|]. split.
  - apply (frugal_paid s s1 s2 s3 _ (msg_from msg) (evm_Coinbase evm) (fee msg)
             (gas' * msg_gasPrice msg) x); try done;
      [by apply AddBalance_moves, Hg3|nia|unfold x; nia|unfold x, fee; nia].
  - intros _. split; [lia|]. split; [lia|]. intros g' Hg'. rewrite Hint in Hg'. injection Hg' as <-. lia.
Qed.

(** The execution of the message gives back no more gas than it was given. *)
Definition gas_kept (evm : EVM) (s : StateDB) (gp : Z) (msg : Message) (base target : Z) : Prop :=
  let '(_, s1, _, initialGas) := preCheck s gp msg in
  ∀ g ret gas err s2,
    IntrinsicGas (msg_data msg) (bool_decide (msg_to msg = None))
      (IsHomestead (evm_chainConfig evm) (Some (evm_BlockNumber evm))) = Ok g →
    execute evm s1 msg (initialGas - g) base target = Ok ((ret, gas, err), s2) → gas ≤ initialGas - g.

End MessageSteps.

(** ** The stake limit and the lock-up *)

Section Berith.
Context {C : Crypto} {D : Database}.

Lemma AddStakeBalance_updated s a x n :
  wf s → x ≠ 0 →
  ∃ o, lookup (AddStakeBalance s a x n) a = Some o ∧ StakeUpdated (so_data o) = n.
Proof.
  intros Hw Hx. unfold AddStakeBalance, write. destruct (GetOrNewStateObject s a) as [o s1] eqn:E.
  destruct (GetOrNewStateObject_still s a o s1 Hw E) as (_ & _ & Ha & Hd & _).
  unfold so_AddStakeBalance. rewrite (proj2 (Z.eqb_neq x 0) Hx). eexists.
  unfold so_SetStaking. rewrite lookup_setStateObject. simpl. by rewrite decide_True, Hd.
Qed.

Lemma AddBalance_updated s a x o :
  wf s → x ≠ 0 → lookup s a = Some o →
  ∃ o', lookup (AddBalance s a x) a = Some o' ∧ StakeUpdated (so_data o') = StakeUpdated (so_data o).
Proof.
  intros Hw Hx Hl. unfold AddBalance, write, GetOrNewStateObject.
  destruct (getStateObject_spec s a) as (s1 & -> & Hc). rewrite Hl.
  destruct (lookup_wf s a o Hw Hl) as (Ha & Hd & _).
  unfold so_AddBalance. rewrite (proj2 (Z.eqb_neq x 0) Hx). eexists.
  unfold so_SetBalance. rewrite lookup_setStateObject. simpl. by rewrite decide_True, Hd.
Qed.

Lemma CalcPointBigint_ok limit now last period :
  0 < limit → 0 < referenceBlock period + last → ∃ p, CalcPointBigint limit 0 now last period = Ok p.
Proof.
  intros Hl Hr. unfold CalcPointBigint. rewrite !big_Div_pos by lia. cbn [bind].
  rewrite big_Div_pos by lia. cbn [bind]. eauto.
Qed.

(** From BIP4 on, the stake of the recipient of a transaction is cut to the
    limit, and the excess returns to its main balance.  With a positive limit
    and block period [adjustStateForBIP4] does not panic, and no other account
    changes. *)
Theorem adjustStateForBIP4_caps (config : ChainConfig) (s : StateDB) (header : Header) (tx : txdata)
    (b : BSRRConfig) (limit : Z) (r : Address)
    (Hk : ∀ b, length (Keccak256 b) = HashLength) (Hg : good s)
    (Hbip4 : IsBIP4 config (Number header) = true) (Hlim : limitStake config = Ok (b, limit))
    (Hpos : 0 < limit) (Hnum : 0 ≤ num header) (Href : 0 < referenceBlock (Period b))
    (Hto : Recipient tx = Some r) :
  ∃ s', adjustStateForBIP4 config s header tx = Ok s' ∧
    stk s' r = Z.min (stk s r) limit ∧ bal s' r + stk s' r = bal s r + stk s r ∧
    ∀ a, a ≠ r → bal s' a = bal s a ∧ stk s' a = stk s a.
Proof.
  unfold adjustStateForBIP4. rewrite Hto, Hbip4, Hlim. cbn [bind].
  pose proof (read_value (λ o, StakeBalance (so_data o)) 0 s r) as Hv.
  pose proof (read_still (λ o, StakeBalance (so_data o)) 0 s r) as Hst.
  pose proof (read_step false (λ o, StakeBalance (so_data o)) 0 s r (proj1 Hg)) as [_ _ _ Hw1].
  fold GetStakeBalance in Hv, Hst, Hw1. destruct (GetStakeBalance s r) as [x s1].
  simpl in Hv, Hst, Hw1. change (x = stk s r) in Hv. subst x.
  destruct (Z.ltb_spec limit (stk s r)) as [Hlt|Hle].
  2:{ exists s1. split; [done|]. split; [rewrite Z.min_l by lia; apply Hst|].
      split; [destruct (Hst r) as [-> ->]; lia|]. intros a _. apply Hst. }
  set (d := stk s r - limit). cbv zeta.
  pose proof (AddStakeBalance_moves s1 r (- d) (num header) Hw1) as Hm2.
  destruct (AddStakeBalance_updated s1 r (- d) (num header) Hw1 ltac:(lia)) as (o2 & Hl2 & Hu2).
  pose proof (run_op_step Hk false (OAddStakeBalance r (- d) (num header)) s1 _ ltac:(done) eq_refl Hw1 eq_refl)
    as [_ _ _ Hw2].
  set (s2 := AddStakeBalance s1 r (- d) (num header)) in *.
  pose proof (AddBalance_moves s2 r d Hw2) as Hm3.
  destruct (AddBalance_updated s2 r d o2 Hw2 ltac:(lia) Hl2) as (o3 & Hl3 & Hu3).
  pose proof (run_op_step Hk false (OAddBalance r d) s2 _ ltac:(done) eq_refl Hw2 eq_refl) as [_ _ _ Hw3].
  set (s3 := AddBalance s2 r d) in *.
  pose proof (read_value (λ o, StakeUpdated (so_data o)) 0 s3 r) as Hv4.
  pose proof (read_still (λ o, StakeUpdated (so_data o)) 0 s3 r) as Hst4.
  pose proof (read_step false (λ o, StakeUpdated (so_data o)) 0 s3 r Hw3) as [_ _ _ Hw4].
  fold GetStakeUpdated in Hv4, Hst4, Hw4. destruct (GetStakeUpdated s3 r) as [last s4].
  simpl in Hv4, Hst4, Hw4. rewrite Hl3 in Hv4.
  destruct (CalcPointBigint_ok limit (num header) last (Period b) Hpos ltac:(lia)) as [p ->]. cbn [bind].
  eexists. split; [reflexivity|]. pose proof (SetPoint_still s4 r p Hw4) as Hst5.
  assert (Hall : ∀ a, bal (SetPoint s4 r p) a = bal s a + (if decide (a = r) then d else 0) ∧
                      stk (SetPoint s4 r p) a = stk s a + (if decide (a = r) then - d else 0)).
  { intros a. destruct (Hst5 a) as [-> ->], (Hst4 a) as [-> ->], (Hm3 a) as [-> ->], (Hm2 a) as [-> ->], (Hst a) as [-> ->].
    case_decide; lia. }
  destruct (Hall r) as [-> ->]. rewrite !decide_True by done. split; [lia|]. split; [lia|].
  intros a Hne. destruct (Hall a) as [-> ->]. rewrite !decide_False by done. lia.
Qed.

(** The lock-up is no lock-up.  The block from which it is counted is read
    from the data of the transaction, which its sender chooses: with empty data
    an unstaking transaction is accepted from the second block on, whenever the
    stake was placed. *)
Theorem lockup_bypassed (config : ChainConfig) (msg : Message) (header : Header) (b : BSRRConfig)
    (Hb : Bsrr config = Some b) (Hp : Period b ≠ 0) (Hd : msg_data msg = []) (Hn : 1 < num header) :
  locked config msg header = Ok false.
Proof.
  unfold locked. case_match; [|done]. rewrite Hb. unfold checkBreakTransaction, uint_quot.
  rewrite (proj2 (Z.eqb_neq _ _) Hp), Hd. cbn [bind be_Z foldl].
  by rewrite (proj2 (Z.ltb_lt 1 _)) by lia.
Qed.
End Berith.

(** ** Concrete messages *)

Module ToyTransition.
Import ToyEvm.
#[local] Existing Instances ToyState.toyCrypto ToyState.toyDatabase toyInterpreter toyLaws.

Definition toy_msg : Message := {|
  msg_to := Some [2]; msg_from := [1]; msg_nonce := 0; msg_amount := 4; msg_gasLimit := 30000;
  msg_gasPrice := 2; msg_data := []; msg_checkNonce := true; msg_base := Main; msg_target := Main
|}.

Definition rich : StateDB := ToyState.toy_state {[ [1] := ToyState.toy_object [1] 100000 [] ]}.

Lemma rich_good : good rich.
Proof. split; [apply ToyState.toy_wf|by split]. Qed.

Lemma rich_solvent : solvent rich.
Proof.
  intros a. unfold bal, stk, lookup, rich. simpl. destruct (decide (a = [1])) as [->|].
  - rewrite lookup_singleton_eq. simpl. lia.
  - rewrite lookup_singleton_ne by done. unfold load. simpl. rewrite lookup_empty. simpl. lia.
Qed.

Lemma toy_kept : gas_kept toy_evm rich 50000 toy_msg Main Main.
Proof.
  unfold gas_kept. destruct (preCheck rich 50000 toy_msg) as [[[e s1] gp1] g0] eqn:Ep.
  intros g ret gas err s2 Hg Hx.
  assert (Hg0 : (preCheck rich 50000 toy_msg).2 = 30000) by (vm_compute; reflexivity).
  assert (Hgas : match execute toy_evm (preCheck rich 50000 toy_msg).1.1.2 toy_msg (30000 - 21000) Main Main with
                 | Ok ((_, gas, _), _) => gas | _ => 0 end = 8999) by (vm_compute; reflexivity).
  rewrite Ep in Hg0, Hgas. simpl in Hg0, Hgas. subst g0. vm_compute in Hg. injection Hg as <-.
  rewrite Hx in Hgas. subst gas. lia.
Qed.


Definition late : Header := Staking.toy_header 1000 zeroHash.
Definition toy_tx : txdata := newTransaction 0 (Some [1]) None 30000 None [] Stake Main.

(** A stake above the limit. *)
Definition staked : StateDB :=
  AddStakeBalance (ToyState.toy_state ∅) [1] (LimitStakeBalance_str + 7) 3.

Lemma staked_good : good staked.
Proof.
  apply (good_op (OAddStakeBalance [1] (LimitStakeBalance_str + 7) 3) (ToyState.toy_state ∅)); [|reflexivity].
  split; [|by split]. split; try done.
Qed.

Lemma adjustStateForBIP4_witness :
  stk staked [1] = LimitStakeBalance_str + 7 ∧
  ∃ s', adjustStateForBIP4 MainnetChainConfig staked late toy_tx = Ok s' ∧
        stk s' [1] = LimitStakeBalance_str ∧ bal s' [1] + stk s' [1] = LimitStakeBalance_str + 7.
Proof.
  split; [vm_compute; reflexivity|].
  assert (Hk : ∀ b, length (Keccak256 b) = HashLength) by (intros b; reflexivity).
  destruct (Bsrr MainnetChainConfig) as [b|] eqn:Eb; [|discriminate Eb].
  destruct (adjustStateForBIP4_caps MainnetChainConfig staked late toy_tx b LimitStakeBalance_str [1]
    Hk staked_good) as (s' & H & H1 & H2 & _);
    [vm_compute; reflexivity|injection Eb as <-; reflexivity|reflexivity|vm_compute; discriminate|
     injection Eb as <-; vm_compute; reflexivity|reflexivity|].
  exists s'. split; [exact H|]. split; [rewrite H1|rewrite H2]; vm_compute; reflexivity.
Defined.

Definition unstake : Message := {|
  msg_to := Some [1]; msg_from := [1]; msg_nonce := 0; msg_amount := 0; msg_gasLimit := 30000;
  msg_gasPrice := 2; msg_data := []; msg_checkNonce := true; msg_base := Stake; msg_target := Main
|}.

Lemma lockup_bypassed_witness :
  IsBIP4 MainnetChainConfig (Number late) = true ∧ locked MainnetChainConfig unstake late = Ok false.
Proof.
  split; [vm_compute; reflexivity|]. destruct (Bsrr MainnetChainConfig) as [b|] eqn:Eb; [|discriminate Eb].
  apply (lockup_bypassed MainnetChainConfig unstake late b Eb); [|reflexivity|vm_compute; reflexivity].
  injection Eb as <-. discriminate.
Defined.
End ToyTransition.
