(* ===== verification/ManagedState.v ===== *)
(** * Managed nonces

    [core/state/managed_state.go]: a copy of a state with the nonces of
    transactions that wait in the pool. *)

From Stdlib Require Import ZArith Lia.
From stdpp Require Import base option list gmap sets strings.
From S2P Require Import Prelude Rlp Types Account State StateRevert.

(** [account]; the object it points to is the one of the state. *)
Record account := {
  nstart : Z;
  nonces : list bool
}.

Section Managed.
Context {C : Crypto} {D : Database} {MO : MapOrder}.

Record ManagedState := {
  ms_state : StateDB;
  ms_accounts : gmap Address account
}.

Definition newAccount (so : stateObject) : account := {| nstart := acc_Nonce (so_data so); nonces := [] |}.

Definition ManageState (s : StateDB) : result ManagedState :=
  let* s := Copy s in Ok {| ms_state := s; ms_accounts := ∅ |}.

Definition hasAccount (ms : ManagedState) (addr : Address) : bool :=
  match ms_accounts ms !! addr with Some _ => true | None => false end.

Definition tracked (a : account) : Z := u64 (Z.of_nat (length (nonces a)) + nstart a).

Definition getAccount (ms : ManagedState) (addr : Address) : account * ManagedState :=
  match ms_accounts ms !! addr with
  | None =>
      let '(so, s) := GetOrNewStateObject (ms_state ms) addr in
      (newAccount so, {| ms_state := s; ms_accounts := <[addr := newAccount so]> (ms_accounts ms) |})
  | Some a =>
      let '(so, s) := getStateObject (ms_state ms) addr in
      let a := match so with
               | Some so => if tracked a <? acc_Nonce (so_data so) then newAccount so else a
               | None => a
               end in
      (a, {| ms_state := s; ms_accounts := <[addr := a]> (ms_accounts ms) |})
  end.

Definition ms_GetNonce (ms : ManagedState) (addr : Address) : Z * ManagedState :=
  if hasAccount ms addr then let '(a, ms) := getAccount ms addr in (tracked a, ms)
  else
    let '(n, s) := GetNonce (ms_state ms) addr in
    (n, {| ms_state := s; ms_accounts := ms_accounts ms |}).

Definition ms_SetNonce (ms : ManagedState) (addr : Address) (nonce : Z) : ManagedState :=
  let '(so, s) := GetOrNewStateObject (ms_state ms) addr in
  {| ms_state := so_SetNonce s so nonce;
     ms_accounts := <[addr := newAccount (setNonce so nonce)]> (ms_accounts ms) |}.

(** [make] panics on a length beyond the address space; a nonce below the
    start wraps around and fails the comparison. *)
Definition RemoveNonce (ms : ManagedState) (addr : Address) (n : Z) : ManagedState :=
  if hasAccount ms addr then
    let '(a, ms) := getAccount ms addr in
    let k := u64 (n - nstart a) in
    if k <=? Z.of_nat (length (nonces a)) then
      {| ms_state := ms_state ms;
         ms_accounts := <[addr := {| nstart := nstart a; nonces := take (Z.to_nat k) (nonces a) |}]> (ms_accounts ms) |}
    else ms
  else ms.

(** The first free nonce. *)
Definition NewNonce (ms : ManagedState) (addr : Address) : Z * ManagedState :=
  let '(a, ms) := getAccount ms addr in
  match list_find (eq false) (nonces a) with
  | Some (i, _) => (u64 (nstart a + Z.of_nat i), ms)
  | None =>
      (u64 (Z.of_nat (length (nonces a)) + nstart a),
       {| ms_state := ms_state ms;
          ms_accounts := <[addr := {| nstart := nstart a; nonces := nonces a ++ [true] |}]> (ms_accounts ms) |})
  end.

(** ** Reading after writing *)

Definition state_nonce (s : StateDB) (addr : Address) : Z :=
  match lookup s addr with Some o => acc_Nonce (so_data o) | None => 0 end.

Lemma GetNonce_spec s a : ∃ s', GetNonce s a = (state_nonce s a, s') ∧ ∀ b, lookup s' b = lookup s b.
Proof.
  unfold GetNonce, read, state_nonce. destruct (getStateObject_spec s a) as (s' & -> & Hc). exists s'.
  split; [by destruct (lookup s a)|]. intros b. by eapply cached_lookup.
Qed.

Definition keyed (s : StateDB) : Prop := ∀ a o, stateObjects s !! a = Some o → so_address o = a.

Lemma keyed_lookup s a o : keyed s → lookup s a = Some o → so_address o = a ∧ so_deleted o = false.
Proof.
  intros Hk. unfold lookup. destruct (stateObjects s !! a) as [o'|] eqn:E.
  - destruct (so_deleted o') eqn:Ed; [done|]. intros [= <-]. split; [by apply Hk|done].
  - apply load_spec.
Qed.

Lemma keyed_cached s s' a : keyed s → cached s s' a → keyed s'.
Proof.
  intros Hk Hc b o. destruct (ca_objects _ _ _ Hc) as [->|(o' & _ & Hl & ->)]; [apply Hk|].
  intros [[<- <-]|[_ Hb]]%lookup_insert_Some; [by apply load_spec in Hl as [? _]|by apply Hk].
Qed.

Lemma keyed_set s o : keyed s → keyed (setStateObject s o).
Proof. intros Hk a o'. unfold setStateObject. simpl. intros [[<- <-]|[_ Ha]]%lookup_insert_Some; [done|by apply Hk]. Qed.

(** The object of an address, new if there is none. *)
Lemma GetOrNew_spec s a :
  keyed s → ∃ o s', GetOrNewStateObject s a = (o, s') ∧ keyed s' ∧ so_address o = a ∧ so_deleted o = false ∧
                    ∀ b, b ≠ a → lookup s' b = lookup s b.
Proof.
  intros Hk. unfold GetOrNewStateObject. destruct (getStateObject_spec s a) as (s1 & -> & Hc1).
  pose proof (keyed_cached _ _ _ Hk Hc1) as Hk1. destruct (lookup s a) as [o|] eqn:E.
  - destruct (keyed_lookup s a o Hk E). eexists _, _. split; [reflexivity|]. split_and!; try done.
    intros b _. by eapply cached_lookup.
  - unfold createObject. destruct (getStateObject_spec s1 a) as (s2 & -> & Hc2).
    rewrite (cached_lookup _ _ _ a Hc1), E. eexists _, _. split; [reflexivity|].
    split_and!; [|done|done|].
    + apply keyed_set. exact (keyed_cached _ _ _ Hk1 Hc2).
    + intros b Hb. rewrite lookup_setStateObject. simpl. rewrite decide_False by done.
      change (lookup s2 b = lookup s b). by rewrite (cached_lookup _ _ _ b Hc2), (cached_lookup _ _ _ b Hc1).
Qed.

(** ** The nonces are those of the state *)

Definition nonce_of (ms : ManagedState) (a : Address) : Z := (ms_GetNonce ms a).1.

Record ms_ok (ms : ManagedState) : Prop := {
  ms_keyed : keyed (ms_state ms);
  ms_tracks : ∀ a acc, ms_accounts ms !! a = Some acc →
    nonces acc = [] ∧ nstart acc = state_nonce (ms_state ms) a ∧ is_u64 (nstart acc)
}.

Lemma nonce_of_state ms a : ms_ok ms → nonce_of ms a = state_nonce (ms_state ms) a.
Proof.
  intros [Hk Ht]. unfold nonce_of, ms_GetNonce, hasAccount, getAccount. destruct (ms_accounts ms !! a) as [acc|] eqn:E.
  - destruct (Ht _ _ E) as (Hn & Hs & Hu). destruct (getStateObject_spec (ms_state ms) a) as (s' & -> & _).
    assert (Htr : tracked acc = nstart acc) by (unfold tracked; rewrite Hn; by apply u64_small). unfold state_nonce in *.
    destruct (lookup (ms_state ms) a) as [o|]; simpl; [|congruence]. rewrite Htr, Hs, Z.ltb_irrefl. simpl. congruence.
  - destruct (GetNonce_spec (ms_state ms) a) as (s' & -> & _). done.
Qed.

Lemma SetNonce_spec ms a n :
  ms_ok ms → is_u64 n →
  ms_ok (ms_SetNonce ms a n) ∧ ∀ b, nonce_of (ms_SetNonce ms a n) b = if decide (b = a) then n else nonce_of ms b.
Proof.
  intros Hm Hu. pose proof Hm as [Hk Ht]. unfold ms_SetNonce. destruct (GetOrNew_spec (ms_state ms) a Hk) as (o & s' & -> & Hk' & Ha & Hd & Hl).
  set (ms' := {| ms_state := _; ms_accounts := _ |}).
  assert (Hst : ∀ b, state_nonce (ms_state ms') b = if decide (b = a) then n else state_nonce (ms_state ms) b).
  { intros b. unfold state_nonce, ms'. simpl. unfold so_SetNonce. rewrite lookup_setStateObject. simpl. rewrite Ha, Hd.
    destruct (decide (b = a)) as [->|Hb]; [done|].
    change (match lookup s' b with Some o => acc_Nonce (so_data o) | None => 0 end = state_nonce (ms_state ms) b).
    unfold state_nonce. by rewrite Hl. }
  assert (Hok : ms_ok ms').
  { split.
    - unfold ms'. simpl. apply keyed_set. exact Hk'.
    - intros b acc. rewrite Hst. unfold ms'. simpl. intros [[<- <-]|[Hne Hb]]%lookup_insert_Some.
      + rewrite decide_True by done. done.
      + rewrite decide_False by done. by apply Ht. }
  split; [done|]. intros b. rewrite nonce_of_state by done. rewrite Hst. case_decide; [done|]. by rewrite nonce_of_state.
Qed.

(** ** A new managed state *)

(** The nonces of a fresh state are its own. *)
Lemma ManageState_fresh root d s :
  New root d = Ok s →
  ∃ ms, ManageState s = Ok ms ∧ ms_ok ms ∧ ∀ a, nonce_of ms a = state_nonce s a.
Proof.
  unfold New. destruct (OpenTrie d root) as [tr|e|w|]; try done. cbn [bind]. intros [= <-]. unfold ManageState, Copy. simpl.
  assert (Hr : range (∅ : gset Address) = []) by (apply Permutation_nil_r; by rewrite range_perm, elements_empty).
  unfold newJournal. simpl. rewrite dom_empty_L, Hr. simpl. eexists. split; [reflexivity|].
  match goal with |- ms_ok ?m ∧ _ => assert (Hm : ms_ok m) end; [|split; [done|]; intros a; by rewrite nonce_of_state].
  split; simpl; [by intros a o|by intros a acc].
Qed.
End Managed.
