(* ===== verification/TxPool.v ===== *)
(** * The transaction pool ([core/tx_pool.go])

    The pool keeps the transactions that can be processed (pending) and those
    that must wait (queue) by account, all of them by hash, and by price. *)

From Stdlib Require Import ZArith Lia SpecFloat.
From stdpp Require Import base option list gmap sets strings sorting.
From S2P Require Import Prelude GoFloat Params Rlp Types Account State StateRevert Chain Transition.
From S2P Require Import Heap TxList ManagedState.

(** ** Configuration *)

(** Durations are in nanoseconds. *)
Record TxPoolConfig := {
  Locals : list Address;
  NoLocals : bool;
  Journal : string;
  Rejournal : Z;
  PriceLimit : Z;
  PriceBump : Z;
  AccountSlots : Z;
  GlobalSlots : Z;
  AccountQueue : Z;
  GlobalQueue : Z;
  Lifetime : Z
}.

Definition second : Z := 1000000000.

Definition DefaultTxPoolConfig : TxPoolConfig := {|
  Locals := []; NoLocals := false;
  Journal := "transactions.rlp"; Rejournal := 3600 * second;
  PriceLimit := 1; PriceBump := 10;
  AccountSlots := 16; GlobalSlots := 4096; AccountQueue := 64; GlobalQueue := 1024;
  Lifetime := 3 * 3600 * second
|}.

Definition sanitize (c : TxPoolConfig) : TxPoolConfig := {|
  Locals := Locals c; NoLocals := NoLocals c; Journal := Journal c;
  Rejournal := if Rejournal c <? second then second else Rejournal c;
  PriceLimit := if PriceLimit c <? 1 then PriceLimit DefaultTxPoolConfig else PriceLimit c;
  PriceBump := if PriceBump c <? 1 then PriceBump DefaultTxPoolConfig else PriceBump c;
  AccountSlots := AccountSlots c; GlobalSlots := GlobalSlots c;
  AccountQueue := AccountQueue c; GlobalQueue := GlobalQueue c; Lifetime := Lifetime c
|}.

Section TxPool.
Context {C : Crypto} {D : Database} {MO : MapOrder} {NO : NonceOrder}.

(** The journal is the list of the transactions written to it; subscriptions,
    metrics and the lock are left out.  Times are nanoseconds since year 1, the
    zero time. *)
Record TxPool := {
  config : TxPoolConfig;
  chainconfig : ChainConfig;
  gasPrice : Z;
  signer : Signer;
  currentState : StateDB;
  pendingState : ManagedState;
  currentMaxGas : Z;
  locals : accountSet;
  journal : option (list txdata);
  pending : gmap Address txList;
  queue : gmap Address txList;
  beats : gmap Address Z;
  all : gmap Hash txdata;
  priced : txPricedList;
  homestead : bool
}.

Definition put_pending (p : TxPool) x := {|
  config := config p; chainconfig := chainconfig p; gasPrice := gasPrice p; signer := signer p;
  currentState := currentState p; pendingState := pendingState p; currentMaxGas := currentMaxGas p;
  locals := locals p; journal := journal p; pending := x; queue := queue p; beats := beats p; all := all p;
  priced := priced p; homestead := homestead p |}.
Definition put_queue (p : TxPool) x := {|
  config := config p; chainconfig := chainconfig p; gasPrice := gasPrice p; signer := signer p;
  currentState := currentState p; pendingState := pendingState p; currentMaxGas := currentMaxGas p;
  locals := locals p; journal := journal p; pending := pending p; queue := x; beats := beats p; all := all p;
  priced := priced p; homestead := homestead p |}.
Definition put_beats (p : TxPool) x := {|
  config := config p; chainconfig := chainconfig p; gasPrice := gasPrice p; signer := signer p;
  currentState := currentState p; pendingState := pendingState p; currentMaxGas := currentMaxGas p;
  locals := locals p; journal := journal p; pending := pending p; queue := queue p; beats := x; all := all p;
  priced := priced p; homestead := homestead p |}.
Definition put_all (p : TxPool) x := {|
  config := config p; chainconfig := chainconfig p; gasPrice := gasPrice p; signer := signer p;
  currentState := currentState p; pendingState := pendingState p; currentMaxGas := currentMaxGas p;
  locals := locals p; journal := journal p; pending := pending p; queue := queue p; beats := beats p; all := x;
  priced := priced p; homestead := homestead p |}.
Definition put_priced (p : TxPool) x := {|
  config := config p; chainconfig := chainconfig p; gasPrice := gasPrice p; signer := signer p;
  currentState := currentState p; pendingState := pendingState p; currentMaxGas := currentMaxGas p;
  locals := locals p; journal := journal p; pending := pending p; queue := queue p; beats := beats p; all := all p;
  priced := x; homestead := homestead p |}.
Definition put_state (p : TxPool) cur pend gas := {|
  config := config p; chainconfig := chainconfig p; gasPrice := gasPrice p; signer := signer p;
  currentState := cur; pendingState := pend; currentMaxGas := gas;
  locals := locals p; journal := journal p; pending := pending p; queue := queue p; beats := beats p; all := all p;
  priced := priced p; homestead := homestead p |}.
Definition put_locals (p : TxPool) x j := {|
  config := config p; chainconfig := chainconfig p; gasPrice := gasPrice p; signer := signer p;
  currentState := currentState p; pendingState := pendingState p; currentMaxGas := currentMaxGas p;
  locals := x; journal := j; pending := pending p; queue := queue p; beats := beats p; all := all p;
  priced := priced p; homestead := homestead p |}.
Definition put_gasPrice (p : TxPool) x := {|
  config := config p; chainconfig := chainconfig p; gasPrice := x; signer := signer p;
  currentState := currentState p; pendingState := pendingState p; currentMaxGas := currentMaxGas p;
  locals := locals p; journal := journal p; pending := pending p; queue := queue p; beats := beats p; all := all p;
  priced := priced p; homestead := homestead p |}.

Definition put_homestead (p : TxPool) x := {|
  config := config p; chainconfig := chainconfig p; gasPrice := gasPrice p; signer := signer p;
  currentState := currentState p; pendingState := pendingState p; currentMaxGas := currentMaxGas p;
  locals := locals p; journal := journal p; pending := pending p; queue := queue p; beats := beats p; all := all p;
  priced := priced p; homestead := x |}.

Definition put_nonce (p : TxPool) (addr : Address) (nonce : Z) : TxPool :=
  put_state p (currentState p) (ms_SetNonce (pendingState p) addr nonce) (currentMaxGas p).

(** Reads load objects into the two states; what they return does not change,
    and the loaded objects are not kept here. *)
Definition cur_nonce (p : TxPool) (a : Address) : Z := (GetNonce (currentState p) a).1.
Definition cur_balance (p : TxPool) (a : Address) : Z := (GetBalance (currentState p) a).1.
Definition cur_stake (p : TxPool) (a : Address) : Z := (GetStakeBalance (currentState p) a).1.
Definition pend_nonce (p : TxPool) (a : Address) : Z := nonce_of (pendingState p) a.

(** [from, _ := types.Sender]: the zero address when there is an error. *)
Definition sender (p : TxPool) (tx : txdata) : result Address :=
  match Signer_Sender (signer p) tx with
  | Err _ => Ok zeroAddress
  | r => r
  end.

(** [all.Remove] and [priced.Removed]. *)
Definition forget (p : TxPool) (tx : txdata) : TxPool :=
  let p := put_all p (delete (Tx_Hash tx) (all p)) in
  put_priced p (priced_Removed (all p) (priced p)).

(** [all.Add] and [priced.Put]. *)
Definition remember (p : TxPool) (tx : txdata) : TxPool :=
  let p := put_all p (<[Tx_Hash tx := tx]> (all p)) in
  put_priced p (priced_Put (priced p) tx).

Definition remember_new (p : TxPool) (tx : txdata) : TxPool :=
  match all p !! Tx_Hash tx with Some _ => p | None => remember p tx end.

Definition forget_old (p : TxPool) (old : option txdata) : TxPool :=
  match old with Some o => forget p o | None => p end.

(** ** Validation *)

Definition ErrInvalidSender : string := "invalid sender".
Definition ErrUnderpriced : string := "transaction underpriced".
Definition ErrReplaceUnderpriced : string := "replacement transaction underpriced".
Definition ErrInsufficientFunds : string := "insufficient funds for gas * price + value".
Definition ErrIntrinsicGas : string := "intrinsic gas too low".
Definition ErrGasLimit : string := "exceeds block gas limit".
Definition ErrNegativeValue : string := "negative value".
Definition ErrOversizedData : string := "oversized data".
Definition ErrUnderStakeBalance : string := "insufficient transaction value".
Definition ErrExceedStakeLimit : string := "exceeds stake balance limit".

Definition Tx_Size (tx : txdata) : Z := Z.of_nat (length (rlp_encode (RList (Tx_fields tx)))).

Definition CheckStakeBalanceAmount (totalStakingAmount maximum : Z) : bool := totalStakingAmount <=? maximum.

Definition check (b : bool) (e : string) : result unit := if b then Err e else Ok ().

(** The recipient of a staking transaction is the sender; a creation has none,
    and [tx.To().Bytes()] dereferences a nil pointer. *)
Definition check_receiver (tx : txdata) (from : Address) : result unit :=
  if (Base tx =? Stake) || (Target tx =? Stake) then
    match Recipient tx with
    | None => nil_deref
    | Some to => check (negb (bool_decide (to = from))) ErrInvalidStakeReceiver
    end
  else Ok ().

(** The balance must cover value and fee, or the fee of an unstaking
    transaction. *)
Definition check_funds (p : TxPool) (tx : txdata) (from : Address) : result unit :=
  let* _ := check ((Base tx =? Main) && (cur_balance p from <? Cost tx)) ErrInsufficientFunds in
  check ((Base tx =? Stake) && (cur_balance p from <? MainFee tx)) ErrInsufficientFunds.

(** [*big.Int] fields of the configuration are used only where the rules
    apply. *)
Definition check_stake (p : TxPool) (current : option Z) (tx : txdata) (from : Address) : result unit :=
  match Bsrr (chainconfig p) with
  | None => nil_deref
  | Some bsrr =>
      let* _ :=
        if (Base tx =? Main) && (Target tx =? Stake) then
          match StakeMinimum bsrr with
          | None => nil_deref
          | Some minimum => check (Amount tx + cur_stake p from <? minimum) ErrUnderStakeBalance
          end
        else Ok () in
      if IsBIP4 (chainconfig p) current && (Target tx =? Stake) then
        match Recipient tx, LimitStakeBalance bsrr with
        | Some to, Some limit =>
            check (negb (CheckStakeBalanceAmount (Amount tx + cur_stake p to) limit)) ErrExceedStakeLimit
        | _, _ => nil_deref
        end
      else Ok ()
  end.

(** [current] is the number of the head of the chain. *)
Definition validateTx (p : TxPool) (current : option Z) (tx : txdata) (local : bool) : result unit :=
  let* _ := check (32 * 1024 <? Tx_Size tx) ErrOversizedData in
  let* _ := check (Amount tx <? 0) ErrNegativeValue in
  let* _ := check (currentMaxGas p <? TxGasLimit tx) ErrGasLimit in
  let* from :=
    match Signer_Sender (signer p) tx with Err _ => Err ErrInvalidSender | r => r end in
  let local := local || contains (locals p) from in
  let* _ := check (negb local && (Price tx <? gasPrice p)) ErrUnderpriced in
  let* _ := check (AccountNonce tx <? cur_nonce p from) ErrNonceTooLow in
  let* _ := match ValidateJobWallet (Base tx) (Target tx) with Some e => Err e | None => Ok () end in
  let* _ := check_receiver tx from in
  let* _ := check_funds p tx from in
  let* intrGas := IntrinsicGas (Payload tx) (match Recipient tx with None => true | Some _ => false end) (homestead p) in
  let* _ := check (TxGasLimit tx <? intrGas) ErrIntrinsicGas in
  check_stake p current tx from.

(** ** The queue and the pending lists *)

(** The error, and whether another transaction was replaced. *)
Definition enqueueTx (p : TxPool) (tx : txdata) : result (option string * bool * TxPool) :=
  let* from := sender p tx in
  let '(inserted, old, l) := l_Add (default (newTxList false) (queue p !! from)) tx (PriceBump (config p)) in
  let p := put_queue p (<[from := l]> (queue p)) in
  if negb inserted then Ok (Some ErrReplaceUnderpriced, false, p)
  else Ok (None, match old with Some _ => true | None => false end, remember_new (forget_old p old) tx).

Definition journalTx (p : TxPool) (from : Address) (tx : txdata) : TxPool :=
  match journal p with
  | None => p
  | Some j => if contains (locals p) from then put_locals p (locals p) (Some (j ++ [tx])) else p
  end.

Section Time.
Context (now : Z).

Definition promoteTx (p : TxPool) (addr : Address) (tx : txdata) : bool * TxPool :=
  let '(inserted, old, l) := l_Add (default (newTxList true) (pending p !! addr)) tx (PriceBump (config p)) in
  let p := put_pending p (<[addr := l]> (pending p)) in
  if negb inserted then (false, forget p tx)
  else
    let p := remember_new (forget_old p old) tx in
    let p := put_beats p (<[addr := now]> (beats p)) in
    (true, put_nonce p addr (u64 (AccountNonce tx + 1))).

Fixpoint enqueue_all (p : TxPool) (l : list txdata) : result TxPool :=
  match l with
  | [] => Ok p
  | tx :: l => let* (_, _, p) := enqueueTx p tx in enqueue_all p l
  end.

Definition lower_nonce (p : TxPool) (addr : Address) (nonce : Z) : TxPool :=
  if nonce <? pend_nonce p addr then put_nonce p addr nonce else p.

Definition remove_queued (p : TxPool) (addr : Address) (tx : txdata) : TxPool :=
  match queue p !! addr with
  | None => p
  | Some future =>
      let '(_, _, future) := l_Remove future tx in
      put_queue p (if l_Empty future then delete addr (queue p) else <[addr := future]> (queue p))
  end.

Definition removeTx (p : TxPool) (hash : Hash) (outofbound : bool) : result TxPool :=
  match all p !! hash with
  | None => Ok p
  | Some tx =>
      let* addr := sender p tx in
      let p := put_all p (delete hash (all p)) in
      let p := if outofbound then put_priced p (priced_Removed (all p) (priced p)) else p in
      match pending p !! addr with
      | None => Ok (remove_queued p addr tx)
      | Some l =>
          let '(removed, invalids, l) := l_Remove l tx in
          if removed : bool then
            let p :=
              if l_Empty l then put_beats (put_pending p (delete addr (pending p))) (delete addr (beats p))
              else put_pending p (<[addr := l]> (pending p)) in
            let* p := enqueue_all p invalids in
            Ok (lower_nonce p addr (AccountNonce tx))
          else Ok (remove_queued p addr tx)
      end
  end.

Fixpoint remove_all (p : TxPool) (l : list txdata) (outofbound : bool) : result TxPool :=
  match l with
  | [] => Ok p
  | tx :: l => let* p := removeTx p (Tx_Hash tx) outofbound in remove_all p l outofbound
  end.

(** ** Promotion *)

Definition forget_all (p : TxPool) (l : list txdata) : TxPool := foldl forget p l.

Fixpoint promote_all (p : TxPool) (addr : Address) (l : list txdata) : TxPool :=
  match l with
  | [] => p
  | tx :: l => promote_all (promoteTx p addr tx).2 addr l
  end.

(** One account: old and unpayable transactions go, executable ones are
    promoted, the rest is limited. *)
Definition promote_account (p : TxPool) (addr : Address) : result TxPool :=
  match queue p !! addr with
  | None => Ok p
  | Some l =>
      let* (old, l) := l_Forward l (cur_nonce p addr) in
      let p := forget_all p old in
      let '(drops, _, l) := l_Filter l (cur_balance p addr) (currentMaxGas p) in
      let p := forget_all p drops in
      let* (ready, l) := l_Ready l (pend_nonce p addr) in
      let p := promote_all p addr ready in
      let* (over, l) :=
        if contains (locals p) addr then Ok ([], l) else l_Cap l (i64 (AccountQueue (config p))) in
      let p := forget_all p over in
      Ok (put_queue p (if l_Empty l then delete addr (queue p) else <[addr := l]> (queue p)))
  end.

Fixpoint promote_accounts (p : TxPool) (accounts : list Address) : result TxPool :=
  match accounts with
  | [] => Ok p
  | a :: l => let* p := promote_account p a in promote_accounts p l
  end.

(** *** The limit of the pending transactions *)

Definition count (lists : gmap Address txList) : Z :=
  foldl (λ n a, u64 (n + match lists !! a with Some l => u64 (l_Len l) | None => 0 end)) 0 (range (dom lists)).

(** [prque.Less]: the greater priority first.  It compares the difference of two
    lengths with zero, which does not overflow. *)
Definition more_first (a b : Address * Z) : bool := b.2 <? a.2.

Definition spammers (p : TxPool) : list (Address * Z) :=
  foldl (λ h a,
    match pending p !! a with
    | Some l => if negb (contains (locals p) a) && (AccountSlots (config p) <? u64 (l_Len l))
                then heap_Push more_first h (a, i64 (l_Len l)) else h
    | None => h
    end) [] (range (dom (pending p))).

Definition pending_list (p : TxPool) (addr : Address) : result txList :=
  match pending p !! addr with Some l => Ok l | None => nil_deref end.

(** The last transaction of an account is dropped. *)
Definition drop_last (p : TxPool) (addr : Address) : result TxPool :=
  let* l := pending_list p addr in
  let* (drops, l) := l_Cap l (l_Len l - 1) in
  let p := put_pending p (<[addr := l]> (pending p)) in
  Ok (foldl (λ p tx, lower_nonce (forget p tx) addr (AccountNonce tx)) p drops).

Fixpoint drop_each (p : TxPool) (offenders : list Address) (n : Z) : result (TxPool * Z) :=
  match offenders with
  | [] => Ok (p, n)
  | a :: l => let* p := drop_last p a in drop_each p l (u64 (n - 1))
  end.

(** While there are too many and [addr] has more than [threshold], each of
    [offenders] loses one. *)
Fixpoint reduce (fuel : nat) (p : TxPool) (offenders : list Address) (addr : Address) (threshold n : Z)
  : result (TxPool * Z) :=
  if GlobalSlots (config p) <? n then
    let* l := pending_list p addr in
    if threshold <? u64 (l_Len l) then
      match fuel with
      | O => Hang
      | S fuel => let* (p, n) := drop_each p offenders n in reduce fuel p offenders addr threshold n
      end
    else Ok (p, n)
  else Ok (p, n).

Definition reduce_fuel (p : TxPool) (addr : Address) : nat :=
  match pending p !! addr with Some l => Z.to_nat (l_Len l) | None => 0 end.

(** The greatest account still in the queue of spammers joins the offenders,
    which come down to its length. *)
Fixpoint equalize (fuel : nat) (p : TxPool) (h : list (Address * Z)) (offenders : list Address) (n : Z)
  : result (TxPool * list Address * Z) :=
  match fuel with
  | O => Ok (p, offenders, n)
  | S fuel =>
      if GlobalSlots (config p) <? n then
        match heap_Pop more_first h with
        | None => Ok (p, offenders, n)
        | Some ((offender, _), h) =>
            let* (p, n) :=
              match last offenders with
              | None => Ok (p, n)
              | Some prev =>
                  let* l := pending_list p offender in
                  reduce (reduce_fuel p prev) p offenders prev (l_Len l) n
              end in
            equalize fuel p h (offenders ++ [offender]) n
        end
      else Ok (p, offenders, n)
  end.

Definition limit_pending (p : TxPool) : result TxPool :=
  let n := count (pending p) in
  if GlobalSlots (config p) <? n then
    let h := spammers p in
    let* (p, offenders, n) := equalize (length h) p h [] n in
    match last offenders with
    | Some addr =>
        let* (p, _) := reduce (reduce_fuel p addr) p offenders addr (AccountSlots (config p)) n in Ok p
    | None => Ok p
    end
  else Ok p.

(** *** The limit of the queued transactions *)

(** [addressesByHeartbeat]; how [sort.Sort] orders equal times is open, as is
    the order of the addresses before. *)
Definition beat (p : TxPool) (a : Address) : Z := default 0 (beats p !! a).

Definition beat_le (p : TxPool) (a b : Address) : Prop := beat p a ≤ beat p b.

#[local] Instance beat_le_dec p : RelDecision (beat_le p) := λ a b, Z_le_dec (beat p a) (beat p b).

Definition by_heartbeat (p : TxPool) : list Address :=
  merge_sort (beat_le p) (filter (λ a, contains (locals p) a = false) (range (dom (queue p)))).

(** The length of a queued list, and [Flatten] of it, which caches the result. *)
Definition flatten_queued (p : TxPool) (addr : Address) : result (Z * list txdata * TxPool) :=
  match queue p !! addr with
  | None => nil_deref
  | Some l => let '(c, l') := l_Flatten l in Ok (u64 (l_Len l), c, put_queue p (<[addr := l']> (queue p)))
  end.

(** The accounts with the latest heartbeat first. *)
Fixpoint drop_queued (p : TxPool) (latest_first : list Address) (drop : Z) : result TxPool :=
  match latest_first with
  | [] => Ok p
  | addr :: l =>
      if 0 <? drop then
        let* (size, c, p) := flatten_queued p addr in
        if size <=? drop then
          let* p := remove_all p c true in drop_queued p l (u64 (drop - size))
        else remove_all p (take (Z.to_nat drop) (reverse c)) true
      else Ok p
  end.

Definition limit_queue (p : TxPool) : result TxPool :=
  let n := count (queue p) in
  if GlobalQueue (config p) <? n then
    drop_queued p (reverse (by_heartbeat p)) (u64 (n - GlobalQueue (config p)))
  else Ok p.

(** [accounts == nil] stands for all accounts of the queue. *)
Definition promoteExecutables (p : TxPool) (accounts : option (list Address)) : result TxPool :=
  let accounts := match accounts with Some l => l | None => range (dom (queue p)) end in
  let* p := promote_accounts p accounts in
  let* p := limit_pending p in
  limit_queue p.

(** ** Demotion *)

(** Each dropped or demoted transaction is printed with its recipient, which a
    creation does not have. *)
Definition print_to (tx : txdata) : result unit :=
  match Recipient tx with Some _ => Ok () | None => nil_deref end.

Fixpoint forget_printed (p : TxPool) (l : list txdata) : result TxPool :=
  match l with
  | [] => Ok p
  | tx :: l => let* _ := print_to tx in forget_printed (forget p tx) l
  end.

Fixpoint enqueue_printed (p : TxPool) (l : list txdata) : result TxPool :=
  match l with
  | [] => Ok p
  | tx :: l =>
      let* _ := print_to tx in
      let* (_, _, p) := enqueueTx p tx in enqueue_printed p l
  end.

Definition demote_account (p : TxPool) (addr : Address) : result TxPool :=
  match pending p !! addr with
  | None => Ok p
  | Some l =>
      let nonce := cur_nonce p addr in
      let* (old, l) := l_Forward l nonce in
      let p := forget_all p old in
      let '(drops, invalids, l) := l_Filter l (cur_balance p addr) (currentMaxGas p) in
      let* p := forget_printed p drops in
      let* p := enqueue_printed p invalids in
      let* (gapped, l) :=
        if (0 <? l_Len l) && match sm_Get (txs l) nonce with None => true | Some _ => false end
        then l_Cap l 0 else Ok ([], l) in
      let* p := enqueue_all p gapped in
      Ok (if l_Empty l then put_beats (put_pending p (delete addr (pending p))) (delete addr (beats p))
          else put_pending p (<[addr := l]> (pending p)))
  end.

Fixpoint demote_accounts (p : TxPool) (accounts : list Address) : result TxPool :=
  match accounts with
  | [] => Ok p
  | a :: l => let* p := demote_account p a in demote_accounts p l
  end.

Definition demoteUnexecutables (p : TxPool) : result TxPool := demote_accounts p (range (dom (pending p))).

(** ** Adding transactions *)

Section Chain.
Context (chain : ChainReader StateDB).

Definition current_number : result (option Z) :=
  match CurrentHeader chain with Some h => Ok (Number h) | None => nil_deref end.

(** A full pool makes room for a transaction that is not underpriced. *)
Definition make_room (p : TxPool) (tx : txdata) (local : bool) : result (option string * TxPool) :=
  let limit := u64 (GlobalSlots (config p) + GlobalQueue (config p)) in
  let n := Z.of_nat (size (all p)) in
  if limit <=? n then
    let* (under, p) :=
      if local then Ok (false, p)
      else let* (b, l) := Underpriced (all p) (locals p) (priced p) tx in Ok (b, put_priced p l) in
    if under : bool then Ok (Some ErrUnderpriced, p)
    else
      let* (drop, l) := Discard (all p) (locals p) (priced p) (n - i64 (u64 (limit - 1))) in
      let* p := remove_all (put_priced p l) drop false in
      Ok (None, p)
  else Ok (None, p).

(** A transaction that replaces no pending one. *)
Definition enqueue_new (p : TxPool) (tx : txdata) (from : Address) (local : bool)
  : result (option string * bool * TxPool) :=
  let* (err, replace, p) := enqueueTx p tx in
  match err with
  | Some e => Ok (Some e, false, p)
  | None =>
      let p := if local then put_locals p (as_add (locals p) from) (journal p) else p in
      Ok (None, replace, journalTx p from tx)
  end.

(** The error, and whether a transaction was replaced.  The text of the first
    error has the hash. *)
Definition add (p : TxPool) (tx : txdata) (local : bool) : result (option string * bool * TxPool) :=
  match all p !! Tx_Hash tx with
  | Some _ => Ok (Some "known transaction"%string, false, p)
  | None =>
      let* current := current_number in
      match validateTx p current tx local with
      | Err e => Ok (Some e, false, p)
      | Panic w => Panic w
      | Hang => Hang
      | Ok _ =>
          let* (err, p) := make_room p tx local in
          match err with
          | Some e => Ok (Some e, false, p)
          | None =>
              let* from := sender p tx in
              match pending p !! from with
              | Some l =>
                  if Overlaps l tx then
                    let '(inserted, old, l) := l_Add l tx (PriceBump (config p)) in
                    if negb inserted then Ok (Some ErrReplaceUnderpriced, false, p)
                    else
                      let p := put_pending p (<[from := l]> (pending p)) in
                      let p := remember (forget_old p old) tx in
                      Ok (None, match old with Some _ => true | None => false end, journalTx p from tx)
                  else enqueue_new p tx from local
              | None => enqueue_new p tx from local
              end
          end
      end
  end.

Definition addTx (p : TxPool) (tx : txdata) (local : bool) : result (option string * TxPool) :=
  let* (err, replace, p) := add p tx local in
  match err with
  | Some e => Ok (Some e, p)
  | None =>
      if negb replace then
        let* from := sender p tx in
        let* p := promoteExecutables p (Some [from]) in Ok (None, p)
      else Ok (None, p)
  end.

(** The errors, and the accounts with a new transaction. *)
Fixpoint add_each (p : TxPool) (l : list txdata) (local : bool) (errs : list (option string)) (dirty : gset Address)
  : result (list (option string) * gset Address * TxPool) :=
  match l with
  | [] => Ok (errs, dirty, p)
  | tx :: l =>
      let* (err, replace, p) := add p tx local in
      let* dirty :=
        match err, replace with
        | None, false => let* from := sender p tx in Ok ({[ from ]} ∪ dirty)
        | _, _ => Ok dirty
        end in
      add_each p l local (errs ++ [err]) dirty
  end.

Definition addTxsLocked (p : TxPool) (l : list txdata) (local : bool) : result (list (option string) * TxPool) :=
  let* (errs, dirty, p) := add_each p l local [] ∅ in
  if bool_decide (dirty = ∅) then Ok (errs, p)
  else let* p := promoteExecutables p (Some (range dirty)) in Ok (errs, p).

Definition AddLocal (p : TxPool) (tx : txdata) := addTx p tx (negb (NoLocals (config p))).
Definition AddRemote (p : TxPool) (tx : txdata) := addTx p tx false.
Definition AddLocals (p : TxPool) (l : list txdata) := addTxsLocked p l (negb (NoLocals (config p))).
Definition AddRemotes (p : TxPool) (l : list txdata) := addTxsLocked p l false.

(** ** The price *)

Definition SetGasPrice (p : TxPool) (price : Z) : result TxPool :=
  let p := put_gasPrice p price in
  let* (drop, l) := priced_Cap (all p) (locals p) (priced p) price in
  remove_all (put_priced p l) drop false.

(** ** A new head *)

(** [NumberU64]. *)
Definition block_num (b : Block) : Z := big_Uint64 (num (block_header b)).

Definition parent_block (b : Block) : option Block :=
  GetBlock chain (ParentHash (block_header b)) (u64 (block_num b - 1)).

(** The transactions of a block and its ancestors down to the number [n], and
    the block there; [None] when the chain is not rooted. *)
Fixpoint walk_down (fuel : nat) (b : Block) (n : Z) (l : list txdata) : result (option (Block * list txdata)) :=
  if n <? block_num b then
    match fuel with
    | O => Hang
    | S fuel =>
        match parent_block b with
        | None => Ok None
        | Some b' => walk_down fuel b' n (l ++ block_transactions b)
        end
    end
  else Ok (Some (b, l)).

Fixpoint walk_both (fuel : nat) (rem add : Block) (discarded included : list txdata)
  : result (option (list txdata * list txdata)) :=
  if bool_decide (Header_Hash (block_header rem) = Header_Hash (block_header add)) then Ok (Some (discarded, included))
  else
    match fuel with
    | O => Hang
    | S fuel =>
        match parent_block rem with
        | None => Ok None
        | Some rem' =>
            match parent_block add with
            | None => Ok None
            | Some add' =>
                walk_both fuel rem' add' (discarded ++ block_transactions rem) (included ++ block_transactions add)
            end
        end
    end.

(** [uint64(math.Abs(float64(a) - float64(b)))]. *)
Definition reorg_depth (a b : Z) : Z :=
  match f64_sub (f64_of_Z a) (f64_of_Z b) with
  | S754_finite _ m e => u64 (mag_floor m e)
  | _ => 0
  end.

(** The transactions of the old branch that are not in the new one; [None]
    when a branch is not rooted. *)
Definition reinjected (oldHead newHead : Header) : result (option (list txdata)) :=
  let oldNum := big_Uint64 (num oldHead) in
  let newNum := big_Uint64 (num newHead) in
  if 64 <? reorg_depth oldNum newNum then Ok (Some [])
  else
    match GetBlock chain (Header_Hash oldHead) oldNum, GetBlock chain (Header_Hash newHead) newNum with
    | Some rem, Some add =>
        let* r := walk_down (Z.to_nat (block_num rem)) rem (block_num add) [] in
        match r with
        | None => Ok None
        | Some (rem, discarded) =>
            let* r := walk_down (Z.to_nat (block_num add)) add (block_num rem) [] in
            match r with
            | None => Ok None
            | Some (add, included) =>
                let* r := walk_both (S (Z.to_nat (block_num rem))) rem add discarded included in
                Ok ((λ '(d, i), TxDifference d i) <$> r)
            end
        end
    | _, _ => nil_deref
    end.

(** The nonces after the last pending transactions. *)
Fixpoint update_nonces (p : TxPool) (accounts : list Address) : result TxPool :=
  match accounts with
  | [] => Ok p
  | a :: rest =>
      match pending p !! a with
      | None => update_nonces p rest
      | Some l =>
          let '(c, l) := l_Flatten l in
          let p := put_pending p (<[a := l]> (pending p)) in
          match last c with
          | None => Panic "index out of range"
          | Some tx => update_nonces (put_nonce p a (u64 (AccountNonce tx + 1))) rest
          end
      end
  end.

(** The pool on a state: transactions that became invalid go, others move. *)
Definition reset_to (p : TxPool) (s : StateDB) (gasLimit : Z) (reinject : list txdata) : result TxPool :=
  let* ms := ManageState s in
  let p := put_state p s ms gasLimit in
  let* (_, p) := addTxsLocked p reinject false in
  let* p := demoteUnexecutables p in
  let* p := update_nonces p (range (dom (pending p))) in
  promoteExecutables p None.

Definition reset (p : TxPool) (oldHead : option Header) (newHead : Header) : result TxPool :=
  let* reinject :=
    match oldHead with
    | Some old =>
        if bool_decide (Header_Hash old = ParentHash newHead) then Ok (Some [])
        else reinjected old newHead
    | None => Ok (Some [])
    end in
  match reinject with
  | None => Ok p
  | Some reinject =>
      match StateAt chain (Root newHead) with
      | Ok s => reset_to p s (GasLimit newHead) reinject
      | Err _ => Ok p
      | Panic w => Panic w
      | Hang => Hang
      end
  end.

(** ** Eviction *)

Definition max_duration : Z := two63 - 1.

Fixpoint evict (p : TxPool) (accounts : list Address) : result TxPool :=
  match accounts with
  | [] => Ok p
  | a :: rest =>
      if contains (locals p) a then evict p rest
      else if Lifetime (config p) <? Z.min (now - beat p a) max_duration then
        match queue p !! a with
        | None => evict p rest
        | Some _ => let* (_, c, p) := flatten_queued p a in let* p := remove_all p c true in evict p rest
        end
      else evict p rest
  end.

Definition evict_tick (p : TxPool) : result TxPool := evict p (range (dom (queue p))).
End Chain.
End Time.

(** ** Reading *)

Definition total (lists : gmap Address txList) : Z :=
  foldl (λ n a, n + match lists !! a with Some l => l_Len l | None => 0 end) 0 (range (dom lists)).

Definition stats (p : TxPool) : Z * Z := (total (pending p), total (queue p)).

Definition Pending (p : TxPool) : gmap Address (list txdata) := (λ l, (l_Flatten l).1) <$> pending p.

Definition Content (p : TxPool) : gmap Address (list txdata) * gmap Address (list txdata) :=
  (Pending p, (λ l, (l_Flatten l).1) <$> queue p).

(** The transactions of local accounts, for the journal.  That the lists keep
    what [Flatten] returns is left out of the operations that only read. *)
Definition local (p : TxPool) : gmap Address (list txdata) :=
  let flat (lists : gmap Address txList) a := match lists !! a with Some l => (l_Flatten l).1 | None => [] end in
  set_to_map (λ a, (a, flat (pending p) a ++ flat (queue p) a)) (accounts (locals p) ∩ (dom (pending p) ∪ dom (queue p))).

Inductive TxStatus := TxStatusUnknown | TxStatusQueued | TxStatusPending.

Definition Status (p : TxPool) (hash : Hash) : result TxStatus :=
  match all p !! hash with
  | None => Ok TxStatusUnknown
  | Some tx =>
      let* from := sender p tx in
      Ok (match pending p !! from with
          | Some l => if Overlaps l tx then TxStatusPending else TxStatusQueued
          | None => TxStatusQueued
          end)
  end.

(** ** The journal ([tx_journal.go]) and the life of the pool *)

(** [rotate]: the journal is written anew with the transactions of the local
    accounts.  Files are left out; writing succeeds. *)
Definition rotate (p : TxPool) : TxPool :=
  put_locals p (locals p) (Some (range (dom (local p)) ≫= λ a, default [] (local p !! a))).

(** [load]: batches of more than 1024 transactions, and the rest.  What the
    batches add is not written to the journal. *)
Fixpoint load (now : Z) (chain : ChainReader StateDB) (p : TxPool) (stored batch : list txdata) : result TxPool :=
  match stored with
  | [] => if (0 <? length batch)%nat then let* (_, p) := AddLocals now chain p batch in Ok p else Ok p
  | tx :: stored =>
      let batch := batch ++ [tx] in
      if (1024 <? length batch)%nat then let* (_, p) := AddLocals now chain p batch in load now chain p stored []
      else load now chain p stored batch
  end.

(** The pool is reset to the head before anything reads its states.  [stored] are
    the transactions of the journal that can be decoded.  A pool whose head has
    no state is left out. *)
Definition NewTxPool (now : Z) (chain : ChainReader StateDB) (c : TxPoolConfig) (cc : ChainConfig) (head : Header) (stored : list txdata)
  : result TxPool :=
  let c := sanitize c in
  let sg := EIP155Signer (default 0 (ChainID cc)) in
  let* s := StateAt chain (Root head) in
  let* ms := ManageState s in
  let p := {|
    config := c; chainconfig := cc; gasPrice := PriceLimit c; signer := sg;
    currentState := s; pendingState := ms; currentMaxGas := 0;
    locals := foldl as_add {| accounts := ∅; as_signer := sg |} (Locals c); journal := None;
    pending := ∅; queue := ∅; beats := ∅; all := ∅; priced := newTxPricedList; homestead := false |} in
  let* p := reset_to now chain p s (GasLimit head) [] in
  if negb (NoLocals c) && negb (bool_decide (Journal c = ""%string)) then
    let* p := load now chain p stored [] in Ok (rotate p)
  else Ok p.

(** The event loop on a new head. *)
Definition on_head (now : Z) (chain : ChainReader StateDB) (p : TxPool) (old new : Header) : result TxPool :=
  let p := if IsHomestead (chainconfig p) (Number new) then put_homestead p true else p in
  reset now chain p (Some old) new.

(** What happens to the pool; each holds its lock. *)
Inductive event :=
  | AddOne (tx : txdata) (local : bool)
  | AddMany (l : list txdata) (local : bool)
  | PriceSet (price : Z)
  | NewHead (old new : Header)
  | EvictTick
  | JournalTick.

Definition handle (now : Z) (chain : ChainReader StateDB) (p : TxPool) (e : event) : result TxPool :=
  match e with
  | AddOne tx local => let* (_, p) := addTx now chain p tx local in Ok p
  | AddMany l local => let* (_, p) := addTxsLocked now chain p l local in Ok p
  | PriceSet price => SetGasPrice p price
  | NewHead old new => on_head now chain p old new
  | EvictTick => evict_tick now p
  | JournalTick => Ok match journal p with Some _ => rotate p | None => p end
  end.
End TxPool.
