(* ===== verification/TxPoolBase.v ===== *)
(** * The transaction pool: what it holds

    Every transaction of the pool is pending or queued, in the list of its
    sender and under its nonce, is found by its hash and is on the heap of
    prices; all operations keep it so. *)

From Stdlib Require Import ZArith Lia.
From stdpp Require Import base option list gmap sets strings sorting.
From S2P Require Import Prelude Params Rlp Types Account State StateRevert Chain Transition.
From S2P Require Import Heap TxList TxListProps ManagedState TxPool.

#[export] Instance price_less_order : WeakOrder price_less.
Proof.
  split.
  - intros x y. unfold price_less. rewrite (Z.compare_antisym (Price x) (Price y)).
    destruct (Z.compare_spec (Price x) (Price y)); simpl; try done. rewrite Z.ltb_lt, Z.ltb_ge. lia.
  - intros x y z. unfold price_less.
    destruct (Z.compare_spec (Price y) (Price x)), (Z.compare_spec (Price z) (Price y)), (Z.compare_spec (Price z) (Price x));
      rewrite ?Z.ltb_ge; intros; try done; lia.
Qed.

(** The transactions in play: the nonce after theirs is a 64-bit integer, and
    their hashes differ. *)
Class TxWorld {C : Crypto} (T : txdata → Prop) : Prop := {
  T_nonce tx : T tx → 0 ≤ AccountNonce tx < maxUint64;
  T_inj tx tx' : T tx → T tx' → Tx_Hash tx = Tx_Hash tx' → tx = tx'
}.

Section Base.
Context {C : Crypto} {D : Database} {MO : MapOrder} {NO : NonceOrder}.

Context (T : txdata → Prop) {W : TxWorld T}.

(** Transactions that left the heap of prices and are about to leave the pool. *)
Context (U : txdata → Prop).

Lemma T_u64 tx : T tx → is_u64 (AccountNonce tx).
Proof using W. intros H. apply T_nonce in H. unfold is_u64, maxUint64 in *. lia. Qed.

Definition content (m : gmap Address txList) (a : Address) : gmap Z txdata :=
  match m !! a with Some l => held l | None => ∅ end.

Definition in_pool (p : TxPool) (a : Address) (tx : txdata) : Prop :=
  content (pending p) a !! AccountNonce tx = Some tx ∨ content (queue p) a !! AccountNonce tx = Some tx.

Definition lists_ok (b : bool) (sg : Signer) (m : gmap Address txList) : Prop :=
  ∀ a l, m !! a = Some l → list_ok l ∧ strict l = b ∧
    ∀ k tx, held l !! k = Some tx → T tx ∧ Signer_Sender sg tx = Ok a.

(** [extra] are transactions on their way between the lists or out of the
    pool. *)
Record pool_ok (extra : list txdata) (p : TxPool) : Prop := {
  pk_pending : lists_ok true (signer p) (pending p);
  pk_queue : lists_ok false (signer p) (queue p);
  pk_apart : ∀ a, content (pending p) a ##ₘ content (queue p) a;
  pk_extra : ∀ tx, tx ∈ extra → (T tx ∧ 0 ≤ Amount tx) ∧ ∀ a, ¬ in_pool p a tx;
  pk_nodup : NoDup extra;
  pk_all : ∀ h tx, all p !! h = Some tx ↔ Tx_Hash tx = h ∧ (tx ∈ extra ∨ ∃ a, in_pool p a tx);
  pk_heap : is_heap price_less (prices (priced p));
  pk_prices : ∀ h tx, all p !! h = Some tx → tx ∈ prices (priced p) ∨ U tx;
  pk_known : ∀ tx, tx ∈ prices (priced p) → T tx
}.

Lemma pool_ok_eq extra p p' :
  signer p' = signer p → pending p' = pending p → queue p' = queue p → all p' = all p → priced p' = priced p →
  pool_ok extra p → pool_ok extra p'.
Proof using.
  intros E1 E2 E3 E4 E5 [H1 H2 H3 H4 H5 H6 H7 H8 H9]. unfold in_pool in *.
  split; unfold in_pool; rewrite ?E1, ?E2, ?E3, ?E4, ?E5; done.
Qed.

Lemma content_ok b sg m a : lists_ok b sg m → by_nonce (content m a).
Proof using. intros H. unfold content. destruct (m !! a) as [l|] eqn:E; [apply (ok_nonces _ (lo_txs l (proj1 (H _ _ E))))|by intros ? ? ?]. Qed.

Lemma content_txs b sg m a k tx : lists_ok b sg m → content m a !! k = Some tx → (T tx ∧ 0 ≤ Amount tx) ∧ Signer_Sender sg tx = Ok a ∧ AccountNonce tx = k ∧ is_u64 k.
Proof using.
  intros H Hk. pose proof (content_ok b sg m a H _ _ Hk) as [? ?]. unfold content in Hk.
  destruct (m !! a) as [l|] eqn:E; [|done]. destruct (H _ _ E) as (Hl & _ & Ht). destruct (Ht _ _ Hk), (lo_caps l Hl _ _ Hk) as (? & _ & _). done.
Qed.

Lemma in_pool_ok extra p a tx :
  pool_ok extra p → in_pool p a tx → (T tx ∧ 0 ≤ Amount tx) ∧ Signer_Sender (signer p) tx = Ok a ∧ is_u64 (AccountNonce tx).
Proof using.
  intros Hp [H|H]; [destruct (content_txs _ _ _ _ _ _ (pk_pending _ _ Hp) H) as (? & ? & ? & ?)
                   |destruct (content_txs _ _ _ _ _ _ (pk_queue _ _ Hp) H) as (? & ? & ? & ?)]; done.
Qed.

Lemma all_T extra p h tx : pool_ok extra p → all p !! h = Some tx → T tx ∧ Tx_Hash tx = h.
Proof using.
  intros Hp H. apply (pk_all _ _ Hp) in H as [? [Hx|[a Ha]]]; split; try done; [by apply (pk_extra _ _ Hp)|].
  by destruct (in_pool_ok _ _ _ _ Hp Ha) as [[? _] _].
Qed.

(** ** The index by hash and by price *)

Lemma Removed_prices al l :
  is_heap price_less (prices l) → (∀ h tx, al !! h = Some tx → tx ∈ prices l ∨ U tx) →
  is_heap price_less (prices (priced_Removed al l)) ∧ ∀ h tx, al !! h = Some tx → tx ∈ prices (priced_Removed al l) ∨ U tx.
Proof using.
  intros Hh Hin. unfold priced_Removed. case_match; [done|]. simpl. split; [apply heap_Init_heap, _|].
  intros h tx Hlk. left. rewrite heap_Init_perm. unfold range_all. apply list_elem_of_omap. exists h. split; [|done].
  rewrite range_perm. apply elem_of_elements. by eapply elem_of_dom_2.
Qed.

Lemma Removed_known al l :
  (∀ tx, tx ∈ prices l → T tx) → (∀ h tx, al !! h = Some tx → T tx) → ∀ tx, tx ∈ prices (priced_Removed al l) → T tx.
Proof using.
  intros Hl Hal tx. unfold priced_Removed. case_match; [apply Hl|]. simpl. rewrite heap_Init_perm. unfold range_all.
  intros (h & _ & Hh)%list_elem_of_omap. by apply (Hal h).
Qed.

Lemma in_pool_put_all p x a tx : in_pool (put_all p x) a tx ↔ in_pool p a tx.
Proof using. done. Qed.

(** Removing a transaction on its way out from the index. *)
Lemma unindex_ok extra p tx b :
  pool_ok (tx :: extra) p →
  let p1 := put_all p (delete (Tx_Hash tx) (all p)) in
  pool_ok extra (if b : bool then put_priced p1 (priced_Removed (all p1) (priced p1)) else p1).
Proof using W.
  intros Hp p1. pose proof Hp as [H1 H2 H3 H4 H5 H6 H7 H8 H9]. apply NoDup_cons in H5 as [Hni Hnd].
  destruct (H4 tx) as [[HT _] Hout]; [by left|].
  assert (Hall : ∀ h tx', delete (Tx_Hash tx) (all p) !! h = Some tx' ↔ Tx_Hash tx' = h ∧ (tx' ∈ extra ∨ ∃ a, in_pool p a tx')).
  { intros h tx'. rewrite lookup_delete_Some, H6. split.
    - intros (Hne & <- & [[->|Hx]%elem_of_cons|Ha]); [done|split; [done|by left]|split; [done|by right]].
    - intros (<- & Hx). split; [|split; [done|destruct Hx; [left; by right|by right]]].
      intros E. assert (tx = tx') as <-.
      { apply T_inj; [done| |done]. destruct Hx as [Hx|[a Ha]]; [apply H4; by right|by apply (in_pool_ok _ _ _ _ Hp Ha)]. }
      destruct Hx as [Hx|[a Ha]]; [done|]. by apply (Hout a). }
  assert (Hpr : ∀ h tx', delete (Tx_Hash tx) (all p) !! h = Some tx' → tx' ∈ prices (priced p) ∨ U tx').
  { intros h tx' [_ H]%lookup_delete_Some. by eapply H8. }
  destruct (Removed_prices (delete (Tx_Hash tx) (all p)) (priced p) H7 Hpr) as [Hh' Hin'].
  destruct b; split; try done; try (intros tx' Hx; apply H4; by right).
  apply Removed_known; [done|]. intros h tx' H. simpl in H. apply lookup_delete_Some in H as [_ H]. by apply (all_T _ _ _ _ Hp H).
Qed.

Lemma forget_ok extra p tx : pool_ok (tx :: extra) p → pool_ok extra (forget p tx).
Proof using W. intros Hp. exact (unindex_ok extra p tx true Hp). Qed.

Lemma forget_all_ok extra p l : pool_ok (l ++ extra) p → pool_ok extra (forget_all p l).
Proof using W. revert p. induction l as [|tx l IH]; intros p Hp; [done|]. simpl. apply IH. by apply forget_ok. Qed.

(** A new transaction enters the index. *)
Lemma remember_ok extra p tx :
  pool_ok extra p → T tx → 0 ≤ Amount tx → all p !! Tx_Hash tx = None → pool_ok (tx :: extra) (remember p tx).
Proof using W.
  intros Hp HT HA Hn. pose proof Hp as [H1 H2 H3 H4 H5 H6 H7 H8 H9].
  assert (Hni : (tx ∉ extra) ∧ ∀ a, ¬ in_pool p a tx).
  { split; [intros Hx|intros a Ha]; assert (all p !! Tx_Hash tx = Some tx) by (apply H6; eauto); congruence. }
  unfold remember. split; try done.
  - intros tx' [->|Hx]%elem_of_cons; [split; [done|apply Hni]|by apply H4].
  - apply NoDup_cons. split; [apply Hni|done].
  - intros h tx'. simpl. rewrite lookup_insert_Some. split.
    + intros [[<- <-]|[Hne Hh]]; [split; [done|left; by left]|]. apply H6 in Hh as [? [Hx|Ha]]; split; try done; [left; by right|by right].
    + intros [<- [[->|Hx]%elem_of_cons|Ha]]; [by left| |].
      * right. assert (all p !! Tx_Hash tx' = Some tx') by (apply H6; eauto). split; [congruence|done].
      * right. assert (all p !! Tx_Hash tx' = Some tx') by (apply H6; eauto). split; [congruence|done].
  - exact (heap_Push_heap price_less _ _ H7).
  - intros h tx'. simpl. rewrite heap_Push_perm, lookup_insert_Some. intros [[_ <-]|[_ H]]; [left; by left|].
    destruct (H8 _ _ H) as [Hin|Hu]; [left; by right|by right].
  - intros tx'. simpl. rewrite heap_Push_perm. intros [->|Hx]%elem_of_cons; [done|by apply H9].
Qed.

(** ** Lists in the pool *)

(** A list is dropped when it is empty. *)
Definition set_list (m : gmap Address txList) (a : Address) (l : txList) : gmap Address txList :=
  if l_Empty l then delete a m else <[a := l]> m.

Lemma l_Empty_spec l : l_Empty l = true ↔ held l = ∅.
Proof using. unfold l_Empty, l_Len, sm_Len. rewrite Z.eqb_eq, <- map_size_empty_iff. lia. Qed.

Lemma content_insert m a l b : content (<[a := l]> m) b = if decide (b = a) then held l else content m b.
Proof using. unfold content. destruct (decide (b = a)) as [->|]; [by rewrite lookup_insert_eq|by rewrite lookup_insert_ne]. Qed.

Lemma content_delete m a b : content (delete a m) b = if decide (b = a) then ∅ else content m b.
Proof using. unfold content. destruct (decide (b = a)) as [->|]; [by rewrite lookup_delete_eq|by rewrite lookup_delete_ne]. Qed.

Lemma content_set_list m a l b : content (set_list m a l) b = if decide (b = a) then held l else content m b.
Proof using.
  unfold set_list. destruct (l_Empty l) eqn:E; [|apply content_insert]. rewrite content_delete. apply l_Empty_spec in E. by rewrite E.
Qed.

Lemma content_lookup (m : gmap Address txList) a l : m !! a = Some l → content m a = held l.
Proof using. unfold content. by intros ->. Qed.

Lemma lists_ok_insert b sg m a l :
  lists_ok b sg m → list_ok l → strict l = b → (∀ k tx, held l !! k = Some tx → T tx ∧ Signer_Sender sg tx = Ok a) →
  lists_ok b sg (<[a := l]> m).
Proof using. intros Hm Hl Hs Ht a' l' [[<- <-]|[_ Ha]]%lookup_insert_Some; [done|by apply Hm]. Qed.

Lemma lists_ok_delete b sg m a : lists_ok b sg m → lists_ok b sg (delete a m).
Proof using. intros Hm a' l' [_ Ha]%lookup_delete_Some. by apply Hm. Qed.

Lemma lists_ok_takes b sg m a l gone l' : lists_ok b sg m → m !! a = Some l → takes l gone l' → lists_ok b sg (<[a := l']> m).
Proof using.
  intros Hm Ha Ht. destruct (Hm _ _ Ha) as (Hl & Hs & Htx). apply lists_ok_insert; [done|apply Ht| |].
  - by rewrite (tk_strict _ _ _ Ht).
  - intros k tx Hk. apply (Htx k). eapply lookup_weaken; [done|apply Ht].
Qed.

Lemma lists_ok_set b sg m a l : lists_ok b sg (<[a := l]> m) → lists_ok b sg (set_list m a l).
Proof using.
  intros H. unfold set_list. destruct (l_Empty l); [|done]. intros a' l' [Hne Ha]%lookup_delete_Some. apply H.
  by rewrite lookup_insert_ne.
Qed.

(** *** Out of a list *)

(** The pools [p] and [p'] differ in the list of [a] only, which lost
    transactions. *)
Lemma out_of_list extra p p' gone :
  signer p' = signer p → all p' = all p → priced p' = priced p →
  lists_ok true (signer p) (pending p') → lists_ok false (signer p) (queue p') →
  (∀ b, content (pending p') b ⊆ content (pending p) b) → (∀ b, content (queue p') b ⊆ content (queue p) b) →
  NoDup gone → (∀ tx, tx ∈ gone ↔ (∃ b, in_pool p b tx) ∧ ∀ b, ¬ in_pool p' b tx) →
  pool_ok extra p → pool_ok (gone ++ extra) p'.
Proof using.
  intros E1 E2 E3 Hp' Hq' Sp Sq Hnd Hg Hp. pose proof Hp as [H1 H2 H3 H4 H5 H6 H7 H8 H9].
  assert (Hsub : ∀ b tx, in_pool p' b tx → in_pool p b tx).
  { intros b tx [H|H]; [left|right]; eapply lookup_weaken; eauto. }
  split; rewrite ?E1, ?E2, ?E3; try done.
  - intros b. eapply map_disjoint_weaken; [apply H3|apply Sp|apply Sq].
  - intros tx [Hx|Hx]%elem_of_app.
    + apply Hg in Hx as [[b Hb] Hout]. split; [by apply (in_pool_ok _ _ _ _ Hp Hb)|done].
    + destruct (H4 _ Hx) as [HT Hout]. split; [done|]. intros b Hb. by apply (Hout b), Hsub.
  - apply NoDup_app. split_and!; [done| |done]. intros tx [[b Hb] _]%Hg Hx. by apply (proj2 (H4 _ Hx) b).
  - intros h tx. rewrite H6. split.
    + intros [<- [Hx|[b Hb]]]; (split; [done|]); [left; apply elem_of_app; by right|].
      destruct (decide (tx ∈ gone)); [left; apply elem_of_app; by left|right].
      assert (Hin : ¬ ∀ b, ¬ in_pool p' b tx) by (intros Hn; apply n, Hg; eauto).
      destruct (in_pool_ok _ _ _ _ Hp Hb) as (_ & Hs & _).
      destruct (decide (in_pool p' b tx)) as [Hin'|Hnin]; [by exists b|]. destruct Hin. intros b' Hb'.
      assert (b' = b) as ->; [|done]. destruct (in_pool_ok _ _ _ _ Hp (Hsub _ _ Hb')) as (_ & Hs' & _). congruence.
    + intros [<- [[Hx|Hx]%elem_of_app|[b Hb]]]; (split; [done|]); [right; by apply Hg in Hx as [? _]|by left|right; exists b; by apply Hsub].
Qed.

Lemma take_pending extra p a l gone l' m :
  pool_ok extra p → pending p !! a = Some l → takes l gone l' → lists_ok true (signer p) m →
  (∀ b, content m b = if decide (b = a) then held l' else content (pending p) b) →
  pool_ok (gone ++ extra) (put_pending p m).
Proof using.
  intros Hp Ha Ht Hm Hc. pose proof (content_lookup _ _ _ Ha) as Hca.
  apply (out_of_list extra p); try done; [apply Hp| |apply Ht|].
  - intros b. simpl. rewrite Hc. case_decide; [subst b; rewrite Hca; apply Ht|done].
  - intros tx. rewrite (tk_gone _ _ _ Ht). split.
    + intros [H1 H2]. assert (Hin : in_pool p a tx) by (left; by rewrite Hca). split; [by exists a|]. intros b Hb.
      destruct (in_pool_ok _ _ _ _ Hp Hin) as (_ & Hs & _).
      destruct Hb as [Hb|Hb]; simpl in Hb.
      * rewrite Hc in Hb. case_decide; [congruence|]. destruct (content_txs _ _ _ _ _ _ (pk_pending _ _ Hp) Hb) as (_ & Hs' & _). congruence.
      * destruct (content_txs _ _ _ _ _ _ (pk_queue _ _ Hp) Hb) as (_ & Hs' & _). assert (b = a) as -> by congruence.
        pose proof (pk_apart _ _ Hp a) as Hd. rewrite Hca in Hd. by eapply map_disjoint_spec.
    + intros [[b Hb] Hout]. destruct Hb as [Hb|Hb]; [|exfalso; apply (Hout b); by right].
      assert (b = a) as ->.
      { destruct (decide (b = a)); [done|]. exfalso. apply (Hout b). left. simpl. rewrite Hc. by rewrite decide_False. }
      rewrite Hca in Hb. split; [done|]. destruct (held l' !! AccountNonce tx) as [tx'|] eqn:E; [|done].
      pose proof (lookup_weaken _ _ _ _ E (tk_sub _ _ _ Ht)). exfalso. apply (Hout a). left. simpl. rewrite Hc, decide_True by done. congruence.
Qed.

Lemma take_queue extra p a l gone l' m :
  pool_ok extra p → queue p !! a = Some l → takes l gone l' → lists_ok false (signer p) m →
  (∀ b, content m b = if decide (b = a) then held l' else content (queue p) b) →
  pool_ok (gone ++ extra) (put_queue p m).
Proof using.
  intros Hp Ha Ht Hm Hc. pose proof (content_lookup _ _ _ Ha) as Hca.
  apply (out_of_list extra p); try done; [apply Hp| |apply Ht|].
  - intros b. simpl. rewrite Hc. case_decide; [subst b; rewrite Hca; apply Ht|done].
  - intros tx. rewrite (tk_gone _ _ _ Ht). split.
    + intros [H1 H2]. assert (Hin : in_pool p a tx) by (right; by rewrite Hca). split; [by exists a|]. intros b Hb.
      destruct (in_pool_ok _ _ _ _ Hp Hin) as (_ & Hs & _).
      destruct Hb as [Hb|Hb]; simpl in Hb.
      * destruct (content_txs _ _ _ _ _ _ (pk_pending _ _ Hp) Hb) as (_ & Hs' & _). assert (b = a) as -> by congruence.
        pose proof (pk_apart _ _ Hp a) as Hd. rewrite Hca in Hd. by eapply map_disjoint_spec.
      * rewrite Hc in Hb. case_decide; [congruence|]. destruct (content_txs _ _ _ _ _ _ (pk_queue _ _ Hp) Hb) as (_ & Hs' & _). congruence.
    + intros [[b Hb] Hout]. destruct Hb as [Hb|Hb]; [exfalso; apply (Hout b); by left|].
      assert (b = a) as ->.
      { destruct (decide (b = a)); [done|]. exfalso. apply (Hout b). right. simpl. rewrite Hc. by rewrite decide_False. }
      rewrite Hca in Hb. split; [done|]. destruct (held l' !! AccountNonce tx) as [tx'|] eqn:E; [|done].
      pose proof (lookup_weaken _ _ _ _ E (tk_sub _ _ _ Ht)). exfalso. apply (Hout a). right. simpl. rewrite Hc, decide_True by done. congruence.
Qed.

(** *** Into a list *)

Lemma into_list extra p p' a tx :
  signer p' = signer p → all p' = all p → priced p' = priced p →
  lists_ok true (signer p) (pending p') → lists_ok false (signer p) (queue p') →
  (∀ b, content (pending p') b ##ₘ content (queue p') b) →
  (∀ b tx', in_pool p' b tx' ↔ in_pool p b tx' ∨ b = a ∧ tx' = tx) →
  pool_ok (tx :: extra) p → pool_ok extra p'.
Proof using.
  intros E1 E2 E3 Hp' Hq' Hd Hin [H1 H2 H3 H4 H5 H6 H7 H8 H9]. apply NoDup_cons in H5 as [Hni Hnd].
  split; rewrite ?E1, ?E2, ?E3; try done.
  - intros tx' Hx. destruct (H4 tx') as [HT Hout]; [by right|]. split; [done|]. intros b [Hb|[_ ->]]%Hin; [by apply (Hout b)|done].
  - intros h tx'. rewrite H6. split.
    + intros [<- [[->|Hx]%elem_of_cons|[b Hb]]]; (split; [done|]); [right; exists a; apply Hin; by right|by left|right; exists b; apply Hin; by left].
    + intros [<- [Hx|[b [Hb|[_ ->]]%Hin]]]; (split; [done|]); [left; by right|right; by exists b|left; by left].
Qed.

Lemma into_queue extra p a tx l' :
  pool_ok (tx :: extra) p → Signer_Sender (signer p) tx = Ok a → list_ok l' → strict l' = false →
  content (pending p) a !! AccountNonce tx = None → content (queue p) a !! AccountNonce tx = None →
  held l' = <[AccountNonce tx := tx]> (content (queue p) a) →
  pool_ok extra (put_queue p (<[a := l']> (queue p))).
Proof using All.
  intros Hp Hs Hl Hst Hn1 Hn2 E. destruct (pk_extra _ _ Hp tx) as [[HT HA] _]; [by left|].
  apply (into_list extra p _ a tx); try done; [apply Hp| | |].
  - apply lists_ok_insert; try done; [apply Hp|]. intros k tx'. rewrite E. intros [[_ <-]|[_ Hk]]%lookup_insert_Some; [done|].
    destruct (content_txs _ _ _ _ _ _ (pk_queue _ _ Hp) Hk) as ([? _] & ? & _). done.
  - intros b. simpl. rewrite content_insert. case_decide; [subst b|apply Hp]. rewrite E. apply map_disjoint_insert_r_2; [done|apply Hp].
  - intros b tx'. unfold in_pool. simpl. rewrite content_insert. case_decide as Hb; [subst b|tauto].
    rewrite E, lookup_insert_Some. split; [intros [H|[[_ <-]|[_ H]]]; auto|].
    intros [[H|H]|[_ ->]]; [by left| |right; by left]. right. right. split; [|done]. intros E'. rewrite E' in Hn2. congruence.
Qed.

Lemma into_pending extra p a tx l' :
  pool_ok (tx :: extra) p → Signer_Sender (signer p) tx = Ok a → list_ok l' → strict l' = true →
  content (pending p) a !! AccountNonce tx = None → content (queue p) a !! AccountNonce tx = None →
  held l' = <[AccountNonce tx := tx]> (content (pending p) a) →
  pool_ok extra (put_pending p (<[a := l']> (pending p))).
Proof using All.
  intros Hp Hs Hl Hst Hn1 Hn2 E. destruct (pk_extra _ _ Hp tx) as [[HT HA] _]; [by left|].
  apply (into_list extra p _ a tx); try done; [|apply Hp| |].
  - apply lists_ok_insert; try done; [apply Hp|]. intros k tx'. rewrite E. intros [[_ <-]|[_ Hk]]%lookup_insert_Some; [done|].
    destruct (content_txs _ _ _ _ _ _ (pk_pending _ _ Hp) Hk) as ([? _] & ? & _). done.
  - intros b. simpl. rewrite content_insert. case_decide; [subst b|apply Hp]. rewrite E. apply map_disjoint_insert_l_2; [done|apply Hp].
  - intros b tx'. unfold in_pool. simpl. rewrite content_insert. case_decide as Hb; [subst b|tauto].
    rewrite E, lookup_insert_Some. split; [intros [[[_ <-]|[_ H]]|H]; auto|].
    intros [[H|H]|[_ ->]]; [|by right|left; by left]. left. right. split; [|done]. intros E'. rewrite E' in Hn1. congruence.
Qed.

(** The list of an account, or a new one. *)
Lemma list_default b sg m a :
  lists_ok b sg m → let l := default (newTxList b) (m !! a) in list_ok l ∧ strict l = b ∧ held l = content m a.
Proof using All.
  intros Hm l. unfold l, content. destruct (m !! a) as [l0|] eqn:E; simpl; [destruct (Hm _ _ E) as (? & ? & _); done|].
  split_and!; [apply list_new|done|done].
Qed.

(** Moving a transaction of the pool into the queue. *)
Lemma enqueue_moves extra p a tx :
  pool_ok (tx :: extra) p → Signer_Sender (signer p) tx = Ok a →
  content (pending p) a !! AccountNonce tx = None → content (queue p) a !! AccountNonce tx = None →
  ∃ l', held l' = <[AccountNonce tx := tx]> (content (queue p) a) ∧
        enqueueTx p tx = Ok (None, false, put_queue p (<[a := l']> (queue p))) ∧
        pool_ok extra (put_queue p (<[a := l']> (queue p))).
Proof using All.
  intros Hp Hs Hn1 Hn2. destruct (pk_extra _ _ Hp tx) as [[HT HA] _]; [by left|].
  destruct (list_default _ _ _ a (pk_queue _ _ Hp)) as (Hl & Hst & Eh).
  unfold enqueueTx, sender. rewrite Hs. cbn [bind].
  pose proof (l_Add_spec _ tx (PriceBump (config p)) Hl (T_u64 _ HT) HA) as Ha. rewrite Eh in Ha.
  destruct (l_Add _ _ _) as [[[] old] l']; cbn [negb].
  - destruct Ha as (Hl' & Hst' & -> & Eh' & _). rewrite Hn2. cbn [forget_old]. exists l'. split; [done|].
    unfold remember_new. rewrite (proj2 (pk_all _ _ Hp (Tx_Hash tx) tx)) by (split; [done|left; by left]). split; [done|].
    apply (into_queue extra p a tx l'); try done. by rewrite Hst'.
  - destruct Ha as (_ & _ & [? ?]). congruence.
Qed.

Lemma enqueue_all_moves extra p a l :
  pool_ok (l ++ extra) p → NoDup (AccountNonce <$> l) →
  (∀ tx, tx ∈ l → Signer_Sender (signer p) tx = Ok a ∧ content (pending p) a !! AccountNonce tx = None ∧
                  content (queue p) a !! AccountNonce tx = None) →
  ∃ q, enqueue_all p l = Ok (put_queue p q) ∧ pool_ok extra (put_queue p q).
Proof using All.
  revert p. induction l as [|tx l IH]; intros p Hp Hnd Hl.
  - exists (queue p). simpl. assert (E : put_queue p (queue p) = p) by by destruct p. by rewrite E.
  - simpl in Hnd. apply NoDup_cons in Hnd as [Hni Hnd]. destruct (Hl tx) as (Hs & Hn1 & Hn2); [by left|].
    destruct (enqueue_moves (l ++ extra) p a tx Hp Hs Hn1 Hn2) as (l' & Eh & He & Hp').
    destruct (IH _ Hp' Hnd) as (q & Hq & Hpq).
    { intros tx' Hx. destruct (Hl tx') as (? & ? & ?); [by right|]. split_and!; [done|done|]. simpl.
      rewrite content_insert, decide_True, Eh by done. rewrite lookup_insert_ne; [done|]. intros E. apply Hni. rewrite E.
      by apply list_elem_of_fmap_2. }
    exists q. simpl. rewrite He. cbn [bind]. done.
Qed.

(** Moving a transaction of the pool into the pending list. *)
Lemma promote_moves now extra p a tx :
  pool_ok (tx :: extra) p → Signer_Sender (signer p) tx = Ok a →
  content (pending p) a !! AccountNonce tx = None → content (queue p) a !! AccountNonce tx = None →
  ∃ l', held l' = <[AccountNonce tx := tx]> (content (pending p) a) ∧
        let p' := put_nonce (put_beats (put_pending p (<[a := l']> (pending p))) (<[a := now]> (beats p))) a
                    (u64 (AccountNonce tx + 1)) in
        promoteTx now p a tx = (true, p') ∧ pool_ok extra p'.
Proof using All.
  intros Hp Hs Hn1 Hn2. destruct (pk_extra _ _ Hp tx) as [[HT HA] _]; [by left|].
  destruct (list_default _ _ _ a (pk_pending _ _ Hp)) as (Hl & Hst & Eh).
  unfold promoteTx. pose proof (l_Add_spec _ tx (PriceBump (config p)) Hl (T_u64 _ HT) HA) as Ha. rewrite Eh in Ha.
  destruct (l_Add _ _ _) as [[[] old] l']; cbn [negb].
  - destruct Ha as (Hl' & Hst' & -> & Eh' & _). rewrite Hn1. cbn [forget_old]. exists l'. split; [done|]. cbv zeta.
    unfold remember_new. simpl. rewrite (proj2 (pk_all _ _ Hp (Tx_Hash tx) tx)) by (split; [done|left; by left]). split; [done|].
    eapply pool_ok_eq; last (apply (into_pending extra p a tx l'); try done; by rewrite Hst'); done.
  - destruct Ha as (_ & _ & [? ?]). congruence.
Qed.

(** ** Nonces

    Where nothing was reinjected, the pending transactions of an account are
    those from the nonce of the state up to the pending nonce. *)

Record nonces_ok (p : TxPool) : Prop := {
  nk_managed : ms_ok (pendingState p);
  nk_le : ∀ a, cur_nonce p a ≤ pend_nonce p a;
  nk_run : ∀ a k, is_Some (content (pending p) a !! k) ↔ cur_nonce p a ≤ k < pend_nonce p a
}.

(** What the operations on transactions leave alone. *)
Record kept (p p' : TxPool) : Prop := {
  kp_config : config p' = config p;
  kp_chainconfig : chainconfig p' = chainconfig p;
  kp_gasPrice : gasPrice p' = gasPrice p;
  kp_signer : signer p' = signer p;
  kp_state : currentState p' = currentState p;
  kp_gas : currentMaxGas p' = currentMaxGas p;
  kp_homestead : homestead p' = homestead p
}.

#[global] Instance kept_preorder : PreOrder kept.
Proof using. split; [by intros p|]. intros p1 p2 p3 [] []. split; congruence. Qed.

Lemma nonces_ok_eq p p' :
  currentState p' = currentState p → pendingState p' = pendingState p → (∀ a, content (pending p') a = content (pending p) a) →
  nonces_ok p → nonces_ok p'.
Proof using.
  intros E1 E2 E3 [H1 H2 H3]. unfold cur_nonce, pend_nonce in *.
  split; unfold cur_nonce, pend_nonce; rewrite ?E1, ?E2; try done. intros a k. rewrite E3. apply H3.
Qed.

(** Changing the pending transactions and the nonce of one account. *)
Lemma nonces_ok_set p p' a n :
  currentState p' = currentState p → pendingState p' = ms_SetNonce (pendingState p) a n → is_u64 n →
  (∀ b, b ≠ a → content (pending p') b = content (pending p) b) →
  cur_nonce p a ≤ n → (∀ k, is_Some (content (pending p') a !! k) ↔ cur_nonce p a ≤ k < n) →
  nonces_ok p → nonces_ok p'.
Proof using.
  intros E1 E2 Hu E3 Hle Hk [H1 H2 H3]. destruct (SetNonce_spec (pendingState p) a n H1 Hu) as [Hm Hn].
  unfold cur_nonce, pend_nonce in *. split; unfold cur_nonce, pend_nonce; rewrite ?E1, ?E2; try done.
  - intros b. rewrite Hn. case_decide; [by subst b|apply H2].
  - intros b k. rewrite Hn. case_decide; [by subst b|]. rewrite E3 by done. apply H3.
Qed.

(** ** Removing *)

Lemma txs_of_from m n tx : by_nonce m → m !! n = Some tx → txs_of (from n m) = tx :: txs_of (from (n + 1) m).
Proof using.
  intros Hn Hm. rewrite (txs_of_min (from n m) n tx).
  - do 2 f_equal. apply map_eq. intros k. apply option_eq. intros tx'. unfold from.
    rewrite lookup_delete_Some, !map_lookup_filter_Some. split; [intros (? & ? & ?)|intros (? & ?)]; split_and!; try done; lia.
  - by apply by_nonce_filter.
  - by apply map_lookup_filter_Some.
  - intros k [tx' [_ H]%map_lookup_filter_Some]%elem_of_dom. done.
Qed.

Lemma remove_strict l tx invalids l' :
  list_ok l → held l !! AccountNonce tx = Some tx → list_ok l' → strict l' = strict l →
  held l' = below (AccountNonce tx) (held l) → invalids ≡ₚ txs_of (from (AccountNonce tx + 1) (held l)) →
  takes l (tx :: invalids) l'.
Proof using.
  intros Hl Htx Hl' Hs E Hi. apply (takes_from _ _ _ (AccountNonce tx)); try done.
  rewrite (txs_of_from _ _ tx); [by rewrite Hi|apply (ok_nonces _ (lo_txs l Hl))|done].
Qed.

(** The account [a] loses the transaction [n], and its list with the last. *)
Record unqueues (q q' : gmap Address txList) (a : Address) (n : Z) : Prop := {
  uq_other : ∀ b, b ≠ a → q' !! b = q !! b;
  uq_content : content q' a = delete n (content q a);
  uq_last : q' !! a = None ∨ content q' a ≠ ∅
}.

Lemma set_list_other (m : gmap Address txList) a l b : b ≠ a → set_list m a l !! b = m !! b.
Proof using. intros Hb. unfold set_list. destruct (l_Empty l); [by rewrite lookup_delete_ne|by rewrite lookup_insert_ne]. Qed.

Lemma set_list_last (m : gmap Address txList) a l : set_list m a l !! a = None ∨ content (set_list m a l) a ≠ ∅.
Proof using.
  rewrite content_set_list, decide_True by done. unfold set_list. destruct (l_Empty l) eqn:Ee; [left; by rewrite lookup_delete_eq|right].
  intros Eh. apply l_Empty_spec in Eh. congruence.
Qed.

Lemma set_list_unqueues (q : gmap Address txList) a l' n : held l' = delete n (content q a) → unqueues q (set_list q a l') a n.
Proof using. intros E. split; [intros b; apply set_list_other|by rewrite content_set_list, decide_True|apply set_list_last]. Qed.

Lemma remove_queued_ok p a tx :
  pool_ok [] p → content (queue p) a !! AccountNonce tx = Some tx →
  ∃ q, remove_queued p a tx = put_queue p q ∧ pool_ok [tx] (put_queue p q) ∧ unqueues (queue p) q a (AccountNonce tx).
Proof using All.
  intros Hp Hq. unfold remove_queued. destruct (queue p !! a) as [l|] eqn:E; [|by unfold content in Hq; rewrite E in Hq].
  rewrite (content_lookup _ _ _ E) in Hq. destruct (pk_queue _ _ Hp _ _ E) as (Hl & Hs & _).
  pose proof (l_Remove_spec l tx Hl) as Hr. cbv zeta in Hr. destruct (l_Remove l tx) as [[b inv] l'].
  destruct Hr as (-> & Hl' & Hs' & Hr). rewrite bool_decide_eq_true_2, Hs in Hr by by eexists. destruct Hr as [Eh _].
  eexists. split; [reflexivity|]. split; [|apply set_list_unqueues; by rewrite (content_lookup _ _ _ E)].
  assert (Ht : takes l [tx] l').
  { destruct (takes_one l tx _ Hl Hq) as [Ht Ew]. destruct Ht as [_ _ T3 T4 T5]. rewrite Ew in T3, T4.
    split; rewrite ?Eh; try done. }
  change [tx] with ([tx] ++ []). eapply (take_queue [] p a l [tx] l'); try done.
  - apply lists_ok_set. by eapply lists_ok_takes; [apply Hp|..].
  - intros b. apply content_set_list.
Qed.

(** A transaction leaves its pending list and those after it are queued. *)
Lemma remove_pending_ok p a l tx b :
  pool_ok [] p → pending p !! a = Some l → held l !! AccountNonce tx = Some tx →
  let '(removed, invalids, l') := l_Remove l tx in
  removed = true ∧ held l' = below (AccountNonce tx) (held l) ∧
  let p1 := put_all p (delete (Tx_Hash tx) (all p)) in
  let p2 := if b : bool then put_priced p1 (priced_Removed (all p1) (priced p1)) else p1 in
  ∀ p3, signer p3 = signer p → pending p3 = set_list (pending p) a l' → queue p3 = queue p → all p3 = all p2 → priced p3 = priced p2 →
  ∃ q, enqueue_all p3 invalids = Ok (put_queue p3 q) ∧ pool_ok [] (put_queue p3 q).
Proof using All.
  intros Hp Hl Htx. destruct (pk_pending _ _ Hp _ _ Hl) as (Hlo & Hst & Htxs).
  pose proof (l_Remove_spec l tx Hlo) as Hr. cbv zeta in Hr. destruct (l_Remove l tx) as [[removed invalids] l'].
  destruct Hr as (-> & Hl' & Hs' & Hr). rewrite bool_decide_eq_true_2, Hst in * by by eexists. destruct Hr as [Eh Hinv].
  split_and!; [done..|]. intros p1 p2 p3 E1 E2 E3 E4 E5. pose proof (ok_nonces _ (lo_txs l Hlo)) as Hn.
  assert (Ht : takes l (tx :: invalids) l') by (apply remove_strict; try done; by rewrite Hs', Hst).
  assert (Hp1 : pool_ok (tx :: invalids) (put_pending p (set_list (pending p) a l'))).
  { rewrite <- (app_nil_r (tx :: invalids)). eapply (take_pending [] p a l _ l'); try done; [|intros c; apply content_set_list].
    apply lists_ok_set. by eapply lists_ok_takes; [apply Hp|..]. }
  pose proof (unindex_ok invalids _ tx b Hp1) as Hp2. cbv zeta in Hp2.
  assert (Hp3 : pool_ok (invalids ++ []) p3).
  { rewrite app_nil_r. eapply pool_ok_eq; [..|exact Hp2]; destruct b; done. }
  apply (enqueue_all_moves [] p3 a invalids Hp3).
  - rewrite Hinv. apply txs_of_NoDup, by_nonce_filter, Hn.
  - intros tx' Hx. rewrite Hinv in Hx. apply elem_of_txs_of in Hx; [|by apply by_nonce_filter].
    apply map_lookup_filter_Some in Hx as [Hx Hle]. rewrite E1, E2, E3. split_and!; [by eapply Htxs| |].
    + rewrite content_set_list, decide_True, Eh by done. apply map_lookup_filter_None. right. intros ? _. lia.
    + pose proof (pk_apart _ _ Hp a) as Hd. rewrite (content_lookup _ _ _ Hl) in Hd. by eapply map_disjoint_Some_l.
Qed.

Lemma lower_nonce_eq p a n : signer (lower_nonce p a n) = signer p ∧ pending (lower_nonce p a n) = pending p ∧
  queue (lower_nonce p a n) = queue p ∧ all (lower_nonce p a n) = all p ∧ priced (lower_nonce p a n) = priced p ∧
  kept p (lower_nonce p a n).
Proof using. unfold lower_nonce. by case_match. Qed.

Lemma lower_nonce_managed p a n : is_u64 n → ms_ok (pendingState p) → ms_ok (pendingState (lower_nonce p a n)).
Proof using. intros Hu Hm. unfold lower_nonce. case_match; [|done]. simpl. by apply SetNonce_spec. Qed.

(** After the pending transactions from [n] on are gone. *)
Lemma lower_nonce_ok p p' a n :
  currentState p' = currentState p → pendingState p' = pendingState p →
  (∀ b, content (pending p') b = if decide (b = a) then below n (content (pending p) a) else content (pending p) b) →
  is_Some (content (pending p) a !! n) → is_u64 n → nonces_ok p → nonces_ok (lower_nonce p' a n).
Proof using All.
  intros E1 E2 Hc Hin Hu Hn. pose proof Hn as [H1 H2 H3]. apply H3 in Hin as Hr. unfold lower_nonce.
  assert (Ep : pend_nonce p' a = pend_nonce p a) by (unfold pend_nonce; by rewrite E2).
  rewrite (proj2 (Z.ltb_lt _ _)) by lia. apply (nonces_ok_set p _ a n); try done.
  - simpl. by rewrite E2.
  - intros b Hb. simpl. rewrite Hc. by rewrite decide_False.
  - lia.
  - intros k. simpl. rewrite Hc, decide_True by done.  split.
    + intros [tx [Hk Hlt]%map_lookup_filter_Some]. assert (is_Some (content (pending p) a !! k)) as Hs%H3 by by eexists. lia.
    + intros Hk. assert (is_Some (content (pending p) a !! k)) as [tx Htx] by (apply H3; lia). exists tx.
      apply map_lookup_filter_Some. split; [done|lia].
Qed.

(** Leaving the queue. *)
Lemma removed_from_queue p a tx b :
  pool_ok [] p → content (queue p) a !! AccountNonce tx = Some tx →
  let p1 := put_all p (delete (Tx_Hash tx) (all p)) in
  let p2 := if b : bool then put_priced p1 (priced_Removed (all p1) (priced p1)) else p1 in
  ∃ q, remove_queued p2 a tx = put_queue p2 q ∧ pool_ok [] (put_queue p2 q) ∧ unqueues (queue p) q a (AccountNonce tx).
Proof using All.
  intros Hp Hq p1 p2. destruct (remove_queued_ok p a tx Hp Hq) as (q & Er & Hpq & Huq). exists q. split_and!; [| |done].
  - assert (Eq : queue p2 = queue p) by by unfold p2; destruct b.
    unfold remove_queued in *. rewrite Eq. destruct (queue p !! a) as [l|] eqn:E; [|by unfold content in Hq; rewrite E in Hq].
    destruct (l_Remove l tx) as [[? ?] l']. injection Er as Er. by rewrite Er.
  - pose proof (unindex_ok [] _ tx b Hpq) as H. cbv zeta in H. eapply pool_ok_eq; [..|exact H]; by unfold p2; destruct b.
Qed.

(** No account without pending transactions is listed. *)
Definition filled (p : TxPool) : Prop := ∀ a l, pending p !! a = Some l → held l ≠ ∅.

Lemma filled_set p p' a l : pending p' = set_list (pending p) a l → filled p → filled p'.
Proof using.
  intros E Hf b lb Hb. destruct (decide (b = a)) as [->|Hne].
  - destruct (set_list_last (pending p) a l) as [Hn|Hn]; rewrite <- E in Hn; [congruence|]. by rewrite (content_lookup _ _ _ Hb) in Hn.
  - rewrite E, set_list_other in Hb by done. by apply (Hf b).
Qed.

Record removal (p p' : TxPool) : Prop := {
  rm_ok : pool_ok [] p';
  rm_nonces : nonces_ok p → nonces_ok p';
  rm_kept : kept p p';
  rm_locals : locals p' = locals p;
  rm_journal : journal p' = journal p;
  rm_all : all p' ⊆ all p;
  rm_managed : ms_ok (pendingState p) → ms_ok (pendingState p');
  rm_filled : filled p → filled p'
}.

Lemma removeTx_queued p a tx b :
  pool_ok [] p → content (queue p) a !! AccountNonce tx = Some tx →
  ∃ p', removeTx p (Tx_Hash tx) b = Ok p' ∧ removal p p' ∧ pending p' = pending p ∧ pendingState p' = pendingState p ∧
    beats p' = beats p ∧ unqueues (queue p) (queue p') a (AccountNonce tx) ∧ all p' = delete (Tx_Hash tx) (all p).
Proof using All.
  intros Hp Hq. assert (Ha : in_pool p a tx) by by right. destruct (in_pool_ok _ _ _ _ Hp Ha) as (_ & Hs & Hu).
  unfold removeTx. rewrite (proj2 (pk_all _ _ Hp (Tx_Hash tx) tx)) by by split; [done|right; eexists].
  unfold sender. rewrite Hs. cbn [bind].
  destruct (removed_from_queue p a tx b Hp Hq) as (q & Er & Hpq & Huq). cbv zeta in Er, Hpq.
  set (p1 := put_all p (delete (Tx_Hash tx) (all p))) in *.
  set (p2 := if b then put_priced p1 (priced_Removed (all p1) (priced p1)) else p1) in *.
  assert (Ef : pending p2 = pending p ∧ currentState p2 = currentState p ∧ pendingState p2 = pendingState p ∧ kept p p2 ∧
               locals p2 = locals p ∧ journal p2 = journal p ∧ beats p2 = beats p ∧ all p2 = all p1) by by unfold p2; destruct b.
  destruct Ef as (Ep & Ec & Em & Hk & Elo & Ejo & Eb & Eal).
  exists (put_queue p2 q). split.
  - rewrite Ep. destruct (pending p !! a) as [l|] eqn:El; [|by rewrite Er].
    assert (Hno : held l !! AccountNonce tx = None).
    { pose proof (pk_apart _ _ Hp a) as Hd. rewrite (content_lookup _ _ _ El) in Hd. by eapply map_disjoint_Some_r. }
    destruct (pk_pending _ _ Hp _ _ El) as (Hlo & _ & _). pose proof (l_Remove_spec l tx Hlo) as Hr. cbv zeta in Hr.
    destruct (l_Remove l tx) as [[removed invalids] l']. destruct Hr as (-> & _).
    rewrite bool_decide_eq_false_2 by (rewrite Hno; by intros [? ?]). by rewrite Er.
  - split_and!; try done. split; try done.
    + intros Hn. apply (nonces_ok_eq p); try done. intros c. simpl. by rewrite Ep.
    + by destruct Hk.
    + simpl. rewrite Eal. apply delete_subseteq.
    + simpl. by rewrite Em.
    + intros Hf b' l. simpl. rewrite Ep. apply Hf.
Qed.

Lemma removeTx_pending p a l tx b :
  pool_ok [] p → pending p !! a = Some l → held l !! AccountNonce tx = Some tx →
  ∃ p', removeTx p (Tx_Hash tx) b = Ok p' ∧ removal p p' ∧ all p' = delete (Tx_Hash tx) (all p).
Proof using All.
  intros Hp El Hin. pose proof (content_lookup _ _ _ El) as Ecl. assert (Ha : in_pool p a tx) by (left; by rewrite Ecl).
  destruct (in_pool_ok _ _ _ _ Hp Ha) as (_ & Hs & Hu).
  unfold removeTx. rewrite (proj2 (pk_all _ _ Hp (Tx_Hash tx) tx)) by by split; [done|right; eexists].
  unfold sender. rewrite Hs. cbn [bind].
  set (p1 := put_all p (delete (Tx_Hash tx) (all p))).
  set (p2 := if b then put_priced p1 (priced_Removed (all p1) (priced p1)) else p1).
  assert (Ep : pending p2 = pending p) by by unfold p2; destruct b.
  assert (Eal : all p2 = all p1) by by unfold p2; destruct b.
  rewrite Ep, El. pose proof (remove_pending_ok p a l tx b Hp El Hin) as Hr.
  destruct (l_Remove l tx) as [[removed invalids] l']. destruct Hr as (-> & Eh & Hr). cbv zeta in Hr. fold p1 p2 in Hr.
  set (p3 := if l_Empty l' then _ else _).
  assert (E3 : pending p3 = set_list (pending p) a l') by by unfold p3, set_list; destruct (l_Empty l').
  assert (Ef3 : signer p3 = signer p ∧ queue p3 = queue p ∧ all p3 = all p2 ∧ priced p3 = priced p2 ∧
                currentState p3 = currentState p ∧ pendingState p3 = pendingState p ∧ kept p p3 ∧ locals p3 = locals p ∧ journal p3 = journal p).
  { unfold p3, p2. by destruct (l_Empty l'), b. }
  destruct Ef3 as (Es3 & Eq3 & Ea3 & Epr3 & Ec3 & Em3 & Hk3 & Elo3 & Ejo3).
  destruct (Hr p3 Es3 E3 Eq3 Ea3 Epr3) as (q & Hq & Hpq). rewrite Hq. cbn [bind]. eexists. split; [reflexivity|].
  destruct (lower_nonce_eq (put_queue p3 q) a (AccountNonce tx)) as (F1 & F2 & F3 & F4 & F5 & F6).
  assert (Ea : all (lower_nonce (put_queue p3 q) a (AccountNonce tx)) = delete (Tx_Hash tx) (all p)) by (rewrite F4; simpl; by rewrite Ea3, Eal).
  split; [|done]. split.
  - eapply pool_ok_eq; [..|exact Hpq]; done.
  - intros Hn. apply (lower_nonce_ok p); try done; [|rewrite Ecl; by eexists].
    intros c. simpl. rewrite E3, content_set_list, Ecl. case_decide; [by rewrite Eh|done].
  - etrans; [|exact F6]. by destruct Hk3.
  - unfold lower_nonce. by case_match.
  - unfold lower_nonce. by case_match.
  - rewrite Ea. apply delete_subseteq.
  - intros Hm. apply lower_nonce_managed; [done|]. simpl. by rewrite Em3.
  - apply (filled_set p _ a l'). by rewrite F2.
Qed.

Lemma removeTx_ok p h b : pool_ok [] p → ∃ p', removeTx p h b = Ok p' ∧ removal p p' ∧ all p' = delete h (all p).
Proof using All.
  intros Hp. destruct (all p !! h) as [tx|] eqn:E.
  2:{ exists p. unfold removeTx. rewrite E, delete_id by done. split_and!; [done|by split|done]. }
  apply (pk_all _ _ Hp) in E as [Eh [Hx%elem_of_nil|[a Ha]]]; [done|]. subst h. destruct Ha as [Ha|Ha].
  - unfold content in Ha. destruct (pending p !! a) as [l|] eqn:El; [|done]. by eapply removeTx_pending.
  - destruct (removeTx_queued p a tx b Hp Ha) as (p' & E' & Hr & _ & _ & _ & _ & Ea). by exists p'.
Qed.

Lemma removal_refl p : pool_ok [] p → removal p p.
Proof using. by split. Qed.

Lemma removal_trans p1 p2 p3 : removal p1 p2 → removal p2 p3 → removal p1 p3.
Proof using. intros [] []. split; try done; [tauto|by etrans|congruence|congruence|by etrans|tauto|tauto]. Qed.

Lemma remove_all_ok p l b :
  pool_ok [] p → ∃ p', remove_all p l b = Ok p' ∧ removal p p' ∧
    ∀ h, all p' !! h = if decide (h ∈ Tx_Hash <$> l) then None else all p !! h.
Proof using All.
  revert p. induction l as [|tx l IH]; intros p Hp; simpl.
  { exists p. split_and!; [done|by split|done]. }
  destruct (removeTx_ok p (Tx_Hash tx) b Hp) as (p1 & -> & H1 & Ea). cbn [bind].
  destruct (IH p1 (rm_ok _ _ H1)) as (p2 & -> & H2 & Hg). exists p2. split_and!; [done|by eapply removal_trans|].
  intros h. rewrite Hg, Ea. case_decide as D1; [rewrite decide_True by (by right); done|].
  destruct (decide (h = Tx_Hash tx)) as [->|Hne]; [rewrite decide_True by (by left); apply lookup_delete_eq|].
  rewrite lookup_delete_ne by done. rewrite decide_False; [done|]. by intros [?|?]%elem_of_cons.
Qed.
End Base.
