(* ===== verification/TxPoolSteps.v ===== *)
(** * The transaction pool: promotion, demotion and limits *)

From Stdlib Require Import ZArith Lia.
From stdpp Require Import base option list gmap sets strings sorting.
From S2P Require Import Prelude Params Rlp Types Account State StateRevert Chain Transition.
From S2P Require Import Heap TxList TxListProps ManagedState TxPool TxPoolBase.

(** Limits within the range of the types. *)
Record config_ok (c : TxPoolConfig) : Prop := {
  ck_slots : 1 ≤ AccountSlots c < two63;
  ck_queue : 0 ≤ AccountQueue c < two63;
  ck_global : 0 ≤ GlobalSlots c < two63 ∧ 0 ≤ GlobalQueue c < two63
}.

Lemma seqZ_sorted x n : StronglySorted Z.le (seqZ x n).
Proof.
  destruct (decide (0 ≤ n)) as [H|H]; [|rewrite seqZ_nil by lia; constructor].
  revert x. pattern n. apply natlike_ind; [|clear n H; intros n Hn IH x|done].
  - intros x. rewrite seqZ_nil by lia. constructor.
  - rewrite seqZ_cons by lia. rewrite Z.pred_succ. constructor; [apply IH|]. apply Forall_forall. intros y Hy%elem_of_seqZ. lia.
Qed.

Section Steps.
Context {C : Crypto} {D : Database} {MO : MapOrder} {NO : NonceOrder}.
Context (T : txdata → Prop) {W : TxWorld T} (U : txdata → Prop) (now : Z).

(** ** Steps that do not look at the queue *)

Lemma forget_put_queue p q tx : forget (put_queue p q) tx = put_queue (forget p tx) q.
Proof using. done. Qed.

Lemma forget_all_put_queue p q l : forget_all (put_queue p q) l = put_queue (forget_all p l) q.
Proof using. revert p. induction l as [|tx l IH]; intros p; [done|]. simpl. by rewrite forget_put_queue, IH. Qed.

Lemma promoteTx_put_queue p q a tx : (promoteTx now (put_queue p q) a tx).2 = put_queue (promoteTx now p a tx).2 q.
Proof using.
  unfold promoteTx. simpl. destruct (l_Add _ _ _) as [[[] old] l]; simpl; [|done].
  unfold remember_new, forget_old. destruct old; simpl; case_match; done.
Qed.

Lemma promote_all_put_queue p q a l : promote_all now (put_queue p q) a l = put_queue (promote_all now p a l) q.
Proof using. revert p. induction l as [|tx l IH]; intros p; [done|]. simpl. by rewrite promoteTx_put_queue, IH. Qed.

Lemma promote_all_queue p a l : queue (promote_all now p a l) = queue p.
Proof using.
  revert p. induction l as [|tx l IH]; intros p; [done|]. simpl. rewrite IH. unfold promoteTx.
  destruct (l_Add _ _ _) as [[[] old] l']; simpl; [|done]. unfold remember_new, forget_old. destruct old; simpl; case_match; done.
Qed.

(** What [forget_all] leaves. *)
Record rest_same (p p' : TxPool) : Prop := {
  rs_pending : pending p' = pending p;
  rs_queue : queue p' = queue p;
  rs_pendingState : pendingState p' = pendingState p;
  rs_kept : kept p p';
  rs_locals : locals p' = locals p;
  rs_journal : journal p' = journal p;
  rs_all : all p' ⊆ all p
}.

Lemma forget_all_same p l : rest_same p (forget_all p l).
Proof using.
  revert p. induction l as [|tx l IH]; intros p; [by split|]. simpl. destruct (IH (forget p tx)) as [? ? ? Hk ? ? Ha].
  split; try done; [etrans; [|exact Hk]; done|]. etrans; [exact Ha|]. apply delete_subseteq.
Qed.

(** ** Promoting a run of transactions *)

Lemma promote_all_ok extra p a l :
  pool_ok T U (l ++ extra) p → NoDup (AccountNonce <$> l) →
  (∀ tx, tx ∈ l → Signer_Sender (signer p) tx = Ok a ∧ content (pending p) a !! AccountNonce tx = None ∧
                  content (queue p) a !! AccountNonce tx = None) →
  let p' := promote_all now p a l in
  pool_ok T U extra p' ∧ queue p' = queue p ∧ all p' = all p ∧ kept p p' ∧ locals p' = locals p ∧ journal p' = journal p ∧
  (ms_ok (pendingState p) → ms_ok (pendingState p')) ∧ (filled p → filled p') ∧
  (nonces_ok p → AccountNonce <$> l = seqZ (pend_nonce p a) (Z.of_nat (length l)) → nonces_ok p').
Proof using All.
  revert p. induction l as [|tx l IH]; intros p Hp Hnd Hl p'; [by split_and!|].
  simpl in Hnd. apply NoDup_cons in Hnd as [Hni Hnd]. destruct (Hl tx) as (Hs & Hn1 & Hn2); [by left|].
  destruct (promote_moves T U now (l ++ extra) p a tx Hp Hs Hn1 Hn2) as (l' & Eh & Hpr & Hp1). unfold p'. cbn [promote_all]. rewrite Hpr. cbn [snd].
  set (p1 := put_nonce _ _ _) in *. destruct (pk_extra _ _ _ _ Hp tx) as [[HT _] _]; [by left|]. pose proof (T_nonce _ HT) as Ht.
  assert (Hc : ∀ b, content (pending p1) b = if decide (b = a) then <[AccountNonce tx := tx]> (content (pending p) a) else content (pending p) b).
  { intros b. unfold p1. simpl. rewrite content_insert. case_decide; [by rewrite Eh|done]. }
  destruct (IH p1 Hp1 Hnd) as (I1 & I2 & Ia & I3 & I4 & I5 & Im & If & I6).
  { intros tx' Hx. destruct (Hl tx') as (? & ? & ?); [by right|]. split_and!; [done| |done].
    rewrite Hc, decide_True, lookup_insert_ne by done || (intros E; apply Hni; rewrite E; by apply list_elem_of_fmap_2). done. }
  split_and!; try done; [etrans; [|exact I3]; done|intros Hm; apply Im; simpl; apply SetNonce_spec; [done|apply u64_range]|
    intros Hf; apply If, (filled_set p p1 a l'); [|done]|].
  { unfold p1, set_list. simpl. destruct (l_Empty l') eqn:Ee; [|done]. apply l_Empty_spec in Ee. rewrite Eh in Ee.
    by apply insert_non_empty in Ee. }
  intros Hn Hseq. rewrite fmap_cons, length_cons, Nat2Z.inj_succ, seqZ_cons in Hseq by lia. injection Hseq as Etx Erest.
  assert (Hu : u64 (AccountNonce tx + 1) = AccountNonce tx + 1) by (apply u64_small; unfold is_u64, maxUint64 in *; lia).
  pose proof Hn as [N1 N2 N3]. destruct (SetNonce_spec (pendingState p) a (AccountNonce tx + 1) N1) as [_ Hset];
    [unfold is_u64, maxUint64 in *; lia|].
  assert (Epn : pend_nonce p1 a = AccountNonce tx + 1).
  { unfold pend_nonce, p1. simpl. rewrite Hu, Hset. by rewrite decide_True. }
  apply I6.
  - apply (nonces_ok_set p p1 a (AccountNonce tx + 1)); try done.
    + unfold p1. simpl. by rewrite Hu.
    + unfold is_u64, maxUint64 in *. lia.
    + intros b Hb. rewrite Hc. by rewrite decide_False.
    + pose proof (N2 a). lia.
    + intros k. rewrite Hc, decide_True by done. rewrite lookup_insert_is_Some, N3. pose proof (N2 a). lia.
  - rewrite Erest, Epn, Etx, Z.pred_succ. f_equal; lia.
Qed.

(** ** One account of the queue *)

(** While an account is worked on, its list [l] is not yet the one in the
    queue. *)
Definition queued (p : TxPool) (a : Address) (l : txList) : TxPool := put_queue p (<[a := l]> (queue p)).

(** Transactions leave the list and the pool. *)
Lemma drop_from_queued p a l gone l' :
  pool_ok T U [] (queued p a l) → takes l gone l' → pool_ok T U [] (queued (forget_all p gone) a l').
Proof using All.
  intros Hp Ht. unfold queued. destruct (forget_all_same p gone) as [_ -> _ _ _ _].
  rewrite <- forget_all_put_queue. apply forget_all_ok; [done|]. rewrite app_nil_r.
  assert (E : put_queue p (<[a := l']> (queue p)) = put_queue (queued p a l) (<[a := l']> (queue (queued p a l)))).
  { unfold queued. simpl. by rewrite insert_insert_eq. }
  rewrite E, <- (app_nil_r gone). assert (Hl : queue (queued p a l) !! a = Some l) by (simpl; by rewrite lookup_insert_eq).
  eapply (take_queue T U [] (queued p a l) a l gone l'); try done; [|intros b; apply content_insert].
  eapply lists_ok_takes; [|done|done]. apply Hp.
Qed.

Lemma queued_ok p a l : pool_ok T U [] p → queue p !! a = Some l → pool_ok T U [] (queued p a l).
Proof using. intros Hp Hl. unfold queued. rewrite insert_id by done. by destruct p. Qed.

(** A run that starts at the smallest nonce. *)
Lemma run_nonces m x n : by_nonce m → (∀ k, k ∈ dom m → x ≤ k) → 0 ≤ n → (∀ k, x ≤ k < x + n → k ∈ dom m) →
  AccountNonce <$> txs_of (below (x + n) m) = seqZ x n.
Proof using.
  intros Hn Hmin Hn0 Hrun. assert (Hb : by_nonce (below (x + n) m)) by by apply by_nonce_filter.
  rewrite txs_of_nonces by done. apply sort_unique; [|apply sorted_sort|apply seqZ_sorted].
  rewrite merge_sort_Permutation. apply NoDup_Permutation; [apply NoDup_elements|apply NoDup_seqZ|].
  intros k. rewrite elem_of_elements, elem_of_seqZ. split.
  - intros [tx [Hk Hlt]%map_lookup_filter_Some]%elem_of_dom. apply elem_of_dom_2, Hmin in Hk. lia.
  - intros Hk. assert (k ∈ dom m) as [tx Htx]%elem_of_dom by (apply Hrun; lia). apply elem_of_dom. exists tx.
    apply map_lookup_filter_Some. split; [done|lia].
Qed.

(** Only what the lists hold matters. *)
Lemma pool_ok_contents extra p p' :
  signer p' = signer p → all p' = all p → priced p' = priced p →
  lists_ok T true (signer p) (pending p') → lists_ok T false (signer p) (queue p') →
  (∀ b, content (pending p') b = content (pending p) b) → (∀ b, content (queue p') b = content (queue p) b) →
  pool_ok T U extra p → pool_ok T U extra p'.
Proof using.
  intros E1 E2 E3 Hp' Hq' Ep Eq [H1 H2 H3 H4 H5 H6 H7 H8 H9].
  assert (Hin : ∀ b tx, in_pool p' b tx ↔ in_pool p b tx) by (intros b tx; unfold in_pool; by rewrite Ep, Eq).
  split; rewrite ?E1, ?E2, ?E3; try done.
  - intros b. by rewrite Ep, Eq.
  - intros tx Hx. destruct (H4 _ Hx) as [? Hout]. split; [done|]. intros b Hb. by apply (Hout b), Hin.
  - intros h tx. rewrite H6. by setoid_rewrite Hin.
Qed.

Lemma settle_queue p a l : pool_ok T U [] (queued p a l) → pool_ok T U [] (put_queue p (set_list (queue p) a l)).
Proof using.
  intros Hp. apply (pool_ok_contents [] (queued p a l)); try done; [apply Hp|apply lists_ok_set, Hp|].
  intros b. simpl. by rewrite content_set_list, content_insert.
Qed.

Lemma ready_ok p a l :
  pool_ok T U [] (queued p a l) → list_ok l → strict l = false → (∀ k, k ∈ dom (held l) → cur_nonce p a ≤ k) →
  ∃ ready l', l_Ready l (pend_nonce p a) = Ok (ready, l') ∧ list_ok l' ∧ strict l' = false ∧
    let p' := promote_all now p a ready in
    pool_ok T U [] (queued p' a l') ∧ queue p' = queue p ∧ all p' = all p ∧ kept p p' ∧ locals p' = locals p ∧ journal p' = journal p ∧
    (ms_ok (pendingState p) → ms_ok (pendingState p')) ∧ (filled p → filled p') ∧ (nonces_ok p → nonces_ok p').
Proof using All.
  intros Hp Hl Hs Hcur. destruct (l_Ready_spec l (pend_nonce p a) Hl) as [[Hr _]|(x & n & l' & Hrun & Hr & Hl' & Hs' & Eh)].
  { exists [], l. split; [done|]. by split_and!. }
  eexists _, l'. split; [exact Hr|]. split_and!; [done|by rewrite Hs'|]. intros p'.
  destruct Hrun as (Hx & Hmin & Hn0 & Hin & Hend). pose proof (ok_nonces _ (lo_txs l Hl)) as Hn.
  assert (Hb : by_nonce (below (x + n) (held l))) by by apply by_nonce_filter.
  pose proof (takes_below l l' (x + n) Hl Hl' Hs' Eh) as Ht.
  assert (Hp1 : pool_ok T U (txs_of (below (x + n) (held l)) ++ []) (queued p a l')).
  { assert (E : queued p a l' = put_queue (queued p a l) (<[a := l']> (queue (queued p a l)))) by (unfold queued; simpl; by rewrite insert_insert_eq).
    assert (Hla : queue (queued p a l) !! a = Some l) by (simpl; by rewrite lookup_insert_eq). rewrite E.
    eapply (take_queue T U [] (queued p a l) a l _ l'); try done; [|intros b; apply content_insert].
    eapply lists_ok_takes; [|done|done]. apply Hp. }
  destruct (promote_all_ok [] (queued p a l') a (txs_of (below (x + n) (held l))) Hp1) as (I1 & I2 & Ia & I3 & I4 & I5 & Im & If & I6).
  - by apply txs_of_NoDup.
  - intros tx Hx'. apply elem_of_txs_of in Hx'; [|done]. apply map_lookup_filter_Some in Hx' as [Hx' Hlt].
    assert (Hc : content (queue (queued p a l)) a !! AccountNonce tx = Some tx) by (simpl; by rewrite content_insert, decide_True).
    destruct (content_txs _ _ _ _ _ _ _ (pk_queue _ _ _ _ Hp) Hc) as (_ & Hsn & _). split_and!; [done| |].
    + pose proof (pk_apart _ _ _ _ Hp a) as Hd. by eapply map_disjoint_Some_r in Hc.
    + simpl. rewrite content_insert, decide_True, Eh by done. apply map_lookup_filter_None. right. intros ? _. lia.
  - unfold queued in I1, I2, Ia, I3, I4, I5, Im, If, I6. rewrite promote_all_put_queue in I1, I2, Ia, I3, I4, I5, Im, If, I6.
    assert (Eq : queue p' = queue p) by apply promote_all_queue. unfold queued. rewrite Eq. split_and!; try done; [by destruct I3|].
    intros Hno. eapply nonces_ok_eq; [..|apply I6]; try done; [by eapply nonces_ok_eq; [..|exact Hno]|].
    assert (x = pend_nonce p a) as ->; [|rewrite run_nonces; [|done|done|lia|done]; f_equal].
    + destruct (decide (x = pend_nonce p a)); [done|]. assert (Hxin : x ∈ dom (held l)) by (apply Hin; lia).
      assert (is_Some (content (pending p) a !! x)) as [tx Htx] by (apply (nk_run _ Hno); pose proof (Hcur _ Hxin); lia).
      apply elem_of_dom in Hxin as [tx' Htx']. pose proof (pk_apart _ _ _ _ Hp a) as Hd. simpl in Hd.
      rewrite content_insert, decide_True in Hd by done. exfalso. by eapply map_disjoint_spec.
    + rewrite <- (length_fmap AccountNonce), run_nonces; [rewrite length_seqZ; lia|done|done|lia|done].
Qed.

Lemma cap_ok p a l :
  pool_ok T U [] (queued p a l) → list_ok l → config_ok (config p) →
  ∃ over l', (if contains (locals p) a then Ok ([], l) else l_Cap l (i64 (AccountQueue (config p)))) = Ok (over, l') ∧
             list_ok l' ∧ pool_ok T U [] (queued (forget_all p over) a l').
Proof using All.
  intros Hp Hl Hc. destruct (contains (locals p) a); [by exists [], l|]. pose proof (ck_queue _ Hc) as Hq.
  rewrite i64_small by (unfold is_i64; lia).
  destruct (l_Cap_spec l (AccountQueue (config p)) Hl) as (l' & -> & Hl' & Hs' & Hsub & Et); [lia|].
  eexists _, l'. split; [reflexivity|]. split; [done|]. eapply drop_from_queued; [done|]. by apply takes_cap.
Qed.

Lemma promote_account_ok p a :
  pool_ok T U [] p → config_ok (config p) → ∃ p', promote_account now p a = Ok p' ∧ removal T U p p'.
Proof using All.
  intros Hp Hc. unfold promote_account. destruct (queue p !! a) as [l0|] eqn:E; [|exists p; split; [done|by apply removal_refl]].
  destruct (pk_queue _ _ _ _ Hp _ _ E) as (Hl0 & Hs0 & _).
  destruct (l_Forward_spec l0 (cur_nonce p a) Hl0) as (l1 & -> & Hl1 & Hs1 & E1). cbn [bind].
  set (old := txs_of _). pose proof (drop_from_queued p a l0 old l1 (queued_ok _ _ _ Hp E) (takes_below _ _ _ Hl0 Hl1 Hs1 E1)) as P1.
  pose proof (forget_all_same p old) as S1. set (p1 := forget_all p old) in *. clearbody p1.
  pose proof (l_Filter_spec l1 (cur_balance p1 a) (currentMaxGas p1) Hl1) as Hf.
  destruct (l_Filter l1 (cur_balance p1 a) (currentMaxGas p1)) as [[drops inv] l2]. destruct Hf as (Hd & Hl2 & Hs2 & Hf).
  rewrite Hs1, Hs0 in Hf. destruct Hf as [_ E2].
  pose proof (drop_from_queued p1 a l1 drops l2 P1 (takes_filter _ _ _ _ Hl1 Hl2 Hs2 Hd E2)) as P2.
  pose proof (forget_all_same p1 drops) as S2. set (p2 := forget_all p1 drops) in *. clearbody p2.
  destruct S1 as [Ep1 Eq1 Em1 Hk1 El1 Ej1 Ea1], S2 as [Ep2 Eq2 Em2 Hk2 El2 Ej2 Ea2].
  assert (Ecur : currentState p2 = currentState p) by (destruct Hk1, Hk2; congruence).
  destruct (ready_ok p2 a l2 P2 Hl2) as (ready & l3 & -> & Hl3 & Hs3 & Hr).
  { by rewrite Hs2, Hs1, Hs0. }
  { intros k [tx Hk]%elem_of_dom. rewrite E2 in Hk. apply map_lookup_filter_Some in Hk as [Hk _]. rewrite E1 in Hk.
    apply map_lookup_filter_Some in Hk as [_ Hk]. unfold cur_nonce in *. by rewrite Ecur. }
  cbn [bind]. cbv zeta in Hr. set (p3 := promote_all now p2 a ready) in *. clearbody p3.
  destruct Hr as (P3 & Eq3 & Ea3 & Hk3 & El3 & Ej3 & Hm3 & Hf3 & Hn3).
  assert (Hc3 : config_ok (config p3)) by (destruct Hk1, Hk2, Hk3; congruence).
  destruct (cap_ok p3 a l3 P3 Hl3 Hc3) as (over & l4 & -> & Hl4 & P4). cbn [bind].
  pose proof (forget_all_same p3 over) as S4. set (p4 := forget_all p3 over) in *. clearbody p4.
  destruct S4 as [Ep4 Eq4 Em4 Hk4 El4 Ej4 Ea4]. eexists. split; [reflexivity|]. split.
  - exact (settle_queue p4 a l4 P4).
  - intros Hn. apply (nonces_ok_eq p3); [by destruct Hk4|done|intros b; simpl; by rewrite Ep4|].
    apply Hn3. apply (nonces_ok_eq p); [done|by rewrite Em2|intros b; by rewrite Ep2, Ep1|done].
  - etrans; [exact Hk1|]. etrans; [exact Hk2|]. etrans; [exact Hk3|]. by destruct Hk4.
  - simpl. congruence.
  - simpl. congruence.
  - simpl. etrans; [exact Ea4|]. rewrite Ea3. by etrans.
  - simpl. rewrite Em4. intros Hm. apply Hm3. by rewrite Em2, Em1.
  - intros Hf. assert (F3 : filled p3) by (apply Hf3; intros b l; rewrite Ep2, Ep1; apply Hf). intros b l. simpl. rewrite Ep4. apply F3.
Qed.

Lemma promote_accounts_ok p l :
  pool_ok T U [] p → config_ok (config p) → ∃ p', promote_accounts now p l = Ok p' ∧ removal T U p p'.
Proof using All.
  revert p. induction l as [|a l IH]; intros p Hp Hc; simpl; [exists p; split; [done|by apply removal_refl]|].
  destruct (promote_account_ok p a Hp Hc) as (p1 & -> & H1). cbn [bind].
  destruct (IH p1) as (p2 & -> & H2); [apply H1|by rewrite (kp_config _ _ (rm_kept _ _ _ _ H1))|].
  exists p2. split; [done|]. by eapply removal_trans.
Qed.
End Steps.
