(* ===== verification/TxPoolLimits.v ===== *)
(** * The transaction pool: limits

    When there are too many pending transactions the greatest accounts lose
    some, until the limit is met or no remote account has more than its share;
    when there are too many queued ones the accounts with the latest activity
    lose theirs. *)

From Stdlib Require Import ZArith Lia.
From stdpp Require Import base option list gmap sets strings sorting.
From S2P Require Import Prelude Params Rlp Types Account State StateRevert Chain Transition.
From S2P Require Import Heap TxList TxListProps ManagedState TxPool TxPoolBase TxPoolSteps.

#[export] Instance more_first_order : WeakOrder more_first.
Proof. split; unfold more_first; intros *; rewrite ?Z.ltb_lt, ?Z.ltb_ge; lia. Qed.

(** ** Sums *)

Definition sum {A} (f : A → Z) (l : list A) : Z := foldr (λ a n, f a + n) 0 l.

Lemma sum_perm {A} (f : A → Z) l l' : l ≡ₚ l' → sum f l = sum f l'.
Proof. induction 1; simpl; lia. Qed.

Lemma sum_ext {A} (f g : A → Z) l : (∀ a, a ∈ l → f a = g a) → sum f l = sum g l.
Proof.
  induction l as [|a l IH]; intros H; simpl; [done|]. rewrite (H a) by by left. rewrite IH; [done|].
  intros b Hb. apply H. by right.
Qed.

Lemma sum_nonneg {A} (f : A → Z) l : (∀ a, 0 ≤ f a) → 0 ≤ sum f l.
Proof. intros H. induction l as [|a l IH]; simpl; [done|]. pose proof (H a). lia. Qed.

Lemma sum_elem {A} (f : A → Z) l a : (∀ a, 0 ≤ f a) → a ∈ l → f a ≤ sum f l.
Proof.
  intros H. induction l as [|b l IH]; intros Ha; [by apply elem_of_nil in Ha|]. simpl. pose proof (H b).
  apply elem_of_cons in Ha as [->|Ha]; [pose proof (sum_nonneg f l H)|pose proof (IH Ha)]; lia.
Qed.

Lemma sum_change {A} (f g : A → Z) l a :
  NoDup l → a ∈ l → (∀ b, b ≠ a → g b = f b) → sum g l = sum f l - f a + g a.
Proof.
  intros Hnd Hin Hne. induction Hnd as [|b l Hni Hnd IH]; [by apply elem_of_nil in Hin|]. simpl.
  apply elem_of_cons in Hin as [->|Hin].
  - rewrite (sum_ext g f l); [lia|]. intros c Hc. apply Hne. by intros ->.
  - rewrite IH, Hne by (done || (intros ->; done)). lia.
Qed.

Lemma foldl_u64 {A} (f : A → Z) l n : 0 ≤ n → (∀ a, 0 ≤ f a) → n + sum f l < two64 → foldl (λ n a, u64 (n + f a)) n l = n + sum f l.
Proof.
  intros Hn Hf. revert n Hn. induction l as [|a l IH]; intros n Hn Hb; simpl in *; [lia|].
  pose proof (Hf a). pose proof (sum_nonneg f l Hf). rewrite u64_small by (unfold is_u64; lia). rewrite IH by lia. lia.
Qed.

Section Limits.
Context {C : Crypto} {D : Database} {MO : MapOrder} {NO : NonceOrder}.
Context (T : txdata → Prop) {W : TxWorld T} (U : txdata → Prop).

Definition len (m : gmap Address txList) (a : Address) : Z := Z.of_nat (size (content m a)).

Definition tot (m : gmap Address txList) : Z := sum (len m) (elements (dom m)).

Lemma len_lookup (m : gmap Address txList) a l : m !! a = Some l → len m a = l_Len l.
Proof using. intros H. unfold len. by rewrite (content_lookup _ _ _ H). Qed.

Lemma len_pos (m : gmap Address txList) a : 0 < len m a → ∃ l, m !! a = Some l ∧ l_Len l = len m a ∧ held l ≠ ∅.
Proof using.
  intros H. unfold len, content in *. destruct (m !! a) as [l|]; [|done]. exists l. split_and!; [done|done|].
  intros E. rewrite E, map_size_empty in H. lia.
Qed.

Lemma count_tot m : tot m < two64 → count m = tot m.
Proof using.
  intros Hb. unfold count. rewrite <- (Z.add_0_l (tot m)). unfold tot in *. rewrite <- (sum_perm _ _ _ (range_perm (dom m))) in *.
  assert (Hnn : ∀ a, 0 ≤ len m a) by (intros a; unfold len; lia).
  rewrite <- (foldl_u64 (len m)); try done.
  assert (Hin : ∀ a, a ∈ range (dom m) → is_Some (m !! a)) by (intros a; rewrite range_perm, elem_of_elements; apply elem_of_dom).
  assert (Hle : ∀ a, a ∈ range (dom m) → len m a < two64).
  { intros a Ha. pose proof (sum_elem (len m) _ _ Hnn Ha). lia. }
  clear Hb. enough (∀ n, foldl (λ n a, u64 (n + match m !! a with Some l => u64 (l_Len l) | None => 0 end)) n (range (dom m)) =
                        foldl (λ n a, u64 (n + len m a)) n (range (dom m))) as He by apply He.
  revert Hin Hle. induction (range (dom m)) as [|a l IH]; intros Hin Hle n; simpl; [done|].
  destruct (Hin a) as [x Hx]; [by left|]. rewrite Hx, <- (len_lookup _ _ _ Hx).
  rewrite (u64_small (len m a)) by (unfold is_u64; split; [apply Hnn|apply Hle; by left]). apply IH.
  - intros b Hb. apply Hin. by right.
  - intros b Hb. apply Hle. by right.
Qed.

(** ** Dropping the last transaction of an account *)

Lemma cap_last l : list_ok l → held l ≠ ∅ →
  ∃ tx l', l_Cap l (l_Len l - 1) = Ok ([tx], l') ∧ takes l [tx] l' ∧ held l !! AccountNonce tx = Some tx ∧
    held l' = below (AccountNonce tx) (held l) ∧ l_Len l' = l_Len l - 1.
Proof using.
  intros Hl Hne. pose proof (ok_nonces _ (lo_txs l Hl)) as Hn.
  assert (Hlen : length (txs_of (held l)) = size (held l)) by by apply txs_of_length.
  destruct (decide (size (held l) = 0%nat)) as [E0|Hpos]; [by apply map_size_empty_inv in E0|].
  assert (ELen : l_Len l = Z.of_nat (size (held l))) by done.
  destruct (l_Cap_spec l (l_Len l - 1) Hl) as (l' & -> & Hl' & Hs' & Hsub & Et); [lia|].
  set (n := Z.to_nat (l_Len l - 1)) in *. pose proof (takes_cap l l' n Hl Hl' Hs' Hsub Et) as Ht.
  assert (length (drop n (txs_of (held l))) = 1%nat) as Hd by (rewrite length_drop; lia).
  destruct (drop n (txs_of (held l))) as [|tx [|? ?]] eqn:Ed; try done. exists tx, l'. split; [done|]. split; [done|].
  destruct (proj1 (tk_gone _ _ _ Ht tx)) as [H1 H2]; [by left|]. split; [done|].
  assert (Eh : ∀ k tx', held l' !! k = Some tx' ↔ held l !! k = Some tx' ∧ k < AccountNonce tx).
  { intros k tx'. split.
    - intros Hk. pose proof (lookup_weaken _ _ _ _ Hk Hsub) as Hk'. split; [done|].
      destruct (Hn _ _ Hk') as [<- _]. apply (elem_of_txs_of _ _ (ok_nonces _ (lo_txs l' Hl'))) in Hk. rewrite Et in Hk.
      pose proof (txs_of_sorted (held l) Hn) as Hso. rewrite <- (take_drop n (txs_of (held l))), Ed, fmap_app in Hso.
      assert (AccountNonce tx' ≤ AccountNonce tx).
      { eapply (proj1 (proj1 (StronglySorted_app _ _ _) Hso)); [by apply list_elem_of_fmap_2|by left]. }
      destruct (decide (AccountNonce tx' = AccountNonce tx)) as [E|]; [|lia].
      rewrite <- Et in Hk. apply (elem_of_txs_of _ _ (ok_nonces _ (lo_txs l' Hl'))) in Hk. congruence.
    - intros [Hk Hlt]. destruct (held l' !! k) as [t|] eqn:E; [|].
      + pose proof (lookup_weaken _ _ _ _ E Hsub). congruence.
      + destruct (Hn _ _ Hk) as [<- _]. assert (tx' ∈ [tx]) as ->%list_elem_of_singleton by (by apply (tk_gone _ _ _ Ht)). lia. }
  split.
  - apply map_eq. intros k. apply option_eq. intros t. rewrite Eh. unfold below. rewrite map_lookup_filter_Some. done.
  - assert (length (txs_of (held l')) = size (held l')) as E by (apply txs_of_length; apply (ok_nonces _ (lo_txs l' Hl'))).
    rewrite Et, length_take, Hlen in E. change (Z.of_nat (size (held l')) = l_Len l - 1). lia.
Qed.

(** A removal that may leave an account without transactions. *)
Record loss (p p' : TxPool) : Prop := {
  ls_ok : pool_ok T U [] p';
  ls_nonces : nonces_ok p → nonces_ok p';
  ls_kept : kept p p';
  ls_locals : locals p' = locals p;
  ls_journal : journal p' = journal p;
  ls_all : all p' ⊆ all p;
  ls_managed : ms_ok (pendingState p) → ms_ok (pendingState p')
}.

Lemma loss_refl p : pool_ok T U [] p → loss p p.
Proof using. by split. Qed.

Lemma loss_trans p1 p2 p3 : loss p1 p2 → loss p2 p3 → loss p1 p3.
Proof using. intros [] []. split; try done; [tauto|by etrans|congruence|congruence|by etrans|tauto]. Qed.

(** Pending transactions are dropped, the queue stays; [d] says how many of
    each account. *)
Record dropped (p p' : TxPool) (d : Address → Z) : Prop := {
  dr_loss : loss p p';
  dr_queue : queue p' = queue p;
  dr_dom : dom (pending p') = dom (pending p);
  dr_len : ∀ a, len (pending p') a = len (pending p) a - d a
}.

Lemma dropped_refl p : pool_ok T U [] p → dropped p p (λ _, 0).
Proof using. intros Hp. split; [by apply loss_refl|done..|]. intros a. simpl. lia. Qed.

Lemma dropped_trans p1 p2 p3 d1 d2 : dropped p1 p2 d1 → dropped p2 p3 d2 → dropped p1 p3 (λ a, d1 a + d2 a).
Proof using.
  intros [R1 Q1 D1 L1] [R2 Q2 D2 L2]. split; [by eapply loss_trans|congruence..|]. intros a. rewrite L2, L1. lia.
Qed.

Lemma dropped_ext p p' d d' : (∀ a, d a = d' a) → dropped p p' d → dropped p p' d'.
Proof using. intros E [H1 H2 H3 H4]. split; try done. intros a. by rewrite H4, E. Qed.

Lemma dropped_tot p p' d : dropped p p' d → tot (pending p') = tot (pending p) - sum d (elements (dom (pending p))).
Proof using.
  intros [_ _ Hd Hl]. unfold tot. rewrite Hd. induction (elements _) as [|a l IH]; simpl; [lia|]. rewrite Hl, IH. lia.
Qed.

Lemma drop_last_ok p a :
  pool_ok T U [] p → 0 < len (pending p) a →
  ∃ p', drop_last p a = Ok p' ∧ dropped p p' (λ b, if decide (b = a) then 1 else 0).
Proof using All.
  intros Hp (l & Hl & EL & Hne)%len_pos. destruct (pk_pending _ _ _ _ Hp _ _ Hl) as (Hlo & _ & _).
  destruct (cap_last l Hlo Hne) as (tx & l' & Hcap & Ht & Htx & Eh & ELl').
  unfold drop_last, pending_list. rewrite Hl. cbn [bind]. rewrite Hcap. cbn [bind foldl].
  set (p1 := put_pending p (<[a := l']> (pending p))).
  assert (P1 : pool_ok T U [tx] p1).
  { rewrite <- (app_nil_r [tx]). eapply (take_pending T U [] p a l [tx] l'); try done; [|intros b; apply content_insert].
    eapply lists_ok_takes; [|done|done]. apply Hp. }
  eexists. split; [reflexivity|]. destruct (lower_nonce_eq (forget p1 tx) a (AccountNonce tx)) as (Es & Ep & Eq & Ea & Epr & Hk).
  assert (Hpd : pending (lower_nonce (forget p1 tx) a (AccountNonce tx)) = <[a := l']> (pending p)) by by rewrite Ep.
  split.
  - split.
    + eapply pool_ok_eq; [done..|]. by apply forget_ok.
    + intros Hn. apply (lower_nonce_ok T U p); try done.
      * intros b. simpl. rewrite content_insert, (content_lookup _ _ _ Hl), Eh. done.
      * rewrite (content_lookup _ _ _ Hl). by eexists.
      * apply (ok_nonces _ (lo_txs l Hlo) _ _ Htx).
    + etrans; [|exact Hk]. done.
    + unfold lower_nonce. by case_match.
    + unfold lower_nonce. by case_match.
    + rewrite Ea. apply delete_subseteq.
    + intros Hm. apply lower_nonce_managed; [|done]. apply (ok_nonces _ (lo_txs l Hlo) _ _ Htx).
  - by rewrite Eq.
  - rewrite Hpd. by apply dom_insert_lookup_L.
  - intros b. rewrite Hpd. unfold len at 1. rewrite content_insert. case_decide as E; [|unfold len; lia]. subst b.
    change (l_Len l' = len (pending p) a - 1). rewrite <- EL. done.
Qed.

Lemma drop_each_ok p offs n :
  pool_ok T U [] p → NoDup offs → (∀ a, a ∈ offs → 0 < len (pending p) a) → tot (pending p) = n → n < two64 →
  ∃ p', drop_each p offs n = Ok (p', tot (pending p')) ∧ dropped p p' (λ b, if decide (b ∈ offs) then 1 else 0).
Proof using All.
  revert p n. induction offs as [|a offs IH]; intros p n Hp Hnd Hpos Ht Hn; simpl.
  { exists p. subst n. split; [done|]. eapply dropped_ext; [|by apply dropped_refl]. done. }
  apply NoDup_cons in Hnd as [Hni Hnd]. destruct (drop_last_ok p a Hp) as (p1 & -> & H1); [apply Hpos; by left|]. cbn [bind].
  pose proof (dropped_tot _ _ _ H1) as Ht1.
  assert (Es : sum (λ b, if decide (b = a) then 1 else 0) (elements (dom (pending p))) = 1).
  { rewrite (sum_change (λ _, 0) _ _ a); [|apply NoDup_elements| |intros b Hb; simpl; by rewrite decide_False].
    - simpl. rewrite decide_True by done. clear. induction (elements _); simpl; lia.
    - destruct (len_pos (pending p) a) as (l & Hl & _); [apply Hpos; by left|]. apply elem_of_elements. by eapply elem_of_dom_2. }
  assert (0 ≤ tot (pending p1)) by (apply sum_nonneg; intros b; unfold len; lia).
  rewrite u64_small by (unfold is_u64; lia).
  destruct (IH p1 (n - 1)) as (p2 & -> & H2); [apply H1|done| |lia|lia|].
  { intros b Hb. rewrite (dr_len _ _ _ H1). simpl. rewrite decide_False by (intros ->; done). pose proof (Hpos b). rewrite elem_of_cons in H0. naive_solver lia. }
  exists p2. split; [done|]. eapply dropped_ext; [|by eapply dropped_trans]. intros b. simpl.
  destruct (decide (b = a)), (decide (b ∈ offs)), (decide (b ∈ a :: offs)) as [Hin|Hin]; try done;
    exfalso; rewrite elem_of_cons in Hin; naive_solver.
Qed.

Lemma reduce_ok fuel p offs addr thr n :
  pool_ok T U [] p → NoDup offs → addr ∈ offs → (∀ a, a ∈ offs → len (pending p) a = len (pending p) addr) → 1 ≤ thr →
  tot (pending p) = n → n < two64 → (Z.to_nat (len (pending p) addr) ≤ fuel)%nat → 0 < len (pending p) addr →
  ∃ p' d, reduce fuel p offs addr thr n = Ok (p', tot (pending p')) ∧ 0 ≤ d ∧
    dropped p p' (λ b, if decide (b ∈ offs) then d else 0) ∧ thr `min` len (pending p) addr ≤ len (pending p) addr - d ∧
    (tot (pending p') ≤ GlobalSlots (config p) ∨ len (pending p') addr ≤ thr).
Proof using All.
  revert p n. induction fuel as [|fuel IH]; intros p n Hp Hnd Hin Heq Hthr Ht Hn Hfu Hpos; [lia|]. simpl.
  destruct (Z.ltb_spec (GlobalSlots (config p)) n) as [Hg|Hg].
  2:{ exists p, 0. subst n. split_and!; [done|done| |lia|by left]. eapply dropped_ext; [|by apply dropped_refl]. intros b. simpl. by case_decide. }
  destruct (len_pos _ _ Hpos) as (l & Hl & EL & _). unfold pending_list. rewrite Hl. cbn [bind].
  assert (len (pending p) addr ≤ tot (pending p)) as Hle.
  { apply sum_elem; [intros b; unfold len; lia|]. apply elem_of_elements. by eapply elem_of_dom_2. }
  rewrite u64_small by (unfold is_u64; rewrite EL; unfold len in *; lia). rewrite EL.
  destruct (Z.ltb_spec thr (len (pending p) addr)) as [Hlt|Hlt].
  2:{ exists p, 0. subst n. split_and!; [done|done| |lia|by right]. eapply dropped_ext; [|by apply dropped_refl]. intros b. simpl. by case_decide. }
  destruct (drop_each_ok p offs n Hp Hnd) as (p1 & -> & H1); [|done|done|].
  { intros a Ha. by rewrite (Heq a Ha). }
  cbn [bind]. pose proof (dropped_tot _ _ _ H1) as Ht1.
  assert (0 ≤ sum (λ b, if decide (b ∈ offs) then 1 else 0) (elements (dom (pending p)))) by (apply sum_nonneg; intros b; case_decide; lia).
  pose proof (dr_len _ _ _ H1) as HL1. assert (Ha1 : len (pending p1) addr = len (pending p) addr - 1) by (rewrite HL1; simpl; by rewrite decide_True).
  pose proof (kp_config _ _ (ls_kept _ _ (dr_loss _ _ _ H1))) as Ec.
  destruct (IH p1 (tot (pending p1))) as (p2 & d & -> & Hd & H2 & Hmin & Hend); try done; try lia; [apply H1| |].
  { intros a Ha. rewrite !HL1. simpl. rewrite !decide_True by done. rewrite Heq by done. lia. }
  exists p2, (d + 1). split_and!; [done|lia| |lia|by rewrite <- Ec]. eapply dropped_ext; [|by eapply dropped_trans].
  intros b. simpl. case_decide; lia.
Qed.

(** ** Bringing the greatest accounts down together *)

(** [h] are the accounts over their share that are not yet among [offs], which
    all have the same number of transactions. *)
Record offending (p : TxPool) (h : list (Address * Z)) (offs : list Address) : Prop := {
  of_heap : is_heap more_first h;
  of_nodup : NoDup (offs ++ h.*1);
  of_key : ∀ a k, (a, k) ∈ h → len (pending p) a = k ∧ AccountSlots (config p) < k;
  of_same : ∀ a, a ∈ offs → GlobalSlots (config p) < tot (pending p) →
    AccountSlots (config p) < len (pending p) a ∧ (∀ b, b ∈ offs → len (pending p) b = len (pending p) a) ∧
    ∀ b k, (b, k) ∈ h → k ≤ len (pending p) a;
  of_remote : ∀ a, a ∈ offs ++ h.*1 → contains (locals p) a = false;
  of_all : ∀ a, contains (locals p) a = false → AccountSlots (config p) < len (pending p) a → a ∈ offs ++ h.*1
}.

(** Some transactions of remote accounts are dropped, none of an account's
    share. *)
Definition limited (p p' : TxPool) : Prop :=
  ∃ d, dropped p p' d ∧ ∀ a, 0 ≤ d a ∧ (contains (locals p) a = true → d a = 0) ∧
    AccountSlots (config p) `min` len (pending p) a ≤ len (pending p') a.

Lemma limited_refl p : pool_ok T U [] p → limited p p.
Proof using. intros Hp. eexists. split; [by apply dropped_refl|]. intros a. split_and!; [done|done|lia]. Qed.

Lemma limited_trans p1 p2 p3 : limited p1 p2 → limited p2 p3 → limited p1 p3.
Proof using.
  intros (d1 & H1 & Hd1) (d2 & H2 & Hd2). eexists. split; [by eapply dropped_trans|]. simpl. intros a.
  destruct (Hd1 a) as (? & Hl1 & Hm1), (Hd2 a) as (? & Hl2 & Hm2). pose proof (dr_loss _ _ _ H1) as Hr.
  rewrite (ls_locals _ _ Hr) in Hl2. rewrite (kp_config _ _ (ls_kept _ _ Hr)) in Hm2.
  split_and!; [lia| |lia]. intros Hl. rewrite Hl1, Hl2; done.
Qed.

Lemma limited_reduce p p' (offs : list Address) d thr :
  dropped p p' (λ b, if decide (b ∈ offs) then d else 0) → 0 ≤ d → (∀ a, a ∈ offs → contains (locals p) a = false) →
  (∀ a, a ∈ offs → thr `min` len (pending p) a ≤ len (pending p) a - d) → AccountSlots (config p) ≤ thr → limited p p'.
Proof using.
  intros H Hd Hr Hm Ht. eexists. split; [exact H|]. intros a. rewrite (dr_len _ _ _ H). simpl. case_decide as Hin; [|split_and!; [done|done|lia]].
  rewrite (Hr a Hin). split_and!; [done|done|]. pose proof (Hm a Hin). lia.
Qed.

Lemma offending_join p h offs x k h' p1 :
  offending p h offs → h ≡ₚ (x, k) :: h' → is_heap more_first h' → (∀ y, y ∈ h' → above more_first (x, k) y) →
  config p1 = config p → locals p1 = locals p →
  (∀ a, a ∉ offs → len (pending p1) a = len (pending p) a) →
  (∀ a, len (pending p1) a ≤ len (pending p) a) →
  (GlobalSlots (config p) < tot (pending p1) → ∀ a, a ∈ offs → len (pending p1) a = k) →
  offending p1 h' (offs ++ [x]).
Proof using.
  intros [O1 O2 O3 O4 O5 O6] Hperm Hh' Hab Ec El Hout Hle Hsame.
  assert (Hp1 : h.*1 ≡ₚ x :: h'.*1) by by rewrite Hperm.
  assert (Hnd : NoDup (offs ++ x :: h'.*1)) by by rewrite <- Hp1.
  assert (Hin : ∀ a, a ∈ (offs ++ [x]) ++ h'.*1 ↔ a ∈ offs ++ h.*1) by (intros a; rewrite Hp1, <- app_assoc; done).
  assert (Hxo : x ∉ offs).
  { apply NoDup_app in Hnd as (_ & Hd & _). intros Hx. apply (Hd x Hx). by left. }
  assert (Hk : len (pending p) x = k ∧ AccountSlots (config p) < k) by (apply O3; rewrite Hperm; by left).
  split; rewrite ?Ec, ?El; try done.
  - by rewrite <- app_assoc.
  - intros a j Hj. rewrite Hout; [apply O3; rewrite Hperm; by right|]. intros Ha.
    apply NoDup_app in Hnd as (_ & Hd & _). apply (Hd a Ha). right. by apply (list_elem_of_fmap_2 fst _ (a, j)).
  - intros a Ha Hg. assert (Hall : ∀ b, b ∈ offs ++ [x] → len (pending p1) b = k).
    { intros b [Hb| ->%list_elem_of_singleton]%elem_of_app; [by apply Hsame|]. rewrite Hout by done. apply Hk. }
    rewrite (Hall a Ha). split_and!; [apply Hk|exact Hall|]. intros b j Hj. specialize (Hab _ Hj). unfold above, more_first in Hab. simpl in Hab.
    apply Z.ltb_ge in Hab. done.
  - intros a Ha. by apply O5, Hin.
  - intros a Ha Hlt. apply Hin, O6; [done|]. pose proof (Hle a). lia.
Qed.

Definition bring_down (p : TxPool) (offs : list Address) (x : Address) : result (TxPool * Z) :=
  match last offs with
  | None => Ok (p, tot (pending p))
  | Some prev => let* l := pending_list p x in reduce (reduce_fuel p prev) p offs prev (l_Len l) (tot (pending p))
  end.

Lemma bring_down_ok p h offs x k h' :
  pool_ok T U [] p → config_ok (config p) → tot (pending p) < two64 → GlobalSlots (config p) < tot (pending p) →
  offending p h offs → h ≡ₚ (x, k) :: h' → is_heap more_first h' → (∀ y, y ∈ h' → above more_first (x, k) y) →
  ∃ p1, bring_down p offs x = Ok (p1, tot (pending p1)) ∧ limited p p1 ∧ offending p1 h' (offs ++ [x]).
Proof using All.
  intros Hp Hc Ht Hg Ho Hperm Hh' Hab. unfold bring_down.
  assert (Hk : len (pending p) x = k ∧ AccountSlots (config p) < k) by (apply (of_key _ _ _ Ho); rewrite Hperm; by left).
  destruct Hk as [Hk Hks]. pose proof (ck_slots _ Hc) as Hs. destruct (last offs) as [prev|] eqn:El.
  2:{ exists p. apply last_None in El. subst offs. split_and!; [done|by apply limited_refl|].
      eapply offending_join; try done. intros _ a Ha. by apply elem_of_nil in Ha. }
  assert (Hpr : prev ∈ offs) by by apply last_Some_elem_of.
  destruct (of_same _ _ _ Ho prev Hpr Hg) as (S1 & S2 & S3).
  assert (Hkle : k ≤ len (pending p) prev) by (apply (S3 x); rewrite Hperm; by left).
  destruct (len_pos (pending p) x) as (l & Hl & EL & _); [lia|]. unfold pending_list. rewrite Hl. cbn [bind].
  destruct (len_pos (pending p) prev) as (lp & Hlp & ELp & _); [lia|]. unfold reduce_fuel. rewrite Hlp, EL, ELp.
  pose proof (of_nodup _ _ _ Ho) as Hnd. apply NoDup_app in Hnd as (Hnd1 & Hnd2 & _).
  destruct (reduce_ok (Z.to_nat (len (pending p) prev)) p offs prev (len (pending p) x) (tot (pending p))) as (p1 & d & -> & Hd & Hdr & Hmin & Hend);
    try done; try lia.
  pose proof (dr_loss _ _ _ Hdr) as Hr. pose proof (dr_len _ _ _ Hdr) as HL. simpl in HL. exists p1. split_and!; [done| |].
  { eapply (limited_reduce p p1 offs d (len (pending p) x)); [done|done| |intros a Ha; by rewrite (S2 a Ha)|lia].
    intros a Ha. apply (of_remote _ _ _ Ho), elem_of_app. by left. }
  apply (offending_join p h offs x k h' p1); try done; [apply Hr|apply Hr| | |].
  - intros a Ha. rewrite HL, decide_False by done. lia.
  - intros a. rewrite HL. case_decide; lia.
  - intros Hg1 a Ha. rewrite HL, decide_True, (S2 a) by done. destruct Hend as [?|Hend]; [lia|]. rewrite HL, decide_True in Hend by done. lia.
Qed.

Lemma equalize_ok fuel p h offs :
  pool_ok T U [] p → config_ok (config p) → tot (pending p) < two64 → offending p h offs → (length h ≤ fuel)%nat →
  ∃ p' h' offs', equalize fuel p h offs (tot (pending p)) = Ok (p', offs', tot (pending p')) ∧ limited p p' ∧
    offending p' h' offs' ∧ (h' = [] ∨ tot (pending p') ≤ GlobalSlots (config p)).
Proof using All.
  revert p h offs. induction fuel as [|fuel IH]; intros p h offs Hp Hc Ht Ho Hf; simpl.
  { exists p, h, offs. split_and!; [done|by apply limited_refl|done|left; by destruct h; simpl in *; [|lia]]. }
  destruct (Z.ltb_spec (GlobalSlots (config p)) (tot (pending p))) as [Hg|Hg].
  2:{ exists p, h, offs. split_and!; [done|by apply limited_refl|done|by right]. }
  destruct h as [|x0 h0] eqn:Eh; [exists p, [], offs; split_and!; [done|by apply limited_refl|done|by left]|]. rewrite <- Eh in *.
  destruct (heap_Pop_spec more_first h x0 h0 (of_heap _ _ _ Ho) Eh) as (h' & -> & Hperm & Hh' & Hab). destruct x0 as [x k].
  assert (Hlen : (length h' ≤ fuel)%nat) by (rewrite Hperm in Hf; simpl in Hf; lia).
  destruct (bring_down_ok p h offs x k h' Hp Hc Ht Hg Ho Hperm Hh' Hab) as (p1 & Hb & Hl1 & Ho1).
  unfold bring_down in Hb. rewrite Hb. cbn [bind]. pose proof Hl1 as (d & Hd & Hd0). pose proof (dr_loss _ _ _ Hd) as Hr.
  pose proof (kp_config _ _ (ls_kept _ _ Hr)) as Ec. pose proof (dropped_tot _ _ _ Hd) as Ht1.
  assert (0 ≤ sum d (elements (dom (pending p)))) by (apply sum_nonneg; intros a; apply Hd0).
  destruct (IH p1 h' (offs ++ [x])) as (p2 & h2 & offs2 & -> & Hl2 & Ho2 & Hend); [apply Hr|by rewrite Ec|lia|done|done|].
  exists p2, h2, offs2. split_and!; [done|by eapply limited_trans|done|by rewrite <- Ec].
Qed.

Definition over_share (p : TxPool) (a : Address) : Prop :=
  contains (locals p) a = false ∧ AccountSlots (config p) < len (pending p) a.

Lemma spammers_spec p : tot (pending p) < two63 → config_ok (config p) →
  is_heap more_first (spammers p) ∧
  spammers p ≡ₚ (λ a, (a, len (pending p) a)) <$> filter (over_share p) (range (dom (pending p))).
Proof using.
  intros Ht Hc. pose proof (ck_slots _ Hc) as Hs.
  assert (Hb : ∀ a l, pending p !! a = Some l → l_Len l = len (pending p) a ∧ is_u64 (l_Len l) ∧ is_i64 (l_Len l)).
  { intros a l Hl. pose proof (len_lookup _ _ _ Hl) as E. rewrite <- E. split; [done|].
    assert (0 ≤ len (pending p) a ≤ tot (pending p)).
    { split; [unfold len; lia|]. apply sum_elem; [intros b; unfold len; lia|]. apply elem_of_elements. by eapply elem_of_dom_2. }
    unfold is_u64, is_i64, two64, two63 in *. lia. }
  unfold spammers. set (f := λ (h : list (Address * Z)) a, _).
  assert (Hf : ∀ h a, f h a = if decide (over_share p a) then heap_Push more_first h (a, len (pending p) a) else h).
  { intros h a. unfold f. destruct (pending p !! a) as [l|] eqn:El.
    - destruct (Hb a l El) as (E & Hu & Hi). rewrite u64_small, i64_small, E by done.
      unfold over_share. case_match eqn:Hx.
      + apply andb_prop in Hx as [Hx1 Hx2]. rewrite decide_True; [done|]. apply negb_true_iff in Hx1. by apply Z.ltb_lt in Hx2.
      + rewrite decide_False; [done|]. intros [H1 H2]. rewrite H1 in Hx. simpl in Hx. apply Z.ltb_ge in Hx. lia.
    - rewrite decide_False; [done|]. intros [_ H]. unfold len, content in H. rewrite El, map_size_empty in H. lia. }
  rewrite <- (app_nil_r (_ <$> _)). assert (H0 : is_heap more_first []) by exact (heap_Init_heap more_first []).
  revert H0. generalize (@nil (Address * Z)). induction (range (dom (pending p))) as [|a l IH]; intros h Hh; [done|].
  cbn [foldl]. rewrite Hf, filter_cons. case_decide as Ho.
  - rewrite fmap_cons. destruct (IH _ (heap_Push_heap more_first h (a, len (pending p) a) Hh)) as [I1 I2]. split; [done|].
    rewrite I2, heap_Push_perm. simpl. by rewrite <- Permutation_middle.
  - by apply IH.
Qed.

Lemma spammers_ok p : tot (pending p) < two63 → config_ok (config p) → offending p (spammers p) [].
Proof using.
  intros Ht Hc. destruct (spammers_spec p Ht Hc) as [Hh Hperm].
  assert (Hp1 : (spammers p).*1 ≡ₚ filter (over_share p) (range (dom (pending p)))).
  { rewrite Hperm, <- list_fmap_compose. simpl. by rewrite list_fmap_id. }
  split; simpl; try done.
  - rewrite Hp1. apply NoDup_filter. rewrite range_perm. apply NoDup_elements.
  - intros a k Hk. rewrite Hperm in Hk. apply list_elem_of_fmap in Hk as (b & [= -> ->] & [[_ Hs] _]%list_elem_of_filter). done.
  - intros a Ha. by apply elem_of_nil in Ha.
  - intros a Ha. rewrite Hp1 in Ha. apply list_elem_of_filter in Ha as [[? _] _]. done.
  - intros a Hl Hs. rewrite Hp1. apply list_elem_of_filter. split; [done|]. rewrite range_perm, elem_of_elements.
    destruct (len_pos (pending p) a) as (l & El & _); [pose proof (ck_slots _ Hc); lia|]. by eapply elem_of_dom_2.
Qed.

(** The limit holds, or no remote account has more than its share. *)
Lemma limit_pending_ok p :
  pool_ok T U [] p → config_ok (config p) → tot (pending p) < two63 →
  ∃ p', limit_pending p = Ok p' ∧ limited p p' ∧ (tot (pending p) ≤ GlobalSlots (config p) → p' = p) ∧
    (tot (pending p') ≤ GlobalSlots (config p) ∨
     ∀ a, contains (locals p) a = false → len (pending p') a ≤ AccountSlots (config p)).
Proof using All.
  intros Hp Hc Ht. assert (Ht' : tot (pending p) < two64) by (unfold two63, two64 in *; lia). unfold limit_pending. rewrite count_tot by done.
  destruct (Z.ltb_spec (GlobalSlots (config p)) (tot (pending p))) as [Hg|Hg].
  2:{ exists p. split_and!; [done|by apply limited_refl|done|by left]. }
  destruct (equalize_ok (length (spammers p)) p (spammers p) [] Hp Hc Ht') as (p1 & h & offs & -> & Hl1 & Ho & Hend); [by apply spammers_ok|done|].
  cbn [bind]. pose proof Hl1 as (d & Hd & Hd0). pose proof (dr_loss _ _ _ Hd) as Hr.
  pose proof (kp_config _ _ (ls_kept _ _ Hr)) as Ec. pose proof (ls_locals _ _ Hr) as El. pose proof (dropped_tot _ _ _ Hd) as Ht1.
  assert (0 ≤ sum d (elements (dom (pending p)))) by (apply sum_nonneg; intros a; apply Hd0).
  destruct (decide (tot (pending p1) ≤ GlobalSlots (config p))) as [Hok|Hno].
  - assert (Hst : ∀ addr, reduce (reduce_fuel p1 addr) p1 offs addr (AccountSlots (config p1)) (tot (pending p1)) = Ok (p1, tot (pending p1))).
    { intros addr. destruct (reduce_fuel p1 addr); simpl; by rewrite Ec, (proj2 (Z.ltb_ge _ _)). }
    exists p1. split_and!; [|done|lia|by left]. destruct (last offs); [by rewrite Hst|done].
  - destruct Hend as [->|?]; [|lia]. destruct (last offs) as [addr|] eqn:Elast.
    2:{ exists p1. split_and!; [done|done|lia|right]. apply last_None in Elast. subst offs. intros a Ha. rewrite <- El in Ha.
        destruct (decide (len (pending p1) a ≤ AccountSlots (config p))); [done|].
        pose proof (of_all _ _ _ Ho a Ha) as Hin. rewrite Ec in Hin. simpl in Hin. exfalso. apply (not_elem_of_nil a), Hin. lia. }
    assert (Hin : addr ∈ offs) by by apply last_Some_elem_of. pose proof (ck_slots _ Hc) as Hs.
    destruct (of_same _ _ _ Ho addr Hin) as (S1 & S2 & _); [rewrite Ec; lia|]. pose proof (of_nodup _ _ _ Ho) as Hnd. simpl in Hnd. rewrite app_nil_r in Hnd.
    destruct (len_pos (pending p1) addr) as (l & Hl & EL & _); [rewrite Ec in S1; lia|]. unfold reduce_fuel. rewrite Hl, EL.
    destruct (reduce_ok (Z.to_nat (len (pending p1) addr)) p1 offs addr (AccountSlots (config p1)) (tot (pending p1))) as (p2 & d' & -> & Hd' & Hdr & Hmin & Hend);
      try done; [apply Hr|rewrite Ec; lia|lia|rewrite Ec in S1; lia|].
    cbn [bind]. exists p2. pose proof (of_remote _ _ _ Ho) as Hrem. simpl in Hrem. rewrite app_nil_r in Hrem.
    split_and!; [done| |lia|].
    + eapply limited_trans; [done|]. eapply (limited_reduce p1 p2 offs d' (AccountSlots (config p1))); try done.
      intros a Ha. by rewrite (S2 a Ha).
    + rewrite Ec in Hend. destruct Hend as [?|Hend]; [by left|right]. intros a Ha. rewrite <- El in Ha.
      pose proof (dr_len _ _ _ Hdr) as HL. simpl in HL. rewrite HL. case_decide as Hina.
      * rewrite HL, decide_True in Hend by done. by rewrite (S2 a Hina).
      * destruct (decide (len (pending p1) a ≤ AccountSlots (config p))); [lia|].
        pose proof (of_all _ _ _ Ho a Ha) as Hx. rewrite Ec, app_nil_r in Hx. exfalso. apply Hina, Hx. lia.
Qed.

(** No account lost its last transaction. *)
Lemma limited_removal p p' : config_ok (config p) → limited p p' → removal T U p p'.
Proof using.
  intros Hc (d & Hd & Hl). destruct (dr_loss _ _ _ Hd) as [L1 L2 L3 L4 L5 L6 L7]. split; try done.
  intros Hf a l Ha. assert (a ∈ dom (pending p)) as [l0 Hl0]%elem_of_dom by (rewrite <- (dr_dom _ _ _ Hd); by eapply elem_of_dom_2).
  pose proof (Hf a l0 Hl0) as Hne. destruct (Hl a) as (_ & _ & Hmin). pose proof (ck_slots _ Hc).
  rewrite (len_lookup _ _ _ Hl0), (len_lookup _ _ _ Ha) in Hmin. intros E. apply Hne, map_size_empty_inv.
  change (l_Len l0) with (Z.of_nat (size (held l0))) in Hmin. change (l_Len l) with (Z.of_nat (size (held l))) in Hmin.
  rewrite E, map_size_empty in Hmin. lia.
Qed.

(** ** The limit of the queue *)

(** Only queued transactions go. *)
Record unqueued (p p' : TxPool) : Prop := {
  un_removal : removal T U p p';
  un_pending : pending p' = pending p;
  un_state : pendingState p' = pendingState p;
  un_beats : beats p' = beats p
}.

#[global] Instance unqueued_trans : Transitive unqueued.
Proof using. intros p1 p2 p3 [R1 P1 S1 B1] [R2 P2 S2 B2]. split; [by eapply removal_trans|congruence..]. Qed.

Lemma unqueued_refl p : pool_ok T U [] p → unqueued p p.
Proof using. intros Hp. by split; [apply removal_refl|..]. Qed.

Lemma flatten_queued_ok p a l :
  pool_ok T U [] p → queue p !! a = Some l →
  ∃ p', flatten_queued p a = Ok (u64 (len (queue p) a), txs_of (held l), p') ∧ unqueued p p' ∧
    (∀ b, content (queue p') b = content (queue p) b) ∧ (∀ b, b ≠ a → queue p' !! b = queue p !! b).
Proof using All.
  intros Hp Hl. unfold flatten_queued. rewrite Hl. destruct (pk_queue _ _ _ _ Hp _ _ Hl) as (Hlo & Hs & Htx).
  pose proof (l_Flatten_spec l Hlo) as Hf. destruct (l_Flatten l) as [c l']. destruct Hf as (-> & Hlo' & Hs' & Eh).
  rewrite <- (len_lookup _ _ _ Hl). eexists. split; [reflexivity|].
  assert (Hc : ∀ b, content (queue (put_queue p (<[a := l']> (queue p)))) b = content (queue p) b).
  { intros b. simpl. rewrite content_insert. case_decide; [|done]. subst b. by rewrite (content_lookup _ _ _ Hl). }
  split_and!; [|exact Hc|intros b Hb; simpl; by rewrite lookup_insert_ne]. split; try done. split; try done.
  - eapply pool_ok_contents; [..|exact Hp]; try done; [apply Hp|]. apply lists_ok_insert; [apply Hp|done|by rewrite Hs'|].
    intros k tx Hk. rewrite Eh in Hk. by apply (Htx k).
  - intros Hn. by apply (nonces_ok_eq p).
Qed.

Lemma remove_all_queued p a (l : list txdata) b :
  pool_ok T U [] p → NoDup (AccountNonce <$> l) → (∀ tx, tx ∈ l → content (queue p) a !! AccountNonce tx = Some tx) →
  ∃ p', remove_all p l b = Ok p' ∧ unqueued p p' ∧ (∀ c, c ≠ a → queue p' !! c = queue p !! c) ∧
    len (queue p') a = len (queue p) a - Z.of_nat (length l).
Proof using All.
  revert p. induction l as [|tx l IH]; intros p Hp Hnd Hin; simpl.
  { exists p. split_and!; [done|by apply unqueued_refl|done|lia]. }
  apply NoDup_cons in Hnd as [Hni Hnd]. assert (Htx : content (queue p) a !! AccountNonce tx = Some tx) by (apply Hin; by left).
  destruct (removeTx_queued T U p a tx b Hp Htx) as (p1 & -> & Hr & E1 & E2 & E3 & [U1 U2 U3] & _). cbn [bind].
  destruct (IH p1 (rm_ok _ _ _ _ Hr) Hnd) as (p2 & -> & Hu & Ho & Hl).
  { intros tx' Hx. rewrite U2, lookup_delete_ne; [apply Hin; by right|]. intros E. apply Hni. rewrite E. by apply list_elem_of_fmap_2. }
  exists p2. split_and!; [done|etrans; [|exact Hu]; by split| |].
  - intros c Hc. by rewrite Ho, U1.
  - rewrite Hl. unfold len in *. rewrite U2, (map_size_delete_Some (AccountNonce tx) (content (queue p) a)) by by eexists.
    assert (size (content (queue p) a) ≠ 0%nat) by (intros E0%map_size_empty_inv; rewrite E0 in Htx; done). lia.
Qed.

Lemma drop_queued_ok l p n :
  pool_ok T U [] p → NoDup l → (∀ a, a ∈ l → is_Some (queue p !! a)) → 0 ≤ n < two64 → (∀ a, len (queue p) a < two64) →
  ∃ p', drop_queued p l n = Ok p' ∧ unqueued p p' ∧ (∀ a, a ∉ l → queue p' !! a = queue p !! a) ∧
    sum (len (queue p')) l = 0 `max` (sum (len (queue p)) l - n).
Proof using All.
  revert p n. induction l as [|a l IH]; intros p n Hp Hnd Hin Hn Hb; simpl.
  { exists p. split_and!; [done|by apply unqueued_refl|done|lia]. }
  apply NoDup_cons in Hnd as [Hni Hnd]. assert (Hnn : ∀ (m : gmap Address txList) b, 0 ≤ len m b) by (intros m b; unfold len; lia).
  destruct (Z.ltb_spec 0 n) as [Hpos|].
  2:{ exists p. split_and!; [done|by apply unqueued_refl|done|]. pose proof (sum_nonneg _ l (Hnn (queue p))). pose proof (Hnn (queue p) a). lia. }
  destruct (Hin a) as [la Hla]; [by left|]. destruct (flatten_queued_ok p a la Hp Hla) as (p1 & -> & Hu1 & Hc1 & Ho1). cbn [bind].
  assert (Hlen1 : ∀ b, len (queue p1) b = len (queue p) b) by (intros b; unfold len; by rewrite Hc1).
  pose proof (un_removal _ _ Hu1) as Hr1. destruct (pk_queue _ _ _ _ Hp _ _ Hla) as (Hlo & _ & _). pose proof (ok_nonces _ (lo_txs la Hlo)) as Hno.
  assert (Hlc : Z.of_nat (length (txs_of (held la))) = len (queue p) a) by (rewrite txs_of_length by done; unfold len; by rewrite (content_lookup _ _ _ Hla)).
  assert (Hmem : ∀ tx, tx ∈ txs_of (held la) → content (queue p1) a !! AccountNonce tx = Some tx).
  { intros tx Hx. rewrite Hc1, (content_lookup _ _ _ Hla). by apply elem_of_txs_of. }
  rewrite u64_small by (split; [apply Hnn|apply Hb]). destruct (Z.leb_spec (len (queue p) a) n) as [Hle|Hgt].
  - destruct (remove_all_queued p1 a (txs_of (held la)) true (rm_ok _ _ _ _ Hr1)) as (p2 & -> & Hu2 & Ho2 & Hl2); [by apply txs_of_NoDup|done|].
    cbn [bind]. pose proof (Hnn (queue p) a). rewrite u64_small by (unfold is_u64; lia).
    assert (Hl2' : ∀ b, b ≠ a → len (queue p2) b = len (queue p) b) by (intros b Hb'; unfold len, content; by rewrite Ho2, Ho1).
    assert (Hl2a : len (queue p2) a = 0) by (rewrite Hl2, Hlen1; lia).
    destruct (IH p2 (n - len (queue p) a)) as (p3 & -> & Hu3 & Ho3 & Hs3); [apply Hu2|done| |lia| |].
    { intros b Hb'. assert (b ≠ a) by (intros ->; done). rewrite Ho2, Ho1 by done. apply Hin. by right. }
    { intros b. destruct (decide (b = a)) as [->|]; [rewrite Hl2a; done|rewrite Hl2' by done; apply Hb]. }
    exists p3. split_and!; [done|etrans; [exact Hu1|]; by etrans| |].
    + intros b [Hba Hbl]%not_elem_of_cons. by rewrite Ho3, Ho2, Ho1.
    + rewrite Hs3. rewrite (sum_ext (len (queue p2)) (len (queue p)) l) by (intros b Hb'; apply Hl2'; by intros ->).
      assert (len (queue p3) a = 0) by (rewrite <- Hl2a; unfold len, content; by rewrite Ho3).
      pose proof (sum_nonneg _ l (Hnn (queue p))). lia.
  - destruct (remove_all_queued p1 a (take (Z.to_nat n) (reverse (txs_of (held la)))) true (rm_ok _ _ _ _ Hr1)) as (p2 & -> & Hu2 & Ho2 & Hl2).
    { eapply sublist_NoDup; [|apply fmap_sublist, sublist_take]. rewrite reverse_Permutation. by apply txs_of_NoDup. }
    { intros tx Hx%elem_of_take. apply Hmem. destruct Hx as (i & Hi & _). apply list_elem_of_lookup_2 in Hi. by apply elem_of_reverse. }
    rewrite length_take, length_reverse, Hlen1 in Hl2. exists p2. split_and!; [done|by etrans| |].
    + intros b [Hba Hbl]%not_elem_of_cons. by rewrite Ho2, Ho1.
    + rewrite (sum_ext (len (queue p2)) (len (queue p)) l).
      * pose proof (sum_nonneg _ l (Hnn (queue p))). lia.
      * intros b Hb'. assert (b ≠ a) by (intros ->; done). unfold len, content. by rewrite Ho2, Ho1.
Qed.

(** Both maps hold transactions of the index. *)
Lemma tot_all b sg m al :
  lists_ok T b sg m → (∀ a tx, content m a !! AccountNonce tx = Some tx → al !! Tx_Hash tx = Some tx) →
  tot m ≤ Z.of_nat (size (al : gmap Hash txdata)).
Proof using All.
  intros Hm Hal. set (flat := λ l : list Address, l ≫= λ a, txs_of (content m a)).
  assert (Hin : ∀ l tx, tx ∈ flat l ↔ ∃ a, a ∈ l ∧ content m a !! AccountNonce tx = Some tx).
  { intros l tx. unfold flat. rewrite list_elem_of_bind. setoid_rewrite elem_of_txs_of; [naive_solver|by eapply content_ok]. }
  assert (Hlen : ∀ l, Z.of_nat (length (flat l)) = sum (len m) l).
  { induction l as [|a l IH]; [done|]. unfold flat in *. rewrite bind_cons, length_app, txs_of_length by by eapply content_ok.
    simpl. unfold len at 1. lia. }
  assert (Hnd : ∀ l, NoDup l → NoDup (flat l)).
  { induction 1 as [|a l Ha _ IH]; [constructor|]. unfold flat. rewrite bind_cons. apply NoDup_app. split_and!; [|  |exact IH].
    - apply txs_of_NoDup_txs. by eapply content_ok.
    - intros tx Hx%elem_of_txs_of; [|by eapply content_ok]. intros (c & Hc & Hx')%Hin.
      destruct (content_txs _ _ _ _ _ _ _ Hm Hx) as (_ & H1 & _), (content_txs _ _ _ _ _ _ _ Hm Hx') as (_ & H2 & _). congruence. }
  unfold tot. rewrite <- Hlen. set (l := elements (dom m)). rewrite <- (length_fmap Tx_Hash).
  assert (Hnd' : NoDup (Tx_Hash <$> flat l)).
  { apply NoDup_fmap_2_strong; [|apply Hnd, NoDup_elements]. intros x y (a & _ & Hx)%Hin (c & _ & Hy)%Hin.
    destruct (content_txs _ _ _ _ _ _ _ Hm Hx) as ([? _] & _), (content_txs _ _ _ _ _ _ _ Hm Hy) as ([? _] & _). by apply T_inj. }
  rewrite <- (size_list_to_set (C := gset Hash)), <- size_dom by done. apply inj_le, subseteq_size.
  intros h. rewrite elem_of_list_to_set, list_elem_of_fmap. intros (tx & -> & (a & _ & Hx)%Hin). eapply elem_of_dom_2. by eapply Hal.
Qed.

Lemma tot_pending p : pool_ok T U [] p → tot (pending p) ≤ Z.of_nat (size (all p)).
Proof using All.
  intros Hp. eapply tot_all; [apply Hp|]. intros a tx Hx. apply (pk_all _ _ _ _ Hp). split; [done|]. right. exists a. by left.
Qed.

Lemma tot_queue p : pool_ok T U [] p → tot (queue p) ≤ Z.of_nat (size (all p)).
Proof using All.
  intros Hp. eapply tot_all; [apply Hp|]. intros a tx Hx. apply (pk_all _ _ _ _ Hp). split; [done|]. right. exists a. by right.
Qed.

(** Accounts without a list count nothing. *)
Lemma tot_split m (l1 l2 : list Address) : NoDup (l1 ++ l2) → (∀ a, is_Some (m !! a) → a ∈ l1 ++ l2) → tot m = sum (len m) l1 + sum (len m) l2.
Proof using.
  intros Hnd Hin. transitivity (sum (len m) (l1 ++ l2)).
  2:{ clear. induction l1 as [|a l IH]; simpl; lia. }
  assert (Hperm : l1 ++ l2 ≡ₚ elements (dom m) ++ filter (λ a, m !! a = None) (l1 ++ l2)).
  { apply NoDup_Permutation; [done| |].
    - apply NoDup_app. split_and!; [apply NoDup_elements| |by apply NoDup_filter].
      intros a [x Hx]%elem_of_elements%elem_of_dom. rewrite list_elem_of_filter. intros [? _]. congruence.
    - intros a. rewrite (elem_of_app (elements _)), elem_of_elements, list_elem_of_filter, elem_of_dom. split.
      + intros Ha. destruct (m !! a) eqn:E; [left; by eexists|by right].
      + intros [Ha|[_ Ha]]; [by apply Hin|done]. }
  rewrite (sum_perm _ _ _ Hperm). unfold tot. clear Hperm Hnd Hin. induction (elements (dom m)) as [|a l IH]; simpl; [|lia].
  induction (l1 ++ l2) as [|a l IH]; [done|]. rewrite filter_cons. case_decide as E; [|done]. simpl. rewrite <- IH. unfold len, content.
  by rewrite E.
Qed.

Lemma len_le_tot (m : gmap Address txList) a : len m a ≤ tot m.
Proof using.
  destruct (decide (0 < len m a)) as [H|H].
  - destruct (len_pos _ _ H) as (l & Hl & _). apply sum_elem; [intros b; unfold len; lia|]. apply elem_of_elements. by eapply elem_of_dom_2.
  - assert (0 ≤ tot m) by (apply sum_nonneg; intros b; unfold len; lia). lia.
Qed.

Lemma by_heartbeat_perm p : by_heartbeat p ≡ₚ filter (λ a, contains (locals p) a = false) (range (dom (queue p))).
Proof using. apply merge_sort_Permutation. Qed.

(** The limit holds, or only local accounts have queued transactions. *)
Lemma limit_queue_ok p :
  pool_ok T U [] p → config_ok (config p) → tot (queue p) < two64 →
  ∃ p', limit_queue p = Ok p' ∧ unqueued p p' ∧ (tot (queue p) ≤ GlobalQueue (config p) → p' = p) ∧
    (∀ a, contains (locals p) a = true → queue p' !! a = queue p !! a) ∧
    (tot (queue p') ≤ GlobalQueue (config p) ∨ ∀ a, contains (locals p) a = false → len (queue p') a = 0).
Proof using All.
  intros Hp Hc Ht. unfold limit_queue. rewrite count_tot by done. pose proof (ck_global _ Hc) as [_ Hq].
  destruct (Z.ltb_spec (GlobalQueue (config p)) (tot (queue p))) as [Hg|Hg].
  2:{ exists p. split_and!; [done|by apply unqueued_refl|done|done|by left]. }
  rewrite u64_small by (unfold is_u64; lia). set (l := reverse (by_heartbeat p)).
  assert (Hl : l ≡ₚ filter (λ a, contains (locals p) a = false) (range (dom (queue p)))) by (unfold l; by rewrite reverse_Permutation, by_heartbeat_perm).
  assert (Hlin : ∀ a, a ∈ l ↔ contains (locals p) a = false ∧ is_Some (queue p !! a)).
  { intros a. by rewrite Hl, list_elem_of_filter, range_perm, elem_of_elements, elem_of_dom. }
  assert (Hnd : NoDup l) by (rewrite Hl; apply NoDup_filter; rewrite range_perm; apply NoDup_elements).
  destruct (drop_queued_ok l p (tot (queue p) - GlobalQueue (config p)) Hp Hnd) as (p' & -> & Hu & Ho & Hs); [by intros a [_ ?]%Hlin|lia| |].
  { intros a. pose proof (len_le_tot (queue p) a). lia. }
  exists p'. split_and!; [done|done|lia| |].
  { intros a Ha. apply Ho. rewrite Hlin. intros [? _]. congruence. }
  set (l2 := elements (dom (queue p) ∖ list_to_set l)).
  assert (Hnd2 : NoDup (l ++ l2)).
  { apply NoDup_app. split_and!; [done| |apply NoDup_elements]. intros a Ha [_ Hn]%elem_of_elements%elem_of_difference. apply Hn. by apply elem_of_list_to_set. }
  assert (Hcov : ∀ a, is_Some (queue p !! a) → a ∈ l ++ l2).
  { intros a Ha%elem_of_dom. apply elem_of_app. destruct (decide (a ∈ l)); [by left|right]. apply elem_of_elements, elem_of_difference.
    split; [done|]. by rewrite elem_of_list_to_set. }
  rewrite (tot_split (queue p) l l2 Hnd2 Hcov) in Hs.
  rewrite (tot_split (queue p') l l2 Hnd2).
  2:{ intros a Ha. apply Hcov. destruct (decide (a ∈ l)) as [Hin|Hin]; [by apply Hlin|]. by rewrite <- Ho. }
  rewrite (sum_ext (len (queue p')) (len (queue p)) l2).
  2:{ intros a Ha. unfold len, content. rewrite Ho; [done|]. intros Hin. apply NoDup_app in Hnd2 as (_ & Hd & _). by apply (Hd a). }
  destruct (decide (0 < sum (len (queue p')) l)) as [|Hz]; [left; lia|right].
  intros a Ha. destruct (decide (a ∈ l)) as [Hin|Hin].
  - assert (0 ≤ len (queue p') a ≤ sum (len (queue p')) l); [|lia]. split; [unfold len; lia|apply sum_elem; [intros b; unfold len; lia|done]].
  - unfold len, content. rewrite Ho by done. destruct (queue p !! a) eqn:E; [|done]. exfalso. apply Hin, Hlin. split; [done|by eexists].
Qed.

(** ** Promotion with its limits *)

(** The limits of the pool, from which local accounts are exempt. *)
Record within_limits (p : TxPool) : Prop := {
  wl_pending : tot (pending p) ≤ GlobalSlots (config p) ∨
    ∀ a, contains (locals p) a = false → len (pending p) a ≤ AccountSlots (config p);
  wl_queue : tot (queue p) ≤ GlobalQueue (config p) ∨ ∀ a, contains (locals p) a = false → len (queue p) a = 0
}.

Lemma removal_size p p' : removal T U p p' → Z.of_nat (size (all p')) ≤ Z.of_nat (size (all p)).
Proof using. intros Hr. apply inj_le, map_subseteq_size, Hr. Qed.

Lemma promoteExecutables_ok now p accounts :
  pool_ok T U [] p → config_ok (config p) → Z.of_nat (size (all p)) < two63 →
  ∃ p', promoteExecutables now p accounts = Ok p' ∧ removal T U p p' ∧ within_limits p'.
Proof using All.
  intros Hp Hc Hs. unfold promoteExecutables. set (l := match accounts with Some l => l | None => _ end).
  destruct (promote_accounts_ok T U now p l Hp Hc) as (p1 & -> & R1). cbn [bind].
  pose proof (kp_config _ _ (rm_kept _ _ _ _ R1)) as E1. pose proof (removal_size _ _ R1) as S1.
  destruct (limit_pending_ok p1) as (p2 & -> & Hd & _ & Hl2); [apply R1|by rewrite E1| |].
  { pose proof (tot_pending p1 (rm_ok _ _ _ _ R1)). lia. }
  cbn [bind]. assert (R2 : removal T U p1 p2) by (apply limited_removal; [by rewrite E1|done]). pose proof (kp_config _ _ (rm_kept _ _ _ _ R2)) as E2. pose proof (removal_size _ _ R2) as S2.
  destruct (limit_queue_ok p2) as (p3 & -> & Hu & _ & _ & Hl3); [apply R2|by rewrite E2, E1| |].
  { pose proof (tot_queue p2 (rm_ok _ _ _ _ R2)). unfold two63, two64 in *. lia. }
  pose proof (un_removal _ _ Hu) as R3. pose proof (kp_config _ _ (rm_kept _ _ _ _ R3)) as E3.
  exists p3. split_and!; [done|eapply removal_trans; [exact R1|]; by eapply removal_trans|].
  split; rewrite (rm_locals _ _ _ _ R3), E3; [|done]. rewrite (un_pending _ _ Hu), (rm_locals _ _ _ _ R2), E2. done.
Qed.
End Limits.
