(* ===== verification/TxPoolPrices.v ===== *)
(** * The transaction pool: prices

    The heap of prices may hold transactions that left the pool; those that did
    not are found by price.  A full pool compares a new transaction with the
    cheapest one and discards from the cheapest on. *)

From Stdlib Require Import ZArith Lia.
From stdpp Require Import base option list gmap sets strings sorting.
From S2P Require Import Prelude Params Rlp Types Account State StateRevert Chain Transition.
From S2P Require Import Heap TxList TxListProps ManagedState TxPool TxPoolBase TxPoolSteps TxPoolLimits.

Section Prices.
Context {C : Crypto} {D : Database} {MO : MapOrder} {NO : NonceOrder}.

Lemma put_back_spec save items :
  is_heap price_less items → is_heap price_less (put_back save items) ∧ put_back save items ≡ₚ save ++ items.
Proof using.
  revert items. induction save as [|tx save IH]; intros items Hh; [done|].
  destruct (IH _ (heap_Push_heap price_less items tx Hh)) as [I1 I2]. split; [done|]. cbn [put_back foldl] in *. unfold put_back in I2.
  rewrite I2, heap_Push_perm. simpl. by rewrite <- Permutation_middle.
Qed.

(** ** Popping from the heap *)

Section Pop.
Context (al : gmap Hash txdata) (locals : accountSet).

Definition live (tx : txdata) : Prop := is_stale al tx = false.

(** What was popped is cheaper than the rest. *)
Record popped (items drop save items' : list txdata) : Prop := {
  po_heap : is_heap price_less items';
  po_live : ∀ tx, tx ∈ items → live tx → tx ∈ drop ++ save ++ items';
  po_sub : ∀ tx, tx ∈ drop ++ save ++ items' → tx ∈ items;
  po_drop : ∀ tx, tx ∈ drop → live tx ∧ containsTx locals tx = Ok false;
  po_save : ∀ tx, tx ∈ save → live tx;
  po_order : ∀ x y, x ∈ drop ++ save → y ∈ items' → above price_less x y
}.

Lemma popped_nil items : is_heap price_less items → popped items [] [] items.
Proof using. intros Hh. split; try done; intros *; intros Hx; by apply elem_of_nil in Hx. Qed.

(** One more on top. *)
Lemma popped_cons x items rest drop save items' :
  items ≡ₚ x :: rest → (∀ y, y ∈ rest → above price_less x y) → popped rest drop save items' →
  (is_stale al x = true → popped items drop save items') ∧
  (live x → popped items drop (x :: save) items') ∧
  (live x → containsTx locals x = Ok false → popped items (x :: drop) save items').
Proof using.
  intros Hperm Hab [P1 P2 P3 P4 P5 P6].
  assert (Hrest : ∀ y, y ∈ items' → above price_less x y).
  { intros y Hy. apply Hab, P3. rewrite !elem_of_app. by right; right. }
  split_and!.
  - intros Hst. split; try done; intros tx; rewrite Hperm, elem_of_cons; [|intros Hx; right; by apply P3].
    intros [->|Hx] Hl; [|by apply P2]. unfold live in Hl. congruence.
  - intros Hl. split; try done.
    + intros tx. rewrite Hperm, elem_of_cons. intros [->|Hx] Hlx; [set_solver|]. pose proof (P2 tx Hx Hlx). set_solver.
    + intros tx Hx. rewrite Hperm. pose proof (P3 tx). set_solver.
    + intros tx [->|Hx]%elem_of_cons; [done|by apply P5].
    + intros y z Hy Hz. apply elem_of_app in Hy as [Hy|[->|Hy]%elem_of_cons]; [|by apply Hrest|]; apply P6; try done; apply elem_of_app; auto.
  - intros Hl Hc. split; try done.
    + intros tx. rewrite Hperm, elem_of_cons. intros [->|Hx] Hlx; [by left|right; by apply P2].
    + intros tx. rewrite Hperm. intros [->|Hx]%elem_of_cons; [by left|right; by apply P3].
    + intros tx [->|Hx]%elem_of_cons; [done|by apply P4].
    + intros y z Hy Hz. apply elem_of_cons in Hy as [->|Hy]; [by apply Hrest|by apply P6].
Qed.

Lemma pop_cases (items : list txdata) :
  is_heap price_less items →
  items = [] ∧ heap_Pop price_less items = None ∨
  ∃ x rest, heap_Pop price_less items = Some (x, rest) ∧ items ≡ₚ x :: rest ∧ is_heap price_less rest ∧
    (∀ y, y ∈ rest → above price_less x y) ∧ length items = S (length rest).
Proof using.
  intros Hh. destruct items as [|x l0] eqn:E; [by left|right]. rewrite <- E in *.
  destruct (heap_Pop_spec price_less items x l0 Hh E) as (rest & Hp & Hperm & Hr & Hab). exists x, rest. split_and!; try done.
  by rewrite Hperm.
Qed.

Lemma Discard_loop_ok fuel count items st drop save :
  is_heap price_less items → (length items ≤ fuel)%nat →
  (∀ tx, tx ∈ items → live tx → ∃ b, containsTx locals tx = Ok b) →
  ∃ d s items' st', Discard_loop fuel al locals count items st drop save = Ok (drop ++ d, save ++ s, items', st') ∧
    popped items d s items' ∧ (∀ tx, tx ∈ s → containsTx locals tx = Ok true) ∧
    (items' = [] ∧ Z.of_nat (length d) ≤ count `max` 0 ∨ Z.of_nat (length d) = count `max` 0).
Proof using.
  revert count items st drop save. induction fuel as [|fuel IH]; intros count items st drop save Hh Hf Hc; simpl.
  { destruct items; [|simpl in Hf; lia]. exists [], [], [], st. rewrite !app_nil_r. split_and!; [done|by apply popped_nil| |left; simpl; split; [done|lia]].
    intros tx Hx. by apply elem_of_nil in Hx. }
  destruct (Z.ltb_spec 0 count) as [Hpos|].
  2:{ exists [], [], items, st. rewrite !app_nil_r. split_and!; [done|by apply popped_nil| |right; simpl; lia].
      intros tx Hx. by apply elem_of_nil in Hx. }
  destruct (pop_cases items Hh) as [[-> ->]|(x & rest & -> & Hperm & Hr & Hab & Hl)].
  { exists [], [], [], st. rewrite !app_nil_r. split_and!; [done|by apply popped_nil| |left; simpl; split; [done|lia]].
    intros tx Hx. by apply elem_of_nil in Hx. }
  assert (Hc' : ∀ tx, tx ∈ rest → live tx → ∃ b, containsTx locals tx = Ok b) by (intros tx Hx; apply Hc; rewrite Hperm; by right).
  assert (Hlr : (length rest ≤ fuel)%nat) by lia.
  destruct (is_stale al x) eqn:Est.
  - destruct (IH count rest (i64 (st - 1)) drop save Hr Hlr Hc') as (d & s & it & st' & -> & Hp & Hs & Hn).
    exists d, s, it, st'. split_and!; try done. by apply (popped_cons x items rest d s it).
  - destruct (Hc x) as [b Hb]; [rewrite Hperm; by left|done|]. rewrite Hb. cbn [bind]. destruct b.
    + destruct (IH count rest st drop (save ++ [x]) Hr Hlr Hc') as (d & s & it & st' & -> & Hp & Hs & Hn).
      exists d, (x :: s), it, st'. rewrite <- app_assoc. split_and!; try done; [by apply (popped_cons x items rest d s it)|].
      intros tx [->|Hx]%elem_of_cons; [done|by apply Hs].
    + destruct (IH (count - 1) rest st (drop ++ [x]) save Hr Hlr Hc') as (d & s & it & st' & -> & Hp & Hs & Hn).
      exists (x :: d), s, it, st'. rewrite <- app_assoc. split_and!; try done; [by apply (popped_cons x items rest d s it)|].
      simpl. destruct Hn as [[-> ?]|?]; [left; split; [done|lia]|right; lia].
Qed.

Lemma above_price x y : above price_less x y → Price x ≤ Price y.
Proof using. unfold above, price_less. destruct (Z.compare_spec (Price y) (Price x)); intros H'; try done; lia. Qed.

Lemma priced_Cap_loop_ok fuel thr items st drop save :
  is_heap price_less items → (length items ≤ fuel)%nat →
  (∀ tx, tx ∈ items → live tx → ∃ b, containsTx locals tx = Ok b) →
  ∃ d s items' st', priced_Cap_loop fuel al locals thr items st drop save = Ok (drop ++ d, save ++ s, items', st') ∧
    popped items d s items' ∧ (∀ tx, tx ∈ d → Price tx < thr) ∧
    (∀ tx, tx ∈ s → containsTx locals tx = Ok true ∨ thr ≤ Price tx) ∧ (∀ tx, tx ∈ items' → thr ≤ Price tx).
Proof using.
  revert items st drop save. induction fuel as [|fuel IH]; intros items st drop save Hh Hf Hc; simpl.
  { destruct items; [|simpl in Hf; lia]. exists [], [], [], st. rewrite !app_nil_r.
    split_and!; [done|by apply popped_nil|..]; intros tx Hx; by apply elem_of_nil in Hx. }
  destruct (pop_cases items Hh) as [[-> ->]|(x & rest & -> & Hperm & Hr & Hab & Hl)].
  { exists [], [], [], st. rewrite !app_nil_r. split_and!; [done|by apply popped_nil|..]; intros tx Hx; by apply elem_of_nil in Hx. }
  assert (Hc' : ∀ tx, tx ∈ rest → live tx → ∃ b, containsTx locals tx = Ok b) by (intros tx Hx; apply Hc; rewrite Hperm; by right).
  assert (Hlr : (length rest ≤ fuel)%nat) by lia.
  destruct (is_stale al x) eqn:Est.
  - destruct (IH rest (i64 (st - 1)) drop save Hr Hlr Hc') as (d & s & it & st' & -> & Hp & Hd & Hs & Hn).
    exists d, s, it, st'. split_and!; try done. by apply (popped_cons x items rest d s it).
  - destruct (Z.leb_spec thr (Price x)) as [Hle|Hgt].
    { exists [], [x], rest, st. rewrite app_nil_r. pose proof (popped_nil rest Hr) as Hp. split_and!; [done| | | |].
      - by apply (popped_cons x items rest [] [] rest).
      - intros tx Hx. by apply elem_of_nil in Hx.
      - intros tx ->%list_elem_of_singleton. by right.
      - intros tx Hx%Hab%above_price. lia. }
    destruct (Hc x) as [b Hb]; [rewrite Hperm; by left|done|]. rewrite Hb. cbn [bind]. destruct b.
    + destruct (IH rest st drop (save ++ [x]) Hr Hlr Hc') as (d & s & it & st' & -> & Hp & Hd & Hs & Hn).
      exists d, (x :: s), it, st'. rewrite <- app_assoc. split_and!; try done; [by apply (popped_cons x items rest d s it)|].
      intros tx [->|Hx]%elem_of_cons; [by left|by apply Hs].
    + destruct (IH rest st (drop ++ [x]) save Hr Hlr Hc') as (d & s & it & st' & -> & Hp & Hd & Hs & Hn).
      exists (x :: d), s, it, st'. rewrite <- app_assoc. split_and!; try done; [by apply (popped_cons x items rest d s it)|].
      intros tx [->|Hx]%elem_of_cons; [done|by apply Hd].
Qed.

Lemma drop_stale_ok fuel items st :
  is_heap price_less items → (length items ≤ fuel)%nat →
  let items' := (drop_stale fuel al items st).1 in
  is_heap price_less items' ∧ (∀ tx, tx ∈ items' → tx ∈ items) ∧ (∀ tx, tx ∈ items → live tx → tx ∈ items') ∧
  (∀ x, head items' = Some x → live x).
Proof using.
  revert items st. induction fuel as [|fuel IH]; intros items st Hh Hf; cbn [drop_stale].
  { destruct items; [|simpl in Hf; lia]. by split_and!. }
  destruct items as [|x l0] eqn:E; [by split_and!|]. rewrite <- E in *. destruct (is_stale al x) eqn:Est.
  - destruct (heap_Pop_spec price_less items x l0 Hh E) as (rest & -> & Hperm & Hr & Hab).
    destruct (IH rest (i64 (st - 1)) Hr) as (I1 & I2 & I3 & I4); [rewrite Hperm in Hf; simpl in Hf; lia|]. split_and!; try done.
    + intros tx Hx. rewrite Hperm. right. by apply I2.
    + intros tx. rewrite Hperm. intros [->|Hx]%elem_of_cons Hl; [unfold live in Hl; congruence|by apply I3].
  - split_and!; try done. simpl. rewrite E. by intros y [= <-].
Qed.
End Pop.

(** ** In the pool *)

Context (T : txdata → Prop) {W : TxWorld T}.

Definition none (tx : txdata) : Prop := False.

(** The prices of the pool that are not stale are those of its transactions. *)
Lemma live_in_pool U p tx :
  pool_ok T U [] p → as_signer (locals p) = signer p → tx ∈ prices (priced p) → live (all p) tx →
  all p !! Tx_Hash tx = Some tx ∧ ∃ a, in_pool p a tx ∧ containsTx (locals p) tx = Ok (contains (locals p) a).
Proof using All.
  intros Hp Hsg Hin Hl. unfold live, is_stale in Hl. destruct (all p !! Tx_Hash tx) as [tx'|] eqn:E; [|done].
  destruct (all_T _ _ _ _ _ _ Hp E) as [HT Hh]. assert (tx' = tx) as -> by (apply T_inj; [done|by apply (pk_known _ _ _ _ Hp)|done]).
  split; [done|]. apply (pk_all _ _ _ _ Hp) in E as [_ [Hx%elem_of_nil|[a Ha]]]; [done|]. exists a. split; [done|].
  destruct (in_pool_ok _ _ _ _ _ _ Hp Ha) as (_ & Hs & _). unfold containsTx. by rewrite Hsg, Hs.
Qed.

Lemma in_pool_live U p a tx : pool_ok T U [] p → in_pool p a tx → live (all p) tx ∧ (tx ∈ prices (priced p) ∨ U tx).
Proof using.
  intros Hp Ha. assert (E : all p !! Tx_Hash tx = Some tx) by (apply (pk_all _ _ _ _ Hp); split; [done|right; by exists a]).
  split; [|by apply (pk_prices _ _ _ _ Hp _ _ E)]. unfold live, is_stale. by rewrite E.
Qed.

(** A new heap with the same live transactions, but for [U]. *)
Lemma put_prices_ok U U' p l :
  pool_ok T U [] p → is_heap price_less (prices l) → (∀ tx, tx ∈ prices l → tx ∈ prices (priced p)) →
  (∀ tx, tx ∈ prices (priced p) ∨ U tx → live (all p) tx → tx ∈ prices l ∨ U' tx) → pool_ok T U' [] (put_priced p l).
Proof using.
  intros Hp Hh Hsub Hlive. pose proof Hp as [H1 H2 H3 H4 H5 H6 H7 H8 H9]. split; try done; simpl.
  - intros h tx Hh'. apply Hlive; [by eapply H8|]. unfold live, is_stale. destruct (all_T _ _ _ _ _ _ Hp Hh') as [_ ->]. by rewrite Hh'.
  - intros tx Hx. by apply H9, Hsub.
Qed.

Lemma Underpriced_ok p tx a :
  pool_ok T none [] p → as_signer (locals p) = signer p → Signer_Sender (signer p) tx = Ok a →
  ∃ b l, Underpriced (all p) (locals p) (priced p) tx = Ok (b, l) ∧ pool_ok T none [] (put_priced p l) ∧
    (b = true ↔ contains (locals p) a = false ∧ all p ≠ ∅ ∧ ∀ h tx', all p !! h = Some tx' → Price tx ≤ Price tx').
Proof using All.
  intros Hp Hsg Hs. unfold Underpriced, containsTx. rewrite Hsg, Hs. cbn [bind]. destruct (contains (locals p) a) eqn:Ec.
  { exists false, (priced p). split_and!; [done| |naive_solver]. eapply pool_ok_eq; [..|exact Hp]; done. }
  destruct (drop_stale_ok (all p) (length (prices (priced p))) (prices (priced p)) (stales (priced p)) (pk_heap _ _ _ _ Hp)) as (D1 & D2 & D3 & D4); [done|].
  destruct (drop_stale _ _ _ _) as [items st]. simpl in D1, D2, D3, D4.
  assert (Hp' : pool_ok T none [] (put_priced p {| prices := items; stales := st |})).
  { eapply put_prices_ok; [done..|]. intros tx' [Hx|Hx] Hl; [left; by apply D3|done]. }
  assert (Hin : ∀ h tx', all p !! h = Some tx' → tx' ∈ items).
  { intros h tx' Hh. destruct (all_T _ _ _ _ _ _ Hp Hh) as [_ <-]. pose proof Hh as [_ [Hx%elem_of_nil|[c Hc]]]%(pk_all _ _ _ _ Hp); [done|].
    destruct (in_pool_live _ _ _ _ Hp Hc) as [Hl [Hx|Hx]]; [|done]. by apply D3. }
  destruct items as [|x rest].
  - exists false, {| prices := []; stales := st |}. split_and!; [done|done|]. split; [done|]. intros (_ & Hne & _).
    destruct (map_choose _ Hne) as (h & tx' & Hh). apply Hin in Hh. by apply elem_of_nil in Hh.
  - exists (Price tx <=? Price x), {| prices := x :: rest; stales := st |}. split_and!; [done|done|].
    destruct (live_in_pool none p x Hp Hsg) as [Hx _]; [apply D2; by left|by apply D4|]. rewrite Z.leb_le. split.
    + intros Hle. split_and!; [done| |].
      * intros E. by rewrite E, lookup_empty in Hx.
      * intros h tx' Hh. pose proof (Hin h tx' Hh) as Hi. apply list_elem_of_lookup in Hi as [k Hk].
        pose proof (above_price _ _ (heap_root price_less (x :: rest) x D1 eq_refl k tx' Hk)). lia.
    + intros (_ & _ & Hall). by eapply Hall.
Qed.

Definition remote (p : TxPool) (tx : txdata) : Prop := ∃ a, in_pool p a tx ∧ contains (locals p) a = false.

(** Transactions taken off the heap, with the saved ones put back. *)
Lemma popped_ok p d s items' st :
  pool_ok T none [] p → as_signer (locals p) = signer p → popped (all p) (locals p) (prices (priced p)) d s items' →
  pool_ok T (λ tx, tx ∈ d) [] (put_priced p {| prices := put_back s items'; stales := st |}) ∧ (∀ tx, tx ∈ d → remote p tx).
Proof using All.
  intros Hp Hsg [P1 P2 P3 P4 P5 P6]. destruct (put_back_spec s items' P1) as [B1 B2]. split.
  - eapply put_prices_ok; [done|done|..]; simpl.
    + intros tx. rewrite B2. intros Hx. apply P3, elem_of_app. by right.
    + intros tx [Hx|[]] Hl. rewrite B2. apply or_comm, elem_of_app. by apply P2.
  - intros tx Hx. destruct (P4 tx Hx) as [Hl Hc]. destruct (live_in_pool none p tx Hp Hsg) as (_ & a & Ha & Hc'); [apply P3, elem_of_app; by left|done|].
    exists a. split; [done|]. rewrite Hc in Hc'. congruence.
Qed.

(** Among the transactions of remote accounts the cheapest are discarded. *)
Lemma Discard_ok p count :
  pool_ok T none [] p → as_signer (locals p) = signer p → 0 ≤ count →
  ∃ drop l, Discard (all p) (locals p) (priced p) count = Ok (drop, l) ∧
    pool_ok T (λ tx, tx ∈ drop) [] (put_priced p l) ∧ (∀ tx, tx ∈ drop → remote p tx) ∧
    (Z.of_nat (length drop) = count ∨ ∀ tx, remote p tx → tx ∈ drop) ∧
    (∀ x y, x ∈ drop → remote p y → y ∉ drop → Price x ≤ Price y).
Proof using All.
  intros Hp Hsg Hc. unfold Discard. rewrite (proj2 (Z.ltb_ge _ _)) by done.
  destruct (Discard_loop_ok (all p) (locals p) (length (prices (priced p))) count (prices (priced p)) (stales (priced p)) [] [])
    as (d & s & items & st & -> & Hpo & Hs & Hn); [apply Hp|done| |].
  { intros tx Hx Hl. destruct (live_in_pool none p tx Hp Hsg Hx Hl) as (_ & a & _ & ->). by eexists. }
  cbn [bind]. destruct (popped_ok p d s items st Hp Hsg Hpo) as [Hp' Hd].
  assert (Hrest : ∀ y, remote p y → y ∉ d → y ∈ items).
  { intros y (a & Ha & Hr) Hni. destruct (in_pool_live _ _ _ _ Hp Ha) as [Hl [Hx|Hx]]; [|done].
    pose proof (po_live _ _ _ _ _ _ Hpo y Hx Hl) as Hin. rewrite !elem_of_app in Hin. destruct Hin as [?|[Hsv|?]]; try done.
    apply Hs in Hsv. destruct (live_in_pool none p y Hp Hsg Hx Hl) as (_ & c & Hc' & Hcc).
    destruct (in_pool_ok _ _ _ _ _ _ Hp Ha) as (_ & Hsa & _), (in_pool_ok _ _ _ _ _ _ Hp Hc') as (_ & Hsc & _). congruence. }
  eexists d, _. split_and!; [reflexivity|done|done| |].
  - destruct Hn as [[-> _]|Hn]; [right|left; lia]. intros tx Hr. destruct (decide (tx ∈ d)) as [|Hni]; [done|].
    pose proof (Hrest tx Hr Hni) as Hx. by apply elem_of_nil in Hx.
  - intros x y Hx Hy Hni. apply above_price. apply (po_order _ _ _ _ _ _ Hpo); [apply elem_of_app; by left|by apply Hrest].
Qed.

Lemma removal_settle (drop : list txdata) p p' :
  removal T (λ tx, tx ∈ drop) p p' → (∀ tx, tx ∈ drop → all p' !! Tx_Hash tx = None) → removal T none p p'.
Proof using.
  intros [R1 R2 R3 R4 R5 R6] Hg. split; try done. destruct R1 as [H1 H2 H3 H4 H5 H6 H7 H8 H9]. split; try done.
  intros h tx Hh. destruct (H8 h tx Hh) as [?|Hd]; [by left|]. apply H6 in Hh as Hh'. destruct Hh' as [<- _]. rewrite Hg in Hh; done.
Qed.

(** Only the heap of prices differs. *)
Lemma put_priced_removal U p l : pool_ok T U [] (put_priced p l) → removal T U p (put_priced p l).
Proof using. intros Hp. split; try done. intros Hn. by eapply nonces_ok_eq; [..|exact Hn]. Qed.

(** A pool that is not full is left alone.  A full one refuses what is not
    dearer than everything, or makes room with remote transactions. *)
Lemma make_room_ok p tx local a :
  pool_ok T none [] p → as_signer (locals p) = signer p → config_ok (config p) → Z.of_nat (size (all p)) < two63 →
  Signer_Sender (signer p) tx = Ok a →
  ∃ err p', make_room p tx local = Ok (err, p') ∧ removal T none p p' ∧
    let full := GlobalSlots (config p) + GlobalQueue (config p) <= Z.of_nat (size (all p)) in
    (¬ full → err = None ∧ p' = p) ∧
    (err = None ∨ err = Some ErrUnderpriced) ∧
    (err = Some ErrUnderpriced ↔ full ∧ local = false ∧ contains (locals p) a = false ∧ all p ≠ ∅ ∧
                                 ∀ h tx', all p !! h = Some tx' → Price tx ≤ Price tx').
Proof using All.
  intros Hp Hsg Hc Hsz Hs. destruct (ck_global _ Hc) as [Hg Hq]. unfold make_room.
  rewrite u64_small by (unfold is_u64, two63, two64 in *; lia). set (n := Z.of_nat (size (all p))) in *.
  destruct (Z.leb_spec (GlobalSlots (config p) + GlobalQueue (config p)) n) as [Hfull|Hfree].
  2:{ exists None, p. split_and!; [done|by apply removal_refl|done|by left|]. split; [done|]. lia. }
  assert (Hu : ∃ under p1, (if local then Ok (false, p) else let* (b, l) := Underpriced (all p) (locals p) (priced p) tx in Ok (b, put_priced p l)) = Ok (under, p1) ∧
    removal T none p p1 ∧ all p1 = all p ∧
    (under = true ↔ local = false ∧ contains (locals p) a = false ∧ all p ≠ ∅ ∧ ∀ h tx', all p !! h = Some tx' → Price tx ≤ Price tx')).
  { destruct local; [exists false, p; split_and!; [done|by apply removal_refl|done|naive_solver]|].
    destruct (Underpriced_ok p tx a Hp Hsg Hs) as (b & l & -> & Hpl & Hb). exists b, (put_priced p l).
    split_and!; [done|by apply put_priced_removal|done|]. rewrite Hb. naive_solver. }
  destruct Hu as (under & p1 & -> & R1 & Ea & Hu). cbn [bind]. destruct under.
  { exists (Some ErrUnderpriced), p1. split_and!; [done|done|lia|by right|]. rewrite <- Hu. naive_solver. }
  pose proof (rm_kept _ _ _ _ R1) as Hk. set (count := n - _). assert (Hcount : 0 ≤ count).
  { unfold count. destruct (decide (GlobalSlots (config p) + GlobalQueue (config p) = 0)) as [E|E].
    - rewrite E. change (i64 (u64 (0 - 1))) with (-1). lia.
    - rewrite u64_small by (unfold is_u64, two63, two64 in *; lia). rewrite i64_small by (unfold is_i64, two63 in *; lia). lia. }
  destruct (Discard_ok p1 count (rm_ok _ _ _ _ R1)) as (drop & l & -> & Hpd & Hd & _); [by rewrite (rm_locals _ _ _ _ R1), (kp_signer _ _ Hk)|done|].
  cbn [bind]. destruct (remove_all_ok T (λ tx, tx ∈ drop) (put_priced p1 l) drop false Hpd) as (p2 & -> & R2 & Hgone). cbn [bind].
  exists None, p2. split_and!; [done| |lia|by left|].
  - eapply removal_trans; [exact R1|]. apply (removal_settle drop).
    + eapply removal_trans; [by apply put_priced_removal|done].
    + intros tx' Hx. rewrite Hgone, decide_True; [done|]. by apply list_elem_of_fmap_2.
  - split; [done|]. intros (_ & H1). apply Hu in H1. done.
Qed.

(** The price is the new one, and no remote transaction is below it. *)
Lemma SetGasPrice_ok p price :
  pool_ok T none [] p → as_signer (locals p) = signer p →
  ∃ p', SetGasPrice p price = Ok p' ∧ gasPrice p' = price ∧ removal T none (put_gasPrice p price) p' ∧
    (∀ tx, remote p' tx → price ≤ Price tx) ∧ (∀ h tx, all p !! h = Some tx → price ≤ Price tx → all p' !! h = Some tx).
Proof using All.
  intros Hp Hsg. unfold SetGasPrice, priced_Cap. set (p0 := put_gasPrice p price).
  assert (Hp0 : pool_ok T none [] p0) by (eapply pool_ok_eq; [..|exact Hp]; done). assert (Hsg0 : as_signer (locals p0) = signer p0) by done.
  destruct (priced_Cap_loop_ok (all p0) (locals p0) (length (prices (priced p0))) price (prices (priced p0)) (stales (priced p0)) [] [])
    as (d & s & items & st & -> & Hpo & Hd & Hs & Hn); [apply Hp0|done| |].
  { intros tx Hx Hl. destruct (live_in_pool none p0 tx Hp0 Hsg0 Hx Hl) as (_ & a & _ & ->). by eexists. }
  cbn [bind]. destruct (popped_ok p0 d s items st Hp0 Hsg0 Hpo) as [Hp' Hrem]. set (l := {| prices := _; stales := st |}) in *.
  destruct (remove_all_ok T (λ tx, tx ∈ d) (put_priced p0 l) d false Hp') as (p2 & E2 & R2 & Hall). exists p2. split; [exact E2|].
  assert (R : removal T none p0 p2).
  { apply (removal_settle d); [eapply removal_trans; [by apply put_priced_removal|done]|].
    intros tx Hx. rewrite Hall, decide_True; [done|]. by apply list_elem_of_fmap_2. }
  split_and!; [apply (kp_gasPrice _ _ (rm_kept _ _ _ _ R))|done| |].
  - intros tx (a & Ha & Hr). assert (E : all p2 !! Tx_Hash tx = Some tx) by (apply (pk_all _ _ _ _ (rm_ok _ _ _ _ R)); split; [done|right; by exists a]).
    rewrite Hall in E. case_decide as Hni; [done|]. change (all p0 !! Tx_Hash tx = Some tx) in E.
    assert (Hpr : tx ∈ prices (priced p0)) by (destruct (pk_prices _ _ _ _ Hp0 _ _ E) as [?|[]]; done).
    assert (Hl : live (all p0) tx) by (unfold live, is_stale; by rewrite E).
    destruct (live_in_pool none p0 tx Hp0 Hsg0 Hpr Hl) as (_ & c & Hc & Hcc).
    pose proof (po_live _ _ _ _ _ _ Hpo tx Hpr Hl) as Hin. rewrite !elem_of_app in Hin. destruct Hin as [Hx|[Hx|Hx]]; [|apply Hs in Hx as [Hx|?]; [|done]|by apply Hn].
    + destruct Hni. by apply list_elem_of_fmap_2.
    + destruct (in_pool_ok _ _ _ _ _ _ Hp0 Hc) as (_ & H1 & _), (in_pool_ok _ _ _ _ _ _ (rm_ok _ _ _ _ R) Ha) as (_ & H2 & _).
      rewrite (kp_signer _ _ (rm_kept _ _ _ _ R)) in H2. rewrite (rm_locals _ _ _ _ R) in Hr. congruence.
  - intros h tx Hh Hle. rewrite Hall, decide_False; [done|]. intros (tx' & -> & Hx)%list_elem_of_fmap.
    assert (T tx') by (apply (pk_known _ _ _ _ Hp0), (po_sub _ _ _ _ _ _ Hpo), elem_of_app; by left).
    destruct (all_T _ _ _ _ _ _ Hp Hh) as [? ?]. assert (tx = tx') as -> by (by apply T_inj). apply Hd in Hx. lia.
Qed.
End Prices.
