(* ===== verification/TxPoolAdd.v ===== *)
(** * The transaction pool: adding transactions

    What a transaction must satisfy to be added, and that adding keeps the
    invariants of the pool. *)

From Stdlib Require Import ZArith Lia.
From stdpp Require Import base option list gmap sets strings sorting.
From S2P Require Import Prelude Params Rlp Types Account State StateRevert Chain Transition.
From S2P Require Import Heap TxList TxListProps ManagedState TxPool TxPoolBase TxPoolSteps TxPoolLimits TxPoolPrices.

(** ** Validation *)

Section Validate.
Context {C : Crypto} {D : Database} {MO : MapOrder} {NO : NonceOrder}.

(** The rules for a transaction of [from]. *)
Record acceptable (p : TxPool) (current : option Z) (tx : txdata) (local : bool) (from : Address) : Prop := {
  ac_size : Tx_Size tx ≤ 32 * 1024;
  ac_value : 0 ≤ Amount tx;
  ac_gas : TxGasLimit tx ≤ currentMaxGas p;
  ac_price : local = true ∨ contains (locals p) from = true ∨ gasPrice p ≤ Price tx;
  ac_nonce : cur_nonce p from ≤ AccountNonce tx;
  ac_wallets : ValidateJobWallet (Base tx) (Target tx) = None;
  ac_receiver : Base tx = Stake ∨ Target tx = Stake → Recipient tx = Some from;
  ac_funds : Base tx = Main → Cost tx ≤ cur_balance p from;
  ac_fee : Base tx = Stake → MainFee tx ≤ cur_balance p from;
  ac_intrinsic : ∃ g, IntrinsicGas (Payload tx) (bool_decide (Recipient tx = None)) (homestead p) = Ok g ∧ g ≤ TxGasLimit tx;
  ac_stake : ∃ bsrr, Bsrr (chainconfig p) = Some bsrr ∧
    (Base tx = Main → Target tx = Stake → ∃ minimum, StakeMinimum bsrr = Some minimum ∧ minimum ≤ Amount tx + cur_stake p from) ∧
    (IsBIP4 (chainconfig p) current = true → Target tx = Stake →
       ∃ limit, LimitStakeBalance bsrr = Some limit ∧ Amount tx + cur_stake p from ≤ limit)
}.

Lemma check_ok b e (r : result unit) : (let* _ := check b e in r) = Ok () ↔ b = false ∧ r = Ok ().
Proof using. destruct b; simpl; naive_solver. Qed.

Lemma check_receiver_ok tx from : check_receiver tx from = Ok () ↔ (Base tx = Stake ∨ Target tx = Stake → Recipient tx = Some from).
Proof using.
  unfold check_receiver. destruct (Z.eqb_spec (Base tx) Stake), (Z.eqb_spec (Target tx) Stake); simpl;
    destruct (Recipient tx) as [to|]; try naive_solver; unfold check; case_bool_decide; naive_solver.
Qed.

Lemma check_funds_ok p tx from :
  check_funds p tx from = Ok () ↔ (Base tx = Main → Cost tx ≤ cur_balance p from) ∧ (Base tx = Stake → MainFee tx ≤ cur_balance p from).
Proof using.
  unfold check_funds. rewrite check_ok. unfold check.
  destruct (Z.eqb_spec (Base tx) Main), (Z.eqb_spec (Base tx) Stake), (Z.ltb_spec (cur_balance p from) (Cost tx)),
    (Z.ltb_spec (cur_balance p from) (MainFee tx)); simpl; intuition (done || lia).
Qed.

Lemma check_stake_ok p current tx from :
  (Target tx = Stake → Recipient tx = Some from) →
  check_stake p current tx from = Ok () ↔
  ∃ bsrr, Bsrr (chainconfig p) = Some bsrr ∧
    (Base tx = Main → Target tx = Stake → ∃ minimum, StakeMinimum bsrr = Some minimum ∧ minimum ≤ Amount tx + cur_stake p from) ∧
    (IsBIP4 (chainconfig p) current = true → Target tx = Stake →
       ∃ limit, LimitStakeBalance bsrr = Some limit ∧ Amount tx + cur_stake p from ≤ limit).
Proof using.
  intros Hr. unfold check_stake, CheckStakeBalanceAmount, nil_deref, check. destruct (Bsrr (chainconfig p)) as [bsrr|]; [|naive_solver].
  destruct (Z.eqb_spec (Target tx) Stake) as [Et|Et]; [rewrite (Hr Et)|rewrite !andb_false_r; naive_solver]. rewrite !andb_true_r.
  transitivity ((Base tx = Main → ∃ minimum, StakeMinimum bsrr = Some minimum ∧ minimum ≤ Amount tx + cur_stake p from) ∧
    (IsBIP4 (chainconfig p) current = true → ∃ limit, LimitStakeBalance bsrr = Some limit ∧ Amount tx + cur_stake p from ≤ limit));
    [|naive_solver].
  destruct (Z.eqb_spec (Base tx) Main), (StakeMinimum bsrr) as [m|], (IsBIP4 (chainconfig p) current), (LimitStakeBalance bsrr) as [l|];
    simpl; try (destruct (Z.ltb_spec (Amount tx + cur_stake p from) m)); simpl;
    try (destruct (Z.leb_spec (Amount tx + cur_stake p from) l)); simpl; naive_solver lia.
Qed.

(** [validateTx] accepts a transaction exactly when its sender can be
    recovered and it keeps every rule: size, sign of the value, gas below the
    block limit and above the intrinsic gas, price unless local, nonce, wallets,
    the sender as the recipient of staking, funds, the minimal stake and, from
    BIP4 on, its limit. *)
Theorem validateTx_iff p current tx local :
  validateTx p current tx local = Ok () ↔ ∃ from, Signer_Sender (signer p) tx = Ok from ∧ acceptable p current tx local from.
Proof using.
  assert (Ecr : match Recipient tx with None => true | Some _ => false end = bool_decide (Recipient tx = None)) by by destruct (Recipient tx).
  unfold validateTx. rewrite Ecr, !check_ok, !Z.ltb_ge. split.
  - intros (H1 & H2 & H3 & H). destruct (Signer_Sender (signer p) tx) as [from|e|w|]; try done. cbn [bind] in H. exists from. split; [done|].
    rewrite !check_ok, !Z.ltb_ge in H. destruct H as (H4 & H5 & H). destruct (ValidateJobWallet (Base tx) (Target tx)) eqn:Ew; [done|].
    cbn [bind] in H. destruct (check_receiver tx from) as [[]|e|w|] eqn:E6; try done. cbn [bind] in H.
    destruct (check_funds p tx from) as [[]|e|w|] eqn:E7; try done. cbn [bind] in H.
    destruct (IntrinsicGas _ _ _) as [g|e|w|] eqn:E8; try done. cbn [bind] in H. apply check_ok in H as [H9%Z.ltb_ge H].
    pose proof (proj1 (check_receiver_ok tx from) E6) as Hrc. apply check_funds_ok in E7 as [? ?]. apply check_stake_ok in H; [|auto].
    split; try done; [|by exists g]. apply andb_false_iff in H4 as [H4|H4%Z.ltb_ge]; [|right; by right]. apply negb_false_iff, orb_true_iff in H4. tauto.
  - intros (from & Hs & [A1 A2 A3 A4 A5 A6 A7 A8 A9 (g & A10 & A11) A12]). rewrite Hs. cbn [bind].
    rewrite !check_ok, !Z.ltb_ge, A6. cbn [bind]. rewrite (proj2 (check_receiver_ok tx from)) by done. cbn [bind].
    rewrite (proj2 (check_funds_ok p tx from)) by done. cbn [bind]. rewrite A10. cbn [bind]. rewrite check_ok, Z.ltb_ge.
    rewrite check_stake_ok by auto. split_and!; try done. apply andb_false_iff.
    destruct A4 as [->|[->|A4]]; [by left|left; by rewrite orb_true_r|right; by apply Z.ltb_ge].
Qed.

(** A result other than a crash. *)
Definition no_crash {A} (r : result A) : Prop := match r with Ok _ | Err _ => True | _ => False end.

Definition stake_rules (c : ChainConfig) : Prop :=
  ∃ bsrr minimum limit, Bsrr c = Some bsrr ∧ StakeMinimum bsrr = Some minimum ∧ LimitStakeBalance bsrr = Some limit.

(** A creation that stakes crashes the validation. *)
Record safe_tx (sg : Signer) (tx : txdata) : Prop := {
  sf_sender : no_crash (Signer_Sender sg tx);
  sf_creation : Recipient tx = None → Base tx ≠ Stake ∧ Target tx ≠ Stake
}.

Lemma check_crash b e (r : result unit) : no_crash r → no_crash (let* _ := check b e in r).
Proof using. by destruct b. Qed.

Lemma validateTx_no_crash p current tx local :
  stake_rules (chainconfig p) → safe_tx (signer p) tx → no_crash (validateTx p current tx local).
Proof using.
  intros (bsrr & m & lim & Hb & Hm & Hl) [Hs Hc]. unfold validateTx. do 3 apply check_crash.
  destruct (Signer_Sender (signer p) tx) as [from|e|w|]; try done. cbn [bind]. do 2 apply check_crash.
  destruct (ValidateJobWallet _ _); [done|]. cbn [bind].
  assert (Hrc : no_crash (check_receiver tx from)).
  { unfold check_receiver, check. destruct (Recipient tx) as [to|]; [repeat case_match; done|].
    destruct Hc as [H1 H2]; [done|]. by rewrite (proj2 (Z.eqb_neq _ _) H1), (proj2 (Z.eqb_neq _ _) H2). }
  destruct (check_receiver tx from); try done. cbn [bind].
  assert (Hf : no_crash (check_funds p tx from)) by (unfold check_funds, check; repeat case_match; done).
  destruct (check_funds p tx from); try done. cbn [bind].
  assert (Hi : ∀ x y z, no_crash (IntrinsicGas x y z)) by (intros; unfold IntrinsicGas; repeat case_match; done).
  specialize (Hi (Payload tx) (match Recipient tx with None => true | Some _ => false end) (homestead p)).
  destruct (IntrinsicGas _ _ _); try done. cbn [bind]. apply check_crash. unfold check_stake, check. rewrite Hb, Hm, Hl.
  destruct (Z.eqb_spec (Target tx) Stake) as [Et|]; [|rewrite !andb_false_r; done].
  destruct (Recipient tx) as [to|]; [repeat case_match; done|]. destruct Hc; done.
Qed.
End Validate.

(** ** Adding *)

Section Add.
Context {C : Crypto} {D : Database} {MO : MapOrder} {NO : NonceOrder}.
Context (T : txdata → Prop) {W : TxWorld T}.

(** What every operation keeps. *)
Record pool_inv (p : TxPool) : Prop := {
  pi_ok : pool_ok T none [] p;
  pi_signer : as_signer (locals p) = signer p;
  pi_config : config_ok (config p);
  pi_rules : stake_rules (chainconfig p)
}.

Lemma pool_inv_removal p p' : pool_inv p → removal T none p p' → pool_inv p'.
Proof using.
  intros [I1 I2 I3 I4] Hr. destruct (rm_kept _ _ _ _ Hr). split; [apply Hr|by rewrite (rm_locals _ _ _ _ Hr); congruence|by rewrite kp_config|by rewrite kp_chainconfig].
Qed.

(** Replacing the transaction [old] of a list by [tx]. *)
Lemma replace_pending p a l l' old tx :
  pool_ok T none [] p → pending p !! a = Some l → held l !! AccountNonce tx = Some old → T tx → 0 ≤ Amount tx →
  Signer_Sender (signer p) tx = Ok a → all p !! Tx_Hash tx = None → list_ok l' → strict l' = true →
  held l' = <[AccountNonce tx := tx]> (held l) →
  pool_ok T none [] (remember (forget (put_pending p (<[a := l']> (pending p))) old) tx).
Proof using All.
  intros Hp Hl Ho HT HA Hs Hn Hlo' Hst' Eh. destruct (pk_pending _ _ _ _ Hp _ _ Hl) as (Hlo & Hst & _).
  destruct (takes_one l old (AccountNonce tx) Hlo Ho) as [Ht Ew]. set (w := without l (AccountNonce tx)) in *.
  assert (P1 : pool_ok T none [old] (put_pending p (<[a := w]> (pending p)))).
  { rewrite <- (app_nil_r [old]). eapply (take_pending T none [] p a l [old] w); try done; [|intros b; apply content_insert].
    eapply lists_ok_takes; [|done|done]. apply Hp. }
  pose proof (forget_ok _ _ _ _ _ P1) as P2. set (p2 := forget _ old) in P2.
  assert (Hn2 : all p2 !! Tx_Hash tx = None) by (simpl; apply lookup_delete_None; by right).
  pose proof (remember_ok _ _ _ _ _ P2 HT HA Hn2) as P3. set (p3 := remember p2 tx) in P3.
  assert (Hc : content (pending p3) a = held w) by (simpl; by rewrite content_insert, decide_True).
  eapply pool_ok_eq; last (apply (into_pending T none [] p3 a tx l' P3)); try done.
  - simpl. by rewrite insert_insert_eq.
  - rewrite Hc, Ew. apply lookup_delete_eq.
  - pose proof (pk_apart _ _ _ _ Hp a) as Hd. rewrite (content_lookup _ _ _ Hl) in Hd. simpl. by eapply map_disjoint_Some_l.
  - by rewrite Hc, Ew, Eh, insert_delete_eq.
Qed.

Lemma replace_queue p a l l' old tx :
  pool_ok T none [] p → queue p !! a = Some l → held l !! AccountNonce tx = Some old → T tx → 0 ≤ Amount tx →
  Signer_Sender (signer p) tx = Ok a → all p !! Tx_Hash tx = None → list_ok l' → strict l' = false →
  held l' = <[AccountNonce tx := tx]> (held l) →
  pool_ok T none [] (remember (forget (put_queue p (<[a := l']> (queue p))) old) tx).
Proof using All.
  intros Hp Hl Ho HT HA Hs Hn Hlo' Hst' Eh. destruct (pk_queue _ _ _ _ Hp _ _ Hl) as (Hlo & Hst & _).
  destruct (takes_one l old (AccountNonce tx) Hlo Ho) as [Ht Ew]. set (w := without l (AccountNonce tx)) in *.
  assert (P1 : pool_ok T none [old] (put_queue p (<[a := w]> (queue p)))).
  { rewrite <- (app_nil_r [old]). eapply (take_queue T none [] p a l [old] w); try done; [|intros b; apply content_insert].
    eapply lists_ok_takes; [|done|done]. apply Hp. }
  pose proof (forget_ok _ _ _ _ _ P1) as P2. set (p2 := forget _ old) in P2.
  assert (Hn2 : all p2 !! Tx_Hash tx = None) by (simpl; apply lookup_delete_None; by right).
  pose proof (remember_ok _ _ _ _ _ P2 HT HA Hn2) as P3. set (p3 := remember p2 tx) in P3.
  assert (Hc : content (queue p3) a = held w) by (simpl; by rewrite content_insert, decide_True).
  eapply pool_ok_eq; last (apply (into_queue T none [] p3 a tx l' P3)); try done.
  - simpl. by rewrite insert_insert_eq.
  - pose proof (pk_apart _ _ _ _ Hp a) as Hd. rewrite (content_lookup _ _ _ Hl) in Hd. simpl. by eapply map_disjoint_Some_r.
  - rewrite Hc, Ew. apply lookup_delete_eq.
  - by rewrite Hc, Ew, Eh, insert_delete_eq.
Qed.

(** At most [n] transactions more. *)
Record step (n : nat) (p p' : TxPool) : Prop := {
  sp_ok : pool_ok T none [] p';
  sp_nonces : nonces_ok p → nonces_ok p';
  sp_kept : kept p p';
  sp_signer : as_signer (locals p') = as_signer (locals p);
  sp_size : (size (all p') ≤ n + size (all p))%nat;
  sp_managed : ms_ok (pendingState p) → ms_ok (pendingState p');
  sp_filled : filled p → filled p'
}.

Lemma step_inv n p p' : pool_inv p → step n p p' → pool_inv p'.
Proof using.
  intros [I1 I2 I3 I4] Hr. destruct (sp_kept _ _ _ Hr). split; [apply Hr|rewrite (sp_signer _ _ _ Hr); congruence|by rewrite kp_config|by rewrite kp_chainconfig].
Qed.

Lemma removal_step n p p' : removal T none p p' → step n p p'.
Proof using. intros Hr. pose proof (map_subseteq_size _ _ (rm_all _ _ _ _ Hr)). split; try apply Hr; [by rewrite (rm_locals _ _ _ _ Hr)|lia]. Qed.

Lemma sp_trans n m p1 p2 p3 : step n p1 p2 → step m p2 p3 → step (n + m) p1 p3.
Proof using. intros [S1 S2 S3 S4 S5 S6 S7] [Q1 Q2 Q3 Q4 Q5 Q6 Q7]. split; [done|auto|by etrans|congruence|lia|auto|auto]. Qed.

(** A removal on either side of a step. *)
Lemma removal_then_step n p1 p2 p3 : removal T none p1 p2 → step n p2 p3 → step n p1 p3.
Proof using. intros R%(removal_step 0). by apply (sp_trans 0). Qed.

Lemma step_then_removal n p1 p2 p3 : step n p1 p2 → removal T none p2 p3 → step n p1 p3.
Proof using. intros S R%(removal_step 0). rewrite <- (Nat.add_0_r n). by eapply sp_trans. Qed.

Lemma replaced_size (m : gmap Hash txdata) h h' tx : (size (<[h := tx]> (delete h' m)) ≤ S (size m))%nat.
Proof using. pose proof (map_subseteq_size _ _ (delete_subseteq m h')). rewrite map_size_insert. case_match; simpl; lia. Qed.

Lemma enqueueTx_new p tx a :
  pool_ok T none [] p → T tx → 0 ≤ Amount tx → Signer_Sender (signer p) tx = Ok a → all p !! Tx_Hash tx = None →
  content (pending p) a !! AccountNonce tx = None →
  ∃ err repl p', enqueueTx p tx = Ok (err, repl, p') ∧ step 1 p p' ∧ locals p' = locals p ∧
    (err = None → all p' !! Tx_Hash tx = Some tx) ∧ (err ≠ None → all p' = all p).
Proof using All.
  intros Hp HT HA Hs Hn Hno. unfold enqueueTx, sender. rewrite Hs. cbn [bind].
  destruct (list_default _ none _ _ _ a (pk_queue _ _ _ _ Hp)) as (Hl & Hst & Eh).
  pose proof (l_Add_spec _ tx (PriceBump (config p)) Hl (T_u64 _ _ HT) HA) as Ha. rewrite Eh in Ha.
  destruct (l_Add _ _ _) as [[[] old] l']; cbn [negb].
  - destruct Ha as (Hl' & Hst' & -> & Eh' & _). rewrite Hst in Hst'. destruct (content (queue p) a !! AccountNonce tx) as [o|] eqn:Eo.
    + cbn [forget_old]. assert (Hx : ∃ l, queue p !! a = Some l ∧ held l = content (queue p) a).
      { unfold content in *. destruct (queue p !! a) as [l|]; [by exists l|done]. }
      destruct Hx as (l & Hla & Ehl). rewrite <- Ehl in Eo, Eh'.
      pose proof (replace_queue p a l l' o tx Hp Hla Eo HT HA Hs Hn Hl' Hst' Eh') as Hp'.
      assert (Hn2 : all (forget (put_queue p (<[a := l']> (queue p))) o) !! Tx_Hash tx = None) by (simpl; apply lookup_delete_None; by right).
      unfold remember_new. rewrite Hn2. eexists _, _, _. split; [reflexivity|].
      split_and!; [|done|intros _; simpl; apply lookup_insert_eq|done].
      split; try done; [intros Hno'; by eapply nonces_ok_eq; [..|exact Hno']|]. apply replaced_size.
    + cbn [forget_old]. unfold remember_new. simpl. rewrite Hn. eexists _, _, _. split; [reflexivity|].
      split_and!; [|done|intros _; simpl; apply lookup_insert_eq|done]. split; try done.
      * pose proof (remember_ok _ _ _ _ _ Hp HT HA Hn) as P1. eapply pool_ok_eq; last (apply (into_queue T none [] _ a tx l' P1)); done.
      * intros Hno'. by eapply nonces_ok_eq; [..|exact Hno'].
      * simpl. rewrite map_size_insert_None by done. lia.
  - destruct Ha as (-> & -> & [o Ho]). eexists _, _, _. split; [reflexivity|].
    assert (Hx : queue p !! a = Some (default (newTxList false) (queue p !! a))) by (unfold content in Ho; destruct (queue p !! a); done).
    rewrite insert_id by done. assert (Ep : put_queue p (queue p) = p) by by destruct p. rewrite Ep.
    split_and!; [by apply removal_step, removal_refl|done|done|done].
Qed.

Lemma journalTx_step p p' from tx : step 1 p p' → step 1 p (journalTx p' from tx) ∧ all (journalTx p' from tx) = all p'.
Proof using.
  intros [S1 S2 S3 S4 S5 S6 S7]. unfold journalTx. destruct (journal p'); [|done]. case_match; [|done]. split; [|done].
  split; try done; [eapply pool_ok_eq; [..|exact S1]; done|intros Hn; eapply nonces_ok_eq; [..|by apply S2]; done|by destruct S3].
Qed.

Lemma enqueue_new_ok p tx a local :
  pool_ok T none [] p → T tx → 0 ≤ Amount tx → Signer_Sender (signer p) tx = Ok a → all p !! Tx_Hash tx = None →
  content (pending p) a !! AccountNonce tx = None →
  ∃ err repl p', enqueue_new p tx a local = Ok (err, repl, p') ∧ step 1 p p' ∧
    (err = None → all p' !! Tx_Hash tx = Some tx) ∧ (err ≠ None → all p' = all p).
Proof using All.
  intros Hp HT HA Hs Hn Hno. destruct (enqueueTx_new p tx a Hp HT HA Hs Hn Hno) as (err & repl & p1 & E & H1 & Hloc & Hnew & Hold).
  unfold enqueue_new. rewrite E. cbn [bind]. destruct err as [e|]; [by eexists _, _, _|].
  set (p2 := if local then _ else p1). assert (H2 : step 1 p p2 ∧ all p2 = all p1).
  { unfold p2. destruct local; [|done]. split; [|done]. destruct H1 as [S1 S2 S3 S4 S5 S6 S7]. split; try done;
      [eapply pool_ok_eq; [..|exact S1]; done|intros Hn'; eapply nonces_ok_eq; [..|by apply S2]; done|by destruct S3]. }
  destruct H2 as [H2 E2]. destruct (journalTx_step p p2 a tx H2) as [H3 E3]. eexists _, _, _. split; [reflexivity|].
  split_and!; [done|intros _; rewrite E3, E2; by apply Hnew|done].
Qed.

(** Replacing a pending transaction changes no nonce. *)
Lemma replaced_nonces p p' a l l' tx :
  pending p !! a = Some l → is_Some (held l !! AccountNonce tx) → held l' = <[AccountNonce tx := tx]> (held l) →
  currentState p' = currentState p → pendingState p' = pendingState p → pending p' = <[a := l']> (pending p) →
  nonces_ok p → nonces_ok p'.
Proof using.
  intros Hl Hin Eh E1 E2 E3 [N1 N2 N3]. unfold cur_nonce, pend_nonce in *. split; unfold cur_nonce, pend_nonce; rewrite ?E1, ?E2; try done.
  intros b k. rewrite <- N3, E3, content_insert. case_decide as Hb; [subst b|done].
  rewrite (content_lookup _ _ _ Hl), Eh, lookup_insert_is_Some. destruct (decide (AccountNonce tx = k)) as [<-|]; naive_solver.
Qed.

(** After room was made. *)
Lemma add_checked p tx a local :
  pool_ok T none [] p → T tx → 0 ≤ Amount tx → Signer_Sender (signer p) tx = Ok a → all p !! Tx_Hash tx = None →
  ∃ err repl p', match pending p !! a with
    | Some l =>
        if Overlaps l tx then
          let '(inserted, old, l) := l_Add l tx (PriceBump (config p)) in
          if negb inserted then Ok (Some ErrReplaceUnderpriced, false, p)
          else
            let p := put_pending p (<[a := l]> (pending p)) in
            let p := remember (forget_old p old) tx in
            Ok (None, match old with Some _ => true | None => false end, journalTx p a tx)
        else enqueue_new p tx a local
    | None => enqueue_new p tx a local
    end = Ok (err, repl, p') ∧ step 1 p p' ∧
    (err = None → all p' !! Tx_Hash tx = Some tx) ∧ (err ≠ None → all p' = all p).
Proof using All.
  intros Hp HT HA Hs Hn. destruct (pending p !! a) as [l|] eqn:El.
  2:{ apply enqueue_new_ok; try done. unfold content. by rewrite El. }
  destruct (Overlaps l tx) eqn:Eo; unfold Overlaps, sm_Get in Eo.
  2:{ apply enqueue_new_ok; try done. rewrite (content_lookup _ _ _ El). by destruct (held l !! AccountNonce tx). }
  destruct (held l !! AccountNonce tx) as [o|] eqn:Eho; [|done]. destruct (pk_pending _ _ _ _ Hp _ _ El) as (Hl & Hst & _).
  pose proof (l_Add_spec _ tx (PriceBump (config p)) Hl (T_u64 _ _ HT) HA) as Ha.
  destruct (l_Add _ _ _) as [[[] old] l']; cbn [negb].
  - destruct Ha as (Hl' & Hst' & -> & Eh' & _). rewrite Hst in Hst'. rewrite Eho. cbn [forget_old].
    pose proof (replace_pending p a l l' o tx Hp El Eho HT HA Hs Hn Hl' Hst' Eh') as Hp'. set (p2 := remember _ tx) in *.
    assert (H2 : step 1 p p2).
    { split; try done; [by apply (replaced_nonces p p2 a l l' tx)|apply replaced_size|].
      apply (filled_set p p2 a l'). unfold set_list. destruct (l_Empty l') eqn:Ee; [|done]. apply l_Empty_spec in Ee. rewrite Eh' in Ee.
      by apply insert_non_empty in Ee. }
    destruct (journalTx_step p p2 a tx H2) as [H3 E3]. eexists _, _, _. split; [reflexivity|]. split_and!; [done| |done].
    intros _. rewrite E3. simpl. apply lookup_insert_eq.
  - eexists _, _, _. split; [reflexivity|]. split_and!; [by apply removal_step, removal_refl|done|done].
Qed.

Section Chain.
Context (chain : ChainReader StateDB) (head : Header).
Hypothesis Hhead : CurrentHeader chain = Some head.

Lemma add_ok p tx local :
  pool_inv p → T tx → safe_tx (signer p) tx → Z.of_nat (size (all p)) < two63 →
  ∃ err repl p', add chain p tx local = Ok (err, repl, p') ∧ step 1 p p' ∧
    (err = None → all p' !! Tx_Hash tx = Some tx ∧ ∃ a, Signer_Sender (signer p) tx = Ok a) ∧ (err ≠ None → all p' ⊆ all p).
Proof using All.
  intros Hi HT Hsf Hsz. pose proof (pi_ok _ Hi) as Hp. assert (Hid : step 1 p p) by by apply removal_step, removal_refl.
  unfold add. destruct (all p !! Tx_Hash tx) eqn:En; [by eexists _, _, _|]. unfold current_number. rewrite Hhead. cbn [bind].
  pose proof (validateTx_no_crash p (Number head) tx local (pi_rules _ Hi) Hsf) as Hnc.
  destruct (validateTx p (Number head) tx local) as [[]|e|w|] eqn:Ev; try done; [|by eexists _, _, _].
  apply validateTx_iff in Ev as (a & Hs & Hac). pose proof (ac_value _ _ _ _ _ Hac) as HA.
  destruct (make_room_ok T p tx local a Hp (pi_signer _ Hi) (pi_config _ Hi) Hsz Hs) as (err & p1 & -> & R1 & _ & Herr & _). cbn [bind].
  destruct err as [e|]; [eexists _, _, _; split; [reflexivity|]; split_and!; [by apply removal_step|done|intros _; apply R1]|].
  assert (Hs1 : Signer_Sender (signer p1) tx = Ok a) by by rewrite (kp_signer _ _ (rm_kept _ _ _ _ R1)).
  unfold sender. rewrite Hs1. cbn [bind].
  destruct (add_checked p1 tx a local (rm_ok _ _ _ _ R1) HT HA Hs1) as (err & repl & p2 & E2 & H2 & Hnew & Hold);
    [by eapply lookup_weaken_None, R1|].
  exists err, repl, p2. split; [exact E2|]. split_and!; [by eapply removal_then_step|intros E; split; [by apply Hnew|by exists a]|].
  intros E. rewrite (Hold E). apply R1.
Qed.

Lemma addTx_ok now p tx local :
  pool_inv p → T tx → safe_tx (signer p) tx → Z.of_nat (size (all p)) + 1 < two63 →
  ∃ err p', addTx now chain p tx local = Ok (err, p') ∧ step 1 p p'.
Proof using All.
  intros Hi HT Hsf Hsz. destruct (add_ok p tx local Hi HT Hsf) as (err & repl & p1 & E & H1 & Hnew & _); [lia|].
  unfold addTx. rewrite E. cbn [bind]. destruct err as [e|]; [by eexists _, _|]. destruct (Hnew eq_refl) as [_ [a Ha]].
  destruct repl; cbn [negb]; [by eexists _, _|]. unfold sender. rewrite (kp_signer _ _ (sp_kept _ _ _ H1)), Ha. cbn [bind].
  pose proof (sp_size _ _ _ H1) as S1.
  destruct (promoteExecutables_ok T none now p1 (Some [a])) as (p2 & -> & R2 & _); [apply H1| |lia|].
  { rewrite (kp_config _ _ (sp_kept _ _ _ H1)). apply Hi. }
  cbn [bind]. eexists _, _. split; [reflexivity|]. by eapply step_then_removal.
Qed.

Lemma safe_kept p p' tx : kept p p' → safe_tx (signer p) tx → safe_tx (signer p') tx.
Proof using. intros [] H. congruence. Qed.

Lemma add_each_ok p l local errs dirty :
  pool_inv p → (∀ tx, tx ∈ l → T tx ∧ safe_tx (signer p) tx) → Z.of_nat (size (all p) + length l) < two63 →
  ∃ errs' dirty' p', add_each chain p l local errs dirty = Ok (errs', dirty', p') ∧ step (length l) p p' ∧
    length errs' = (length errs + length l)%nat.
Proof using All.
  revert p errs dirty. induction l as [|tx l IH]; intros p errs dirty Hi Hl Hsz; simpl in *.
  { eexists _, _, _. split; [reflexivity|]. split; [by apply removal_step, removal_refl, Hi|lia]. }
  destruct (Hl tx) as [HT Hsf]; [by left|].
  destruct (add_ok p tx local Hi HT Hsf) as (err & repl & p1 & -> & H1 & Hnew & _); [lia|]. cbn [bind].
  pose proof (sp_kept _ _ _ H1) as Hk. pose proof (sp_size _ _ _ H1) as Hs1.
  set (d := match err with Some _ => _ | None => _ end).
  assert (Hd : ∃ dirty1, d = Ok dirty1).
  { unfold d. destruct err as [e|]; [by eexists|]. destruct repl; [by eexists|]. destruct (Hnew eq_refl) as [_ [a Ha]].
    unfold sender. rewrite (kp_signer _ _ Hk), Ha. by eexists. }
  destruct Hd as [dirty1 ->]. cbn [bind].
  destruct (IH p1 (errs ++ [err]) dirty1) as (errs' & dirty' & p2 & -> & H2 & Hle); [by eapply step_inv| |lia|].
  { intros tx' Hx. destruct (Hl tx') as [? ?]; [by right|]. split; [done|by eapply safe_kept]. }
  eexists _, _, _. split; [reflexivity|]. split; [by apply (sp_trans 1 (length l) p p1)|]. rewrite Hle, length_app. simpl. lia.
Qed.

Lemma addTxsLocked_ok now p l local :
  pool_inv p → (∀ tx, tx ∈ l → T tx ∧ safe_tx (signer p) tx) → Z.of_nat (size (all p) + length l) < two63 →
  ∃ errs p', addTxsLocked now chain p l local = Ok (errs, p') ∧ step (length l) p p' ∧ length errs = length l.
Proof using All.
  intros Hi Hl Hsz. unfold addTxsLocked. destruct (add_each_ok p l local [] ∅ Hi Hl Hsz) as (errs & dirty & p1 & -> & H1 & Hle). cbn [bind].
  case_bool_decide; [by eexists _, _|]. pose proof (sp_size _ _ _ H1) as Hs1.
  destruct (promoteExecutables_ok T none now p1 (Some (range dirty))) as (p2 & -> & R2 & _); [apply H1| |lia|].
  { rewrite (kp_config _ _ (sp_kept _ _ _ H1)). apply Hi. }
  cbn [bind]. eexists _, _. split; [reflexivity|]. split; [by eapply step_then_removal|done].
Qed.
End Chain.
End Add.
