(* ===== verification/TxPoolReset.v ===== *)
(** * The transaction pool: a new head

    When the head of the chain changes, pending transactions that are no longer
    executable are dropped or go back to the queue.  Each dropped or demoted
    transaction is printed with its recipient, which stops the node when it is
    a creation. *)

From Stdlib Require Import ZArith Lia.
From stdpp Require Import base option list gmap sets strings sorting.
From S2P Require Import Prelude Params Rlp Types Account State StateRevert Chain Transition.
From S2P Require Import Heap TxList TxListProps ManagedState TxPool TxPoolBase TxPoolSteps TxPoolLimits TxPoolPrices TxPoolAdd.

Section Demote.
Context {C : Crypto} {D : Database} {MO : MapOrder} {NO : NonceOrder}.
Context (T : txdata → Prop) {W : TxWorld T} (U : txdata → Prop).

(** ** Steps that do not look at the pending lists *)

Lemma forget_all_put_pending p m l : forget_all (put_pending p m) l = put_pending (forget_all p l) m.
Proof using. revert p. induction l as [|tx l IH]; intros p; [done|]. simpl. by rewrite <- IH. Qed.

Lemma enqueueTx_put_pending p m tx :
  enqueueTx (put_pending p m) tx = let* (e, r, p') := enqueueTx p tx in Ok (e, r, put_pending p' m).
Proof using.
  unfold enqueueTx. change (sender (put_pending p m) tx) with (sender p tx). destruct (sender p tx) as [from| | |]; try done. cbn [bind]. simpl.
  destruct (l_Add _ _ _) as [[[] [o|]] l]; cbn [bind negb]; try done; unfold remember_new, forget_old; simpl;
    destruct (_ !! Tx_Hash tx); done.
Qed.

Lemma enqueue_all_put_pending p m l :
  enqueue_all (put_pending p m) l = let* p' := enqueue_all p l in Ok (put_pending p' m).
Proof using.
  revert p. induction l as [|tx l IH]; intros p; [done|]. simpl. rewrite enqueueTx_put_pending.
  destruct (enqueueTx p tx) as [[[e r] p']| | |]; try done. cbn [bind]. apply IH.
Qed.

(** The list of [a] worked on is not yet the one among the pending ones. *)
Definition pended (p : TxPool) (a : Address) (l : txList) : TxPool := put_pending p (<[a := l]> (pending p)).

Lemma enqueue_all_pended p a l' (l : list txdata) q :
  enqueue_all (pended p a l') l = Ok (put_queue (pended p a l') q) → enqueue_all p l = Ok (put_queue p q).
Proof using.
  intros E. assert (Ep : p = put_pending (pended p a l') (pending p)) by by destruct p.
  rewrite Ep at 1. rewrite enqueue_all_put_pending, E. by destruct p.
Qed.

Lemma pended_again p a l l' : pended (pended p a l) a l' = pended p a l'.
Proof using. unfold pended. destruct p. unfold put_pending. simpl. by rewrite insert_insert_eq. Qed.

(** Transactions leave the list. *)
Lemma out_of_pended extra p a l gone l' :
  pool_ok T U extra (pended p a l) → takes l gone l' → pool_ok T U (gone ++ extra) (pended p a l').
Proof using All.
  intros Hp Ht. rewrite <- (pended_again p a l l'). unfold pended at 1.
  assert (Hl : pending (pended p a l) !! a = Some l) by (simpl; by rewrite lookup_insert_eq).
  eapply (take_pending T U extra (pended p a l) a l gone l'); try done; [|intros b; apply content_insert].
  eapply lists_ok_takes; [|done|done]. apply Hp.
Qed.

(** They can go to the queue. *)
Lemma gone_movable extra p a l gone l' :
  pool_ok T U extra (pended p a l) → takes l gone l' →
  NoDup (AccountNonce <$> gone) ∧
  ∀ tx, tx ∈ gone → Signer_Sender (signer p) tx = Ok a ∧ held l' !! AccountNonce tx = None ∧ content (queue p) a !! AccountNonce tx = None.
Proof using All.
  intros Hp Ht. assert (Hl : pending (pended p a l) !! a = Some l) by (simpl; by rewrite lookup_insert_eq).
  assert (Hc : content (pending (pended p a l)) a = held l) by by apply content_lookup. split.
  - apply NoDup_fmap_2_strong; [|apply Ht]. intros x y [Hx _]%(tk_gone _ _ _ Ht) [Hy _]%(tk_gone _ _ _ Ht) E. congruence.
  - intros tx [Hx Hn]%(tk_gone _ _ _ Ht). rewrite <- Hc in Hx.
    destruct (content_txs _ _ _ _ _ _ _ (pk_pending _ _ _ _ Hp) Hx) as (_ & Hs & _). split_and!; [done|done|].
    pose proof (pk_apart _ _ _ _ Hp a) as Hd. by eapply map_disjoint_Some_l.
Qed.

Lemma moved_to_queue extra p a l' gone :
  pool_ok T U (gone ++ extra) (pended p a l') → NoDup (AccountNonce <$> gone) →
  (∀ tx, tx ∈ gone → Signer_Sender (signer p) tx = Ok a ∧ held l' !! AccountNonce tx = None ∧ content (queue p) a !! AccountNonce tx = None) →
  ∃ q, enqueue_all p gone = Ok (put_queue p q) ∧ pool_ok T U extra (pended (put_queue p q) a l').
Proof using All.
  intros Hp Hnd Hg. destruct (enqueue_all_moves T U extra (pended p a l') a gone Hp Hnd) as (q & E & Hq).
  { intros tx Hx. destruct (Hg tx Hx) as (? & ? & ?). split_and!; try done. simpl. by rewrite content_insert, decide_True. }
  exists q. split; [by eapply enqueue_all_pended|]. done.
Qed.

(** ** Printing *)

Definition creations (l : list txdata) : Prop := ∃ tx, tx ∈ l ∧ Recipient tx = None.

Lemma forget_printed_cases p l :
  forget_printed p l = Ok (forget_all p l) ∨ forget_printed p l = nil_deref ∧ creations l.
Proof using.
  revert p. induction l as [|tx l IH]; intros p; [by left|]. simpl. unfold print_to. destruct (Recipient tx) eqn:E; cbn [bind].
  - destruct (IH (forget p tx)) as [->|[-> (t & Ht & Hr)]]; [by left|right]. split; [done|]. exists t. split; [by right|done].
  - right. split; [done|]. exists tx. split; [by left|done].
Qed.

(** As long as what is enqueued is. *)
Lemma enqueue_printed_cases p l p' :
  enqueue_all p l = Ok p' → enqueue_printed p l = Ok p' ∨ enqueue_printed p l = nil_deref ∧ creations l.
Proof using.
  revert p. induction l as [|tx l IH]; intros p E; [by left|]. simpl in *. unfold print_to. destruct (Recipient tx) eqn:Er; cbn [bind].
  - destruct (enqueueTx p tx) as [[[e r] p1]| | |]; try done. cbn [bind] in *.
    destruct (IH p1 E) as [->|[-> (t & Ht & Hr)]]; [by left|right]. split; [done|]. exists t. split; [by right|done].
  - right. split; [done|]. exists tx. split; [by left|done].
Qed.

(** ** One account *)

(** The last steps: where the first nonce is missing everything is queued. *)
Definition gapped_of (l : txList) (nonce : Z) : result (list txdata * txList) :=
  if (0 <? l_Len l) && match sm_Get (txs l) nonce with None => true | Some _ => false end then l_Cap l 0 else Ok ([], l).

Lemma gapped_ok p a l nonce :
  pool_ok T U [] (pended p a l) → list_ok l →
  ∃ gapped l' q, gapped_of l nonce = Ok (gapped, l') ∧ enqueue_all p gapped = Ok (put_queue p q) ∧
    pool_ok T U [] (pended (put_queue p q) a l') ∧
    (held l' = ∅ ∨ held l' = held l ∧ is_Some (held l !! nonce)).
Proof using All.
  intros Hp Hl. unfold gapped_of. assert (Hq : put_queue p (queue p) = p) by by destruct p.
  destruct (Z.ltb_spec 0 (l_Len l)) as [Hpos|Hz]; simpl.
  2:{ exists [], l, (queue p). rewrite Hq. split_and!; [done|done|done|]. left.
      apply map_size_empty_inv. change (l_Len l) with (Z.of_nat (size (held l))) in Hz. lia. }
  unfold sm_Get. destruct (held l !! nonce) as [tx|] eqn:E; [exists [], l, (queue p); rewrite Hq; split_and!; [done..|right; by split]|].
  destruct (l_Cap_spec l 0 Hl) as (l' & -> & Hl' & Hs' & Hsub & Et); [done|].
  pose proof (takes_cap l l' 0 Hl Hl' Hs' Hsub Et) as Ht. change (Z.to_nat 0) with 0%nat. destruct (gone_movable [] p a l _ l' Hp Ht) as [Hnd Hg].
  destruct (moved_to_queue [] p a l' _ (out_of_pended [] p a l _ l' Hp Ht) Hnd Hg) as (q & Eq & Hpq).
  exists (reverse (drop 0 (txs_of (held l)))), l', q. split_and!; [done..|left].
  change (Z.to_nat 0) with 0%nat in Et. rewrite take_0 in Et. pose proof (txs_of_length (held l') (ok_nonces _ (lo_txs l' Hl'))) as Hlen.
  rewrite Et in Hlen. by apply map_size_empty_inv.
Qed.

(** What is too costly goes, and the rest after it is queued. *)
Lemma filtered_ok p a l :
  pool_ok T U [] (pended p a l) → list_ok l → strict l = true →
  let '(drops, invalids, l') := l_Filter l (cur_balance p a) (currentMaxGas p) in
  list_ok l' ∧ ∃ t, held l' = below t (held l) ∧
    (∀ k tx, held l' !! k = Some tx → too_costly (cur_balance p a) (currentMaxGas p) tx = false) ∧
    (∀ tx, tx ∈ drops ++ invalids → held l !! AccountNonce tx = Some tx) ∧
    ∃ q, enqueue_all (forget_all p drops) invalids = Ok (put_queue (forget_all p drops) q) ∧
         pool_ok T U [] (pended (put_queue (forget_all p drops) q) a l').
Proof using All.
  intros Hp Hl Hst. pose proof (l_Filter_spec l (cur_balance p a) (currentMaxGas p) Hl) as Hf.
  destruct (l_Filter _ _ _) as [[drops invalids] l']. destruct Hf as (Hd & Hl' & Hs' & Hf). rewrite Hst in Hf. destruct Hf as (t & Eh & Hi & Ht & _).
  pose proof (takes_strict l drops invalids l' _ t Hl Hl' Hs' Eh Hd Hi Ht) as Htk. split; [done|]. exists t. split_and!; [done| | |].
  - intros k tx Hk. rewrite Eh in Hk. apply map_lookup_filter_Some in Hk as [Hk Hlt]. destruct (too_costly _ _ tx) eqn:E; [|done].
    pose proof (Ht _ _ Hk E). lia.
  - intros tx Hx. by apply (tk_gone _ _ _ Htk).
  - pose proof (out_of_pended [] p a l _ l' Hp Htk) as P1. rewrite app_nil_r in P1.
    destruct (gone_movable [] p a l _ l' Hp Htk) as [Hnd Hg]. rewrite fmap_app in Hnd. apply NoDup_app in Hnd as (_ & _ & Hnd).
    pose proof (forget_all_ok _ _ _ _ _ P1) as P2. unfold pended in P2. rewrite forget_all_put_pending in P2.
    pose proof (forget_all_same p drops) as S. rewrite <- (rs_pending _ _ S), <- (app_nil_r invalids) in P2.
    apply (moved_to_queue [] (forget_all p drops) a l' invalids P2 Hnd).
    intros tx Hx. rewrite (kp_signer _ _ (rs_kept _ _ S)), (rs_queue _ _ S). apply Hg, elem_of_app. by right.
Qed.

(** What is left of the transactions of [a] can be executed in order. *)
Record trimmed (p p' : TxPool) (a : Address) : Prop := {
  tr_last : pending p' !! a = None ∨ content (pending p') a ≠ ∅;
  tr_rest : content (pending p') a = ∅ ∨
    ∃ t, content (pending p') a = below t (from (cur_nonce p a) (content (pending p) a)) ∧
         is_Some (content (pending p') a !! cur_nonce p a);
  tr_cost : ∀ k tx, content (pending p') a !! k = Some tx → too_costly (cur_balance p a) (currentMaxGas p) tx = false
}.

(** The accounts [l] are trimmed. *)
Record demoted (l : list Address) (p p' : TxPool) : Prop := {
  dm_ok : pool_ok T U [] p';
  dm_kept : kept p p';
  dm_locals : locals p' = locals p;
  dm_managed : pendingState p' = pendingState p;
  dm_all : all p' ⊆ all p;
  dm_other : ∀ b, b ∉ l → pending p' !! b = pending p !! b;
  dm_trimmed : ∀ a, a ∈ l → trimmed p p' a
}.

(** A pending creation. *)
Definition has_creation (p : TxPool) : Prop := ∃ a tx, content (pending p) a !! AccountNonce tx = Some tx ∧ Recipient tx = None.

Lemma demote_account_ok p a :
  pool_ok T U [] p →
  (∃ p', demote_account p a = Ok p' ∧ demoted [a] p p') ∨
  (demote_account p a = nil_deref ∧ ∃ tx, content (pending p) a !! AccountNonce tx = Some tx ∧ Recipient tx = None).
Proof using All.
  intros Hp. unfold demote_account. destruct (pending p !! a) as [l0|] eqn:El.
  2:{ left. exists p. assert (content (pending p) a = ∅) as Ec by (unfold content; by rewrite El).
      split; [done|]. split; try done. intros b ->%list_elem_of_singleton. split; [by left|by left|]. intros k tx. by rewrite Ec. }
  pose proof (content_lookup _ _ _ El) as Ec0. destruct (pk_pending _ _ _ _ Hp _ _ El) as (Hl0 & Hs0 & _).
  assert (P0 : pool_ok T U [] (pended p a l0)) by (unfold pended; rewrite insert_id by done; by destruct p).
  destruct (l_Forward_spec l0 (cur_nonce p a) Hl0) as (l1 & -> & Hl1 & Hs1 & E1). cbn [bind]. set (old := txs_of _).
  pose proof (out_of_pended [] p a l0 old l1 P0 (takes_below _ _ _ Hl0 Hl1 Hs1 E1)) as P1. rewrite Hs0 in Hs1.
  apply forget_all_ok in P1; [|done]. unfold pended in P1. rewrite forget_all_put_pending in P1.
  pose proof (forget_all_same p old) as S1. rewrite <- (rs_pending _ _ S1) in P1. set (p1 := forget_all p old) in *. clearbody p1.
  pose proof (filtered_ok p1 a l1 P1 Hl1 Hs1) as Hf.
  destruct (l_Filter l1 (cur_balance p1 a) (currentMaxGas p1)) as [[drops invalids] l2].
  destruct Hf as (Hl2 & t & E2 & Hcost & Hin & q & Eq & P2).
  assert (Hcr : creations (drops ++ invalids) → ∃ tx, content (pending p) a !! AccountNonce tx = Some tx ∧ Recipient tx = None).
  { intros (tx & Hx & Hr). exists tx. split; [|done]. rewrite Ec0. apply Hin in Hx. rewrite E1 in Hx. by apply map_lookup_filter_Some in Hx as [? _]. }
  destruct (forget_printed_cases p1 drops) as [->|[-> (tx & Hx & Hr)]]; cbn [bind].
  2:{ right. split; [done|]. apply Hcr. exists tx. split; [apply elem_of_app; by left|done]. }
  pose proof (forget_all_same p1 drops) as S2. set (p2 := forget_all p1 drops) in *. clearbody p2.
  destruct (enqueue_printed_cases p2 invalids (put_queue p2 q) Eq) as [->|[-> (tx & Hx & Hr)]]; cbn [bind].
  2:{ right. split; [done|]. apply Hcr. exists tx. split; [apply elem_of_app; by right|done]. }
  destruct (gapped_ok (put_queue p2 q) a l2 (cur_nonce p a) P2 Hl2) as (gapped & l3 & q3 & Eg & Eq3 & P3 & E3).
  unfold gapped_of in Eg. rewrite Eg. cbn [bind]. rewrite Eq3. cbn [bind]. left. eexists. split; [reflexivity|].
  destruct S1 as [Ep1 _ Em1 Hk1 El1 Ej1 Ea1], S2 as [Ep2 _ Em2 Hk2 El2 Ej2 Ea2].
  assert (Ef : kept p p2) by by etrans.
  assert (Epd : pending p2 = pending p) by by rewrite Ep2.
  set (p4 := put_queue (put_queue p2 q) q3) in *. set (p5 := if l_Empty l3 then _ else _).
  assert (E5 : pending p5 = set_list (pending p) a l3) by (unfold p5, set_list; destruct (l_Empty l3); simpl; by rewrite Epd).
  assert (Ec5 : content (pending p5) a = held l3) by (by rewrite E5, content_set_list, decide_True).
  assert (Eb : ∀ x, cur_balance p1 x = cur_balance p x) by (intros x; unfold cur_balance; by rewrite (kp_state _ _ Hk1)).
  assert (F5 : signer p5 = signer p2 ∧ queue p5 = q3 ∧ all p5 = all p2 ∧ priced p5 = priced p2 ∧ kept p2 p5 ∧ locals p5 = locals p2 ∧
    pendingState p5 = pendingState p2) by by unfold p5; destruct (l_Empty l3).
  destruct F5 as (F1 & F2 & F3 & F4 & F6 & F7 & F8). split.
  - eapply (pool_ok_contents T U [] (pended p4 a l3)); [done|done|done| |rewrite F2; apply P3| |intros b; by rewrite F2|done].
    + rewrite E5. apply lists_ok_set. rewrite <- Epd. apply P3.
    + intros b. rewrite E5, content_set_list. simpl. by rewrite content_insert, Epd.
  - by etrans.
  - congruence.
  - congruence.
  - rewrite F3. by etrans.
  - intros b [Hb _]%not_elem_of_cons. rewrite E5. by apply set_list_other.
  - intros b ->%list_elem_of_singleton. split.
    + rewrite E5. apply set_list_last.
    + rewrite Ec5, Ec0. destruct E3 as [->|[-> Hs]]; [by left|right]. exists t. by rewrite E2, E1 in *.
    + intros k tx. rewrite Ec5, <- Eb, <- (kp_gas _ _ Hk1). destruct E3 as [->|[-> _]]; [done|apply Hcost].
Qed.

Lemma demoted_refl p : pool_ok T U [] p → demoted [] p p.
Proof using. intros Hp. split; try done. intros a Ha. by apply elem_of_nil in Ha. Qed.

Lemma demoted_cons a l p1 p2 p3 : a ∉ l → demoted [a] p1 p2 → demoted l p2 p3 → demoted (a :: l) p1 p3.
Proof using.
  intros Hni [A1 A2 A3 A4 A5 A6 A7] [B1 B2 B3 B4 B5 B6 B7].
  assert (Ecn : ∀ b, cur_nonce p2 b = cur_nonce p1 b) by (intros b; unfold cur_nonce; by rewrite (kp_state _ _ A2)).
  assert (Ecb : ∀ b, cur_balance p2 b = cur_balance p1 b) by (intros b; unfold cur_balance; by rewrite (kp_state _ _ A2)).
  split; [done|by etrans|congruence|congruence|by etrans| |].
  - intros b [Hb Hbl]%not_elem_of_cons. rewrite B6, A6; [done| |done]. by rewrite list_elem_of_singleton.
  - intros b [->|Hb]%elem_of_cons.
    + destruct (A7 a) as [T1 T2 T3]; [by left|]. split; unfold content in *; rewrite (B6 a Hni); done.
    + destruct (B7 b Hb) as [T1 T2 T3]. rewrite Ecn in T2. rewrite Ecb, (kp_gas _ _ A2) in T3.
      assert (Ep : pending p2 !! b = pending p1 !! b) by (apply A6; rewrite list_elem_of_singleton; by intros ->).
      split; [done| |done]. unfold content in *. by rewrite Ep in T2.
Qed.

Lemma demote_accounts_ok p l :
  pool_ok T U [] p → NoDup l →
  (∃ p', demote_accounts p l = Ok p' ∧ demoted l p p') ∨ (demote_accounts p l = nil_deref ∧ has_creation p).
Proof using All.
  revert p. induction l as [|a l IH]; intros p Hp Hnd; simpl.
  { left. exists p. split; [done|by apply demoted_refl]. }
  apply NoDup_cons in Hnd as [Hni Hnd]. destruct (demote_account_ok p a Hp) as [(p1 & -> & H1)|(-> & tx & Hx & Hr)]; cbn [bind].
  2:{ right. split; [done|]. by exists a, tx. }
  destruct (IH p1 (dm_ok _ _ _ H1) Hnd) as [(p2 & -> & H2)|(-> & b & tx & Hx & Hr)].
  - left. exists p2. split; [done|]. by eapply demoted_cons.
  - right. split; [done|]. exists b, tx. split; [|done]. destruct (decide (b = a)) as [->|Hne].
    + destruct (tr_rest _ _ _ (dm_trimmed _ _ _ H1 a ltac:(by left))) as [E|(t & E & _)]; [by rewrite E in Hx|].
      rewrite E in Hx. apply map_lookup_filter_Some in Hx as [Hx _]. by apply map_lookup_filter_Some in Hx as [Hx _].
    + unfold content in *. rewrite (dm_other _ _ _ H1 b) in Hx; [done|]. by rewrite list_elem_of_singleton.
Qed.

Lemma demoteUnexecutables_ok p :
  pool_ok T U [] p →
  (∃ p', demoteUnexecutables p = Ok p' ∧ pool_ok T U [] p' ∧ kept p p' ∧ locals p' = locals p ∧ pendingState p' = pendingState p ∧
     all p' ⊆ all p ∧ ∀ a, trimmed p p' a) ∨
  (demoteUnexecutables p = nil_deref ∧ has_creation p).
Proof using All.
  intros Hp. destruct (demote_accounts_ok p (range (dom (pending p))) Hp) as [(p' & E & [A1 A2 A3 A4 A5 A6 A7])|H]; [|left|by right].
  { rewrite range_perm. apply NoDup_elements. }
  exists p'. split_and!; try done. intros a. destruct (decide (a ∈ range (dom (pending p)))) as [Hin|Hni]; [by apply A7|].
  assert (Ep : pending p' !! a = None).
  { rewrite A6 by done. apply not_elem_of_dom. by rewrite range_perm, elem_of_elements in Hni. }
  assert (Ec : content (pending p') a = ∅) by (unfold content; by rewrite Ep). split; [by left|by left|]. intros k tx. by rewrite Ec.
Qed.

(** ** A creation that is dropped *)

Lemma forget_printed_creation p l : creations l → forget_printed p l = nil_deref.
Proof using.
  intros (tx & Hx & Hr). revert p. induction l as [|t l IH]; intros p; [by apply elem_of_nil in Hx|]. simpl. unfold print_to.
  apply elem_of_cons in Hx as [<-|Hx]; [by rewrite Hr|]. destruct (Recipient t); [|done]. cbn [bind]. by apply IH.
Qed.

Lemma demote_creation p a tx :
  pool_ok T U [] p → content (pending p) a !! AccountNonce tx = Some tx → Recipient tx = None → cur_nonce p a ≤ AccountNonce tx →
  too_costly (cur_balance p a) (currentMaxGas p) tx = true → demote_account p a = nil_deref.
Proof using.
  intros Hp Hx Hr Hn Hc. unfold demote_account. destruct (pending p !! a) as [l|] eqn:El; [|unfold content in Hx; by rewrite El in Hx].
  rewrite (content_lookup _ _ _ El) in Hx. destruct (pk_pending _ _ _ _ Hp _ _ El) as (Hl & _ & _).
  destruct (l_Forward_spec l (cur_nonce p a) Hl) as (l1 & -> & Hl1 & Hs1 & E1). cbn [bind].
  set (p1 := forget_all p _). pose proof (rs_kept _ _ (forget_all_same p (txs_of (below (cur_nonce p a) (held l))))) as K. fold p1 in K.
  assert (Eb : cur_balance p1 a = cur_balance p a) by (unfold cur_balance; by rewrite (kp_state _ _ K)). rewrite Eb, (kp_gas _ _ K).
  pose proof (l_Filter_spec l1 (cur_balance p a) (currentMaxGas p) Hl1) as Hf. destruct (l_Filter _ _ _) as [[drops inv] l2]. destruct Hf as (Hd & _).
  rewrite forget_printed_creation; [done|]. exists tx. split; [|done]. rewrite Hd. apply list_elem_of_filter. split; [done|].
  apply elem_of_txs_of; [apply (ok_nonces _ (lo_txs l1 Hl1))|]. rewrite E1. by apply map_lookup_filter_Some.
Qed.

Lemma demote_accounts_creation p l a tx :
  pool_ok T U [] p → a ∈ l → content (pending p) a !! AccountNonce tx = Some tx → Recipient tx = None → cur_nonce p a ≤ AccountNonce tx →
  too_costly (cur_balance p a) (currentMaxGas p) tx = true → demote_accounts p l = nil_deref.
Proof using All.
  revert p. induction l as [|c l IH]; intros p Hp Hin Hx Hr Hn Hc; [by apply elem_of_nil in Hin|]. simpl.
  destruct (decide (c = a)) as [->|Hne]; [by rewrite (demote_creation p a tx)|]. apply elem_of_cons in Hin as [?|Hin]; [done|].
  destruct (demote_account_ok p c Hp) as [(p1 & -> & H1)|(-> & _)]; [|done]. cbn [bind]. pose proof (dm_kept _ _ _ H1) as K.
  apply (IH p1); [apply H1|done| |done|unfold cur_nonce in *; by rewrite (kp_state _ _ K)|].
  - unfold content in *. rewrite (dm_other _ _ _ H1); [done|]. by rewrite list_elem_of_singleton.
  - unfold cur_balance in *. by rewrite (kp_state _ _ K), (kp_gas _ _ K).
Qed.

(** ** The nonces after the last pending transactions *)

Lemma sorted_last (l : list Z) x : StronglySorted Z.le l → last l = Some x → ∀ y, y ∈ l → y ≤ x.
Proof using.
  induction 1 as [|z l Hs IH Hf]; [done|]. destruct l as [|w l].
  - intros [= ->] y Hy%list_elem_of_singleton. lia.
  - rewrite last_cons_cons. intros Hl y [->|Hy]%elem_of_cons; [|by apply IH].
    apply (Z.le_trans _ w); [|apply IH; [done|by left]]. rewrite Forall_forall in Hf. apply Hf. by left.
Qed.

(** Of a run the last. *)
Lemma last_of_run m lo hi tx :
  by_nonce m → (∀ k, is_Some (m !! k) ↔ lo ≤ k < hi) → last (txs_of m) = Some tx → AccountNonce tx + 1 = hi.
Proof using.
  intros Hn Hrun Hl. assert (Htx : m !! AccountNonce tx = Some tx) by (apply elem_of_txs_of; [done|by apply last_Some_elem_of]).
  assert (Hr : lo ≤ AccountNonce tx < hi) by (apply Hrun; by eexists).
  assert (is_Some (m !! (hi - 1))) as [tx' Htx'] by (apply Hrun; lia). destruct (Hn _ _ Htx') as [En _].
  assert (AccountNonce tx' ≤ AccountNonce tx); [|lia]. apply (sorted_last (AccountNonce <$> txs_of m)).
  - by apply txs_of_sorted.
  - by rewrite fmap_last, Hl.
  - apply list_elem_of_fmap_2, elem_of_txs_of; [done|]. by rewrite En.
Qed.

Record renumbered (l : list Address) (p p' : TxPool) : Prop := {
  rn_ok : pool_ok T U [] p';
  rn_kept : kept p p';
  rn_locals : locals p' = locals p;
  rn_all : all p' = all p;
  rn_content : ∀ b, content (pending p') b = content (pending p) b;
  rn_dom : dom (pending p') = dom (pending p);
  rn_managed : ms_ok (pendingState p');
  rn_out : ∀ a, a ∉ l → pend_nonce p' a = pend_nonce p a;
  rn_in : ∀ a tx, a ∈ l → last (txs_of (content (pending p) a)) = Some tx → pend_nonce p' a = AccountNonce tx + 1
}.

Lemma update_nonces_ok p l :
  pool_ok T U [] p → ms_ok (pendingState p) → NoDup l → (∀ a, a ∈ l → content (pending p) a ≠ ∅) →
  ∃ p', update_nonces p l = Ok p' ∧ renumbered l p p'.
Proof using All.
  revert p. induction l as [|a l IH]; intros p Hp Hm Hnd Hne; cbn [update_nonces].
  { exists p. split; [done|]. split; try done. intros a tx Ha. by apply elem_of_nil in Ha. }
  apply NoDup_cons in Hnd as [Hni Hnd]. assert (Ha : content (pending p) a ≠ ∅) by (apply Hne; by left).
  destruct (pending p !! a) as [la|] eqn:El; [|unfold content in Ha; by rewrite El in Ha].
  pose proof (content_lookup _ _ _ El) as Ec. destruct (pk_pending _ _ _ _ Hp _ _ El) as (Hl & Hs & Htx).
  pose proof (ok_nonces _ (lo_txs la Hl)) as Hn. pose proof (l_Flatten_spec la Hl) as Hf. destruct (l_Flatten la) as [c l'].
  destruct Hf as (-> & Hl' & Hs' & Eh). destruct (last (txs_of (held la))) as [tx|] eqn:Elast.
  2:{ apply last_None in Elast. pose proof (txs_of_length (held la) Hn) as Hlen. rewrite Elast in Hlen. rewrite Ec in Ha. symmetry in Hlen.
      by apply map_size_empty_inv in Hlen. }
  assert (Hin : held la !! AccountNonce tx = Some tx) by (apply elem_of_txs_of; [done|by apply last_Some_elem_of]).
  destruct (Htx _ _ Hin) as [HT _]. pose proof (T_nonce _ HT) as Ht.
  rewrite u64_small by (unfold is_u64, maxUint64 in *; lia). set (p1 := put_nonce _ _ _).
  destruct (SetNonce_spec (pendingState p) a (AccountNonce tx + 1) Hm) as [Hm1 Hset]; [unfold is_u64, maxUint64 in *; lia|].
  assert (Hc1 : ∀ b, content (pending p1) b = content (pending p) b).
  { intros b. simpl. rewrite content_insert. case_decide; [|done]. subst b. by rewrite Ec. }
  assert (P1 : pool_ok T U [] p1).
  { eapply pool_ok_contents; [..|exact Hp]; try done; [|apply Hp]. apply lists_ok_insert; [apply Hp|done|by rewrite Hs'|].
    intros k tx' Hk. rewrite Eh in Hk. by apply (Htx k). }
  destruct (IH p1 P1 Hm1 Hnd) as (p2 & -> & [R1 R2 R3 R4 R5 R6 R7 R8 R9]).
  { intros b Hb. rewrite Hc1. apply Hne. by right. }
  assert (Hp1 : ∀ b, pend_nonce p1 b = if decide (b = a) then AccountNonce tx + 1 else pend_nonce p b) by (intros b; apply Hset).
  exists p2. split; [done|]. split; try done; [etrans; [|exact R2]; done| | | |].
  - intros b. by rewrite R5, Hc1.
  - rewrite R6. simpl. by apply dom_insert_lookup_L.
  - intros b [Hb Hbl]%not_elem_of_cons. rewrite R8, Hp1 by done. by rewrite decide_False.
  - intros b tx' [->|Hb]%elem_of_cons Hlast.
    + rewrite R8, Hp1, decide_True by done. rewrite Ec in Hlast. congruence.
    + apply R9; [done|]. by rewrite Hc1.
Qed.
End Demote.

(** ** The reset *)

Section Reset.
Context {C : Crypto} {D : Database} {MO : MapOrder} {NO : NonceOrder}.
Context (T : txdata → Prop) {W : TxWorld T}.

(** The pending nonces of each account have no gap. *)
Definition runs (p : TxPool) : Prop := ∀ a, ∃ lo hi, ∀ k, is_Some (content (pending p) a !! k) ↔ lo ≤ k < hi.

Lemma nonces_runs p : nonces_ok p → runs p.
Proof using. intros Hn a. exists (cur_nonce p a), (pend_nonce p a). apply Hn. Qed.

Lemma trimmed_run p p' a :
  runs p → trimmed p p' a → ∃ hi, cur_nonce p a ≤ hi ∧ ∀ k, is_Some (content (pending p') a !! k) ↔ cur_nonce p a ≤ k < hi.
Proof using.
  intros Hr [_ Hrest _]. destruct Hrest as [->|(t & E & Hs)].
  - exists (cur_nonce p a). split; [done|]. intros k. rewrite lookup_empty. split; [by intros [? ?]|lia].
  - destruct (Hr a) as (lo & hi & Hk).
    assert (Hiff : ∀ k, is_Some (content (pending p') a !! k) ↔ lo ≤ k < hi ∧ cur_nonce p a ≤ k < t).
    { intros k. rewrite <- Hk, E. split.
      - intros [tx [[Hx ?]%map_lookup_filter_Some ?]%map_lookup_filter_Some]. split; [by eexists|lia].
      - intros [[tx Hx] ?]. exists tx. apply map_lookup_filter_Some. split; [|lia]. apply map_lookup_filter_Some. split; [done|lia]. }
    apply Hiff in Hs. exists (hi `min` t). split; [lia|]. intros k. rewrite Hiff. lia.
Qed.

(** Once the nonces are set the pending transactions are runs from the nonces
    of the state. *)
Lemma renumbered_nonces p p3 p4 :
  pool_ok T none [] p3 → runs p → kept p p3 → (∀ a, trimmed p p3 a) → (∀ a, pend_nonce p3 a = cur_nonce p a) →
  renumbered T none (range (dom (pending p3))) p3 p4 → nonces_ok p4.
Proof using.
  intros P3 Hr Hk Ht Hpn R.
  assert (Ecn : ∀ a, cur_nonce p4 a = cur_nonce p a) by (intros a; unfold cur_nonce; by rewrite (kp_state _ _ (rn_kept _ _ _ _ _ R)), (kp_state _ _ Hk)).
  assert (Hall : ∀ a, cur_nonce p a ≤ pend_nonce p4 a ∧ ∀ k, is_Some (content (pending p4) a !! k) ↔ cur_nonce p a ≤ k < pend_nonce p4 a).
  { intros a. setoid_rewrite (rn_content _ _ _ _ _ R a). destruct (trimmed_run p p3 a Hr (Ht a)) as (hi & Hle & Hrun).
    destruct (decide (a ∈ range (dom (pending p3)))) as [Hin|Hni].
    - pose proof Hin as Hin'. rewrite range_perm, elem_of_elements, elem_of_dom in Hin'. destruct Hin' as [l Hl].
      destruct (tr_last _ _ _ (Ht a)) as [?|Hne]; [congruence|].
      assert (Hbn : by_nonce (content (pending p3) a)) by (eapply content_ok, P3).
      destruct (last (txs_of (content (pending p3) a))) as [tx|] eqn:El.
      + rewrite (rn_in _ _ _ _ _ R a tx Hin El), (last_of_run _ _ _ _ Hbn Hrun El). done.
      + apply last_None in El. pose proof (txs_of_length _ Hbn) as Hlen. rewrite El in Hlen. symmetry in Hlen. by apply map_size_empty_inv in Hlen.
    - rewrite (rn_out _ _ _ _ _ R a Hni), Hpn. split; [done|]. intros k.
      assert (Ec : content (pending p3) a = ∅).
      { unfold content. rewrite range_perm, elem_of_elements, not_elem_of_dom in Hni. by rewrite Hni. }
      rewrite Ec, lookup_empty. split; [by intros [? ?]|lia]. }
  split; [apply R|intros a; rewrite Ecn; exact (proj1 (Hall a))|intros a k; rewrite Ecn; apply (proj2 (Hall a))].
Qed.

Lemma renumbered_filled p p3 p4 l : (∀ a, trimmed p p3 a) → renumbered T none l p3 p4 → filled p4.
Proof using.
  intros Ht R a la Ha. assert (Hin : is_Some (pending p3 !! a)).
  { apply elem_of_dom. rewrite <- (rn_dom _ _ _ _ _ R). by eapply elem_of_dom_2. }
  destruct (tr_last _ _ _ (Ht a)) as [Hn|Hne]; [rewrite Hn in Hin; by destruct Hin|].
  by rewrite <- (rn_content _ _ _ _ _ R), (content_lookup _ _ _ Ha) in Hne.
Qed.

Context (chain : ChainReader StateDB) (head : Header).
Hypothesis Hhead : CurrentHeader chain = Some head.

Lemma cur_nonce_state p a : cur_nonce p a = state_nonce (currentState p) a.
Proof using. unfold cur_nonce. by destruct (GetNonce_spec (currentState p) a) as (s' & -> & _). Qed.

Lemma reset_to_ok now p root d s gas reinject :
  pool_inv T p → New root d = Ok s → (∀ tx, tx ∈ reinject → T tx ∧ safe_tx (signer p) tx) →
  Z.of_nat (size (all p) + length reinject) < two63 →
  (∃ p', reset_to now chain p s gas reinject = Ok p' ∧ pool_inv T p' ∧ currentState p' = s ∧ currentMaxGas p' = gas ∧
     signer p' = signer p ∧ (size (all p') ≤ size (all p) + length reinject)%nat ∧ within_limits p' ∧ filled p' ∧ (reinject = [] → runs p → nonces_ok p')) ∨
  (reset_to now chain p s gas reinject = nil_deref ∧
   ∃ tx, T tx ∧ Recipient tx = None ∧ (reinject = [] → ∃ a, content (pending p) a !! AccountNonce tx = Some tx)).
Proof using All.
  intros Hi Hnew Hre Hsz. unfold reset_to. destruct (ManageState_fresh root d s Hnew) as (ms & -> & Hms & Hmn). cbn [bind].
  set (p1 := put_state p s ms gas).
  assert (I1 : pool_inv T p1) by (destruct Hi; split; try done; by eapply pool_ok_eq; [..|exact pi_ok]).
  destruct (addTxsLocked_ok T chain head Hhead now p1 reinject false I1 Hre Hsz) as (errs & p2 & E2 & S2 & _). rewrite E2. cbn [bind].
  pose proof (step_inv _ _ _ _ I1 S2) as I2. pose proof (sp_kept _ _ _ _ S2) as K2.
  destruct (demoteUnexecutables_ok T none p2 (pi_ok _ _ I2)) as [(p3 & -> & P3 & K3 & L3 & M3 & A3 & Ht)|(-> & a & tx & Hx & Hr)]; cbn [bind].
  2:{ right. split; [done|]. exists tx. split_and!; [|done|intros ->; injection E2 as <- <-; by exists a].
      by destruct (content_txs _ _ _ _ _ _ _ (pk_pending _ _ _ _ (pi_ok _ _ I2)) Hx) as ([? _] & _). }
  left. assert (M : ms_ok (pendingState p3)) by (rewrite M3; by apply (sp_managed _ _ _ _ S2)).
  destruct (update_nonces_ok T none p3 (range (dom (pending p3))) P3 M) as (p4 & -> & R4); [rewrite range_perm; apply NoDup_elements| |].
  { intros a Ha. destruct (tr_last _ _ _ (Ht a)) as [Hn|]; [|done]. rewrite range_perm, elem_of_elements in Ha.
    apply not_elem_of_dom in Hn. done. }
  cbn [bind]. pose proof (rn_kept _ _ _ _ _ R4) as K4. assert (K : kept p1 p4) by (etrans; [exact K2|]; by etrans).
  assert (I4 : pool_inv T p4).
  { destruct I2 as [J1 J2 J3 J4], K3, K4. split; [apply R4| |congruence|congruence]. rewrite (rn_locals _ _ _ _ _ R4), L3. congruence. }
  pose proof (sp_size _ _ _ _ S2) as Hs2. pose proof (map_subseteq_size _ _ A3) as Hs3.
  destruct (promoteExecutables_ok T none now p4 None) as (p5 & -> & R5 & Hlim); [apply I4|apply I4| |].
  { rewrite (rn_all _ _ _ _ _ R4). simpl in Hs2. lia. }
  pose proof (rm_kept _ _ _ _ R5) as K5. exists p5. split_and!; [done|by eapply pool_inv_removal| | | | |done| |].
  - by rewrite (kp_state _ _ K5), (kp_state _ _ K).
  - by rewrite (kp_gas _ _ K5), (kp_gas _ _ K).
  - by rewrite (kp_signer _ _ K5), (kp_signer _ _ K).
  - pose proof (map_subseteq_size _ _ (rm_all _ _ _ _ R5)) as Hs5. rewrite (rn_all _ _ _ _ _ R4) in Hs5. simpl in Hs2. lia.
  - apply (rm_filled _ _ _ _ R5), (renumbered_filled p2 p3 p4 _ Ht R4).
  - intros -> Hr. injection E2 as <- <-. apply (rm_nonces _ _ _ _ R5), (renumbered_nonces p1 p3 p4 P3 Hr K3 Ht); [|done].
    intros a. rewrite cur_nonce_state. unfold pend_nonce. rewrite M3. apply Hmn.
Qed.
End Reset.

(** ** Reinjection *)

Section Reinject.
Context {C : Crypto} {D : Database} {MO : MapOrder} {NO : NonceOrder}.
Context (chain : ChainReader StateDB) {CL : ChainLaws chain}.

(** The block after which the parent's number would wrap around. *)
Hypothesis no_last : ∀ h, GetBlock chain h maxUint64 = None.

(** The blocks from [b] down to, but not including, its ancestor. *)
Inductive branch : Block → list Block → Block → Prop :=
  | branch_nil b : branch b [] b
  | branch_cons b b' bs anc : parent_block chain b = Some b' → branch b' bs anc → branch b (b :: bs) anc.

Lemma branch_app b1 bs1 b2 bs2 b3 : branch b1 bs1 b2 → branch b2 bs2 b3 → branch b1 (bs1 ++ bs2) b3.
Proof using. induction 1 as [|b b' bs anc Hp _ IH]; intros H2; [done|]. simpl. econstructor; [done|by apply IH]. Qed.

Definition txs_in (bs : list Block) : list txdata := bs ≫= block_transactions.

Lemma txs_in_app bs1 bs2 : txs_in (bs1 ++ bs2) = txs_in bs1 ++ txs_in bs2.
Proof using. apply bind_app. Qed.

Lemma block_num_spec h n b : GetBlock chain h n = Some b → block_num b = n ∧ is_u64 n.
Proof using CL. intros (_ & Hn & Hu)%GetBlock_spec. unfold block_num, num. rewrite Hn. simpl. split; [|done]. unfold big_Uint64. rewrite Z.abs_eq by apply Hu. by apply u64_small. Qed.

Lemma parent_num b b' : is_u64 (block_num b) → parent_block chain b = Some b' → block_num b' = block_num b - 1 ∧ is_u64 (block_num b').
Proof using All.
  unfold parent_block. intros Hu Hp. pose proof (block_num_spec _ _ _ Hp) as [E Hu']. rewrite E. split; [|done].
  destruct (decide (block_num b = 0)) as [E0|Hne]; [|apply u64_small; unfold is_u64 in *; lia].
  rewrite E0 in Hp. change (u64 (0 - 1)) with maxUint64 in Hp. by rewrite no_last in Hp.
Qed.

Lemma walk_down_ok fuel b n l :
  is_u64 (block_num b) → 0 ≤ n → (Z.to_nat (block_num b) ≤ fuel)%nat →
  ∃ r, walk_down chain fuel b n l = Ok r ∧
    ∀ b' l', r = Some (b', l') → is_u64 (block_num b') ∧ block_num b' = block_num b `min` n ∧
      ∃ bs, branch b bs b' ∧ l' = l ++ txs_in bs.
Proof using All.
  revert b l. induction fuel as [|fuel IH]; intros b l Hu Hn Hf; simpl.
  - rewrite (proj2 (Z.ltb_ge _ _)) by (unfold is_u64 in Hu; lia). eexists. split; [reflexivity|].
    intros b' l' [= -> ->]. split_and!; [done|unfold is_u64 in Hu; lia|]. exists []. split; [constructor|]. simpl. by rewrite app_nil_r.
  - destruct (Z.ltb_spec n (block_num b)) as [Hlt|Hge].
    2:{ eexists. split; [reflexivity|]. intros b' l' [= -> ->]. split_and!; [done|lia|]. exists []. split; [constructor|]. simpl. by rewrite app_nil_r. }
    destruct (parent_block chain b) as [b1|] eqn:Ep; [|by eexists]. destruct (parent_num b b1 Hu Ep) as [En Hu1].
    destruct (IH b1 (l ++ block_transactions b) Hu1 Hn) as (r & -> & Hr); [lia|]. eexists. split; [reflexivity|].
    intros b' l' E. destruct (Hr b' l' E) as (Hu' & Hm & bs & Hb & ->). split_and!; [done|lia|]. exists (b :: bs).
    split; [by econstructor|]. unfold txs_in. rewrite bind_cons. by rewrite <- app_assoc.
Qed.

Lemma walk_both_ok fuel rem add d i :
  is_u64 (block_num rem) → block_num add = block_num rem → (Z.to_nat (block_num rem) < fuel)%nat →
  ∃ r, walk_both chain fuel rem add d i = Ok r ∧
    ∀ d' i', r = Some (d', i') → ∃ bs1 bs2 anc1 anc2, branch rem bs1 anc1 ∧ branch add bs2 anc2 ∧
      Header_Hash (block_header anc1) = Header_Hash (block_header anc2) ∧ d' = d ++ txs_in bs1 ∧ i' = i ++ txs_in bs2.
Proof using All.
  revert rem add d i. induction fuel as [|fuel IH]; intros rem add d i Hu He Hf; [lia|]. simpl. case_bool_decide as Hh.
  { eexists. split; [reflexivity|]. intros d' i' [= -> ->]. exists [], [], rem, add. simpl. rewrite !app_nil_r. split_and!; try done; constructor. }
  destruct (parent_block chain rem) as [rem1|] eqn:E1; [|by eexists]. destruct (parent_block chain add) as [add1|] eqn:E2; [|by eexists].
  destruct (parent_num rem rem1 Hu E1) as [N1 U1], (parent_num add add1 ltac:(by rewrite He) E2) as [N2 U2].
  destruct (IH rem1 add1 (d ++ block_transactions rem) (i ++ block_transactions add)) as (r & -> & Hr); [done|lia|unfold is_u64 in *; lia|].
  eexists. split; [reflexivity|]. intros d' i' E. destruct (Hr d' i' E) as (bs1 & bs2 & a1 & a2 & B1 & B2 & Ha & -> & ->).
  exists (rem :: bs1), (add :: bs2), a1, a2. unfold txs_in. rewrite !bind_cons, <- !app_assoc. split_and!; try done; by econstructor.
Qed.

(** What is injected again is what the abandoned branch has and the new one
    does not. *)
Lemma reinjected_ok old new rem add :
  GetBlock chain (Header_Hash old) (big_Uint64 (num old)) = Some rem →
  GetBlock chain (Header_Hash new) (big_Uint64 (num new)) = Some add →
  ∃ r, reinjected chain old new = Ok r ∧
    ∀ l, r = Some l → l = [] ∨ ∃ bs1 bs2 anc1 anc2, branch rem bs1 anc1 ∧ branch add bs2 anc2 ∧
      Header_Hash (block_header anc1) = Header_Hash (block_header anc2) ∧
      l = filter (λ tx, Tx_Hash tx ∉ Tx_Hash <$> txs_in bs2) (txs_in bs1).
Proof using All.
  intros Hrem Hadd. unfold reinjected. case_match; [eexists; split; [reflexivity|]; intros l [= <-]; by left|]. rewrite Hrem, Hadd.
  assert (Hu1 : is_u64 (block_num rem)) by (destruct (block_num_spec _ _ _ Hrem) as [-> ?]; done).
  assert (Hu2 : is_u64 (block_num add)) by (destruct (block_num_spec _ _ _ Hadd) as [-> ?]; done).
  destruct (walk_down_ok (Z.to_nat (block_num rem)) rem (block_num add) [] Hu1) as (r1 & -> & H1); [apply Hu2|done|]. cbn [bind].
  destruct r1 as [[rem1 d]|]; [|by eexists]. destruct (H1 rem1 d eq_refl) as (U1 & N1 & bs1 & B1 & ->).
  destruct (walk_down_ok (Z.to_nat (block_num add)) add (block_num rem1) [] Hu2) as (r2 & -> & H2); [apply U1|done|]. cbn [bind].
  destruct r2 as [[add1 i]|]; [|by eexists]. destruct (H2 add1 i eq_refl) as (U2 & N2 & bs2 & B2 & ->).
  destruct (walk_both_ok (S (Z.to_nat (block_num rem1))) rem1 add1 ([] ++ txs_in bs1) ([] ++ txs_in bs2) U1) as (r3 & -> & H3); [lia|lia|]. cbn [bind].
  eexists. split; [reflexivity|]. intros l. destruct r3 as [[d' i']|]; [|done]. intros [= <-]. right.
  destruct (H3 d' i' eq_refl) as (bs3 & bs4 & a1 & a2 & B3 & B4 & Ha & -> & ->). exists (bs1 ++ bs3), (bs2 ++ bs4), a1, a2.
  split_and!; [by eapply branch_app|by eapply branch_app|done|]. unfold TxDifference. simpl. rewrite !txs_in_app.
  apply list_filter_iff. intros tx. by rewrite elem_of_list_to_set.
Qed.
End Reinject.
