(* ===== verification/TxPoolProps.v ===== *)
(** * The transaction pool: properties

    Whatever is done to the pool it keeps its transactions in order, and what
    it does with them. *)

From Stdlib Require Import ZArith Lia.
From stdpp Require Import base option list gmap sets strings sorting.
From S2P Require Import Prelude Params Rlp Types Account State StateRevert Chain Transition.
From S2P Require Import Heap TxList TxListProps ManagedState TxPool TxPoolBase TxPoolSteps TxPoolLimits TxPoolPrices TxPoolAdd TxPoolReset.

(** ** Eviction *)

Section Evict.
Context {C : Crypto} {D : Database} {MO : MapOrder} {NO : NonceOrder}.
Context (T : txdata → Prop) {W : TxWorld T} (now : Z).

Definition expired (p : TxPool) (a : Address) : Prop :=
  contains (locals p) a = false ∧ Lifetime (config p) < Z.min (now - beat p a) max_duration.

Lemma expired_same U p p' a : unqueued T U p p' → expired p' a ↔ expired p a.
Proof using.
  intros [R _ _ B]. unfold expired, beat. by rewrite (rm_locals _ _ _ _ R), B, (kp_config _ _ (rm_kept _ _ _ _ R)).
Qed.

Lemma evict_account p a l :
  pool_ok T none [] p → queue p !! a = Some l →
  ∃ p', (let* (_, c, p) := flatten_queued p a in remove_all p c true) = Ok p' ∧ unqueued T none p p' ∧
    (∀ b, b ≠ a → queue p' !! b = queue p !! b) ∧ len (queue p') a = 0.
Proof using All.
  intros Hp Hl. destruct (flatten_queued_ok T none p a l Hp Hl) as (p1 & -> & U1 & Hc1 & Ho1). cbn [bind].
  destruct (pk_queue _ _ _ _ Hp _ _ Hl) as (Hlo & _ & _). pose proof (ok_nonces _ (lo_txs l Hlo)) as Hn.
  destruct (remove_all_queued T none p1 a (txs_of (held l)) true) as (p2 & -> & U2 & Ho2 & Hlen); [apply U1|by apply txs_of_NoDup| |].
  { intros tx Hx. rewrite Hc1, (content_lookup _ _ _ Hl). by apply elem_of_txs_of. }
  exists p2. split_and!; [done|by etrans|intros b Hb; by rewrite Ho2, Ho1|].
  rewrite Hlen. unfold len. rewrite Hc1, (content_lookup _ _ _ Hl), txs_of_length by done. lia.
Qed.

Lemma evict_ok p l :
  pool_ok T none [] p → NoDup l →
  ∃ p', evict now p l = Ok p' ∧ unqueued T none p p' ∧ (∀ a, a ∉ l → queue p' !! a = queue p !! a) ∧
    (∀ a, a ∈ l → ¬ expired p a → queue p' !! a = queue p !! a) ∧ (∀ a, a ∈ l → expired p a → len (queue p') a = 0).
Proof using All.
  revert p. induction l as [|a l IH]; intros p Hp Hnd.
  { exists p. split_and!; [done|by apply unqueued_refl|done|..]; intros a Ha; by apply elem_of_nil in Ha. }
  apply NoDup_cons in Hnd as [Hni Hnd].
  assert (Hskip : evict now p (a :: l) = evict now p l → (¬ expired p a ∨ queue p !! a = None) →
    ∃ p', evict now p (a :: l) = Ok p' ∧ unqueued T none p p' ∧ (∀ b, b ∉ a :: l → queue p' !! b = queue p !! b) ∧
      (∀ b, b ∈ a :: l → ¬ expired p b → queue p' !! b = queue p !! b) ∧ (∀ b, b ∈ a :: l → expired p b → len (queue p') b = 0)).
  { intros -> Hno. destruct (IH p Hp Hnd) as (p' & -> & Hu & Ho & Hk & He). exists p'. split_and!; [done|done|..].
    - intros b [_ Hb]%not_elem_of_cons. by apply Ho.
    - intros b [->|Hb]%elem_of_cons Hx; [by apply Ho|by apply Hk].
    - intros b [->|Hb]%elem_of_cons Hx; [|by apply He]. destruct Hno as [?|Hno]; [done|]. unfold len, content. by rewrite (Ho a Hni), Hno. }
  simpl in Hskip |- *. destruct (contains (locals p) a) eqn:Ec; [apply Hskip; [done|left; unfold expired; rewrite Ec; by intros [? _]]|].
  destruct (Z.ltb_spec (Lifetime (config p)) (Z.min (now - beat p a) max_duration)) as [Hlt|Hge];
    [|apply Hskip; [done|left; intros [_ ?]; lia]].
  destruct (queue p !! a) as [la|] eqn:El; [|apply Hskip; [done|by right]]. clear Hskip.
  destruct (evict_account p a la Hp El) as (p1 & E1 & U1 & Ho1 & Hz). 
  assert (Eb : ∀ (k : TxPool → result TxPool), (let* (_, c, p0) := flatten_queued p a in let* p2 := remove_all p0 c true in k p2) = let* p2 := (let* (_, c, p0) := flatten_queued p a in remove_all p0 c true) in k p2).
  { intros k. by destruct (flatten_queued p a) as [[[? ?] ?]| | |]. }
  rewrite Eb, E1. cbn [bind]. destruct (IH p1 (rm_ok _ _ _ _ (un_removal _ _ _ _ U1)) Hnd) as (p2 & -> & U2 & Ho & Hk & He).
  exists p2. split_and!; [done|by etrans|..].
  - intros b [Hb Hbl]%not_elem_of_cons. by rewrite Ho, Ho1.
  - intros b [->|Hb]%elem_of_cons Hx; [by destruct Hx|]. rewrite Hk, Ho1; [done|by intros ->|done|]. by rewrite (expired_same none p p1 b U1).
  - intros b [->|Hb]%elem_of_cons Hx; [unfold len, content in *; by rewrite Ho|]. apply He; [done|]. by rewrite (expired_same none p p1 b U1).
Qed.

Lemma evict_tick_ok p :
  pool_ok T none [] p →
  ∃ p', evict_tick now p = Ok p' ∧ unqueued T none p p' ∧
    ∀ a, (¬ expired p a → queue p' !! a = queue p !! a) ∧ (expired p a → len (queue p') a = 0).
Proof using All.
  intros Hp. destruct (evict_ok p (range (dom (queue p))) Hp) as (p' & E & Hu & Ho & Hk & He); [rewrite range_perm; apply NoDup_elements|].
  exists p'. split_and!; [done|done|]. intros a. destruct (decide (a ∈ range (dom (queue p)))) as [Hin|Hni]; [split; auto|].
  split; [by intros _; apply Ho|]. intros _. unfold len, content. rewrite Ho by done. rewrite range_perm, elem_of_elements, not_elem_of_dom in Hni.
  by rewrite Hni.
Qed.
End Evict.

(** ** Every operation keeps the invariants *)

Section Life.
Context {C : Crypto} {D : Database} {MO : MapOrder} {NO : NonceOrder}.
Context (T : txdata → Prop) {W : TxWorld T} (d : DB).

(** The chain as the pool sees it: it has a head, no block has the greatest
    number, states are opened from the database ([BlockChain.StateAt]), and the
    transactions of its blocks are in play. *)
Record chain_ok (sg : Signer) (chain : ChainReader StateDB) : Prop := {
  co_laws : ChainLaws chain;
  co_head : is_Some (CurrentHeader chain);
  co_last : ∀ h, GetBlock chain h maxUint64 = None;
  co_state : ∀ root, StateAt chain root = New root d;
  co_opens : ∀ root, no_crash (OpenTrie d root);
  co_txs : ∀ h n b tx, GetBlock chain h n = Some b → tx ∈ block_transactions b → T tx ∧ safe_tx sg tx
}.

(** What the pool is asked to do: transactions in play, known heads, and no
    more transactions than can be counted. *)
Definition admissible (chain : ChainReader StateDB) (p : TxPool) (e : event) : Prop :=
  match e with
  | AddOne tx _ => T tx ∧ safe_tx (signer p) tx ∧ Z.of_nat (size (all p)) + 1 < two63
  | AddMany l _ => (∀ tx, tx ∈ l → T tx ∧ safe_tx (signer p) tx) ∧ Z.of_nat (size (all p) + length l) < two63
  | NewHead old new =>
      is_Some (GetBlock chain (Header_Hash old) (big_Uint64 (num old))) ∧
      is_Some (GetBlock chain (Header_Hash new) (big_Uint64 (num new))) ∧ Z.of_nat (size (all p)) < two63 ∧
      ∀ l, reinjected chain old new = Ok (Some l) → Z.of_nat (size (all p) + length l) < two63
  | _ => True
  end.

(** The new head is a child of the old one. *)
Definition extends (e : event) : bool :=
  match e with NewHead old new => bool_decide (Header_Hash old = ParentHash new) | _ => true end.

Definition creation_in_play : Prop := ∃ tx, T tx ∧ Recipient tx = None.

Lemma branch_txs chain sg b bs anc :
  chain_ok sg chain → branch chain b bs anc → (∃ h n, GetBlock chain h n = Some b) →
  ∀ tx, tx ∈ txs_in bs → T tx ∧ safe_tx sg tx.
Proof using.
  intros Hco. induction 1 as [|b b' bs anc Hp Hb IH]; intros (h & n & Hg) tx.
  - simpl. intros Hx. by apply elem_of_nil in Hx.
  - unfold txs_in. rewrite bind_cons. intros [Hx|Hx]%elem_of_app; [by apply (co_txs _ _ Hco h n b)|].
    apply IH; [|done]. unfold parent_block in Hp. by eexists _, _.
Qed.

Lemma pool_inv_homestead p b : pool_inv T p → pool_inv T (put_homestead p b).
Proof using. intros [I1 I2 I3 I4]. split; try done. by eapply pool_ok_eq; [..|exact I1]. Qed.

Lemma reset_ok now chain p old new :
  pool_inv T p → chain_ok (signer p) chain → admissible chain p (NewHead old new) →
  (∃ p', reset now chain p (Some old) new = Ok p' ∧ pool_inv T p' ∧ signer p' = signer p ∧ (filled p → filled p') ∧
     (Header_Hash old = ParentHash new → nonces_ok p → nonces_ok p')) ∨
  (reset now chain p (Some old) new = nil_deref ∧ creation_in_play).
Proof using All.
  intros Hi Hco ([rem Hrem] & [add Hadd] & Hsz & Hszl). destruct (co_head _ _ Hco) as [head Hhead]. pose proof (co_laws _ _ Hco) as CL.
  assert (Hre : ∃ r, (if bool_decide (Header_Hash old = ParentHash new) then Ok (Some []) else reinjected chain old new) = Ok r ∧
    ∀ l, r = Some l → (∀ tx, tx ∈ l → T tx ∧ safe_tx (signer p) tx) ∧ Z.of_nat (size (all p) + length l) < two63 ∧
                      (Header_Hash old = ParentHash new → l = [])).
  { case_bool_decide as Hh.
    - eexists. split; [reflexivity|]. intros l [= <-]. split_and!; [intros tx Hx; by apply elem_of_nil in Hx|simpl; lia|done].
    - destruct (reinjected_ok chain (co_last _ _ Hco) old new rem add Hrem Hadd) as (r & E & Hr). exists r. split; [done|].
      intros l ->. split_and!; [|by apply Hszl|done]. destruct (Hr l eq_refl) as [->|(bs1 & bs2 & a1 & a2 & B1 & _ & _ & ->)].
      + intros tx Hx. by apply elem_of_nil in Hx.
      + intros tx [_ Hx]%list_elem_of_filter. by eapply (branch_txs chain _ rem bs1 a1); [done|done|by eexists _, _|]. }
  destruct Hre as (r & Er & Hr). unfold reset. rewrite Er. cbn [bind].
  destruct r as [l|]; [|left; by exists p]. destruct (Hr l eq_refl) as (Htx & Hsl & Hnil). rewrite (co_state _ _ Hco).
  pose proof (co_opens _ _ Hco (Root new)) as Hop. destruct (New (Root new) d) as [s|e|w|] eqn:En; [|left; by exists p|..].
  2,3: unfold New in En; destruct (OpenTrie d (Root new)); done.
  destruct (reset_to_ok T chain head Hhead now p (Root new) d s (GasLimit new) l Hi En Htx Hsl) as [(p' & E & I' & _ & _ & Es & _ & _ & Hf & Hn)|(E & tx & ? & ? & _)].
  - left. exists p'. split_and!; [done|done|done|done|intros Hh Hno; apply Hn; [by apply Hnil|by apply nonces_runs]].
  - right. split; [done|]. by exists tx.
Qed.

Lemma pool_inv_journal p j : pool_inv T p → pool_inv T (put_locals p (locals p) j).
Proof using. intros [I1 I2 I3 I4]. split; try done. by eapply pool_ok_eq; [..|exact I1]. Qed.

Lemma pool_inv_price p price : pool_inv T p → pool_inv T (put_gasPrice p price).
Proof using. intros [I1 I2 I3 I4]. split; try done. by eapply pool_ok_eq; [..|exact I1]. Qed.

(** Each event leaves a pool in order, or meets a creation. *)
Lemma handle_ok now chain p e :
  pool_inv T p → chain_ok (signer p) chain → admissible chain p e →
  (∃ p', handle now chain p e = Ok p' ∧ pool_inv T p' ∧ signer p' = signer p ∧ (filled p → filled p') ∧
     (extends e = true → nonces_ok p → nonces_ok p')) ∨
  (handle now chain p e = nil_deref ∧ creation_in_play ∧ ∃ old new, e = NewHead old new).
Proof using All.
  intros Hi Hco Ha. destruct (co_head _ _ Hco) as [head Hhead].
  assert (Hst : ∀ n p', step T n p p' → pool_inv T p' ∧ signer p' = signer p ∧ (filled p → filled p') ∧ (nonces_ok p → nonces_ok p')).
  { intros n p' Hs. split_and!; [by eapply step_inv|apply (sp_kept _ _ _ _ Hs)|apply Hs|apply Hs]. }
  destruct e as [tx local|l local|price|old new| |]; cbn [handle extends] in *.
  - destruct Ha as (HT & Hsf & Hsz). destruct (addTx_ok T chain head Hhead now p tx local Hi HT Hsf Hsz) as (err & p' & -> & Hs).
    left. exists p'. destruct (Hst _ _ Hs) as (? & ? & ? & ?). by split_and!.
  - destruct Ha as (Hl & Hsz). destruct (addTxsLocked_ok T chain head Hhead now p l local Hi Hl Hsz) as (errs & p' & -> & Hs & _).
    left. exists p'. destruct (Hst _ _ Hs) as (? & ? & ? & ?). by split_and!.
  - destruct (SetGasPrice_ok T p price (pi_ok _ _ Hi) (pi_signer _ _ Hi)) as (p' & -> & _ & R & _). left. exists p'.
    split_and!; [done|by eapply pool_inv_removal; [apply pool_inv_price|]|apply (rm_kept _ _ _ _ R)|apply (rm_filled _ _ _ _ R)|].
    intros _ Hn. apply (rm_nonces _ _ _ _ R). by eapply nonces_ok_eq; [..|exact Hn].
  - unfold on_head. set (p1 := if IsHomestead _ _ then _ else p).
    assert (H1 : pool_inv T p1 ∧ signer p1 = signer p ∧ all p1 = all p ∧ (filled p → filled p1) ∧ (nonces_ok p → nonces_ok p1)).
    { unfold p1. destruct (IsHomestead _ _); [|done]. split_and!; [by apply pool_inv_homestead|done|done|done|].
      intros Hn. by eapply nonces_ok_eq; [..|exact Hn]. }
    destruct H1 as (I1 & Es & Ea & Hf1 & Hn1).
    destruct (reset_ok now chain p1 old new I1) as [(p' & E & I' & Es' & Hf & Hn)|[E Hc]]; [by rewrite Es|simpl; by rewrite Ea|left|right].
    + exists p'. split_and!; [done|done|congruence|auto|]. intros Hx%bool_decide_eq_true Hno. auto.
    + split_and!; [done|done|]. by eexists _, _.
  - destruct (evict_tick_ok T now p (pi_ok _ _ Hi)) as (p' & -> & U & _). pose proof (un_removal _ _ _ _ U) as R. left. exists p'.
    split_and!; [done|by eapply pool_inv_removal|apply (rm_kept _ _ _ _ R)|apply R|]. intros _. apply R.
  - left. eexists. split; [reflexivity|]. destruct (journal p); [|done]. split_and!; [by apply pool_inv_journal|done|done|].
    intros _ Hn. by eapply nonces_ok_eq; [..|exact Hn].
Qed.

(** ** A new pool *)

Lemma load_ok now chain head p stored batch :
  CurrentHeader chain = Some head → pool_inv T p → (∀ tx, tx ∈ batch ++ stored → T tx ∧ safe_tx (signer p) tx) →
  Z.of_nat (size (all p) + length batch + length stored) < two63 →
  ∃ n p', load now chain p stored batch = Ok p' ∧ step T n p p'.
Proof using All.
  intros Hhead. revert p batch. induction stored as [|tx stored IH]; intros p batch Hi Htx Hsz; cbn [load].
  - case_match; [|exists 0%nat, p; split; [done|]; by apply removal_step, removal_refl, Hi]. rewrite app_nil_r in Htx. simpl in Hsz.
    destruct (addTxsLocked_ok T chain head Hhead now p batch (negb (NoLocals (config p))) Hi Htx) as (errs & p' & E & Hs & _); [lia|].
    unfold AddLocals. rewrite E. cbn [bind]. by eexists _, _.
  - assert (Htx' : ∀ t, t ∈ (batch ++ [tx]) ++ stored → T t ∧ safe_tx (signer p) t) by (rewrite <- app_assoc; exact Htx). clear Htx. simpl in Hsz. case_match; [|apply (IH p); [done|done|rewrite length_app; simpl; lia]].
    destruct (addTxsLocked_ok T chain head Hhead now p (batch ++ [tx]) (negb (NoLocals (config p))) Hi) as (errs & p1 & E & Hs & _).
    { intros tx' Hx. apply Htx', elem_of_app. by left. }
    { rewrite length_app. simpl. lia. }
    unfold AddLocals. rewrite E. cbn [bind]. pose proof (sp_size _ _ _ _ Hs) as Hs1. rewrite length_app in Hs1. simpl in Hs1.
    destruct (IH p1 []) as (n & p2 & -> & Hs2); [by eapply step_inv| |simpl; lia|by eexists _, p2; split; [|eapply sp_trans]].
    intros tx' Hx. destruct (Htx' tx') as [? Hsf]; [apply elem_of_app; by right|]. split; [done|]. eapply safe_kept; [apply Hs|done].
Qed.

Lemma empty_pool_ok p :
  pending p = ∅ → queue p = ∅ → all p = ∅ → priced p = newTxPricedList → pool_ok T none [] p.
Proof using.
  intros E1 E2 E3 E4. assert (Hc : ∀ a, content (pending p) a = ∅ ∧ content (queue p) a = ∅).
  { intros a. unfold content. by rewrite E1, E2, lookup_empty. }
  split; rewrite ?E1, ?E2, ?E3, ?E4; try done.
  - intros tx Hx. by apply elem_of_nil in Hx.
  - constructor.
  - intros h tx. rewrite lookup_empty. split; [done|]. intros [_ [Hx%elem_of_nil|[a Ha]]]; [done|].
    unfold in_pool in Ha. destruct (Hc a) as [H1 H2]. rewrite H1, H2, lookup_empty in Ha. naive_solver.
  - intros tx Hx. by apply elem_of_nil in Hx.
Qed.

Lemma locals_signer l (s : accountSet) : as_signer (foldl as_add s l) = as_signer s.
Proof using. revert s. induction l as [|a l IH]; intros s; [done|]. simpl. by rewrite IH. Qed.

Lemma NewTxPool_ok now chain c cc head stored sg :
  sg = EIP155Signer (default 0 (ChainID cc)) → chain_ok sg chain → config_ok c → stake_rules cc →
  (∀ tx, tx ∈ stored → T tx ∧ safe_tx sg tx) → Z.of_nat (length stored) < two63 → (∃ s, New (Root head) d = Ok s) →
  ∃ p, NewTxPool now chain c cc head stored = Ok p ∧ pool_inv T p ∧ filled p ∧ nonces_ok p ∧ signer p = sg.
Proof using All.
  intros Hsg Hco Hc Hcc Htx Hlen [s Hs]. destruct (co_head _ _ Hco) as [h Hh]. unfold NewTxPool. rewrite <- Hsg, (co_state _ _ Hco), Hs. cbn [bind].
  destruct (ManageState_fresh _ _ _ Hs) as (ms & -> & Hms & _). cbn [bind]. set (p0 := {| config := _ |}).
  assert (Hin : pool_inv T p0).
  { split; [by apply empty_pool_ok|simpl; apply locals_signer|destruct Hc; by split|done]. }
  destruct (reset_to_ok T chain h Hh now p0 (Root head) d s (GasLimit head) [] Hin Hs) as [(p1 & E1 & I1 & _ & _ & Es1 & Hsz & _ & Hf & Hn)|(_ & tx & _ & _ & Hcr)].
  { intros tx Hx. by apply elem_of_nil in Hx. }
  { done. }
  2:{ destruct (Hcr eq_refl) as [a Ha]. done. }
  assert (N1 : nonces_ok p1) by (apply Hn; [done|]; intros a; exists 0, 0; intros k; simpl; unfold content; rewrite !lookup_empty; split; [by intros [? ?]|lia]).
  rewrite E1. cbn [bind]. case_match; [|by exists p1].
  destruct (load_ok now chain h p1 stored [] Hh I1) as (n & p2 & -> & Hst).
  { intros tx Hx. rewrite Es1. by apply Htx. }
  { simpl in *. rewrite map_size_empty in Hsz. lia. }
  cbn [bind]. eexists. split; [reflexivity|]. split_and!.
  - apply pool_inv_journal. by eapply step_inv.
  - exact (sp_filled _ _ _ _ Hst Hf).
  - eapply nonces_ok_eq; [..|by apply (sp_nonces _ _ _ _ Hst)]; done.
  - simpl. by rewrite (kp_signer _ _ (sp_kept _ _ _ _ Hst)).
Qed.

(** ** The pools that are reached *)

(** [b] is set as long as each new head was a child of the old one. *)
Inductive reachable (sg : Signer) : bool → TxPool → Prop :=
  | reach_new now chain c cc head stored p :
      sg = EIP155Signer (default 0 (ChainID cc)) → chain_ok sg chain → config_ok c → stake_rules cc →
      (∀ tx, tx ∈ stored → T tx ∧ safe_tx sg tx) → Z.of_nat (length stored) < two63 → (∃ s, New (Root head) d = Ok s) →
      NewTxPool now chain c cc head stored = Ok p → reachable sg true p
  | reach_step b now chain p e p' :
      reachable sg b p → chain_ok sg chain → admissible chain p e → handle now chain p e = Ok p' →
      reachable sg (b && extends e) p'.

Lemma reachable_inv sg b p : reachable sg b p → pool_inv T p ∧ signer p = sg ∧ (b = true → nonces_ok p) ∧ filled p.
Proof using All.
  induction 1 as [now chain c cc head stored p E Hco Hc Hcc Htx Hlen Hs Hnew|b now chain p e p' Hr IH Hco Ha Hh].
  - destruct (NewTxPool_ok now chain c cc head stored sg E Hco Hc Hcc Htx Hlen Hs) as (p' & E' & Hi & Hf & Hn & Es).
    rewrite Hnew in E'. injection E' as ->. done.
  - destruct IH as (Hi & Es & Hn & Hf). rewrite <- Es in Hco. destruct (handle_ok now chain p e Hi Hco Ha) as [(p1 & E1 & I1 & Es1 & Hf1 & Hn1)|[E1 _]].
    + rewrite Hh in E1. injection E1 as <-. split_and!; [done|congruence| |auto]. intros [Hb He]%andb_true_iff. auto.
    + rewrite Hh in E1. done.
Qed.



(** C37: after promotion there are at most [GlobalSlots] pending transactions, or
    no remote account has more than [AccountSlots]; and there are at most
    [GlobalQueue] queued ones, or only local accounts have any. *)
Theorem promotion_keeps_limits sg b p now accounts :
  reachable sg b p → Z.of_nat (size (all p)) < two63 →
  ∃ p', promoteExecutables now p accounts = Ok p' ∧ all p' ⊆ all p ∧
    (tot (pending p') ≤ GlobalSlots (config p) ∨
     ∀ a, contains (locals p) a = false → len (pending p') a ≤ AccountSlots (config p)) ∧
    (tot (queue p') ≤ GlobalQueue (config p) ∨ ∀ a, contains (locals p) a = false → len (queue p') a = 0).
Proof using All.
  intros (Hi & _)%reachable_inv Hs. destruct (promoteExecutables_ok T none now p accounts (pi_ok _ _ Hi) (pi_config _ _ Hi) Hs) as (p' & -> & R & [L1 L2]).
  rewrite (rm_locals _ _ _ _ R), (kp_config _ _ (rm_kept _ _ _ _ R)) in L1, L2. exists p'. split_and!; try done. apply R.
Qed.

(** Too many pending transactions are cut fairly: local accounts lose none,
    no account falls below its share of [AccountSlots], and nothing happens
    within the limit. *)
Theorem pending_cut_is_fair sg b p :
  reachable sg b p → Z.of_nat (size (all p)) < two63 →
  ∃ p', limit_pending p = Ok p' ∧ (tot (pending p) ≤ GlobalSlots (config p) → p' = p) ∧
    (tot (pending p') ≤ GlobalSlots (config p) ∨
     ∀ a, contains (locals p) a = false → len (pending p') a ≤ AccountSlots (config p)) ∧
    ∀ a, AccountSlots (config p) `min` len (pending p) a ≤ len (pending p') a ≤ len (pending p) a ∧
         (contains (locals p) a = true → len (pending p') a = len (pending p) a).
Proof using All.
  intros (Hi & _)%reachable_inv Hs. pose proof (tot_pending T none p (pi_ok _ _ Hi)).
  destruct (limit_pending_ok T none p (pi_ok _ _ Hi) (pi_config _ _ Hi)) as (p' & -> & (dr & Hd & Hdr) & Hsame & Hl); [lia|].
  exists p'. split_and!; [done|done|done|]. intros a. destruct (Hdr a) as (H0 & Hloc & Hmin). pose proof (dr_len _ _ _ _ _ Hd a) as HL.
  split; [lia|]. intros Hlo. rewrite HL, (Hloc Hlo). lia.
Qed.

(** A full pool refuses a remote transaction exactly when no transaction it
    holds is cheaper; otherwise it makes room and keeps every other transaction.
    A pool that is not full is left as it is. *)
Theorem full_pool_refuses_cheapest sg b p tx local a :
  reachable sg b p → Z.of_nat (size (all p)) < two63 → Signer_Sender sg tx = Ok a →
  let full := GlobalSlots (config p) + GlobalQueue (config p) <= Z.of_nat (size (all p)) in
  ∃ err p', make_room p tx local = Ok (err, p') ∧ all p' ⊆ all p ∧
    (¬ full → err = None ∧ p' = p) ∧ (err = None ∨ err = Some ErrUnderpriced) ∧
    (err = Some ErrUnderpriced ↔ full ∧ local = false ∧ contains (locals p) a = false ∧ all p ≠ ∅ ∧
                                 ∀ h tx', all p !! h = Some tx' → Price tx ≤ Price tx').
Proof using All.
  intros (Hi & Es & _)%reachable_inv Hs Hse full. rewrite <- Es in Hse.
  destruct (make_room_ok T p tx local a (pi_ok _ _ Hi) (pi_signer _ _ Hi) (pi_config _ _ Hi) Hs Hse) as (err & p' & -> & R & H1 & H2 & H3).
  exists err, p'. split_and!; try done. apply R.
Qed.

(** What a full pool discards are transactions of remote accounts, the
    cheapest of them, as many as asked for unless there are fewer. *)
Theorem Discard_drops_the_cheapest sg b p count :
  reachable sg b p → 0 ≤ count →
  ∃ drop l, Discard (all p) (locals p) (priced p) count = Ok (drop, l) ∧ (∀ tx, tx ∈ drop → remote p tx) ∧
    (Z.of_nat (length drop) = count ∨ ∀ tx, remote p tx → tx ∈ drop) ∧
    (∀ x y, x ∈ drop → remote p y → y ∉ drop → Price x ≤ Price y).
Proof using All.
  intros (Hi & _)%reachable_inv Hc. destruct (Discard_ok T p count (pi_ok _ _ Hi) (pi_signer _ _ Hi) Hc) as (drop & l & -> & _ & H1 & H2 & H3).
  by exists drop, l.
Qed.

(** After the minimal price is set no remote transaction is below it, and
    every transaction at or above it stays. *)
Theorem SetGasPrice_cuts sg b p price :
  reachable sg b p →
  ∃ p', SetGasPrice p price = Ok p' ∧ gasPrice p' = price ∧ (∀ tx, remote p' tx → price ≤ Price tx) ∧
    (∀ h tx, all p !! h = Some tx → price ≤ Price tx → all p' !! h = Some tx).
Proof using All.
  intros (Hi & _)%reachable_inv. destruct (SetGasPrice_ok T p price (pi_ok _ _ Hi) (pi_signer _ _ Hi)) as (p' & -> & H1 & _ & H2 & H3).
  by exists p'.
Qed.

(** The queued transactions of an account that never had a pending one are
    evicted at the next tick, however short the time they were queued: only
    promotion sets the time their lifetime is counted from. *)
Theorem eviction_ignores_the_time_queued sg b p now a :
  reachable sg b p → contains (locals p) a = false → beats p !! a = None → Lifetime (config p) < max_duration → max_duration ≤ now →
  ∃ p', evict_tick now p = Ok p' ∧ content (queue p') a = ∅ ∧ pending p' = pending p.
Proof using All.
  intros (Hi & _)%reachable_inv Hl Hb Hlt Hnow. destruct (evict_tick_ok T now p (pi_ok _ _ Hi)) as (p' & -> & U & He). exists p'.
  split_and!; [done| |apply U]. destruct (He a) as [_ He']. apply map_size_empty_inv. unfold len in He'. 
  enough (expired now p a) as Hx by (specialize (He' Hx); lia). split; [done|]. unfold beat. rewrite Hb. simpl. lia.
Qed.

(** C38: a pending contract creation that the new state or its block gas limit
    rules out stops the node: it is printed with the recipient it has not. *)
Theorem dropped_creation_stops_the_node sg b p now chain root s gas a tx :
  reachable sg b p → New root d = Ok s → content (pending p) a !! AccountNonce tx = Some tx → Recipient tx = None →
  state_nonce s a ≤ AccountNonce tx → too_costly (GetBalance s a).1 gas tx = true →
  reset_to now chain p s gas [] = nil_deref.
Proof using All.
  intros (Hi & _)%reachable_inv Hs Hx Hr Hn Hc. unfold reset_to. destruct (ManageState_fresh _ _ _ Hs) as (ms & -> & _ & _). cbn [bind].
  set (p1 := put_state p s ms gas). change (addTxsLocked now chain p1 [] false) with (@Ok (list (option string) * TxPool) ([], p1)). cbn [bind].
  assert (P1 : pool_ok T none [] p1) by (eapply pool_ok_eq; [..|apply Hi]; done).
  unfold demoteUnexecutables. rewrite (demote_accounts_creation T none p1 _ a tx P1); [done| |done|done|by rewrite cur_nonce_state|done].
  rewrite range_perm, elem_of_elements, elem_of_dom. unfold content in Hx. simpl. destruct (pending p !! a); [by eexists|done].
Qed.
End Life.

(** ** A new head *)

Section Heads.
Context {C : Crypto} {D : Database} {MO : MapOrder} {NO : NonceOrder}.
Context (chain : ChainReader StateDB) {CL : ChainLaws chain}.

(** The walk over the old and the new branch ends, and what is injected again
    are the transactions of the blocks down to a common ancestor on the old
    branch that are in no block on the new one. *)
Theorem reinjected_spec old new rem add :
  (∀ h, GetBlock chain h maxUint64 = None) →
  GetBlock chain (Header_Hash old) (big_Uint64 (num old)) = Some rem →
  GetBlock chain (Header_Hash new) (big_Uint64 (num new)) = Some add →
  ∃ r, reinjected chain old new = Ok r ∧
    ∀ l, r = Some l → l = [] ∨ ∃ bs1 bs2 anc1 anc2, branch chain rem bs1 anc1 ∧ branch chain add bs2 anc2 ∧
      Header_Hash (block_header anc1) = Header_Hash (block_header anc2) ∧
      l = filter (λ tx, Tx_Hash tx ∉ Tx_Hash <$> txs_in bs2) (txs_in bs1).
Proof using All. intros Hlast. exact (reinjected_ok chain Hlast old new rem add). Qed.
End Heads.

(** The validation of a contract creation that stakes dereferences its
    recipient, which it has not, and stops the node. *)
Theorem staking_creation_stops_the_node {C : Crypto} {D : Database} {MO : MapOrder} {NO : NonceOrder} p current tx local from :
  Signer_Sender (signer p) tx = Ok from → Recipient tx = None → Base tx = Main → Target tx = Stake →
  Tx_Size tx ≤ 32 * 1024 → 0 ≤ Amount tx → TxGasLimit tx ≤ currentMaxGas p → gasPrice p ≤ Price tx →
  cur_nonce p from ≤ AccountNonce tx → validateTx p current tx local = nil_deref.
Proof.
  intros Hs Hr Hb Ht H1 H2 H3 H4 H5. unfold validateTx, check. rewrite Hs, Hb, Ht, Hr.
  rewrite (proj2 (Z.ltb_ge _ _) H1), (proj2 (Z.ltb_ge _ _) H2), (proj2 (Z.ltb_ge _ _) H3). cbn [bind].
  rewrite (proj2 (Z.ltb_ge _ _) H4), (proj2 (Z.ltb_ge _ _) H5), andb_false_r. cbn [bind]. change (ValidateJobWallet Main Stake) with (@None string). cbn [bind].
  unfold check_receiver. by rewrite Ht, Hr, orb_true_r.
Qed.

(** ** A pool that runs *)

Module ToyPool.
#[local] Existing Instance ToyState.toyDatabase.
#[local] Instance toyCrypto : Crypto := {|
  Keccak256 := fun b => set_bytes HashLength b;
  ValidateSignatureValues := fun _ _ _ _ => true;
  Ecrecover := fun h sig => Ok (4 :: sig ++ h)
|}.
#[local] Instance toyRange : MapOrder := {| range := elements; range_perm s := reflexivity _ |}.
#[local] Instance toyNonces : NonceOrder := {| range_nonces := elements; range_nonces_perm s := reflexivity _ |}.

Definition transfer : txdata := {|
  AccountNonce := 0; Price := 0; TxGasLimit := 21000; Recipient := Some (replicate 20 9); Amount := 0; Payload := [];
  Base := Main; Target := Main; V := 27; R := 1; S_ := 1
|}.

Definition creation : txdata := {|
  AccountNonce := 0; Price := 0; TxGasLimit := 60000; Recipient := None; Amount := 0; Payload := [];
  Base := Main; Target := Main; V := 27; R := 1; S_ := 1
|}.

Definition later : txdata := {|
  AccountNonce := 5; Price := 0; TxGasLimit := 21000; Recipient := Some (replicate 20 9); Amount := 0; Payload := [];
  Base := Main; Target := Main; V := 27; R := 2; S_ := 1
|}.

Definition in_play (tx : txdata) : Prop := tx ∈ [transfer; creation; later].

#[local] Instance toyWorld : TxWorld in_play.
Proof.
  split; unfold in_play.
  - intros tx. rewrite !elem_of_cons, elem_of_nil. intros [->|[->|[->|[]]]]; split; done.
  - assert (H : NoDup (Tx_Hash <$> [transfer; creation; later])) by (apply (bool_decide_unpack _); vm_compute; exact I).
    intros tx tx' [i Hi]%list_elem_of_lookup [j Hj]%list_elem_of_lookup E.
    assert (i = j) as ->; [|congruence]. apply (NoDup_lookup _ i j (Tx_Hash tx) H); rewrite list_lookup_fmap; [by rewrite Hi|by rewrite Hj, E].
Qed.

Definition sg : Signer := EIP155Signer (default 0 (ChainID MainnetChainConfig)).

Definition header (n : Z) (parent : Hash) : Header := {|
  ParentHash := parent; UncleHash := zeroHash; Coinbase := zeroAddress; Root := zeroHash;
  TxHash := zeroHash; ReceiptHash := zeroHash; Bloom := []; Difficulty := 1; Number := Some n;
  GasLimit := 1000000; GasUsed := 0; Time := 100; Extra := []; MixDigest := zeroHash; Nonce := replicate 8 0
|}.

Definition header0 : Header := header 0 zeroHash.
Definition header1 : Header := header 1 (Header_Hash header0).

Definition block (h : Header) : Block := {| block_header := h; block_transactions := []; block_uncles := [] |}.

Definition disk : DB := tt.

Definition chain : ChainReader StateDB := {|
  Config := MainnetChainConfig;
  CurrentHeader := Some header0;
  GetHeader := fun _ _ => None;
  GetHeaderByNumber := fun _ => None;
  GetBlock := fun h n =>
    if bool_decide (h = Header_Hash header0) && (n =? 0) then Some (block header0)
    else if bool_decide (h = Header_Hash header1) && (n =? 1) then Some (block header1) else None;
  StateAt := fun root => New root disk;
  HasBlockAndState := fun _ _ => true
|}.

Definition pool0 : result TxPool := NewTxPool 0 chain DefaultTxPoolConfig MainnetChainConfig header0 [].
Definition pool1 : result TxPool := let* p := pool0 in handle 0 chain p (AddOne creation true).
Definition sender_of (tx : txdata) : Address := match Signer_Sender sg tx with Ok a => a | _ => [] end.


(** A remote transaction that must wait. *)
Definition pool2 : result TxPool :=
  let* p := pool0 in let* p := handle 0 chain p (PriceSet 0) in handle 0 chain p (AddOne later false).

#[local] Opaque Header_Hash.

Lemma toy_GetBlock h n b : GetBlock chain h n = Some b →
  (h = Header_Hash header0 ∧ n = 0 ∧ b = block header0) ∨ (h = Header_Hash header1 ∧ n = 1 ∧ b = block header1).
Proof.
  cbn [chain GetBlock]. destruct (bool_decide (h = Header_Hash header0) && (n =? 0)) eqn:E1.
  - apply andb_true_iff in E1 as [->%bool_decide_eq_true ->%Z.eqb_eq]. intros [= <-]. left. exact (conj eq_refl (conj eq_refl eq_refl)).
  - destruct (bool_decide (h = Header_Hash header1) && (n =? 1)) eqn:E2; [|done].
    apply andb_true_iff in E2 as [->%bool_decide_eq_true ->%Z.eqb_eq]. intros [= <-]. right. exact (conj eq_refl (conj eq_refl eq_refl)).
Qed.

#[local] Instance toyLaws : ChainLaws chain.
Proof.
  split; [done|done|]. intros h n b [(-> & -> & ->)|(-> & -> & ->)]%toy_GetBlock; (split_and!; [done|done|]);
    unfold is_u64, two64; lia.
Qed.

Lemma toy_chain_ok : chain_ok in_play disk sg chain.
Proof.
  split; [apply _|by eexists|intros h|done|done|].
  - destruct (GetBlock chain h maxUint64) eqn:E; [|done]. by apply toy_GetBlock in E as [(_ & ? & _)|(_ & ? & _)].
  - intros h n b tx [(_ & _ & ->)|(_ & _ & ->)]%toy_GetBlock Hx; by apply elem_of_nil in Hx.
Qed.

Lemma toy_safe tx : in_play tx → safe_tx sg tx.
Proof.
  unfold in_play. rewrite !elem_of_cons, elem_of_nil. intros [->|[->|[->|[]]]]; split; try done; vm_compute; exact I.
Qed.

Lemma toy_New : ∃ s, New (Root header0) disk = Ok s.
Proof. by eexists. Qed.

Lemma toy_rules : stake_rules MainnetChainConfig.
Proof. by eexists _, _, _. Qed.

Lemma nothing_stored tx : tx ∈ [] → in_play tx ∧ safe_tx sg tx.
Proof. intros Hx. by apply elem_of_nil in Hx. Qed.

Lemma toy_config : config_ok DefaultTxPoolConfig.
Proof. done. Qed.

Lemma pool0_reachable p : pool0 = Ok p → reachable in_play disk sg true p.
Proof.
  intros E. apply (reach_new in_play disk sg 0 chain DefaultTxPoolConfig MainnetChainConfig header0 [] p); try done.
  - apply toy_chain_ok.
  - apply toy_rules.
  - apply nothing_stored.
  - apply toy_New.
Qed.

Definition checked (r : result TxPool) (f : TxPool → bool) : bool := match r with Ok p => f p | _ => false end.

Lemma checked_ok r f : checked r f = true → ∃ p, r = Ok p ∧ f p = true.
Proof. destruct r as [p| | |]; try done. intros H. by exists p. Qed.

Lemma bind_ok {A B} (r : result A) (k : A → result B) b : (let* x := r in k x) = Ok b → ∃ a, r = Ok a ∧ k a = Ok b.
Proof. destruct r as [a| | |]; try done. intros H. by exists a. Qed.

(** One pending creation. *)
Lemma pool1_spec :
  ∃ p, pool1 = Ok p ∧ reachable in_play disk sg true p ∧ content (pending p) (sender_of creation) !! 0 = Some creation ∧ size (all p) = 1%nat.
Proof.
  destruct (checked_ok pool1 (λ p, bool_decide (content (pending p) (sender_of creation) !! 0 = Some creation ∧ size (all p) = 1%nat))) as (p & E & H).
  { vm_compute. reflexivity. }
  apply bool_decide_eq_true in H as [H1 H2]. exists p. split_and!; [done| |done|done].
  pose proof E as E'. apply bind_ok in E' as (p0 & E0 & E1).
  destruct (checked_ok pool0 (λ p, bool_decide (size (all p) = 0%nat))) as (p0' & E0' & Hs%bool_decide_eq_true); [vm_compute; reflexivity|].
  rewrite E0 in E0'. injection E0' as <-. pose proof (pool0_reachable p0 E0) as R0.
  destruct (reachable_inv _ _ _ _ _ R0) as (_ & Es & _).
  apply (reach_step in_play disk sg true 0 chain p0 (AddOne creation true) p R0 toy_chain_ok); [|done].
  split_and!; [right; by left|rewrite Es; apply toy_safe; right; by left|rewrite Hs; done].
Qed.

(** One queued transaction of a remote account. *)
Lemma pool2_spec :
  ∃ p, pool2 = Ok p ∧ reachable in_play disk sg true p ∧ content (queue p) (sender_of later) !! 5 = Some later ∧
       beats p !! sender_of later = None ∧ contains (locals p) (sender_of later) = false ∧ size (all p) = 1%nat ∧ Lifetime (config p) < max_duration.
Proof.
  destruct (checked_ok pool2 (λ p, bool_decide (content (queue p) (sender_of later) !! 5 = Some later ∧ beats p !! sender_of later = None ∧
    contains (locals p) (sender_of later) = false ∧ size (all p) = 1%nat ∧ Lifetime (config p) < max_duration))) as (p & E & H).
  { vm_compute. reflexivity. }
  apply bool_decide_eq_true in H. exists p. split_and!; [done| |apply H..].
  pose proof E as E'. apply bind_ok in E' as (p0 & E0 & (p1 & E1 & E2)%bind_ok).
  destruct (checked_ok (let* p := pool0 in handle 0 chain p (PriceSet 0)) (λ p, bool_decide (size (all p) = 0%nat))) as (p1' & E1' & Hs%bool_decide_eq_true);
    [vm_compute; reflexivity|].
  rewrite E0 in E1'. cbn [bind] in E1'. rewrite E1 in E1'. injection E1' as <-. pose proof (pool0_reachable p0 E0) as R0.
  pose proof (reach_step in_play disk sg true 0 chain p0 (PriceSet 0) p1 R0 toy_chain_ok I E1) as R1.
  destruct (reachable_inv _ _ _ _ _ R1) as (_ & Es & _).
  apply (reach_step in_play disk sg true 0 chain p1 (AddOne later false) p R1 toy_chain_ok); [|done].
  split_and!; [right; right; by left|rewrite Es; apply toy_safe; right; right; by left|rewrite Hs; done].
Qed.

(** *** Witnesses *)



Lemma promotion_keeps_limits_witness :
  ∃ p p', pool1 = Ok p ∧ promoteExecutables 7 p None = Ok p' ∧ all p' ⊆ all p.
Proof.
  destruct pool1_spec as (p & E & R & _ & Hs). exists p.
  destruct (promotion_keeps_limits in_play disk sg true p 7 None R) as (p' & E' & Ha & _); [rewrite Hs; done|].
  exists p'. split_and!; [exact E|exact E'|exact Ha].
Defined.

Lemma pending_cut_is_fair_witness :
  ∃ p p', pool1 = Ok p ∧ limit_pending p = Ok p' ∧
    ∀ a, AccountSlots (config p) `min` len (pending p) a ≤ len (pending p') a ≤ len (pending p) a.
Proof.
  destruct pool1_spec as (p & E & R & _ & Hs). exists p.
  destruct (pending_cut_is_fair in_play disk sg true p R) as (p' & E' & _ & _ & Ha); [rewrite Hs; done|].
  exists p'. split_and!; [exact E|exact E'|intros a; exact (proj1 (Ha a))].
Defined.

Lemma full_pool_refuses_cheapest_witness : ∃ p, pool1 = Ok p ∧ make_room p transfer false = Ok (None, p).
Proof.
  destruct pool1_spec as (p & E & R & _ & Hs). exists p. destruct (reachable_inv _ _ _ _ _ R) as (Hi & _).
  destruct (full_pool_refuses_cheapest in_play disk sg true p transfer false (sender_of transfer) R) as (err & p' & E' & _ & Hfree & _);
    [rewrite Hs; done|vm_compute; reflexivity|].
  destruct (checked_ok pool1 (λ p, bool_decide (GlobalSlots (config p) + GlobalQueue (config p) = 5120))) as (q & Eq & Hg%bool_decide_eq_true);
    [vm_compute; reflexivity|].
  rewrite E in Eq. injection Eq as <-. destruct Hfree as [-> ->]; [rewrite Hs, Hg; lia|]. split; [exact E|exact E'].
Defined.

Lemma Discard_drops_the_cheapest_witness :
  ∃ p drop l, pool2 = Ok p ∧ Discard (all p) (locals p) (priced p) 1 = Ok (drop, l) ∧ later ∈ drop.
Proof.
  destruct pool2_spec as (p & E & R & Hq & _ & Hl & _). exists p.
  destruct (Discard_drops_the_cheapest in_play disk sg true p 1 R) as (drop & l & E' & Hrem & Hn & _); [done|].
  exists drop, l. split_and!; [exact E|exact E'|]. destruct Hn as [Hn|Hn].
  - destruct drop as [|x [|y drop]]; [discriminate Hn| |simpl in Hn; lia].
    destruct (checked_ok pool2 (λ p, bool_decide (range_all (all p) = [later]))) as (q & Eq & Ha%bool_decide_eq_true); [vm_compute; reflexivity|].
    rewrite E in Eq. injection Eq as <-. destruct (Hrem x) as (a & Hx & _); [by left|].
    destruct (reachable_inv _ _ _ _ _ R) as (Hi & _). apply list_elem_of_singleton. symmetry. apply list_elem_of_singleton. rewrite <- Ha.
    unfold range_all. apply list_elem_of_omap. exists (Tx_Hash x).
    assert (Hall : all p !! Tx_Hash x = Some x) by (apply (pk_all _ _ _ _ (pi_ok _ _ Hi)); split; [done|right; by exists a]).
    split; [|exact Hall]. rewrite range_perm. apply elem_of_elements. by eapply elem_of_dom_2.
  - apply Hn. exists (sender_of later). split; [by right|exact Hl].
Defined.

Lemma SetGasPrice_cuts_witness : ∃ p p', pool2 = Ok p ∧ SetGasPrice p 9 = Ok p' ∧ ∀ tx, remote p' tx → 9 ≤ Price tx.
Proof.
  destruct pool2_spec as (p & E & R & _). exists p. destruct (SetGasPrice_cuts in_play disk sg true p 9 R) as (p' & E' & _ & Hr & _).
  exists p'. split_and!; [exact E|exact E'|exact Hr].
Defined.

Lemma eviction_ignores_the_time_queued_witness :
  ∃ p p', pool2 = Ok p ∧ content (queue p) (sender_of later) !! 5 = Some later ∧ evict_tick max_duration p = Ok p' ∧
    content (queue p') (sender_of later) = ∅.
Proof.
  destruct pool2_spec as (p & E & R & Hq & Hb & Hl & _ & Hlt). exists p.
  destruct (eviction_ignores_the_time_queued in_play disk sg true p max_duration (sender_of later) R Hl Hb Hlt) as (p' & E' & Hc & _); [lia|].
  exists p'. split_and!; [exact E|exact Hq|exact E'|exact Hc].
Defined.

Lemma dropped_creation_stops_the_node_witness :
  ∃ p s, pool1 = Ok p ∧ New zeroHash disk = Ok s ∧ reset_to 7 chain p s 50000 [] = nil_deref.
Proof.
  destruct pool1_spec as (p & E & R & Hc & _). exists p. eexists. split; [exact E|]. split; [reflexivity|].
  apply (dropped_creation_stops_the_node in_play disk sg true p 7 chain zeroHash _ 50000 (sender_of creation) creation R); [reflexivity|exact Hc|reflexivity| |].
  - vm_compute. discriminate.
  - vm_compute. reflexivity.
Defined.

Lemma reinjected_spec_witness : ∃ r, reinjected chain header1 header0 = Ok r.
Proof.
  destruct (reinjected_spec chain header1 header0 (block header1) (block header0)) as (r & E & _).
  - apply (co_last _ _ _ _ toy_chain_ok).
  - cbn [chain GetBlock]. rewrite andb_false_r, bool_decide_eq_true_2 by done. reflexivity.
  - cbn [chain GetBlock]. rewrite bool_decide_eq_true_2 by done. reflexivity.
  - exists r. exact E.
Defined.

Definition staking_creation : txdata := {|
  AccountNonce := 0; Price := 1; TxGasLimit := 60000; Recipient := None; Amount := 1; Payload := [];
  Base := Main; Target := Stake; V := 27; R := 1; S_ := 1
|}.

Lemma staking_creation_stops_the_node_witness :
  ∃ p, pool0 = Ok p ∧ validateTx p (Some 0) staking_creation false = nil_deref.
Proof.
  destruct (checked_ok pool0 (λ p, bool_decide (Tx_Size staking_creation ≤ 32 * 1024 ∧ TxGasLimit staking_creation ≤ currentMaxGas p ∧
    gasPrice p ≤ 1 ∧ cur_nonce p (sender_of staking_creation) ≤ 0))) as (p & E & H); [vm_compute; reflexivity|].
  apply bool_decide_eq_true in H as (H2 & H3 & H4 & H5). exists p. split; [exact E|].
  destruct (reachable_inv _ _ _ _ _ (pool0_reachable p E)) as (_ & Es & _).
  apply (staking_creation_stops_the_node p (Some 0) staking_creation false (sender_of staking_creation)); try reflexivity; try assumption.
  rewrite Es. vm_compute. reflexivity.
Defined.
End ToyPool.
