(* ===== verification/TxOrder.v ===== *)
(** * Transactions by price and nonce ([core/types/transaction.go])

    The miner takes the dearest of the next transactions of all accounts.  Its
    set is built from the pending transactions of the pool. *)

From Stdlib Require Import ZArith Lia.
From stdpp Require Import base option list gmap sets strings sorting.
From S2P Require Import Prelude Params Rlp Types Account State StateRevert Chain Transition.
From S2P Require Import Heap TxList TxListProps ManagedState TxPool TxPoolBase TxPoolSteps TxPoolLimits TxPoolPrices TxPoolAdd TxPoolReset TxPoolProps.

(** ** The set *)

(** [TxByPrice.Less]: the dearer first. *)
Definition dearer (a b : txdata) : bool := Price b <? Price a.

#[export] Instance dearer_order : WeakOrder dearer.
Proof. split; unfold dearer; intros *; rewrite ?Z.ltb_lt, ?Z.ltb_ge; lia. Qed.

Record TransactionsByPriceAndNonce := {
  t_txs : gmap Address (list txdata);
  t_heads : list txdata;
  t_signer : Signer
}.

Section Order.
Context {C : Crypto} {MO : MapOrder}.

(** [Sender] with its error dropped. *)
Definition sender_or_zero (sg : Signer) (tx : txdata) : result Address :=
  match Signer_Sender sg tx with
  | Err _ => Ok zeroAddress
  | r => r
  end.

(** An account that the loop adds to the map is not visited; there is none when
    every list is that of its sender. *)
Fixpoint take_heads (sg : Signer) (txs : gmap Address (list txdata)) (accounts : list Address) (heads : list txdata)
  : result (gmap Address (list txdata) * list txdata) :=
  match accounts with
  | [] => Ok (txs, heads)
  | from :: accounts =>
      match txs !! from with
      | None => take_heads sg txs accounts heads
      | Some [] => Panic "index out of range"
      | Some (tx :: rest) =>
          let* acc := sender_or_zero sg tx in
          let txs := <[acc := rest]> txs in
          let txs := if bool_decide (from = acc) then txs else delete from txs in
          take_heads sg txs accounts (heads ++ [tx])
      end
  end.

Definition NewTransactionsByPriceAndNonce (sg : Signer) (txs : gmap Address (list txdata)) : result TransactionsByPriceAndNonce :=
  let* (txs, heads) := take_heads sg txs (range (dom txs)) [] in
  Ok {| t_txs := txs; t_heads := heap_Init dearer heads; t_signer := sg |}.

Definition Peek (t : TransactionsByPriceAndNonce) : option txdata := head (t_heads t).

(** [heap.Pop] of no heads is out of range. *)
Definition Pop (t : TransactionsByPriceAndNonce) : result TransactionsByPriceAndNonce :=
  match heap_Pop dearer (t_heads t) with
  | None => Panic "index out of range"
  | Some (_, heads) => Ok {| t_txs := t_txs t; t_heads := heads; t_signer := t_signer t |}
  end.

Definition Shift (t : TransactionsByPriceAndNonce) : result TransactionsByPriceAndNonce :=
  match t_heads t with
  | [] => Panic "index out of range"
  | tx :: _ =>
      let* acc := sender_or_zero (t_signer t) tx in
      match t_txs t !! acc with
      | Some (tx' :: rest) =>
          Ok {| t_txs := <[acc := rest]> (t_txs t); t_heads := heap_Fix dearer (<[0%nat := tx']> (t_heads t)) 0; t_signer := t_signer t |}
      | _ => Pop t
      end
  end.

(** All of them, as a miner takes them. *)
Fixpoint drain (fuel : nat) (t : TransactionsByPriceAndNonce) : result (list txdata) :=
  match Peek t with
  | None => Ok []
  | Some tx =>
      match fuel with
      | O => Hang
      | S fuel => let* t := Shift t in let* l := drain fuel t in Ok (tx :: l)
      end
  end.

(** ** What it stands for *)

(** The accounts of [m] have transactions left, which are theirs. *)
Definition queues_ok (sg : Signer) (m : gmap Address (list txdata)) : Prop :=
  ∀ a l, m !! a = Some l → l ≠ [] ∧ ∀ tx, tx ∈ l → Signer_Sender sg tx = Ok a.

Definition heads_of (m : gmap Address (list txdata)) : list txdata := omap head (map_to_list m).*2.

Record represents (t : TransactionsByPriceAndNonce) (m : gmap Address (list txdata)) : Prop := {
  rp_queues : queues_ok (t_signer t) m;
  rp_heap : is_heap dearer (t_heads t);
  rp_heads : t_heads t ≡ₚ heads_of m;
  rp_rest : ∀ a l, m !! a = Some l → default [] (t_txs t !! a) = tail l
}.

(** The queue of [a] without its first. *)
Definition advance (m : gmap Address (list txdata)) (a : Address) : gmap Address (list txdata) :=
  match m !! a with
  | Some (_ :: (_ :: _) as rest) => <[a := rest]> m
  | _ => delete a m
  end.

Lemma heads_of_insert m a l : m !! a = None → heads_of (<[a := l]> m) ≡ₚ option_list (head l) ++ heads_of m.
Proof using. intros H. unfold heads_of. rewrite map_to_list_insert by done. destruct l; done. Qed.

Lemma heads_of_delete m a l : m !! a = Some l → heads_of m ≡ₚ option_list (head l) ++ heads_of (delete a m).
Proof using. intros H. rewrite <- (insert_delete_id m a l H) at 1. apply heads_of_insert, lookup_delete_eq. Qed.

Lemma elem_of_heads m tx : tx ∈ heads_of m ↔ ∃ a rest, m !! a = Some (tx :: rest).
Proof using.
  unfold heads_of. rewrite list_elem_of_omap. split.
  - intros (l & Hl & Hh). apply list_elem_of_fmap in Hl as ([a l'] & -> & Hal%elem_of_map_to_list). simpl in Hh.
    destruct l' as [|x rest]; [done|]. injection Hh as ->. by exists a, rest.
  - intros (a & rest & Ha). exists (tx :: rest). split; [|done]. by apply (list_elem_of_fmap_2 snd _ (a, tx :: rest)), elem_of_map_to_list.
Qed.

(** The first head is the dearest; its account is known. *)
Lemma Peek_spec t m :
  represents t m → m ≠ ∅ →
  ∃ tx hs a rest, t_heads t = tx :: hs ∧ m !! a = Some (tx :: rest) ∧ Signer_Sender (t_signer t) tx = Ok a ∧
    hs ≡ₚ heads_of (delete a m) ∧ ∀ b tx' rest', m !! b = Some (tx' :: rest') → Price tx' ≤ Price tx.
Proof using.
  intros [Hq Hh Hp Hr] Hne. destruct (map_choose m Hne) as (a0 & l0 & H0). destruct (Hq _ _ H0) as [Hl0 _].
  destruct l0 as [|x0 l0]; [done|]. assert (Hin : x0 ∈ t_heads t) by (rewrite Hp; apply elem_of_heads; by exists a0, l0).
  destruct (t_heads t) as [|tx hs] eqn:E; [by apply elem_of_nil in Hin|].
  assert (Htx : tx ∈ heads_of m) by (rewrite <- Hp; by left). apply elem_of_heads in Htx as (a & rest & Ha).
  exists tx, hs, a, rest. split_and!; try done; [apply (Hq _ _ Ha); by left| |].
  - rewrite (heads_of_delete m a _ Ha) in Hp. simpl in Hp. by apply Permutation.Permutation_cons_inv in Hp.
  - intros b tx' rest' Hb. assert (Hin' : tx' ∈ tx :: hs) by (rewrite Hp; apply elem_of_heads; by exists b, rest').
    apply list_elem_of_lookup in Hin' as [k Hk]. pose proof (heap_root dearer (tx :: hs) tx Hh eq_refl k tx' Hk) as Hab.
    unfold above, dearer in Hab. apply Z.ltb_ge in Hab. done.
Qed.

Lemma Pop_spec t m tx hs a rest :
  represents t m → t_heads t = tx :: hs → m !! a = Some (tx :: rest) → hs ≡ₚ heads_of (delete a m) →
  ∃ t', Pop t = Ok t' ∧ represents t' (delete a m).
Proof using.
  intros [Hq Hh Hp Hr] E Ha Hhs. unfold Pop. destruct (heap_Pop_spec dearer (t_heads t) tx hs Hh E) as (heads & -> & Hperm & Hh' & _).
  eexists. split; [reflexivity|]. split; simpl; [|done| |].
  - intros b l [_ Hb]%lookup_delete_Some. by apply Hq.
  - rewrite <- Hhs. rewrite E in Hperm. by apply Permutation.Permutation_cons_inv in Hperm.
  - intros b l [_ Hb]%lookup_delete_Some. by apply Hr.
Qed.

Lemma Shift_spec t m tx hs a rest :
  represents t m → t_heads t = tx :: hs → m !! a = Some (tx :: rest) → Signer_Sender (t_signer t) tx = Ok a →
  hs ≡ₚ heads_of (delete a m) → ∃ t', Shift t = Ok t' ∧ represents t' (advance m a).
Proof using.
  intros Hrp E Ha Hs Hhs. pose proof Hrp as [Hq Hh Hp Hr]. unfold Shift, sender_or_zero. rewrite E, Hs. cbn [bind].
  pose proof (Hr _ _ Ha) as Hra. simpl in Hra. unfold advance. rewrite Ha. destruct rest as [|tx' rest'].
  - destruct (Pop_spec t m tx hs a [] Hrp E Ha Hhs) as (t' & Ep & Hrp'). exists t'. split; [|done].
    destruct (t_txs t !! a) as [[|]|]; [done|done|done].
  - destruct (t_txs t !! a) as [la|]; [|done]. simpl in Hra. subst la. eexists. split; [reflexivity|]. split; simpl.
    + intros b l [[<- <-]|[_ Hb]]%lookup_insert_Some; [|by apply Hq]. split; [done|]. intros x Hx. apply (Hq _ _ Ha). by right.
    + assert (Hf : is_heap dearer (heap_Fix dearer (<[0%nat := tx']> (t_heads t)) 0)) by (apply heap_Fix_heap; [apply _|done|rewrite E; simpl; lia]).
      by rewrite E in Hf.
    + rewrite heap_Fix_perm. simpl. rewrite <- insert_delete_eq, heads_of_insert by apply lookup_delete_eq. simpl. by rewrite Hhs.
    + intros b l [[<- <-]|[Hne Hb]]%lookup_insert_Some; [by rewrite lookup_insert_eq|]. rewrite lookup_insert_ne by done. by apply Hr.
Qed.

(** ** Building the set *)

Lemma take_heads_ok sg m l txs heads :
  queues_ok sg m → NoDup l → (∀ a, a ∈ l → is_Some (m !! a) ∧ txs !! a = m !! a) →
  ∃ txs', take_heads sg txs l heads = Ok (txs', heads ++ omap (λ a, m !! a ≫= head) l) ∧
    (∀ a, a ∈ l → txs' !! a = tail <$> m !! a) ∧ (∀ a, a ∉ l → txs' !! a = txs !! a).
Proof using.
  intros Hq. revert txs heads. induction l as [|a l IH]; intros txs heads Hnd Hl; cbn [take_heads].
  { exists txs. rewrite app_nil_r. split_and!; [done|intros a Ha; by apply elem_of_nil in Ha|done]. }
  apply NoDup_cons in Hnd as [Hni Hnd]. destruct (Hl a) as [[q Hqa] Ea]; [by left|]. rewrite Ea, Hqa.
  destruct (Hq _ _ Hqa) as [Hne Hs]. destruct q as [|tx rest]; [done|]. unfold sender_or_zero. rewrite (Hs tx) by by left. cbn [bind].
  rewrite bool_decide_eq_true_2 by done. destruct (IH (<[a := rest]> txs) (heads ++ [tx]) Hnd) as (txs' & -> & H1 & H2).
  { intros c Hc. destruct (Hl c) as [? Ec]; [by right|]. split; [done|]. rewrite lookup_insert_ne; [done|]. by intros ->. }
  exists txs'. split_and!.
  - simpl. rewrite Hqa. simpl. by rewrite <- app_assoc.
  - intros c [->|Hc]%elem_of_cons; [|by apply H1]. rewrite H2, lookup_insert_eq, Hqa by done. done.
  - intros c [Hca Hcl]%not_elem_of_cons. rewrite H2, lookup_insert_ne by done. done.
Qed.

Lemma heads_of_range (m : gmap Address (list txdata)) l :
  NoDup l → (∀ a, a ∈ l ↔ is_Some (m !! a)) → omap (λ a, m !! a ≫= head) l ≡ₚ heads_of m.
Proof using.
  revert m. induction l as [|a l IH]; intros m Hnd Hl.
  - assert (m = ∅) as ->; [|done]. apply map_empty. intros a. destruct (m !! a) eqn:E; [|done].
    assert (Hin : a ∈ []) by (apply Hl; by eexists). by apply elem_of_nil in Hin.
  - apply NoDup_cons in Hnd as [Hni Hnd]. destruct (proj1 (Hl a)) as [q Hq]; [by left|]. rewrite (heads_of_delete m a q Hq).
    rewrite <- (IH (delete a m) Hnd).
    + simpl. rewrite Hq. assert (E : omap (λ c, m !! c ≫= head) l = omap (λ c, delete a m !! c ≫= head) l).
      { apply list_omap_ext, Forall2_same_length_lookup_2; [done|]. intros i x y Hx Hy. simplify_eq.
        rewrite lookup_delete_ne; [done|]. intros ->. apply Hni. by eapply list_elem_of_lookup_2. }
      change (list_omap _ _ ?f l) with (omap f l). rewrite E. destruct q; done.
    + intros c. rewrite lookup_delete_is_Some. split.
      * intros Hc. split; [by intros ->|]. apply Hl. by right.
      * intros [Hne Hc%Hl]. by apply elem_of_cons in Hc as [->|?].
Qed.

Lemma New_spec sg m : queues_ok sg m → ∃ t, NewTransactionsByPriceAndNonce sg m = Ok t ∧ represents t m.
Proof using.
  intros Hq. assert (Hin : ∀ a, a ∈ range (dom m) ↔ is_Some (m !! a)) by (intros a; by rewrite range_perm, elem_of_elements, elem_of_dom).
  assert (Hnd : NoDup (range (dom m))) by (rewrite range_perm; apply NoDup_elements).
  destruct (take_heads_ok sg m (range (dom m)) m [] Hq Hnd) as (txs' & E & H1 & _); [intros a Ha; split; [by apply Hin|done]|].
  unfold NewTransactionsByPriceAndNonce. rewrite E. cbn [bind]. eexists. split; [reflexivity|]. split; simpl; [done| | |].
  - apply heap_Init_heap, _.
  - rewrite heap_Init_perm. by apply heads_of_range.
  - intros a l Ha. rewrite H1 by (apply Hin; by eexists). by rewrite Ha.
Qed.

(** ** Taking all *)

(** Each is the first of its account, and none of the others' firsts is
    dearer. *)
Inductive best_first : gmap Address (list txdata) → list txdata → Prop :=
  | best_nil : best_first ∅ []
  | best_cons m a tx rest out :
      m !! a = Some (tx :: rest) → (∀ b tx' rest', m !! b = Some (tx' :: rest') → Price tx' ≤ Price tx) →
      best_first (advance m a) out → best_first m (tx :: out).

Definition all_txs (m : gmap Address (list txdata)) : list txdata := concat (map_to_list m).*2.

Lemma all_txs_insert m a l : m !! a = None → all_txs (<[a := l]> m) ≡ₚ l ++ all_txs m.
Proof using. intros H. unfold all_txs. by rewrite map_to_list_insert. Qed.

Lemma all_txs_delete m a l : m !! a = Some l → all_txs m ≡ₚ l ++ all_txs (delete a m).
Proof using. intros H. rewrite <- (insert_delete_id m a l H) at 1. apply all_txs_insert, lookup_delete_eq. Qed.

Lemma advance_spec m a tx rest : m !! a = Some (tx :: rest) →
  all_txs m ≡ₚ tx :: all_txs (advance m a) ∧ (∀ b, default [] (advance m a !! b) = if decide (b = a) then rest else default [] (m !! b)).
Proof using.
  intros Ha. unfold advance. rewrite Ha. destruct rest as [|tx' rest].
  - split; [by rewrite (all_txs_delete m a _ Ha)|]. intros b. case_decide as E; [subst b; by rewrite lookup_delete_eq|by rewrite lookup_delete_ne].
  - split.
    + rewrite <- insert_delete_eq, all_txs_insert by apply lookup_delete_eq. by rewrite (all_txs_delete m a _ Ha).
    + intros b. case_decide as E; [subst b; by rewrite lookup_insert_eq|by rewrite lookup_insert_ne].
Qed.

Lemma drain_ok fuel t m :
  represents t m → (length (all_txs m) ≤ fuel)%nat → ∃ out, drain fuel t = Ok out ∧ best_first m out.
Proof using.
  revert t m. induction fuel as [|fuel IH]; intros t m Hrp Hf; destruct (decide (m = ∅)) as [->|Hne].
  1, 3: exists []; split; [|constructor]; pose proof (rp_heads _ _ Hrp) as Hp; apply Permutation_nil_r in Hp; simpl; unfold Peek; by rewrite Hp.
  - destruct (Peek_spec t m Hrp Hne) as (tx & hs & a & rest & _ & Ha & _). destruct (advance_spec m a tx rest Ha) as [Hp _].
    rewrite Hp in Hf. simpl in Hf. lia.
  - destruct (Peek_spec t m Hrp Hne) as (tx & hs & a & rest & E & Ha & Hs & Hhs & Hbest).
    destruct (Shift_spec t m tx hs a rest Hrp E Ha Hs Hhs) as (t' & Esh & Hrp'). destruct (advance_spec m a tx rest Ha) as [Hp _].
    destruct (IH t' (advance m a) Hrp') as (out & Eo & Hb); [rewrite Hp in Hf; simpl in Hf; lia|].
    exists (tx :: out). split; [|by eapply best_cons]. cbn [drain]. unfold Peek. rewrite E. simpl. rewrite Esh. cbn [bind]. by rewrite Eo.
Qed.

Definition sent_by (sg : Signer) (a : Address) (tx : txdata) : bool :=
  match Signer_Sender sg tx with Ok b => bool_decide (b = a) | _ => false end.

Lemma queues_advance sg m a : queues_ok sg m → queues_ok sg (advance m a).
Proof using.
  intros Hq b l. unfold advance. destruct (m !! a) as [[|tx [|tx' rest]]|] eqn:Ha; try (intros [_ Hb]%lookup_delete_Some; by apply Hq).
  intros [[<- <-]|[_ Hb]]%lookup_insert_Some; [|by apply Hq]. split; [done|]. intros x Hx. apply (Hq _ _ Ha). by right.
Qed.

(** The transactions of an account come in their order, and none is lost. *)
Lemma best_first_order sg m out a :
  queues_ok sg m → best_first m out → filter (λ tx, sent_by sg a tx = true) out = default [] (m !! a).
Proof using.
  intros Hq Hb. induction Hb as [|m c tx rest out Hc _ _ IH]; [done|]. destruct (advance_spec m c tx rest Hc) as [_ Hadv].
  specialize (IH (queues_advance sg m c Hq)). rewrite Hadv in IH.
  assert (Hs : Signer_Sender sg tx = Ok c) by (apply (Hq _ _ Hc); by left).
  assert (Hsb : sent_by sg a tx = true ↔ c = a) by (unfold sent_by; by rewrite Hs, bool_decide_eq_true).
  rewrite filter_cons. destruct (decide (a = c)) as [->|Hne].
  - rewrite decide_True by by apply Hsb. by rewrite IH, Hc.
  - rewrite decide_False; [done|]. rewrite Hsb. congruence.
Qed.
End Order.

(** ** The pending transactions of the pool *)

Section Mining.
Context {C : Crypto} {D : Database} {MO : MapOrder} {NO : NonceOrder}.
Context (T : txdata → Prop) {W : TxWorld T} (d : DB).

Lemma Pending_lookup p a :
  pool_inv T p → Pending p !! a = (λ _, txs_of (content (pending p) a)) <$> pending p !! a.
Proof using.
  intros Hi. unfold Pending. rewrite lookup_fmap. destruct (pending p !! a) as [l|] eqn:Ha; [|done]. cbn [fmap option_fmap option_map]. rewrite (content_lookup _ _ _ Ha).
  destruct (pk_pending _ _ _ _ (pi_ok _ _ Hi) _ _ Ha) as (Hl & _). pose proof (l_Flatten_spec l Hl) as Hf.
  destruct (l_Flatten l) as [c l']. simpl. destruct Hf as (-> & _). done.
Qed.

Lemma Pending_default p a : pool_inv T p → default [] (Pending p !! a) = txs_of (content (pending p) a).
Proof using. intros Hi. rewrite (Pending_lookup p a Hi). unfold content. by destruct (pending p !! a). Qed.

Lemma Pending_queues p : pool_inv T p → filled p → queues_ok (signer p) (Pending p).
Proof using.
  intros Hi Hf a l Ha. rewrite (Pending_lookup p a Hi) in Ha. destruct (pending p !! a) as [tl|] eqn:Hp; [|done]. injection Ha as <-.
  pose proof (pk_pending _ _ _ _ (pi_ok _ _ Hi)) as Hl. pose proof (content_ok _ _ _ _ a Hl) as Hn. split.
  - intros E. apply (Hf a tl Hp). rewrite <- (content_lookup _ _ _ Hp). apply map_size_empty_inv. by rewrite <- (txs_of_length _ Hn), E.
  - intros tx Htx%(elem_of_txs_of _ _ Hn). by destruct (content_txs _ _ _ _ _ _ _ Hl Htx) as (_ & ? & _).
Qed.

Lemma txs_of_run its lo hi :
  by_nonce its → (∀ k, is_Some (its !! k) ↔ lo ≤ k < hi) → AccountNonce <$> txs_of its = seqZ lo (hi - lo).
Proof using.
  intros Hn Hk. rewrite txs_of_nonces by done. apply sort_unique; [|apply sorted_sort|apply seqZ_sorted].
  rewrite merge_sort_Permutation. apply NoDup_Permutation; [apply NoDup_elements|apply NoDup_seqZ|].
  intros k. rewrite elem_of_elements, elem_of_dom, Hk, elem_of_seqZ. lia.
Qed.

End Mining.

Module ToyMining.
Import ToyPool.
#[local] Existing Instances ToyState.toyDatabase toyCrypto toyRange toyNonces toyWorld.

End ToyMining.
