(* ===== verification/Selection.v ===== *)
(** * Election of block creators ([berith/selection])

    The candidates with their cumulative points, the two election procedures
    (a queue of ranges before BIP3, repeated draws without replacement after),
    and the entry point that builds the candidates from the staking list. *)

From Stdlib Require Import ZArith Lia SpecFloat.
From stdpp Require Import base option list gmap sets strings sorting.
From S2P Require Import Prelude GoFloat Params Rlp Types Chain Staking.

(** ** Randomness

    [math/rand]: a generator seeded with an [int64]; [Int63n] panics on a
    non-positive bound and otherwise returns a value below the bound. *)
Class GoRand := {
  rand_state : Type;
  rand_Seed : Z → rand_state;
  rand_Int63n : rand_state → Z → Z * rand_state;
  rand_Int63n_range st n : 0 < n < two63 → 0 ≤ (rand_Int63n st n).1 < n
}.

Definition Int63n `{GoRand} (n : Z) (st : rand_state) : result (Z * rand_state) :=
  if n <=? 0 then Panic "invalid argument to Int63n" else Ok (rand_Int63n st n).

(** ** Data ([candidate.go], [candidates.go], [vote_result.go], [range.go],
    [queue.go]) *)

Record Candidate := {
  address : Address;
  point : Z;                        (* uint64 *)
  val : Z                           (* uint64 *)
}.

Record Candidates := {
  selections : list Candidate;
  total : Z;                        (* uint64 *)
  ts : Z                            (* uint64 *)
}.

Record VoteResult := { Score : Z; Rank : Z }.

Record Range := {
  r_min : Z;                        (* uint64 *)
  r_max : Z;                        (* uint64 *)
  r_start : Z;                      (* int *)
  r_end : Z                         (* int *)
}.

Record Queue := {
  storage : list Range;
  q_size : Z;
  front : Z;
  rear : Z
}.

Definition MaxMiner : Z := 10000.
Definition maxElectScore : Z := 5000000.
Definition minElectScore : Z := 10000.

Definition NewCandidates : Candidates := {| selections := []; total := 0; ts := 0 |}.

Definition Add (cs : Candidates) (c : Candidate) : Candidates :=
  let total' := u64 (total cs + point c) in
  {| selections := selections cs ++
       [{| address := address c; point := point c; val := total' |}];
     total := total';
     ts := ts cs |}.

(** A slice access [l[i]]. *)
Definition idx {A} (l : list A) (i : Z) : result A :=
  if i <? 0 then Panic "index out of range"
  else match l !! Z.to_nat i with
       | Some x => Ok x
       | None => Panic "index out of range"
       end.

(** ** The seed *)

Definition GetSeed `{Sha256} (config : ChainConfig) (number : Z) : Z :=
  let bt := if IsBIP2 config (Some number) then Z_be number else [number mod 256] in
  big_Int64 (be_Z (set_bytes HashLength (sha256 bt))).

(** ** Election after BIP3: draws without replacement *)

Section BIP3.
Context `{GoRand, Sha256}.

(** The inner [for]: binary search of the drawn number in the cumulative
    points. *)
Fixpoint search_loop (fuel : nat) (sels : list Candidate)
    (electedNumber start end_ : Z) : result Z :=
  match fuel with
  | O => Hang
  | S fuel' =>
      let mid := Z.quot (start + end_) 2 in
      let* startElectRange :=
        if 0 <? mid then let* c := idx sels (mid - 1) in Ok (val c) else Ok 0 in
      let* c := idx sels mid in
      let endElectRange := val c in
      if (startElectRange <=? electedNumber) && (electedNumber <=? endElectRange) then Ok mid
      else
        let end_ := if electedNumber <? startElectRange then mid - 1 else end_ in
        let start := if endElectRange <? electedNumber then mid + 1 else start in
        search_loop fuel' sels electedNumber start end_
  end.

(** [newCddt.val -= out.point]. *)
Definition lower_val (p : Z) (c : Candidate) : Candidate :=
  {| address := address c; point := point c; val := u64 (val c - p) |}.

(** The loop that closes the gap left by the elected candidate. *)
Fixpoint shift_loop (fuel : nat) (sels : list Candidate) (p : Z) (i : nat) : list Candidate :=
  match fuel with
  | O => sels
  | S fuel' =>
      match sels !! S i with
      | Some c => shift_loop fuel' (<[i := lower_val p c]> sels) p (S i)
      | None => sels
      end
  end.

(** The outer [for len(cs.selections) > 0]. *)
Fixpoint elect_loop (fuel : nat) (sels : list Candidate) (tot : Z)
    (votes : gmap Address VoteResult) (currentElectScore electScoreGap rank : Z)
    (st : rand_state) : result (gmap Address VoteResult) :=
  match sels with
  | [] => Ok votes
  | _ :: _ =>
      match fuel with
      | O => Hang
      | S fuel' =>
          let* r := Int63n (i64 tot) st in
          let '(electedNumber, st) := r in
          let* chosen := search_loop (length sels) sels electedNumber 0
                           (Z.of_nat (length sels) - 1) in
          let* out := idx sels chosen in
          let votes := <[address out := {| Rank := rank; Score := currentElectScore |}]> votes in
          let sels := shift_loop (length sels) sels (point out) (Z.to_nat chosen) in
          elect_loop fuel' (take (length sels - 1) sels) (u64 (tot - point out)) votes
            (i64 (currentElectScore - electScoreGap)) electScoreGap (rank + 1) st
      end
  end.

Definition selectBIP3BlockCreator (cs : Candidates) (config : ChainConfig) (number : Z)
    : result (gmap Address VoteResult) :=
  let* electScoreGap := int_quot (maxElectScore - minElectScore)
                          (Z.of_nat (length (selections cs))) in
  let st := rand_Seed (GetSeed config number) in
  elect_loop (length (selections cs)) (selections cs) (total cs) ∅
    maxElectScore electScoreGap 1 st.
End BIP3.

(** ** Election before BIP3: a circular queue of ranges *)

Definition zeroRange : Range := {| r_min := 0; r_max := 0; r_start := 0; r_end := 0 |}.

Definition setQueueAsCandidates (candidateCount : nat) : Queue := {|
  storage := replicate (S candidateCount) zeroRange;
  q_size := Z.of_nat candidateCount + 1;
  front := 0;
  rear := 0
|}.

Definition enqueue (q : Queue) (r : Range) : result Queue :=
  if Z.rem (rear q + 1) (q_size q) =? front q then Err "Queue is full"
  else Ok {| storage := <[Z.to_nat (rear q) := r]> (storage q);
             q_size := q_size q; front := front q;
             rear := Z.rem (rear q + 1) (q_size q) |}.

Definition dequeue (q : Queue) : result (Range * Queue) :=
  if front q =? rear q then Err "Queue is empty"
  else
    let* r := idx (storage q) (front q) in
    Ok (r, {| storage := storage q; q_size := q_size q;
              front := Z.rem (front q + 1) (q_size q); rear := rear q |}).

(** [q.enqueue(...)] with the error ignored, as [binarySearch] calls it. *)
Definition enqueue_ (q : Queue) (r : Range) : Queue :=
  match enqueue q r with Ok q' => q' | _ => q end.

Section Ranges.
Context `{GoRand, Sha256}.

Fixpoint range_loop (fuel : nat) (r : Range) (q : Queue) (cs : Candidates)
    (random start end_ : Z) : result (Address * Queue) :=
  match fuel with
  | O => Hang
  | S fuel' =>
      let target := Z.quot (start + end_) 2 in
      let* a := if 0 <? target then let* c := idx (selections cs) (target - 1) in Ok (val c)
                else Ok (r_min r) in
      let* ct := idx (selections cs) target in
      let b := val ct in
      if (a <=? random) && (random <=? b) then
        let q := if negb (r_start r =? target) then
            enqueue_ q {| r_min := r_min r; r_max := u64 (a - 1);
                          r_start := r_start r; r_end := target |}
          else q in
        let q := if negb (target + 1 =? r_end r) then
            enqueue_ q {| r_min := u64 (b + 1); r_max := r_max r;
                          r_start := target + 1; r_end := r_end r |}
          else q in
        Ok (address ct, q)
      else if random <? a then range_loop fuel' r q cs random start target
      else range_loop fuel' r q cs random (target + 1) end_
  end.

Definition binarySearch (r : Range) (q : Queue) (cs : Candidates) (st : rand_state)
    : result (Address * Queue * rand_state) :=
  if r_end r - r_start r <=? 1 then
    let* c := idx (selections cs) (r_start r) in Ok (address c, q, st)
  else
    let* rnd := Int63n (i64 (u64 (r_max r - r_min r))) st in
    let '(x, st) := rnd in
    let random := u64 (x + r_min r) in
    let* aq := range_loop (Z.to_nat (r_end r - r_start r)) r q cs random (r_start r) (r_end r) in
    Ok (aq.1, aq.2, st).

(** The loop [for count := 1; count <= MaxMiner && queue.front != queue.rear]. *)
Fixpoint queue_loop (fuel : nat) (count : Z) (q : Queue) (cs : Candidates)
    (votes : gmap Address VoteResult) (currentElectScore electScoreGap : Z)
    (st : rand_state) : result (gmap Address VoteResult) :=
  if negb ((count <=? MaxMiner) && negb (front q =? rear q)) then Ok votes
  else
    match fuel with
    | O => Hang
    | S fuel' =>
        match dequeue q with
        | Ok (r, q) =>
            let* bs := binarySearch r q cs st in
            let '(account, q, st) := bs in
            queue_loop fuel' (count + 1) q cs
              (<[account := {| Score := i64 (currentElectScore + i64 (ts cs)); Rank := count |}]> votes)
              (i64 (currentElectScore - electScoreGap)) electScoreGap st
        | Err _ => Ok votes
        | Panic w => Panic w
        | Hang => Hang
        end
    end.

Definition selectBlockCreator (cs : Candidates) (config : ChainConfig) (number : Z)
    : result (gmap Address VoteResult) :=
  let candidateCount := length (selections cs) in
  let queue := setQueueAsCandidates candidateCount in
  let* electScoreGap := int_quot (maxElectScore - minElectScore) (Z.of_nat candidateCount) in
  let st := rand_Seed (GetSeed config number) in
  match enqueue queue {| r_min := 0; r_max := total cs; r_start := 0;
                         r_end := Z.of_nat candidateCount |} with
  | Ok queue => queue_loop candidateCount 1 queue cs ∅ maxElectScore electScoreGap st
  | Err _ => Ok ∅
  | Panic w => Panic w
  | Hang => Hang
  end.
End Ranges.

(** ** Lemmas: cumulative points *)

Definition sum_points (l : list Candidate) : Z := foldr (λ c s, point c + s) 0 l.

(** [val] is the sum of the points up to and including the candidate. *)
Fixpoint cumulative (acc : Z) (l : list Candidate) : Prop :=
  match l with
  | [] => True
  | c :: l' => val c = acc + point c ∧ cumulative (acc + point c) l'
  end.

Definition points_at_least (k : Z) (l : list Candidate) : Prop := Forall (λ c, k ≤ point c) l.

Lemma sum_points_cons c l : sum_points (c :: l) = point c + sum_points l.
Proof. done. Qed.

Lemma sum_points_app l1 l2 : sum_points (l1 ++ l2) = sum_points l1 + sum_points l2.
Proof. induction l1; simpl; lia. Qed.

Lemma cumulative_app acc l1 l2 :
  cumulative acc (l1 ++ l2) ↔ cumulative acc l1 ∧ cumulative (acc + sum_points l1) l2.
Proof.
  revert acc. induction l1 as [|c l1 IH]; intros acc; simpl.
  - rewrite Z.add_0_r. tauto.
  - rewrite IH, Z.add_assoc. tauto.
Qed.

Lemma sum_points_nonneg k l : 0 ≤ k → points_at_least k l → k * Z.of_nat (length l) ≤ sum_points l.
Proof. intros Hk Hl. induction Hl; simpl; lia. Qed.

(** The lower end of the interval of candidate [i]. *)
Definition low (l : list Candidate) (i : Z) : Z := sum_points (take (Z.to_nat i) l).

Lemma cumulative_lookup l i c :
  cumulative 0 l → l !! i = Some c →
  val c = sum_points (take i l) + point c ∧ val c = sum_points (take (S i) l).
Proof.
  intros Hc Hi. rewrite (take_S_r l i c Hi), sum_points_app. simpl.
  rewrite <- (take_drop_middle l i c Hi) in Hc. apply cumulative_app in Hc as [_ [Hv _]].
  lia.
Qed.

Lemma low_mono k l i j : 0 ≤ k → points_at_least k l → i ≤ j → low l i ≤ low l j.
Proof.
  intros Hk Hl Hij. unfold low.
  replace (take (Z.to_nat i) l) with (take (Z.to_nat i) (take (Z.to_nat j) l))
    by (rewrite take_take; f_equal; lia).
  rewrite <- (take_drop (Z.to_nat i) (take (Z.to_nat j) l)) at 2.
  rewrite sum_points_app.
  assert (Hd : points_at_least k (drop (Z.to_nat i) (take (Z.to_nat j) l)))
    by (apply Forall_drop, Forall_take, Hl).
  pose proof (sum_points_nonneg k _ Hk Hd). lia.
Qed.

Lemma idx_ok {A} (l : list A) i :
  0 ≤ i < Z.of_nat (length l) → ∃ x, idx l i = Ok x ∧ l !! Z.to_nat i = Some x.
Proof.
  intros Hi. destruct (lookup_lt_is_Some_2 l (Z.to_nat i)) as [x Hx]; [lia|].
  exists x. unfold idx. destruct (Z.ltb_spec i 0); [lia|]. by rewrite Hx.
Qed.

(** Reading [val] at [i] gives the upper end of its interval. *)
Lemma idx_val l i :
  cumulative 0 l → 0 ≤ i < Z.of_nat (length l) →
  ∃ c, idx l i = Ok c ∧ l !! Z.to_nat i = Some c ∧ val c = low l (i + 1).
Proof.
  intros Hc Hi. destruct (idx_ok l i Hi) as (c & Hidx & Hlk). exists c. split_and!; auto.
  destruct (cumulative_lookup l _ c Hc Hlk) as [_ ->]. unfold low.
  do 2 f_equal. lia.
Qed.

(** ** Lemmas: the draw after BIP3 *)

Lemma low_0 l i : i ≤ 0 → low l i = 0.
Proof. intros Hi. unfold low. replace (Z.to_nat i) with O by lia. done. Qed.

(** The binary search finds a candidate whose interval contains the number, in
    at most as many rounds as there are candidates in the window. *)
Lemma search_loop_spec fuel l x s e :
  cumulative 0 l → points_at_least 0 l →
  0 ≤ s ≤ e → e < Z.of_nat (length l) → e - s < Z.of_nat fuel →
  low l s ≤ x ≤ low l (e + 1) →
  ∃ i, search_loop fuel l x s e = Ok i ∧ s ≤ i ≤ e ∧ low l i ≤ x ≤ low l (i + 1).
Proof.
  intros Hc Hp. revert s e. induction fuel as [|fuel IH]; intros s e Hs He Hf Hx; [lia|].
  simpl. rewrite Z.quot_div_nonneg by lia. set (mid := (s + e) / 2).
  assert (Hmid : s ≤ mid ≤ e) by (unfold mid; zdiv).
  clearbody mid.
  assert (Hstart : (if 0 <? mid then let* c := idx l (mid - 1) in Ok (val c) else Ok 0)
                   = Ok (low l mid)).
  { destruct (Z.ltb_spec 0 mid); [|by rewrite low_0 by lia].
    destruct (idx_val l (mid - 1) Hc) as (c & -> & _ & Hv); [lia|].
    simpl. rewrite Hv. do 2 f_equal. lia. }
  rewrite Hstart. cbn [bind].
  destruct (idx_val l mid Hc) as (c & -> & _ & Hv); [lia|]. cbn [bind]. rewrite Hv.
  destruct (Z.leb_spec (low l mid) x) as [Hlo|Hlo];
    destruct (Z.leb_spec x (low l (mid + 1))) as [Hhi|Hhi]; cbn [andb].
  - by exists mid.
  - destruct (Z.ltb_spec x (low l mid)); [lia|]. destruct (Z.ltb_spec (low l (mid + 1)) x); [|lia].
    assert (mid ≠ e) by (intros ->; lia).
    destruct (IH (mid + 1) e) as (i & -> & Hi & Hin); [lia..|]. exists i. split_and!; lia || done.
  - destruct (Z.ltb_spec x (low l mid)); [|lia]. destruct (Z.ltb_spec (low l (mid + 1)) x); [lia|].
    assert (mid ≠ s) by (intros ->; lia).
    destruct (IH s (mid - 1)) as (i & -> & Hi & Hin); [lia..| |].
    { replace (mid - 1 + 1) with mid by lia. lia. }
    exists i. split_and!; lia || done.
  - pose proof (low_mono 0 l mid (mid + 1) ltac:(lia) Hp ltac:(lia)). lia.
Qed.

(** The gap left by the elected candidate is closed: the candidates behind it
    move one place and lose its points from [val]. *)
Lemma shift_loop_lookup fuel l p i j :
  (length l ≤ i + fuel)%nat →
  shift_loop fuel l p i !! j =
    if decide (j < i)%nat then l !! j
    else match l !! S j with Some c => Some (lower_val p c) | None => l !! j end.
Proof.
  revert l i. induction fuel as [|fuel IH]; intros l i Hf; simpl.
  - destruct (decide (j < i)%nat); [done|].
    rewrite (lookup_ge_None_2 l (S j)) by lia. done.
  - destruct (l !! S i) as [c|] eqn:Hi.
    + rewrite IH by (rewrite length_insert; lia).
      destruct (decide (j < i)%nat), (decide (j < S i)%nat); try lia.
      * by rewrite list_lookup_insert_ne by lia.
      * assert (j = i) as -> by lia. rewrite Hi.
        rewrite list_lookup_insert_eq; [done|]. apply lookup_lt_Some in Hi. lia.
      * rewrite !list_lookup_insert_ne by lia. done.
    + destruct (decide (j < i)%nat); [done|].
      apply lookup_ge_None_1 in Hi. rewrite (lookup_ge_None_2 l (S j)) by lia. done.
Qed.

Lemma shift_loop_length fuel l p i : length (shift_loop fuel l p i) = length l.
Proof.
  revert l i. induction fuel as [|fuel IH]; intros l i; simpl; [done|].
  destruct (l !! S i); [|done]. by rewrite IH, length_insert.
Qed.

Lemma shift_loop_spec l p i :
  (i < length l)%nat →
  take (length (shift_loop (length l) l p i) - 1) (shift_loop (length l) l p i) =
  take i l ++ (lower_val p <$> drop (S i) l).
Proof.
  intros Hi. rewrite shift_loop_length. apply list_eq. intros j.
  destruct (decide (j < length l - 1)%nat) as [Hj|Hj].
  - rewrite lookup_take_lt by done. rewrite shift_loop_lookup by lia.
    case_decide as Hji.
    + rewrite lookup_app_l by (rewrite length_take; lia). by rewrite lookup_take_lt.
    + rewrite lookup_app_r by (rewrite length_take; lia).
      rewrite length_take, list_lookup_fmap, lookup_drop.
      replace (S i + (j - i `min` length l))%nat with (S j) by lia.
      destruct (l !! S j) eqn:E; [done|]. apply lookup_ge_None_1 in E. lia.
  - rewrite lookup_take_ge by lia. symmetry. apply lookup_ge_None_2.
    rewrite length_app, length_take, length_fmap, length_drop. lia.
Qed.

Lemma sum_points_lower p l : sum_points (lower_val p <$> l) = sum_points l.
Proof. induction l as [|c l IH]; [done|]. by rewrite fmap_cons, !sum_points_cons, IH. Qed.

Lemma address_lower p (l : list Candidate) : address <$> (lower_val p <$> l) = address <$> l.
Proof. rewrite <- list_fmap_compose. by apply list_fmap_ext. Qed.

Lemma points_lower k p (l : list Candidate) : points_at_least k l → points_at_least k (lower_val p <$> l).
Proof. unfold points_at_least. rewrite Forall_fmap. done. Qed.

Lemma cumulative_lower a p l :
  0 ≤ a → 0 ≤ p → points_at_least 0 l → a + p + sum_points l < two64 →
  cumulative (a + p) l → cumulative a (lower_val p <$> l).
Proof.
  intros Ha Hp Hl. revert a Ha. induction Hl as [|c l Hc Hl IH]; intros a Ha Hs; simpl; [done|].
  simpl in Hs. pose proof (sum_points_nonneg 0 l ltac:(lia) Hl).
  intros [Hv Hcum]. split; [rewrite u64_small; [lia|]; unfold is_u64; lia|].
  apply IH; [lia..|]. by replace (a + point c + p) with (a + p + point c) by lia.
Qed.

(** Removing candidate [i] keeps the list cumulative. *)
Lemma remove_cumulative l i c :
  cumulative 0 l → points_at_least 0 l → sum_points l < two64 → l !! i = Some c →
  let l' := take i l ++ (lower_val (point c) <$> drop (S i) l) in
  cumulative 0 l' ∧ sum_points l' = sum_points l - point c ∧
  (address <$> l) ≡ₚ address c :: (address <$> l').
Proof.
  intros Hcum Hp Hs Hi l'. rewrite <- (take_drop_middle l i c Hi) in Hcum, Hp, Hs |- *.
  apply cumulative_app in Hcum as [H1 [Hv H2]].
  apply Forall_app in Hp as [Hp1 [Hpc Hp2]%Forall_cons].
  rewrite sum_points_app in Hs. simpl in Hs. unfold l'.
  pose proof (sum_points_nonneg 0 _ ltac:(lia) Hp1).
  split_and!.
  - apply cumulative_app. split; [done|]. apply cumulative_lower; [lia|lia|done|lia|done].
  - rewrite !sum_points_app, sum_points_lower. simpl. lia.
  - rewrite !fmap_app, fmap_cons, address_lower. symmetry. apply Permutation_middle.
Qed.

(** The votes of an election that picked the addresses in this order. *)
Fixpoint votes_of (order : list Address) (rank score gap : Z)
    (m : gmap Address VoteResult) : gmap Address VoteResult :=
  match order with
  | [] => m
  | a :: order' =>
      votes_of order' (rank + 1) (score - gap) gap (<[a := {| Rank := rank; Score := score |}]> m)
  end.

Section ElectLoop.
Context `{GoRand, Sha256}.

Lemma elect_loop_spec fuel l tot m score gap rank st :
  (length l ≤ fuel)%nat → cumulative 0 l → points_at_least 1 l →
  tot = sum_points l → tot < two63 → 0 ≤ gap →
  0 ≤ score - gap * Z.of_nat (length l) → score < two63 →
  ∃ order, order ≡ₚ (address <$> l) ∧
    elect_loop fuel l tot m score gap rank st = Ok (votes_of order rank score gap m).
Proof.
  revert l tot m score rank st.
  induction fuel as [|fuel IH]; intros l tot m score rank st Hf Hc Hp Ht Hmax Hgap Hs Hs2.
  { destruct l; [|simpl in Hf; lia]. by exists []. }
  destruct l as [|c0 l0] eqn:El; [by exists []|]. rewrite <- El in *.
  assert (Hlen : (0 < length l)%nat) by (subst; simpl; lia).
  assert (Hp0 : points_at_least 0 l) by (eapply Forall_impl; [exact Hp|simpl; lia]).
  pose proof (sum_points_nonneg 1 l ltac:(lia) Hp).
  assert (Hbody : elect_loop (S fuel) l tot m score gap rank st =
    (let* r := Int63n (i64 tot) st in
     let '(x, st) := r in
     let* chosen := search_loop (length l) l x 0 (Z.of_nat (length l) - 1) in
     let* out := idx l chosen in
     elect_loop fuel (take (length (shift_loop (length l) l (point out) (Z.to_nat chosen)) - 1)
                        (shift_loop (length l) l (point out) (Z.to_nat chosen)))
       (u64 (tot - point out)) (<[address out := {| Rank := rank; Score := score |}]> m)
       (i64 (score - gap)) gap (rank + 1) st)).
  { rewrite El. reflexivity. }
  rewrite Hbody. clear Hbody El c0 l0.
  unfold Int63n. rewrite i64_small by (unfold is_i64; word).
  destruct (Z.leb_spec tot 0); [lia|]. cbn [bind].
  pose proof (rand_Int63n_range st tot ltac:(lia)) as Hx.
  destruct (rand_Int63n st tot) as [x st']. simpl in Hx.
  destruct (search_loop_spec (length l) l x 0 (Z.of_nat (length l) - 1))
    as (i & -> & Hi & Hin); try done; try lia.
  { rewrite low_0 by lia. unfold low. rewrite take_ge by lia. lia. }
  cbn [bind]. destruct (idx_ok l i) as (c & -> & Hlk); [lia|]. cbn [bind].
  rewrite shift_loop_spec by lia.
  destruct (remove_cumulative l (Z.to_nat i) c Hc Hp0 ltac:(word) Hlk) as (Hc' & Hs' & Hperm).
  set (l' := take (Z.to_nat i) l ++ _) in *.
  assert (Hp' : points_at_least 1 l').
  { apply Forall_app. split; [by apply Forall_take|by apply points_lower, Forall_drop]. }
  assert (Hlen' : S (length l') = length l).
  { apply Permutation_length in Hperm. simpl in Hperm. rewrite !length_fmap in Hperm. lia. }
  pose proof (sum_points_nonneg 1 l' ltac:(lia) Hp').
  assert (Hpc : 1 ≤ point c) by (eapply Forall_lookup_1 in Hp; eauto).
  rewrite (u64_small (tot - point c)) by (unfold is_u64; word).
  rewrite i64_small by (unfold is_i64; word).
  destruct (IH l' (tot - point c) (<[address c := {| Rank := rank; Score := score |}]> m)
              (score - gap) (rank + 1) st') as (order & Ho & ->); try done; try lia.
  exists (address c :: order). split; [|done]. by rewrite Ho, Hperm.
Qed.
End ElectLoop.

Lemma votes_of_other order rank score gap m a :
  a ∉ order → votes_of order rank score gap m !! a = m !! a.
Proof.
  revert rank score m. induction order as [|b order IH]; intros rank score m Ha; [done|].
  simpl. rewrite IH by set_solver. apply lookup_insert_ne. set_solver.
Qed.

Lemma votes_of_lookup order rank score gap m i a :
  NoDup order → order !! i = Some a →
  votes_of order rank score gap m !! a =
    Some {| Rank := rank + Z.of_nat i; Score := score - gap * Z.of_nat i |}.
Proof.
  intros Hnd. revert rank score m i. induction Hnd as [|b order Hb Hnd IH];
    intros rank score m [|i] Hi; simpl in *; [done..| |].
  - injection Hi as ->. rewrite votes_of_other by done. rewrite lookup_insert_eq.
    do 2 f_equal; lia.
  - rewrite (IH _ _ _ i) by done. do 2 f_equal; lia.
Qed.

(** The gap between the scores of consecutive ranks. *)
Definition scoreGap (n : nat) : Z := (maxElectScore - minElectScore) / Z.of_nat n.

Lemma scoreGap_bounds n : (0 < n)%nat → 0 ≤ scoreGap n ∧ scoreGap n * Z.of_nat n ≤ 4990000.
Proof.
  intros Hn. unfold scoreGap, maxElectScore, minElectScore.
  split; [apply Z.div_pos; lia|]. rewrite Z.mul_comm. apply Z.mul_div_le. lia.
Qed.

Lemma int_quot_gap n :
  (0 < n)%nat → int_quot (maxElectScore - minElectScore) (Z.of_nat n) = Ok (scoreGap n).
Proof.
  intros Hn. unfold int_quot. destruct (Z.eqb_spec (Z.of_nat n) 0); [lia|].
  rewrite Z.quot_div_nonneg by (unfold maxElectScore, minElectScore; lia).
  fold (scoreGap n). pose proof (scoreGap_bounds n Hn). rewrite i64_small; [done|].
  unfold is_i64. rewrite two63_eq. nia.
Qed.

(** What [Add] guarantees when the points do not overflow. *)
Record wf_candidates (cs : Candidates) : Prop := {
  wf_cumulative : cumulative 0 (selections cs);
  wf_total : total cs = sum_points (selections cs);
  wf_bound : total cs < two63
}.

Lemma Add_wf cs c :
  wf_candidates cs → points_at_least 0 (selections cs) → 0 ≤ point c →
  total cs + point c < two63 → wf_candidates (Add cs c).
Proof.
  intros [Hc Ht Hb] Hp Hpc Hlt. pose proof (sum_points_nonneg 0 _ ltac:(lia) Hp).
  unfold Add. rewrite u64_small by (unfold is_u64; word).
  split; simpl.
  - apply cumulative_app. simpl. split; [done|]. split; [lia|done].
  - rewrite sum_points_app. simpl. lia.
  - done.
Qed.

(** ** Properties of the election after BIP3 *)

Section BIP3Properties.
Context `{GoRand, Sha256}.

(** C33: the election after BIP3 terminates and ranks every candidate exactly
    once.  For candidates with positive points and distinct addresses the
    result lists the addresses in some order; the address at position [i] has
    rank [i+1] and score [5000000 - i * gap], and no other address has a vote.
    This holds for every seed and every outcome of the draws. *)
Theorem BIP3_ranks_every_candidate cs config number
    (Hne : selections cs ≠ []) (Hwf : wf_candidates cs)
    (Hpos : points_at_least 1 (selections cs))
    (Hnd : NoDup (address <$> selections cs)) :
  ∃ votes order,
    selectBIP3BlockCreator cs config number = Ok votes ∧
    order ≡ₚ (address <$> selections cs) ∧
    (∀ i a, order !! i = Some a → votes !! a =
       Some {| Rank := Z.of_nat i + 1;
               Score := maxElectScore - scoreGap (length (selections cs)) * Z.of_nat i |}) ∧
    (∀ a, a ∉ (address <$> selections cs) → votes !! a = None).
Proof.
  destruct Hwf as [Hc Ht Hb].
  assert (Hn : (0 < length (selections cs))%nat) by (destruct (selections cs); simpl; [done|lia]).
  pose proof (scoreGap_bounds _ Hn) as [Hg1 Hg2].
  unfold selectBIP3BlockCreator. rewrite int_quot_gap by done. cbn [bind].
  destruct (elect_loop_spec (length (selections cs)) (selections cs) (total cs) ∅ maxElectScore
    (scoreGap (length (selections cs))) 1 (rand_Seed (GetSeed config number)))
    as (order & Ho & ->); try done; try (unfold maxElectScore; word).
  assert (NoDup order) by (by rewrite Ho).
  eexists _, order. split; [done|]. split; [done|]. split.
  - intros i a Hi. rewrite (votes_of_lookup _ _ _ _ _ i) by done. do 2 f_equal; lia.
  - intros a Ha. rewrite votes_of_other by (by rewrite Ho). apply lookup_empty.
Qed.

(** The binary search of the draw terminates within as many rounds as there
    are candidates and returns a candidate whose interval of cumulative points
    contains the drawn number; a number strictly inside the interval of a
    candidate always elects that candidate. *)
Theorem search_finds_interval l x
    (Hne : l ≠ []) (Hc : cumulative 0 l) (Hp : points_at_least 0 l)
    (Hx : 0 ≤ x < sum_points l) :
  ∃ i c, search_loop (length l) l x 0 (Z.of_nat (length l) - 1) = Ok i ∧
    l !! Z.to_nat i = Some c ∧
    val c - point c ≤ x ≤ val c ∧
    (∀ j c', l !! j = Some c' → val c' - point c' < x < val c' → j = Z.to_nat i).
Proof.
  assert (Hn : (0 < length l)%nat) by (destruct l; simpl; [done|lia]).
  destruct (search_loop_spec (length l) l x 0 (Z.of_nat (length l) - 1))
    as (i & -> & Hi & Hin); try done; try lia.
  { rewrite low_0 by lia. unfold low. rewrite take_ge by lia. lia. }
  destruct (idx_ok l i) as (c & _ & Hlk); [lia|].
  exists i, c. split; [done|]. split; [done|].
  destruct (cumulative_lookup l _ c Hc Hlk) as [Hv Hv'].
  replace (low l (i + 1)) with (val c) in Hin.
  2: { rewrite Hv'. unfold low. do 2 f_equal. lia. }
  unfold low in Hin. split; [lia|].
  intros j c' Hj Hin'. destruct (cumulative_lookup l j c' Hc Hj) as [Hvj Hvj'].
  destruct (Nat.lt_trichotomy j (Z.to_nat i)) as [Hlt|[|Hlt]]; [|done|].
  - pose proof (low_mono 0 l (Z.of_nat (S j)) i ltac:(lia) Hp ltac:(lia)) as Hm.
    unfold low in Hm. rewrite Nat2Z.id in Hm. lia.
  - pose proof (low_mono 0 l (i + 1) (Z.of_nat j) ltac:(lia) Hp ltac:(lia)) as Hm.
    unfold low in Hm. rewrite Nat2Z.id in Hm. replace (Z.to_nat (i + 1)) with (S (Z.to_nat i)) in Hm by lia. lia.
Qed.
End BIP3Properties.

(** ** Building the candidates ([selection.go], [sortable.go]) *)

(** What the selection reads from the state database. *)
Class StakeView (St : Type) := {
  GetStakeBalance : St → Address → Z;
  GetStakeUpdated : St → Address → Z;
  GetPoint : St → Address → Z
}.

(** [sortableList.Less], and [sort.Sort] by it: the sorted list of distinct
    addresses is unique, so any sorting algorithm gives the same list. *)
Definition Less (a b : Address) : bool :=
  match bytes_Compare a b with Lt => true | _ => false end.

Definition address_le (a b : Address) : Prop := bytes_Compare a b ≠ Gt.

#[export] Instance address_le_dec : RelDecision address_le.
Proof. intros a b. unfold address_le. destruct (bytes_Compare a b); (left; congruence) || (right; congruence). Defined.

Definition sort_Sort (l : list Address) : list Address := merge_sort address_le l.

(** [calcAdvForExceededPoint], in [big.Float] arithmetic. *)
Definition calcAdvForExceededPoint (nowBlockNumber stakeBlockNumber period : Z)
    (limitStakeBalanceInBer : bigFloat) : result Z :=
  let d := f64_div (f64_of_Z period) (f64_of_Z 10) in
  let bb := f64_div (f64_of_Z BlockYear) d in
  let* hundred := bf_NewFloat (f64_of_Z 100) in
  let* ratio := bf_Mul 0 (bf_SetInt nowBlockNumber) hundred in
  let* fbb := bf_NewFloat bb in
  let* den := bf_Add 0 fbb (bf_SetInt stakeBlockNumber) in
  let* ratio := bf_Quo (bf_prec ratio) ratio den in
  let ratio := match bf_Cmp ratio hundred with Gt => hundred | _ => ratio end in
  let* zero := bf_NewFloat (f64_of_Z 0) in
  let* s := bf_Add 0 limitStakeBalanceInBer zero in
  let* temp1 := bf_Quo 0 limitStakeBalanceInBer s in
  let* temp2 := bf_Mul 0 limitStakeBalanceInBer temp1 in
  let* temp3 := bf_Mul 0 temp2 ratio in
  let* q := bf_Quo 0 temp3 hundred in
  Ok (default 0 (bf_Int q)).

Section SelectBlockCreator.
Context `{GoRand, Sha256} {St : Type} `{StakeView St}.

(** The point of one staker. *)
Definition stakerPoint (config : ChainConfig) (blockNumber : Z) (state : St) (stk : Address)
    : result Z :=
  if IsBIP4 config (Some blockNumber) then
    match Bsrr config with
    | None => Panic "nil pointer dereference"
    | Some b =>
        match LimitStakeBalance b with
        | None => Panic "nil pointer dereference"
        | Some limit =>
            if limit <? GetStakeBalance state stk then
              let* limitStakeBalanceInBer := big_Div limit UnitForBer in
              let lastStkBlock := GetStakeUpdated state stk in
              let* advantage := calcAdvForExceededPoint blockNumber lastStkBlock (Period b)
                                  (bf_SetInt limitStakeBalanceInBer) in
              Ok (big_Uint64 (limitStakeBalanceInBer + advantage))
            else Ok (big_Uint64 (GetPoint state stk))
        end
    end
  else Ok (big_Uint64 (GetPoint state stk)).

Fixpoint addStakers (config : ChainConfig) (blockNumber : Z) (state : St)
    (list : list Address) (cddts : Candidates) : result Candidates :=
  match list with
  | [] => Ok cddts
  | stk :: list' =>
      let* p := stakerPoint config blockNumber state stk in
      addStakers config blockNumber state list'
        (Add cddts {| address := stk; point := p; val := 0 |})
  end.

Definition SelectBlockCreator `{MapOrder} (config : ChainConfig) (number : Z)
    (stks : gset Address) (state : St) : result (gmap Address VoteResult) :=
  let list := AsList stks in
  match list with
  | [] => Ok ∅
  | _ :: _ =>
      let list := sort_Sort list in
      let blockNumber := i64 number in
      let* cddts := addStakers config blockNumber state list NewCandidates in
      if IsBIP3 config (Some blockNumber) then selectBIP3BlockCreator cddts config number
      else selectBlockCreator cddts config number
  end.

(** [GetCandidates]: the candidates as the RPC reports them. *)
Fixpoint addPoints (state : St) (list : list Address) (cddts : Candidates) : Candidates :=
  match list with
  | [] => cddts
  | stk :: list' =>
      addPoints state list'
        (Add cddts {| address := stk; point := big_Uint64 (GetPoint state stk); val := 0 |})
  end.

Definition GetCandidates `{MapOrder} (stks : gset Address) (state : St) : Candidates :=
  addPoints state (sort_Sort (AsList stks)) NewCandidates.
End SelectBlockCreator.

(** ** Lemmas: sorting removes the iteration order *)

#[export] Instance address_le_total : Total address_le.
Proof.
  intros a b. unfold address_le. rewrite (bytes_Compare_antisym a b).
  destruct (bytes_Compare a b); simpl; (left; congruence) || (right; congruence).
Qed.

#[export] Instance address_le_trans : Transitive address_le.
Proof.
  intros a b c. unfold address_le. intros Hab Hbc.
  destruct (bytes_Compare a b) eqn:E1; [apply bytes_Compare_eq in E1; congruence| |done].
  destruct (bytes_Compare b c) eqn:E2; [apply bytes_Compare_eq in E2; congruence| |done].
  by rewrite (bytes_Compare_lt_trans a b c).
Qed.

#[export] Instance address_le_antisym : AntiSymm (=) address_le.
Proof.
  intros a b. unfold address_le. rewrite (bytes_Compare_antisym a b). intros H1 H2.
  destruct (bytes_Compare a b) eqn:E; simpl in *; [by apply bytes_Compare_eq|done|done].
Qed.

Lemma sort_Sort_perm l1 l2 : l1 ≡ₚ l2 → sort_Sort l1 = sort_Sort l2.
Proof.
  intros Hp. unfold sort_Sort. apply (StronglySorted_unique address_le).
  - apply (StronglySorted_merge_sort _).
  - apply (StronglySorted_merge_sort _).
  - by rewrite !merge_sort_Permutation.
Qed.

(** The sorted list is what [sort.Sort] promises: a permutation in which no
    element is [Less] than an earlier one. *)
Lemma sort_Sort_sorted l i j a b :
  sort_Sort l !! i = Some a → sort_Sort l !! j = Some b → (i < j)%nat → Less b a = false.
Proof.
  intros Hi Hj Hij. pose proof (StronglySorted_merge_sort address_le l) as Hs.
  pose proof (StronglySorted_app_1_elem_of address_le (take j (sort_Sort l)) (drop j (sort_Sort l)) a b) as Happ.
  rewrite take_drop in Happ. specialize (Happ Hs).
  assert (Hle : address_le a b).
  { apply Happ.
    - apply list_elem_of_lookup. exists i. by rewrite lookup_take_lt.
    - apply list_elem_of_lookup. exists O. by rewrite lookup_drop, Nat.add_0_r. }
  unfold address_le in Hle. unfold Less. rewrite (bytes_Compare_antisym a b).
  by destruct (bytes_Compare a b).
Qed.

(** The election does not depend on the order in which Go iterates over
    the stakers map: two nodes with the same staker set, state and
    configuration elect the same creators with the same ranks and scores,
    whatever order each of their runtimes happens to use. *)
Theorem SelectBlockCreator_order_independent `{GoRand, Sha256} {St} `{StakeView St}
    (o1 o2 : MapOrder) config number stks (state : St) :
  @SelectBlockCreator _ _ _ _ o1 config number stks state =
  @SelectBlockCreator _ _ _ _ o2 config number stks state.
Proof.
  unfold SelectBlockCreator.
  assert (Hp : @AsList o1 stks ≡ₚ @AsList o2 stks) by (by rewrite !range_perm).
  pose proof (sort_Sort_perm _ _ Hp) as Hs. pose proof (Permutation_length Hp) as Hl.
  destruct (@AsList o1 stks), (@AsList o2 stks); try discriminate; [done|].
  by rewrite Hs.
Qed.

(** ** Instances that run: a concrete generator, digest and state *)

Module ToyElection.
#[local] Program Instance toyRand : GoRand := {
  rand_state := Z;
  rand_Seed := fun s => s;
  rand_Int63n := fun st n => (st mod n, st * 6364136223846793005 + 1442695040888963407)
}.
Next Obligation. intros st n Hn. simpl. apply Z.mod_pos_bound. lia. Qed.

#[local] Instance toySha : Sha256 := {| sha256 := fun b => b |}.
#[local] Instance toyRange : MapOrder := {| range := elements; range_perm s := reflexivity _ |}.
#[local] Program Instance reversedRange : MapOrder := {| range s := reverse (elements s) |}.
Next Obligation. intros s. apply reverse_Permutation. Qed.

#[local] Instance toyStake : StakeView (gmap Address Z) := {|
  GetStakeBalance := fun st a => default 0 (st !! a);
  GetStakeUpdated := fun _ _ => 0;
  GetPoint := fun st a => default 0 (st !! a)
|}.

Definition cand (a : Z) (p : Z) : Candidate := {| address := [a]; point := p; val := 0 |}.
Definition three : Candidates := Add (Add (Add NewCandidates (cand 1 100)) (cand 2 250)) (cand 3 7).

Lemma BIP3_witness :
  ∃ votes, selectBIP3BlockCreator three MainnetChainConfig 3000000 = Ok votes ∧ votes !! [9] = None.
Proof.
  destruct (BIP3_ranks_every_candidate three MainnetChainConfig 3000000)
    as (votes & order & Hv & _ & _ & Hno).
  - done.
  - split; vm_compute; tauto.
  - repeat constructor; vm_compute; done.
  - apply (bool_decide_unpack _). vm_compute. exact I.
  - exists votes. split; [exact Hv|]. apply Hno. apply (bool_decide_unpack _). vm_compute. exact I.
Defined.

Lemma search_witness :
  ∃ i c, search_loop 3 (selections three) 200 0 2 = Ok i ∧ selections three !! Z.to_nat i = Some c ∧
         val c - point c ≤ 200 ≤ val c.
Proof.
  destruct (search_finds_interval (selections three) 200) as (i & c & Hs & Hl & Hv & _).
  - done.
  - vm_compute. tauto.
  - repeat constructor; vm_compute; done.
  - vm_compute. split; congruence.
  - exists i, c. split; [exact Hs|]. split; [exact Hl|exact Hv].
Defined.

Lemma order_independent_witness :
  @SelectBlockCreator _ _ _ toyStake toyRange MainnetChainConfig 3000000
    {[ [1]; [2]; [3] ]} {[ [1] := 10; [2] := 20; [3] := 30 ]} =
  @SelectBlockCreator _ _ _ toyStake reversedRange MainnetChainConfig 3000000
    {[ [1]; [2]; [3] ]} {[ [1] := 10; [2] := 20; [3] := 30 ]}.
Proof. apply (SelectBlockCreator_order_independent toyRange reversedRange). Defined.
End ToyElection.
