(* ===== verification/Bsrr.v ===== *)
(** * The consensus engine ([consensus/bsrr/berith.go], [consensus/bsrr/api.go])

    Header verification, the choice of the block that fixes the election, the
    list of stakers at a block, difficulty and rank of a signer, preparing,
    finalizing and sealing a block, and the reward.

    The engine keeps the staking database; the caches of signatures and of
    staking lists are left out.  The first returns what was computed for the
    same header.  The second is written but never read back: an entry is
    unmarshalled into a nil interface value with methods, which
    [encoding/json] refuses, and is then removed. *)

From Stdlib Require Import ZArith Lia SpecFloat.
From stdpp Require Import base option list gmap sets strings.
From S2P Require Import Prelude GoFloat Params Group Rlp Types Account State Receipt Chain Dao.
From S2P Require Import Staking Selection Transition.

(** ** Parameters *)

Definition RewardBlock : Z := 500.
Definition default_SlashRound : Z := 2.
Definition default_ForkFactor : float64 := f64_of_Z 1.
Definition epochLength : Z := 360.
Definition extraVanity : Z := 32.
Definition extraSeal : Z := 65.
Definition diffWithoutStaker : Z := 1234.
Definition CleanCycle : Z := 100000.

Definition errUnknownBlock : string := "unknown block".
Definition errMissingVanity : string := "extra-data 32 byte vanity prefix missing".
Definition errMissingSignature : string := "extra-data 65 byte signature suffix missing".
Definition errExtraSigners : string := "non-checkpoint block contains extra signer list".
Definition errInvalidCheckpointSigners : string := "invalid signer list on checkpoint block".
Definition errInvalidMixDigest : string := "non-zero mix digest".
Definition errInvalidUncleHash : string := "non empty uncle hash".
Definition errInvalidDifficulty : string := "invalid difficulty".
Definition ErrInvalidTimestamp : string := "invalid timestamp".
Definition errUnauthorizedSigner : string := "unauthorized signer".
Definition errNoData : string := "no data".
Definition errInvalidNonce : string := "invalid nonce".
Definition errStakingList : string := "not found staking list".
Definition errMissingState : string := "state missing".
Definition errCleanStakingDB : string := "fail to clean stakingDB".
Definition errBIP1 : string := "error when fork network to BIP1".
Definition ErrFutureBlock : string := "block in the future".
Definition ErrUnknownAncestor : string := "unknown ancestor".

(** ** The engine *)

Record BSRR := {
  bsrr_config : BSRRConfig;
  stakingDB : StakingDB;
  signer : Address;
  signFn : bytes → result bytes
}.

(** [New] fills in the defaults. *)
Definition New_config (conf : BSRRConfig) : BSRRConfig := {|
  Period := Period conf;
  Epoch := if Epoch conf =? 0 then epochLength else Epoch conf;
  Rewards := match Rewards conf with
             | Some r => if r =? 0 then Some RewardBlock else Some r
             | None => Some RewardBlock
             end;
  StakeMinimum := match StakeMinimum conf with
                  | Some m => if m =? 0 then Some StakeMinimum_str else Some m
                  | None => Some StakeMinimum_str
                  end;
  LimitStakeBalance := match LimitStakeBalance conf with
                       | Some l => if l =? 0 then Some LimitStakeBalance_str else Some l
                       | None => Some LimitStakeBalance_str
                       end;
  SlashRound := if negb (SlashRound conf =? 0) then SlashRound conf else default_SlashRound;
  ForkFactor := if f64_leb (ForkFactor conf) (f64_of_Z 0) || f64_ltb (f64_of_Z 1) (ForkFactor conf)
                then default_ForkFactor else ForkFactor conf
|}.

Definition NewCliqueWithStakingDB (db : StakingDB) (config : BSRRConfig) : BSRR := {|
  bsrr_config := New_config config;
  stakingDB := db;
  signer := zeroAddress;
  signFn := λ _, nil_deref
|}.

Definition Authorize (c : BSRR) (s : Address) (f : bytes → result bytes) : BSRR := {|
  bsrr_config := bsrr_config c; stakingDB := stakingDB c; signer := s; signFn := f
|}.

Definition set_stakingDB (c : BSRR) (db : StakingDB) : BSRR := {|
  bsrr_config := bsrr_config c; stakingDB := db; signer := signer c; signFn := signFn c
|}.

(** ** Headers *)

Definition with_Extra (h : Header) (e : bytes) : Header := {|
  ParentHash := ParentHash h; UncleHash := UncleHash h; Coinbase := Coinbase h; Root := Root h;
  TxHash := TxHash h; ReceiptHash := ReceiptHash h; Bloom := Bloom h; Difficulty := Difficulty h;
  Number := Number h; GasLimit := GasLimit h; GasUsed := GasUsed h; Time := Time h; Extra := e;
  MixDigest := MixDigest h; Nonce := Nonce h
|}.

Definition with_prepared (h : Header) (diff : Z) (nonce extra : bytes) (time : Z) : Header := {|
  ParentHash := ParentHash h; UncleHash := UncleHash h; Coinbase := Coinbase h; Root := Root h;
  TxHash := TxHash h; ReceiptHash := ReceiptHash h; Bloom := Bloom h; Difficulty := diff;
  Number := Number h; GasLimit := GasLimit h; GasUsed := GasUsed h; Time := time; Extra := extra;
  MixDigest := zeroHash; Nonce := nonce
|}.

Definition with_final (h : Header) (root uncle : Hash) : Header := {|
  ParentHash := ParentHash h; UncleHash := uncle; Coinbase := Coinbase h; Root := root;
  TxHash := TxHash h; ReceiptHash := ReceiptHash h; Bloom := Bloom h; Difficulty := Difficulty h;
  Number := Number h; GasLimit := GasLimit h; GasUsed := GasUsed h; Time := Time h; Extra := Extra h;
  MixDigest := MixDigest h; Nonce := Nonce h
|}.

Definition len (b : bytes) : Z := Z.of_nat (length b).

Section Bsrr.
Context {C : Crypto} {D : Database} {MO : MapOrder} {GR : GoRand} {SH : Sha256}.

(** Reads of a state that is dropped after use. *)
#[export] Instance stateView : StakeView StateDB := {|
  Selection.GetStakeBalance := λ s a, (State.GetStakeBalance s a).1;
  Selection.GetStakeUpdated := λ s a, (State.GetStakeUpdated s a).1;
  Selection.GetPoint := λ s a, (State.GetPoint s a).1
|}.

Abbreviation ChainR := (ChainReader StateDB).

(** ** Seals *)

Definition sigHash (h : Header) : result Hash :=
  if len (Extra h) <? 65 then Panic "slice bounds out of range"
  else Ok (rlpHash (RList (header_fields (with_Extra h (take (length (Extra h) - 65) (Extra h)))))).

Definition ecrecover (h : Header) : result Address :=
  if len (Extra h) <? extraSeal then Err errMissingSignature
  else
    let signature := drop (length (Extra h) - Z.to_nat extraSeal) (Extra h) in
    let* hash := sigHash h in
    let* pubkey := Ecrecover hash signature in
    match pubkey with
    | [] => Panic "slice bounds out of range"
    | _ :: key => Ok (take AddressLength (drop 12 (Keccak256 key)))
    end.

Definition Author (h : Header) : result Address := ecrecover h.
Definition SealHash (h : Header) : result Hash := sigHash h.

(** ** Header verification *)

Definition uncleHash : Hash := CalcUncleHash [].

Definition verifySeal (header : Header) : result unit :=
  if big_Uint64 (num header) =? 0 then Err errUnknownBlock else Ok tt.

(** [parents]: in ascending order, the last one is the parent. *)
Definition verifyCascadingFields (c : BSRR) (chain : ChainR) (header : Header) (parents : list Header)
    : result unit :=
  let number := big_Uint64 (num header) in
  if number =? 0 then Ok tt
  else
    let parent := match last parents with
                  | Some p => Some p
                  | None => GetHeader chain (ParentHash header) (u64 (number - 1))
                  end in
    match parent with
    | None => Err ErrUnknownAncestor
    | Some p =>
        if negb (big_Uint64 (num p) =? u64 (number - 1)) || negb (bool_decide (Header_Hash p = ParentHash header))
        then Err ErrUnknownAncestor
        else if big_Uint64 (Time header) <? u64 (big_Uint64 (Time p) + Period (bsrr_config c))
        then Err ErrInvalidTimestamp
        else verifySeal header
    end.

(** [now]: the clock of the node, in seconds. *)
Definition verifyHeader (c : BSRR) (chain : ChainR) (now : Z) (header : Header) (parents : list Header)
    : result unit :=
  match Number header with
  | None => Err errUnknownBlock
  | Some n =>
      let number := big_Uint64 n in
      if now <? Time header then Err ErrFutureBlock
      else
        let* rem := uint_rem number (Epoch (bsrr_config c)) in
        let checkpoint := rem =? 0 in
        if len (Extra header) <? extraVanity then Err errMissingVanity
        else if len (Extra header) <? extraVanity + extraSeal then Err errMissingSignature
        else
          let signersBytes := len (Extra header) - extraVanity - extraSeal in
          if negb checkpoint && negb (signersBytes =? 0) then Err errExtraSigners
          else if checkpoint && negb (Z.rem signersBytes (Z.of_nat AddressLength) =? 0)
          then Err errInvalidCheckpointSigners
          else if negb (bool_decide (MixDigest header = zeroHash)) then Err errInvalidMixDigest
          else if negb (bool_decide (UncleHash header = uncleHash)) then Err errInvalidUncleHash
          else if (0 <? number) && (Nonce_Uint64 (Nonce header) <? 1) then Err errInvalidNonce
          else
            match VerifyForkHashes (Config chain) header false with
            | Some e => Err e
            | None => verifyCascadingFields c chain header parents
            end
  end.

Definition VerifyHeader (c : BSRR) (chain : ChainR) (now : Z) (header : Header) : result unit :=
  verifyHeader c chain now header [].

(** [VerifyHeaders]: the results in the order of the headers, each verified
    with the ones before it as parents. *)
Fixpoint VerifyHeaders_loop (c : BSRR) (chain : ChainR) (now : Z) (before headers : list Header)
    : list (result unit) :=
  match headers with
  | [] => []
  | h :: headers => verifyHeader c chain now h before :: VerifyHeaders_loop c chain now (before ++ [h]) headers
  end.

Definition VerifyHeaders (c : BSRR) (chain : ChainR) (now : Z) (headers : list Header) : list (result unit) :=
  VerifyHeaders_loop c chain now [] headers.

Definition VerifyUncles (block : Block) : result unit :=
  match block_uncles block with [] => Ok tt | _ :: _ => Err "uncles not allowed" end.

(** ** The block that fixes the election *)

Fixpoint getAncestor_loop (fuel : nat) (chain : ChainR) (targetNumber : Z) (target : option Header)
    : result (option Header) :=
  match fuel with
  | O => Hang
  | S fuel' =>
      match target with
      | None => Ok None
      | Some t =>
          if (0 <? num t) && (targetNumber <? num t)
          then getAncestor_loop fuel' chain targetNumber (GetHeader chain (ParentHash t) (u64 (big_Uint64 (num t) - 1)))
          else Ok (Some t)
      end
  end.

(** The ancestor, when its block and state are there. *)
Definition getAncestor (chain : ChainR) (n : Z) (header : Header) : result (option Header) :=
  let targetNumber := num header - n in
  let* target := getAncestor_loop (S (Z.to_nat (num header))) chain targetNumber (Some header) in
  match target with
  | None => Ok None
  | Some t => if HasBlockAndState chain (Header_Hash t) (big_Uint64 (num t)) then Ok (Some t) else Ok None
  end.

Definition getStakeTargetBlock (c : BSRR) (chain : ChainR) (parent : option Header) : result (option Header) :=
  match parent with
  | None => Ok None
  | Some p =>
      let blockNumber := big_Uint64 (num p) in
      let epoch := Epoch (bsrr_config c) in
      let* d := uint_quot blockNumber epoch in
      if 1 <? d then getAncestor chain (i64 epoch) p
      else
        let targetNumber := if d =? 0 then 0 else epoch in
        match GetHeaderByNumber chain targetNumber with
        | Some t => if HasBlockAndState chain (Header_Hash t) targetNumber then Ok (Some t) else Ok None
        | None => Ok None
        end
  end.

(** ** Stakers *)

(** The last change of each account: [true] when it stakes. *)
Fixpoint stkChanged_loop (config : ChainConfig) (number : option Z) (txs : list txdata)
    (changed : gmap Address bool) : result (gmap Address bool) :=
  match txs with
  | [] => Ok changed
  | tx :: txs =>
      let* msg := AsMessage tx (MakeSigner config number) in
      let changed :=
        if (msg_base msg =? Main) && (msg_target msg =? Main) then changed
        else if IsBIP1 config number && (msg_base msg =? Stake) && (msg_target msg =? Main)
        then <[msg_from msg := false]> changed
        else if (msg_base msg =? Main) && (msg_target msg =? Stake) then <[msg_from msg := true]> changed
        else changed in
      stkChanged_loop config number txs changed
  end.

(** The new selection point of an account whose stake changed. *)
Definition changedPoint (c : BSRR) (prevState state : StateDB) (header : Header) (addr : Address)
    : result (Z * StateDB) :=
  let '(currentStkBal, state) := State.GetStakeBalance state addr in
  if 0 <? currentStkBal then
    let* currentStkBal := big_Div currentStkBal UnitForBer in
    let* prevStkBal := big_Div (State.GetStakeBalance prevState addr).1 UnitForBer in
    let additionalStkBal := currentStkBal - prevStkBal in
    let '(lastStkBlock, state) := State.GetStakeUpdated state addr in
    let* point := CalcPointBigint prevStkBal additionalStkBal (num header) lastStkBlock (Period (bsrr_config c)) in
    Ok (point, state)
  else Ok (0, state).

(** One round over the changed accounts.  [state] is nil when only the list is
    computed. *)
Definition stkChanged_step (c : BSRR) (prevState : StateDB) (header : Header) (changed : gmap Address bool)
    (stks : gset Address) (state : option StateDB) (addr : Address)
    : result (gset Address * option StateDB) :=
  let* state :=
    match state with
    | Some s => let* (point, s) := changedPoint c prevState s header addr in
                Ok (Some (SetPoint s addr point))
    | None => Ok None
    end in
  Ok (if default false (changed !! addr) then Put stks addr else Remove stks addr, state).

Fixpoint stkChanged_apply (c : BSRR) (prevState : StateDB) (header : Header) (changed : gmap Address bool)
    (addrs : list Address) (stks : gset Address) (state : option StateDB)
    : result (gset Address * option StateDB) :=
  match addrs with
  | [] => Ok (stks, state)
  | a :: addrs =>
      let* (stks, state) := stkChanged_step c prevState header changed stks state a in
      stkChanged_apply c prevState header changed addrs stks state
  end.

Definition setStakersWithTxs (c : BSRR) (state : option StateDB) (chain : ChainR) (stks : gset Address)
    (txs : list txdata) (header : Header) : result (gset Address * option StateDB) :=
  match GetHeader chain (ParentHash header) (u64 (big_Uint64 (num header) - 1)) with
  | None => Err ErrUnknownAncestor
  | Some parent =>
      match StateAt chain (Root parent) with
      | Err _ => Err errMissingState
      | Panic p => Panic p
      | Hang => Hang
      | Ok prevState =>
          let* changed := stkChanged_loop (Config chain) (Number header) txs ∅ in
          stkChanged_apply c prevState header changed (range (dom changed)) stks state
      end
  end.

Fixpoint checkBlocks (c : BSRR) (chain : ChainR) (stks : gset Address) (blocks : list Block)
    : result (gset Address) :=
  match blocks with
  | [] => Ok stks
  | b :: blocks =>
      let* (stks, _) := setStakersWithTxs c None chain stks (block_transactions b) (block_header b) in
      checkBlocks c chain stks blocks
  end.

(** The nearest stored list, and the blocks after it, newest first. *)
Fixpoint getStakers_loop (fuel : nat) (c : BSRR) (chain : ChainR) (prevNum : Z) (prevHash : Hash)
    (blocks : list Block) : result (gset Address * list Block) :=
  match fuel with
  | O => Hang
  | S fuel' =>
      if prevNum =? 0 then Ok (NewStakers, blocks)
      else
        match GetStakers (stakingDB c) prevHash with
        | Ok list => Ok (list, blocks)
        | Panic p => Panic p
        | Hang => Hang
        | Err _ =>
            match GetBlock chain prevHash prevNum with
            | None => Err "unknown anccesstor"
            | Some block =>
                getStakers_loop fuel' c chain (prevNum - 1) (ParentHash (block_header block)) (blocks ++ [block])
            end
        end
  end.

Definition getStakers (c : BSRR) (chain : ChainR) (number : Z) (hash : Hash)
    : result (gset Address * BSRR) :=
  let* (list, blocks) := getStakers_loop (S (Z.to_nat number)) c chain number hash [] in
  match blocks with
  | [] => Ok (list, c)
  | _ :: _ =>
      let* list := checkBlocks c chain list (reverse blocks) in
      Ok (list, set_stakingDB c (Staking.Commit (stakingDB c) hash list))
  end.

(** ** Signers *)

Definition getSignersFromExtraData (header : Header) : result (list Address) :=
  let n := Z.quot (len (Extra header) - extraVanity - extraSeal) (Z.of_nat AddressLength) in
  if n <? 1 then Err errExtraSigners
  else Ok ((λ i : nat, take AddressLength (drop (Z.to_nat extraVanity + i * AddressLength) (Extra header)))
             <$> seq 0 (Z.to_nat n)).

Definition getSigners (c : BSRR) (chain : ChainR) (target : Header) : result (list Address * BSRR) :=
  if num target =? 0 then let* l := getSignersFromExtraData target in Ok (l, c)
  else if num target <? i64 (Epoch (bsrr_config c)) then
    match GetHeaderByNumber chain 0 with
    | Some g => let* l := getSignersFromExtraData g in Ok (l, c)
    | None => nil_deref
    end
  else
    match getStakers c chain (big_Uint64 (num target)) (Header_Hash target) with
    | Ok (list, c) => Ok (AsList list, c)
    | Err _ => Err "failed to get staking list"
    | Panic p => Panic p
    | Hang => Hang
    end.

(** ** Difficulty and rank *)

Definition getMaxMiningCandidates (c : BSRR) (holders : Z) : Z :=
  if holders =? 0 then 0
  else
    let t := int64_of_f64 (math_Round (f64_mul (ForkFactor (bsrr_config c)) (f64_of_Z holders))) in
    let t := if t =? 0 then 1 else t in
    if MaxMiner <? t then MaxMiner else t.

(** The score is nil for an address that was not elected. *)
Definition calcDifficultyAndRank (c : BSRR) (addr : Address) (chain : ChainR) (target : Header)
    : result (option Z * Z * BSRR) :=
  if num target =? 0 then Ok (Some diffWithoutStaker, 1, c)
  else
    match getStakers c chain (big_Uint64 (num target)) (Header_Hash target) with
    | Err _ => Ok (Some 0, -1, c)
    | Panic p => Panic p
    | Hang => Hang
    | Ok (stks, c) =>
        match StateAt chain (Root target) with
        | Err _ => Ok (Some 0, -1, c)
        | Panic p => Panic p
        | Hang => Hang
        | Ok stateDB =>
            let* results := SelectBlockCreator (Config chain) (big_Uint64 (num target)) stks stateDB in
            let max := getMaxMiningCandidates c (Z.of_nat (base.size results)) in
            let rank := match results !! addr with Some r => Rank r | None => 0 end in
            if max <? rank then Ok (Some 0, -1, c)
            else Ok (match results !! addr with Some r => Some (Score r) | None => None end, rank, c)
        end
    end.

Definition CalcDifficulty (c : BSRR) (chain : ChainR) (parent : Header) : result (option Z * BSRR) :=
  let* target := getStakeTargetBlock c chain (Some parent) in
  match target with
  | None => Ok (Some 0, c)
  | Some t => let* (diff, _, c) := calcDifficultyAndRank c (signer c) chain t in Ok (diff, c)
  end.

(** ** Preparing a header *)

(** [append] zeros up to the vanity, cut there, and room for the seal. *)
Definition preparedExtra (extra : bytes) : bytes :=
  let extra := if len extra <? extraVanity then extra ++ replicate (Z.to_nat extraVanity - length extra) 0
               else extra in
  take (Z.to_nat extraVanity) extra ++ replicate (Z.to_nat extraSeal) 0.

(** On an error the caller drops the header. *)
Definition Prepare (c : BSRR) (chain : ChainR) (now : Z) (header : Header) : result (Header * BSRR) :=
  let number := big_Uint64 (num header) in
  match GetHeader chain (ParentHash header) (u64 (number - 1)) with
  | None => Err ErrUnknownAncestor
  | Some parent =>
      let* target := getStakeTargetBlock c chain (Some parent) in
      match target with
      | None => Err ErrUnknownAncestor
      | Some target =>
          let* (diff, rank, c) := calcDifficultyAndRank c (signer c) chain target in
          if rank <? 1 then Err errUnauthorizedSigner
          else
            let time := Time parent + Period (bsrr_config c) in
            let time := if big_Int64 time <? now then now else time in
            Ok (with_prepared header (default 0 diff) (EncodeNonce (u64 rank)) (preparedExtra (Extra header)) time, c)
      end
  end.

(** ** Rewards *)

(** In [float64], as compiled without fused multiply-add. *)
Definition getReward (config : ChainConfig) (header : Header) : result Z :=
  match Bsrr config with
  | None => nil_deref
  | Some b =>
      match Rewards b with
      | None => nil_deref
      | Some rewards =>
          let number := big_Uint64 (num header) in
          if number <? big_Uint64 rewards then Ok 0
          else
            let correctionValue := f64_div (f64_of_Z (Period b)) (f64_of_Z DefaultBlockCreationSec) in
            let correctedBlockNumber := f64_mul (f64_of_Z number) correctionValue in
            let addtional := if f64_leb correctedBlockNumber (f64_of_Z 3150000) then f64_of_Z 5 else f64_of_Z 0 in
            let half := f64_div (f64_of_Z 1) (f64_of_Z 2) in
            let sections := math_Round (f64_div correctedBlockNumber (f64_of_Z 7370000)) in
            let reward := f64_mul (f64_add (f64_sub (f64_of_Z 26) (f64_mul sections half)) addtional)
                                  correctionValue in
            if f64_leb reward (f64_of_Z 0) then Ok 0
            else Ok (int64_of_f64 (f64_mul reward (f64_of_Z (10 ^ 10))) * 10 ^ 8)
      end
  end.

(** One signer: the first pending reward, when it is an epoch old, moves to the
    main balance. *)
Definition payout (epoch : Z) (header : Header) (s : StateDB) (addr : Address) : result StateDB :=
  match GetFirstBehindBalance s addr with
  | (Ok behind, s) =>
      if num header <? behind_Number behind + epoch then Ok s
      else if negb (0 <? behind_Balance behind) then Ok s
      else RemoveFirstBehindBalance (AddBalance s addr (behind_Balance behind)) addr
  | (_, s) => Ok s
  end.

Fixpoint payouts (epoch : Z) (header : Header) (signers : list Address) (s : StateDB) : result StateDB :=
  match signers with
  | [] => Ok s
  | a :: signers => let* s := payout epoch header s a in payouts epoch header signers s
  end.

Definition accumulateRewards (c : BSRR) (chain : ChainR) (s : StateDB) (header : Header)
    : result (StateDB * BSRR) :=
  let* reward := getReward (Config chain) header in
  let s := AddBehindBalance s (Coinbase header) (num header) reward in
  match Bsrr (Config chain) with
  | None => nil_deref
  | Some b =>
      let* target := getAncestor chain (i64 (Epoch b)) header in
      match target with
      | None => Ok (s, c)
      | Some target =>
          match getSigners c chain target with
          | Err _ => Ok (s, c)
          | Panic p => Panic p
          | Hang => Hang
          | Ok (signers, c) =>
              let* s := payouts (Epoch b) header signers s in
              Ok (s, c)
          end
      end
  end.

(** ** Finalizing a block *)

Definition supportBIP1 (c : BSRR) (chain : ChainR) (parent : option Header) (stks : gset Address)
    : result (gset Address * BSRR) :=
  match parent with
  | None => nil_deref
  | Some p =>
      let* st := StateAt chain (Root p) in
      match StakeMinimum (bsrr_config c) with
      | None => nil_deref
      | Some m =>
          let stks := foldl (λ stks addr,
            if (State.GetStakeBalance st addr).1 <? m then Remove stks addr else stks) stks (AsList stks) in
          Ok (stks, set_stakingDB c (Staking.Commit (stakingDB c) (Header_Hash p) stks))
      end
  end.

(** [err] in place of the error of [r]. *)
Definition or_err {A} (r : result A) (err : string) : result A :=
  match r with Err _ => Err err | _ => r end.

(** What [Finalize] checks of a block with a coinbase: it was elected, at the
    difficulty and rank of the header.  Also the periodic clean-up. *)
Definition checkCreator (c : BSRR) (chain : ChainR) (header : Header) (stks : gset Address)
    : result (gset Address * BSRR) :=
  let parent := GetHeader chain (ParentHash header) (u64 (big_Uint64 (num header) - 1)) in
  let* (stks, c) :=
    if IsBIP1Block (Config chain) (Number header)
    then or_err (supportBIP1 c chain parent stks) errBIP1 else Ok (stks, c) in
  let* target := getStakeTargetBlock c chain parent in
  match target with
  | None => Err ErrUnknownAncestor
  | Some target =>
      let* (signers, c) := or_err (getSigners c chain target) errUnauthorizedSigner in
      if negb (bool_decide (Coinbase header ∈ signers)) then Err errUnauthorizedSigner
      else
        let* (predicted, rank, c) := calcDifficultyAndRank c (Coinbase header) chain target in
        if rank <? 1 then Err errUnauthorizedSigner
        else if negb (default 0 predicted =? Difficulty header) then Err errInvalidDifficulty
        else if negb (Nonce_Uint64 (Nonce header) =? u64 rank) then Err errInvalidNonce
        else if num header mod CleanCycle =? 0 then
          let* db := or_err (Clean chain (stakingDB c) target) errCleanStakingDB in
          Ok (stks, set_stakingDB c db)
        else Ok (stks, c)
  end.

(** The header of the block, the state and the engine. *)
Definition Finalize (c : BSRR) (chain : ChainR) (header : Header) (s : StateDB) (txs : list txdata)
    : result (Header * StateDB * BSRR) :=
  let* (stks, c) := or_err (getStakers c chain (u64 (big_Uint64 (num header) - 1)) (ParentHash header))
                      errStakingList in
  let* (stks, c) := if negb (bool_decide (Coinbase header = zeroAddress))
                    then checkCreator c chain header stks else Ok (stks, c) in
  let* (stks, st) := or_err (setStakersWithTxs c (Some s) chain stks txs header) errStakingList in
  let s := default s st in
  let* (s, c) := accumulateRewards c chain s header in
  let* (root, s) := IntermediateRoot s (IsEIP158 (Config chain) (Number header)) in
  Ok (with_final header root (CalcUncleHash []), s, c).

(** ** Sealing *)

(** [time.Time.Sub] saturates at the range of [time.Duration]. *)
Definition duration (z : Z) : Z := Z.max (- two63) (Z.min (two63 - 1) z).

(** The delay in nanoseconds, from [now], and the signed header. *)
Definition Seal (c : BSRR) (chain : ChainR) (now : Z) (header : Header) : result (Z * Header * BSRR) :=
  if big_Uint64 (num header) =? 0 then Err errUnknownBlock
  else
    match GetHeader chain (ParentHash header) (u64 (big_Uint64 (num header) - 1)) with
    | None => Err ErrUnknownAncestor
    | Some parent =>
        let* target := getStakeTargetBlock c chain (Some parent) in
        match target with
        | None => Err ErrUnknownAncestor
        | Some target =>
            let* (signers, c) := getSigners c chain target in
            if negb (bool_decide (signer c ∈ signers)) then Err errUnauthorizedSigner
            else
              let delay := duration (big_Int64 (Time header) * 1000000000 - now) in
              let* (_, rank, c) := calcDifficultyAndRank c (Coinbase header) chain target in
              if rank =? -1 then Err errUnauthorizedSigner
              else
                let* temp := getDelay {| CommonDiff := commonDiff |} rank in
                let* hash := sigHash header in
                let* sighash := signFn c hash in
                let keep := take (length (Extra header) - Z.to_nat extraSeal) (Extra header) in
                let seal := take (Z.to_nat extraSeal) sighash in
                Ok (i64 (delay + temp),
                    with_Extra header (keep ++ seal ++ drop (length keep + length seal) (Extra header)), c)
        end
    end.

(** ** RPC interface ([api.go]) *)

Definition electionBlock (c : BSRR) (chain : ChainR) (header : option Header) : result (Header * Header) :=
  match header with
  | None => Err errUnknownBlock
  | Some h =>
      match GetHeader chain (ParentHash h) (u64 (big_Uint64 (num h) - 1)) with
      | None => Err ErrUnknownAncestor
      | Some parent =>
          let* target := getStakeTargetBlock c chain (Some parent) in
          match target with None => Err ErrUnknownAncestor | Some t => Ok (parent, t) end
      end
  end.

(** [number]: nil or the latest block, or a block number. *)
Definition requested (chain : ChainR) (number : option Z) : option Header :=
  match number with None => CurrentHeader chain | Some n => GetHeaderByNumber chain (u64 n) end.

Definition API_GetCandidates (c : BSRR) (chain : ChainR) (number : option Z) : result (Candidates * BSRR) :=
  let* (_, target) := electionBlock c chain (requested chain number) in
  let* stat := StateAt chain (Root target) in
  let* (stks, c) := getStakers c chain (big_Uint64 (num target)) (Header_Hash target) in
  Ok (GetCandidates stks stat, c).

Definition API_GetBlockCreators (c : BSRR) (chain : ChainR) (number : option Z)
    : result (list Address * BSRR) :=
  let* (_, target) := electionBlock c chain (requested chain number) in
  getSigners c chain target.

Definition getJoinRatio (stks : gset Address) (addr : Address) (states : StateDB) : float64 :=
  let '(total, n) :=
    foldl (λ '(total, n) stk,
      let point := f64_of_Z (big_Int64 (State.GetPoint states stk).1) in
      (f64_add total point, if bool_decide (addr = stk) then point else n))
      (f64_of_Z 0, f64_of_Z 0) (AsList stks) in
  if f64_eqb total (f64_of_Z 0) then f64_of_Z 0 else f64_div n total.

Definition API_GetJoinRatio (c : BSRR) (chain : ChainR) (addr : Address) (number : option Z)
    : result (float64 * BSRR) :=
  match requested chain number with
  | None => Err errUnknownBlock
  | Some header =>
      let n := big_Int64 (num header) in
      if n <=? i64 (Epoch (bsrr_config c)) then Err errNoData
      else
        let* (stks, c) := getStakers c chain (u64 n) (Header_Hash header) in
        let* (_, target) := electionBlock c chain (Some header) in
        let* states := StateAt chain (Root target) in
        Ok (getJoinRatio stks addr states, c)
  end.

Definition API_GetSigners (c : BSRR) (chain : ChainR) : result (list Address * BSRR) :=
  match CurrentHeader chain with
  | None => nil_deref
  | Some header =>
      let* (_, target) := electionBlock c chain (Some header) in
      getSigners c chain target
  end.

(** The engine as the block processor sees it.  An error comes before any change
    of the state. *)
Definition bsrrEngine (c : BSRR) (chain : ChainR) : Engine := {|
  Engine_Author := λ h, match Author h with Ok a => a | _ => zeroAddress end;
  Engine_Finalize := λ h s txs _ _,
    match Finalize c chain h s txs with
    | Ok (_, s, _) => Ok (None, s)
    | Err e => Ok (Some e, s)
    | Panic p => Panic p
    | Hang => Hang
    end
|}.
End Bsrr.
