(* ===== verification/BsrrProps.v ===== *)
(** * Properties of the consensus engine

    The exact rules of header verification, the schedule of the election
    block, the staking list as a function of the chain, the acceptance of
    prepared headers, and what header verification does not look at. *)

From Stdlib Require Import ZArith Lia SpecFloat.
From stdpp Require Import base option list gmap sets strings.
From S2P Require Import Prelude GoFloat Params Group Rlp Types Account State StateRevert Funds Receipt Chain Dao.
From S2P Require Import Staking Selection Transition Bsrr.

Section Verify.
Context {C : Crypto} {D : Database} {MO : MapOrder} {GR : GoRand} {SH : Sha256}.

(** ** The rules of header verification *)

(** The parent a header is verified against. *)
Definition parent_of (chain : ChainReader StateDB) (header : Header) (parents : list Header) : option Header :=
  match last parents with
  | Some p => Some p
  | None => GetHeader chain (ParentHash header) (num header - 1)
  end.

Record valid_header (c : BSRR) (chain : ChainReader StateDB) (now : Z) (header : Header)
    (parents : list Header) : Prop := {
  vh_past : Time header ≤ now;
  vh_extra : 97 ≤ len (Extra header);
  vh_signers : if num header mod Epoch (bsrr_config c) =? 0
               then (len (Extra header) - 97) mod 20 = 0 else len (Extra header) = 97;
  vh_mix : MixDigest header = zeroHash;
  vh_uncles : UncleHash header = uncleHash;
  vh_nonce : 1 ≤ Nonce_Uint64 (Nonce header);
  vh_fork : VerifyForkHashes (Config chain) header false = None;
  vh_parent : ∃ p, parent_of chain header parents = Some p ∧ big_Uint64 (num p) = num header - 1 ∧
                   Header_Hash p = ParentHash header ∧
                   u64 (big_Uint64 (Time p) + Period (bsrr_config c)) ≤ big_Uint64 (Time header)
}.

Lemma guard_iff {A} (b : bool) (e : string) (k : result A) (v : A) :
  (if b then Err e else k) = Ok v ↔ b = false ∧ k = Ok v.
Proof. destruct b; naive_solver. Qed.

Lemma verifyCascadingFields_iff c chain header parents :
  is_u64 (num header) → 0 < num header →
  verifyCascadingFields c chain header parents = Ok tt ↔
  ∃ p, parent_of chain header parents = Some p ∧ big_Uint64 (num p) = num header - 1 ∧
       Header_Hash p = ParentHash header ∧
       u64 (big_Uint64 (Time p) + Period (bsrr_config c)) ≤ big_Uint64 (Time header).
Proof.
  intros Hu Hpos. unfold verifyCascadingFields, parent_of, verifySeal.
  rewrite (big_Uint64_small (num header)) by done. rewrite (proj2 (Z.eqb_neq (num header) 0)) by lia.
  rewrite (u64_small (num header - 1)) by (unfold is_u64 in *; lia).
  destruct (match last parents with Some p => Some p | None => _ end) as [p|]; [|split; [done|naive_solver]].
  destruct (Z.eqb_spec (big_Uint64 (num p)) (num header - 1)); cbn [negb orb];
    [|split; [done|naive_solver]].
  case_bool_decide; cbn [negb]; [|split; [done|naive_solver]].
  destruct (Z.ltb_spec (big_Uint64 (Time header)) (u64 (big_Uint64 (Time p) + Period (bsrr_config c)))).
  - split; [done|]. intros (p' & [= <-] & _ & _ & ?). lia.
  - split; [|done]. intros _. exists p. done.
Qed.

Lemma verifyHeader_rules (c : BSRR) (chain : ChainReader StateDB) (now : Z) (header : Header)
    (parents : list Header) (n : Z)
    (Hn : Number header = Some n) (Hu : is_u64 n) (Hpos : 0 < n) (Hepoch : 0 < Epoch (bsrr_config c)) :
  verifyHeader c chain now header parents = Ok tt ↔ valid_header c chain now header parents.
Proof.
  assert (Hnum : num header = n) by (unfold num; by rewrite Hn).
  pose proof (verifyCascadingFields_iff c chain header parents ltac:(by rewrite Hnum) ltac:(by rewrite Hnum)) as Hcas.
  unfold verifyHeader. rewrite Hn, (big_Uint64_small n Hu).
  assert (Hlen : 0 ≤ len (Extra header)) by (unfold len; lia).
  unfold uint_rem. rewrite (proj2 (Z.eqb_neq (Epoch (bsrr_config c)) 0)) by lia. cbn [bind].
  unfold extraVanity, extraSeal in *. rewrite <- Hnum in *.
  change (Z.of_nat AddressLength) with 20. rewrite !guard_iff.
  assert (Hfk : match VerifyForkHashes (Config chain) header false with
                | Some e => Err e | None => verifyCascadingFields c chain header parents end = Ok tt ↔
                VerifyForkHashes (Config chain) header false = None ∧
                verifyCascadingFields c chain header parents = Ok tt) by (case_match; naive_solver).
  rewrite Hfk, Hcas, !Z.ltb_ge. clear Hfk Hcas.
  rewrite (proj2 (Z.ltb_lt 0 (num header)) Hpos). cbn [andb]. rewrite Z.ltb_ge.
  rewrite !negb_false_iff, !bool_decide_eq_true.
  destruct (Z.eqb_spec (num header mod Epoch (bsrr_config c)) 0) as [Hz|Hz]; cbn [negb andb].
  - rewrite negb_false_iff, Z.eqb_eq. split.
    + intros (H1 & H2 & H3 & _ & H4 & H5 & H6 & H7 & H8 & H9). split; try done.
      rewrite (proj2 (Z.eqb_eq _ _) Hz). rewrite Z.rem_mod_nonneg in H4 by lia.
      by replace (len (Extra header) - 97) with (len (Extra header) - 32 - 65) by lia.
    + intros [H1 H2 H3 H4 H5 H6 H7 H8]. rewrite (proj2 (Z.eqb_eq _ _) Hz) in H3. split_and!; try done; try lia.
      rewrite Z.rem_mod_nonneg by lia.
      by replace (len (Extra header) - 32 - 65) with (len (Extra header) - 97) by lia.
  - rewrite negb_false_iff, Z.eqb_eq. split.
    + intros (H1 & H2 & H3 & H4 & _ & H5 & H6 & H7 & H8 & H9). split; try done.
      rewrite (proj2 (Z.eqb_neq _ _) Hz). lia.
    + intros [H1 H2 H3 H4 H5 H6 H7 H8]. rewrite (proj2 (Z.eqb_neq _ _) Hz) in H3. split_and!; try done; lia.
Qed.


(** ** The seal *)

Lemma getAncestor_with_Extra chain n h e :
  0 < num h → 0 < n → getAncestor chain n (with_Extra h e) = getAncestor chain n h.
Proof.
  intros Hh Hn. unfold getAncestor. change (num (with_Extra h e)) with (num h).
  cbn [getAncestor_loop]. change (num (with_Extra h e)) with (num h).
  rewrite (proj2 (Z.ltb_lt 0 (num h)) Hh), (proj2 (Z.ltb_lt (num h - n) (num h))) by lia. done.
Qed.

Lemma payouts_with_Extra epoch h e l s : payouts epoch (with_Extra h e) l s = payouts epoch h l s.
Proof.
  revert s. induction l as [|a l IH]; intros s; [done|]. cbn [payouts].
  change (payout epoch (with_Extra h e) s a) with (payout epoch h s a).
  destruct (payout epoch h s a); cbn [bind]; auto.
Qed.

Lemma stkChanged_apply_with_Extra c ps h e ch l stks st :
  stkChanged_apply c ps (with_Extra h e) ch l stks st = stkChanged_apply c ps h ch l stks st.
Proof.
  revert stks st. induction l as [|a l IH]; intros stks st; [done|]. cbn [stkChanged_apply].
  change (stkChanged_step c ps (with_Extra h e) ch stks st a) with (stkChanged_step c ps h ch stks st a).
  destruct (stkChanged_step c ps h ch stks st a) as [[]| | |]; cbn [bind]; auto.
Qed.

Lemma setStakersWithTxs_with_Extra c st chain stks txs h e :
  setStakersWithTxs c st chain stks txs (with_Extra h e) = setStakersWithTxs c st chain stks txs h.
Proof.
  unfold setStakersWithTxs. change (num (with_Extra h e)) with (num h).
  change (ParentHash (with_Extra h e)) with (ParentHash h). change (Number (with_Extra h e)) with (Number h).
  repeat case_match; try done. destruct (stkChanged_loop _ _ _ _); cbn [bind]; try done.
  apply stkChanged_apply_with_Extra.
Qed.

Lemma accumulateRewards_with_Extra c chain s h e b :
  Bsrr (Config chain) = Some b → 0 < i64 (Epoch b) → 0 < num h →
  accumulateRewards c chain s (with_Extra h e) = accumulateRewards c chain s h.
Proof.
  intros Hb He Hh. unfold accumulateRewards. rewrite Hb, getAncestor_with_Extra by done.
  change (getReward (Config chain) (with_Extra h e)) with (getReward (Config chain) h).
  destruct (getReward _ h); cbn [bind]; try done. destruct (getAncestor _ _ h) as [[t|]| | |]; cbn [bind]; try done.
  destruct (getSigners c chain t) as [[l c']| | |]; try done. by rewrite payouts_with_Extra.
Qed.

(** C35: nobody checks the seal.  Two headers that differ in the 65 bytes of
    the seal only are verified alike, with any verdict, and [Finalize] accepts
    or rejects the blocks alike and computes the same state from them.  The
    signature of a block is therefore not needed to have it accepted in the
    name of an elected creator; it decides only whom [Author] pays the fees. *)
Theorem seal_not_verified (c : BSRR) (chain : ChainReader StateDB) (now : Z) (h : Header)
    (body seal seal' : bytes) (parents : list Header) (s : StateDB) (txs : list txdata) (b : BSRRConfig)
    (Hextra : Extra h = body ++ seal) (Hseal : length seal = 65%nat) (Hseal' : length seal' = 65%nat)
    (Hnum : 0 < num h) (Hreprice : EIP150Hash (Config chain) = zeroHash)
    (Hb : Bsrr (Config chain) = Some b) (Hepoch : 0 < i64 (Epoch b)) :
  let h' := with_Extra h (body ++ seal') in
  verifyHeader c chain now h' parents = verifyHeader c chain now h parents ∧
  Finalize c chain h' s txs =
    (let* (hd, s, c) := Finalize c chain h s txs in Ok (with_Extra hd (body ++ seal'), s, c)).
Proof.
  intros h'.
  assert (Hlen : len (Extra h') = len (Extra h)).
  { unfold h'. cbn [with_Extra Extra]. rewrite Hextra. unfold len. rewrite !length_app. lia. }
  split.
  - unfold verifyHeader. change (Number h') with (Number h). destruct (Number h) as [n|]; [|done].
    rewrite Hlen. unfold VerifyForkHashes. rewrite Hreprice.
    rewrite (bool_decide_eq_true_2 (zeroHash = zeroHash) eq_refl). cbn [negb andb]. reflexivity.
  - unfold Finalize. change (num h') with (num h). change (ParentHash h') with (ParentHash h).
    destruct (or_err (getStakers _ _ _ _) _) as [[stks c1]| | |]; try done. cbn [bind].
    change (Coinbase h') with (Coinbase h). change (checkCreator c1 chain h' stks) with (checkCreator c1 chain h stks).
    destruct (if negb _ then _ else _) as [[stks2 c2]| | |]; try done. cbn [bind].
    unfold h' at 1. rewrite setStakersWithTxs_with_Extra.
    destruct (or_err (setStakersWithTxs _ _ _ _ _ _) _) as [[stks3 st]| | |]; try done. cbn [bind].
    unfold h'. rewrite (accumulateRewards_with_Extra c2 chain (default s st) h (body ++ seal') b) by done.
    destruct (accumulateRewards _ _ _ _) as [[s3 c3]| | |]; try done. cbn [bind].
    change (Number (with_Extra h (body ++ seal'))) with (Number h).
    destruct (IntermediateRoot s3 _) as [[root s4]| | |]; done.
Qed.

(** ** The election block *)

Section Ancestors.
Context (chain : ChainReader StateDB) {L : ChainLaws chain}.

Lemma getAncestor_loop_spec fuel targetNumber t :
  is_u64 (num t) → (Z.to_nat (num t) < fuel)%nat →
  ∃ r, getAncestor_loop fuel chain targetNumber (Some t) = Ok r ∧
       ∀ t', r = Some t' → ancestor chain t t' ∧ num t' = Z.min (num t) (Z.max 0 targetNumber).
Proof.
  revert t. induction fuel as [|fuel IH]; intros t Hu Hf; [lia|]. cbn [getAncestor_loop].
  unfold is_u64 in Hu. destruct (Z.ltb_spec 0 (num t)) as [Hp|Hp]; cbn [andb].
  2:{ eexists. split; [done|]. intros t' [= <-]. split; [constructor|lia]. }
  destruct (Z.ltb_spec targetNumber (num t)) as [Ht|Ht].
  2:{ eexists. split; [done|]. intros t' [= <-]. split; [constructor|lia]. }
  rewrite big_Uint64_small by done. rewrite u64_small by (unfold is_u64; lia).
  destruct (GetHeader chain (ParentHash t) (num t - 1)) as [p|] eqn:E.
  2:{ destruct fuel; [lia|]. eexists. split; [done|]. done. }
  destruct (GetHeader_spec _ _ _ E) as (_ & Hnp & Hup).
  assert (Hn : num p = num t - 1) by (unfold num at 1; by rewrite Hnp).
  destruct (IH p ltac:(unfold is_u64; lia) ltac:(lia)) as (r & -> & Hr). exists r. split; [done|].
  intros t' Ht'. destruct (Hr t' Ht') as [Ha Hnt]. split; [|lia].
  eapply ancestor_step; [|exact Ha]. by rewrite u64_small by (unfold is_u64; lia).
Qed.

Lemma getAncestor_spec n h :
  is_u64 (num h) → 0 ≤ n →
  ∃ r, getAncestor chain n h = Ok r ∧
       ∀ t, r = Some t → ancestor chain h t ∧ num t = Z.max 0 (num h - n) ∧
                         HasBlockAndState chain (Header_Hash t) (num t) = true.
Proof.
  intros Hu Hn. unfold getAncestor.
  destruct (getAncestor_loop_spec (S (Z.to_nat (num h))) (num h - n) h Hu ltac:(lia)) as (r & -> & Hr).
  cbn [bind]. destruct r as [t|]; [|by exists None]. destruct (Hr t eq_refl) as [Ha Hnt].
  unfold is_u64 in Hu. rewrite big_Uint64_small by (unfold is_u64; lia).
  destruct (HasBlockAndState chain (Header_Hash t) (num t)) eqn:E; [|by exists None].
  eexists. split; [done|]. intros t' [= <-]. split; [done|]. split; [lia|done].
Qed.

(** The block that fixes the election.  For a parent with a 64-bit number
    the search terminates; the block it finds has its state in the database;
    and its number is 0 in the first epoch, the epoch length in the second,
    and one epoch before the parent from then on, where it is an ancestor of
    the parent. *)
Theorem getStakeTargetBlock_schedule (c : BSRR) (p : Header)
    (Hu : is_u64 (num p)) (Hepoch : 0 < Epoch (bsrr_config c) < two63) :
  ∃ r, getStakeTargetBlock c chain (Some p) = Ok r ∧
    ∀ t, r = Some t →
      num t = (if num p <? Epoch (bsrr_config c) then 0
               else if num p <? 2 * Epoch (bsrr_config c) then Epoch (bsrr_config c)
               else num p - Epoch (bsrr_config c)) ∧
      HasBlockAndState chain (Header_Hash t) (num t) = true ∧
      (2 * Epoch (bsrr_config c) ≤ num p → ancestor chain p t).
Proof.
  unfold getStakeTargetBlock, uint_quot. set (e := Epoch (bsrr_config c)) in *.
  rewrite big_Uint64_small by done. rewrite (proj2 (Z.eqb_neq e 0)) by lia. cbn [bind].
  unfold is_u64 in Hu. set (d := num p / e).
  assert (Hd : d * e ≤ num p < (d + 1) * e) by (unfold d; zdiv).
  destruct (Z.ltb_spec 1 d) as [H1|H1].
  - rewrite i64_small by word. destruct (getAncestor_spec e p Hu ltac:(lia)) as (r & -> & Hr).
    exists r. split; [done|]. intros t Ht. destruct (Hr t Ht) as (Ha & Hn & Hs).
    assert (H2 : 2 * e ≤ num p) by nia.
    rewrite (proj2 (Z.ltb_ge (num p) e)), (proj2 (Z.ltb_ge (num p) (2 * e))) by lia.
    split; [lia|]. done.
  - set (tn := if d =? 0 then 0 else e).
    assert (Htn : tn = if num p <? e then 0 else if num p <? 2 * e then e else num p - e).
    { unfold tn. destruct (Z.eqb_spec d 0), (Z.ltb_spec (num p) e), (Z.ltb_spec (num p) (2 * e)); nia. }
    destruct (GetHeaderByNumber chain tn) as [t|] eqn:E; [|by exists None].
    destruct (GetHeaderByNumber_spec _ _ E) as [Hn _].
    assert (Hnt : num t = tn) by (unfold num; by rewrite Hn).
    destruct (HasBlockAndState chain (Header_Hash t) tn) eqn:Es; [|by exists None].
    eexists. split; [done|]. intros t' [= <-]. rewrite <- Htn, Hnt. split; [done|]. split; [done|].
    intros Hge. nia.
Qed.
End Ancestors.
End Verify.
