(* ===== verification/BsrrStakers.v ===== *)
(** * The staking list as a function of the chain

    [getStakers] returns the list stored for a block, or rebuilds it from the
    nearest stored list and the blocks since.  The specification replays the
    blocks from the genesis block; the stored lists are an optimisation that
    does not show. *)

From Stdlib Require Import ZArith Lia.
From stdpp Require Import base option list gmap sets strings.
From S2P Require Import Prelude Params Rlp Types Account State StateRevert Chain.
From S2P Require Import Staking Selection Transition Bsrr.

Section Stakers.
Context {C : Crypto} {D : Database} {MO : MapOrder} {GR : GoRand} {SH : Sha256}.

(** ** One block *)

Fixpoint messages (config : ChainConfig) (number : option Z) (txs : list txdata) : result (list Message) :=
  match txs with
  | [] => Ok []
  | tx :: txs => let* m := AsMessage tx (MakeSigner config number) in
                 let* ms := messages config number txs in Ok (m :: ms)
  end.

(** What a transaction does to the staking list: [Some true] stakes. *)
Definition action (config : ChainConfig) (number : option Z) (m : Message) : option bool :=
  if (msg_base m =? Stake) && (msg_target m =? Main) && IsBIP1 config number then Some false
  else if (msg_base m =? Main) && (msg_target m =? Stake) then Some true
  else None.

(** The last staking action of an account in a list of messages. *)
Definition last_action (config : ChainConfig) (number : option Z) (a : Address) (ms : list Message)
    : option bool :=
  last (omap (λ m, if bool_decide (msg_from m = a) then action config number m else None) ms).

Lemma stkChanged_loop_spec config number txs m0 ch :
  stkChanged_loop config number txs m0 = Ok ch →
  ∃ ms, messages config number txs = Ok ms ∧
        ∀ a, ch !! a = match last_action config number a ms with Some b => Some b | None => m0 !! a end.
Proof.
  revert m0. induction txs as [|tx txs IH]; intros m0; cbn [stkChanged_loop messages].
  { intros [= <-]. by exists []. }
  destruct (AsMessage tx _) as [m| | |]; try done. cbn [bind]. intros H.
  destruct (IH _ H) as (ms & -> & Hch). exists (m :: ms). split; [done|]. intros a.
  rewrite Hch. unfold last_action in *. cbn [omap list_omap].
  assert (Hm0 : ∀ m1, (match action config number m with
                       | Some b => m1 = <[msg_from m := b]> m0 | None => m1 = m0 end) →
    match last (omap (λ m, if bool_decide (msg_from m = a) then action config number m else None) ms) with
    | Some b => Some b | None => m1 !! a end =
    match last (match (if bool_decide (msg_from m = a) then action config number m else None) with
                | Some b => b :: omap (λ m, if bool_decide (msg_from m = a) then action config number m else None) ms
                | None => omap (λ m, if bool_decide (msg_from m = a) then action config number m else None) ms end) with
    | Some b => Some b | None => m0 !! a end).
  { intros m1 Hm1. set (l := omap _ ms). destruct (action config number m) as [b|]; subst m1.
    - case_bool_decide as Hf; [|by rewrite lookup_insert_ne].
      subst a. rewrite last_cons. destruct (last l); [done|]. by rewrite lookup_insert_eq.
    - by case_bool_decide. }
  apply Hm0. unfold action.
  destruct (Z.eqb_spec (msg_base m) Main) as [E1|], (Z.eqb_spec (msg_target m) Main) as [E2|],
    (Z.eqb_spec (msg_base m) Stake) as [E3|], (Z.eqb_spec (msg_target m) Stake) as [E4|];
    try (rewrite E1 in E3; discriminate E3); try (rewrite E2 in E4; discriminate E4);
    cbn [andb]; destruct (IsBIP1 config number); done.
Qed.

Lemma stkChanged_apply_spec c ps h ch l stks st S st' :
  NoDup l → stkChanged_apply c ps h ch l stks st = Ok (S, st') →
  ∀ a, a ∈ S ↔ if decide (a ∈ l) then ch !! a = Some true else a ∈ stks.
Proof.
  intros Hnd. revert stks st. induction Hnd as [|x l Hx Hnd IH]; intros stks st; cbn [stkChanged_apply].
  { intros [= <- <-] a. by rewrite decide_False by apply not_elem_of_nil. }
  unfold stkChanged_step. destruct (match st with Some _ => _ | None => _ end) as [st1| | |]; try done.
  cbn [bind]. intros H a. rewrite (IH _ _ H a). destruct (decide (a ∈ l)) as [Hl|Hl].
  { by rewrite decide_True by (by right). }
  destruct (decide (a = x)) as [->|Hne].
  - rewrite decide_True by left. destruct (ch !! x) as [[]|]; cbn [default from_option id].
    + rewrite Put_spec. set_solver.
    + rewrite Remove_spec. set_solver.
    + rewrite Remove_spec. set_solver.
  - rewrite decide_False by (rewrite elem_of_cons; naive_solver).
    destruct (default false (ch !! x)); [rewrite Put_spec|rewrite Remove_spec]; set_solver.
Qed.

(** The staking list after a block.  An account is in the list if and only
    if its last staking transaction of the block stakes, or it has none in the
    block and was in the list before; the order in which the map of changes is
    iterated does not matter, nor whether the points are updated as well. *)
Theorem stakers_after_block (c : BSRR) (st st' : option StateDB) (chain : ChainReader StateDB)
    (stks S : gset Address) (txs : list txdata) (header : Header)
    (Hset : setStakersWithTxs c st chain stks txs header = Ok (S, st')) :
  ∃ ms, messages (Config chain) (Number header) txs = Ok ms ∧
    ∀ a, a ∈ S ↔ match last_action (Config chain) (Number header) a ms with
                 | Some b => b = true
                 | None => a ∈ stks
                 end.
Proof.
  unfold setStakersWithTxs in Hset. destruct (GetHeader _ _ _) as [p|]; [|done].
  destruct (StateAt chain (Root p)) as [ps| | |]; try done.
  destruct (stkChanged_loop _ _ _ _) as [ch| | |] eqn:E; try done. cbn [bind] in Hset.
  destruct (stkChanged_loop_spec _ _ _ _ _ E) as (ms & Hms & Hch). exists ms. split; [done|]. intros a.
  assert (Hnd : NoDup (range (dom ch))) by (rewrite range_perm; apply NoDup_elements).
  rewrite (stkChanged_apply_spec _ _ _ _ _ _ _ _ _ Hnd Hset a).
  specialize (Hch a). rewrite lookup_empty in Hch.
  assert (Hin : a ∈ range (dom ch) ↔ is_Some (ch !! a)) by (by rewrite range_perm, elem_of_elements, elem_of_dom).
  destruct (last_action _ _ a ms) as [b|].
  - rewrite decide_True by (rewrite Hin, Hch; eauto). rewrite Hch. naive_solver.
  - rewrite decide_False; [done|]. rewrite Hin, Hch. by intros [? ?].
Qed.

(** ** Replaying the chain *)

Inductive staked (c : BSRR) (chain : ChainReader StateDB) : Z → Hash → gset Address → Prop :=
| staked_genesis h : staked c chain 0 h NewStakers
| staked_block n h b S S' st :
    0 < n → GetBlock chain h n = Some b →
    staked c chain (n - 1) (ParentHash (block_header b)) S →
    setStakersWithTxs c None chain S (block_transactions b) (block_header b) = Ok (S', st) →
    staked c chain n h S'.

Lemma staked_functional c chain n h S1 S2 : staked c chain n h S1 → staked c chain n h S2 → S1 = S2.
Proof.
  intros H1. revert S2. induction H1 as [h|n h b S S' st Hn Hb Hs IH Hset]; intros S2 H2.
  - inversion H2; subst; [done|lia].
  - inversion H2 as [|n' h' b' T T' st' Hn' Hb' Hs' Hset']; subst; [lia|].
    rewrite Hb in Hb'. injection Hb' as <-. rewrite (IH _ Hs') in Hset. congruence.
Qed.

(** The blocks from [(number, hash)] down. *)
Inductive below (chain : ChainReader StateDB) (number : Z) (hash : Hash) : Z → Hash → Prop :=
| below_self : below chain number hash number hash
| below_parent n h b :
    below chain number hash n h → GetBlock chain h n = Some b →
    below chain number hash (n - 1) (ParentHash (block_header b)).

(** The stored lists of these blocks are readable and right. *)
Definition consistent (c : BSRR) (chain : ChainReader StateDB) (number : Z) (hash : Hash) : Prop :=
  ∀ n h, below chain number hash n h → 0 < n →
    match GetStakers (stakingDB c) h with
    | Ok l => staked c chain n h l
    | Err _ => True
    | _ => False
    end.

Lemma checkBlocks_app c chain stks l1 l2 :
  checkBlocks c chain stks (l1 ++ l2) = let* stks := checkBlocks c chain stks l1 in checkBlocks c chain stks l2.
Proof.
  revert stks. induction l1 as [|b l1 IH]; intros stks; [done|]. cbn [app checkBlocks].
  destruct (setStakersWithTxs _ _ _ _ _ _) as [[]| | |]; cbn [bind]; auto.
Qed.

Lemma getStakers_loop_spec c chain number hash n h S fuel acc :
  consistent c chain number hash → below chain number hash n h → staked c chain n h S →
  (Z.to_nat n < fuel)%nat →
  ∃ S0 bs, getStakers_loop fuel c chain n h acc = Ok (S0, acc ++ bs) ∧
           checkBlocks c chain S0 (reverse bs) = Ok S.
Proof.
  intros Hc Hb Hs. revert fuel acc. induction Hs as [h|n h b S S' st Hn Hbl Hs IH Hset];
    intros [|fuel] acc Hf; try lia; cbn [getStakers_loop].
  { exists NewStakers, []. by rewrite app_nil_r. }
  rewrite (proj2 (Z.eqb_neq n 0)) by lia. specialize (Hc n h Hb Hn).
  destruct (GetStakers (stakingDB c) h) as [l| | |]; try done.
  - exists l, []. rewrite app_nil_r. split; [done|]. cbn [reverse rev_append checkBlocks]. f_equal.
    eapply staked_functional; [exact Hc|]. by eapply staked_block.
  - rewrite Hbl. destruct (IH ltac:(by eapply below_parent) fuel (acc ++ [b]) ltac:(lia)) as (S0 & bs & E & Hck).
    exists S0, (b :: bs). rewrite E, <- app_assoc. split; [done|].
    rewrite reverse_cons, checkBlocks_app, Hck. cbn [bind checkBlocks]. by rewrite Hset.
Qed.


(** ** Signers of the genesis block *)

Lemma cut_concat (pre rest : bytes) (l : list Address) :
  Forall (λ a, length a = AddressLength) l →
  (λ i : nat, take AddressLength (drop (length pre + i * AddressLength) (pre ++ concat l ++ rest)))
    <$> seq 0 (length l) = l.
Proof.
  intros Hl. revert pre. induction Hl as [|a l Ha Hl IH]; intros pre; [done|].
  cbn [length seq concat]. rewrite fmap_cons. f_equal.
  - rewrite Nat.add_0_r, drop_app_length, <- app_assoc. by apply take_app_length'.
  - rewrite <- fmap_S_seq, <- list_fmap_compose. rewrite <- (IH (pre ++ a)) at 2.
    apply list_fmap_ext. intros i x _. cbn [compose]. rewrite length_app, Ha, <- !app_assoc.
    by replace (length pre + S x * AddressLength)%nat with (length pre + AddressLength + x * AddressLength)%nat by lia.
Qed.

(** The signers of the first epochs are the addresses in the extra data of
    the genesis block: written between vanity and seal, they are read back. *)
Theorem signers_round_trip (header : Header) (vanity seal : bytes) (l : list Address)
    (Hv : length vanity = 32%nat) (Hs : length seal = 65%nat) (Hl : Forall (λ a, length a = AddressLength) l)
    (Hne : l ≠ []) (Hextra : Extra header = vanity ++ concat l ++ seal) :
  getSignersFromExtraData header = Ok l.
Proof.
  unfold getSignersFromExtraData, len, extraVanity, extraSeal. rewrite Hextra, !length_app, Hv, Hs.
  change (Z.of_nat AddressLength) with 20.
  assert (Hc : length (concat l) = (20 * length l)%nat).
  { clear Hne Hextra. induction Hl as [|a l Ha Hl IH]; [done|]. simpl. rewrite length_app, IH, Ha.
    unfold AddressLength. lia. }
  replace (Z.of_nat (32 + (length (concat l) + 65)) - 32 - 65) with (Z.of_nat (length l) * 20) by lia.
  rewrite Z.quot_mul by lia. destruct (Z.ltb_spec (Z.of_nat (length l)) 1) as [Hz|Hz];
    [destruct l; [done|simpl in Hz; lia]|].
  rewrite Nat2Z.id. f_equal. change (Z.to_nat 32) with 32%nat. rewrite <- Hv.
  by apply cut_concat.
Qed.
End Stakers.

(** ** A chain of two blocks *)

Module ToyChain.
#[local] Instance toyCrypto : Crypto := {|
  Keccak256 := fun b => set_bytes HashLength b;
  ValidateSignatureValues := fun _ _ _ _ => true;
  Ecrecover := fun h sig => Ok (4 :: sig ++ h)
|}.
#[local] Existing Instance ToyState.toyDatabase.
#[local] Instance toyRange : MapOrder := {| range := elements; range_perm s := reflexivity _ |}.
#[local] Instance toyRand : GoRand.
Proof.
  refine {| rand_state := unit; rand_Seed := fun _ => tt; rand_Int63n := fun st _ => (0, st) |}.
  intros st n Hn. simpl. lia.
Defined.
#[local] Instance toySha : Sha256 := {| sha256 := fun b => b |}.

Definition staker : Address := replicate 20 7.

(** The genesis block names one signer. *)
Definition genesis : Header := {|
  ParentHash := zeroHash; UncleHash := uncleHash; Coinbase := zeroAddress; Root := zeroHash;
  TxHash := zeroHash; ReceiptHash := zeroHash; Bloom := []; Difficulty := 1; Number := Some 0;
  GasLimit := 1000000; GasUsed := 0; Time := 100;
  Extra := replicate 32 0 ++ concat [staker] ++ replicate 65 0; MixDigest := zeroHash; Nonce := replicate 8 0
|}.

Definition stake_tx : txdata := {|
  AccountNonce := 0; Price := 1; TxGasLimit := 30000; Recipient := Some staker; Amount := 5; Payload := [];
  Base := Main; Target := Stake; V := 27; R := 1; S_ := 1
|}.

Definition header1 : Header := {|
  ParentHash := Header_Hash genesis; UncleHash := uncleHash; Coinbase := staker; Root := zeroHash;
  TxHash := zeroHash; ReceiptHash := zeroHash; Bloom := []; Difficulty := 1234; Number := Some 1;
  GasLimit := 1000000; GasUsed := 0; Time := 110;
  Extra := replicate 32 0 ++ replicate 65 0; MixDigest := zeroHash; Nonce := EncodeNonce 1
|}.

Definition block1 : Block :=
  {| block_header := header1; block_transactions := [stake_tx]; block_uncles := [] |}.

Definition chain : ChainReader StateDB := {|
  Config := MainnetChainConfig;
  CurrentHeader := Some header1;
  GetHeader := fun h n => if bool_decide (h = Header_Hash genesis) && (n =? 0) then Some genesis
                          else if bool_decide (h = Header_Hash header1) && (n =? 1) then Some header1 else None;
  GetHeaderByNumber := fun n => if n =? 0 then Some genesis else if n =? 1 then Some header1 else None;
  GetBlock := fun h n => if bool_decide (h = Header_Hash header1) && (n =? 1) then Some block1 else None;
  StateAt := fun _ => Ok (ToyState.toy_state ∅);
  HasBlockAndState := fun _ _ => true
|}.

#[local] Opaque Header_Hash.

Lemma u64_small_number n : n = 0 ∨ n = 1 → is_u64 n.
Proof. intros H. unfold is_u64. rewrite two64_eq. lia. Qed.

#[export] Instance chainLaws : ChainLaws chain.
Proof.
  split; cbn [chain GetHeader GetHeaderByNumber GetBlock]; intros *.
  - destruct (bool_decide (h = Header_Hash genesis) && (n =? 0)) eqn:E1.
    { apply andb_true_iff in E1 as [->%bool_decide_eq_true ->%Z.eqb_eq]. intros [= <-].
      split; [done|]. split; [done|]. apply u64_small_number. lia. }
    destruct (bool_decide (h = Header_Hash header1) && (n =? 1)) eqn:E2; [|done].
    apply andb_true_iff in E2 as [->%bool_decide_eq_true ->%Z.eqb_eq]. intros [= <-].
    split; [done|]. split; [done|]. apply u64_small_number. lia.
  - destruct (Z.eqb_spec n 0) as [->|_]; [|destruct (Z.eqb_spec n 1) as [->|_]; [|done]]; intros [= <-];
      (split; [done|apply u64_small_number; lia]).
  - destruct (bool_decide (h = Header_Hash header1) && (n =? 1)) eqn:E2; [|done].
    apply andb_true_iff in E2 as [->%bool_decide_eq_true ->%Z.eqb_eq]. intros [= <-].
    split; [done|]. split; [done|]. apply u64_small_number. lia.
Qed.

Definition engine : BSRR :=
  NewCliqueWithStakingDB {| stakeDB := ∅; NoPruning := false |}
    (default {| Period := 5; Epoch := 360; Rewards := None; StakeMinimum := None; LimitStakeBalance := None;
                SlashRound := 0; ForkFactor := default_ForkFactor |} (Bsrr MainnetChainConfig)).

Definition sender : Address :=
  match AsMessage stake_tx (MakeSigner MainnetChainConfig (Some 1)) with Ok m => msg_from m | _ => [] end.

Definition list1 : gset Address := {[sender]}.

Lemma set1 : setStakersWithTxs engine None chain NewStakers [stake_tx] header1 = Ok (list1, None).
Proof. vm_compute. reflexivity. Qed.

Lemma stakers_after_block_witness :
  setStakersWithTxs engine None chain NewStakers [stake_tx] header1 = Ok (list1, None) ∧
  ∃ ms, messages (Config chain) (Number header1) [stake_tx] = Ok ms ∧
    (sender ∈ list1 ↔ match last_action (Config chain) (Number header1) sender ms with
                      | Some b => b = true | None => sender ∈ NewStakers end).
Proof.
  split; [exact set1|].
  destruct (stakers_after_block engine None None chain NewStakers list1 [stake_tx] header1 set1) as (ms & H & Ha).
  exists ms. split; [exact H|apply Ha].
Defined.


Lemma signers_round_trip_witness : getSignersFromExtraData genesis = Ok [staker].
Proof.
  apply (signers_round_trip genesis (replicate 32 0) (replicate 65 0) [staker]);
    [reflexivity|reflexivity|repeat constructor|discriminate|reflexivity].
Defined.
End ToyChain.
