(* ===== verification/BsrrRewards.v ===== *)
(** * Rewards

    What a block issues: [accumulateRewards] of [consensus/bsrr/berith.go]
    creates exactly the reward of the block, as a pending reward of its
    creator, and otherwise only moves matured rewards to main balances; and
    the schedule of the reward on the main network. *)

From Stdlib Require Import ZArith Lia SpecFloat.
From stdpp Require Import base option list gmap sets strings.
From S2P Require Import Prelude GoFloat Params Rlp Types Account State StateRevert Funds Chain.
From S2P Require Import Staking Selection Transition Bsrr.

Section Issuance.
Context {C : Crypto} {D : Database} {MO : MapOrder} {GR : GoRand} {SH : Sha256}.

Definition pending (l : list Behind) : Z := foldr (λ b n, behind_Balance b + n) 0 l.

(** What an account owns: balance, stake and pending rewards. *)
Definition owned (o : stateObject) : Z :=
  Balance (so_data o) + StakeBalance (so_data o) + pending (BehindBalance (so_data o)).

Definition worth (s : StateDB) (a : Address) : Z :=
  match lookup s a with Some o => owned o | None => 0 end.

Definition gains (s s' : StateDB) (a : Address) (x : Z) : Prop := ∀ b,
  worth s' b = worth s b + (if decide (b = a) then x else 0).

Lemma gains_trans s1 s2 s3 a x y : gains s1 s2 a x → gains s2 s3 a y → gains s1 s3 a (x + y).
Proof. intros H1 H2 b. rewrite (H2 b), (H1 b). case_decide; lia. Qed.

Lemma pending_app l1 l2 : pending (l1 ++ l2) = pending l1 + pending l2.
Proof. unfold pending. induction l1 as [|b l1 IH]; [done|]. cbn [app foldr]. rewrite IH. lia. Qed.

Lemma worth_lookup s s' : (∀ b, lookup s' b = lookup s b) → ∀ a, gains s s' a 0.
Proof. intros H a b. unfold worth. rewrite H. case_decide; lia. Qed.

Lemma setStateObject_gains s o o' :
  lookup s (so_address o) = Some o → so_address o' = so_address o → so_deleted o' = false →
  gains s (setStateObject s o') (so_address o) (owned o' - owned o).
Proof.
  intros Hl Ha Hd b. unfold worth. rewrite lookup_setStateObject, Ha, Hd.
  case_decide as Hb; [subst b; rewrite Hl; lia|]. destruct (lookup s b); lia.
Qed.

(** A write whose step on the object gains [x]. *)
Lemma write_gains f s a x :
  wf s →
  (∀ s1 o, so_address o = a → so_deleted o = false → lookup s1 a = Some o → gains s1 (f s1 o) a x) →
  gains s (write f s a) a x.
Proof.
  intros Hw Hf. unfold write, GetOrNewStateObject. destruct (getStateObject_spec s a) as (s1 & -> & Hc).
  assert (H1 : gains s s1 a 0) by (apply worth_lookup; intros; by eapply cached_lookup).
  destruct (lookup s a) as [o|] eqn:El.
  - destruct (lookup_wf s a o Hw El) as (Ha & Hd & _). rewrite <- (Z.add_0_l x). eapply gains_trans; [exact H1|].
    apply Hf; [done|done|]. by rewrite (cached_lookup _ _ _ _ Hc).
  - unfold createObject. destruct (getStateObject_spec s1 a) as (s2 & -> & Hc2).
    rewrite (cached_lookup _ _ _ _ Hc), El. set (o := setNonce _ 0).
    set (s3 := setStateObject (append s2 (createObjectChange a)) o).
    assert (H3 : gains s s3 a 0).
    { intros b. unfold worth, s3. rewrite lookup_setStateObject. simpl. case_decide as Hb.
      - subst b. by rewrite El.
      - change (lookup (append s2 (createObjectChange a)) b) with (lookup s2 b).
        rewrite (cached_lookup _ _ _ _ Hc2), (cached_lookup _ _ _ _ Hc). lia. }
    rewrite <- (Z.add_0_l x). eapply gains_trans; [exact H3|]. apply Hf; [done|done|].
    unfold s3. rewrite lookup_setStateObject. by rewrite decide_True.
Qed.

Lemma install_gains s e o o' a x :
  so_address o = a → lookup s a = Some o → so_address o' = a → so_deleted o' = false →
  owned o' = owned o + x → gains s (setStateObject (append s e) o') a x.
Proof.
  intros Ha Hl Ha' Hd Hx. subst a. pose proof (setStateObject_gains (append s e) o o' Hl Ha' Hd) as H.
  replace x with (owned o' - owned o) by lia. exact H.
Qed.

Lemma touch_gains s o a : gains s (touch s o) a 0.
Proof. apply worth_lookup. intros b. unfold touch. by case_match. Qed.

Lemma AddBehindBalance_gains s a n x : wf s → gains s (AddBehindBalance s a n x) a x.
Proof.
  intros Hw. apply write_gains; [done|]. intros s1 o Ha Hd Hl. unfold so_AddBehindBalance.
  destruct (Z.eqb_spec x 0) as [->|]; [case_match; [by apply touch_gains|by apply worth_lookup]|].
  eapply (install_gains s1 _ o); try done. unfold owned. simpl. rewrite pending_app. simpl. lia.
Qed.

Section Payout.
Context (Keccak256_length : ∀ b, length (Keccak256 b) = HashLength).

Lemma AddBalance_object s a x o :
  wf s → lookup s a = Some o → x ≠ 0 →
  ∃ o1, lookup (AddBalance s a x) a = Some o1 ∧ so_address o1 = a ∧ so_deleted o1 = false ∧
        BehindBalance (so_data o1) = BehindBalance (so_data o) ∧ gains s (AddBalance s a x) a x.
Proof.
  intros Hw Hl Hx. destruct (lookup_wf s a o Hw Hl) as (Ha & Hd & _).
  assert (Hg : gains s (AddBalance s a x) a x).
  { apply write_gains; [done|]. intros s1 o1 Ha1 Hd1 Hl1. unfold so_AddBalance.
    rewrite (proj2 (Z.eqb_neq x 0) Hx). eapply (install_gains s1 _ o1); try done. unfold owned. simpl. lia. }
  unfold AddBalance, write, GetOrNewStateObject in *. destruct (getStateObject_spec s a) as (s1 & E & _).
  rewrite E, Hl in *. unfold so_AddBalance in *. rewrite (proj2 (Z.eqb_neq x 0) Hx) in *.
  unfold so_SetBalance in *. eexists. rewrite lookup_setStateObject. simpl. rewrite decide_True, Hd by done.
  split; [done|]. simpl. by rewrite Ha.
Qed.

Lemma payout_spec epoch header s a :
  wf s → ∃ s', payout epoch header s a = Ok s' ∧ wf s' ∧ gains s s' a 0.
Proof using Keccak256_length.
  intros Hw. unfold payout, GetFirstBehindBalance.
  match goal with |- context [read ?f ?n s a] =>
    pose proof (read_value f n s a) as Hv; pose proof (read_step false f n s a Hw) as [_ _ _ Hw1];
    assert (Hl : ∀ b, lookup (read f n s a).2 b = lookup s b) by
      (intros b; unfold read; destruct (getStateObject_spec s a) as (s1 & -> & Hc);
       destruct (lookup s a); simpl; by eapply cached_lookup);
    destruct (read f n s a) as [r s1] end.
  simpl in Hv, Hw1, Hl. pose proof (worth_lookup s s1 Hl a) as Hg1.
  destruct (lookup s a) as [o|] eqn:Eo; subst r; [|eauto].
  destruct (BehindBalance (so_data o)) as [|b bs] eqn:Eb; [eauto|].
  destruct (num header <? _); [eauto|]. destruct (Z.ltb_spec 0 (behind_Balance b)) as [Hpos|]; cbn [negb]; [|eauto].
  destruct (AddBalance_object s1 a (behind_Balance b) o Hw1 ltac:(by rewrite Hl, Eo) ltac:(lia))
    as (o1 & Hl1 & Ha1 & Hd1 & Hb1 & Hg2).
  pose proof (run_op_step Keccak256_length false (OAddBalance a (behind_Balance b)) s1 _ ltac:(done) eq_refl Hw1 eq_refl)
    as [_ _ _ Hw2].
  set (s2 := AddBalance s1 a (behind_Balance b)) in *.
  pose proof (run_op_step Keccak256_length false (ORemoveFirstBehindBalance a) s2) as Hstep. cbn [run_op] in Hstep.
  unfold RemoveFirstBehindBalance in *. destruct (getStateObject_spec s2 a) as (s3 & E3 & Hc3). rewrite E3, Hl1 in *.
  rewrite Eb in Hb1. unfold so_RemoveFirstBehindBalance in *. rewrite Hb1 in Hstep |- *. cbn [bind] in *. eexists. split; [reflexivity|].
  split; [by eapply (st_wf _ _ _), Hstep|].
  assert (Hg3 : gains s2 s3 a 0) by (apply worth_lookup; intros; by eapply cached_lookup).
  assert (Hg4 : gains s3 (setStateObject s3 (setBehind o1 bs)) a (- behind_Balance b)).
  { pose proof (setStateObject_gains s3 o1 (setBehind o1 bs)) as H. rewrite Ha1 in H.
    replace (- behind_Balance b) with (owned (setBehind o1 bs) - owned o1).
    - apply H; [by rewrite (cached_lookup _ _ _ _ Hc3)|done|done].
    - unfold owned. simpl. rewrite Hb1. simpl. lia. }
  pose proof (gains_trans _ _ _ _ _ _ Hg1 (gains_trans _ _ _ _ _ _ Hg2 (gains_trans _ _ _ _ _ _ Hg3 Hg4))) as Hall.
  by replace (0 + (behind_Balance b + (0 + - behind_Balance b))) with 0 in Hall by lia.
Qed.

Lemma gains_0 s s' a : gains s s' a 0 → ∀ b, worth s' b = worth s b.
Proof. intros H b. rewrite (H b). case_decide; lia. Qed.

Lemma payouts_spec epoch header l s :
  wf s → ∃ s', payouts epoch header l s = Ok s' ∧ ∀ b, worth s' b = worth s b.
Proof using Keccak256_length.
  revert s. induction l as [|a l IH]; intros s Hw; cbn [payouts]; [eauto|].
  destruct (payout_spec epoch header s a Hw) as (s1 & -> & Hw1 & Hg). cbn [bind].
  destruct (IH s1 Hw1) as (s2 & -> & H2). exists s2. split; [done|]. intros b. rewrite H2. by eapply gains_0.
Qed.
End Payout.

(** C27: a block issues exactly its reward.  What each account owns (balance,
    stake and pending rewards) is unchanged by [accumulateRewards], except that
    the creator of the block gains the reward of the block; paying out matured
    rewards only moves them, and never fails. *)
Theorem accumulateRewards_issues_reward (c c' : BSRR) (chain : ChainReader StateDB) (s s' : StateDB)
    (header : Header) (Hk : ∀ b, length (Keccak256 b) = HashLength) (Hw : wf s)
    (Hacc : accumulateRewards c chain s header = Ok (s', c')) :
  ∃ reward, getReward (Config chain) header = Ok reward ∧
    ∀ a, worth s' a = worth s a + (if decide (a = Coinbase header) then reward else 0).
Proof.
  unfold accumulateRewards in Hacc. destruct (getReward _ _) as [reward| | |] eqn:Er; try done. cbn [bind] in Hacc.
  exists reward. split; [done|].
  pose proof (AddBehindBalance_gains s (Coinbase header) (num header) reward Hw) as Hg.
  pose proof (run_op_step Hk false (OAddBehindBalance (Coinbase header) (num header) reward) s _
    ltac:(done) eq_refl Hw eq_refl) as [_ _ _ Hw1].
  set (s1 := AddBehindBalance s (Coinbase header) (num header) reward) in *.
  destruct (Bsrr (Config chain)) as [b|]; [|done].
  destruct (getAncestor _ _ _) as [[t|]| | |]; try done; cbn [bind] in Hacc; [|by injection Hacc as <- _].
  destruct (getSigners c chain t) as [[l c1]| | |]; try done; [|by injection Hacc as <- _].
  destruct (payouts_spec Hk (Epoch b) header l s1 Hw1) as (s2 & E2 & H2). rewrite E2 in Hacc. cbn [bind] in Hacc.
  injection Hacc as <- _. intros a. rewrite H2. apply Hg.
Qed.
End Issuance.

(** ** The schedule on the main network

    Blocks are five seconds apart there, so the code's correction factor is one
    half: the reward starts at 26 (31 during the first 6,300,000 blocks), loses
    one half every 14,740,000 blocks, and the corrected half of it is paid. *)

(** The computation after the sections have been counted. *)
Definition reward_of (sections : Z) (first : bool) : Z :=
  let reward := f64_mul (f64_add (f64_sub (f64_of_Z 26) (f64_mul (with_sign false sections) (f64_div (f64_of_Z 1) (f64_of_Z 2))))
    (if first then f64_of_Z 5 else f64_of_Z 0)) one_half in
  if f64_leb reward (f64_of_Z 0) then 0
  else int64_of_f64 (f64_mul reward (f64_of_Z (10 ^ 10))) * 10 ^ 8.

Lemma reward_of_exact k first :
  0 ≤ k < 80 → reward_of k first = Z.max 0 (52 - k + (if first then 10 else 0)) * (10 ^ 18 / 4).
Proof.
  intros Hk.
  assert (Hall : forallb (λ n, forallb (λ f : bool, reward_of (Z.of_nat n) f =?
    Z.max 0 (52 - Z.of_nat n + (if f then 10 else 0)) * (10 ^ 18 / 4)) [true; false]) (seq 0 80) = true)
    by (vm_compute; reflexivity).
  rewrite forallb_forall in Hall. specialize (Hall (Z.to_nat k)).
  rewrite forallb_forall, Z2Nat.id in Hall by lia.
  apply Z.eqb_eq, Hall; [apply in_seq; lia|]. destruct first; simpl; auto.
Qed.

Lemma sections_exact n :
  2 ≤ n < 10 ^ 9 →
  math_Round (f64_div (f64_mul (f64_of_Z n) one_half) (f64_of_Z 7370000)) =
    with_sign false ((n + 7370000) / 14740000) ∧
  f64_leb (f64_mul (f64_of_Z n) one_half) (f64_of_Z 3150000) = (n <=? 6300000).
Proof.
  intros Hn. destruct (f64_of_Z_exact n) as (m & e & Heq & Hm & He & Hv); [lia|].
  rewrite Heq, f64_mul_half by (done || lia). split.
  - change (f64_of_Z 7370000) with (S754_finite false 7913477242880000 (-30)).
    rewrite f64_div_shift, <- Heq. change (S754_finite false _ (-30 + 1)) with (f64_of_Z 14740000).
    destruct (f64_div_rounds n 14740000) as (m' & e' & -> & _ & _ & Hr); [lia..|].
    cbn [math_Round]. rewrite Hr. f_equal.
    replace (2 * n + 14740000) with (2 * (n + 7370000)) by lia. by rewrite Z.div_mul_cancel_l by lia.
  - change (f64_of_Z 3150000) with (S754_finite false 6764573491200000 (-31)).
    rewrite f64_leb_shift, <- Heq. change (S754_finite false _ (-31 + 1)) with (f64_of_Z 6300000).
    apply f64_leb_Z; lia.
Qed.

(** For the main network's five second blocks the reward of every block of
    the first thousand million is exactly what the schedule says, in wei and
    with no rounding: nothing below the configured first rewarded block, then a
    quarter token for every one of [52 - k] half steps, [k] the number of
    sections of 14,740,000 blocks passed (rounded to nearest), ten quarters
    more up to block 6,300,000, and never a negative amount. *)
Theorem reward_schedule (config : ChainConfig) (b : BSRRConfig) (first : Z) (header : Header) :
  Bsrr config = Some b → Period b = 5 → Rewards b = Some first → 2 ≤ first < two64 →
  0 ≤ num header < 10 ^ 9 →
  getReward config header = Ok
    (if num header <? first then 0
     else Z.max 0 (52 - (num header + 7370000) / 14740000 + (if num header <=? 6300000 then 10 else 0))
          * (10 ^ 18 / 4)).
Proof.
  intros Hb Hp Hr Hf Hn. unfold getReward. rewrite Hb, Hr, Hp.
  rewrite !big_Uint64_small by word.
  destruct (Z.ltb_spec (num header) first); [done|].
  change (f64_div (f64_of_Z 5) (f64_of_Z DefaultBlockCreationSec)) with one_half.
  destruct (sections_exact (num header)) as [-> ->]; [lia|].
  rewrite <- reward_of_exact by (zdiv; lia).
  unfold reward_of. by case_match.
Qed.
