(* ===== verification/BsrrBlocks.v ===== *)
(** * Making blocks

    A header that the engine prepares, finalizes and seals is one that header
    verification accepts; and a toy network on which the theorems on headers,
    elections and rewards are applied. *)

From Stdlib Require Import ZArith Lia SpecFloat.
From stdpp Require Import base option list gmap sets strings.
From S2P Require Import Prelude GoFloat Params Group Rlp Types Account State StateRevert Funds Receipt Chain Dao.
From S2P Require Import Staking Selection Transition Bsrr BsrrProps BsrrStakers BsrrRewards.

Section Making.
Context {C : Crypto} {D : Database} {MO : MapOrder} {GR : GoRand} {SH : Sha256}.

(** Elections may extend the staking database; nothing else of the engine
    changes. *)
Lemma getStakers_config c c' chain n h l :
  getStakers c chain n h = Ok (l, c') → bsrr_config c' = bsrr_config c.
Proof.
  unfold getStakers. destruct (getStakers_loop _ _ _ _ _ _) as [[l0 [|b bs]]| | |]; try done; cbn [bind].
  - by intros [= _ <-].
  - destruct (checkBlocks _ _ _ _); try done. by intros [= _ <-].
Qed.

Lemma getMaxMiningCandidates_max c n : getMaxMiningCandidates c n ≤ MaxMiner.
Proof.
  unfold getMaxMiningCandidates. destruct (n =? 0); [done|]. cbv zeta.
  match goal with |- context [MaxMiner <? ?t] => destruct (Z.ltb_spec MaxMiner t); lia end.
Qed.

Lemma calcDifficultyAndRank_ok c c' chain addr target diff rank :
  calcDifficultyAndRank c addr chain target = Ok (diff, rank, c') →
  bsrr_config c' = bsrr_config c ∧ rank ≤ MaxMiner.
Proof.
  unfold calcDifficultyAndRank. destruct (num target =? 0); [by intros [= _ <- <-]|].
  destruct (getStakers _ _ _ _) as [[l c1]| | |] eqn:E; try done; [|by intros [= _ <- <-]].
  apply getStakers_config in E. destruct (StateAt _ _); try done; [|by intros [= _ <- <-]].
  destruct (SelectBlockCreator _ _ _ _); try done. cbn [bind].
  match goal with |- context [?m <? ?r] => destruct (Z.ltb_spec m r) as [Hlt|Hle] end.
  - by intros [= _ <- <-].
  - intros [= _ <- <-]. split; [done|]. pose proof (getMaxMiningCandidates_max c1 (Z.of_nat (base.size a0))). lia.
Qed.

Lemma preparedExtra_length e : length (preparedExtra e) = 97%nat.
Proof.
  unfold preparedExtra, len, extraVanity, extraSeal. rewrite length_app, length_replicate, length_take.
  destruct (Z.ltb_spec (Z.of_nat (length e)) 32); [rewrite length_app, length_replicate|]; lia.
Qed.

Lemma Finalize_header c c' chain h hd s s' txs :
  Finalize c chain h s txs = Ok (hd, s', c') → ∃ root, hd = with_final h root uncleHash.
Proof.
  unfold Finalize. intros Hfin.
  destruct (or_err (getStakers _ _ _ _) _) as [[? ?]| | |]; try done. cbn [bind] in Hfin.
  destruct (if negb _ then _ else _) as [[? ?]| | |]; try done. cbn [bind] in Hfin.
  destruct (or_err (setStakersWithTxs _ _ _ _ _ _) _) as [[? ?]| | |]; try done. cbn [bind] in Hfin.
  destruct (accumulateRewards _ _ _ _) as [[? ?]| | |]; try done. cbn [bind] in Hfin.
  destruct (IntermediateRoot _ _) as [[root ?]| | |]; try done. cbn [bind] in Hfin.
  injection Hfin as <- _ _. eauto.
Qed.

(** What [Prepare] writes: a rank between 1 and the maximum, and a time a
    period after the parent's. *)
Lemma Prepare_header c c' chain now header h n p :
  Number header = Some n → is_u64 n → 0 < n → now < two63 →
  GetHeader chain (ParentHash header) (n - 1) = Some p →
  0 ≤ Time p → 0 ≤ Period (bsrr_config c) → Time p + Period (bsrr_config c) < two63 →
  Prepare c chain now header = Ok (h, c') →
  ∃ diff rank time, h = with_prepared header diff (EncodeNonce rank) (preparedExtra (Extra header)) time ∧
    1 ≤ rank ≤ MaxMiner ∧ Time p + Period (bsrr_config c) ≤ time < two63.
Proof.
  intros Hn Hu Hpos Hnow Ep Ht0 Hp0 Hover. unfold Prepare.
  assert (Hnum : num header = n) by (unfold num; by rewrite Hn).
  rewrite Hnum, big_Uint64_small, u64_small, Ep by (unfold is_u64 in *; lia).
  destruct (getStakeTargetBlock _ _ _) as [[t|]| | |]; try done. cbn [bind].
  destruct (calcDifficultyAndRank _ _ _ _) as [[[diff rank] c4]| | |] eqn:Ed; try done. cbn [bind].
  destruct (calcDifficultyAndRank_ok _ _ _ _ _ _ _ Ed) as [-> Hmax].
  destruct (Z.ltb_spec rank 1) as [|Hrank]; [done|]. intros [= <- _].
  eexists _, rank, _. split; [by rewrite u64_small by (unfold MaxMiner in Hmax; word)|]. split; [done|].
  unfold big_Int64. rewrite i64_small by word. destruct (Z.ltb_spec (Time p + Period (bsrr_config c)) now); lia.
Qed.

(** A header with the parent, rank and time that [Prepare] writes passes, with
    any seal. *)
Lemma prepared_passes (chain : ChainReader StateDB) (L : ChainLaws chain) (c : BSRR) (hd p : Header) (n rank later : Z) :
  Number hd = Some n → is_u64 n → 0 < n → 0 < Epoch (bsrr_config c) → EIP150Hash (Config chain) = zeroHash →
  GetHeader chain (ParentHash hd) (n - 1) = Some p →
  0 ≤ Time p → 0 ≤ Period (bsrr_config c) → Time hd < two63 →
  Nonce hd = EncodeNonce rank → 1 ≤ rank ≤ MaxMiner → Time p + Period (bsrr_config c) ≤ Time hd ≤ later →
  length (Extra hd) = 97%nat → MixDigest hd = zeroHash → UncleHash hd = uncleHash →
  verifyHeader c chain later hd [] = Ok tt.
Proof.
  intros Hn Hu Hpos Hepoch Hreprice Hparent Ht0 Hp0 Ht1 Hnonce Hrank [Ht Hlater] He Hmix Huncle. destruct (GetHeader_spec _ _ _ Hparent) as (Hph & Hpn & Hpu).
  assert (Hnum : num hd = n) by (unfold num; by rewrite Hn). assert (Hmm : MaxMiner < two63) by (unfold MaxMiner; word).
  assert (Hlen : len (Extra hd) = 97) by (unfold len; by rewrite He).
  apply (verifyHeader_rules c chain later hd [] n Hn Hu Hpos Hepoch). split; rewrite ?Hlen; try done; [by case_match| | |].
  - rewrite Hnonce, Nonce_round_trip by word. lia.
  - unfold VerifyForkHashes. rewrite Hreprice, (bool_decide_eq_true_2 (zeroHash = zeroHash) eq_refl). repeat case_match; done.
  - exists p. rewrite Hnum. split; [unfold parent_of; cbn [last]; by rewrite Hnum|].
    assert (Hnp : num p = n - 1) by (unfold num; by rewrite Hpn). rewrite Hnp, !big_Uint64_small, u64_small by (done || word).
    split_and!; [done..|lia].
Qed.

(** C24: a block of our own is valid.  When [Prepare] succeeds for a header, and
    [Finalize] then builds the block, any sealing of it by 65 bytes passes
    header verification on every node whose clock has reached the time of the
    header: the rank written to the nonce, the time, the extra data, the mix
    digest and the uncle hash are what the rules demand. *)
Theorem Prepare_verifies (chain : ChainReader StateDB) (L : ChainLaws chain) (c c1 c2 c3 : BSRR) (now : Z)
    (header h hd p : Header) (s s' : StateDB) (txs : list txdata) (seal : bytes) (n later : Z)
    (Hn : Number header = Some n) (Hu : is_u64 n) (Hpos : 0 < n) (Hepoch : 0 < Epoch (bsrr_config c))
    (Hreprice : EIP150Hash (Config chain) = zeroHash)
    (Hparent : GetHeader chain (ParentHash header) (n - 1) = Some p)
    (Htime : 0 ≤ Time p) (Hperiod : 0 ≤ Period (bsrr_config c))
    (Hrange : Time p + Period (bsrr_config c) < two63) (Hnow : now < two63)
    (Hprep : Prepare c chain now header = Ok (h, c1))
    (Hfin : Finalize c2 chain h s txs = Ok (hd, s', c3))
    (Hseal : length seal = 65%nat) (Hlater : Time hd ≤ later) :
  verifyHeader c chain later (with_Extra hd (take 32 (Extra hd) ++ seal)) [] = Ok tt.
Proof.
  destruct (Prepare_header c c1 chain now header h n p) as (diff & rank & time & -> & Hrank & Ht); [done..|].
  destruct (Finalize_header _ _ _ _ _ _ _ _ Hfin) as [root ->]. apply (prepared_passes chain L c _ p n rank later); try done; [cbn; lia|cbn in Hlater |- *; lia|].
  cbn [with_Extra with_final with_prepared Extra]. rewrite length_app, length_take, preparedExtra_length, Hseal. done.
Qed.
End Making.

(** ** The theorems at work on the toy chain *)
Module ToyBlocks.
#[local] Existing Instances ToyChain.toyCrypto ToyState.toyDatabase ToyChain.toyRange ToyChain.toyRand ToyChain.toySha.
Import ToyChain.

Definition toy_now : Z := 1000.

Definition state0 : StateDB := ToyState.toy_state {[ staker := ToyState.toy_object staker 10 [] ]}.

Definition header_at (n : Z) (parent : Hash) (extra : bytes) : Header := {|
  ParentHash := parent; UncleHash := zeroHash; Coinbase := staker; Root := zeroHash;
  TxHash := zeroHash; ReceiptHash := zeroHash; Bloom := []; Difficulty := 0; Number := Some n;
  GasLimit := 1000000; GasUsed := 0; Time := 0; Extra := extra; MixDigest := zeroHash; Nonce := replicate 8 0
|}.

(** The block to be made after [header1], and one in the rewarded range. *)
Definition header2 : Header := header_at 2 (Header_Hash header1) [1; 2; 3].
Definition header400 : Header := header_at 400 zeroHash (replicate 97 0).


Lemma seal_not_verified_witness :
  let h' := with_Extra header1 (replicate 32 0 ++ replicate 65 1) in
  verifyHeader engine chain toy_now h' [] = verifyHeader engine chain toy_now header1 [] ∧
  Finalize engine chain h' state0 [] =
    (let* (hd, s, c) := Finalize engine chain header1 state0 [] in
     Ok (with_Extra hd (replicate 32 0 ++ replicate 65 1), s, c)).
Proof.
  eapply (seal_not_verified engine chain toy_now header1 (replicate 32 0) (replicate 65 0) (replicate 65 1) [] state0 []);
    reflexivity.
Defined.

Lemma getStakeTargetBlock_schedule_witness :
  ∃ r, getStakeTargetBlock engine chain (Some header1) = Ok r ∧
    ∀ t, r = Some t → num t = 0 ∧ HasBlockAndState chain (Header_Hash t) (num t) = true ∧
      (2 * 360 ≤ 1 → ancestor chain header1 t).
Proof.
  apply (getStakeTargetBlock_schedule chain engine header1); vm_compute; split; congruence.
Defined.

Lemma is_ok_inv {A} (r : result A) : is_ok r = true → ∃ x, r = Ok x.
Proof. destruct r; [eauto|done..]. Defined.

Lemma state0_wf : wf state0.
Proof. split; simpl; try done; intros b o; rewrite lookup_singleton_Some; by intros [<- <-]. Qed.

Lemma toy_length b : length (Keccak256 b) = HashLength.
Proof. cbn [Keccak256 toyCrypto]. unfold set_bytes. case_match eqn:E; rewrite ?length_app, ?length_replicate, ?length_drop;
  [apply Nat.leb_le in E|apply Nat.leb_gt in E]; lia. Qed.

Lemma rewards_succeed : is_ok (accumulateRewards engine chain state0 header400) = true.
Proof. vm_compute. reflexivity. Qed.

Lemma accumulateRewards_witness :
  ∃ s' c', accumulateRewards engine chain state0 header400 = Ok (s', c') ∧
    ∃ reward, getReward (Config chain) header400 = Ok reward ∧
      ∀ a, worth s' a = worth state0 a + (if decide (a = staker) then reward else 0).
Proof.
  destruct (is_ok_inv _ rewards_succeed) as [[s' c'] E].
  exists s', c'. split; [exact E|].
  exact (accumulateRewards_issues_reward engine c' chain state0 s' header400 toy_length state0_wf E).
Defined.

Lemma reward_schedule_witness :
  getReward MainnetChainConfig header400 = Ok (62 * (10 ^ 18 / 4)).
Proof.
  eapply (reward_schedule MainnetChainConfig _ 360 header400); [reflexivity..| |]; vm_compute; split; congruence.
Defined.

(** Preparing and finalizing the second block. *)
Definition made : result (Header * BSRR * Header * StateDB * BSRR) :=
  let* (h, c1) := Prepare engine chain toy_now header2 in
  let* (hd, s, c3) := Finalize c1 chain h state0 [] in
  Ok (h, c1, hd, s, c3).

Definition made_time : Z := match made with Ok (_, _, hd, _, _) => Time hd | _ => 0 end.

Lemma made_ok : is_ok made = true ∧ made_time ≤ toy_now.
Proof. split; vm_compute; congruence. Qed.

Lemma made_inv : ∃ h c1 hd s c3,
  Prepare engine chain toy_now header2 = Ok (h, c1) ∧ Finalize c1 chain h state0 [] = Ok (hd, s, c3) ∧
  Time hd ≤ toy_now.
Proof.
  destruct made_ok as [H Ht]. unfold made_time in Ht. unfold made in *.
  destruct (Prepare engine chain toy_now header2) as [[h c1]| | |]; try discriminate H. cbn [bind] in *.
  destruct (Finalize c1 chain h state0 []) as [[[hd s] c3]| | |] eqn:Ef; try discriminate H. cbn [bind] in *.
  exists h, c1, hd, s, c3. split; [reflexivity|]. split; [exact Ef|exact Ht].
Qed.

Lemma parent2 : GetHeader chain (ParentHash header2) (2 - 1) = Some header1.
Proof. vm_compute. reflexivity. Qed.

Lemma Prepare_verifies_witness :
  ∃ h c1 hd s' c3, Prepare engine chain toy_now header2 = Ok (h, c1) ∧
    Finalize c1 chain h state0 [] = Ok (hd, s', c3) ∧
    verifyHeader engine chain toy_now (with_Extra hd (take 32 (Extra hd) ++ replicate 65 9)) [] = Ok tt.
Proof.
  destruct made_inv as (h & c1 & hd & s & c3 & Hp & Hf & Ht). exists h, c1, hd, s, c3.
  split; [exact Hp|]. split; [exact Hf|].
  refine (Prepare_verifies chain chainLaws engine c1 c1 c3 toy_now header2 h hd header1 state0 s [] (replicate 65 9)
    2 toy_now eq_refl _ eq_refl eq_refl eq_refl parent2 _ _ _ _ Hp Hf eq_refl Ht);
    vm_compute; repeat split; congruence.
Defined.
End ToyBlocks.
