(* ===== verification/BlockChain.v ===== *)
(** * The block chain ([core/blockchain.go])

    Blocks of all branches are stored; the canonical numbers select one branch,
    that of the current block.  A heavier branch becomes canonical by
    reorganisation.  The caches hold what the database has under the same hash;
    they, the locks, the subscriptions, the log of bad blocks and the shutdown
    flag are left out.  Coins and clocks are arguments. *)

From Stdlib Require Import ZArith Lia.
From stdpp Require Import base option list gmap sets strings sorting.
From S2P Require Import Prelude GoFloat Params Rlp Types Account State Receipt DeriveSha Chain ChainStore HeaderChain.
From S2P Require Import Staking Transition Selection Bsrr.

(** ** Parameters *)

(** What writing to and pruning the disk does to the state database: the trie
    database's [Commit] of a root, and [Has] and [Delete] of its disk. *)
Class DiskStore `{D : Database} := {
  triedb_Commit : DB → Hash → result DB;
  disk_Has : DB → Hash → bool;
  disk_Delete : DB → Hash → result DB
}.

(** The queue of future blocks, an [lru.Cache] by hash. *)
Class BlockQueue := {
  queue : Type;
  queue_Add : queue → Hash → Block → queue;
  queue_Remove : queue → Hash → queue;
  queue_Contains : queue → Hash → bool;
  queue_Keys : queue → list Hash;
  queue_Peek : queue → Hash → option Block;
  queue_Purge : queue → queue
}.

Section BlockChain.
Context {C : Crypto} {D : Database} {MO : MapOrder} {DS : DiskStore} {BQ : BlockQueue}.

(** [archive] is [cacheConfig.Disabled]. *)
Record BlockChain := {
  chainConfig : ChainConfig;
  archive : bool;
  triesInMemory : Z;
  shouldPreserve : option (Block → bool);
  hc : HeaderChain;
  stateCache : DB;
  genesisBlock : Block;
  currentBlock : option Block;
  currentFastBlock : option Block;
  futureBlocks : queue
}.

Implicit Types (bc : BlockChain) (hash : Hash) (number : Z).

Definition put_hc bc (h : HeaderChain) : BlockChain := {|
  chainConfig := chainConfig bc; archive := archive bc; triesInMemory := triesInMemory bc; shouldPreserve := shouldPreserve bc; hc := h;
  stateCache := stateCache bc; genesisBlock := genesisBlock bc; currentBlock := currentBlock bc; currentFastBlock := currentFastBlock bc;
  futureBlocks := futureBlocks bc |}.
Definition put_stateCache bc (d : DB) : BlockChain := {|
  chainConfig := chainConfig bc; archive := archive bc; triesInMemory := triesInMemory bc; shouldPreserve := shouldPreserve bc; hc := hc bc;
  stateCache := d; genesisBlock := genesisBlock bc; currentBlock := currentBlock bc; currentFastBlock := currentFastBlock bc;
  futureBlocks := futureBlocks bc |}.
Definition put_blocks bc (current fast : option Block) : BlockChain := {|
  chainConfig := chainConfig bc; archive := archive bc; triesInMemory := triesInMemory bc; shouldPreserve := shouldPreserve bc; hc := hc bc;
  stateCache := stateCache bc; genesisBlock := genesisBlock bc; currentBlock := current; currentFastBlock := fast;
  futureBlocks := futureBlocks bc |}.
Definition put_future bc (q : queue) : BlockChain := {|
  chainConfig := chainConfig bc; archive := archive bc; triesInMemory := triesInMemory bc; shouldPreserve := shouldPreserve bc; hc := hc bc;
  stateCache := stateCache bc; genesisBlock := genesisBlock bc; currentBlock := currentBlock bc; currentFastBlock := currentFastBlock bc;
  futureBlocks := q |}.
Definition put_genesis bc (b : Block) : BlockChain := {|
  chainConfig := chainConfig bc; archive := archive bc; triesInMemory := triesInMemory bc; shouldPreserve := shouldPreserve bc; hc := hc bc;
  stateCache := stateCache bc; genesisBlock := b; currentBlock := currentBlock bc; currentFastBlock := currentFastBlock bc;
  futureBlocks := futureBlocks bc |}.

Definition bdb bc : ChainDb := chainDb (hc bc).
Definition put_bdb bc (db : ChainDb) : BlockChain := put_hc bc (put_chainDb (hc bc) db).

(** ** Reading *)

Definition bc_GetTd bc hash number : option Z := hc_GetTd (hc bc) hash number.
Definition bc_GetBlock bc hash number : option Block := ReadBlock (bdb bc) hash number.
Definition bc_GetBlockByHash bc hash : option Block := number ← hc_GetBlockNumber (hc bc) hash; bc_GetBlock bc hash number.

Definition bc_GetBlockByNumber bc number : option Block :=
  let hash := ReadCanonicalHash (bdb bc) number in
  if bool_decide (hash = zeroHash) then None else bc_GetBlock bc hash number.

Definition HasBlock bc hash number : bool := HasBody (bdb bc) hash number.
Definition HasFastBlock bc hash number : bool := HasBlock bc hash number && HasReceipts (bdb bc) hash number.
Definition HasState bc (root : Hash) : bool := match OpenTrie (stateCache bc) root with Ok _ => true | _ => false end.

Definition bc_HasBlockAndState bc hash number : bool :=
  match bc_GetBlock bc hash number with None => false | Some b => HasState bc (Root (block_header b)) end.

Definition GetReceiptsByHash bc hash : list Receipt :=
  match hc_GetBlockNumber (hc bc) hash with None => [] | Some number => ReadReceipts (bdb bc) hash number end.

Fixpoint blocks_from (n : nat) bc hash number : list Block :=
  match n with
  | O => []
  | S n =>
      match bc_GetBlock bc hash number with
      | None => []
      | Some b => b :: blocks_from n bc (ParentHash (block_header b)) (u64 (number - 1))
      end
  end.

Definition GetBlocksFromHash bc hash (n : Z) : list Block :=
  match hc_GetBlockNumber (hc bc) hash with None => [] | Some number => blocks_from (Z.to_nat n) bc hash number end.

(** The chain as the consensus engine, the processor and the pool see it. *)
Definition reader_of bc : ChainReader StateDB := {|
  Config := chainConfig bc;
  CurrentHeader := currentHeader (hc bc);
  GetHeader := hc_GetHeader (hc bc);
  GetHeaderByNumber := hc_GetHeaderByNumber (hc bc);
  GetBlock := bc_GetBlock bc;
  StateAt := λ root, New root (stateCache bc);
  HasBlockAndState := bc_HasBlockAndState bc
|}.

(** ** The canonical chain *)

(** [insert]; its last line prints the number of the current header. *)
Definition insert bc (b : Block) : result BlockChain :=
  let hash := Block_Hash b in
  let updateHeads := negb (bool_decide (ReadCanonicalHash (bdb bc) (NumberU64 b) = hash)) in
  let bc := put_bdb bc (WriteHeadBlockHash (WriteCanonicalHash (bdb bc) hash (NumberU64 b)) hash) in
  let bc := put_blocks bc (Some b) (currentFastBlock bc) in
  let bc :=
    if updateHeads then
      let bc := put_hc bc (SetCurrentHeader (hc bc) (block_header b)) in
      put_blocks (put_bdb bc (WriteHeadFastBlockHash (bdb bc) hash)) (Some b) (Some b)
    else bc in
  match currentHeader (hc bc) with None => nil_deref | Some _ => Ok bc end.

(** The parent of a block. *)
Definition parent_of bc (b : Block) : option Block := bc_GetBlock bc (ParentHash (block_header b)) (u64 (NumberU64 b - 1)).

(** Down to the number [n]: the block there, and the blocks above it, the highest
    first.  Numbers fall. *)
Fixpoint reduce_to (fuel : nat) bc (n : Z) (b : option Block) (above : list Block) : result (option Block * list Block) :=
  match b with
  | None => Ok (None, above)
  | Some b =>
      if NumberU64 b =? n then Ok (Some b, above)
      else match fuel with O => Hang | S fuel => reduce_to fuel bc n (parent_of bc b) (above ++ [b]) end
  end.

(** Both branches down to their common block. *)
Fixpoint meet (fuel : nat) bc (old new : Block) (oldChain newChain : list Block)
  : result ((Block * list Block * list Block) + string) :=
  if bool_decide (Block_Hash old = Block_Hash new) then Ok (inl (old, oldChain, newChain))
  else
    match fuel with
    | O => Hang
    | S fuel =>
        match parent_of bc old with
        | None => Ok (inr "Invalid old chain")
        | Some old' =>
            match parent_of bc new with
            | None => Ok (inr "Invalid new chain")
            | Some new' => meet fuel bc old' new' (oldChain ++ [old]) (newChain ++ [new])
            end
        end
    end.

(** The blocks from the lowest one, with their transactions indexed. *)
Fixpoint adopt bc (blocks : list Block) : result BlockChain :=
  match blocks with
  | [] => Ok bc
  | b :: blocks => let* bc := insert bc b in adopt (put_bdb bc (WriteTxLookupEntries (bdb bc) b)) blocks
  end.

Definition txs_of_blocks (l : list Block) : list txdata := concat (block_transactions <$> l).

Definition forget_lookups (db : ChainDb) (txs : list txdata) : ChainDb :=
  foldl (λ db tx, DeleteTxLookupEntry db (Tx_Hash tx)) db txs.

(** The first loop of [reorg] brings the higher block down. *)
Definition level bc (old new : Block) : result (option Block * option Block * list Block * list Block) :=
  if NumberU64 new <? NumberU64 old then
    let* (o, above) := reduce_to (Z.to_nat (NumberU64 old)) bc (NumberU64 new) (Some old) [] in Ok (o, Some new, above, [])
  else
    let* (n, above) := reduce_to (Z.to_nat (NumberU64 new)) bc (NumberU64 old) (Some new) [] in Ok (Some old, n, [], above).

(** Logs and blocks that are no longer canonical are announced to subscribers;
    that is left out. *)
Definition reorg bc (old new : Block) : result (option string * BlockChain) :=
  let* (o, n, oldChain, newChain) := level bc old new in
  match o, n with
  | None, _ => Ok (Some "Invalid old chain", bc)
  | _, None => Ok (Some "Invalid new chain", bc)
  | Some o, Some n =>
      let* r := meet (Z.to_nat (NumberU64 o)) bc o n oldChain newChain in
      match r with
      | inr e => Ok (Some e, bc)
      | inl (_, oldChain, newChain) =>
          let* bc := adopt bc (reverse newChain) in
          let diff := TxDifference (txs_of_blocks oldChain) (txs_of_blocks (reverse newChain)) in
          Ok (None, put_bdb bc (forget_lookups (bdb bc) diff))
      end
  end.

(** ** Writing blocks *)

Definition WriteBlockWithoutState bc (b : Block) (td : Z) : BlockChain :=
  let bc := put_hc bc (hc_WriteTd (hc bc) (Block_Hash b) (NumberU64 b) td) in
  put_bdb bc (WriteBlock (bdb bc) b).

(** The states of blocks far back are deleted, down to one that is gone.  Every
    number it visits is canonical, which bounds the loop. *)
Fixpoint prune (fuel : nat) bc (d : DB) (target : Z) : result (option string * DB) :=
  if target =? 0 then Ok (None, d)
  else
    match hc_GetHeaderByNumber (hc bc) target with
    | None => nil_deref
    | Some h =>
        if negb (disk_Has d (Root h)) then Ok (None, d)
        else
          match disk_Delete d (Root h) with
          | Err e => Ok (Some e, d)
          | Panic w => Panic w
          | Hang => Hang
          | Ok d => match fuel with O => Hang | S fuel => prune fuel bc d (target - 1) end
          end
    end.

(** Whether the block becomes the head: [mrand.Float64() < 0.5] is [coin]. *)
Definition better bc (coin : bool) (current b : Block) (localTd externTd : Z) : bool :=
  if localTd <? externTd then true
  else if externTd =? localTd then
    if NumberU64 b <? NumberU64 current then true
    else if NumberU64 b =? NumberU64 current then
      let '(currentPreserve, blockPreserve) :=
        match shouldPreserve bc with Some f => (f current, f b) | None => (false, false) end in
      negb currentPreserve && (blockPreserve || coin)
    else false
  else false.

(** Committing the state: to memory, to disk, and pruning. *)
Definition write_state bc (b : Block) (s : StateDB) : result (option string * BlockChain) :=
  match State.Commit s (IsEIP158 (chainConfig bc) (Number (block_header b))) with
  | Err e => Ok (Some e, bc)
  | Panic w => Panic w
  | Hang => Hang
  | Ok (root, s) =>
      match triedb_Commit (State.db s) root with
      | Err e => Ok (Some e, put_stateCache bc (State.db s))
      | Panic w => Panic w
      | Hang => Hang
      | Ok d =>
          if negb (archive bc) && (NumberU64 b mod CleanCycle =? 0) then
            let* (err, d) := prune (S (size (canonicalHashes (bdb bc)))) bc d (u64 (NumberU64 b - triesInMemory bc - 1)) in
            Ok (err, put_stateCache bc d)
          else Ok (None, put_stateCache bc d)
      end
  end.

(** The batch has the receipts, and for a canonical block its index. *)
Definition WriteBlockWithState bc (coin : bool) (b : Block) (receipts : list Receipt) (s : StateDB)
  : result ((WriteStatus + string) * BlockChain) :=
  match bc_GetTd bc (ParentHash (block_header b)) (u64 (NumberU64 b - 1)) with
  | None => Ok (inr ErrUnknownAncestor, bc)
  | Some ptd =>
      match currentBlock bc with
      | None => nil_deref
      | Some current =>
          let localTd := bc_GetTd bc (Block_Hash current) (NumberU64 current) in
          let externTd := Difficulty (block_header b) + ptd in
          let bc := WriteBlockWithoutState bc b externTd in
          let* (err, bc) := write_state bc b s in
          match err, localTd with
          | Some e, _ => Ok (inr e, bc)
          | None, None => nil_deref
          | None, Some localTd =>
              if better bc coin current b localTd externTd then
                let* (err, bc) :=
                  if bool_decide (ParentHash (block_header b) = Block_Hash current) then Ok (None, bc) else reorg bc current b in
                match err with
                | Some e => Ok (inr e, bc)
                | None =>
                    let db := WriteReceipts (bdb bc) (Block_Hash b) (NumberU64 b) receipts in
                    let db := WritePreimages (WriteTxLookupEntries db b) (State.preimages s) in
                    let* bc := insert (put_bdb bc db) b in
                    Ok (inl CanonStatTy, put_future bc (queue_Remove (futureBlocks bc) (Block_Hash b)))
                end
              else
                let bc := put_bdb bc (WriteReceipts (bdb bc) (Block_Hash b) (NumberU64 b) receipts) in
                Ok (inl SideStatTy, put_future bc (queue_Remove (futureBlocks bc) (Block_Hash b)))
          end
      end
  end.
End BlockChain.
