(* ===== verification/BlockChainLoad.v ===== *)
(** * Opening, rewinding and fast-filling a chain

    [core/genesis.go]: the genesis block and its commit; [core/blockchain.go]:
    loading the head, [SetHead], [Reset], [repair], [Rollback], and the receipts
    of fast synchronisation.  The chain configuration that the database keeps
    next to the genesis block, as JSON, is left out. *)

From Stdlib Require Import ZArith Lia.
From stdpp Require Import base option list gmap sets strings sorting.
From S2P Require Import Prelude GoFloat Params Rlp Types Account State Receipt DeriveSha Chain ChainStore HeaderChain.
From S2P Require Import Staking Transition Evm Selection Bsrr BlockChain.

(** ** The genesis block *)

Definition GenesisGasLimit : Z := 4712388.
Definition GenesisDifficulty : Z := 131072.

Record GenesisAccount := {
  ga_Code : option bytes;
  ga_Storage : gmap Hash Hash;
  ga_Balance : Z;
  ga_Nonce : Z
}.

Record Genesis := {
  gen_Nonce : Z;
  gen_Timestamp : Z;
  gen_ExtraData : bytes;
  gen_GasLimit : Z;
  gen_Difficulty : option Z;
  gen_Mixhash : Hash;
  gen_Coinbase : Address;
  gen_Alloc : gmap Address GenesisAccount;
  gen_Number : Z;
  gen_GasUsed : Z;
  gen_ParentHash : Hash
}.

Definition with_body (h : Header) (tx receipt uncle : Hash) (bloom : bytes) : Header := {|
  ParentHash := ParentHash h; UncleHash := uncle; Coinbase := Coinbase h; Root := Root h;
  TxHash := tx; ReceiptHash := receipt; Bloom := bloom; Difficulty := Difficulty h;
  Number := Number h; GasLimit := GasLimit h; GasUsed := GasUsed h; Time := Time h; Extra := Extra h;
  MixDigest := MixDigest h; Nonce := Nonce h
|}.

Section Load.
Context {C : Crypto} {D : Database} {MO : MapOrder} {DS : DiskStore} {BQ : BlockQueue}.
Implicit Types (bc : BlockChain) (db : ChainDb) (hash : Hash) (number : Z).

(** [types.NewBlock]; the roots of empty lists are constants of the package. *)
Definition NewBlock (header : Header) (txs : list txdata) (uncles : list Header) (receipts : list Receipt) : result Block :=
  let* tx := DeriveSha (Transactions_GetRlp txs) in
  let* receipt := match receipts with [] => DeriveSha (Transactions_GetRlp []) | _ => DeriveSha (Receipts_GetRlp receipts) end in
  let* bloom := match receipts with [] => Ok (Bloom header) | _ => CreateBloom receipts end in
  Ok {| block_header := with_body header tx receipt (CalcUncleHash uncles) bloom; block_transactions := txs; block_uncles := uncles |}.

(** One account of [g.Alloc], and its storage in the order of the map. *)
Definition alloc_account (s : StateDB) (addr : Address) (a : GenesisAccount) : StateDB :=
  let s := SetNonce (SetCode (AddBalance s addr (ga_Balance a)) addr (ga_Code a)) addr (ga_Nonce a) in
  foldl (λ s key, SetState s addr key (default zeroHash (ga_Storage a !! key))) s (range (dom (ga_Storage a))).

Definition genesis_state (g : Genesis) (s : StateDB) : StateDB :=
  foldl (λ s addr, match gen_Alloc g !! addr with Some a => alloc_account s addr a | None => s end) s (range (dom (gen_Alloc g))).

(** The block, and the state database with its state.  Errors of the commits
    are dropped. *)
Definition ToBlock (g : Genesis) (d : DB) : result (Block * DB) :=
  match New zeroHash d with
  | Ok s =>
      let* (root, s) := IntermediateRoot (genesis_state g s) false in
      let head := {|
        ParentHash := gen_ParentHash g; UncleHash := zeroHash; Coinbase := gen_Coinbase g; Root := root; TxHash := zeroHash;
        ReceiptHash := zeroHash; Bloom := replicate 256 0; Difficulty := default GenesisDifficulty (gen_Difficulty g);
        Number := Some (gen_Number g); GasLimit := if gen_GasLimit g =? 0 then GenesisGasLimit else gen_GasLimit g;
        GasUsed := gen_GasUsed g; Time := gen_Timestamp g; Extra := gen_ExtraData g; MixDigest := gen_Mixhash g;
        Nonce := EncodeNonce (gen_Nonce g) |} in
      let* d :=
        match State.Commit s false with
        | Ok (_, s) => match triedb_Commit (State.db s) root with Ok d => Ok d | Err _ => Ok (State.db s) | Panic w => Panic w | Hang => Hang end
        | Err _ => Ok (State.db s)
        | Panic w => Panic w
        | Hang => Hang
        end in
      let* b := NewBlock head [] [] [] in
      Ok (b, d)
  | Err _ => nil_deref
  | Panic w => Panic w
  | Hang => Hang
  end.

(** What [Commit] writes of the block; a missing difficulty is encoded as zero. *)
Definition write_genesis db (b : Block) (difficulty : option Z) : ChainDb :=
  let hash := Block_Hash b in
  let db := WriteBlock (WriteTd db hash (NumberU64 b) (default 0 difficulty)) b in
  let db := WriteCanonicalHash (WriteReceipts db hash (NumberU64 b) []) hash (NumberU64 b) in
  WriteHeadHeaderHash (WriteHeadBlockHash db hash) hash.

Definition Genesis_Commit (g : Genesis) (d : DB) db : result ((Block + string) * DB * ChainDb) :=
  let* (b, d) := ToBlock g d in
  if num (block_header b) =? 0 then Ok (inl b, d, write_genesis db b (gen_Difficulty g))
  else Ok (inr "can't commit genesis block with number > 0", d, db).

(** ** Loading the head *)

(** Whether [state.New] succeeds. *)
Definition state_opens bc (root : Hash) : result bool :=
  match New root (stateCache bc) with Ok _ => Ok true | Err _ => Ok false | Panic w => Panic w | Hang => Hang end.

(** Down from [head] to a block with a state; numbers fall. *)
Fixpoint repair (fuel : nat) bc (head : Block) : result (Block + string) :=
  let* ok := state_opens bc (Root (block_header head)) in
  if (ok : bool) then Ok (inl head)
  else
    match parent_of bc head with
    | None => Ok (inr "missing block")
    | Some b => match fuel with O => Hang | S fuel => repair fuel bc b end
    end.

(** The other heads, where they are found. *)
Definition restore_heads bc (current : Block) : BlockChain :=
  let header :=
    if bool_decide (headHeaderHash (bdb bc) = zeroHash) then block_header current
    else default (block_header current) (hc_GetHeaderByHash (hc bc) (headHeaderHash (bdb bc))) in
  let bc := put_hc bc (SetCurrentHeader (hc bc) header) in
  let fast :=
    if bool_decide (headFastBlockHash (bdb bc) = zeroHash) then current
    else default current (bc_GetBlockByHash bc (headFastBlockHash (bdb bc))) in
  put_blocks bc (Some current) (Some fast).

(** [reset] is [bc.Reset]. *)
Definition loadLastState (reset : BlockChain → result (option string * BlockChain)) bc : result (option string * BlockChain) :=
  let head := headBlockHash (bdb bc) in
  if bool_decide (head = zeroHash) then reset bc
  else
    match bc_GetBlockByHash bc head with
    | None => reset bc
    | Some current =>
        let* r := repair (Z.to_nat (NumberU64 current)) bc current in
        match r with
        | inr e => Ok (Some e, bc)
        | inl current => Ok (None, restore_heads bc current)
        end
    end.

(** ** Rewinding *)

(** [Load] of a head that was never stored. *)
Definition never_stored {A} : result A := Panic "interface conversion: interface {} is nil".

(** The heads after the headers were rewound to [h]. *)
Definition rewind_blocks bc (h : Header) : result BlockChain :=
  let number := big_Uint64 (num h) in
  let back b := if number <? NumberU64 b then bc_GetBlock bc (Header_Hash h) number else Some b in
  let* current :=
    match currentBlock bc with
    | None => never_stored
    | Some b =>
        match back b with
        | Some b => let* ok := state_opens bc (Root (block_header b)) in Ok (if ok : bool then b else genesisBlock bc)
        | None => Ok (genesisBlock bc)
        end
    end in
  let* fast := match currentFastBlock bc with None => never_stored | Some b => Ok (default (genesisBlock bc) (back b)) end in
  let bc := put_blocks bc (Some current) (Some fast) in
  Ok (put_bdb bc (WriteHeadFastBlockHash (WriteHeadBlockHash (bdb bc) (Block_Hash current)) (Block_Hash fast))).

(** [ResetWithGenesisBlock]; [rewound] is [bc.SetHead(0)]. *)
Definition ResetWithGenesisBlock (rewound : BlockChain → result (option string * BlockChain)) bc (genesis : Block)
  : result (option string * BlockChain) :=
  let* (err, bc) := rewound bc in
  match err with
  | Some e => Ok (Some e, bc)
  | None =>
      let bc := WriteBlockWithoutState bc genesis (Difficulty (block_header genesis)) in
      let* bc := insert (put_genesis bc genesis) genesis in
      let hdr := block_header genesis in
      Ok (None, put_blocks (put_hc bc (SetCurrentHeader (SetGenesis (hc bc) hdr) hdr)) (Some genesis) (Some genesis))
  end.

(** [SetHead] and [Reset] call each other when the head block is missing: [fuel]
    bounds the resets. *)
Fixpoint SetHead (fuel : nat) bc (head : Z) : result (option string * BlockChain) :=
  let* h := hc_SetHead (hc bc) head true in
  let bc := put_future (put_hc bc h) (queue_Purge (futureBlocks bc)) in
  match currentHeader h with
  | None => nil_deref
  | Some hdr =>
      let* bc := rewind_blocks bc hdr in
      loadLastState (λ bc, match fuel with
                           | O => Hang
                           | S fuel => ResetWithGenesisBlock (λ bc, SetHead fuel bc 0) bc (genesisBlock bc)
                           end) bc
  end.

Definition Reset (fuel : nat) bc : result (option string * BlockChain) :=
  ResetWithGenesisBlock (λ bc, SetHead fuel bc 0) bc (genesisBlock bc).

(** The hash of a header that may be nil, and making it the current one. *)
Definition header_hash (h : option Header) : Hash := match h with Some h => Header_Hash h | None => nil_Header_Hash end.

Definition set_current_header (h : HeaderChain) (head : option Header) : HeaderChain :=
  put_current (put_chainDb h (WriteHeadHeaderHash (chainDb h) (header_hash head))) head (header_hash head).

(** [Rollback] takes the hashes from the last one. *)
Definition rollback_one bc hash : result BlockChain :=
  let* bc :=
    if bool_decide (header_hash (currentHeader (hc bc)) = hash) then
      match currentHeader (hc bc) with
      | None => nil_deref
      | Some h => Ok (put_hc bc (set_current_header (hc bc) (hc_GetHeader (hc bc) (ParentHash h) (u64 (big_Uint64 (num h) - 1)))))
      end
    else Ok bc in
  match currentFastBlock bc with
  | None => never_stored
  | Some fast =>
      let* bc :=
        if bool_decide (Block_Hash fast = hash) then
          match parent_of bc fast with
          | None => nil_deref
          | Some p => Ok (put_blocks (put_bdb bc (WriteHeadFastBlockHash (bdb bc) (Block_Hash p))) (currentBlock bc) (Some p))
          end
        else Ok bc in
      match currentBlock bc with
      | None => never_stored
      | Some current =>
          if bool_decide (Block_Hash current = hash) then
            match parent_of bc current with
            | None => nil_deref
            | Some p => Ok (put_blocks (put_bdb bc (WriteHeadBlockHash (bdb bc) (Block_Hash p))) (Some p) (currentFastBlock bc))
            end
          else Ok bc
      end
  end.

Definition Rollback bc (chain : list Hash) : result BlockChain := foldl (λ r hash, bind r (λ bc, rollback_one bc hash)) (Ok bc) (reverse chain).

(** Opening the trie without the cache of past tries finds the same nodes. *)
Definition FastSyncCommitHead bc hash : result (option string * BlockChain) :=
  match bc_GetBlockByHash bc hash with
  | None => Ok (Some "non existent block", bc)
  | Some b =>
      match OpenTrie (stateCache bc) (Root (block_header b)) with
      | Err e => Ok (Some e, bc)
      | Panic w => Panic w
      | Hang => Hang
      | Ok _ => Ok (None, put_blocks bc (Some b) (currentFastBlock bc))
      end
  end.

(** ** Opening *)

(** The rounds over the bad hashes; what [SetHead] returns is dropped. *)
Fixpoint purge_bad (fuel : nat) bc (bad : list Hash) : result BlockChain :=
  match bad with
  | [] => Ok bc
  | hash :: bad =>
      match hc_GetHeaderByHash (hc bc) hash with
      | None => purge_bad fuel bc bad
      | Some header =>
          match hc_GetHeaderByNumber (hc bc) (big_Uint64 (num header)) with
          | None => purge_bad fuel bc bad
          | Some canonical =>
              if bool_decide (Header_Hash canonical = Header_Hash header) then
                let* (_, bc) := SetHead fuel bc (u64 (big_Uint64 (num header) - 1)) in purge_bad fuel bc bad
              else purge_bad fuel bc bad
          end
      end
  end.

(** [bad] are the keys of [BadHashes] in the order of the map; [queued] the
    empty queue. *)
Definition NewBlockChain (fuel : nat) (bad : list Hash) (queued : queue) db (d : DB) (noPruning : bool) (config : ChainConfig)
    (preserve : option (Block → bool)) : result BlockChain :=
  match Bsrr config with
  | None => nil_deref
  | Some bsrr =>
      let* h := NewHeaderChain db in
      let hash := ReadCanonicalHash db 0 in
      match (if bool_decide (hash = zeroHash) then None else ReadBlock db hash 0) with
      | None => Err ErrNoGenesis
      | Some genesis =>
          let bc := {|
            chainConfig := config; archive := noPruning; triesInMemory := Epoch bsrr; shouldPreserve := preserve; hc := h; stateCache := d;
            genesisBlock := genesis; currentBlock := None; currentFastBlock := None; futureBlocks := queued |} in
          let* (err, bc) := loadLastState (Reset fuel) bc in
          match err with Some e => Err e | None => purge_bad fuel bc bad end
      end
  end.

(** ** Receipts of fast synchronisation *)

Definition derive_log (b : Block) (txHash : Hash) (j : Z) (index : Z) (l : Log) : Log := {|
  log_Address := log_Address l; log_Topics := log_Topics l; log_Data := log_Data l; log_BlockNumber := NumberU64 b;
  log_TxHash := txHash; log_TxIndex := j; log_BlockHash := Block_Hash b; log_Index := index; log_Removed := log_Removed l |}.

(** The receipts from [j] on; [before] is the gas used before, [logIndex] the
    number of logs. *)
Fixpoint set_receipts (config : ChainConfig) (b : Block) (j before logIndex : Z) (l : list (txdata * Receipt)) : list Receipt :=
  match l with
  | [] => []
  | (tx, r) :: l =>
      let address :=
        match Recipient tx with
        | Some _ => ContractAddress r
        | None =>
            let from := match Signer_Sender (MakeSigner config (Number (block_header b))) tx with Ok a => a | _ => zeroAddress end in
            CreateAddress from (AccountNonce tx)
        end in
      {| PostState := PostState r; Status := Status r; CumulativeGasUsed := CumulativeGasUsed r; rcpt_Bloom := rcpt_Bloom r;
         rcpt_Logs := imap (λ k, derive_log b (Tx_Hash tx) j (logIndex + Z.of_nat k)) (rcpt_Logs r); rcpt_TxHash := Tx_Hash tx;
         ContractAddress := address; rcpt_GasUsed := u64 (CumulativeGasUsed r - before) |}
      :: set_receipts config b (j + 1) (CumulativeGasUsed r) (logIndex + Z.of_nat (length (rcpt_Logs r))) l
  end.

Definition SetReceiptsData (config : ChainConfig) (b : Block) (receipts : list Receipt) : list Receipt + string :=
  if negb (bool_decide (length (block_transactions b) = length receipts)) then inr "transaction and receipt count mismatch"
  else inl (set_receipts config b 0 0 0 (zip (block_transactions b) receipts)).

(** Ordered and linked blocks. *)
Fixpoint linked (chain : list Block) : bool :=
  match chain with
  | a :: (b :: _) as rest =>
      (NumberU64 b =? u64 (NumberU64 a + 1)) && bool_decide (ParentHash (block_header b) = Block_Hash a) && linked rest
  | _ => true
  end.

(** The blocks from the [i]-th on.  [batch] is what waits to be written; it is
    written after the blocks for which [full] holds, and at the end. *)
Fixpoint fill (full : Z → bool) bc (batch : ChainDb → ChainDb) (i : Z) (blocks : list Block) (receiptChain : list (list Receipt))
  : result (option (Z * string) * BlockChain) :=
  match blocks with
  | [] => Ok (None, put_bdb bc (batch (bdb bc)))
  | b :: blocks =>
      match receiptChain with
      | [] => Panic "index out of range"
      | receipts :: receiptChain =>
          let hash := Block_Hash b in
          let number := NumberU64 b in
          if negb (hc_HasHeader (hc bc) hash number) then Ok (Some (i, "containing header unknown"), bc)
          else if HasBlock bc hash number then fill full bc batch (i + 1) blocks receiptChain
          else
            match SetReceiptsData (chainConfig bc) b receipts with
            | inr _ => Ok (Some (i, "failed to set receipts data"), bc)
            | inl receipts =>
                let batch db :=
                  WriteTxLookupEntries
                    (WriteReceipts (WriteBody (batch db) hash number (block_transactions b, block_uncles b)) hash number receipts) b in
                if full i then fill full (put_bdb bc (batch (bdb bc))) id (i + 1) blocks receiptChain
                else fill full bc batch (i + 1) blocks receiptChain
            end
      end
  end.

Definition InsertReceiptChain (full : Z → bool) bc (blockChain : list Block) (receiptChain : list (list Receipt))
  : result (Z * option string * BlockChain) :=
  if negb (linked blockChain) then Ok (0, Some errNonContiguous, bc)
  else
    let* (r, bc) := fill full bc id 0 blockChain receiptChain in
    match r with
    | Some (i, e) => Ok (i, Some e, bc)
    | None =>
        match last blockChain with
        | None => Panic "index out of range"
        | Some head =>
            match bc_GetTd bc (Block_Hash head) (NumberU64 head) with
            | None => Ok (0, None, bc)
            | Some td =>
                match currentFastBlock bc with
                | None => never_stored
                | Some fast =>
                    match bc_GetTd bc (Block_Hash fast) (NumberU64 fast) with
                    | None => nil_deref
                    | Some fastTd =>
                        if fastTd <? td then
                          Ok (0, None, put_blocks (put_bdb bc (WriteHeadFastBlockHash (bdb bc) (Block_Hash head))) (currentBlock bc) (Some head))
                        else Ok (0, None, bc)
                    end
                end
            end
        end
    end.
End Load.
