(* ===== verification/BlockChainProps.v ===== *)
(** * The canonical chain is a chain

    What is stored and what is canonical in a chain to which blocks are written,
    and that writing and reorganising keep it so. *)

From Stdlib Require Import ZArith Lia.
From stdpp Require Import base option list gmap sets strings sorting.
From S2P Require Import Prelude GoFloat Params Rlp Types Account State Receipt DeriveSha Chain ChainStore HeaderChain.
From S2P Require Import Staking Transition Selection Bsrr BlockChain.

(** ** What is stored *)

Section Store.
Context {C : Crypto} (g : Block).
Implicit Types (db : ChainDb) (b p c : Block).

(** Headers are found under their numbers and hashes, numbers are below the
    largest one, hashes tell them apart; every block comes with its parent, down
    to the genesis block, with the total difficulties added up. *)
Record store_ok db : Prop := {
  so_header : ∀ n h hd, headerData db !! (n, h) = Some hd →
    Header_Hash hd = h ∧ Number hd = Some n ∧ 0 ≤ n < maxUint64 ∧ h ≠ zeroHash;
  so_body : ∀ k, is_Some (headerData db !! k) ↔ is_Some (bodyData db !! k);
  so_numbers : ∀ n h, headerNumbers db !! h = Some n ↔ is_Some (headerData db !! (n, h));
  so_td : ∀ k, is_Some (tdData db !! k) → is_Some (headerData db !! k);
  so_genesis : ReadBlock db (Block_Hash g) 0 = Some g ∧ is_Some (tdData db !! (0, Block_Hash g));
  so_zero : ∀ h hd, headerData db !! (0, h) = Some hd → h = Block_Hash g;
  so_parent : ∀ n h hd, headerData db !! (n, h) = Some hd → 0 < n →
    ∃ ptd, tdData db !! (n - 1, ParentHash hd) = Some ptd ∧ tdData db !! (n, h) = Some (Difficulty hd + ptd) ∧ 0 < Difficulty hd
}.

(** A block is stored. *)
Definition stored db b : Prop := ReadBlock db (Block_Hash b) (NumberU64 b) = Some b.

Lemma ReadBlock_Some db h n b :
  ReadBlock db h n = Some b ↔
  headerData db !! (n, h) = Some (block_header b) ∧ bodyData db !! (n, h) = Some (block_transactions b, block_uncles b).
Proof using.
  unfold ReadBlock, ReadHeader, ReadBody. split.
  - destruct (headerData db !! (n, h)) as [hd|]; [|done]. simpl. destruct (bodyData db !! (n, h)) as [[t u]|]; [|done].
    simpl. by intros [= <-].
  - intros [-> ->]. by destruct b.
Qed.

Lemma read_header db h n hd : store_ok db → headerData db !! (n, h) = Some hd → ∃ b, ReadBlock db h n = Some b ∧ block_header b = hd.
Proof using.
  intros Hs Hh. destruct (proj1 (so_body _ Hs (n, h))) as [[t u] Hb]; [by eexists|].
  exists {| block_header := hd; block_transactions := t; block_uncles := u |}. split; [by apply ReadBlock_Some|done].
Qed.

Lemma read_stored db h n b :
  store_ok db → ReadBlock db h n = Some b → Block_Hash b = h ∧ NumberU64 b = n ∧ 0 ≤ n < maxUint64 ∧ h ≠ zeroHash ∧ stored db b.
Proof using.
  intros Hs Hb. pose proof Hb as [Hh _]%ReadBlock_Some. destruct (so_header _ Hs _ _ _ Hh) as (E1 & E2 & Hn & Hz).
  assert (En : NumberU64 b = n) by (unfold NumberU64, num; rewrite E2; simpl; apply big_Uint64_small; unfold is_u64, maxUint64 in *; lia).
  split_and!; try done; try lia. unfold stored, Block_Hash. by rewrite En, E1.
Qed.

Lemma stored_number db b : store_ok db → stored db b → 0 ≤ NumberU64 b < maxUint64 ∧ Block_Hash b ≠ zeroHash.
Proof using. intros Hs Hb. destruct (read_stored _ _ _ _ Hs Hb) as (_ & _ & ? & ? & _). done. Qed.

Lemma stored_td db b : store_ok db → stored db b → is_Some (tdData db !! (NumberU64 b, Block_Hash b)).
Proof using.
  intros Hs Hb. pose proof (stored_number _ _ Hs Hb) as [Hn _]. pose proof Hb as [Hh _]%ReadBlock_Some.
  destruct (decide (NumberU64 b = 0)) as [E|Hne].
  - rewrite E in *. rewrite (so_zero _ Hs _ _ Hh). apply Hs.
  - destruct (so_parent _ Hs _ _ _ Hh) as (ptd & _ & -> & _); [lia|]. by eexists.
Qed.

(** The parent of a block is stored, and lighter. *)
Lemma stored_parent db b :
  store_ok db → stored db b → 0 < NumberU64 b →
  ∃ p td, ReadBlock db (ParentHash (block_header b)) (NumberU64 b - 1) = Some p ∧ stored db p ∧ NumberU64 p = NumberU64 b - 1 ∧
    Block_Hash p = ParentHash (block_header b) ∧ tdData db !! (NumberU64 p, Block_Hash p) = Some td ∧
    tdData db !! (NumberU64 b, Block_Hash b) = Some (Difficulty (block_header b) + td) ∧ 0 < Difficulty (block_header b).
Proof using.
  intros Hs Hb H0. pose proof Hb as [Hh _]%ReadBlock_Some. destruct (so_parent _ Hs _ _ _ Hh H0) as (ptd & Hp & Ht & Hd).
  destruct (so_td _ Hs (NumberU64 b - 1, ParentHash (block_header b))) as [ph Hph]; [by eexists|].
  destruct (read_header _ _ _ _ Hs Hph) as (p & Hrp & _). destruct (read_stored _ _ _ _ Hs Hrp) as (E1 & E2 & _ & _ & Hst).
  exists p, ptd. split_and!; try done. by rewrite E1, E2.
Qed.

Lemma stored_zero db b : store_ok db → stored db b → NumberU64 b = 0 → b = g.
Proof using.
  intros Hs Hb E. pose proof Hb as Hb'. unfold stored in Hb'. rewrite E in Hb'. pose proof Hb' as [Hh _]%ReadBlock_Some.
  rewrite (so_zero _ Hs _ _ Hh) in Hb'. destruct (so_genesis _ Hs) as [Hg _]. congruence.
Qed.

(** ** Writing a block *)

(** The block can be added: its number is one more than zero and below the
    largest, its difficulty is positive, and no other block that is stored has
    its hash. *)
Record fits db b : Prop := {
  ft_number : Number (block_header b) = Some (NumberU64 b) ∧ 0 < NumberU64 b < maxUint64;
  ft_hash : Block_Hash b ≠ zeroHash;
  ft_difficulty : 0 < Difficulty (block_header b);
  ft_clash : ∀ n b', ReadBlock db (Block_Hash b) n = Some b' → b' = b
}.

(** Blocks are only added, what is canonical stays. *)
Record grown db db' : Prop := {
  gr_numbers : headerNumbers db ⊆ headerNumbers db';
  gr_headers : headerData db ⊆ headerData db';
  gr_bodies : bodyData db ⊆ bodyData db';
  gr_tds : tdData db ⊆ tdData db';
  gr_canonical : canonicalHashes db' = canonicalHashes db;
  gr_lookups : txLookups db' = txLookups db
}.

Lemma grown_read db db' h n b : grown db db' → ReadBlock db h n = Some b → ReadBlock db' h n = Some b.
Proof using. intros [_ G1 G2 _ _ _] [H1 H2]%ReadBlock_Some. apply ReadBlock_Some. split; by eapply lookup_weaken. Qed.

Definition written db b (td : Z) : ChainDb := WriteBlock (WriteTd db (Block_Hash b) (NumberU64 b) td) b.

Lemma written_maps db b td :
  headerNumbers (written db b td) = <[Block_Hash b := NumberU64 b]> (headerNumbers db) ∧
  headerData (written db b td) = <[(NumberU64 b, Block_Hash b) := block_header b]> (headerData db) ∧
  bodyData (written db b td) = <[(NumberU64 b, Block_Hash b) := (block_transactions b, block_uncles b)]> (bodyData db) ∧
  tdData (written db b td) = <[(NumberU64 b, Block_Hash b) := td]> (tdData db).
Proof using. done. Qed.

Lemma written_stored db b td : stored (written db b td) b.
Proof using. destruct (written_maps db b td) as (_ & E1 & E2 & _). apply ReadBlock_Some. by rewrite E1, E2, !lookup_insert_eq. Qed.

Lemma fits_key db b hd : store_ok db → fits db b → headerData db !! (NumberU64 b, Block_Hash b) = Some hd → stored db b.
Proof using. intros Hs Hf Hh. destruct (read_header _ _ _ _ Hs Hh) as (b' & Hb' & _). pose proof (ft_clash _ _ Hf _ _ Hb') as ->. exact Hb'. Qed.

Lemma written_grown db b ptd :
  store_ok db → fits db b → tdData db !! (NumberU64 b - 1, ParentHash (block_header b)) = Some ptd →
  grown db (written db b (Difficulty (block_header b) + ptd)).
Proof using.
  intros Hs Hf Hp. pose proof (ft_number _ _ Hf) as [_ Hn]. destruct (written_maps db b (Difficulty (block_header b) + ptd)) as (E0 & E1 & E2 & E3).
  split; [|rewrite E1|rewrite E2|rewrite E3|done|done]; [rewrite E0; apply map_subseteq_spec; intros h n Hx|apply map_subseteq_spec; intros k x Hx..];
    [destruct (decide (h = Block_Hash b)) as [->|Hne]; [rewrite lookup_insert_eq|by rewrite lookup_insert_ne]
    |destruct (decide (k = (NumberU64 b, Block_Hash b))) as [->|Hne]; [rewrite lookup_insert_eq|by rewrite lookup_insert_ne]..].
  - apply (so_numbers _ Hs) in Hx as [hd Hh]. destruct (read_header _ _ _ _ Hs Hh) as (b' & Hb' & _).
    destruct (read_stored _ _ _ _ Hs Hb') as (_ & <- & _). by rewrite (ft_clash _ _ Hf _ _ Hb').
  - pose proof (fits_key _ _ _ Hs Hf Hx) as [Hh _]%ReadBlock_Some. congruence.
  - destruct (proj2 (so_body _ Hs (NumberU64 b, Block_Hash b))) as [hd Hh]; [by eexists|].
    pose proof (fits_key _ _ _ Hs Hf Hh) as [_ Hb]%ReadBlock_Some. congruence.
  - destruct (so_td _ Hs (NumberU64 b, Block_Hash b)) as [hd Hh]; [by eexists|].
    pose proof (fits_key _ _ _ Hs Hf Hh) as [Hh' _]%ReadBlock_Some. destruct (so_parent _ Hs _ _ _ Hh') as (ptd' & Hp' & Ht & _); [lia|]. congruence.
Qed.

Lemma written_ok db b ptd :
  store_ok db → fits db b → tdData db !! (NumberU64 b - 1, ParentHash (block_header b)) = Some ptd →
  store_ok (written db b (Difficulty (block_header b) + ptd)).
Proof using.
  intros Hs Hf Hp. pose proof (written_grown _ _ _ Hs Hf Hp) as G. pose proof (ft_number _ _ Hf) as [HN Hn].
  destruct (written_maps db b (Difficulty (block_header b) + ptd)) as (E0 & E1 & E2 & E3). set (db' := written _ _ _) in *.
  split.
  - intros n h hd. rewrite E1. intros [[[= <- <-] <-]|[_ Hh]]%lookup_insert_Some; [|by apply Hs]. split_and!; [done|done|lia|lia|apply Hf].
  - intros k. rewrite E1, E2. destruct (decide (k = (NumberU64 b, Block_Hash b))) as [->|Hne]; [rewrite !lookup_insert_eq; split; by eexists|]. rewrite !lookup_insert_ne by done. apply Hs.
  - intros n h. rewrite E0, E1. destruct (decide (h = Block_Hash b)) as [->|Hne].
    + rewrite lookup_insert_eq, lookup_insert_is_Some. split; [intros [= <-]; by left|]. intros [[= ->]|[_ [hd Hh]]]; [done|].
      destruct (read_header _ _ _ _ Hs Hh) as (b' & Hb' & _). destruct (read_stored _ _ _ _ Hs Hb') as (_ & <- & _). by rewrite (ft_clash _ _ Hf _ _ Hb').
    + rewrite !lookup_insert_ne by congruence. apply Hs.
  - intros k. rewrite E1, E3, !lookup_insert_is_Some. intros [?|[? ?]]; [by left|right; split; [done|by apply (so_td _ Hs)]].
  - destruct (so_genesis _ Hs) as [Hg [t Ht]]. split; [by eapply grown_read|]. exists t. by eapply lookup_weaken; [|apply G].
  - intros h hd. rewrite E1. intros [[[= E _] _]|[_ Hh]]%lookup_insert_Some; [lia|by eapply (so_zero _ Hs)].
  - intros n h hd. rewrite E1. intros [[[= <- <-] <-]|[Hne Hh]]%lookup_insert_Some H0.
    + exists ptd. split_and!; [by eapply lookup_weaken; [|apply G]|by rewrite E3, lookup_insert_eq|apply Hf].
    + destruct (so_parent _ Hs _ _ _ Hh H0) as (t & H1 & H2 & H3). exists t. split_and!; [by eapply lookup_weaken; [|apply G]..|done].
Qed.

(** ** Branches *)

(** The blocks from [b] down to [c], without [c]. *)
Inductive path db : Block → list Block → Block → Prop :=
  | path_nil b : path db b [] b
  | path_cons b p l c :
      0 < NumberU64 b → ReadBlock db (ParentHash (block_header b)) (NumberU64 b - 1) = Some p → path db p l c → path db b (b :: l) c.

Lemma path_stored db b l c :
  store_ok db → stored db b → path db b l c → stored db c ∧ NumberU64 c = NumberU64 b - Z.of_nat (length l) ∧ Forall (stored db) l.
Proof using.
  intros Hs Hb. induction 1 as [b|b p l c H0 Hp _ IH]; [split_and!; [done|simpl; lia|done]|].
  destruct (read_stored _ _ _ _ Hs Hp) as (_ & En & _ & _ & Hst). destruct (IH Hst) as (? & ? & ?). split_and!; [done|simpl; lia|by constructor].
Qed.

Lemma path_app db b l1 c l2 d : path db b l1 c → path db c l2 d → path db b (l1 ++ l2) d.
Proof using. induction 1; [done|]. intros. simpl. econstructor; eauto. Qed.

(** A branch reaches down to every number. *)
Lemma path_to db b n :
  store_ok db → stored db b → 0 ≤ n ≤ NumberU64 b → ∃ l c, path db b l c ∧ stored db c ∧ NumberU64 c = n.
Proof using.
  intros Hs Hb [H0 Hn]. remember (Z.to_nat (NumberU64 b - n)) as k eqn:Ek. revert b Hb Hn Ek.
  induction k as [|k IH]; intros b Hb Hn Ek; [exists [], b; split_and!; [constructor|done|lia]|].
  destruct (stored_parent _ _ Hs Hb) as (p & _ & Hp & Hst & En & _); [lia|].
  destruct (IH p Hst) as (l & c & Hl & Hc & Hcn); [lia|lia|]. exists (b :: l), c. split_and!; [|done|done]. econstructor; [lia|done|done].
Qed.

(** ** The canonical numbers *)

(** Up to the number of [top], the canonical hashes are those of its branch. *)
Record canon db (top : Block) : Prop := {
  cn_top : canonicalHashes db !! NumberU64 top = Some (Block_Hash top);
  cn_link : ∀ k h, 0 < k ≤ NumberU64 top → canonicalHashes db !! k = Some h →
    ∃ hd, headerData db !! (k, h) = Some hd ∧ canonicalHashes db !! (k - 1) = Some (ParentHash hd)
}.

Lemma canon_down db top l c :
  store_ok db → stored db top → path db top l c → canon db top →
  canon db c ∧ Forall (λ b, canonicalHashes db !! NumberU64 b = Some (Block_Hash b)) l.
Proof using.
  intros Hs Hst Hp. revert Hst. induction Hp as [b|b p l c H0 Hr _ IH]; intros Hst Hc; [done|].
  destruct (read_stored _ _ _ _ Hs Hr) as (Eh & En & _ & _ & Hsp). pose proof Hst as [Hh _]%ReadBlock_Some.
  destruct (cn_link _ _ Hc (NumberU64 b) (Block_Hash b)) as (hd & Hhd & Hpar); [lia|apply Hc|]. assert (hd = block_header b) as -> by congruence.
  destruct IH as [IH1 IH2]; [done| |split; [done|constructor; [apply Hc|done]]].
  split; [by rewrite En, Eh|]. intros k h Hk. apply (cn_link _ _ Hc). lia.
Qed.

(** The canonical block of each number up to the top. *)
Lemma canon_block db top k :
  store_ok db → stored db top → canon db top → 0 ≤ k ≤ NumberU64 top →
  ∃ b l, path db top l b ∧ stored db b ∧ NumberU64 b = k ∧ canonicalHashes db !! k = Some (Block_Hash b).
Proof using.
  intros Hs Hst Hc Hk. destruct (path_to db top k Hs Hst Hk) as (l & b & Hp & Hb & En).
  destruct (canon_down _ _ _ _ Hs Hst Hp Hc) as [[Ht _] _]. exists b, l. split_and!; try done. by rewrite <- En.
Qed.

(** What a canonical hash up to the top stands for is on the branch of the top. *)
Lemma canon_on_path db top l c k h :
  store_ok db → stored db top → canon db top → path db top l c → NumberU64 c < k ≤ NumberU64 top →
  canonicalHashes db !! k = Some h → ∃ b, b ∈ l ∧ NumberU64 b = k ∧ Block_Hash b = h.
Proof using.
  intros Hs Hst Hc Hp. revert Hst Hc. induction Hp as [b|b p l c H0 Hr Hp IH]; intros Hst Hc Hk Hh; [lia|].
  destruct (read_stored _ _ _ _ Hs Hr) as (_ & En & _ & _ & Hsp). destruct (decide (k = NumberU64 b)) as [->|Hne].
  - exists b. rewrite (cn_top _ _ Hc) in Hh. injection Hh as <-. split_and!; [by left|done|done].
  - destruct IH as (b' & Hin & ? & ?); [done| |lia|done|exists b'; split_and!; [by right|done|done]].
    eapply (canon_down db b [b] p); [done|done| |done]. econstructor; [done|done|constructor].
Qed.

(** A block on top of the canonical chain becomes the top. *)
Lemma canon_insert db db' p b :
  store_ok db → stored db b → 0 < NumberU64 b → ReadBlock db (ParentHash (block_header b)) (NumberU64 b - 1) = Some p → canon db p →
  headerData db' = headerData db → canonicalHashes db' = <[NumberU64 b := Block_Hash b]> (canonicalHashes db) → canon db' b.
Proof using.
  intros Hs Hst H0 Hr Hc E1 E2. destruct (read_stored _ _ _ _ Hs Hr) as (Eh & En & _). split; rewrite ?E1, ?E2.
  - by rewrite lookup_insert_eq.
  - intros k h Hk Hh. destruct (decide (k = NumberU64 b)) as [->|Hne].
    + rewrite lookup_insert_eq in Hh. injection Hh as <-. apply ReadBlock_Some in Hst as [Hhd _]. exists (block_header b).
      split; [done|]. rewrite lookup_insert_ne by lia. rewrite <- Eh, <- En. apply Hc.
    + rewrite lookup_insert_ne in Hh by done. rewrite lookup_insert_ne by lia. apply (cn_link _ _ Hc); [lia|done].
Qed.
End Store.

(** ** The walks of a reorganisation *)

Section Walks.
Context {C : Crypto} {D : Database} {MO : MapOrder} {DS : DiskStore} {BQ : BlockQueue} (g : Block).
Implicit Types (bc : BlockChain) (b p c : Block).

Lemma parent_of_read bc b : 0 < NumberU64 b < maxUint64 → parent_of bc b = ReadBlock (bdb bc) (ParentHash (block_header b)) (NumberU64 b - 1).
Proof using. intros H. unfold parent_of, bc_GetBlock. rewrite u64_small; [done|]. unfold is_u64, maxUint64 in *. lia. Qed.

Lemma reduce_to_ok fuel bc n b above :
  store_ok g (bdb bc) → stored (bdb bc) b → 0 ≤ n ≤ NumberU64 b → NumberU64 b ≤ Z.of_nat fuel →
  ∃ l c, reduce_to fuel bc n (Some b) above = Ok (Some c, above ++ l) ∧ path (bdb bc) b l c ∧ stored (bdb bc) c ∧ NumberU64 c = n.
Proof using.
  intros Hs. revert b above. induction fuel as [|fuel IH]; intros b above Hb Hn Hf; cbn [reduce_to]; destruct (Z.eqb_spec (NumberU64 b) n) as [E|Hne].
  1, 3: exists [], b; rewrite app_nil_r; split_and!; [done|constructor|done|done].
  - lia.
  - destruct (stored_parent g _ _ Hs Hb) as (p & _ & Hp & Hst & En & _); [lia|]. pose proof (stored_number g _ _ Hs Hb) as [? _].
    rewrite parent_of_read, Hp by lia. destruct (IH p (above ++ [b]) Hst) as (l & c & -> & Hl & Hc & Hcn); [lia|lia|].
    exists (b :: l), c. rewrite <- app_assoc. split_and!; [done| |done|done]. econstructor; [lia|done|done].
Qed.

Lemma level_ok bc old new :
  store_ok g (bdb bc) → stored (bdb bc) old → stored (bdb bc) new →
  ∃ o n lo ln, level bc old new = Ok (Some o, Some n, lo, ln) ∧ path (bdb bc) old lo o ∧ path (bdb bc) new ln n ∧
    stored (bdb bc) o ∧ stored (bdb bc) n ∧ NumberU64 o = NumberU64 n.
Proof using.
  intros Hs Ho Hn. pose proof (stored_number g _ _ Hs Ho) as [? _]. pose proof (stored_number g _ _ Hs Hn) as [? _]. unfold level.
  destruct (Z.ltb_spec (NumberU64 new) (NumberU64 old)).
  - destruct (reduce_to_ok (Z.to_nat (NumberU64 old)) bc (NumberU64 new) old [] Hs Ho) as (l & c & -> & Hl & Hc & Hcn); [lia|lia|].
    exists c, new, l, []. split_and!; [done|done|constructor|done|done|done].
  - destruct (reduce_to_ok (Z.to_nat (NumberU64 new)) bc (NumberU64 old) new [] Hs Hn) as (l & c & -> & Hl & Hc & Hcn); [lia|lia|].
    exists old, c, [], l. split_and!; [done|constructor|done|done|done|done].
Qed.

Lemma meet_ok fuel bc o n oc nc :
  store_ok g (bdb bc) → stored (bdb bc) o → stored (bdb bc) n → NumberU64 o = NumberU64 n → NumberU64 o ≤ Z.of_nat fuel →
  ∃ c lo ln, meet fuel bc o n oc nc = Ok (inl (c, oc ++ lo, nc ++ ln)) ∧ path (bdb bc) o lo c ∧ path (bdb bc) n ln c ∧ stored (bdb bc) c.
Proof using.
  intros Hs. revert o n oc nc. induction fuel as [|fuel IH]; intros o n oc nc Ho Hn E Hf; cbn [meet];
    destruct (bool_decide_reflect (Block_Hash o = Block_Hash n)) as [Eh|Hne].
  1, 3: assert (n = o) as -> by (unfold stored in Ho, Hn; rewrite E, Eh in Ho; congruence); exists o, [], []; rewrite !app_nil_r;
        split_and!; [done|constructor|constructor|done].
  - pose proof (stored_number g _ _ Hs Ho) as [? _]. assert (o = g) by (apply (stored_zero g (bdb bc)); [done|done|lia]).
    assert (n = g) by (apply (stored_zero g (bdb bc)); [done|done|lia]). congruence.
  - pose proof (stored_number g _ _ Hs Ho) as [? _]. destruct (decide (NumberU64 o = 0)) as [E0|H0].
    { assert (o = g) by by apply (stored_zero g (bdb bc)). assert (n = g) by (apply (stored_zero g (bdb bc)); [done|done|lia]). congruence. }
    destruct (stored_parent g _ _ Hs Ho) as (po & _ & Hpo & Sto & Eno & _); [lia|].
    destruct (stored_parent g _ _ Hs Hn) as (pn & _ & Hpn & Stn & Enn & _); [lia|]. rewrite !parent_of_read, Hpo, Hpn by lia.
    destruct (IH po pn (oc ++ [o]) (nc ++ [n]) Sto Stn) as (c & lo & ln & -> & Lo & Ln & Hc); [lia|lia|].
    exists c, (o :: lo), (n :: ln). rewrite <- !app_assoc. split_and!; [done| | |done]; (econstructor; [lia|done|done]).
Qed.
End Walks.

(** ** The index of transactions *)

Section Index.
Context {C : Crypto} (g : Block).
Implicit Types (db : ChainDb) (b p c top : Block).

Lemma write_lookups_spec (m : gmap Hash TxLookupEntry) h n i (txs : list txdata) x e :
  write_lookups m h n i txs !! x = Some e →
  (m !! x = Some e ∧ x ∉ Tx_Hash <$> txs) ∨
  ∃ j tx, txs !! j = Some tx ∧ Tx_Hash tx = x ∧ e = {| entry_BlockHash := h; entry_BlockIndex := n; entry_Index := i + Z.of_nat j |}.
Proof using.
  revert m i. induction txs as [|tx txs IH]; intros m i; cbn [write_lookups]; [intros H; left; split; [done|apply not_elem_of_nil]|].
  intros [[H Hn]|(j & tx' & Hj & Hx & ->)]%IH.
  - destruct (decide (x = Tx_Hash tx)) as [->|Hne].
    + rewrite lookup_insert_eq in H. injection H as <-. right. exists 0%nat, tx. rewrite Z.add_0_r. done.
    + rewrite lookup_insert_ne in H by done. left. split; [done|]. rewrite fmap_cons. by apply not_elem_of_cons.
  - right. exists (S j), tx'. split_and!; [done|done|]. f_equal. lia.
Qed.

Lemma write_lookups_some (m : gmap Hash TxLookupEntry) h n i (txs : list txdata) x :
  is_Some (m !! x) ∨ x ∈ Tx_Hash <$> txs → is_Some (write_lookups m h n i txs !! x).
Proof using.
  revert m i. induction txs as [|tx txs IH]; intros m i Hx; cbn [write_lookups].
  - destruct Hx as [?|Hx]; [done|by apply elem_of_nil in Hx].
  - apply IH. destruct (decide (x = Tx_Hash tx)) as [->|Hne]; [left; rewrite lookup_insert_eq; by eexists|].
    rewrite fmap_cons, elem_of_cons in Hx. destruct Hx as [Hx|[Hx|Hx]]; [left; by rewrite lookup_insert_ne|done|by right].
Qed.

(** An entry names a transaction of a canonical block up to [top]. *)
Definition entry_ok db top (x : Hash) (e : TxLookupEntry) : Prop :=
  0 ≤ entry_BlockIndex e ≤ NumberU64 top ∧ canonicalHashes db !! entry_BlockIndex e = Some (entry_BlockHash e) ∧
  ∃ txs us tx, bodyData db !! (entry_BlockIndex e, entry_BlockHash e) = Some (txs, us) ∧ 0 ≤ entry_Index e ∧
    txs !! Z.to_nat (entry_Index e) = Some tx ∧ Tx_Hash tx = x.

Definition indexed db top : Prop := ∀ x e, txLookups db !! x = Some e → entry_ok db top x e.

(** Every transaction of the branch of [top] has an entry. *)
Definition complete db top : Prop :=
  ∀ l b tx, path db top l b → tx ∈ block_transactions b → is_Some (txLookups db !! Tx_Hash tx).

(** No transaction of a block is in a block below it. *)
Definition fresh_txs db b : Prop :=
  ∀ l c tx tx', path db b (b :: l) c → tx ∈ block_transactions b → tx' ∈ block_transactions c → Tx_Hash tx ≠ Tx_Hash tx'.

Lemma entry_above db db' p b x e :
  bodyData db' = bodyData db → (∀ k, k ≠ NumberU64 b → canonicalHashes db' !! k = canonicalHashes db !! k) →
  NumberU64 p < NumberU64 b → entry_ok db p x e → entry_ok db' b x e.
Proof using.
  intros E1 E2 Hlt (Hk & Hc & Hb). unfold entry_ok. rewrite E1, E2 by lia. split_and!; [lia|lia|done|done].
Qed.

Lemma entry_of_block db b i tx :
  stored db b → 0 ≤ NumberU64 b → canonicalHashes db !! NumberU64 b = Some (Block_Hash b) → block_transactions b !! i = Some tx →
  entry_ok db b (Tx_Hash tx) {| entry_BlockHash := Block_Hash b; entry_BlockIndex := NumberU64 b; entry_Index := 0 + Z.of_nat i |}.
Proof using.
  intros [_ Hb]%ReadBlock_Some H0 Hc Hi. split_and!; cbn [entry_BlockIndex entry_BlockHash entry_Index]; [lia|lia|done|].
  eexists _, _, tx. split_and!; [done|lia| |done]. by rewrite Z.add_0_l, Nat2Z.id.
Qed.

Lemma elem_of_txs_of_blocks tx (l : list Block) : tx ∈ txs_of_blocks l ↔ ∃ b, b ∈ l ∧ tx ∈ block_transactions b.
Proof using.
  unfold txs_of_blocks. rewrite list_elem_of_In, in_concat. split.
  - intros (t & Ht & Hx). apply list_elem_of_In, list_elem_of_fmap in Ht as (b & -> & Hb). exists b. split; [done|]. by apply list_elem_of_In.
  - intros (b & Hb & Hx). exists (block_transactions b). split; apply list_elem_of_In; [|done]. by apply list_elem_of_fmap_2.
Qed.
End Index.

(** ** Adopting a branch *)

Section Adopt.
Context {C : Crypto} {D : Database} {MO : MapOrder} {DS : DiskStore} {BQ : BlockQueue} (g : Block).
Implicit Types (bc : BlockChain) (db : ChainDb) (b p c : Block).

(** The blocks that are stored are the same. *)
Record same_data db db' : Prop := {
  sd_numbers : headerNumbers db' = headerNumbers db;
  sd_headers : headerData db' = headerData db;
  sd_bodies : bodyData db' = bodyData db;
  sd_tds : tdData db' = tdData db
}.

Lemma same_refl db : same_data db db.
Proof using. done. Qed.

Lemma same_trans db1 db2 db3 : same_data db1 db2 → same_data db2 db3 → same_data db1 db3.
Proof using. intros [] []. split; congruence. Qed.

Lemma same_read db db' h n : same_data db db' → ReadBlock db' h n = ReadBlock db h n.
Proof using. intros [_ E1 E2 _]. unfold ReadBlock, ReadHeader, ReadBody. by rewrite E1, E2. Qed.

Lemma same_stored db db' b : same_data db db' → stored db b → stored db' b.
Proof using. intros E H. unfold stored. by rewrite (same_read _ _ _ _ E). Qed.

Lemma same_path db db' b l c : same_data db db' → path db b l c → path db' b l c.
Proof using. intros E. induction 1; [constructor|]. econstructor; [done|by rewrite (same_read _ _ _ _ E)|done]. Qed.

Lemma same_ok db db' : same_data db db' → store_ok g db → store_ok g db'.
Proof using.
  intros E [H1 H2 H3 H4 H5 H6 H7]. destruct (E) as [E0 E1 E2 E3]. split; rewrite ?E0, ?E1, ?E2, ?E3; try done.
  by rewrite (same_read _ _ _ _ E).
Qed.

(** Canonical numbers and heads apart, the chain is the same. *)
Record kept bc bc' : Prop := {
  kc_data : same_data (bdb bc) (bdb bc');
  kc_config : chainConfig bc' = chainConfig bc;
  kc_preserve : shouldPreserve bc' = shouldPreserve bc;
  kc_genesis : genesisBlock bc' = genesisBlock bc ∧ genesisHeader (hc bc') = genesisHeader (hc bc);
  kc_state : stateCache bc' = stateCache bc
}.

Lemma kept_trans bc1 bc2 bc3 : kept bc1 bc2 → kept bc2 bc3 → kept bc1 bc3.
Proof using. intros [? ? ? [] ?] [? ? ? [] ?]. split; try congruence; [by eapply same_trans|split; congruence]. Qed.

(** The hash of a stored block is not zero, which stands for none. *)
Lemma ReadCanonical_eq db b n :
  Block_Hash b ≠ zeroHash → ReadCanonicalHash db n = Block_Hash b ↔ canonicalHashes db !! n = Some (Block_Hash b).
Proof using. intros Hz. unfold ReadCanonicalHash. destruct (canonicalHashes db !! n); simpl; [split; congruence|split; [intros E|done]; congruence]. Qed.

Lemma insert_spec bc b :
  is_Some (currentHeader (hc bc)) → Block_Hash b ≠ zeroHash →
  ∃ bc', insert bc b = Ok bc' ∧ kept bc bc' ∧ txLookups (bdb bc') = txLookups (bdb bc) ∧
    canonicalHashes (bdb bc') = <[NumberU64 b := Block_Hash b]> (canonicalHashes (bdb bc)) ∧ currentBlock bc' = Some b ∧
    currentHeader (hc bc') = if decide (canonicalHashes (bdb bc) !! NumberU64 b = Some (Block_Hash b)) then currentHeader (hc bc)
                             else Some (block_header b).
Proof using.
  intros [hd Hh] Hz. unfold insert. destruct (decide (canonicalHashes (bdb bc) !! NumberU64 b = Some (Block_Hash b))) as [Hc|Hc].
  - rewrite bool_decide_eq_true_2 by by apply ReadCanonical_eq. cbn [negb]. unfold put_bdb, put_hc, put_blocks, put_chainDb. cbn. rewrite Hh.
    eexists. split; [reflexivity|]. split_and!; [split; try split; done|done|done|done|done].
  - rewrite bool_decide_eq_false_2 by by rewrite ReadCanonical_eq. cbn [negb]. unfold put_bdb, put_hc, put_blocks, put_chainDb, SetCurrentHeader, put_current. cbn.
    eexists. split; [reflexivity|]. split_and!; [split; try split; done|done|done|done|done].
Qed.

(** The entries after the branch [ln] was adopted: those of the new canonical
    chain, and those that were there for other transactions. *)
Record readied (db db' : ChainDb) (b : Block) (ln : list Block) : Prop := {
  rd_entries : ∀ x e, txLookups db' !! x = Some e →
    entry_ok db' b x e ∨ ((x ∉ Tx_Hash <$> txs_of_blocks ln) ∧ txLookups db !! x = Some e);
  rd_some : ∀ x, is_Some (txLookups db !! x) ∨ x ∈ Tx_Hash <$> txs_of_blocks ln → is_Some (txLookups db' !! x)
}.

Lemma readied_cons db db1 db2 p b l :
  readied db db1 p l → stored db2 b → 0 ≤ NumberU64 p < NumberU64 b → bodyData db2 = bodyData db1 →
  (∀ k, k ≠ NumberU64 b → canonicalHashes db2 !! k = canonicalHashes db1 !! k) → canonicalHashes db2 !! NumberU64 b = Some (Block_Hash b) →
  txLookups db2 = write_lookups (txLookups db1) (Block_Hash b) (NumberU64 b) 0 (block_transactions b) → readied db db2 b (b :: l).
Proof using.
  intros [R1 R2] Hst Hn Eb Ec Ecb El. assert (Ein : ∀ x, x ∈ Tx_Hash <$> txs_of_blocks (b :: l) ↔ x ∈ Tx_Hash <$> block_transactions b ∨ x ∈ Tx_Hash <$> txs_of_blocks l).
  { intros x. unfold txs_of_blocks. rewrite fmap_cons. simpl. by rewrite fmap_app, elem_of_app. }
  split.
  - intros x e. rewrite El. intros [[H Hx]|(j & tx & Hj & <- & ->)]%write_lookups_spec; [|left; apply entry_of_block; [done|lia|done|done]].
    apply R1 in H as [H|[Hx' H]]; [left; apply (entry_above db1 db2 p b); [done|done|lia|done]|]. right. split; [|done]. rewrite Ein. tauto.
  - intros x Hx. rewrite El. apply write_lookups_some. rewrite Ein in Hx. destruct Hx as [?|[?|?]]; [left; apply R2; by left|by right|left; apply R2; by right].
Qed.

Lemma adopt_app bc l1 l2 : adopt bc (l1 ++ l2) = bind (adopt bc l1) (λ bc, adopt bc l2).
Proof using. revert bc. induction l1 as [|b l1 IH]; intros bc; [done|]. simpl. destruct (insert bc b); [|done..]. simpl. apply IH. Qed.

Lemma adopt_ok bc b l c :
  store_ok g (bdb bc) → stored (bdb bc) b → path (bdb bc) b l c → canon (bdb bc) c → is_Some (currentHeader (hc bc)) →
  ∃ bc', adopt bc (reverse l) = Ok bc' ∧ kept bc bc' ∧ canon (bdb bc') b ∧ is_Some (currentHeader (hc bc')) ∧
    (∀ k, ¬ (NumberU64 c < k ≤ NumberU64 b) → canonicalHashes (bdb bc') !! k = canonicalHashes (bdb bc) !! k) ∧
    (l ≠ [] → currentBlock bc' = Some b ∧
       (canonicalHashes (bdb bc) !! NumberU64 b ≠ Some (Block_Hash b) → currentHeader (hc bc') = Some (block_header b))) ∧
    (l = [] → bc' = bc) ∧ readied (bdb bc) (bdb bc') b l.
Proof using.
  intros Hs Hb Hp Hc Hh. revert Hb. induction Hp as [b|b p l c H0 Hr Hp IH]; intros Hb.
  { exists bc. split_and!; try done. split; [by intros x e; right; split; [apply not_elem_of_nil|]|].
    intros x [?|Hx]; [done|]. by apply elem_of_nil in Hx. }
  destruct (read_stored g _ _ _ _ Hs Hr) as (Eh & En & Hpn & _ & Hst). destruct (IH Hc Hst) as (bc1 & E1 & K1 & C1 & H1 & N1 & _ & _ & R1).
  pose proof (stored_number g _ _ Hs Hb) as [Hbn Hz]. destruct (insert_spec bc1 b H1 Hz) as (bc2 & E2 & K2 & L2 & N2 & B2 & H2).
  destruct (path_stored g _ _ _ _ Hs Hst Hp) as (_ & Ecn & _).
  assert (Hs1 : store_ok g (bdb bc1)) by (eapply same_ok; [apply K1|done]).
  assert (C2 : canon (bdb bc2) b).
  { eapply (canon_insert g (bdb bc1)); [done|exact (same_stored _ _ _ (kc_data _ _ K1) Hb)|done| |done|apply K2|done]. by rewrite (same_read _ _ _ _ (kc_data _ _ K1)). }
  exists (put_bdb bc2 (WriteTxLookupEntries (bdb bc2) b)). split_and!.
  - rewrite reverse_cons, adopt_app, E1. cbn [bind adopt]. rewrite E2. done.
  - eapply kept_trans; [exact K1|]. eapply kept_trans; [exact K2|]. split; try split; done.
  - destruct C2 as [T L]. split; [exact T|exact L].
  - cbn. rewrite H2. destruct (decide _); [done|by eexists].
  - intros k Hk. cbn. rewrite N2, lookup_insert_ne by lia. apply N1. lia.
  - intros _. split; [done|]. intros Hn. cbn. rewrite H2, decide_False; [done|]. rewrite N1 by lia. done.
  - done.
  - eapply readied_cons; [exact R1| |lia|apply K2| | |cbn; by rewrite L2].
    + eapply same_stored; [|exact Hb]. eapply same_trans; [apply K1|]. destruct K2 as [[] _ _ _ _]. split; done.
    + intros k Hk. cbn. by rewrite N2, lookup_insert_ne.
    + cbn. by rewrite N2, lookup_insert_eq.
Qed.
End Adopt.

(** ** Reorganisation *)

Section Reorg.
Context {C : Crypto} {D : Database} {MO : MapOrder} {DS : DiskStore} {BQ : BlockQueue} (g : Block).
Implicit Types (bc : BlockChain) (db : ChainDb) (b p c : Block).

Lemma forget_lookups_spec db txs :
  same_data db (forget_lookups db txs) ∧ canonicalHashes (forget_lookups db txs) = canonicalHashes db ∧
  ∀ x, txLookups (forget_lookups db txs) !! x = if decide (x ∈ Tx_Hash <$> txs) then None else txLookups db !! x.
Proof using.
  unfold forget_lookups. revert db. induction txs as [|tx txs IH]; intros db; cbn [foldl].
  { split_and!; [done|done|]. intros x. rewrite decide_False; [done|apply not_elem_of_nil]. }
  destruct (IH (DeleteTxLookupEntry db (Tx_Hash tx))) as (S1 & C1 & L1). split_and!; [destruct S1; split; done|done|].
  intros x. rewrite L1, fmap_cons. change (txLookups (DeleteTxLookupEntry db (Tx_Hash tx))) with (delete (Tx_Hash tx) (txLookups db)).
  destruct (decide (x = Tx_Hash tx)) as [->|Hne].
  - rewrite lookup_delete_eq, (decide_True (P := Tx_Hash tx ∈ Tx_Hash tx :: _)) by by left. by destruct (decide _).
  - rewrite lookup_delete_ne by done. destruct (decide (x ∈ Tx_Hash <$> txs)) as [Hin|Hin].
    + rewrite decide_True; [done|by right].
    + rewrite decide_False; [done|]. by apply not_elem_of_cons.
Qed.

Lemma elem_of_TxDifference x (a l : list txdata) :
  x ∈ Tx_Hash <$> TxDifference a l ↔ x ∈ Tx_Hash <$> a ∧ x ∉ Tx_Hash <$> l.
Proof using.
  unfold TxDifference. rewrite list_elem_of_fmap. split.
  - intros (tx & -> & [Hn Ha]%list_elem_of_filter). split; [by apply list_elem_of_fmap_2|]. by rewrite elem_of_list_to_set in Hn.
  - intros [(tx & -> & Ha)%list_elem_of_fmap Hn]. exists tx. split; [done|]. apply list_elem_of_filter. split; [|done]. by rewrite elem_of_list_to_set.
Qed.

Lemma path_split db b l c l' d : path db b l c → path db b l' d → d ∈ l ∨ ∃ l2, path db c l2 d.
Proof using.
  intros Hp. revert l'. induction Hp as [b|b p l c H0 Hr Hp IH]; intros l' Hd; [right; by exists l'|].
  inversion Hd as [|? p' l1 ? _ Hr' Hd']; subst; [left; by left|]. rewrite Hr in Hr'. injection Hr' as <-.
  destruct (IH _ Hd') as [?|?]; [left; by right|by right].
Qed.

Lemma path_from db b l c d : path db b l c → d ∈ l → ∃ l', path db d (d :: l') c.
Proof using.
  induction 1 as [|b p l c H0 Hr Hp IH]; intros Hd; [by apply elem_of_nil in Hd|].
  apply elem_of_cons in Hd as [->|Hd]; [exists l; by econstructor|by apply IH].
Qed.

Lemma txs_of_reverse l x : x ∈ Tx_Hash <$> txs_of_blocks (reverse l) ↔ x ∈ Tx_Hash <$> txs_of_blocks l.
Proof using.
  rewrite !list_elem_of_fmap. setoid_rewrite elem_of_txs_of_blocks. setoid_rewrite elem_of_reverse. done.
Qed.

(** What a chain guarantees about its branch. *)
Record branch_ok db top : Prop := {
  bo_stored : stored db top;
  bo_canon : canon db top;
  bo_indexed : indexed db top;
  bo_complete : complete db top
}.

Section Switch.
Context (db db1 : ChainDb) (old new c : Block) (lo ln : list Block).
Context (Hs : store_ok g db) (Hold : branch_ok db old) (Hnew : stored db new) (Hfresh : ∀ b, stored db b → fresh_txs db b).
Context (Po : path db old lo c) (Pn : path db new ln c).
Context (Hsame : same_data db db1) (Hbelow : ∀ k, k ≤ NumberU64 c → canonicalHashes db1 !! k = canonicalHashes db !! k).
Context (Hready : readied db db1 new ln).

Let diff := TxDifference (txs_of_blocks lo) (txs_of_blocks (reverse ln)).

Lemma switch_indexed : indexed (forget_lookups db1 diff) new.
Proof using Hs Hold Hnew Hfresh Po Pn Hsame Hbelow Hready.
  destruct (forget_lookups_spec db1 diff) as ([_ _ E2 _] & E4 & E5). intros x e. rewrite E5. destruct (decide (x ∈ Tx_Hash <$> diff)) as [|Hd]; [done|].
  intros [(Hk & Hc & Hb)|[Hna Hx]]%(rd_entries _ _ _ _ Hready); [unfold entry_ok; by rewrite E4, E2|].
  destruct (bo_indexed _ _ Hold _ _ Hx) as (Hk & Hc & txs & us & tx & Hb & Hi & Htx & <-).
  destruct (path_stored g _ _ _ _ Hs (bo_stored _ _ Hold) Po) as (_ & No & _). destruct (path_stored g _ _ _ _ Hs Hnew Pn) as (_ & Nn & _).
  destruct (Z.le_gt_cases (entry_BlockIndex e) (NumberU64 c)) as [Hle|Hgt].
  - unfold entry_ok. rewrite E4, E2, (sd_bodies _ _ Hsame), Hbelow by done. split_and!; [lia|lia|done|eauto 10].
  - destruct (canon_on_path g _ _ _ _ _ _ Hs (bo_stored _ _ Hold) (bo_canon _ _ Hold) Po (conj Hgt (proj2 Hk)) Hc) as (b & Hin & En & Eh).
    exfalso. apply Hd, elem_of_TxDifference. rewrite txs_of_reverse. split; [|done]. apply list_elem_of_fmap_2, elem_of_txs_of_blocks. exists b. split; [done|].
    destruct (path_stored g _ _ _ _ Hs (bo_stored _ _ Hold) Po) as (_ & _ & Hall). rewrite Forall_forall in Hall.
    pose proof (Hall b Hin) as [_ Hbb]%ReadBlock_Some. rewrite En, Eh, Hb in Hbb. injection Hbb as Ht _. rewrite <- Ht. by eapply list_elem_of_lookup_2.
Qed.

Lemma switch_complete : complete (forget_lookups db1 diff) new.
Proof using Hs Hold Hnew Hfresh Po Pn Hsame Hbelow Hready.
  destruct (forget_lookups_spec db1 diff) as (S1 & _ & E5). intros l b tx Hp Htx. rewrite E5.
  assert (Hp' : path db new l b).
  { eapply same_path; [|exact Hp]. assert (S : same_data db (forget_lookups db1 diff)) by by eapply same_trans. destruct S; split; done. }
  destruct (path_split _ _ _ _ _ _ Pn Hp') as [Hin|[l2 Hl2]].
  - assert (Hadd : Tx_Hash tx ∈ Tx_Hash <$> txs_of_blocks ln) by (apply list_elem_of_fmap_2, elem_of_txs_of_blocks; by exists b).
    rewrite decide_False; [apply (rd_some _ _ _ _ Hready); by right|]. intros [_ Hn]%elem_of_TxDifference. by rewrite txs_of_reverse in Hn.
  - rewrite decide_False.
    + apply (rd_some _ _ _ _ Hready). left. eapply (bo_complete _ _ Hold); [by eapply path_app|done].
    + intros [(tx' & E & (b' & Hb' & Htx')%elem_of_txs_of_blocks)%list_elem_of_fmap _]%elem_of_TxDifference.
      destruct (path_stored g _ _ _ _ Hs (bo_stored _ _ Hold) Po) as (_ & _ & Hall). rewrite Forall_forall in Hall.
      destruct (path_from _ _ _ _ _ Po Hb') as [l' Hl']. pose proof (path_app _ _ _ _ _ _ Hl' Hl2) as Hpp.
      by eapply (Hfresh b' (Hall b' Hb')); [exact Hpp|exact Htx'|exact Htx|].
Qed.
End Switch.

Lemma reorg_ok bc old new :
  store_ok g (bdb bc) → branch_ok (bdb bc) old → stored (bdb bc) new → (∀ b, stored (bdb bc) b → fresh_txs (bdb bc) b) →
  is_Some (currentHeader (hc bc)) →
  ∃ bc', reorg bc old new = Ok (None, bc') ∧ kept bc bc' ∧ branch_ok (bdb bc') new ∧ is_Some (currentHeader (hc bc')) ∧
    (canonicalHashes (bdb bc) !! NumberU64 new ≠ Some (Block_Hash new) → currentHeader (hc bc') = Some (block_header new)) ∧
    (∀ k, ¬ (0 ≤ k ≤ NumberU64 new) → canonicalHashes (bdb bc') !! k = canonicalHashes (bdb bc) !! k).
Proof using.
  intros Hs Hold Hnew Hfresh Hh. unfold reorg. destruct (level_ok g bc old new Hs (bo_stored _ _ Hold) Hnew) as (o & n & lo & ln & -> & Lo & Ln & So & Sn & En).
  cbn [bind]. pose proof (stored_number g _ _ Hs So) as [? _]. destruct (meet_ok g (Z.to_nat (NumberU64 o)) bc o n lo ln Hs So Sn En) as (c & lo' & ln' & -> & Lo' & Ln' & Sc); [lia|].
  cbn [bind]. pose proof (path_app _ _ _ _ _ _ Lo Lo') as Po. pose proof (path_app _ _ _ _ _ _ Ln Ln') as Pn.
  destruct (canon_down g _ _ _ _ Hs (bo_stored _ _ Hold) Po (bo_canon _ _ Hold)) as [Cc _].
  destruct (adopt_ok g bc new (ln ++ ln') c Hs Hnew Pn Cc Hh) as (bc1 & -> & K1 & C1 & H1 & N1 & Hne & Hnil & R1). cbn [bind].
  set (diff := TxDifference _ _). destruct (forget_lookups_spec (bdb bc1) diff) as (S2 & E4 & _).
  destruct (path_stored g _ _ _ _ Hs Hnew Pn) as (_ & Nn & _).
  eexists. split; [reflexivity|]. split_and!.
  - eapply kept_trans; [exact K1|]. split; try split; try done; apply S2.
  - assert (Hb : ∀ k, k ≤ NumberU64 c → canonicalHashes (bdb bc1) !! k = canonicalHashes (bdb bc) !! k) by (intros k Hk; apply N1; lia).
    split.
    + cbn. eapply same_stored; [|exact Hnew]. eapply same_trans; [apply K1|exact S2].
    + destruct C1 as [T L]. split; cbn; rewrite E4, ?(sd_headers _ _ S2); [exact T|exact L].
    + exact (switch_indexed (bdb bc) (bdb bc1) old new c _ _ Hs Hold Hnew Hfresh Po Pn (kc_data _ _ K1) Hb R1).
    + exact (switch_complete (bdb bc) (bdb bc1) old new c _ _ Hs Hold Hnew Hfresh Po Pn (kc_data _ _ K1) Hb R1).
  - exact H1.
  - intros Hn. destruct (decide (ln ++ ln' = [])) as [E|Hne']; [|by apply Hne].
    exfalso. rewrite E in Pn. inversion Pn; subst. apply Hn. apply Cc.
  - intros k Hk. cbn. rewrite E4. pose proof (stored_number g _ _ Hs Sc) as [? _]. apply N1. lia.
Qed.
End Reorg.
