(* ===== verification/ChainInvariant.v ===== *)
(** * What a chain guarantees while blocks are written

    The invariant of [core/blockchain.go], that [WriteBlockWithState] keeps it,
    and what follows for every chain that grew from its genesis block. *)

From Stdlib Require Import ZArith Lia.
From stdpp Require Import base option list gmap sets strings sorting.
From S2P Require Import Prelude GoFloat Params Rlp Types Account State Receipt DeriveSha Chain ChainStore HeaderChain.
From S2P Require Import Staking Transition Selection Bsrr BlockChain BlockChainProps.

(** ** A store that grows *)

Section Grow.
Context {C : Crypto} (g : Block).
Implicit Types (db : ChainDb) (b p c top : Block).

Lemma grown_stored db db' b : grown db db' → stored db b → stored db' b.
Proof using. intros G. by apply grown_read. Qed.

(** Below a stored block nothing is new. *)
Lemma path_shrink db db' b l c : store_ok g db → grown db db' → stored db b → path db' b l c → path db b l c.
Proof using.
  intros Hs G Hb Hp. induction Hp as [b|b p l c H0 Hr _ IH]; [constructor|].
  destruct (stored_parent g _ _ Hs Hb H0) as (p' & _ & Hp' & Hst & _). pose proof (grown_read _ _ _ _ _ G Hp') as E.
  rewrite Hr in E. injection E as <-. econstructor; [done|done|by apply IH].
Qed.

Lemma fresh_grown db db' b : store_ok g db → grown db db' → stored db b → fresh_txs db b → fresh_txs db' b.
Proof using. intros Hs G Hb Hf l c tx tx' Hp. apply (Hf l c). by eapply path_shrink. Qed.

Lemma branch_grown db db' top : store_ok g db → grown db db' → branch_ok db top → branch_ok db' top.
Proof using.
  intros Hs G [B1 [B2 B3] B4 B5]. split.
  - by eapply grown_stored.
  - split; rewrite (gr_canonical _ _ G); [done|]. intros k h Hk Hc. destruct (B3 k h Hk Hc) as (hd & Hh & ?). exists hd.
    split; [|done]. by eapply lookup_weaken; [|apply G].
  - intros x e. rewrite (gr_lookups _ _ G). intros (? & ? & txs & us & tx & Hb & ?)%B4. split; [done|]. split; [by rewrite (gr_canonical _ _ G)|].
    exists txs, us, tx. split; [|done]. by eapply lookup_weaken; [|apply G].
  - intros l b tx Hp. rewrite (gr_lookups _ _ G). apply (B5 l). by eapply path_shrink.
Qed.

Lemma fresh_new db db' b p :
  store_ok g db → grown db db' → ReadBlock db (ParentHash (block_header b)) (NumberU64 b - 1) = Some p → fresh_txs db b → fresh_txs db' b.
Proof using.
  intros Hs G Hr Hf l c tx tx' Hp. apply (Hf l c). inversion Hp as [|? p' ? ? H0 Hr' Hp']; subst.
  rewrite (grown_read _ _ _ _ _ G Hr) in Hr'. injection Hr' as <-. econstructor; [done|done|].
  eapply path_shrink; [done|done| |done]. apply (read_stored g _ _ _ _ Hs Hr).
Qed.

(** ** Weight along a branch *)

Definition td_of db b : option Z := tdData db !! (NumberU64 b, Block_Hash b).

Lemma path_td db b l c t tc :
  store_ok g db → stored db b → path db b l c → td_of db b = Some t → td_of db c = Some tc → tc ≤ t ∧ (l ≠ [] → tc < t).
Proof using.
  intros Hs Hb Hp. revert Hb t. induction Hp as [b|b p l c H0 Hr _ IH]; intros Hb t Ht Htc; [split; [simplify_eq; lia|done]|].
  destruct (stored_parent g _ _ Hs Hb H0) as (p' & td & Hp' & Hst & _ & _ & Htd & Hbt & Hd). assert (p' = p) as -> by congruence.
  destruct (IH Hst td Htd Htc) as [? _]. unfold td_of in Ht. assert (t = Difficulty (block_header b) + td) by congruence. split; [lia|]. intros _. lia.
Qed.

(** No canonical block is heavier than [top], not even those above it that an
    earlier branch has left. *)
Definition heaviest db top : Prop :=
  ∃ t, td_of db top = Some t ∧ ∀ k h, canonicalHashes db !! k = Some h → ∃ tc, tdData db !! (k, h) = Some tc ∧ tc ≤ t.

Lemma heaviest_grown db db' top : grown db db' → heaviest db top → heaviest db' top.
Proof using.
  intros G (t & Ht & H). exists t. split; [by eapply lookup_weaken; [|apply G]|]. intros k h. rewrite (gr_canonical _ _ G).
  intros (tc & Htc & ?)%H. exists tc. split; [|done]. by eapply lookup_weaken; [|apply G].
Qed.

(** A canonical block at or above the number and weight of the top is the top. *)
Lemma heaviest_tie db top b t tb :
  store_ok g db → branch_ok db top → stored db b → canonicalHashes db !! NumberU64 b = Some (Block_Hash b) →
  td_of db top = Some t → td_of db b = Some tb → t ≤ tb → NumberU64 b ≤ NumberU64 top → b = top.
Proof using.
  intros Hs [B1 B2 _ _] Hb Hc Ht Htb Hle Hn. pose proof (stored_number g _ _ Hs Hb) as [? _].
  destruct (canon_block g _ _ (NumberU64 b) Hs B1 B2) as (c & l & Hp & Hst & En & Hc'); [lia|].
  assert (c = b) as ->. { unfold stored in Hst, Hb. rewrite En in Hst. congruence. }
  destruct (path_td _ _ _ _ _ _ Hs B1 Hp Ht Htb) as [_ Hlt]. destruct l; [by inversion Hp|]. exfalso. assert (tb < t) by by apply Hlt. lia.
Qed.

(** A new top at least as heavy, whose number bounds what changed. *)
Lemma heaviest_switch db db' top b t tb :
  store_ok g db' → heaviest db top → branch_ok db' b → tdData db' = tdData db → td_of db top = Some t → td_of db b = Some tb → t ≤ tb →
  (∀ k, ¬ (0 ≤ k ≤ NumberU64 b) → canonicalHashes db' !! k = canonicalHashes db !! k) → heaviest db' b.
Proof using.
  intros Hs (t' & Ht' & H) [B1 B2 _ _] E Ht Htb Hle Hk. assert (t' = t) as -> by congruence. exists tb.
  split; [unfold td_of in *; by rewrite E|]. intros k h Hc. destruct (decide (0 ≤ k ≤ NumberU64 b)) as [Hkb|Hkb].
  - destruct (canon_block g _ _ k Hs B1 B2) as (c & l & Hp & Hst & En & Hc'); [done|].
    assert (h = Block_Hash c) as -> by congruence. destruct (stored_td g _ _ Hs Hst) as [tc Htc]. exists tc. rewrite <- En. split; [done|].
    eapply (path_td db' b l c); [done|done|done| |done]. unfold td_of in *. by rewrite E.
  - rewrite Hk in Hc by done. destruct (H k h Hc) as (tc & ? & ?). exists tc. rewrite E. split; [done|lia].
Qed.
End Grow.

(** ** The invariant *)

Section Inv.
Context {C : Crypto} {D : Database} {MO : MapOrder} {DS : DiskStore} {BQ : BlockQueue} (g : Block).
Implicit Types (bc : BlockChain) (db : ChainDb) (b p c top : Block).

(** The chain has the head [top]. *)
Record chain_inv bc top : Prop := {
  iv_store : store_ok g (bdb bc);
  iv_fresh : ∀ b, stored (bdb bc) b → fresh_txs (bdb bc) b;
  iv_current : currentBlock bc = Some top;
  iv_header : currentHeader (hc bc) = Some (block_header top);
  iv_branch : branch_ok (bdb bc) top;
  iv_heavy : heaviest (bdb bc) top;
  iv_genesis : genesisBlock bc = g
}.

Lemma same_sym db db' : same_data db db' → same_data db' db.
Proof using. by intros []. Qed.

Lemma fresh_same db db' b : same_data db db' → fresh_txs db b → fresh_txs db' b.
Proof using. intros S Hf l c tx tx' Hp. apply (Hf l c). eapply same_path; [|exact Hp]. by apply same_sym. Qed.

Lemma same_td db db' b : same_data db db' → td_of db' b = td_of db b.
Proof using. intros S. unfold td_of. by rewrite (sd_tds _ _ S). Qed.

Lemma all_fresh_same db db' : same_data db db' → (∀ b, stored db b → fresh_txs db b) → ∀ b, stored db' b → fresh_txs db' b.
Proof using. intros S H b Hb. eapply fresh_same; [done|]. apply H. eapply same_stored; [|exact Hb]. by apply same_sym. Qed.

Lemma branch_same db db' top :
  same_data db db' → canonicalHashes db' = canonicalHashes db → txLookups db' = txLookups db → branch_ok db top → branch_ok db' top.
Proof using.
  intros S E1 E2 [B1 [B2 B3] B4 B5]. split.
  - by eapply same_stored.
  - split; rewrite E1, ?(sd_headers _ _ S); done.
  - intros x e. rewrite E2. intros (? & ? & ?)%B4. unfold entry_ok. rewrite E1, (sd_bodies _ _ S). done.
  - intros l b tx Hp. rewrite E2. apply (B5 l). eapply same_path; [|exact Hp]. by apply same_sym.
Qed.

(** What the invariant is about is all that it reads. *)
Lemma inv_frame bc bc' top :
  same_data (bdb bc) (bdb bc') → canonicalHashes (bdb bc') = canonicalHashes (bdb bc) → txLookups (bdb bc') = txLookups (bdb bc) →
  currentBlock bc' = currentBlock bc → currentHeader (hc bc') = currentHeader (hc bc) → genesisBlock bc' = genesisBlock bc →
  chain_inv bc top → chain_inv bc' top.
Proof using.
  intros S E1 E2 E3 E4 E5 [I1 I2 I3 I4 I5 (t & Ht & H) I7]. split; try congruence.
  - by eapply same_ok.
  - by eapply all_fresh_same.
  - by eapply branch_same.
  - exists t. rewrite (same_td _ _ _ S), E1, (sd_tds _ _ S). done.
Qed.

(** Storing a block whose parent is known keeps the head. *)
Lemma write_inv bc top b ptd :
  chain_inv bc top → fits (bdb bc) b → fresh_txs (bdb bc) b → bc_GetTd bc (ParentHash (block_header b)) (NumberU64 b - 1) = Some ptd →
  let bc' := WriteBlockWithoutState bc b (Difficulty (block_header b) + ptd) in
  chain_inv bc' top ∧ grown (bdb bc) (bdb bc') ∧ stored (bdb bc') b ∧ td_of (bdb bc') b = Some (Difficulty (block_header b) + ptd).
Proof using.
  intros [I1 I2 I3 I4 I5 I6 I7] Hf Hfresh Hp bc'. change (tdData (bdb bc) !! (NumberU64 b - 1, ParentHash (block_header b)) = Some ptd) in Hp.
  change (bdb bc') with (written (bdb bc) b (Difficulty (block_header b) + ptd)). pose proof (written_grown g _ _ _ I1 Hf Hp) as G.
  pose proof (written_ok g _ _ _ I1 Hf Hp) as Hs. pose proof (written_stored (bdb bc) b (Difficulty (block_header b) + ptd)) as Hb.
  destruct (written_maps (bdb bc) b (Difficulty (block_header b) + ptd)) as (_ & E1 & _ & E3).
  split_and!; [|done|done|unfold td_of; by rewrite E3, lookup_insert_eq].
  split; change (bdb bc') with (written (bdb bc) b (Difficulty (block_header b) + ptd)); [done| |done|done|exact (branch_grown g _ _ _ I1 G I5)|exact (heaviest_grown _ _ _ G I6)|done].
  intros b' Hb'. destruct (decide (is_Some (headerData (bdb bc) !! (NumberU64 b', Block_Hash b')))) as [[hd Hh]|Hn].
  - destruct (read_header g _ _ _ _ I1 Hh) as (b2 & Hb2 & _). pose proof (grown_read _ _ _ _ _ G Hb2) as E. unfold stored in Hb'. rewrite Hb' in E. injection E as <-.
    exact (fresh_grown g _ _ _ I1 G Hb2 (I2 _ Hb2)).
  - pose proof Hb' as [Hh _]%ReadBlock_Some. rewrite E1 in Hh. apply lookup_insert_Some in Hh as [[[= En Eh] _]|[_ Hh]]; [|exfalso; apply Hn; by eexists].
    assert (b' = b) as -> by (unfold stored in Hb', Hb; congruence). destruct (so_td _ _ I1 (NumberU64 b - 1, ParentHash (block_header b))) as [hd Hh]; [by eexists|].
    destruct (read_header g _ _ _ _ I1 Hh) as (p & Hr & _). exact (fresh_new g _ _ _ _ I1 G Hr Hfresh).
Qed.

Lemma write_state_frame bc b s err bc' : write_state bc b s = Ok (err, bc') → ∃ d, bc' = put_stateCache bc d.
Proof using.
  unfold write_state. destruct (State.Commit s _) as [[root s']|e|w|]; [|intros [= _ <-]; exists (stateCache bc); by destruct bc|done..].
  destruct (triedb_Commit _ root) as [d|e|w|]; [|intros [= _ <-]; by eexists|done..]. destruct (_ && _); [|intros [= _ <-]; by eexists].
  destruct (prune _ _ _ _) as [[err' d']| | |]; [|done..]. intros [= _ <-]. by eexists.
Qed.

Lemma write_state_no_err bc b s e : write_state bc b s ≠ Err e.
Proof using.
  unfold write_state. destruct (State.Commit s _) as [[root s']| | |]; [|done..]. destruct (triedb_Commit _ root) as [d| | |]; [|done..].
  destruct (_ && _); [|done]. assert (Hp : ∀ fuel d n e, prune fuel bc d n ≠ Err e).
  { intros fuel. induction fuel as [|fuel IH]; intros d' n e'; cbn [prune]; destruct (n =? 0); try done;
      (destruct (hc_GetHeaderByNumber _ _); [|done]); (destruct (negb _); [done|]); (destruct (disk_Delete _ _); try done; apply IH). }
  destruct (prune _ _ _ _) as [[]| | |] eqn:E; [done| |done|done]. by apply Hp in E.
Qed.

(** A block whose branch, or whose parent's branch, is canonical is indexed and
    made the top. *)
Lemma settle_branch db db2 b :
  store_ok g db → stored db b → 0 < NumberU64 b →
  branch_ok db b ∨ (∃ p, ReadBlock db (ParentHash (block_header b)) (NumberU64 b - 1) = Some p ∧ branch_ok db p) →
  same_data db db2 → canonicalHashes db2 = <[NumberU64 b := Block_Hash b]> (canonicalHashes db) →
  txLookups db2 = write_lookups (txLookups db) (Block_Hash b) (NumberU64 b) 0 (block_transactions b) → branch_ok db2 b.
Proof using.
  intros Hs Hb H0 Hbr S Ec El. pose proof (same_stored _ _ _ S Hb) as Hb2. split; [done| | |].
  - destruct Hbr as [[_ [T L] _ _]|(p & Hr & B)]; [|by eapply canon_insert; [exact Hs|exact Hb| |exact Hr|apply B|apply S|]].
    rewrite (insert_id _ _ _ T) in Ec. split; rewrite Ec, ?(sd_headers _ _ S); done.
  - intros x e. rewrite El. intros [[H Hx]|(j & tx & Hj & <- & ->)]%write_lookups_spec.
    2: { apply entry_of_block; [done|lia| |done]. by rewrite Ec, lookup_insert_eq. }
    destruct Hbr as [[_ [T L] B _]|(p & Hr & [_ _ B _])].
    + rewrite (insert_id _ _ _ T) in Ec. unfold entry_ok. rewrite Ec, (sd_bodies _ _ S). by apply B.
    + destruct (read_stored g _ _ _ _ Hs Hr) as (_ & En & _). eapply entry_above; [apply S| | |by apply B]; [|lia]. intros k Hk. by rewrite Ec, lookup_insert_ne.
  - intros l c tx Hp Htx. rewrite El. apply write_lookups_some. apply (same_path db2 db) in Hp; [|by apply same_sym].
    destruct Hbr as [[_ _ _ B]|(p & Hr & [_ _ _ B])]; [left; by eapply B|]. inversion Hp as [|? p' l' ? _ Hr' Hp']; subst.
    + right. by apply list_elem_of_fmap_2.
    + rewrite Hr in Hr'. injection Hr' as <-. left. by eapply B.
Qed.

(** The batch that makes a block the head. *)
Definition batch bc b (receipts : list Receipt) (s : StateDB) : BlockChain :=
  put_bdb bc (WritePreimages (WriteTxLookupEntries (WriteReceipts (bdb bc) (Block_Hash b) (NumberU64 b) receipts) b) (State.preimages s)).

Lemma settled_ok bc b receipts s :
  store_ok g (bdb bc) → (∀ b, stored (bdb bc) b → fresh_txs (bdb bc) b) → stored (bdb bc) b → 0 < NumberU64 b →
  branch_ok (bdb bc) b ∨ (∃ p, ReadBlock (bdb bc) (ParentHash (block_header b)) (NumberU64 b - 1) = Some p ∧ branch_ok (bdb bc) p) →
  currentHeader (hc bc) = Some (block_header b) ∨ (is_Some (currentHeader (hc bc)) ∧ canonicalHashes (bdb bc) !! NumberU64 b ≠ Some (Block_Hash b)) →
  genesisBlock bc = g →
  ∃ bc', insert (batch bc b receipts s) b = Ok bc' ∧ kept bc bc' ∧
    canonicalHashes (bdb bc') = <[NumberU64 b := Block_Hash b]> (canonicalHashes (bdb bc)) ∧
    branch_ok (bdb bc') b ∧ (heaviest (bdb bc') b → chain_inv bc' b).
Proof using.
  intros Hs Hfr Hb H0 Hbr Hh Hg. pose proof (stored_number g _ _ Hs Hb) as [_ Hz].
  destruct (insert_spec (batch bc b receipts s) b) as (bc' & E & K & L & N & B & H); [destruct Hh as [Hh|[Hh _]]; [by exists (block_header b)|exact Hh]|done|].
  assert (K' : kept bc bc') by (destruct K as [[] ? ? [] ?]; split; done). 
  assert (B' : branch_ok (bdb bc') b) by (eapply settle_branch; [exact Hs|done|done|done|apply K'|done|done]).
  exists bc'. split_and!; [done|done|done|done|]. intros Hheavy. split; try done.
  - eapply same_ok; [apply K'|done].
  - eapply all_fresh_same; [apply K'|done].
  - rewrite H. destruct (decide _) as [E1|]; [|done]. by destruct Hh as [Hh|[_ Hn]].
  - by rewrite (proj1 (kc_genesis _ _ K')).
Qed.

Lemma reorg_same bc b : reorg bc b b = Ok (None, put_bdb bc (bdb bc)).
Proof using.
  unfold reorg, level. rewrite Z.ltb_irrefl. assert (E : ∀ fuel, reduce_to fuel bc (NumberU64 b) (Some b) [] = Ok (Some b, [])) by (intros [|]; cbn [reduce_to]; by rewrite Z.eqb_refl).
  rewrite E. cbn [bind]. assert (E' : ∀ fuel, meet fuel bc b b [] [] = Ok (inl (b, [], []))) by (intros [|]; cbn [meet]; by rewrite bool_decide_eq_true_2).
  by rewrite E'.
Qed.

Section Head.
Context (bc : BlockChain) (top b : Block) (t tb : Z).
Context (I : chain_inv bc top) (Hb : stored (bdb bc) b) (H0 : 0 < NumberU64 b).
Context (Ht : td_of (bdb bc) top = Some t) (Htb : td_of (bdb bc) b = Some tb).
Context (Hbetter : t < tb ∨ (t ≤ tb ∧ NumberU64 b ≤ NumberU64 top)).

Let becomes_head (bc' : BlockChain) : Prop :=
  chain_inv bc' b ∧ kept bc bc' ∧ ∀ k, ¬ (0 ≤ k ≤ NumberU64 b) → canonicalHashes (bdb bc') !! k = canonicalHashes (bdb bc) !! k.

Lemma canonical_light : canonicalHashes (bdb bc) !! NumberU64 b = Some (Block_Hash b) → tb ≤ t.
Proof using I Ht Htb.
  intros Hc. destruct (iv_heavy _ _ I) as (t' & Ht' & H). destruct (H _ _ Hc) as (tc & Htc & Hle). unfold td_of in *. congruence.
Qed.

Lemma head_heavy bc' :
  kept bc bc' → branch_ok (bdb bc') b → (∀ k, ¬ (0 ≤ k ≤ NumberU64 b) → canonicalHashes (bdb bc') !! k = canonicalHashes (bdb bc) !! k) → heaviest (bdb bc') b.
Proof using I Ht Htb Hbetter.
  intros K B Hk. eapply (heaviest_switch g (bdb bc)); [|apply I|done|apply K|done|done|lia|done]. eapply same_ok; [apply K|apply I].
Qed.

(** A child of the head. *)
Lemma extend_ok receipts s :
  ParentHash (block_header b) = Block_Hash top → ∃ bc', insert (batch bc b receipts s) b = Ok bc' ∧ becomes_head bc'.
Proof using I Hb H0 Ht Htb Hbetter.
  intros Hp. pose proof (iv_store _ _ I) as Hs. destruct (stored_parent g _ _ Hs Hb H0) as (p & td & Hr & Hst & Hn & Eh & Htd & Ebt & Hd).
  assert (p = top) as ->.
  { pose proof Hst as [Hh1 _]%ReadBlock_Some. pose proof (bo_stored _ _ (iv_branch _ _ I)) as Hst'. pose proof Hst' as [Hh2 _]%ReadBlock_Some.
    assert (E1 : headerNumbers (bdb bc) !! Block_Hash p = Some (NumberU64 p)) by (apply (so_numbers _ _ Hs); by eexists).
    assert (E2 : headerNumbers (bdb bc) !! Block_Hash top = Some (NumberU64 top)) by (apply (so_numbers _ _ Hs); by eexists).
    unfold stored in Hst, Hst'. rewrite Eh, Hp in *. congruence. }
  assert (td = t) as -> by (unfold td_of in Ht; congruence). assert (tb = Difficulty (block_header b) + t) by (unfold td_of in Htb; congruence).
  destruct (settled_ok bc b receipts s) as (bc' & E & K & N & B & Hinv); try apply I; try done.
  - right. exists top. split; [done|apply I].
  - right. split; [rewrite (iv_header _ _ I); by eexists|]. intros Hc%canonical_light. lia.
  - exists bc'. split; [done|]. assert (N' : ∀ k, ¬ (0 ≤ k ≤ NumberU64 b) → canonicalHashes (bdb bc') !! k = canonicalHashes (bdb bc) !! k).
    { intros k Hk. rewrite N, lookup_insert_ne; [done|lia]. }
    split; [|done]. by apply Hinv, head_heavy.
Qed.

(** A block of another branch, or the head again. *)
Lemma switch_ok receipts s :
  ∃ bc1 bc', reorg bc top b = Ok (None, bc1) ∧ insert (batch bc1 b receipts s) b = Ok bc' ∧ becomes_head bc'.
Proof using I Hb H0 Ht Htb Hbetter.
  pose proof (iv_store _ _ I) as Hs.
  destruct (reorg_ok g bc top b Hs (iv_branch _ _ I) Hb (iv_fresh _ _ I)) as (bc1 & E1 & K1 & B1 & S1 & Hh1 & N1); [rewrite (iv_header _ _ I); by eexists|].
  assert (Hh : currentHeader (hc bc1) = Some (block_header b)).
  { destruct (decide (canonicalHashes (bdb bc) !! NumberU64 b = Some (Block_Hash b))) as [Hc|Hc]; [|by apply Hh1].
    pose proof (canonical_light Hc). assert (b = top) as -> by (eapply (heaviest_tie g (bdb bc)); [done|apply I|done|done|done|done|lia|lia]).
    rewrite reorg_same in E1. injection E1 as <-. apply I. }
  destruct (settled_ok bc1 b receipts s) as (bc' & E & K & N & B & Hinv).
  - eapply same_ok; [apply K1|done].
  - eapply all_fresh_same; [apply K1|apply I].
  - eapply same_stored; [apply K1|done].
  - done.
  - by left.
  - by left.
  - rewrite (proj1 (kc_genesis _ _ K1)). apply I.
  - exists bc1, bc'. assert (K' : kept bc bc') by by eapply kept_trans. 
    assert (N' : ∀ k, ¬ (0 ≤ k ≤ NumberU64 b) → canonicalHashes (bdb bc') !! k = canonicalHashes (bdb bc) !! k).
    { intros k Hk. rewrite N, lookup_insert_ne by lia. by apply N1. }
    split_and!; [done|done|]. split; [|done]. by apply Hinv, head_heavy.
Qed.
End Head.

(** ** Writing with the state *)

Lemma better_true bc coin top b t tb :
  better bc coin top b t tb = true → t < tb ∨ (t ≤ tb ∧ NumberU64 b ≤ NumberU64 top).
Proof using.
  unfold better. destruct (Z.ltb_spec t tb); [by left|]. destruct (Z.eqb_spec tb t); [|done]. destruct (Z.ltb_spec (NumberU64 b) (NumberU64 top)); [right; lia|].
  destruct (Z.eqb_spec (NumberU64 b) (NumberU64 top)); [right; lia|done].
Qed.

Lemma better_false bc coin top b t tb : better bc coin top b t tb = false → tb ≤ t.
Proof using. unfold better. destruct (Z.ltb_spec t tb); [done|lia]. Qed.

(** The data of blocks is only added. *)
Record added db db' : Prop := {
  ad_headers : headerData db ⊆ headerData db';
  ad_bodies : bodyData db ⊆ bodyData db';
  ad_tds : tdData db ⊆ tdData db'
}.

Lemma added_trans db1 db2 db3 : added db1 db2 → added db2 db3 → added db1 db3.
Proof using. intros [] []. split; by etrans. Qed.

Lemma grown_added db db' : grown db db' → added db db'.
Proof using. by intros []. Qed.

Lemma same_added db db' : same_data db db' → added db db'.
Proof using. intros [_ E1 E2 E3]. split; by rewrite ?E1, ?E2, ?E3. Qed.

Lemma added_stored db db' b : added db db' → stored db b → stored db' b.
Proof using. intros [G1 G2 _] [H1 H2]%ReadBlock_Some. apply ReadBlock_Some. split; by eapply lookup_weaken. Qed.

Lemma added_td db db' b t : added db db' → td_of db b = Some t → td_of db' b = Some t.
Proof using. intros [_ _ G] H. by eapply lookup_weaken. Qed.

(** After the state was committed, the write succeeds: the block is the head if
    it is [better], and the head stays otherwise. *)
Lemma write_committed bc1 top b coin t tb receipts s :
  chain_inv bc1 top → stored (bdb bc1) b → 0 < NumberU64 b → td_of (bdb bc1) top = Some t → td_of (bdb bc1) b = Some tb →
  ∃ bc' top',
    (if better bc1 coin top b t tb then
       let* (err, bc) := if bool_decide (ParentHash (block_header b) = Block_Hash top) then Ok (None, bc1) else reorg bc1 top b in
       match err with
       | Some e => Ok (inr e, bc)
       | None => let* bc := insert (batch bc b receipts s) b in
                 Ok (inl CanonStatTy, put_future bc (queue_Remove (futureBlocks bc) (Block_Hash b)))
       end
     else Ok (inl SideStatTy, put_future (put_bdb bc1 (WriteReceipts (bdb bc1) (Block_Hash b) (NumberU64 b) receipts))
                                (queue_Remove (futureBlocks bc1) (Block_Hash b))))
    = Ok (inl (if better bc1 coin top b t tb then CanonStatTy else SideStatTy), bc') ∧
    top' = (if better bc1 coin top b t tb then b else top) ∧ chain_inv bc' top' ∧ same_data (bdb bc1) (bdb bc') ∧
    (∀ k, ¬ (0 ≤ k ≤ NumberU64 b) → canonicalHashes (bdb bc') !! k = canonicalHashes (bdb bc1) !! k).
Proof using.
  intros I Hb H0 Ht Htb. destruct (better bc1 coin top b t tb) eqn:E.
  2: { eexists _, top. split; [reflexivity|]. split; [done|]. split; [|done]. eapply inv_frame; [| | | | | |exact I]; done. }
  apply better_true in E. destruct (bool_decide_reflect (ParentHash (block_header b) = Block_Hash top)) as [Hp|Hp]; cbn [bind].
  - destruct (extend_ok bc1 top b t tb I Hb H0 Ht Htb E receipts s Hp) as (bc' & -> & I' & K & N). cbn [bind]. eexists _, b. split; [reflexivity|]. split; [done|].
    split; [|split; [apply K|exact N]]. eapply inv_frame; [| | | | | |exact I']; done.
  - destruct (switch_ok bc1 top b t tb I Hb H0 Ht Htb E receipts s) as (bc2 & bc' & -> & E2 & I' & K & N). cbn [bind]. rewrite E2. cbn [bind]. eexists _, b.
    split; [reflexivity|]. split; [done|]. split; [|split; [apply K|exact N]]. eapply inv_frame; [| | | | | |exact I']; done.
Qed.

Definition not_lighter db db' top top' : Prop := ∀ t, td_of db top = Some t → ∃ t', td_of db' top' = Some t' ∧ t ≤ t'.

(** What a write leaves behind: the head, and the outcome. *)
Definition write_post bc top b (r : WriteStatus + string) bc' top' : Prop :=
  chain_inv bc' top' ∧ added (bdb bc) (bdb bc') ∧ not_lighter (bdb bc) (bdb bc') top top' ∧
  (∀ x, stored (bdb bc') x → x = b ∨ stored (bdb bc) x) ∧
  match r with
  | inl CanonStatTy => top' = b ∧ stored (bdb bc') b
  | inl SideStatTy => top' = top ∧ stored (bdb bc') b ∧ not_lighter (bdb bc') (bdb bc') b top
  | inl NonStatTy => False
  | inr _ => top' = top
  end.

Lemma written_only db b td x : stored (written db b td) x → x = b ∨ stored db x.
Proof using.
  intros Hx. pose proof Hx as [H1 H2]%ReadBlock_Some. destruct (written_maps db b td) as (_ & E1 & E2 & _). rewrite E1 in H1. rewrite E2 in H2.
  apply lookup_insert_Some in H1 as [[[= En Eh] _]|[Hne H1]].
  - left. pose proof (written_stored db b td) as Hb. unfold stored in Hx, Hb. congruence.
  - right. rewrite lookup_insert_ne in H2 by done. by apply ReadBlock_Some.
Qed.

Lemma same_only db db' x : same_data db db' → stored db' x → stored db x.
Proof using. intros S. apply same_stored. by apply same_sym. Qed.

(** When the state is committed, [better] decides. *)
Lemma write_success bc top coin b receipts s ptd t bc2 :
  chain_inv bc top → fits (bdb bc) b → fresh_txs (bdb bc) b → bc_GetTd bc (ParentHash (block_header b)) (NumberU64 b - 1) = Some ptd →
  td_of (bdb bc) top = Some t → let tb := Difficulty (block_header b) + ptd in
  write_state (WriteBlockWithoutState bc b tb) b s = Ok (None, bc2) →
  ∃ bc', WriteBlockWithState bc coin b receipts s = Ok (inl (if better bc coin top b t tb then CanonStatTy else SideStatTy), bc') ∧
    chain_inv bc' (if better bc coin top b t tb then b else top) ∧ added (bdb bc) (bdb bc') ∧ stored (bdb bc') b ∧
    td_of (bdb bc') top = Some t ∧ td_of (bdb bc') b = Some tb ∧
    (∀ k, ¬ (0 ≤ k ≤ NumberU64 b) → canonicalHashes (bdb bc') !! k = canonicalHashes (bdb bc) !! k) ∧
    (∀ x, stored (bdb bc') x → x = b ∨ stored (bdb bc) x).
Proof using.
  intros I Hf Hfresh Hp Ht tb Ew. pose proof (ft_number _ _ Hf) as [_ Hn]. unfold WriteBlockWithState. rewrite u64_small by (unfold is_u64, maxUint64 in *; lia).
  rewrite Hp, (iv_current _ _ I). fold tb. rewrite Ew. cbn [bind]. destruct (write_inv bc top b ptd I Hf Hfresh Hp) as (I1 & G & Hb & Htb). fold tb in I1, G, Hb, Htb.
  set (bc1 := WriteBlockWithoutState bc b tb) in *. assert (Ht1 : td_of (bdb bc1) top = Some t) by (exact (added_td _ _ _ _ (grown_added _ _ G) Ht)).
  destruct (write_state_frame _ _ _ _ _ Ew) as [d ->]. assert (I2 : chain_inv (put_stateCache bc1 d) top) by (eapply inv_frame; [| | | | | |exact I1]; done).
  unfold bc_GetTd, hc_GetTd, ReadTd. change (chainDb (hc bc)) with (bdb bc). unfold td_of in Ht. rewrite Ht.
  destruct (write_committed (put_stateCache bc1 d) top b coin t tb receipts s I2 Hb) as (bc' & top' & E & Et & I' & S' & N'); [lia|done|done|].
  exists bc'. split; [exact E|]. change (better (put_stateCache bc1 d) coin top b t tb) with (better bc coin top b t tb) in Et. subst top'.
  pose proof (added_trans _ _ _ (grown_added _ _ G) (same_added _ _ S')) as A. split_and!; [done|done| |by eapply added_td| |exact N'|].
  - exact (added_stored _ _ _ (same_added _ _ S') Hb).
  - exact (added_td _ _ _ _ (same_added _ _ S') Htb).
  - intros x Hx%(same_only _ _ _ S'). exact (written_only _ _ _ _ Hx).
Qed.

(** Only committing the state can fail to return. *)
Lemma write_with_state bc top coin b receipts s :
  chain_inv bc top → fits (bdb bc) b → fresh_txs (bdb bc) b →
  match WriteBlockWithState bc coin b receipts s with
  | Ok (r, bc') => ∃ top', write_post bc top b r bc' top'
  | Err _ => False
  | bad => ∃ ptd, write_state (WriteBlockWithoutState bc b (Difficulty (block_header b) + ptd)) b s = match bad with Panic w => Panic w | _ => Hang end
  end.
Proof using.
  intros I Hf Hfresh. pose proof (ft_number _ _ Hf) as [_ Hn].
  destruct (bc_GetTd bc (ParentHash (block_header b)) (NumberU64 b - 1)) as [ptd|] eqn:Hp.
  2: { unfold WriteBlockWithState. rewrite u64_small, Hp by (unfold is_u64, maxUint64 in *; lia). exists top. split_and!; try done; [intros t Ht; by exists t|by right]. }
  destruct (stored_td g _ _ (iv_store _ _ I) (bo_stored _ _ (iv_branch _ _ I))) as [t Ht].
  destruct (write_state (WriteBlockWithoutState bc b (Difficulty (block_header b) + ptd)) b s) as [[[e|] bc2]|e|w|] eqn:Ew.
  2: { destruct (write_success bc top coin b receipts s ptd t bc2 I Hf Hfresh Hp Ht Ew) as (bc' & -> & I' & A & Hb' & Ht' & Htb' & _ & Ho). eexists. split; [exact I'|]. split; [done|].
    destruct (better _ coin top b t _) eqn:Eb; [apply better_true in Eb|apply better_false in Eb]; split_and!; try done;
      intros t0 Ht0; (eexists; split; [eassumption|]; unfold td_of in *; simplify_eq; lia). }
  all: unfold WriteBlockWithState; rewrite u64_small, Hp, (iv_current _ _ I), Ew by (unfold is_u64, maxUint64 in *; lia); cbn [bind].
  2: by apply write_state_no_err in Ew.
  2, 3: by exists ptd.
  destruct (write_inv bc top b ptd I Hf Hfresh Hp) as (I1 & G & _). destruct (write_state_frame _ _ _ _ _ Ew) as [d ->]. exists top. split_and!; [|by apply grown_added| | |done].
  - eapply inv_frame; [| | | | | |exact I1]; done.
  - intros t' Ht'. exists t'. split; [exact (added_td _ _ _ _ (grown_added _ _ G) Ht')|done].
  - intros x. apply written_only.
Qed.
End Inv.
