(* ===== verification/ChainReach.v ===== *)
(** * Chains that grow from their genesis block

    A chain is opened on a database that holds its genesis block, and blocks are
    written to it.  Whatever the order of the blocks, the coins and the branches,
    the canonical numbers are the branch of the head from the genesis block, the
    head is as heavy as any block written, and the index of transactions says
    where they are. *)

From Stdlib Require Import ZArith Lia.
From stdpp Require Import base option list gmap sets strings sorting.
From S2P Require Import Prelude GoFloat Params Rlp Types Account State Receipt DeriveSha Chain ChainStore HeaderChain.
From S2P Require Import Staking Transition Selection Bsrr BlockChain BlockChainLoad BlockChainProps ChainInvariant.

#[local] Opaque Header_Hash.

(** A database with nothing in it. *)
Definition fresh_db : ChainDb := {|
  canonicalHashes := ∅; headerNumbers := ∅; headerData := ∅; bodyData := ∅; tdData := ∅; receiptData := ∅; txLookups := ∅; preimageData := ∅;
  headHeaderHash := zeroHash; headBlockHash := zeroHash; headFastBlockHash := zeroHash |}.

Section Reach.
Context {C : Crypto} {D : Database} {MO : MapOrder} {DS : DiskStore} {BQ : BlockQueue}.
Implicit Types (bc : BlockChain) (db : ChainDb) (b p c top g : Block).

(** ** The start *)

Section Start.
Context (g : Block) (Hnum : Number (block_header g) = Some 0) (Hz : Block_Hash g ≠ zeroHash) (Htx : block_transactions g = []) (td : Z).
Let db := write_genesis fresh_db g (Some td).

Lemma genesis_number : NumberU64 g = 0.
Proof using Hnum. unfold NumberU64, num. by rewrite Hnum. Qed.

Lemma genesis_maps :
  canonicalHashes db = {[0 := Block_Hash g]} ∧ headerNumbers db = {[Block_Hash g := 0]} ∧ headerData db = {[(0, Block_Hash g) := block_header g]} ∧
  bodyData db = {[(0, Block_Hash g) := (block_transactions g, block_uncles g)]} ∧ tdData db = {[(0, Block_Hash g) := td]} ∧
  txLookups db = ∅ ∧ headBlockHash db = Block_Hash g ∧ headHeaderHash db = Block_Hash g ∧ headFastBlockHash db = zeroHash.
Proof using Hnum.
  pose proof genesis_number as E. unfold db, write_genesis. rewrite !E. unfold NumberU64 in E. cbn. rewrite E. split_and!; try done. unfold NumberU64. by rewrite E.
Qed.

Lemma genesis_read : ReadBlock db (Block_Hash g) 0 = Some g.
Proof using Hnum. destruct genesis_maps as (_ & _ & E1 & E2 & _). apply ReadBlock_Some. by rewrite E1, E2, !lookup_singleton_eq. Qed.

Lemma genesis_store : store_ok g db.
Proof using Hnum Hz.
  destruct genesis_maps as (_ & E0 & E1 & E2 & E3 & _). split; rewrite ?E0, ?E1, ?E2, ?E3.
  - intros n h hd [[= <- <-] <-]%lookup_singleton_Some. split_and!; try done; unfold maxUint64, two64; lia.
  - intros k. destruct (decide (k = (0, Block_Hash g))) as [->|Hne]; [rewrite !lookup_singleton_eq; split; by eexists|].
    rewrite !lookup_singleton_ne by done. split; by intros [? [=]].
  - intros n h. rewrite lookup_singleton_Some. split; [intros [<- <-]; by rewrite lookup_singleton_eq|]. intros [hd [[= <- <-] _]%lookup_singleton_Some]. done.
  - intros k [x [<- <-]%lookup_singleton_Some]. by rewrite lookup_singleton_eq.
  - split; [apply genesis_read|by rewrite lookup_singleton_eq].
  - by intros h hd [[= <-] _]%lookup_singleton_Some.
  - intros n h hd [[= <- _] _]%lookup_singleton_Some. lia.
Qed.

(** Nothing lies below the genesis block. *)
Lemma genesis_path l c : path db g l c → l = [] ∧ c = g.
Proof using Hnum. pose proof genesis_number. clear Hz Htx. inversion 1; subst; [done|lia]. Qed.

Lemma genesis_stored b : stored db b → b = g.
Proof using Hnum Hz.
  intros Hb. pose proof Hb as [Hh _]%ReadBlock_Some. destruct genesis_maps as (_ & _ & E1 & _). rewrite E1 in Hh.
  apply lookup_singleton_Some in Hh as [[= En _] _]. by eapply stored_zero; [apply genesis_store| |].
Qed.

Lemma genesis_branch : branch_ok db g.
Proof using Hnum Hz Htx.
  destruct genesis_maps as (E1 & _ & _ & _ & _ & E2 & _). pose proof genesis_number as En. split.
  - unfold stored. rewrite En. apply genesis_read.
  - split; rewrite E1, En; [apply lookup_singleton_eq|lia].
  - intros x e. by rewrite E2.
  - intros l b tx [-> ->]%genesis_path Hin. rewrite Htx in Hin. by apply elem_of_nil in Hin.
Qed.

Lemma genesis_heaviest : heaviest db g.
Proof using Hnum.
  destruct genesis_maps as (E1 & _ & _ & _ & E3 & _). exists td. unfold td_of. rewrite genesis_number, E1, E3, lookup_singleton_eq.
  split; [done|]. intros k h [<- <-]%lookup_singleton_Some. exists td. by rewrite lookup_singleton_eq.
Qed.

Lemma start_of bc :
  same_data db (bdb bc) → canonicalHashes (bdb bc) = canonicalHashes db → txLookups (bdb bc) = txLookups db → currentBlock bc = Some g →
  currentHeader (hc bc) = Some (block_header g) → genesisBlock bc = g → chain_inv g bc g.
Proof using Hnum Hz Htx.
  intros S E1 E2 E3 E4 E5. split; try done.
  - eapply same_ok; [exact S|apply genesis_store].
  - eapply all_fresh_same; [exact S|]. intros b ->%genesis_stored l c tx tx' [[=] _]%genesis_path.
  - eapply branch_same; [exact S|done|done|apply genesis_branch].
  - destruct genesis_heaviest as (t & Ht & H). exists t. by rewrite (same_td _ _ _ S), E1, (sd_tds _ _ S).
Qed.

Lemma purge_none fuel bc bad : headerNumbers (bdb bc) = {[Block_Hash g := 0]} → Block_Hash g ∉ bad → purge_bad fuel bc bad = Ok bc.
Proof using.
  intros E. induction bad as [|h bad IH]; intros Hn; [done|]. apply not_elem_of_cons in Hn as [Hne Hn]. cbn [purge_bad].
  unfold hc_GetHeaderByHash, hc_GetBlockNumber, ReadHeaderNumber. change (chainDb (hc bc)) with (bdb bc). rewrite E, lookup_singleton_ne by done. by apply IH.
Qed.

Lemma start_header : NewHeaderChain db = Ok {| chainDb := db; genesisHeader := block_header g; currentHeader := Some (block_header g); currentHeaderHash := Block_Hash g |}.
Proof using Hnum Hz.
  destruct genesis_maps as (E1 & E0 & E2 & _ & _ & _ & E5 & _). unfold NewHeaderChain, ReadCanonicalHash, ReadHeader, hc_GetHeaderByHash, hc_GetBlockNumber, ReadHeaderNumber, hc_GetHeader, ReadHeader.
  cbn [chainDb]. rewrite E1, E5, E0, lookup_singleton_eq. cbn [default]. rewrite bool_decide_eq_false_2 by done. rewrite E2, !lookup_singleton_eq. simpl.
  by rewrite bool_decide_eq_false_2, lookup_singleton_eq by done.
Qed.

(** Opening the chain finds the genesis block, or fails for want of its state. *)
Lemma start_inv fuel bad q d archive config preserve bc :
  Block_Hash g ∉ bad → NewBlockChain fuel bad q db d archive config preserve = Ok bc → chain_inv g bc g.
Proof using Hnum Hz Htx.
  intros Hbad. pose proof genesis_read as Hr. destruct genesis_maps as (E1 & E0 & E2 & E3 & _ & _ & E5 & E6 & E7).
  unfold NewBlockChain. destruct (Bsrr config) as [bsrr|]; [|done]. rewrite start_header. cbn [bind].
  unfold ReadCanonicalHash. rewrite E1, lookup_singleton_eq. change (default zeroHash (Some (Block_Hash g))) with (Block_Hash g).
  rewrite bool_decide_eq_false_2 by done. fold db. rewrite Hr.
  set (bc0 := Build_BlockChain _ _ _ _ _ _ _ _ _ _). unfold loadLastState. change (bdb bc0) with db. rewrite E5, bool_decide_eq_false_2 by done.
  unfold bc_GetBlockByHash, hc_GetBlockNumber, ReadHeaderNumber, bc_GetBlock. change (chainDb (hc bc0)) with db. change (bdb bc0) with db. rewrite E0, lookup_singleton_eq.
  cbn [mbind option_bind]. rewrite Hr, genesis_number. change (Z.to_nat 0) with 0%nat. cbn [repair].
  destruct (state_opens bc0 (Root (block_header g))) as [[|]| | |]; cbn [bind]; [|by destruct (parent_of bc0 g); cbn [bind]|done..].
  set (bc1 := restore_heads bc0 g). assert (Hbc1 : chain_inv g bc1 g ∧ headerNumbers (bdb bc1) = {[Block_Hash g := 0]}).
  { unfold bc1, restore_heads. change (bdb bc0) with db. rewrite E6, bool_decide_eq_false_2 by done.
    unfold hc_GetHeaderByHash, hc_GetBlockNumber, ReadHeaderNumber, hc_GetHeader, ReadHeader. change (chainDb (hc bc0)) with db. rewrite E0, lookup_singleton_eq.
    cbn [mbind option_bind]. rewrite E2, lookup_singleton_eq. cbn [default]. split; [|exact E0]. apply start_of; done. }
  destruct Hbc1 as [I E]. rewrite (purge_none _ _ _ E Hbad). by intros [= <-].
Qed.
End Start.

Lemma Commit_genesis gen d d' db db' g :
  Genesis_Commit gen d db = Ok (inl g, d', db') →
  Number (block_header g) = Some 0 ∧ block_transactions g = [] ∧ db' = write_genesis db g (Some (default 0 (gen_Difficulty gen))).
Proof using.
  unfold Genesis_Commit, ToBlock. destruct (New zeroHash d) as [s| | |]; [|discriminate..]. cbn [bind]. destruct (IntermediateRoot _ false) as [[root s']| | |]; [|discriminate..]. cbn [bind].
  destruct (match State.Commit s' false with Ok _ => _ | _ => _ end) as [d1| | |]; [|discriminate..]. cbn [bind]. unfold NewBlock.
  destruct (DeriveSha (Transactions_GetRlp [])) as [tx| | |]; [|discriminate..]. cbn [bind].
  match goal with |- (if ?c then _ else _) = _ → _ => destruct c eqn:E end; [|discriminate]. change ((gen_Number gen =? 0) = true) in E. apply Z.eqb_eq in E.
  intros [= <- _ <-]. split_and!; [cbn; by rewrite E|done|done].
Qed.

(** ** Writing *)

(** The chain [bc] grew from the genesis block [g]; the blocks [l] were written
    with their states.  Blocks have no hash in common with others and repeat no
    transaction of their branch.  The queue of future blocks changes freely. *)
Inductive reached g : list Block → BlockChain → Prop :=
  | reached_start gen d d' fuel bad q noPruning config preserve db bc :
      Genesis_Commit gen d fresh_db = Ok (inl g, d', db) → Block_Hash g ≠ zeroHash → Block_Hash g ∉ bad →
      NewBlockChain fuel bad q db d' noPruning config preserve = Ok bc → reached g [] bc
  | reached_written l bc coin b receipts s st bc' :
      reached g l bc → fits (bdb bc) b → fresh_txs (bdb bc) b →
      WriteBlockWithState bc coin b receipts s = Ok (inl st, bc') → reached g (b :: l) bc'
  | reached_refused l bc coin b receipts s e bc' :
      reached g l bc → fits (bdb bc) b → fresh_txs (bdb bc) b →
      WriteBlockWithState bc coin b receipts s = Ok (inr e, bc') → reached g l bc'
  | reached_bare l bc b ptd :
      reached g l bc → fits (bdb bc) b → fresh_txs (bdb bc) b →
      bc_GetTd bc (ParentHash (block_header b)) (u64 (NumberU64 b - 1)) = Some ptd →
      reached g l (WriteBlockWithoutState bc b (Difficulty (block_header b) + ptd))
  | reached_queued l bc q : reached g l bc → reached g l (put_future bc q).

(** A block that is in the chain and not heavier than the head. *)
Definition under db top b : Prop := stored db b ∧ not_lighter db db b top.

Lemma under_added g db db' top top' b :
  store_ok g db → added db db' → not_lighter db db' top top' → under db top b → under db' top' b.
Proof using.
  intros Hs A Hn [Hb Hu]. split; [by eapply added_stored|]. intros t Ht. destruct (stored_td g _ _ Hs Hb) as [t0 Ht0].
  pose proof (added_td _ _ _ _ A Ht0) as E. assert (t0 = t) as -> by congruence. destruct (Hu t Ht0) as (t1 & Ht1 & ?). destruct (Hn t1 Ht1) as (t2 & ? & ?).
  exists t2. split; [done|lia].
Qed.

Lemma under_refl g bc top : chain_inv g bc top → under (bdb bc) top top.
Proof using. intros I. split; [apply I|]. intros t Ht. by exists t. Qed.

Lemma reached_inv g l bc : reached g l bc → ∃ top, chain_inv g bc top ∧ Forall (under (bdb bc) top) (g :: l).
Proof using.
  induction 1 as [gen d d' fuel bad q arch config preserve db bc Hc Hz Hbad Ho|l bc coin b receipts s st bc' _ (top & I & Hl) Hf Hfr Hw
    |l bc coin b receipts s e bc' _ (top & I & Hl) Hf Hfr Hw|l bc b ptd _ (top & I & Hl) Hf Hfr Hp|l bc q _ (top & I & Hl)].
  - destruct (Commit_genesis _ _ _ _ _ _ Hc) as (Hn & Htx & ->). pose proof (start_inv g Hn Hz Htx _ _ _ _ _ _ _ _ _ Hbad Ho) as I.
    exists g. split; [done|]. constructor; [by eapply under_refl|done].
  - pose proof (write_with_state g bc top coin b receipts s I Hf Hfr) as H. rewrite Hw in H. destruct H as (top' & I' & A & Hn & _ & Hst).
    exists top'. split; [done|]. assert (Hl' : Forall (under (bdb bc') top') (g :: l)).
    { eapply Forall_impl; [exact Hl|]. intros b'. apply (under_added g); [apply I|done|done]. }
    apply Forall_cons in Hl' as [Hg Hl']. constructor; [done|]. constructor; [|done].
    destruct st; [done|destruct Hst as [-> _]; by eapply under_refl|destruct Hst as (-> & ? & ?); by split].
  - pose proof (write_with_state g bc top coin b receipts s I Hf Hfr) as H. rewrite Hw in H. destruct H as (top' & I' & A & Hn & _).
    exists top'. split; [done|]. eapply Forall_impl; [exact Hl|]. intros b'. apply (under_added g); [apply I|done|done].
  - pose proof (ft_number _ _ Hf) as [_ Hn]. rewrite u64_small in Hp by (unfold is_u64, maxUint64 in *; lia).
    destruct (write_inv g bc top b ptd I Hf Hfr Hp) as (I' & G & _). exists top. split; [done|]. eapply Forall_impl; [exact Hl|].
    intros b'. apply (under_added g); [apply I|by apply grown_added|]. intros t Ht. exists t. split; [|done]. by eapply added_td; [apply grown_added|].
  - exists top. split; [|done]. eapply inv_frame; [| | | | | |exact I]; done.
Qed.

(** ** What the chain answers *)

Lemma by_number g bc top k :
  chain_inv g bc top → 0 ≤ k ≤ NumberU64 top →
  ∃ b l, path (bdb bc) top l b ∧ stored (bdb bc) b ∧ NumberU64 b = k ∧ bc_GetBlockByNumber bc k = Some b.
Proof using.
  intros I Hk. destruct (canon_block g _ _ k (iv_store _ _ _ I) (bo_stored _ _ (iv_branch _ _ _ I)) (bo_canon _ _ (iv_branch _ _ _ I)) Hk) as (b & l & Hp & Hb & En & Hc).
  exists b, l. split_and!; try done. destruct (stored_number g _ _ (iv_store _ _ _ I) Hb) as [_ Hz]. unfold bc_GetBlockByNumber, ReadCanonicalHash. rewrite Hc. simpl.
  rewrite bool_decide_eq_false_2 by done. unfold stored in Hb. by rewrite En in Hb.
Qed.

Lemma by_hash g bc b : store_ok g (bdb bc) → stored (bdb bc) b → bc_GetBlockByHash bc (Block_Hash b) = Some b.
Proof using.
  intros Hs Hb. pose proof Hb as [Hh _]%ReadBlock_Some. unfold bc_GetBlockByHash, hc_GetBlockNumber, ReadHeaderNumber. change (chainDb (hc bc)) with (bdb bc).
  rewrite (proj2 (so_numbers _ _ Hs (NumberU64 b) (Block_Hash b))) by by eexists. exact Hb.
Qed.

(** C9: the canonical chain is a chain: the current block and the current header
    are the same; from the genesis block at number zero up to the current block
    every number has a block, found by its number and by its hash, whose parent
    is the block of the number before. *)
Theorem canonical_chain g l bc :
  reached g l bc →
  ∃ top, currentBlock bc = Some top ∧ currentHeader (hc bc) = Some (block_header top) ∧
    bc_GetBlockByNumber bc (NumberU64 top) = Some top ∧ bc_GetBlockByNumber bc 0 = Some g ∧
    ∀ k, 0 < k ≤ NumberU64 top →
      ∃ b p, bc_GetBlockByNumber bc k = Some b ∧ bc_GetBlockByHash bc (Block_Hash b) = Some b ∧ NumberU64 b = k ∧
        bc_GetBlockByNumber bc (k - 1) = Some p ∧ ParentHash (block_header b) = Block_Hash p.
Proof using.
  intros (top & I & _)%reached_inv. pose proof (iv_store _ _ _ I) as Hs. pose proof (bo_stored _ _ (iv_branch _ _ _ I)) as Ht. pose proof (stored_number g _ _ Hs Ht) as [Hn _].
  exists top. split_and!; [apply I|apply I| | |].
  - destruct (by_number g bc top (NumberU64 top) I) as (b & l' & _ & Hb & En & Hg); [lia|]. rewrite Hg. f_equal.
    unfold bc_GetBlockByNumber, ReadCanonicalHash in Hg. rewrite (cn_top _ _ (bo_canon _ _ (iv_branch _ _ _ I))) in Hg. simpl in Hg.
    destruct (bool_decide _); [done|]. unfold bc_GetBlock in Hg. unfold stored in Ht. congruence.
  - destruct (by_number g bc top 0 I) as (b & l' & _ & Hb & En & Hg); [lia|]. rewrite Hg. f_equal. by eapply stored_zero.
  - intros k Hk. destruct (by_number g bc top k I) as (b & l1 & Hp1 & Hb & En & Hg); [lia|]. destruct (by_number g bc top (k - 1) I) as (p & l2 & _ & Hp & Enp & Hgp); [lia|].
    exists b, p. split_and!; try done; [by eapply by_hash|]. destruct (stored_parent g _ _ Hs Hb) as (p' & _ & Hr & Hst & Enp' & Eh & _); [lia|].
    destruct (canon_down g _ _ _ _ Hs Ht (path_app _ _ _ _ [b] p' Hp1 ltac:(econstructor; [lia|done|constructor])) (bo_canon _ _ (iv_branch _ _ _ I))) as [[T _] _].
    unfold bc_GetBlockByNumber, ReadCanonicalHash in Hgp. replace (NumberU64 p') with (k - 1) in T by lia. rewrite T in Hgp. simpl in Hgp. destruct (bool_decide _); [done|].
    destruct (read_stored g _ _ _ _ Hs Hgp) as (E & _). congruence.
Qed.

(** C10: the fork choice keeps the heaviest branch: the total difficulty of the
    current block is at least that of the genesis block and of every block that
    was ever written with its state, and all of them are still stored. *)
Theorem heaviest_head g l bc :
  reached g l bc →
  ∃ top t, currentBlock bc = Some top ∧ bc_GetTd bc (Block_Hash top) (NumberU64 top) = Some t ∧
    ∀ b, b ∈ g :: l → ∃ tb, bc_GetTd bc (Block_Hash b) (NumberU64 b) = Some tb ∧ tb ≤ t ∧ bc_GetBlock bc (Block_Hash b) (NumberU64 b) = Some b.
Proof using.
  intros (top & I & Hl)%reached_inv. pose proof (iv_store _ _ _ I) as Hs.
  destruct (stored_td g _ _ Hs (bo_stored _ _ (iv_branch _ _ _ I))) as [t Ht]. exists top, t. split_and!; [apply I|exact Ht|].
  intros b Hb. rewrite Forall_forall in Hl. destruct (Hl b Hb) as [Hst Hn]. destruct (stored_td g _ _ Hs Hst) as [tb Htb]. exists tb. split_and!; [exact Htb| |exact Hst].
  destruct (Hn tb Htb) as (t' & Ht' & ?). unfold td_of in Ht'. assert (t' = t) by congruence. lia.
Qed.

Lemma reached_lawful g l bc : reached g l bc → ChainLaws (reader_of bc).
Proof using.
  intros (top & I & _)%reached_inv. pose proof (iv_store _ _ _ I) as Hs.
  assert (H : ∀ h n hd, headerData (bdb bc) !! (n, h) = Some hd → Header_Hash hd = h ∧ Number hd = Some n ∧ is_u64 n).
  { intros h n hd Hh. destruct (so_header _ _ Hs _ _ _ Hh) as (? & ? & ? & _). split_and!; [done|done|]. unfold is_u64, maxUint64 in *. lia. }
  split.
  - exact H.
  - intros n hd. cbn. unfold hc_GetHeaderByNumber. destruct (bool_decide _); [done|]. intros (_ & ? & ?)%H. done.
  - intros h n b. cbn. intros [Hh _]%ReadBlock_Some. exact (H _ _ _ Hh).
Qed.


(** *** Transactions *)

Lemma canonical_at g bc top k h :
  chain_inv g bc top → 0 ≤ k ≤ NumberU64 top → canonicalHashes (bdb bc) !! k = Some h →
  ∃ b l, path (bdb bc) top l b ∧ stored (bdb bc) b ∧ NumberU64 b = k ∧ Block_Hash b = h ∧ bc_GetBlockByNumber bc k = Some b.
Proof using.
  intros I Hk Hc. destruct (by_number g bc top k I Hk) as (b & l & Hp & Hb & En & Hg). exists b, l. split_and!; try done.
  unfold bc_GetBlockByNumber, ReadCanonicalHash in Hg. rewrite Hc in Hg. simpl in Hg. destruct (bool_decide _); [done|].
  by destruct (read_stored g _ _ _ _ (iv_store _ _ _ I) Hg) as (-> & _).
Qed.

(** Of two blocks on a branch the higher one lies above the other. *)
Lemma path_above g db top l b l' b' :
  store_ok g db → stored db top → path db top l b → path db top l' b' → NumberU64 b' < NumberU64 b → ∃ l2, path db b (b :: l2) b'.
Proof using.
  intros Hs Ht Hp Hp' Hlt. destruct (path_split _ _ _ _ _ _ Hp Hp') as [Hin|[l2 Hl2]].
  - destruct (path_stored g _ _ _ _ Hs Ht Hp) as (_ & _ & Hall). rewrite Forall_forall in Hall.
    destruct (path_from _ _ _ _ _ Hp Hin) as [l3 Hl3]. destruct (path_stored g _ _ _ _ Hs (Hall b' Hin) Hl3) as (_ & E & _). simpl in E. lia.
  - inversion Hl2; subst; [lia|]. eexists. done.
Qed.

(** Blocks of a branch that share a transaction are the same. *)
Lemma branch_tx_unique g bc top l b l' b' tx tx' :
  chain_inv g bc top → path (bdb bc) top l b → path (bdb bc) top l' b' → stored (bdb bc) b → stored (bdb bc) b' →
  tx ∈ block_transactions b → tx' ∈ block_transactions b' → Tx_Hash tx = Tx_Hash tx' →
  canonicalHashes (bdb bc) !! NumberU64 b = Some (Block_Hash b) → canonicalHashes (bdb bc) !! NumberU64 b' = Some (Block_Hash b') → b = b'.
Proof using.
  intros I Hp Hp' Hb Hb' Htx Htx' E Hc Hc'. pose proof (bo_stored _ _ (iv_branch _ _ _ I)) as Ht. pose proof (iv_store _ _ _ I) as Hs.
  destruct (Z.lt_trichotomy (NumberU64 b) (NumberU64 b')) as [Hlt|[En|Hlt]].
  - destruct (path_above g _ _ _ _ _ _ Hs Ht Hp' Hp Hlt) as [l2 Hl2]. exfalso. by apply (iv_fresh _ _ _ I b' Hb' l2 b tx' tx).
  - unfold stored in Hb, Hb'. rewrite En in *. congruence.
  - destruct (path_above g _ _ _ _ _ _ Hs Ht Hp Hp' Hlt) as [l2 Hl2]. exfalso. by apply (iv_fresh _ _ _ I b Hb l2 b' tx tx').
Qed.

Lemma lookup_found g bc top x e :
  chain_inv g bc top → txLookups (bdb bc) !! x = Some e →
  ∃ b l tx, path (bdb bc) top l b ∧ stored (bdb bc) b ∧ canonicalHashes (bdb bc) !! NumberU64 b = Some (Block_Hash b) ∧
    bc_GetBlockByNumber bc (NumberU64 b) = Some b ∧ 0 ≤ NumberU64 b ≤ NumberU64 top ∧ block_transactions b !! Z.to_nat (entry_Index e) = Some tx ∧
    Tx_Hash tx = x ∧ ReadTransaction (bdb bc) x = Some (tx, Block_Hash b, NumberU64 b, entry_Index e).
Proof using.
  intros I He. destruct (bo_indexed _ _ (iv_branch _ _ _ I) _ _ He) as (Hk & Hc & txs & us & tx & Hb & Hi & Htx & Hx).
  destruct (canonical_at g bc top _ _ I Hk Hc) as (b & l & Hp & Hst & En & Eh & Hg). pose proof Hst as [_ Hbody]%ReadBlock_Some. rewrite En, Eh, Hb in Hbody. injection Hbody as -> ->.
  exists b, l, tx. rewrite En, Eh. split_and!; try done; try lia. destruct (stored_number g _ _ (iv_store _ _ _ I) Hst) as [_ Hz]. rewrite Eh in Hz.
  unfold ReadTransaction, ReadTxLookupEntry. rewrite He, bool_decide_eq_false_2 by done. unfold ReadBody. rewrite Hb. simpl. by rewrite Htx.
Qed.

(** C11: the index of transactions is right: what it returns for a hash is a
    transaction with that hash, at that position of the canonical block it names;
    and every transaction of a canonical block up to the head is found there,
    also after reorganisations. *)
Theorem transactions_found g l bc :
  reached g l bc →
  ∃ top, currentBlock bc = Some top ∧
    (∀ x tx bh bn i, ReadTransaction (bdb bc) x = Some (tx, bh, bn, i) →
       Tx_Hash tx = x ∧ bn ≤ NumberU64 top ∧
       ∃ b, bc_GetBlockByNumber bc bn = Some b ∧ Block_Hash b = bh ∧ block_transactions b !! Z.to_nat i = Some tx) ∧
    (∀ k b tx, 0 ≤ k ≤ NumberU64 top → bc_GetBlockByNumber bc k = Some b → tx ∈ block_transactions b →
       ∃ tx' i, ReadTransaction (bdb bc) (Tx_Hash tx) = Some (tx', Block_Hash b, k, i) ∧ Tx_Hash tx' = Tx_Hash tx).
Proof using.
  intros (top & I & _)%reached_inv. exists top. split_and!; [apply I| |].
  - intros x tx bh bn i H. destruct (txLookups (bdb bc) !! x) as [e|] eqn:He; [|unfold ReadTransaction, ReadTxLookupEntry in H; by rewrite He in H].
    destruct (lookup_found g bc top x e I He) as (b & l' & tx' & _ & _ & _ & Hg & Hn & Hi & Hx & Hr). rewrite Hr in H. injection H as <- <- <- <-.
    split_and!; [done|lia|]. by exists b.
  - intros k b tx Hk Hg Htx. destruct (by_number g bc top k I Hk) as (b' & l1 & Hp & Hst & En & Hg'). assert (b' = b) as -> by congruence.
    destruct (bo_complete _ _ (iv_branch _ _ _ I) _ _ _ Hp Htx) as [e He]. destruct (lookup_found g bc top _ e I He) as (b1 & l2 & tx' & Hp1 & Hst1 & Hc1 & _ & _ & Hi & Hx & Hr).
    assert (b1 = b) as ->; [|rewrite En in Hr; by exists tx', (entry_Index e)].
    destruct (canon_down g _ _ _ _ (iv_store _ _ _ I) (bo_stored _ _ (iv_branch _ _ _ I)) Hp (bo_canon _ _ (iv_branch _ _ _ I))) as [[T _] _].
    eapply (branch_tx_unique g bc top l2 b1 l1 b tx' tx); try done. by eapply list_elem_of_lookup_2.
Qed.

(** *** One more block *)

Section Write.
Context (g : Block) (l : list Block) (bc : BlockChain) (top b : Block) (coin : bool) (receipts : list Receipt) (s : StateDB) (ptd t : Z) (bc2 : BlockChain).
Context (HR : reached g l bc) (Htop : currentBlock bc = Some top) (Hfits : fits (bdb bc) b) (Hfresh : fresh_txs (bdb bc) b).
Context (Hp : bc_GetTd bc (ParentHash (block_header b)) (u64 (NumberU64 b - 1)) = Some ptd).
Context (Ht : bc_GetTd bc (Block_Hash top) (NumberU64 top) = Some t).
Context (Hw : write_state (WriteBlockWithoutState bc b (Difficulty (block_header b) + ptd)) b s = Ok (None, bc2)).

Let heavier : bool := better bc coin top b t (Difficulty (block_header b) + ptd).

Lemma write_reached :
  ∃ bc', WriteBlockWithState bc coin b receipts s = Ok (inl (if heavier then CanonStatTy else SideStatTy), bc') ∧ chain_inv g bc top ∧
    chain_inv g bc' (if heavier then b else top) ∧ added (bdb bc) (bdb bc') ∧
    (∀ k, ¬ (0 ≤ k ≤ NumberU64 b) → canonicalHashes (bdb bc') !! k = canonicalHashes (bdb bc) !! k).
Proof using HR Htop Hfits Hfresh Hp Ht Hw.
  destruct (reached_inv _ _ _ HR) as (top' & I & _). assert (top' = top) as -> by (pose proof (iv_current _ _ _ I); congruence).
  pose proof (ft_number _ _ Hfits) as [_ Hn]. pose proof Hp as Hp'. rewrite u64_small in Hp' by (unfold is_u64, maxUint64 in *; lia).
  destruct (write_success g bc top coin b receipts s ptd t bc2 I Hfits Hfresh Hp' Ht Hw) as (bc' & E & I' & A & _ & _ & _ & N & _). by exists bc'.
Qed.


(** C39: a reorganisation to a shorter branch leaves the numbers of the longer one
    behind: after the head moved from [top] down to [b], the number of [top] is
    above the head and still canonical, [GetBlockByNumber] returns [top] for it. *)
Theorem stale_numbers_stay :
  heavier = true → NumberU64 b < NumberU64 top →
  ∃ bc', WriteBlockWithState bc coin b receipts s = Ok (inl CanonStatTy, bc') ∧ currentBlock bc' = Some b ∧
    bc_GetBlockByNumber bc' (NumberU64 top) = Some top.
Proof using HR Htop Hfits Hfresh Hp Ht Hw.
  intros Hb Hlt. destruct write_reached as (bc' & E & I & I' & A & N). rewrite Hb in E, I'. exists bc'. split_and!; [done|apply I'|].
  pose proof (bo_stored _ _ (iv_branch _ _ _ I)) as Hst. pose proof (stored_number g _ _ (iv_store _ _ _ I) Hst) as [_ Hz].
  unfold bc_GetBlockByNumber, ReadCanonicalHash. rewrite N, (cn_top _ _ (bo_canon _ _ (iv_branch _ _ _ I))) by lia. simpl.
  rewrite bool_decide_eq_false_2 by done. exact (added_stored _ _ _ A Hst).
Qed.
End Write.

(** *** A database without a head *)

(** C40: a node cannot start when its database has a genesis block but no head
    block, because the head was not written or its block is missing: the chain
    announces a reset, and [NewBlockChain] panics in [SetHead], which reads the
    current block before one was stored. *)
Theorem reset_at_start_panics fuel bad q db d noPruning config preserve g :
  Bsrr config ≠ None → ReadCanonicalHash db 0 ≠ zeroHash → ReadBlock db (ReadCanonicalHash db 0) 0 = Some g → Number (block_header g) = Some 0 →
  headBlockHash db = zeroHash ∨ headerNumbers db !! headBlockHash db = None →
  ∃ w, NewBlockChain fuel bad q db d noPruning config preserve = Panic w.
Proof using.
  intros Hc Hz Hg Hn Hh. destruct (Bsrr config) as [bsrr|] eqn:Eb; [|done]. unfold NewBlockChain, NewHeaderChain. rewrite Eb, bool_decide_eq_false_2 by done.
  pose proof Hg as [Hhd _]%ReadBlock_Some. unfold ReadHeader. rewrite Hhd, Hg. cbn [bind].
  set (h0 := {| chainDb := db; genesisHeader := block_header g; currentHeader := Some (block_header g); currentHeaderHash := zeroHash |}).
  assert (E : (if bool_decide (headBlockHash db = zeroHash) then block_header g else default (block_header g) (hc_GetHeaderByHash h0 (headBlockHash db))) = block_header g).
  { destruct (bool_decide_reflect (headBlockHash db = zeroHash)); [done|]. destruct Hh as [|Hh]; [done|]. unfold hc_GetHeaderByHash, hc_GetBlockNumber, ReadHeaderNumber. simpl. by rewrite Hh. }
  rewrite E. set (bc := Build_BlockChain _ _ _ _ _ _ _ _ _ _).
  assert (El : loadLastState (Reset fuel) bc = Reset fuel bc).
  { unfold loadLastState. change (headBlockHash (bdb bc)) with (headBlockHash db). destruct (bool_decide_reflect (headBlockHash db = zeroHash)); [done|].
    destruct Hh as [|Hh]; [done|]. unfold bc_GetBlockByHash, hc_GetBlockNumber, ReadHeaderNumber. change (chainDb (hc bc)) with db. by rewrite Hh. }
  assert (E0 : big_Uint64 (num (block_header g)) = 0) by (unfold num; by rewrite Hn).
  assert (Er : hc_SetHead (hc bc) 0 true = Ok (put_current (put_chainDb h0 (WriteHeadHeaderHash db (Header_Hash (block_header g)))) (Some (block_header g)) (Header_Hash (block_header g)))).
  { unfold hc_SetHead. cbn [hc bc put_current currentHeader]. rewrite E0. change (Z.to_nat 0) with 0%nat. cbn [rewind currentHeader put_current]. by rewrite E0. }
  assert (Es : ∃ w, SetHead fuel bc 0 = Panic w) by (eexists; destruct fuel; cbn [SetHead]; rewrite Er; reflexivity).
  destruct Es as [w Es]. exists w. rewrite El. unfold Reset, ResetWithGenesisBlock. by rewrite Es.
Qed.
End Reach.
