(* ===== verification/ChainRewind.v ===== *)
(** * Rewinding a chain

    [SetHead] of [core/blockchain.go] and [core/headerchain.go]: the blocks above
    the new head are deleted, what is below stays. *)

From Stdlib Require Import ZArith Lia.
From stdpp Require Import base option list gmap sets strings sorting.
From S2P Require Import Prelude GoFloat Params Rlp Types Account State Receipt DeriveSha Chain ChainStore HeaderChain.
From S2P Require Import Staking Transition Selection Bsrr BlockChain BlockChainLoad BlockChainProps ChainInvariant ChainReach.

#[local] Opaque Header_Hash.

Section Rewind.
Context {C : Crypto} (g : Block).
Implicit Types (db : ChainDb) (b p c top : Block) (hc : HeaderChain).

(** Up to the number [n] the two databases have the same blocks. *)
Record agree (n : Z) db db' : Prop := {
  ag_headers : ∀ k h, k ≤ n → headerData db' !! (k, h) = headerData db !! (k, h);
  ag_bodies : ∀ k h, k ≤ n → bodyData db' !! (k, h) = bodyData db !! (k, h);
  ag_numbers : ∀ k h, k ≤ n → is_Some (headerData db !! (k, h)) → headerNumbers db' !! h = headerNumbers db !! h
}.

Lemma agree_read n db db' h k : agree n db db' → k ≤ n → ReadBlock db' h k = ReadBlock db h k.
Proof using. intros A Hk. unfold ReadBlock, ReadHeader, ReadBody. by rewrite (ag_headers _ _ _ A), (ag_bodies _ _ _ A). Qed.

(** What deleting the block [b] leaves. *)
Definition deleted db b : ChainDb :=
  DeleteTd (DeleteHeader (DeleteBody db (Block_Hash b) (NumberU64 b)) (Block_Hash b) (NumberU64 b)) (Block_Hash b) (NumberU64 b).

Lemma agree_deleted n db db' b :
  store_ok g db → stored db b → n < NumberU64 b → agree (NumberU64 b) db db' → agree n db (deleted db' b).
Proof using.
  intros Hs Hb Hn A. split; cbn.
  - intros k h Hk. rewrite lookup_delete_ne by (intros [= E _]; lia). apply A. lia.
  - intros k h Hk. rewrite lookup_delete_ne by (intros [= E _]; lia). apply A. lia.
  - intros k h Hk Hh. pose proof Hb as [Hhb _]%ReadBlock_Some. rewrite lookup_delete_ne; [apply (ag_numbers _ _ _ A k); [lia|done]|].
    intros <-. apply (so_numbers _ _ Hs) in Hh. assert (E : headerNumbers db !! Block_Hash b = Some (NumberU64 b)) by (apply (so_numbers _ _ Hs); by eexists).
    rewrite E in Hh. injection Hh as <-. lia.
Qed.

Lemma rewind_ok db top l b fuel hc :
  store_ok g db → stored db top → path db top l b → agree (NumberU64 top) db (chainDb hc) → currentHeader hc = Some (block_header top) → (length l ≤ fuel)%nat →
  ∃ hc', rewind fuel hc (NumberU64 b) true = Ok hc' ∧ currentHeader hc' = Some (block_header b) ∧ agree (NumberU64 b) db (chainDb hc') ∧
    canonicalHashes (chainDb hc') = canonicalHashes (chainDb hc) ∧
    headerData (chainDb hc') ⊆ headerData (chainDb hc) ∧ Forall (λ c, headerData (chainDb hc') !! (NumberU64 c, Block_Hash c) = None) l.
Proof using.
  intros Hs Hst Hp. revert fuel hc Hst. induction Hp as [b|b p l c H0 Hr Hp IH]; intros fuel hc Hst A Hc Hf.
  { exists hc. split_and!; try done. destruct fuel; cbn [rewind]; rewrite Hc; unfold NumberU64; by rewrite Z.ltb_irrefl. }
  destruct (read_stored g _ _ _ _ Hs Hr) as (Eh & En & Hpn & _ & Hsp). destruct (path_stored g _ _ _ _ Hs Hsp Hp) as (_ & Ecn & _).
  pose proof (stored_number g _ _ Hs Hst) as [Hbn _]. destruct fuel as [|fuel]; [simpl in Hf; lia|]. cbn [rewind]. rewrite Hc.
  change (big_Uint64 (num (block_header b))) with (NumberU64 b). destruct (Z.ltb_spec (NumberU64 c) (NumberU64 b)) as [_|]; [|lia].
  assert (Eg : hc_GetHeader hc (ParentHash (block_header b)) (u64 (NumberU64 b - 1)) = Some (block_header p)).
  { rewrite u64_small by (unfold is_u64, maxUint64 in *; lia). unfold hc_GetHeader, ReadHeader. rewrite (ag_headers _ _ _ A) by lia. by apply ReadBlock_Some in Hr as [? _]. }
  rewrite Eg. change (DeleteTd _ _ _) with (deleted (chainDb hc) b).
  assert (A' : agree (NumberU64 p) db (deleted (chainDb hc) b)) by (apply agree_deleted; [done|done|lia|done]).
  destruct (IH fuel (put_current (put_chainDb hc (deleted (chainDb hc) b)) (Some (block_header p)) (currentHeaderHash hc)) Hsp A' eq_refl) as (hc' & E & Hc' & Ha & Ecan & Hsub & Hall);
    [simpl in Hf; lia|].
  exists hc'. split_and!; try done.
  - etrans; [exact Hsub|]. apply delete_subseteq.
  - constructor; [|done]. destruct (headerData (chainDb hc') !! _) as [hd|] eqn:E'; [|done]. eapply lookup_weaken in E'; [|exact Hsub].
    cbn in E'. by rewrite lookup_delete_eq in E'.
Qed.

Lemma unnumber_spec n db height k :
  canonicalHashes (unnumber n db height) !! k = (if decide (height - Z.of_nat n < k ≤ height) then None else canonicalHashes db !! k) ∧
  headerData (unnumber n db height) = headerData db ∧ bodyData (unnumber n db height) = bodyData db ∧ headerNumbers (unnumber n db height) = headerNumbers db ∧
  headHeaderHash (unnumber n db height) = headHeaderHash db.
Proof using.
  revert db height. induction n as [|n IH]; intros db height; cbn [unnumber].
  { rewrite decide_False by lia. done. }
  destruct (IH (DeleteCanonicalHash db height) (height - 1)) as (E & -> & -> & -> & ->). rewrite E. split_and!; try done. cbn.
  destruct (decide (height - 1 - Z.of_nat n < k ≤ height - 1)); [rewrite decide_True by lia; done|].
  destruct (decide (k = height)) as [->|Hne]; [rewrite lookup_delete_eq, decide_True by lia; done|]. rewrite lookup_delete_ne, decide_False by lia. done.
Qed.
End Rewind.

Section SetHead.
Context {C : Crypto} {D : Database} {MO : MapOrder} {DS : DiskStore} {BQ : BlockQueue} (g : Block).
Implicit Types (bc : BlockChain) (db : ChainDb) (b p c top : Block) (h : HeaderChain).

(** The database after the headers [l] were rewound, from [top] to [b]. *)
Record rewound db db' top (l : list Block) b : Prop := {
  rw_agree : agree (NumberU64 b) db db';
  rw_numbers : ∀ k, canonicalHashes db' !! k = if decide (NumberU64 b < k ≤ NumberU64 top) then None else canonicalHashes db !! k;
  rw_gone : Forall (λ c, headerData db' !! (NumberU64 c, Block_Hash c) = None) l
}.

(** The heads are no part of it. *)
Lemma rewound_heads db db' top l b x y z : rewound db db' top l b → rewound db (put_heads db' x y z) top l b.
Proof using. by intros [[] ? ?]. Qed.

Lemma hc_SetHead_ok db top l b h :
  store_ok g db → stored db top → path db top l b → chainDb h = db → currentHeader h = Some (block_header top) →
  ∃ h', hc_SetHead h (NumberU64 b) true = Ok h' ∧ currentHeader h' = Some (block_header b) ∧ rewound db (chainDb h') top l b ∧ headHeaderHash (chainDb h') = Block_Hash b.
Proof using.
  intros Hs Hst Hp Hdb Hc. destruct (path_stored g _ _ _ _ Hs Hst Hp) as (Hb & Hn & _). pose proof (stored_number g _ _ Hs Hb) as [Hbn _].
  unfold hc_SetHead. rewrite Hc. change (big_Uint64 (num (block_header top))) with (NumberU64 top).
  assert (A : agree (NumberU64 top) db (chainDb h)) by (by rewrite Hdb).
  destruct (rewind_ok g db top l b (Z.to_nat (NumberU64 top)) h Hs Hst Hp A Hc) as (h' & -> & Hc' & A' & Ecan & Hsub & Hall); [lia|]. cbn [bind].
  cbn [currentHeader put_chainDb]. rewrite Hc'. eexists. split; [reflexivity|]. split; [done|]. split; [|done]. apply rewound_heads.
  pose proof (unnumber_spec (Z.to_nat (NumberU64 top - NumberU64 b)) (chainDb h') (NumberU64 top)) as U. cbn [chainDb put_chainDb]. split.
  - destruct (U 0) as (_ & E1 & E2 & E3 & _). destruct A' as [A1 A2 A3]. split; rewrite ?E1, ?E2, ?E3; done.
  - intros k. destruct (U k) as (-> & _). rewrite Ecan, Hdb. repeat destruct (decide _); try done; lia.
  - by destruct (U 0) as (_ & -> & _).
Qed.

Section Blocks.
Context (bc : BlockChain) (db : ChainDb) (top b : Block) (l : list Block).
Context (Hs : store_ok g db) (Hb : stored db b) (Hr : rewound db (bdb bc) top l b).

Lemma rewound_read : bc_GetBlock bc (Block_Hash b) (NumberU64 b) = Some b.
Proof using Hb Hr. unfold bc_GetBlock. rewrite (agree_read _ _ _ _ _ (rw_agree _ _ _ _ _ Hr)) by done. exact Hb. Qed.

Lemma rewound_number : headerNumbers (bdb bc) !! Block_Hash b = Some (NumberU64 b).
Proof using Hs Hb Hr.
  pose proof Hb as [Hh _]%ReadBlock_Some. rewrite (ag_numbers _ _ _ (rw_agree _ _ _ _ _ Hr) (NumberU64 b)) by (done || by eexists).
  apply (so_numbers _ _ Hs). by eexists.
Qed.

(** The head is loaded. *)
Lemma load_rewound reset :
  headBlockHash (bdb bc) = Block_Hash b → headHeaderHash (bdb bc) = Block_Hash b → state_opens bc (Root (block_header b)) = Ok true →
  ∃ bc', loadLastState reset bc = Ok (None, bc') ∧ currentBlock bc' = Some b ∧ currentHeader (hc bc') = Some (block_header b) ∧ rewound db (bdb bc') top l b.
Proof using Hs Hb Hr.
  intros E1 E2 Hopen. destruct (stored_number g _ _ Hs Hb) as [_ Hz]. unfold loadLastState. rewrite E1, bool_decide_eq_false_2 by done.
  unfold bc_GetBlockByHash, hc_GetBlockNumber, ReadHeaderNumber. change (chainDb (hc bc)) with (bdb bc). rewrite rewound_number. cbn [mbind option_bind]. rewrite rewound_read.
  assert (Er : ∀ fuel, repair fuel bc b = Ok (inl b)) by (intros [|]; cbn [repair]; by rewrite Hopen). rewrite Er. cbn [bind].
  eexists. split; [reflexivity|]. unfold restore_heads. rewrite E2, bool_decide_eq_false_2 by done.
  unfold hc_GetHeaderByHash, hc_GetBlockNumber, ReadHeaderNumber. change (chainDb (hc bc)) with (bdb bc). rewrite rewound_number. cbn [mbind option_bind].
  pose proof rewound_read as [Hh _]%ReadBlock_Some. unfold hc_GetHeader, ReadHeader. change (chainDb (hc bc)) with (bdb bc). rewrite Hh.
  split; [done|]. split; [done|]. apply rewound_heads. exact Hr.
Qed.

Lemma rewind_blocks_ok f :
  currentBlock bc = Some top → NumberU64 b < NumberU64 top ∨ b = top → currentFastBlock bc = Some f → state_opens bc (Root (block_header b)) = Ok true →
  ∃ fast, rewind_blocks bc (block_header b) =
    Ok (put_bdb (put_blocks bc (Some b) (Some fast)) (WriteHeadFastBlockHash (WriteHeadBlockHash (bdb bc) (Block_Hash b)) (Block_Hash fast))).
Proof using Hb Hr.
  intros Ec Hlt Ef Hopen. unfold rewind_blocks. rewrite Ec, Ef. change (big_Uint64 (num (block_header b))) with (NumberU64 b). change (Header_Hash (block_header b)) with (Block_Hash b).
  assert (Eb : (if NumberU64 b <? NumberU64 top then bc_GetBlock bc (Block_Hash b) (NumberU64 b) else Some top) = Some b).
  { rewrite rewound_read. destruct (Z.ltb_spec (NumberU64 b) (NumberU64 top)); [done|]. destruct Hlt as [?| ->]; [lia|done]. }
  rewrite Eb, Hopen. cbn [bind]. eexists. reflexivity.
Qed.
End Blocks.

(** C16: [SetHead] rewinds the chain: to the canonical block of a number whose
    state is there, it returns without error, that block is the current block and
    its header the current header; up to it the canonical chain is what it was,
    and above it, up to the old head, no number is canonical and no block of the
    old chain is left. *)
Theorem SetHead_rewinds l bc top f n b s fuel :
  reached g l bc → currentBlock bc = Some top → currentFastBlock bc = Some f → 0 ≤ n ≤ NumberU64 top →
  bc_GetBlockByNumber bc n = Some b → New (Root (block_header b)) (stateCache bc) = Ok s →
  ∃ bc', SetHead fuel bc n = Ok (None, bc') ∧ currentBlock bc' = Some b ∧ currentHeader (hc bc') = Some (block_header b) ∧
    (∀ k, 0 ≤ k ≤ n → bc_GetBlockByNumber bc' k = bc_GetBlockByNumber bc k) ∧
    (∀ k c, n < k ≤ NumberU64 top → bc_GetBlockByNumber bc k = Some c →
       bc_GetBlockByNumber bc' k = None ∧ bc_GetBlock bc' (Block_Hash c) k = None).
Proof using.
  intros (top' & I & _)%reached_inv Hc Hf Hn Hg Hs. assert (top' = top) as -> by (pose proof (iv_current _ _ _ I); congruence).
  pose proof (iv_store _ _ _ I) as Hok. pose proof (bo_stored _ _ (iv_branch _ _ _ I)) as Hst. pose proof (bo_canon _ _ (iv_branch _ _ _ I)) as Hcan.
  destruct (by_number g bc top n I Hn) as (b' & lp & Hp & Hb & En & Hg'). assert (b' = b) as -> by congruence. subst n.
  destruct (hc_SetHead_ok (bdb bc) top lp b (hc bc) Hok Hst Hp eq_refl (iv_header _ _ _ I)) as (h & Eh & Hh & Hr & Ehd).
  set (bc1 := put_future (put_hc bc h) (queue_Purge (futureBlocks bc))).
  assert (Hopen : ∀ bc', stateCache bc' = stateCache bc → state_opens bc' (Root (block_header b)) = Ok true) by (intros bc' E; unfold state_opens; by rewrite E, Hs).
  assert (Hlt : NumberU64 b < NumberU64 top ∨ b = top).
  { destruct (path_stored g _ _ _ _ Hok Hst Hp) as (_ & E & _). destruct lp; [right; by inversion Hp|left; simpl in E; lia]. }
  destruct (rewind_blocks_ok bc1 (bdb bc) top b lp Hb Hr f Hc Hlt Hf (Hopen bc1 eq_refl)) as (fast & E2).
  set (bc2 := put_bdb _ _) in E2. assert (Hr2 : rewound (bdb bc) (bdb bc2) top lp b) by (do 2 apply rewound_heads; exact Hr).
  set (reset := λ bc, match fuel with O => Hang | S fuel => ResetWithGenesisBlock (λ bc, SetHead fuel bc 0) bc (genesisBlock bc) end).
  destruct (load_rewound bc2 (bdb bc) top b lp Hok Hb Hr2 reset eq_refl Ehd (Hopen bc2 eq_refl)) as (bc' & E3 & Hc3 & Hh3 & Hr3).
  exists bc'. split_and!; [|done|done| |].
  - destruct fuel; cbn [SetHead]; rewrite Eh; cbn [bind]; rewrite Hh; fold bc1; rewrite E2; cbn [bind]; exact E3.
  - intros k Hk. unfold bc_GetBlockByNumber, ReadCanonicalHash. rewrite (rw_numbers _ _ _ _ _ Hr3), decide_False by lia. destruct (bool_decide _); [done|].
    unfold bc_GetBlock. apply (agree_read _ _ _ _ _ (rw_agree _ _ _ _ _ Hr3)). lia.
  - intros k c Hk Hgc. split; [unfold bc_GetBlockByNumber, ReadCanonicalHash; rewrite (rw_numbers _ _ _ _ _ Hr3), decide_True by lia; done|].
    destruct (by_number g bc top k I) as (c' & lc & Hpc & Hsc & Enc & Hg2); [pose proof (stored_number g _ _ Hok Hb); lia|]. assert (c' = c) as -> by congruence.
    destruct (canon_down g _ _ _ _ Hok Hst Hpc Hcan) as [[T _] _]. rewrite Enc in T.
    destruct (canon_on_path g _ _ _ _ k _ Hok Hst Hcan Hp Hk T) as (c2 & Hin & En2 & Eh2). pose proof (rw_gone _ _ _ _ _ Hr3) as Hall. rewrite Forall_forall in Hall.
    pose proof (Hall c2 Hin) as E. rewrite En2, Eh2 in E. unfold bc_GetBlock, ReadBlock, ReadHeader. by rewrite E.
Qed.
End SetHead.
