(* ===== verification/BlockInsert.v ===== *)
(** * Importing blocks

    [core/block_validator.go], [core/blockchain_insert.go] and the import of
    [core/blockchain.go]: headers are verified by the consensus engine, bodies by
    the validator, a block is executed on the state of its parent, what the
    execution gives is compared with the header, and the block is written.  A
    branch whose states were pruned is stored first and executed when it is
    heavy enough.

    One reading of the clock serves an import; [coin] is what is drawn when a
    block is written.  The interruption of an import, the timers, the statistics
    and the reports of bad blocks are left out. *)

From Stdlib Require Import ZArith Lia.
From stdpp Require Import base option list gmap sets strings sorting.
From S2P Require Import Prelude GoFloat Params Rlp Types Account State Receipt DeriveSha Chain ChainStore HeaderChain.
From S2P Require Import Staking Dao Transition Evm Selection Bsrr BlockChain BlockChainLoad.

Definition ErrPrunedAncestor : string := "pruned ancestor".
Definition ErrKnownBlock : string := "block already known".
Definition errGhostState : string := "sidechain ghost-state attack".
Definition maxTimeFutureBlocks : Z := 30.
Definition GasLimitBoundDivisor : Z := 1024.
Definition MinGasLimit : Z := 5000.

(** The keys of the map. *)
Definition BadHashes : list Hash :=
  [Z_be 0x05bef30ef572270f654746da22639a7a0c97dd97a7050b9e252391996aaeb689;
   Z_be 0x7d05d08cbc596a2e5e4f13b80a743e53e09221b5323c3a61946b20873e58583f].

(** ** The gas limit of the next block *)

(** [uint64] wraps around. *)
Definition CalcGasLimit (parent : Header) (gasFloor gasCeil : Z) : Z :=
  let contrib := u64 (GasUsed parent + GasUsed parent / 2) / GasLimitBoundDivisor in
  let decay := u64 (GasLimit parent / GasLimitBoundDivisor - 1) in
  let limit := u64 (u64 (GasLimit parent - decay) + contrib) in
  let limit := if limit <? MinGasLimit then MinGasLimit else limit in
  if limit <? gasFloor then
    let limit := u64 (GasLimit parent + decay) in
    if gasFloor <? limit then gasFloor else limit
  else if gasCeil <? limit then
    let limit := u64 (GasLimit parent - decay) in
    if limit <? gasCeil then gasCeil else limit
  else limit.

(** What happened to the chain, for its subscribers. *)
Inductive chain_event :=
  | ChainEvent (b : Block) (l : list Log)
  | ChainSideEvent (b : Block)
  | ChainHeadEvent (b : Block).

Section Insert.
Context {C : Crypto} {D : Database} {I : Interpreter} {MO : MapOrder} {GR : GoRand} {SH : Sha256} {DS : DiskStore} {BQ : BlockQueue}.
Implicit Types (bc : BlockChain) (c : BSRR) (b : Block).

(** ** The validator *)

Definition ValidateBody bc b : result (option string) :=
  let header := block_header b in
  if bc_HasBlockAndState bc (Block_Hash b) (NumberU64 b) then Ok (Some ErrKnownBlock)
  else
    match VerifyUncles b with
    | Err e => Ok (Some e)
    | Panic w => Panic w
    | Hang => Hang
    | Ok _ =>
        if negb (bool_decide (CalcUncleHash (block_uncles b) = UncleHash header)) then Ok (Some "uncle root hash mismatch")
        else
          let* hash := DeriveSha (Transactions_GetRlp (block_transactions b)) in
          if negb (bool_decide (hash = TxHash header)) then Ok (Some "transaction root hash mismatch")
          else if negb (bc_HasBlockAndState bc (ParentHash header) (u64 (NumberU64 b - 1))) then
            if negb (HasBlock bc (ParentHash header) (u64 (NumberU64 b - 1))) then Ok (Some ErrUnknownAncestor)
            else Ok (Some ErrPrunedAncestor)
          else Ok None
    end.

(** The state comes back finalised. *)
Definition ValidateState (config : ChainConfig) b (s : StateDB) (receipts : list Receipt) (usedGas : Z) : result (option string * StateDB) :=
  let header := block_header b in
  if negb (GasUsed header =? usedGas) then Ok (Some "invalid gas used", s)
  else
    let* bloom := CreateBloom receipts in
    if negb (bool_decide (bloom = Bloom header)) then Ok (Some "invalid bloom", s)
    else
      let* receiptSha := DeriveSha (Receipts_GetRlp receipts) in
      if negb (bool_decide (receiptSha = ReceiptHash header)) then Ok (Some "invalid receipt root hash", s)
      else
        let* (root, s) := IntermediateRoot s (IsEIP158 config (Number header)) in
        if negb (bool_decide (Root header = root)) then Ok (Some "invalid merkle root", s) else Ok (None, s).

(** ** The processor with the engine *)

(** [StateProcessor.Process] with the engine that comes back; what a failed
    [Finalize] has cached is dropped. *)
Definition Process_engine (noRecursion preimages : bool) (config : ChainConfig) c (chain : ChainReader StateDB) b (s : StateDB)
  : result (processed * BSRR) :=
  let header := block_header b in
  let* gp := AddGas 0 (GasLimit header) in
  let s := if DAOForkSupport config && bool_decide (DAOForkBlock config = Some (num header)) then ApplyDAOHardFork s else s in
  let author := match Author header with Ok a => a | _ => zeroAddress end in
  let* (r, s, gp, usedGas) := Process_loop config chain author noRecursion preimages header 0 (block_transactions b) gp 0 s [] in
  match r with
  | inr e => Ok ({| pr_receipts := []; pr_logs := []; pr_usedGas := 0; pr_err := Some e; pr_state := s |}, c)
  | inl receipts =>
      let outcome err s := {| pr_receipts := receipts; pr_logs := concat (rcpt_Logs <$> receipts); pr_usedGas := usedGas; pr_err := err; pr_state := s |} in
      match Finalize c chain header s (block_transactions b) with
      | Ok (_, s, c) => Ok (outcome None s, c)
      | Err e => Ok (outcome (Some e) s, c)
      | Panic p => Panic p
      | Hang => Hang
      end
  end.

(** It is [Process] with this engine. *)
Lemma Process_engine_Process noRecursion preimages config c chain b s :
  Process (E := bsrrEngine c chain) config chain b s noRecursion preimages =
  match Process_engine noRecursion preimages config c chain b s with Ok (p, _) => Ok p | Err e => Err e | Panic w => Panic w | Hang => Hang end.
Proof using.
  unfold Process, Process_engine. destruct (AddGas 0 _) as [gp| | |]; [|done..]. cbn [bind]. cbn [Engine_Author bsrrEngine].
  destruct (Process_loop _ _ _ _ _ _ _ _ _ _ _ _) as [[[[r s2] gp'] used]| | |]; [|done..]. cbn [bind]. destruct r as [receipts|e]; [|done]. cbn [Engine_Finalize bsrrEngine].
  destruct (Finalize c chain _ s2 _) as [[[h s3] c']| | |]; done.
Qed.

(** ** The iterator *)

Record insertIterator := {
  it_chain : list Block;
  it_results : list (result unit);
  it_index : Z
}.

Definition newInsertIterator (chain : list Block) (results : list (result unit)) : insertIterator :=
  {| it_chain := chain; it_results := results; it_index := -1 |}.

(** The next block, and why it cannot be imported. *)
Definition next bc (it : insertIterator) : result (option Block * option string * insertIterator) :=
  if Z.of_nat (length (it_chain it)) <=? it_index it + 1 then
    Ok (None, None, {| it_chain := it_chain it; it_results := it_results it; it_index := Z.of_nat (length (it_chain it)) |})
  else
    let index := it_index it + 1 in
    match it_chain it !! Z.to_nat index, it_results it with
    | Some b, r :: results =>
        let it := {| it_chain := it_chain it; it_results := results; it_index := index |} in
        match r with
        | Err e => Ok (Some b, Some e, it)
        | Panic w => Panic w
        | Hang => Hang
        | Ok _ => let* err := ValidateBody bc b in Ok (Some b, err, it)
        end
    | _, _ => Hang
    end.

Definition it_current (it : insertIterator) : option Block := if it_index it <? 0 then None else it_chain it !! Z.to_nat (it_index it).
Definition it_previous (it : insertIterator) : option Block := if it_index it <? 1 then None else it_chain it !! Z.to_nat (it_index it - 1).

(** ** The import *)

(** Of the virtual machine: [noRecursion] and [preimages]; the clock; the coins. *)
Context (noRecursion preimages : bool) (now : Z) (coin : Block → bool).

(** One block, executed on its parent. *)
Definition import_block bc c b (previous : option Block) : result ((WriteStatus * list Log + string) * BlockChain * BSRR) :=
  if bool_decide (Block_Hash b ∈ BadHashes) then Ok (inr ErrBlacklistedHash, bc, c)
  else
    match (match previous with Some p => Some p | None => parent_of bc b end) with
    | None => nil_deref
    | Some parent =>
        match New (Root (block_header parent)) (stateCache bc) with
        | Err e => Ok (inr e, bc, c)
        | Panic w => Panic w
        | Hang => Hang
        | Ok s =>
            let* (p, c) := Process_engine noRecursion preimages (chainConfig bc) c (reader_of bc) b s in
            match pr_err p with
            | Some e => Ok (inr e, bc, c)
            | None =>
                let* (err, s) := ValidateState (chainConfig bc) b (pr_state p) (pr_receipts p) (pr_usedGas p) in
                match err with
                | Some e => Ok (inr e, bc, c)
                | None =>
                    let* (r, bc) := WriteBlockWithState bc (coin b) b (pr_receipts p) s in
                    match r with
                    | inr e => Ok (inr e, bc, c)
                    | inl st => Ok (inl (st, pr_logs p), bc, c)
                    end
                end
            end
        end
    end.

(** What the import announces so far. *)
Record progress := {
  pg_events : list chain_event;
  pg_logs : list Log;
  pg_lastCanon : option Block
}.

Definition no_progress : progress := {| pg_events := []; pg_logs := []; pg_lastCanon := None |}.

Definition advance (pg : progress) (st : WriteStatus) b (l : list Log) : progress :=
  match st with
  | CanonStatTy => {| pg_events := pg_events pg ++ [ChainEvent b l]; pg_logs := pg_logs pg ++ l; pg_lastCanon := Some b |}
  | SideStatTy => {| pg_events := pg_events pg ++ [ChainSideEvent b]; pg_logs := pg_logs pg; pg_lastCanon := pg_lastCanon pg |}
  | NonStatTy => pg
  end.

(** What [insertChain] returns. *)
Record imported := {
  im_index : Z;
  im_events : list chain_event;
  im_logs : list Log;
  im_err : option string
}.

Definition returned (it : insertIterator) (pg : progress) (err : option string) : imported :=
  {| im_index := it_index it; im_events := pg_events pg; im_logs := pg_logs pg; im_err := err |}.

(** The blocks as long as they are good; or what is returned when one fails. *)
Fixpoint import_loop (fuel : nat) bc c (it : insertIterator) (block : option Block) (err : option string) (pg : progress)
  : result ((option Block * option string * insertIterator * progress + imported) * BlockChain * BSRR) :=
  match block, err with
  | Some b, None =>
      match fuel with
      | O => Hang
      | S fuel =>
          let* (r, bc, c) := import_block bc c b (it_previous it) in
          match r with
          | inr e => Ok (inr (returned it pg (Some e)), bc, c)
          | inl (st, l) => let* (block, err, it) := next bc it in import_loop fuel bc c it block err (advance pg st b l)
          end
      end
  | _, _ => Ok (inl (block, err, it, pg), bc, c)
  end.

(** *** Blocks of the future *)

Definition addFutureBlock bc b : option string * BlockChain :=
  if now + maxTimeFutureBlocks <? Time (block_header b) then (Some "future block timestamp", bc)
  else (None, put_future bc (queue_Add (futureBlocks bc) (Block_Hash b) b)).

(** [b], and after it the blocks whose parents are unknown. *)
Fixpoint queue_blocks (fuel : nat) bc (it : insertIterator) b
  : result ((option Block * option string * insertIterator + string * insertIterator) * BlockChain) :=
  match addFutureBlock bc b with
  | (Some e, bc) => Ok (inr (e, it), bc)
  | (None, bc) =>
      let* (block, err, it) := next bc it in
      match block with
      | Some b =>
          if bool_decide (err = Some ErrUnknownAncestor) then match fuel with O => Hang | S fuel => queue_blocks fuel bc it b end
          else Ok (inl (block, err, it), bc)
      | None => Ok (inl (block, err, it), bc)
      end
  end.

(** Known blocks up to the head. *)
Fixpoint skip_known (fuel : nat) bc (current : Z) (it : insertIterator) (block : option Block) (err : option string)
  : result (option Block * option string * insertIterator) :=
  match block with
  | Some b =>
      if bool_decide (err = Some ErrKnownBlock) && (NumberU64 b <=? current) then
        match fuel with O => Hang | S fuel => let* (block, err, it) := next bc it in skip_known fuel bc current it block err end
      else Ok (block, err, it)
  | None => Ok (block, err, it)
  end.

(** The import of good blocks, then of those that come too early. *)
Definition import_rest bc c (it : insertIterator) (block : option Block) (err : option string) : result (imported * BlockChain * BSRR) :=
  let fuel := S (length (it_chain it)) in
  let* (r, bc, c) := import_loop fuel bc c it block err no_progress in
  match r with
  | inr res => Ok (res, bc, c)
  | inl (block, err, it, pg) =>
      let* (r, bc) :=
        match block with
        | Some b => if bool_decide (err = Some ErrFutureBlock) then queue_blocks fuel bc it b else Ok (inl (block, err, it), bc)
        | None => Ok (inl (block, err, it), bc)
        end in
      match r with
      | inr (e, it) => Ok (returned it pg (Some e), bc, c)
      | inl (_, err, it) =>
          match pg_lastCanon pg, currentBlock bc with
          | None, _ => Ok (returned it pg err, bc, c)
          | Some _, None => never_stored
          | Some b, Some head =>
              let announced := {| pg_events := pg_events pg ++ [ChainHeadEvent b]; pg_logs := pg_logs pg; pg_lastCanon := Some b |} in
              Ok (returned it (if bool_decide (Block_Hash head = Block_Hash b) then announced else pg) err, bc, c)
          end
      end
  end.

(** *** A branch without states *)

(** Blocks are stored while their ancestors are pruned; [externTd] is the weight
    of the branch. *)
Fixpoint store_side (fuel : nat) bc (current : Z) (it : insertIterator) (block : option Block) (err : option string) (externTd : option Z)
  : result ((option string * insertIterator * option Z + imported) * BlockChain) :=
  match block with
  | Some b =>
      if bool_decide (err = Some ErrPrunedAncestor) then
        let ghost :=
          (NumberU64 b <=? current) &&
          match bc_GetBlockByNumber bc (NumberU64 b) with
          | Some canonical => bool_decide (Root (block_header canonical) = Root (block_header b))
          | None => false
          end in
        if ghost then Ok (inr {| im_index := it_index it; im_events := []; im_logs := []; im_err := Some errGhostState |}, bc)
        else
          match (match externTd with Some td => Some td | None => bc_GetTd bc (ParentHash (block_header b)) (u64 (NumberU64 b - 1)) end) with
          | None => nil_deref
          | Some td =>
              let td := td + Difficulty (block_header b) in
              let bc := if HasBlock bc (Block_Hash b) (NumberU64 b) then bc else WriteBlockWithoutState bc b td in
              match fuel with
              | O => Hang
              | S fuel => let* (block, err, it) := next bc it in store_side fuel bc current it block err (Some td)
              end
          end
      else Ok (inl (err, it, externTd), bc)
  | None => Ok (inl (err, it, externTd), bc)
  end.

(** Down from [parent] to a header with a state: the hashes and numbers passed,
    the highest first. *)
Fixpoint without_state (fuel : nat) bc (parent : option Header) (acc : list (Hash * Z)) : result (option Header * list (Hash * Z)) :=
  match parent with
  | None => Ok (None, acc)
  | Some h =>
      if HasState bc (Root h) then Ok (Some h, acc)
      else
        match fuel with
        | O => Hang
        | S fuel => without_state fuel bc (hc_GetHeader (hc bc) (ParentHash h) (u64 (big_Uint64 (num h) - 1))) (acc ++ [(Header_Hash h, big_Uint64 (num h))])
        end
  end.

(** The length of the encoding. *)
Definition Block_Size b : Z :=
  Z.of_nat (length (rlp_encode (RList [RList (header_fields (block_header b)); RList ((λ tx, RList (Tx_fields tx)) <$> block_transactions b);
                                      RList ((λ h, RList (header_fields h)) <$> block_uncles b)]))).

(** The blocks from the lowest one, imported in segments; [reinsert] is
    [insertChain]. *)
Fixpoint reimport (reinsert : BlockChain → BSRR → list Block → result (imported * BlockChain * BSRR)) bc c (keys : list (Hash * Z))
    (blocks : list Block) (memory : Z) : result (imported * BlockChain * BSRR) :=
  let none := {| im_index := 0; im_events := []; im_logs := []; im_err := None |} in
  match keys with
  | [] => match blocks with [] => Ok (none, bc, c) | _ => reinsert bc c blocks end
  | (hash, number) :: keys =>
      match bc_GetBlock bc hash number with
      | None => nil_deref
      | Some b =>
          let blocks := blocks ++ [b] in
          let memory := memory + Block_Size b in
          if (2048 <=? Z.of_nat (length blocks)) || (64 * 1024 * 1024 <? memory) then
            let* (r, bc, c) := reinsert bc c blocks in
            match im_err r with
            | Some e => Ok ({| im_index := 0; im_events := []; im_logs := []; im_err := Some e |}, bc, c)
            | None => reimport reinsert bc c keys [] 0
            end
          else reimport reinsert bc c keys blocks memory
      end
  end.

Definition insertSidechain (reinsert : BlockChain → BSRR → list Block → result (imported * BlockChain * BSRR)) bc c (it : insertIterator)
  : result (imported * BlockChain * BSRR) :=
  match currentBlock bc with
  | None => never_stored
  | Some head =>
      let current := NumberU64 head in
      let* (r, bc) := store_side (S (length (it_chain it))) bc current it (it_current it) (Some ErrPrunedAncestor) None in
      match r with
      | inr res => Ok (res, bc, c)
      | inl (err, it, externTd) =>
          match bc_GetTd bc (Block_Hash head) current, externTd, it_previous it with
          | Some localTd, Some externTd, Some last =>
              if externTd <? localTd then Ok ({| im_index := it_index it; im_events := []; im_logs := []; im_err := err |}, bc, c)
              else
                let* (parent, keys) := without_state (S (Z.to_nat (NumberU64 last))) bc (hc_GetHeader (hc bc) (Block_Hash last) (NumberU64 last)) [] in
                match parent with
                | None => Ok ({| im_index := it_index it; im_events := []; im_logs := []; im_err := Some "missing parent" |}, bc, c)
                | Some _ => reimport reinsert bc c (reverse keys) [] 0
                end
          | _, _, _ => nil_deref
          end
      end
  end.

(** *** Chains *)

(** [insertChain] and [insertSidechain] call each other: [depth] bounds it. *)
Fixpoint insertChain (depth : nat) bc c (chain : list Block) : result (imported * BlockChain * BSRR) :=
  match chain with
  | [] => Panic "index out of range"
  | first :: _ =>
      let results := VerifyHeaders c (reader_of bc) now (block_header <$> chain) in
      let* (block, err, it) := next bc (newInsertIterator chain results) in
      let fuel := S (length chain) in
      if bool_decide (err = Some ErrPrunedAncestor) then
        insertSidechain (λ bc c blocks, match depth with O => Hang | S depth => insertChain depth bc c blocks end) bc c it
      else if bool_decide (err = Some ErrFutureBlock) ||
              (bool_decide (err = Some ErrUnknownAncestor) && queue_Contains (futureBlocks bc) (ParentHash (block_header first))) then
        match block with
        | None => nil_deref
        | Some b =>
            let* (r, bc) := queue_blocks fuel bc it b in
            match r with
            | inr (e, it) => Ok (returned it no_progress (Some e), bc, c)
            | inl (_, err, it) => Ok (returned it no_progress err, bc, c)
            end
        end
      else if bool_decide (err = Some ErrKnownBlock) then
        match currentBlock bc with
        | None => never_stored
        | Some head => let* (block, err, it) := skip_known fuel bc (NumberU64 head) it block err in import_rest bc c it block err
        end
      else
        match err with
        | Some e => Ok (returned it no_progress (Some e), bc, c)
        | None => import_rest bc c it block err
        end
  end.

Definition InsertChain (depth : nat) bc c (chain : list Block) : result (Z * option string * list chain_event * BlockChain * BSRR) :=
  match chain with
  | [] => Ok (0, None, [], bc, c)
  | _ =>
      if negb (linked chain) then Ok (0, Some errNonContiguous, [], bc, c)
      else let* (r, bc, c) := insertChain depth bc c chain in Ok (im_index r, im_err r, im_events r, bc, c)
  end.

(** *** Headers alone *)

(** The headers from the [i]-th on, with the results of their verification. *)
Fixpoint check_headers (i : Z) (chain : list Header) (results : list (result unit)) : result (Z * option string) :=
  match chain, results with
  | h :: chain, r :: results =>
      if bool_decide (Header_Hash h ∈ BadHashes) then Ok (i, Some ErrBlacklistedHash)
      else
        match r with
        | Err e => Ok (i, Some e)
        | Panic w => Panic w
        | Hang => Hang
        | Ok _ => check_headers (i + 1) chain results
        end
  | _, _ => Ok (0, None)
  end.

(** The engine ignores which seals it is asked to verify; picking them divides
    by [checkFreq] and marks the last header. *)
Definition ValidateHeaderChain bc c (chain : list Header) (checkFreq : Z) : result (Z * option string) :=
  if negb (contiguous chain) then Ok (0, Some errNonContiguous)
  else if checkFreq =? 0 then Panic "integer divide by zero"
  else
    match chain with
    | [] => Panic "index out of range"
    | _ => check_headers 0 chain (VerifyHeaders c (reader_of bc) now chain)
    end.

(** [coins]: one draw for each header. *)
Definition bc_InsertHeaderChain bc c (coins : list bool) (chain : list Header) (checkFreq : Z) : result (Z * option string * BlockChain) :=
  let* (i, err) := ValidateHeaderChain bc c chain checkFreq in
  match err with
  | Some e => Ok (i, Some e, bc)
  | None => let* (i, err, h) := hc_InsertHeaderChain (hc bc) coins chain 0 in Ok (i, err, put_hc bc h)
  end.

(** *** Blocks whose time has come *)

(** [sort] is [types.BlockBy(types.Number).Sort]. *)
Definition procFutureBlocks (sort : list Block → list Block) (depth : nat) bc c : result (BlockChain * BSRR) :=
  let blocks := sort (omap (queue_Peek (futureBlocks bc)) (queue_Keys (futureBlocks bc))) in
  foldl (λ r b, let* (bc, c) := r in let* (_, _, _, bc, c) := InsertChain depth bc c [b] in Ok (bc, c)) (Ok (bc, c)) blocks.
End Insert.
