(* ===== verification/ChainImport.v ===== *)
(** * What was imported was checked

    The import of [core/blockchain.go]: every block that it writes with its state
    passed the verification of its header and body, and its execution gave what
    its header says; and the chain stays one that grew from its genesis block. *)

From Stdlib Require Import ZArith Lia.
From stdpp Require Import base option list gmap sets strings sorting.
From S2P Require Import Prelude GoFloat Params Rlp Types Account State Receipt DeriveSha Chain ChainStore HeaderChain.
From S2P Require Import Staking Dao Transition Evm Selection Bsrr BlockChain BlockChainLoad BlockChainProps ChainInvariant ChainReach BlockInsert.

#[local] Opaque Header_Hash DeriveSha.

(** ** The gas limit *)

(** The gas limit of the next block is within less than a 1024th of its
    parent's, whatever the floor and the ceiling, as long as the parent's is at
    least five times that divisor and the parent used no more than its limit. *)
Theorem CalcGasLimit_bound (parent : Header) (gasFloor gasCeil : Z) :
  5 * GasLimitBoundDivisor ≤ GasLimit parent < two63 → 0 ≤ GasUsed parent ≤ GasLimit parent → 0 ≤ gasFloor → 0 ≤ gasCeil →
  Z.abs (CalcGasLimit parent gasFloor gasCeil - GasLimit parent) < GasLimit parent / GasLimitBoundDivisor.
Proof.
  unfold CalcGasLimit, GasLimitBoundDivisor, MinGasLimit, two63. set (p := GasLimit parent). set (u := GasUsed parent). intros Hp Hu Hf Hc.
  assert (H64 : ∀ x, 0 ≤ x < 18446744073709551616 → u64 x = x) by (intros x Hx; apply u64_small; exact Hx).
  assert (Hd : p / 1024 * 1024 ≤ p < p / 1024 * 1024 + 1024) by (pose proof (Z.div_mod p 1024); pose proof (Z.mod_pos_bound p 1024); lia).
  assert (Hk : u / 2 * 2 ≤ u < u / 2 * 2 + 2) by (pose proof (Z.div_mod u 2); pose proof (Z.mod_pos_bound u 2); lia).
  rewrite (H64 (u + u / 2)) by lia. set (k := (u + u / 2) / 1024).
  assert (Hk' : k * 1024 ≤ u + u / 2 < k * 1024 + 1024) by (unfold k; pose proof (Z.div_mod (u + u / 2) 1024); pose proof (Z.mod_pos_bound (u + u / 2) 1024); lia).
  rewrite (H64 (p / 1024 - 1)), (H64 (p - (p / 1024 - 1))), (H64 (p + (p / 1024 - 1))), (H64 (p - (p / 1024 - 1) + k)) by lia.
  destruct (Z.ltb_spec (p - (p / 1024 - 1) + k) 5000);
  repeat match goal with |- context [if ?a <? ?b then _ else _] => destruct (Z.ltb_spec a b) end; lia.
Qed.

Section Importing.
Context {C : Crypto} {D : Database} {I : Interpreter} {MO : MapOrder} {GR : GoRand} {SH : Sha256} {DS : DiskStore} {BQ : BlockQueue}.
Context (noRecursion preimages : bool) (now : Z) (coin : Block → bool).
Implicit Types (bc : BlockChain) (c : BSRR) (b p g : Block) (l : list Block).

(** ** The blocks that there are *)

(** The blocks of the genesis [g] and of the imports: hashes tell them apart,
    numbers are below the largest, difficulties are positive, and no branch of
    them repeats a transaction. *)
Record universe g (U : Block → Prop) : Prop := {
  un_hash : ∀ b b', U b → U b' → Block_Hash b = Block_Hash b' → b = b';
  un_block : ∀ b, U b → Number (block_header b) = Some (NumberU64 b) ∧ NumberU64 b < maxUint64 ∧ Block_Hash b ≠ zeroHash ∧ 0 < Difficulty (block_header b);
  un_fresh : ∀ b db, U b → (∀ x, stored db x → U x) → fresh_txs db b
}.

(** ** What is checked of a block *)

(** The header was verified after the headers [before], the roots are those of
    the body, and the execution on the state of the parent gave the gas, the
    bloom filter, the receipts and the state of the header. *)
Record vetted b : Prop := {
  vt_header : ∃ c chain before, verifyHeader c chain now (block_header b) before = Ok tt;
  vt_body : block_uncles b = [] ∧ CalcUncleHash (block_uncles b) = UncleHash (block_header b) ∧
    DeriveSha (Transactions_GetRlp (block_transactions b)) = Ok (TxHash (block_header b)) ∧ Block_Hash b ∉ BadHashes;
  vt_state : ∃ bc c c' parent s (p : processed) s',
    Block_Hash parent = ParentHash (block_header b) ∧ New (Root (block_header parent)) (stateCache bc) = Ok s ∧
    Process_engine noRecursion preimages (chainConfig bc) c (reader_of bc) b s = Ok (p, c') ∧ pr_err p = None ∧
    pr_usedGas p = GasUsed (block_header b) ∧ CreateBloom (pr_receipts p) = Ok (Bloom (block_header b)) ∧
    DeriveSha (Receipts_GetRlp (pr_receipts p)) = Ok (ReceiptHash (block_header b)) ∧
    IntermediateRoot (pr_state p) (IsEIP158 (chainConfig bc) (Number (block_header b))) = Ok (Root (block_header b), s')
}.

Lemma ValidateState_ok config b s receipts usedGas s' :
  ValidateState config b s receipts usedGas = Ok (None, s') →
  usedGas = GasUsed (block_header b) ∧ CreateBloom receipts = Ok (Bloom (block_header b)) ∧ DeriveSha (Receipts_GetRlp receipts) = Ok (ReceiptHash (block_header b)) ∧
  IntermediateRoot s (IsEIP158 config (Number (block_header b))) = Ok (Root (block_header b), s').
Proof using.
  unfold ValidateState. destruct (Z.eqb_spec (GasUsed (block_header b)) usedGas) as [<-|]; [|done]. cbn [negb].
  destruct (CreateBloom receipts) as [bloom| | |]; [|done..]. cbn [bind]. destruct (bool_decide_reflect (bloom = Bloom (block_header b))) as [->|]; [|done]. cbn [negb].
  destruct (DeriveSha _) as [r| | |]; [|done..]. cbn [bind]. destruct (bool_decide_reflect (r = ReceiptHash (block_header b))) as [->|]; [|done]. cbn [negb].
  destruct (IntermediateRoot s _) as [[root s1]| | |]; [|done..]. cbn [bind]. destruct (bool_decide_reflect (Root (block_header b) = root)) as [<-|]; [|done]. by intros [= <-].
Qed.

Definition body_ok b : Prop :=
  block_uncles b = [] ∧ CalcUncleHash (block_uncles b) = UncleHash (block_header b) ∧
  DeriveSha (Transactions_GetRlp (block_transactions b)) = Ok (TxHash (block_header b)).

(** A body is refused for its ancestors only when it is good. *)
Lemma ValidateBody_ok bc b err :
  ValidateBody bc b = Ok err → err = None ∨ err = Some ErrPrunedAncestor →
  body_ok b ∧ HasBlock bc (ParentHash (block_header b)) (u64 (NumberU64 b - 1)) = true.
Proof using.
  unfold ValidateBody, body_ok. destruct (bc_HasBlockAndState bc (Block_Hash b) _); [by intros [= <-] [|]|].
  destruct (VerifyUncles b) as [[]|e| |] eqn:Eu; [|intros [= <-] [|[= ->]]; [done|]|done|done].
  2: { unfold VerifyUncles in Eu. by destruct (block_uncles b). }
  assert (Hu : block_uncles b = []) by (unfold VerifyUncles in Eu; by destruct (block_uncles b)).
  destruct (bool_decide_reflect (CalcUncleHash (block_uncles b) = UncleHash (block_header b))) as [E1|]; cbn [negb]; [|by intros [= <-] [|]].
  destruct (DeriveSha _) as [h| | |]; [|done..]. cbn [bind]. destruct (bool_decide_reflect (h = TxHash (block_header b))) as [->|]; cbn [negb]; [|by intros [= <-] [|]].
  destruct (bc_HasBlockAndState bc (ParentHash (block_header b)) _) eqn:Ep; cbn [negb].
  - intros _ _. split; [done|]. unfold bc_HasBlockAndState, bc_GetBlock in Ep. destruct (ReadBlock (bdb bc) _ _) as [p|] eqn:Er; [|done].
    apply ReadBlock_Some in Er as [_ Er]. unfold HasBlock, HasBody. apply bool_decide_eq_true. by eexists.
  - destruct (HasBlock bc _ _); cbn [negb]; [done|]. by intros [= <-] [|].
Qed.

(** ** One block *)

Section Universe.
Context (g : Block) (U : Block → Prop) (HU : universe g U).

(** The chain grew from [g] by the blocks [l], and all it stores is known. *)
Definition good l bc : Prop := reached g l bc ∧ ∀ b, stored (bdb bc) b → U b.

Lemma good_store l bc : good l bc → store_ok g (bdb bc).
Proof using. intros [(top & In & _)%reached_inv _]. apply In. Qed.

(** A block whose parent is stored can be written. *)
Lemma good_fits l bc b :
  good l bc → U b → HasBlock bc (ParentHash (block_header b)) (u64 (NumberU64 b - 1)) = true →
  fits (bdb bc) b ∧ fresh_txs (bdb bc) b ∧
  ∃ p ptd, parent_of bc b = Some p ∧ stored (bdb bc) p ∧ Block_Hash p = ParentHash (block_header b) ∧ NumberU64 b = NumberU64 p + 1 ∧
    bc_GetTd bc (ParentHash (block_header b)) (u64 (NumberU64 b - 1)) = Some ptd ∧ td_of (bdb bc) p = Some ptd.
Proof using HU.
  intros G Hb Hp. pose proof (good_store _ _ G) as Hs. destruct G as [_ HUs]. destruct (un_block _ _ HU b Hb) as (Hn & Hm & Hz & Hd).
  unfold HasBlock, HasBody in Hp. apply bool_decide_eq_true, (so_body _ _ Hs) in Hp as [hd Hh]. destruct (read_header g _ _ _ _ Hs Hh) as (p & Hr & _).
  destruct (read_stored g _ _ _ _ Hs Hr) as (Eh & En & Hpn & _ & Hst). assert (H0 : 0 ≤ NumberU64 b) by (unfold NumberU64, big_Uint64; apply u64_range).
  assert (Hpos : 0 < NumberU64 b).
  { destruct (decide (NumberU64 b = 0)) as [E|]; [|lia]. rewrite E in Hpn. change (u64 (0 - 1)) with maxUint64 in Hpn. lia. }
  assert (Eu : u64 (NumberU64 b - 1) = NumberU64 b - 1) by (apply u64_small; unfold is_u64, maxUint64 in *; lia).
  split_and!.
  - split; [done|done|done|]. intros n b' Hb'. destruct (read_stored g _ _ _ _ Hs Hb') as (E & _ & _ & _ & Hst'). by apply (un_hash _ _ HU); [apply HUs| |].
  - by apply (un_fresh _ _ HU).
  - destruct (stored_td g _ _ Hs Hst) as [ptd Htd]. exists p, ptd. split_and!; try done; [lia|]. unfold bc_GetTd, hc_GetTd, ReadTd. change (chainDb (hc bc)) with (bdb bc).
    rewrite <- Eh, <- En. exact Htd.
Qed.

Lemma good_write l bc b r receipts s bc' :
  good l bc → U b → fits (bdb bc) b → fresh_txs (bdb bc) b → WriteBlockWithState bc (coin b) b receipts s = Ok (r, bc') →
  good (match r with inl _ => b :: l | inr _ => l end) bc' ∧ added (bdb bc) (bdb bc').
Proof using HU.
  intros [HR HUs] Hb Hf Hfr Hw. destruct (reached_inv _ _ _ HR) as (top & In & _). pose proof (write_with_state g bc top (coin b) b receipts s In Hf Hfr) as H. rewrite Hw in H.
  destruct H as (top' & _ & A & _ & Ho & _). split; [|done]. split.
  - destruct r; [by eapply reached_written|by eapply reached_refused].
  - intros x [->|Hx]%Ho; [done|by apply HUs].
Qed.

(** Further blocks, all checked, were written with their states. *)
Definition outcome l bc bc' : Prop := ∃ l', good (l' ++ l) bc' ∧ Forall vetted l' ∧ added (bdb bc) (bdb bc').

Lemma added_refl (db : ChainDb) : added db db.
Proof using. done. Qed.

Lemma outcome_refl l bc : good l bc → outcome l bc bc.
Proof using. intros G. exists []. done. Qed.

Lemma outcome_trans l bc1 bc2 bc3 : outcome l bc1 bc2 → (∀ l', good l' bc2 → outcome l' bc2 bc3) → outcome l bc1 bc3.
Proof using.
  intros (l1 & G1 & V1 & A1) H. destruct (H _ G1) as (l2 & G2 & V2 & A2). exists (l2 ++ l1). rewrite <- app_assoc. split_and!; [done|by apply Forall_app|by eapply added_trans].
Qed.

Lemma import_block_ok l bc c b previous r bc' c' :
  good l bc → U b → (∃ c chain before, verifyHeader c chain now (block_header b) before = Ok tt) → ValidateBody bc b = Ok None →
  (∀ p, previous = Some p → Block_Hash p = ParentHash (block_header b)) →
  import_block noRecursion preimages coin bc c b previous = Ok (r, bc', c') →
  outcome l bc bc'.
Proof using HU.
  intros G Hb Hh Hv Hprev. destruct (ValidateBody_ok _ _ _ Hv (or_introl eq_refl)) as [(B1 & B2 & B3) Hp]. destruct (good_fits _ _ _ G Hb Hp) as (Hf & Hfr & p & ptd & Ep & _ & Eh & _).
  unfold import_block. destruct (bool_decide_reflect (Block_Hash b ∈ BadHashes)) as [|Hbad]; [intros [= _ <- _]; by apply outcome_refl|].
  destruct (match previous with Some p => Some p | None => parent_of bc b end) as [parent|] eqn:Epar; [|done].
  assert (Hpar : Block_Hash parent = ParentHash (block_header b)) by (destruct previous; [injection Epar as <-; by apply Hprev|congruence]).
  destruct (New _ _) as [s|e| |] eqn:En; [|intros [= _ <- _]; by apply outcome_refl|done|done].
  destruct (Process_engine _ _ _ _ _ _ _) as [[pr c1]| | |] eqn:Epr; [|done..]. cbn [bind]. destruct (pr_err pr) eqn:Eerr; [intros [= _ <- _]; by apply outcome_refl|].
  destruct (ValidateState _ _ _ _ _) as [[[e|] s']| | |] eqn:Evs; [|..|done|done|done]; cbn [bind]; [intros [= _ <- _]; by apply outcome_refl|].
  destruct (WriteBlockWithState _ _ _ _ _) as [[w bc1]| | |] eqn:Ew; [|done..]. cbn [bind]. destruct (good_write _ _ _ _ _ _ _ G Hb Hf Hfr Ew) as [G' A].
  destruct w as [st|e]; intros [= _ <- _]; [|by exists []]. exists [b]. split; [done|]. split; [|done]. constructor; [|done]. destruct (ValidateState_ok _ _ _ _ _ _ Evs) as (V1 & V2 & V3 & V4). split.
  - exact Hh.
  - done.
  - exists bc, c, c1, parent, s, pr, s'. done.
Qed.

(** ** The iterator *)

Lemma verifyHeader_not_pruned c chain h before : verifyHeader c chain now h before ≠ Err ErrPrunedAncestor.
Proof using.
  unfold verifyHeader. destruct (Number h) as [n|]; [|done]. destruct (now <? Time h); [done|].
  destruct (uint_rem _ _) as [rem|e| |] eqn:E; cbn [bind]; [|unfold uint_rem in E; by destruct (_ =? 0)|done|done]. clear E.
  destruct (VerifyForkHashes (Config chain) h false) as [e|] eqn:Ef.
  - assert (e ≠ ErrPrunedAncestor) by (unfold VerifyForkHashes in Ef; repeat case_match; try discriminate Ef; injection Ef as <-; discriminate).
    repeat case_match; (discriminate || congruence).
  - unfold verifyCascadingFields, verifySeal. repeat case_match; discriminate.
Qed.

(** A header that was verified. *)
Definition header_ok b : Prop := ∃ c chain before, verifyHeader c chain now (block_header b) before = Ok tt.

Lemma VerifyHeaders_lookup c chain hs i r :
  VerifyHeaders c chain now hs !! i = Some r → ∃ h before, hs !! i = Some h ∧ r = verifyHeader c chain now h before.
Proof using.
  unfold VerifyHeaders. generalize (@nil Header) as before. revert i. induction hs as [|h hs IH]; intros i before; cbn [VerifyHeaders_loop]; [done|].
  destruct i as [|i]; [intros [= <-]; by exists h, before|]. apply IH.
Qed.

Lemma VerifyHeaders_length c chain hs : length (VerifyHeaders c chain now hs) = length hs.
Proof using.
  unfold VerifyHeaders. generalize (@nil Header) as before. induction hs as [|h hs IH]; intros before; cbn [VerifyHeaders_loop length]; [done|]. by rewrite IH.
Qed.

Lemma linked_lookup chain i a b :
  linked chain = true → chain !! i = Some a → chain !! S i = Some b → NumberU64 b = u64 (NumberU64 a + 1) ∧ ParentHash (block_header b) = Block_Hash a.
Proof using.
  revert i. induction chain as [|x [|y chain] IH]; intros i Hl; [done|by destruct i|]. cbn [linked] in Hl. apply andb_true_iff in Hl as [Hl Hr].
  apply andb_true_iff in Hl as [Hn%Z.eqb_eq Hh%bool_decide_eq_true]. destruct i as [|i]; [intros [= <-] [= <-]; done|]. apply (IH i Hr).
Qed.

(** The results that are left are those of the headers that are left. *)
Record it_ok (it : insertIterator) : Prop := {
  io_linked : linked (it_chain it) = true;
  io_known : Forall U (it_chain it);
  io_index : -1 ≤ it_index it;
  io_results : ∃ c chain, it_results it = drop (Z.to_nat (it_index it + 1)) (VerifyHeaders c chain now (block_header <$> it_chain it))
}.

(** The block that the iterator is at, and what its error says. *)
Record at_block bc (it : insertIterator) (b : Block) (err : option string) : Prop := {
  ab_index : 0 ≤ it_index it ∧ it_chain it !! Z.to_nat (it_index it) = Some b;
  ab_known : U b;
  ab_good : err = None → header_ok b ∧ ValidateBody bc b = Ok None;
  ab_pruned : err = Some ErrPrunedAncestor → ValidateBody bc b = Ok (Some ErrPrunedAncestor)
}.

Lemma next_ok bc it block err it' :
  it_ok it → next bc it = Ok (block, err, it') →
  it_ok it' ∧ it_chain it' = it_chain it ∧ match block with Some b => at_block bc it' b err ∧ it_index it' = it_index it + 1 | None => err = None end.
Proof using.
  intros [I1 I2 I3 (c & chain & I4)]. unfold next. destruct (Z.leb_spec (Z.of_nat (length (it_chain it))) (it_index it + 1)) as [Hle|Hlt].
  { intros [= <- <- <-]. split_and!; try done. split; cbn [it_chain it_results it_index]; try done; [lia|]. exists c, chain. rewrite I4, !drop_ge; rewrite ?VerifyHeaders_length, ?length_fmap; (done || lia). }
  destruct (it_chain it !! Z.to_nat (it_index it + 1)) as [b|] eqn:Eb; [|by destruct (it_results it)].
  destruct (it_results it) as [|r results] eqn:Er; [done|]. assert (Ei : Z.to_nat (it_index it + 1 + 1) = S (Z.to_nat (it_index it + 1))) by lia.
  assert (Hr : VerifyHeaders c chain now (block_header <$> it_chain it) !! Z.to_nat (it_index it + 1) = Some r) by (rewrite <- (Nat.add_0_r (Z.to_nat _)), <- lookup_drop, <- I4; done).
  assert (Hd : results = drop (Z.to_nat (it_index it + 1 + 1)) (VerifyHeaders c chain now (block_header <$> it_chain it))).
  { rewrite Ei. replace (S (Z.to_nat (it_index it + 1))) with (Z.to_nat (it_index it + 1) + 1)%nat by lia. rewrite <- drop_drop, <- I4. done. }
  set (it1 := Build_insertIterator _ _ _). assert (Hit1 : it_ok it1) by (split; cbn [it1 it_chain it_results it_index]; [done|done|lia|by exists c, chain]).
  destruct (VerifyHeaders_lookup _ _ _ _ _ Hr) as (h & before & Hh & ->). rewrite list_lookup_fmap, Eb in Hh. injection Hh as <-.
  assert (Hknown : U b) by (rewrite Forall_lookup in I2; by eapply I2). assert (Hidx : 0 ≤ it_index it1 ∧ it_chain it1 !! Z.to_nat (it_index it1) = Some b) by (cbn [it_chain it_index it1]; split; [lia|done]).
  destruct (verifyHeader c chain now (block_header b) before) as [[]|e| |] eqn:Ev; [|intros [= <- <- <-]|done|done].
  - destruct (ValidateBody bc b) as [err'| | |] eqn:Evb; [|done..]. cbn [bind]. intros [= <- <- <-]. split_and!; try done. split; [done|done| |by intros ->].
    intros ->. split; [by exists c, chain, before|done].
  - split_and!; try done. split; [done|done|done|]. intros [= ->]. by apply verifyHeader_not_pruned in Ev.
Qed.

Lemma previous_parent bc it b err p : it_ok it → at_block bc it b err → it_previous it = Some p → Block_Hash p = ParentHash (block_header b).
Proof using.
  intros Hit [[H0 Hb] _ _ _]. unfold it_previous. destruct (Z.ltb_spec (it_index it) 1); [done|]. intros Hp.
  symmetry. eapply (linked_lookup (it_chain it) (Z.to_nat (it_index it - 1))); [apply Hit|done|]. by replace (S (Z.to_nat (it_index it - 1))) with (Z.to_nat (it_index it)) by lia.
Qed.

(** The block at hand, if there is one. *)
Definition at_hand bc (it : insertIterator) (block : option Block) (err : option string) : Prop :=
  it_ok it ∧ ∀ b, block = Some b → at_block bc it b err.

Lemma next_at_hand bc it block err it' : it_ok it → next bc it = Ok (block, err, it') → at_hand bc it' block err.
Proof using. intros Hit (H1 & _ & H3)%next_ok; [|done]. split; [done|]. intros b ->. apply H3. Qed.

(** ** The loops *)

Lemma import_loop_ok fuel l bc c it block err pg r bc' c' :
  good l bc → at_hand bc it block err → import_loop noRecursion preimages coin fuel bc c it block err pg = Ok (r, bc', c') → outcome l bc bc'.
Proof using HU.
  revert l bc c it block err pg. induction fuel as [|fuel IH]; intros l bc c it block err pg G [Hit Hat]; cbn [import_loop].
  { destruct block as [b|], err; try done; intros [= _ <- _]; by apply outcome_refl. }
  destruct block as [b|], err as [e|]; try (intros [= _ <- _]; by apply outcome_refl). pose proof (Hat b eq_refl) as Hb.
  destruct (ab_good _ _ _ _ Hb eq_refl) as [Hh Hv]. destruct (import_block _ _ _ _ _ _ _) as [[[r1 bc1] c1]| | |] eqn:Ei; [|done..]. cbn [bind].
  pose proof (import_block_ok l bc c b _ r1 bc1 c1 G (ab_known _ _ _ _ Hb) Hh Hv (λ p, previous_parent _ _ _ _ p Hit Hb) Ei) as O1.
  destruct r1 as [[st lg]|e]; [|by intros [= _ <- _]]. destruct (next bc1 it) as [[[block2 err2] it2]| | |] eqn:En; [|done..]. cbn [bind].
  intros E. eapply outcome_trans; [exact O1|]. intros l' G'. eapply IH; [exact G'| |exact E]. by eapply next_at_hand.
Qed.

Lemma good_future l bc q : good l bc → good l (put_future bc q).
Proof using. intros [HR HUs]. split; [by apply reached_queued|done]. Qed.

Lemma outcome_future l bc q : good l bc → outcome l bc (put_future bc q).
Proof using. intros G. exists []. split_and!; [by apply good_future|done|done]. Qed.

Lemma queue_blocks_ok fuel l bc it b r bc' : good l bc → queue_blocks now fuel bc it b = Ok (r, bc') → outcome l bc bc'.
Proof using.
  revert l bc it b. induction fuel as [|fuel IH]; intros l bc it b G; cbn [queue_blocks]; unfold addFutureBlock;
    (destruct (now + maxTimeFutureBlocks <? Time (block_header b)); [intros [= _ <-]; by apply outcome_refl|]);
    (destruct (next _ it) as [[[[b2|] err2] it2]| | |]; [|intros [= _ <-]; by apply outcome_future|done..]); cbn [bind];
    (destruct (bool_decide (err2 = Some ErrUnknownAncestor)); [|intros [= _ <-]; by apply outcome_future]); [done|].
  intros E. eapply outcome_trans; [by apply outcome_future|]. intros l' G'. by eapply IH.
Qed.

Lemma skip_known_ok fuel bc current it block err block' err' it' :
  at_hand bc it block err → skip_known fuel bc current it block err = Ok (block', err', it') → at_hand bc it' block' err'.
Proof using.
  revert it block err. induction fuel as [|fuel IH]; intros it block err Hat; cbn [skip_known]; (destruct block as [b|]; [|by intros [= <- <- <-]]);
    (destruct (bool_decide _ && _); [|by intros [= <- <- <-]]); [done|].
  destruct (next bc it) as [[[block2 err2] it2]| | |] eqn:En; [|done..]. cbn [bind]. apply IH. eapply next_at_hand; [apply Hat|done].
Qed.

Lemma import_rest_ok l bc c it block err res bc' c' :
  good l bc → at_hand bc it block err → import_rest noRecursion preimages now coin bc c it block err = Ok (res, bc', c') → outcome l bc bc'.
Proof using HU.
  intros G Hat. unfold import_rest. destruct (import_loop _ _ _ _ _ _ _ _ _ _) as [[[r bc1] c1]| | |] eqn:E1; [|done..]. cbn [bind].
  pose proof (import_loop_ok _ _ _ _ _ _ _ _ _ _ _ G Hat E1) as O1. destruct r as [[[[block1 err1] it1] pg]|res1]; [|by intros [= _ <- _]].
  set (q := match block1 with Some b => _ | None => _ end). destruct q as [[r2 bc2]| | |] eqn:E2; [|done..]. cbn [bind].
  assert (O2 : outcome l bc bc2).
  { eapply outcome_trans; [exact O1|]. intros l' G'. unfold q in E2. destruct block1 as [b|]; [|injection E2 as _ <-; by apply outcome_refl].
    destruct (bool_decide _); [by eapply queue_blocks_ok|injection E2 as _ <-; by apply outcome_refl]. }
  destruct r2 as [[[block2 err2] it2]|[e it2]]; [|by intros [= _ <- _]]. destruct (pg_lastCanon pg) as [b|]; [|by intros [= _ <- _]].
  destruct (currentBlock bc2); [|done]. by intros [= _ <- _].
Qed.

(** ** A branch without states *)

(** The block is stored already when the chain has its body. *)
Lemma has_block_stored l bc b : good l bc → U b → HasBlock bc (Block_Hash b) (NumberU64 b) = true → stored (bdb bc) b.
Proof using HU.
  intros G Hb Hh. pose proof (good_store _ _ G) as Hs. apply bool_decide_eq_true, (so_body _ _ Hs) in Hh as [hd Hh].
  destruct (read_header g _ _ _ _ Hs Hh) as (x & Hr & _). destruct (read_stored g _ _ _ _ Hs Hr) as (E & _ & _ & _ & Hst).
  assert (x = b) as -> by (apply (un_hash _ _ HU); [by apply G|done|done]). exact Hst.
Qed.

(** Storing the block, if it is new, gives it the weight of its branch. *)
Lemma store_one l bc b ptd :
  good l bc → U b → HasBlock bc (ParentHash (block_header b)) (u64 (NumberU64 b - 1)) = true →
  bc_GetTd bc (ParentHash (block_header b)) (u64 (NumberU64 b - 1)) = Some ptd →
  let bc' := if HasBlock bc (Block_Hash b) (NumberU64 b) then bc else WriteBlockWithoutState bc b (ptd + Difficulty (block_header b)) in
  good l bc' ∧ added (bdb bc) (bdb bc') ∧ td_of (bdb bc') b = Some (ptd + Difficulty (block_header b)).
Proof using HU.
  intros G Hb Hp Htd bc'. pose proof (good_store _ _ G) as Hs. destruct (good_fits _ _ _ G Hb Hp) as (Hf & Hfr & p & ptd' & Ep & Hst & Eh & En & Htd' & Hpt).
  assert (ptd' = ptd) as -> by congruence. unfold bc'. clear bc'. rewrite (Z.add_comm ptd). destruct (HasBlock bc (Block_Hash b) (NumberU64 b)) eqn:Ehas.
  - split_and!; [done|done|]. pose proof (has_block_stored _ _ _ G Hb Ehas) as Hsb. destruct (ft_number _ _ Hf) as [_ Hn].
    destruct (stored_parent g _ _ Hs Hsb) as (p' & td & Hr & Hsp & Enp & Ehp & Htp & Htb & _); [lia|]. unfold td_of. rewrite Htb. f_equal.
    assert (p' = p) as ->; [|unfold td_of in Hpt; congruence]. unfold stored in Hst, Hsp. rewrite Enp, Ehp in Hsp. rewrite Eh in Hst. replace (NumberU64 p) with (NumberU64 b - 1) in Hst by lia. congruence.
  - destruct G as [HR HUs]. destruct (reached_inv _ _ _ HR) as (top & In & _). destruct (ft_number _ _ Hf) as [_ Hn].
    assert (Htd2 : bc_GetTd bc (ParentHash (block_header b)) (NumberU64 b - 1) = Some ptd) by (rewrite u64_small in Htd by (unfold is_u64, maxUint64 in *; lia); done).
    destruct (write_inv g bc top b ptd In Hf Hfr Htd2) as (_ & Gr & _ & Htb). split_and!; [|by apply grown_added|done]. split; [by apply reached_bare|].
    intros x [->|Hx]%written_only; [done|by apply HUs].
Qed.

Lemma store_side_ok fuel l bc current it block err externTd r bc' :
  good l bc → at_hand bc it block err →
  (∀ b td, block = Some b → externTd = Some td → bc_GetTd bc (ParentHash (block_header b)) (u64 (NumberU64 b - 1)) = Some td) →
  store_side fuel bc current it block err externTd = Ok (r, bc') → outcome l bc bc'.
Proof using HU.
  revert l bc it block err externTd. induction fuel as [|fuel IH]; intros l bc it block err externTd G [Hit Hat] Htd; cbn [store_side];
    (destruct block as [b|]; [|intros [= _ <-]; by apply outcome_refl]); (destruct (bool_decide_reflect (err = Some ErrPrunedAncestor)) as [->|]; [|intros [= _ <-]; by apply outcome_refl]);
    (destruct (_ && _); [intros [= _ <-]; by apply outcome_refl|]); [by destruct (match externTd with Some _ => _ | None => _ end)|].
  pose proof (Hat b eq_refl) as Hb. destruct (ValidateBody_ok _ _ _ (ab_pruned _ _ _ _ Hb eq_refl) (or_intror eq_refl)) as [_ Hp].
  destruct (match externTd with Some td => Some td | None => _ end) as [td|] eqn:Etd; [|done].
  assert (Hptd : bc_GetTd bc (ParentHash (block_header b)) (u64 (NumberU64 b - 1)) = Some td) by (destruct externTd; [by apply Htd|done]).
  destruct (store_one l bc b td G (ab_known _ _ _ _ Hb) Hp Hptd) as (G' & A & Htb). set (bc1 := if HasBlock bc _ _ then _ else _) in *.
  destruct (next bc1 it) as [[[block2 err2] it2]| | |] eqn:En; [|done..]. cbn [bind]. intros E. eapply outcome_trans; [exists []; split_and!; [exact G'|done|exact A]|].
  intros l' G''. eapply IH; [exact G''|by eapply next_at_hand| |exact E]. intros b2 td2 -> [= <-].
  destruct (next_ok _ _ _ _ _ Hit En) as (_ & Ec & Hb2 & Ei). destruct (ab_index _ _ _ _ Hb) as [Hi0 Hi]. destruct (ab_index _ _ _ _ Hb2) as [_ Hi2]. rewrite Ec, Ei in Hi2.
  replace (Z.to_nat (it_index it + 1)) with (S (Z.to_nat (it_index it))) in Hi2 by lia. destruct (linked_lookup _ _ _ _ (io_linked _ Hit) Hi Hi2) as [En2 Eh2].
  destruct (un_block _ _ HU b (ab_known _ _ _ _ Hb)) as (_ & Hm & _). assert (H0 : 0 ≤ NumberU64 b) by (unfold NumberU64, big_Uint64; apply u64_range).
  rewrite Eh2, En2, (u64_small (NumberU64 b + 1)) by (unfold is_u64, maxUint64 in *; lia). rewrite u64_small by (unfold is_u64, maxUint64 in *; lia).
  unfold bc_GetTd, hc_GetTd, ReadTd. change (chainDb (hc bc1)) with (bdb bc1). replace (NumberU64 b + 1 - 1) with (NumberU64 b) by lia. exact Htb.
Qed.

Lemma linked_app l1 l2 : linked (l1 ++ l2) = true → linked l1 = true ∧ linked l2 = true.
Proof using.
  induction l1 as [|a [|b l1] IH]; intros H; [done| |].
  - split; [done|]. destruct l2; [done|]. cbn [app linked] in H. by apply andb_true_iff in H as [_ H].
  - cbn [app linked] in *. apply andb_true_iff in H as [H1 H2]. destruct (IH H2) as [E1 E2]. split; [|done]. by rewrite H1, E1.
Qed.

Definition follows (a b : Block) : Prop := NumberU64 b = u64 (NumberU64 a + 1) ∧ ParentHash (block_header b) = Block_Hash a.

Lemma linked_snoc l b : linked l = true → (∀ a, last l = Some a → follows a b) → linked (l ++ [b]) = true.
Proof using.
  induction l as [|x [|y l] IH]; intros Hl Hb; [done| |].
  - destruct (Hb x eq_refl) as [E1 E2]. cbn [app linked]. by rewrite E1, Z.eqb_refl, bool_decide_eq_true_2.
  - cbn [app linked] in *. apply andb_true_iff in Hl as [H1 H2]. rewrite H1. apply IH; [done|]. intros a Ha. apply Hb. by rewrite last_cons_cons.
Qed.

Definition keys_of (bs : list Block) : list (Hash * Z) := (λ b, (Block_Hash b, NumberU64 b)) <$> bs.

(** The blocks passed, the highest first. *)
Lemma without_state_ok fuel l bc b acc par keys :
  good l bc → stored (bdb bc) b → without_state fuel bc (Some (block_header b)) acc = Ok (par, keys) →
  ∃ bs, keys = acc ++ keys_of bs ∧ Forall (stored (bdb bc)) bs ∧ linked (reverse bs) = true ∧ (bs = [] ∨ head bs = Some b).
Proof using HU.
  intros G. pose proof (good_store _ _ G) as Hs. revert b acc. induction fuel as [|fuel IH]; intros b acc Hb; cbn [without_state];
    (destruct (HasState bc _); [intros [= _ <-]; exists []; rewrite app_nil_r; split_and!; [done|done|done|by left]|]); [done|].
  change (big_Uint64 (num (block_header b))) with (NumberU64 b). change (Header_Hash (block_header b)) with (Block_Hash b).
  destruct (hc_GetHeader (hc bc) (ParentHash (block_header b)) (u64 (NumberU64 b - 1))) as [h|] eqn:Eh.
  - destruct (read_header g _ _ _ _ Hs Eh) as (p & Hr & <-). destruct (read_stored g _ _ _ _ Hs Hr) as (Ep & En & _ & _ & Hst).
    intros E. destruct (IH p (acc ++ [(Block_Hash b, NumberU64 b)]) Hst E) as (bs & -> & Hall & Hl & Hhd). exists (b :: bs).
    assert (Hp : HasBlock bc (ParentHash (block_header b)) (u64 (NumberU64 b - 1)) = true).
    { apply ReadBlock_Some in Hr as [_ Hr]. unfold HasBlock, HasBody. apply bool_decide_eq_true. by eexists. }
    destruct (good_fits _ _ _ G (proj2 G _ Hb) Hp) as (Hf & _ & p' & _ & Ep' & _ & _ & Enb & _). unfold parent_of, bc_GetBlock in Ep'. rewrite Hr in Ep'. injection Ep' as <-.
    destruct (ft_number _ _ Hf) as [_ Hn]. split_and!; [by rewrite <- app_assoc|by constructor| |by right].
    rewrite reverse_cons. apply linked_snoc; [done|]. intros a Ha. assert (a = p) as ->.
    { destruct Hhd as [->|Hhd]; [done|]. destruct bs as [|x bs]; [done|]. injection Hhd as ->. rewrite reverse_cons, last_snoc in Ha. congruence. }
    split; [|done]. rewrite Enb, u64_small; [done|]. unfold is_u64, maxUint64 in *. lia.
  - assert (E : without_state fuel bc None (acc ++ [(Block_Hash b, NumberU64 b)]) = Ok (None, acc ++ [(Block_Hash b, NumberU64 b)])) by by destruct fuel.
    rewrite E. intros [= _ <-]. exists [b]. split_and!; [done|by constructor|done|by right].
Qed.

(** What [insertChain] promises to [insertSidechain]. *)
Definition reinserts (f : BlockChain → BSRR → list Block → result (imported * BlockChain * BSRR)) : Prop :=
  ∀ l bc c bl r bc' c', good l bc → Forall U bl → linked bl = true → f bc c bl = Ok (r, bc', c') → outcome l bc bc'.

Lemma reimport_ok f bs l bc c blocks memory res bc' c' :
  reinserts f → good l bc → Forall (stored (bdb bc)) bs → Forall U blocks → linked (blocks ++ bs) = true →
  reimport f bc c (keys_of bs) blocks memory = Ok (res, bc', c') → outcome l bc bc'.
Proof using.
  intros R. revert l bc c blocks memory. induction bs as [|b bs IH]; intros l bc c blocks memory G Hall Hbl Hl; cbn [keys_of fmap list_fmap reimport].
  { rewrite app_nil_r in Hl. destruct blocks as [|x blocks]; [intros [= _ <- _]; by apply outcome_refl|]. by apply R. }
  apply Forall_cons in Hall as [Hb Hall]. unfold bc_GetBlock. rewrite Hb. assert (Hl' : linked ((blocks ++ [b]) ++ bs) = true) by by rewrite <- app_assoc.
  assert (Hbl' : Forall U (blocks ++ [b])) by (apply Forall_app; split; [done|constructor; [by apply G|done]]).
  destruct (_ || _); [|by apply IH]. destruct (f bc c (blocks ++ [b])) as [[[r bc1] c1]| | |] eqn:Ef; [|done..]. cbn [bind].
  destruct (linked_app _ _ Hl') as [Hl1 Hl2]. pose proof (R _ _ _ _ _ _ _ G Hbl' Hl1 Ef) as O1. destruct (im_err r); [by intros [= _ <- _]|].
  intros E. destruct O1 as (l1 & G1 & V1 & A1). destruct (IH (l1 ++ l) bc1 c1 [] 0 G1) as (l2 & G2 & V2 & A2); [|done|done|exact E|].
  - eapply Forall_impl; [exact Hall|]. intros x. by apply added_stored.
  - exists (l2 ++ l1). rewrite <- app_assoc. split_and!; [done|by apply Forall_app|by eapply added_trans].
Qed.

Lemma insertSidechain_ok f l bc c it b res bc' c' :
  reinserts f → good l bc → it_ok it → at_block bc it b (Some ErrPrunedAncestor) → insertSidechain f bc c it = Ok (res, bc', c') → outcome l bc bc'.
Proof using HU.
  intros R G Hit Hat. unfold insertSidechain. destruct (currentBlock bc) as [hd|]; [|done].
  assert (Ecur : it_current it = Some b) by (destruct (ab_index _ _ _ _ Hat) as [H0 Hi]; unfold it_current; destruct (Z.ltb_spec (it_index it) 0); [lia|done]).
  rewrite Ecur. destruct (store_side _ _ _ _ _ _ _) as [[r bc1]| | |] eqn:Es; [|done..]. cbn [bind].
  assert (O1 : outcome l bc bc1) by (eapply store_side_ok; [exact G| | |exact Es]; [split; [done|by intros ? [= <-]]|done]).
  destruct r as [[[err1 it1] externTd]|res1]; [|by intros [= _ <- _]]. destruct (bc_GetTd bc1 _ _) as [localTd|]; [|done]. destruct externTd as [td|]; [|done].
  destruct (it_previous it1) as [lst|]; [|done]. destruct (td <? localTd); [by intros [= _ <- _]|].
  destruct (without_state _ _ _ _) as [[par keys]| | |] eqn:Ew; [|done..]. cbn [bind]. destruct par as [h|]; [|by intros [= _ <- _]].
  intros E. eapply outcome_trans; [exact O1|]. intros l' G'. destruct (hc_GetHeader (hc bc1) (Block_Hash lst) (NumberU64 lst)) as [h0|] eqn:Eh; [|by cbn in Ew].
  destruct (read_header g _ _ _ _ (good_store _ _ G') Eh) as (b0 & Hr & <-). destruct (read_stored g _ _ _ _ (good_store _ _ G') Hr) as (_ & _ & _ & _ & Hst).
  destruct (without_state_ok _ _ _ _ _ _ _ G' Hst Ew) as (bs & -> & Hall & Hl & _). rewrite app_nil_l in E. unfold keys_of in E. rewrite <- fmap_reverse in E.
  eapply (reimport_ok f (reverse bs)); [done|done| |done|done|exact E]. by apply Forall_reverse.
Qed.

Lemma insertChain_ok depth : reinserts (insertChain noRecursion preimages now coin depth).
Proof using HU.
  induction depth as [|depth IH]; intros l bc c bl res bc' c' G Hbl Hl; (destruct bl as [|first bl]; [done|]); cbn [insertChain];
    set (it0 := newInsertIterator _ _); (assert (Hit0 : it_ok it0) by (split; [done|done|done|by exists c, (reader_of bc)]));
    (destruct (next bc it0) as [[[block err] it]| | |] eqn:En; [|done..]); cbn [bind]; pose proof (next_at_hand _ _ _ _ _ Hit0 En) as Hat; destruct (next_ok _ _ _ _ _ Hit0 En) as (Hit & _ & Hb).
  all: destruct (bool_decide_reflect (err = Some ErrPrunedAncestor)) as [->|_].
  1, 3: destruct block as [b|]; [|done]; apply insertSidechain_ok with (b := b); [|done|done|apply Hb]; (by intros ? ? ? ? ? ? ? ? ? ? [=]) || exact IH.
  all: destruct (_ || _).
  1, 3: destruct block as [b|]; [|done]; destruct (queue_blocks _ _ _ _ _) as [[r bc1]| | |] eqn:Eq; [|done..]; cbn [bind]; pose proof (queue_blocks_ok _ _ _ _ _ _ _ G Eq) as O;
        destruct r as [[[? ?] ?]|[? ?]]; by intros [= _ <- _].
  all: destruct (bool_decide _).
  1, 3: destruct (currentBlock bc) as [hd|]; [|done]; destruct (skip_known _ _ _ _ _ _) as [[[block1 err1] it1]| | |] eqn:Es; [|done..]; cbn [bind];
        apply import_rest_ok; [done|by eapply skip_known_ok].
  all: destruct err as [e|]; [intros [= _ <- _]; by apply outcome_refl|by apply import_rest_ok].
Qed.
End Universe.


(** ** A valid block is imported *)

Section Valid.
Context (g : Block) (l : list Block) (bc : BlockChain) (top b parent : Block) (c c' : BSRR) (s s' : StateDB) (p : processed) (ptd t : Z) (bc2 : BlockChain).
Context (HR : reached g l bc) (Htop : currentBlock bc = Some top) (Hfits : fits (bdb bc) b) (Hfresh : fresh_txs (bdb bc) b).
Context (Hheader : verifyHeader c (reader_of bc) now (block_header b) [] = Ok tt) (Hbody : ValidateBody bc b = Ok None) (Hbad : Block_Hash b ∉ BadHashes).
Context (Hparent : parent_of bc b = Some parent) (Hstate : New (Root (block_header parent)) (stateCache bc) = Ok s).
Context (Hprocess : Process_engine noRecursion preimages (chainConfig bc) c (reader_of bc) b s = Ok (p, c')) (Herr : pr_err p = None).
Context (Hresult : ValidateState (chainConfig bc) b (pr_state p) (pr_receipts p) (pr_usedGas p) = Ok (None, s')).
Context (Hp : bc_GetTd bc (ParentHash (block_header b)) (u64 (NumberU64 b - 1)) = Some ptd).
Context (Ht : bc_GetTd bc (Block_Hash top) (NumberU64 top) = Some t).
Context (Hw : write_state (WriteBlockWithoutState bc b (Difficulty (block_header b) + ptd)) b s' = Ok (None, bc2)).

Let heavier : bool := better bc (coin b) top b t (Difficulty (block_header b) + ptd).

End Valid.
End Importing.
