(* ===== verification/ChainWitness.v ===== *)
(** * The theorems about the chain at work

    A chain of a few blocks with two branches, with hashes and tries that can be
    computed. *)

From Stdlib Require Import ZArith Lia.
From stdpp Require Import base option list gmap sets strings sorting.
From S2P Require Import Prelude GoFloat Params Rlp Types Account State StateRevert Receipt DeriveSha Chain ChainStore HeaderChain.
From S2P Require Import Staking Dao Transition Evm Selection Bsrr BsrrStakers BlockChain BlockChainLoad BlockChainProps ChainInvariant ChainReach ChainRewind BlockInsert ChainImport.

Module ToyForks.
#[local] Existing Instances ToyChain.toyCrypto ToyState.toyDatabase ToyChain.toyRange ToyChain.toyRand ToyChain.toySha.

#[local] Instance toyInterpreter : Interpreter := {|
  RequiredGas _ _ := 3;
  precompile_Run _ input := Ok (input, None);
  Interpreter_Run _ c _ _ s := Ok (None, None, contract_Gas c, s)
|}.

#[local] Instance toyDisk : DiskStore := {|
  triedb_Commit d _ := Ok d;
  disk_Has _ _ := false;
  disk_Delete d _ := Ok d
|}.

#[local] Instance toyQueue : BlockQueue := {|
  queue := list (Hash * Block);
  queue_Add q h b := (h, b) :: q;
  queue_Remove q h := base.filter (λ x, x.1 ≠ h) q;
  queue_Contains q h := bool_decide (h ∈ q.*1);
  queue_Keys q := q.*1;
  queue_Peek q h := match list_find (λ x, x.1 = h) q with Some x => Some x.2.2 | None => None end;
  queue_Purge _ := []
|}.

(** What was returned, when it is known that something was. *)
Definition value {A} (d : A) (r : result A) : A := match r with Ok x => x | _ => d end.

Lemma value_ok {A} (d : A) (r : result A) : is_ok r = true → r = Ok (value d r).
Proof. by destruct r. Qed.

Lemma value_pair {A B} (d : A * B) (r : result (A * B)) (x : A) (p : A → bool) :
  (∀ y, p y = true → y = x) → match r with Ok (y, _) => p y | _ => false end = true → r = Ok (x, (value d r).2).
Proof. intros Hp. destruct r as [[y z]| | |]; [|done..]. by intros ->%Hp. Qed.

Definition is_canon (r : WriteStatus + string) : bool := match r with inl CanonStatTy => true | _ => false end.
Lemma is_canon_ok r : is_canon r = true → r = inl CanonStatTy.
Proof. by destruct r as [[]|]. Qed.

Definition is_none (e : option string) : bool := match e with None => true | _ => false end.
Lemma is_none_ok e : is_none e = true → e = None.
Proof. by destruct e. Qed.

Definition staker : Address := replicate 20 7.

Definition spec : Genesis := {|
  gen_Nonce := 0; gen_Timestamp := 0; gen_ExtraData := replicate 32 0 ++ staker ++ replicate 65 0; gen_GasLimit := 94000000; gen_Difficulty := Some 1;
  gen_Mixhash := zeroHash; gen_Coinbase := zeroAddress; gen_Alloc := ∅; gen_Number := 0; gen_GasUsed := 0; gen_ParentHash := zeroHash |}.

Definition no_header : Header := {|
  ParentHash := zeroHash; UncleHash := zeroHash; Coinbase := zeroAddress; Root := zeroHash; TxHash := zeroHash; ReceiptHash := zeroHash; Bloom := [];
  Difficulty := 0; Number := None; GasLimit := 0; GasUsed := 0; Time := 0; Extra := []; MixDigest := zeroHash; Nonce := [] |}.
Definition no_block : Block := {| block_header := no_header; block_transactions := []; block_uncles := [] |}.

Definition committed : result ((Block + string) * unit * ChainDb) := Genesis_Commit spec tt fresh_db.
Definition g : Block := match committed with Ok (inl b, _, _) => b | _ => no_block end.
Definition db0 : ChainDb := match committed with Ok (_, _, db) => db | _ => fresh_db end.

Lemma committed_ok : Genesis_Commit spec tt fresh_db = Ok (inl g, tt, db0).
Proof. vm_compute. reflexivity. Qed.

Definition bc0 : BlockChain :=
  match NewBlockChain 0 BadHashes [] db0 tt true MainnetChainConfig None with
  | Ok bc => bc
  | _ => {| chainConfig := MainnetChainConfig; archive := true; triesInMemory := 0; shouldPreserve := None;
            hc := {| chainDb := fresh_db; genesisHeader := no_header; currentHeader := None; currentHeaderHash := zeroHash |};
            stateCache := tt; genesisBlock := no_block; currentBlock := None; currentFastBlock := None; futureBlocks := [] |}
  end.

Lemma opened_ok : NewBlockChain 0 BadHashes [] db0 tt true MainnetChainConfig None = Ok bc0.
Proof. vm_compute. reflexivity. Qed.

Lemma reached0 : reached g [] bc0.
Proof.
  eapply reached_start; [exact committed_ok| | |exact opened_ok].
  - apply (bool_decide_unpack _). vm_compute. reflexivity.
  - apply (bool_decide_unpack _). vm_compute. reflexivity.
Qed.

(** A child of [p]. *)
Definition child (p : Block) (difficulty nonce : Z) (txs : list txdata) : Block :=
  let h := {| ParentHash := Block_Hash p; UncleHash := zeroHash; Coinbase := zeroAddress; Root := zeroHash; TxHash := zeroHash; ReceiptHash := zeroHash;
              Bloom := replicate 256 0; Difficulty := difficulty; Number := Some (NumberU64 p + 1); GasLimit := 94000000; GasUsed := 0;
              Time := Time (block_header p) + 10; Extra := replicate 97 0; MixDigest := zeroHash; Nonce := EncodeNonce nonce |} in
  match NewBlock h txs [] [] with Ok b => b | _ => no_block end.

Definition pay : txdata := {|
  AccountNonce := 0; Price := 1; TxGasLimit := 21000; Recipient := Some staker; Amount := 5; Payload := []; Base := Main; Target := Main; V := 27; R := 1; S_ := 1 |}.

Definition a1 : Block := child g 10 1 [pay].
Definition a2 : Block := child a1 10 2 [].
Definition b1 : Block := child g 100 3 [].

Definition s0 : StateDB := ToyState.toy_state ∅.

(** The chain after a block was written. *)
Definition write (bc : BlockChain) (b : Block) : BlockChain := (value (inr EmptyString, bc) (WriteBlockWithState bc true b [] s0)).2.
Definition bc1 : BlockChain := write bc0 a1.
Definition bc2 : BlockChain := write bc1 a2.
Definition bc3 : BlockChain := write bc2 b1.

Lemma write1 : WriteBlockWithState bc0 true a1 [] s0 = Ok (inl CanonStatTy, bc1).
Proof. apply (value_pair _ _ _ is_canon is_canon_ok). vm_compute. reflexivity. Qed.
Lemma write2 : WriteBlockWithState bc1 true a2 [] s0 = Ok (inl CanonStatTy, bc2).
Proof. apply (value_pair _ _ _ is_canon is_canon_ok). vm_compute. reflexivity. Qed.
Lemma write3 : WriteBlockWithState bc2 true b1 [] s0 = Ok (inl CanonStatTy, bc3).
Proof. apply (value_pair _ _ _ is_canon is_canon_ok). vm_compute. reflexivity. Qed.

(** A block that the chain has not. *)
Definition new_block (bc : BlockChain) (b : Block) : bool :=
  bool_decide (Number (block_header b) = Some (NumberU64 b)) && (0 <? NumberU64 b) && (NumberU64 b <? maxUint64) &&
  negb (bool_decide (Block_Hash b = zeroHash)) && (0 <? Difficulty (block_header b)) && negb (bool_decide (is_Some (headerNumbers (bdb bc) !! Block_Hash b))).

Lemma fits_new l bc b : reached g l bc → new_block bc b = true → fits (bdb bc) b.
Proof.
  intros (top & I & _)%reached_inv. unfold new_block. rewrite !andb_true_iff, !negb_true_iff, !bool_decide_eq_true, !bool_decide_eq_false, !Z.ltb_lt.
  intros (((((H1 & H2) & H3) & H4) & H5) & H6). split; try done. intros n b' [Hh _]%ReadBlock_Some. exfalso. apply H6. exists n. apply (so_numbers _ _ (iv_store _ _ _ I)). by eexists.
Qed.

Lemma fresh_empty db b : block_transactions b = [] → fresh_txs db b.
Proof. intros E l c tx tx' _ Htx. rewrite E in Htx. by apply elem_of_nil in Htx. Qed.

Lemma fresh_first db b p :
  ReadBlock db (ParentHash (block_header b)) (NumberU64 b - 1) = Some p → NumberU64 p = 0 → block_transactions p = [] → fresh_txs db b.
Proof.
  intros Er E0 Et l c tx tx' Hp Htx Htx'. inversion Hp as [|? p' ? ? _ Hr Hp']; subst. rewrite Er in Hr. injection Hr as <-.
  inversion Hp'; subst; [|lia]. rewrite Et in Htx'. by apply elem_of_nil in Htx'.
Qed.

Lemma fresh1 : fresh_txs (bdb bc0) a1.
Proof. apply (fresh_first _ _ g); vm_compute; reflexivity. Qed.

Lemma reached1 : reached g [a1] bc1.
Proof. eapply reached_written; [exact reached0| |exact fresh1|exact write1]. eapply fits_new; [exact reached0|]. vm_compute. reflexivity. Qed.
Lemma fits2 : fits (bdb bc1) a2.
Proof. eapply fits_new; [exact reached1|]. vm_compute. reflexivity. Qed.
Lemma reached2 : reached g [a2; a1] bc2.
Proof. eapply reached_written; [exact reached1|exact fits2| |exact write2]. apply fresh_empty. vm_compute. reflexivity. Qed.
Lemma fits3 : fits (bdb bc2) b1.
Proof. eapply fits_new; [exact reached2|]. vm_compute. reflexivity. Qed.
Lemma fresh3 : fresh_txs (bdb bc2) b1.
Proof. apply fresh_empty. vm_compute. reflexivity. Qed.
Lemma reached3 : reached g [b1; a2; a1] bc3.
Proof. eapply reached_written; [exact reached2|exact fits3|exact fresh3|exact write3]. Qed.

(** ** Branches *)

Lemma canonical_chain_witness :
  ∃ top, currentBlock bc3 = Some top ∧ bc_GetBlockByNumber bc3 0 = Some g ∧
    ∀ k, 0 < k ≤ NumberU64 top → ∃ b p, bc_GetBlockByNumber bc3 k = Some b ∧ bc_GetBlockByNumber bc3 (k - 1) = Some p ∧ ParentHash (block_header b) = Block_Hash p.
Proof.
  destruct (canonical_chain g [b1; a2; a1] bc3 reached3) as (top & H1 & _ & _ & H2 & H3). exists top. split; [exact H1|]. split; [exact H2|].
  intros k Hk. destruct (H3 k Hk) as (b & p & Hb & _ & _ & Hp & E). exists b, p. exact (conj Hb (conj Hp E)).
Defined.

Lemma heaviest_head_witness :
  ∃ top t, currentBlock bc3 = Some top ∧ bc_GetTd bc3 (Block_Hash top) (NumberU64 top) = Some t ∧ ∃ ta, bc_GetTd bc3 (Block_Hash a2) (NumberU64 a2) = Some ta ∧ ta ≤ t.
Proof.
  destruct (heaviest_head g [b1; a2; a1] bc3 reached3) as (top & t & H1 & H2 & H3). exists top, t. split; [exact H1|]. split; [exact H2|].
  destruct (H3 a2) as (ta & Ha & Hle & _); [right; right; left|]. exists ta. exact (conj Ha Hle).
Defined.


Lemma head2 : currentBlock bc2 = Some a2.
Proof. vm_compute. reflexivity. Qed.
Lemma number1 : bc_GetBlockByNumber bc2 1 = Some a1.
Proof. vm_compute. reflexivity. Qed.
Lemma numbers : NumberU64 a1 = 1 ∧ NumberU64 a2 = 2 ∧ NumberU64 b1 = 1.
Proof. vm_compute. done. Qed.

Lemma transactions_found_witness : ∃ tx i, ReadTransaction (bdb bc2) (Tx_Hash pay) = Some (tx, Block_Hash a1, 1, i) ∧ Tx_Hash tx = Tx_Hash pay.
Proof.
  destruct (transactions_found g [a2; a1] bc2 reached2) as (top & H1 & _ & H3). rewrite head2 in H1. injection H1 as <-. destruct numbers as (_ & E2 & _).
  apply (H3 1 a1 pay); [rewrite E2; split; discriminate|exact number1|]. assert (E : block_transactions a1 = [pay]) by (vm_compute; reflexivity). rewrite E. left.
Defined.

Lemma parent_weight : bc_GetTd bc2 (ParentHash (block_header b1)) (u64 (NumberU64 b1 - 1)) = Some 1.
Proof. vm_compute. reflexivity. Qed.
Lemma head_weight : bc_GetTd bc2 (Block_Hash a2) (NumberU64 a2) = Some 21.
Proof. vm_compute. reflexivity. Qed.
Definition bc2' : BlockChain := (value (None, bc2) (write_state (WriteBlockWithoutState bc2 b1 (Difficulty (block_header b1) + 1)) b1 s0)).2.
Lemma state_written : write_state (WriteBlockWithoutState bc2 b1 (Difficulty (block_header b1) + 1)) b1 s0 = Ok (None, bc2').
Proof. apply (value_pair _ _ _ is_none is_none_ok). vm_compute. reflexivity. Qed.
Lemma preferred : better bc2 true a2 b1 21 (Difficulty (block_header b1) + 1) = true.
Proof. vm_compute. reflexivity. Qed.


Lemma stale_numbers_stay_witness :
  ∃ bc', WriteBlockWithState bc2 true b1 [] s0 = Ok (inl CanonStatTy, bc') ∧ currentBlock bc' = Some b1 ∧ bc_GetBlockByNumber bc' (NumberU64 a2) = Some a2.
Proof.
  apply (stale_numbers_stay g [a2; a1] bc2 a2 b1 true [] s0 1 21 bc2' reached2 head2 fits3 fresh3 parent_weight head_weight state_written preferred).
  destruct numbers as (_ & -> & ->). reflexivity.
Defined.

(** ** Opening and rewinding *)

Lemma reset_at_start_panics_witness :
  ∃ w, NewBlockChain 5 BadHashes [] (put_heads db0 zeroHash zeroHash zeroHash) tt true MainnetChainConfig None = Panic w.
Proof.
  apply (reset_at_start_panics (D := ToyState.toyDatabase) (BQ := toyQueue) 5 BadHashes [] (put_heads db0 zeroHash zeroHash zeroHash) tt true MainnetChainConfig None g); [discriminate| | | |left; reflexivity].
  - apply (bool_decide_unpack _). vm_compute. reflexivity.
  - vm_compute. reflexivity.
  - vm_compute. reflexivity.
Defined.

Lemma SetHead_rewinds_witness :
  ∃ bc', SetHead 0 bc2 1 = Ok (None, bc') ∧ currentBlock bc' = Some a1 ∧ bc_GetBlockByNumber bc' 2 = None ∧ bc_GetBlock bc' (Block_Hash a2) 2 = None.
Proof.
  assert (Hf : currentFastBlock bc2 = Some a2) by (vm_compute; reflexivity). assert (Hs : is_ok (New (Root (block_header a1)) (stateCache bc2)) = true) by (vm_compute; reflexivity).
  destruct (New (Root (block_header a1)) (stateCache bc2)) as [s| | |] eqn:Es; [|discriminate Hs..]. destruct numbers as (_ & E2 & _).
  destruct (SetHead_rewinds g [a2; a1] bc2 a2 a2 1 a1 s 0 reached2 head2 Hf) as (bc' & H1 & H2 & _ & _ & H5); [rewrite E2; split; discriminate|exact number1|exact Es|].
  exists bc'. split; [exact H1|]. split; [exact H2|]. apply H5; [rewrite E2; split; [reflexivity|discriminate]|]. vm_compute. reflexivity.
Defined.

(** ** Importing *)

Lemma CalcGasLimit_bound_witness : Z.abs (CalcGasLimit (block_header g) 8000000 8000000 - 94000000) < 94000000 / 1024.
Proof.
  assert (E : GasLimit (block_header g) = 94000000 ∧ GasUsed (block_header g) = 0) by (vm_compute; done). destruct E as [E1 E2].
  pose proof (CalcGasLimit_bound (block_header g) 8000000 8000000) as H. rewrite E1, E2 in H. apply H; [split; [discriminate|reflexivity]|split; discriminate|discriminate|discriminate].
Defined.

Definition v1 : Block := child g 10 1 [].
Definition engine : BSRR := ToyChain.engine.
Definition imported1 : result (Z * option string * list chain_event * BlockChain * BSRR) := InsertChain false false 1000 (λ _, true) 0 bc0 engine [v1].
Definition bc1' : BlockChain := match imported1 with Ok (_, _, _, bc, _) => bc | _ => bc0 end.
Definition engine1 : BSRR := match imported1 with Ok (_, _, _, _, c) => c | _ => engine end.
Definition events1 : list chain_event := match imported1 with Ok (_, _, ev, _, _) => ev | _ => [] end.

Lemma imported1_ok : InsertChain false false 1000 (λ _, true) 0 bc0 engine [v1] = Ok (1, None, events1, bc1', engine1).
Proof. vm_compute. reflexivity. Qed.

Definition known (b : Block) : Prop := b = g ∨ b = v1.

Lemma known_universe : universe g known.
Proof.
  split.
  - assert (E : Block_Hash g ≠ Block_Hash v1) by (apply (bool_decide_unpack _); vm_compute; reflexivity).
    intros b b' [->| ->] [->| ->] H; [reflexivity|by destruct (E H)|by destruct (E (eq_sym H))|reflexivity].
  - assert (H : ∀ b, bool_decide (Number (block_header b) = Some (NumberU64 b)) && (NumberU64 b <? maxUint64) && negb (bool_decide (Block_Hash b = zeroHash)) && (0 <? Difficulty (block_header b)) = true →
      Number (block_header b) = Some (NumberU64 b) ∧ NumberU64 b < maxUint64 ∧ Block_Hash b ≠ zeroHash ∧ 0 < Difficulty (block_header b)).
    { intros b. rewrite !andb_true_iff, negb_true_iff, bool_decide_eq_true, bool_decide_eq_false, !Z.ltb_lt. tauto. }
    intros b [->| ->]; apply H; vm_compute; reflexivity.
  - intros b db [->| ->] _; apply fresh_empty; vm_compute; reflexivity.
Qed.

Lemma known0 b : stored (bdb bc0) b → known b.
Proof.
  intros Hb. left. destruct (reached_inv _ _ _ reached0) as (top & I & _). eapply stored_zero; [apply I|exact Hb|].
  assert (E : headerData (bdb bc0) = {[(0, Block_Hash g) := block_header g]}) by (vm_compute; reflexivity).
  apply ReadBlock_Some in Hb as [Hh _]. rewrite E in Hh. apply lookup_singleton_Some in Hh as [Ek _]. exact (eq_sym (f_equal fst Ek)).
Qed.


Definition st : StateDB := match New (Root (block_header g)) (stateCache bc0) with Ok s => s | _ => s0 end.
Definition run1 : processed * BSRR :=
  value ({| pr_receipts := []; pr_logs := []; pr_usedGas := 0; pr_err := None; pr_state := st |}, engine)
    (Process_engine false false (chainConfig bc0) engine (reader_of bc0) v1 st).
Definition st' : StateDB := (value (None, st) (ValidateState (chainConfig bc0) v1 (pr_state run1.1) (pr_receipts run1.1) (pr_usedGas run1.1))).2.
Definition bc0' : BlockChain := (value (None, bc0) (write_state (WriteBlockWithoutState bc0 v1 (Difficulty (block_header v1) + 1)) v1 st')).2.

Lemma run1_ok : Process_engine false false (chainConfig bc0) engine (reader_of bc0) v1 st = Ok (run1.1, run1.2).
Proof.
  assert (H : is_ok (Process_engine false false (chainConfig bc0) engine (reader_of bc0) v1 st) = true) by (vm_compute; reflexivity).
  rewrite <- surjective_pairing. exact (value_ok _ _ H).
Qed.

Lemma result1_ok : ValidateState (chainConfig bc0) v1 (pr_state run1.1) (pr_receipts run1.1) (pr_usedGas run1.1) = Ok (None, st').
Proof. apply (value_pair _ _ _ is_none is_none_ok). vm_compute. reflexivity. Qed.

Lemma written1_ok : write_state (WriteBlockWithoutState bc0 v1 (Difficulty (block_header v1) + 1)) v1 st' = Ok (None, bc0').
Proof. apply (value_pair _ _ _ is_none is_none_ok). vm_compute. reflexivity. Qed.

Lemma header1_ok : verifyHeader engine (reader_of bc0) 1000 (block_header v1) [] = Ok tt.
Proof. vm_compute. reflexivity. Qed.
Lemma body1_ok : ValidateBody bc0 v1 = Ok None.
Proof. vm_compute. reflexivity. Qed.

Lemma fits_v1 : fits (bdb bc0) v1.
Proof. eapply fits_new; [exact reached0|]. vm_compute. reflexivity. Qed.

End ToyForks.
