(* ===== verification/Worker.v ===== *)
(** * Making blocks ([miner/worker.go], [miner/unconfirmed.go])

    The worker assembles a block on the current head: it prepares a header with
    the consensus engine, executes the pending transactions of the pool, the
    dearest first, and hands the finalized block to the engine to be sealed;
    the sealed block is written to the chain.

    The chain, the pool and the engine are arguments.  What the worker sends to
    its channels is a list of [sent].  The goroutines are the handlers of their
    channels; timers and the interval of resubmission are left out. *)

From Stdlib Require Import ZArith Lia SpecFloat.
From stdpp Require Import base option list gmap sets strings.
From S2P Require Import Prelude GoFloat Params Rlp Types Account State Receipt DeriveSha Chain ChainStore HeaderChain.
From S2P Require Import Staking Dao Transition Evm Selection TxList TxPool TxOrder Bsrr BlockChain BlockChainLoad BlockInsert.

Definition staleThreshold : Z := 7.
Definition miningLogAtDepth : Z := 7.
Definition commitInterruptNone : Z := 0.
Definition commitInterruptNewHead : Z := 1.
Definition commitInterruptResubmit : Z := 2.

(** ** Blocks that are not confirmed yet *)

Record unconfirmedBlock := { un_index : Z; un_hash : Hash }.

(** What is logged of a block that leaves the set. *)
Inductive confirmation := NotFound | Canonical | BecameUncle | Lost.

Section Unconfirmed.
Context {C : Crypto} {D : Database} {MO : MapOrder} {DS : DiskStore} {BQ : BlockQueue}.

(** Whether a canonical block from [number] on, below [last] and up to [height],
    has the block as an uncle. *)
Fixpoint included_as_uncle (fuel : nat) (bc : BlockChain) (hash : Hash) (number last height : Z) : bool :=
  match fuel with
  | O => false
  | S fuel =>
      if (number <? last) && (number <=? height) then
        match bc_GetBlockByNumber bc number with
        | Some b => existsb (λ u, bool_decide (Header_Hash u = hash)) (block_uncles b) || included_as_uncle fuel bc hash (u64 (number + 1)) last height
        | None => included_as_uncle fuel bc hash (u64 (number + 1)) last height
        end
      else false
  end.

Definition confirm (bc : BlockChain) (depth height : Z) (b : unconfirmedBlock) : confirmation :=
  match hc_GetHeaderByNumber (hc bc) (un_index b) with
  | None => NotFound
  | Some header =>
      if bool_decide (Header_Hash header = un_hash b) then Canonical
      else if included_as_uncle (Z.to_nat depth) bc (un_hash b) (un_index b) (u64 (un_index b + depth)) height then BecameUncle
      else Lost
  end.

(** The ring is the list of its values from the oldest on. *)
Fixpoint unconfirmed_Shift (bc : BlockChain) (depth height : Z) (set : list unconfirmedBlock) : list confirmation * list unconfirmedBlock :=
  match set with
  | [] => ([], [])
  | b :: rest =>
      if height <? u64 (un_index b + depth) then ([], set)
      else let '(logged, set) := unconfirmed_Shift bc depth height rest in (confirm bc depth height b :: logged, set)
  end.

Definition unconfirmed_Insert (bc : BlockChain) (depth index : Z) (hash : Hash) (set : list unconfirmedBlock) : list confirmation * list unconfirmedBlock :=
  let '(logged, set) := unconfirmed_Shift bc depth index set in (logged, set ++ [{| un_index := index; un_hash := hash |}]).
End Unconfirmed.

Section Worker.
Context {C : Crypto} {D : Database} {I : Interpreter} {MO : MapOrder} {NO : NonceOrder} {GR : GoRand} {SH : Sha256} {DS : DiskStore} {BQ : BlockQueue}.

(** ** The current block *)

Record environment := {
  env_signer : Signer;
  env_state : StateDB;
  env_ancestors : gset Hash;
  env_family : gset Hash;
  env_uncles : gset Hash;
  env_tcount : Z;
  env_gasPool : option Z;
  env_header : Header;
  env_txs : list txdata;
  env_receipts : list Receipt
}.

Definition with_GasUsed (h : Header) (used : Z) : Header := {|
  ParentHash := ParentHash h; UncleHash := UncleHash h; Coinbase := Coinbase h; Root := Root h; TxHash := TxHash h;
  ReceiptHash := ReceiptHash h; Bloom := Bloom h; Difficulty := Difficulty h; Number := Number h; GasLimit := GasLimit h;
  GasUsed := used; Time := Time h; Extra := Extra h; MixDigest := MixDigest h; Nonce := Nonce h |}.

(** The state, the gas pool and the header. *)
Definition put_env (e : environment) (s : StateDB) (gp : option Z) (h : Header) : environment := {|
  env_signer := env_signer e; env_state := s; env_ancestors := env_ancestors e; env_family := env_family e;
  env_uncles := env_uncles e; env_tcount := env_tcount e; env_gasPool := gp; env_header := h;
  env_txs := env_txs e; env_receipts := env_receipts e |}.

Definition put_uncles (e : environment) (u : gset Hash) : environment := {|
  env_signer := env_signer e; env_state := env_state e; env_ancestors := env_ancestors e; env_family := env_family e;
  env_uncles := u; env_tcount := env_tcount e; env_gasPool := env_gasPool e; env_header := env_header e;
  env_txs := env_txs e; env_receipts := env_receipts e |}.

Definition add_tx (e : environment) (tx : txdata) (r : Receipt) : environment := {|
  env_signer := env_signer e; env_state := env_state e; env_ancestors := env_ancestors e; env_family := env_family e;
  env_uncles := env_uncles e; env_tcount := env_tcount e; env_gasPool := env_gasPool e; env_header := env_header e;
  env_txs := env_txs e ++ [tx]; env_receipts := env_receipts e ++ [r] |}.

Definition count_tx (e : environment) : environment := {|
  env_signer := env_signer e; env_state := env_state e; env_ancestors := env_ancestors e; env_family := env_family e;
  env_uncles := env_uncles e; env_tcount := env_tcount e + 1; env_gasPool := env_gasPool e; env_header := env_header e;
  env_txs := env_txs e; env_receipts := env_receipts e |}.

(** [parent] and its nearest ancestors may not be uncles, nor their uncles. *)
Definition makeCurrent (bc : BlockChain) (parent : Block) (header : Header) : result environment :=
  let* s := New (Root (block_header parent)) (stateCache bc) in
  let near := GetBlocksFromHash bc (Block_Hash parent) 7 in
  Ok {| env_signer := NewEIP155Signer (ChainID (chainConfig bc)); env_state := s;
        env_ancestors := list_to_set (Block_Hash <$> near);
        env_family := list_to_set (Block_Hash <$> near) ∪ list_to_set (concat ((λ b, Header_Hash <$> block_uncles b) <$> near));
        env_uncles := ∅; env_tcount := 0; env_gasPool := None; env_header := header; env_txs := []; env_receipts := [] |}.

Definition commitUncle (env : environment) (uncle : Header) : option string * environment :=
  let hash := Header_Hash uncle in
  if bool_decide (hash ∈ env_uncles env) then (Some "uncle not unique", env)
  else if bool_decide (ParentHash (env_header env) = ParentHash uncle) then (Some "uncle is sibling", env)
  else if negb (bool_decide (ParentHash uncle ∈ env_ancestors env)) then (Some "uncle's parent unknown", env)
  else if bool_decide (hash ∈ env_family env) then (Some "uncle already included", env)
  else (None, put_uncles env ({[hash]} ∪ env_uncles env)).

(** ** Transactions *)

(** Of the virtual machine: [noRecursion] and [preimages]. *)
Context (noRecursion preimages : bool).

(** The logs of the transaction, or its error.  What a failed transaction took
    from the gas pool is not put back. *)
Definition commitTransaction (config : ChainConfig) (chain : ChainReader StateDB) (env : environment) (tx : txdata) (coinbase : Address)
  : result ((list Log + string) * environment) :=
  let '(snap, s) := Snapshot (env_state env) in
  match env_gasPool env with
  | None => nil_deref
  | Some gp =>
      let* (r, s, gp, used) := ApplyTransaction config chain coinbase noRecursion preimages gp s (env_header env) tx (GasUsed (env_header env)) in
      match r with
      | inr e => let* s := RevertToSnapshot s snap in Ok (inr e, put_env env s (Some gp) (env_header env))
      | inl (receipt, _) =>
          Ok (inl (rcpt_Logs receipt), add_tx (put_env env s (Some gp) (with_GasUsed (env_header env) used)) tx receipt)
      end
  end.

(** What becomes of the transactions after one was tried. *)
Definition next_txs (err : option string) (txs : TransactionsByPriceAndNonce) : result TransactionsByPriceAndNonce :=
  match err with
  | Some e => if bool_decide (e = ErrGasLimitReached ∨ e = ErrNonceTooHigh) then Pop txs else Shift txs
  | None => Shift txs
  end.

(** Sent to the loop that adjusts the interval of resubmission ([None]: to
    decrease it), to the subscribers of pending logs, and to the sealer. *)
Record task := { task_receipts : list Receipt; task_state : StateDB; task_block : Block }.
Inductive sent :=
  | resubmitAdjust (ratio : option float64)
  | PendingLogsEvent (l : list Log)
  | newTask (t : task).

Definition fill_ratio (limit gas : Z) : float64 :=
  let ratio := f64_div (f64_of_Z (u64 (limit - gas))) (f64_of_Z limit) in
  let tenth := f64_div (f64_of_Z 1) (f64_of_Z 10) in
  if f64_ltb ratio tenth then tenth else ratio.

(** [interrupt]: nil, or what the [k]-th load of the [n]-th round gives.  An
    interrupted round gives the answer of the loop and what it sends. *)
Definition interrupted (interrupt : option (nat → nat → Z)) (round : nat) (limit gas : Z) : option (bool * list sent) :=
  match interrupt with
  | Some load =>
      if load round 0%nat =? commitInterruptNone then None
      else Some (load round 2%nat =? commitInterruptNewHead,
                 if load round 1%nat =? commitInterruptResubmit then [resubmitAdjust (Some (fill_ratio limit gas))] else [])
  | None => None
  end.

(** The logs at the end of the loop; every round takes a transaction. *)
Fixpoint commit_loop (fuel : nat) (config : ChainConfig) (chain : ChainReader StateDB) (coinbase : Address) (interrupt : option (nat → nat → Z))
    (round : nat) (env : environment) (txs : TransactionsByPriceAndNonce) (coalesced : list Log)
  : result (option (bool * list sent) * list Log * environment) :=
  match env_gasPool env with
  | None => nil_deref
  | Some gp =>
      match interrupted interrupt round (GasLimit (env_header env)) gp with
      | Some answer => Ok (Some answer, coalesced, env)
      | None =>
          if gp <? TxGas then Ok (None, coalesced, env)
          else
            match Peek txs, fuel with
            | None, _ => Ok (None, coalesced, env)
            | Some _, O => Hang
            | Some tx, S fuel =>
                let* _ := sender_or_zero (env_signer env) tx in
                if isProtectedV (V tx) && negb (IsEIP155 config (Number (env_header env))) then
                  let* txs := Pop txs in commit_loop fuel config chain coinbase interrupt (S round) env txs coalesced
                else
                  let env := put_env env (State.Prepare (env_state env) (Tx_Hash tx) zeroHash (env_tcount env)) (env_gasPool env) (env_header env) in
                  let* (r, env) := commitTransaction config chain env tx coinbase in
                  match r with
                  | inl l =>
                      let* txs := next_txs None txs in
                      commit_loop fuel config chain coinbase interrupt (S round) (count_tx env) txs (coalesced ++ l)
                  | inr e =>
                      let* txs := next_txs (Some e) txs in
                      commit_loop fuel config chain coinbase interrupt (S round) env txs coalesced
                  end
            end
      end
  end.

(** Transactions left in the set bound the rounds. *)
Definition txs_left (txs : TransactionsByPriceAndNonce) : nat := length (t_heads txs) + length (all_txs (t_txs txs)).

(** Whether the work is to be discarded; without a current block nothing is
    done. *)
Definition commitTransactions (config : ChainConfig) (chain : ChainReader StateDB) (running : bool) (current : option environment)
    (txs : TransactionsByPriceAndNonce) (coinbase : Address) (interrupt : option (nat → nat → Z))
  : result (bool * list sent * option environment) :=
  match current with
  | None => Ok (true, [], None)
  | Some env =>
      let* gp := match env_gasPool env with Some gp => Ok gp | None => AddGas 0 (GasLimit (env_header env)) end in
      let env := put_env env (env_state env) (Some gp) (env_header env) in
      let* (answer, l, env) := commit_loop (txs_left txs) config chain coinbase interrupt 0 env txs [] in
      match answer with
      | Some (discard, s) => Ok (discard, s, Some env)
      | None =>
          Ok (false, (if negb running && bool_decide (l ≠ []) then [PendingLogsEvent l] else []) ++
                     match interrupt with Some _ => [resubmitAdjust None] | None => [] end, Some env)
      end
  end.

(** ** The worker *)

Record worker := {
  w_gasFloor : Z;
  w_gasCeil : Z;
  w_current : option environment;
  w_localUncles : gmap Hash Block;
  w_remoteUncles : gmap Hash Block;
  w_unconfirmed : list unconfirmedBlock;
  w_coinbase : Address;
  w_extra : bytes;
  w_pendingTasks : gmap Hash task;
  w_snapshot : option (Block * StateDB);
  w_running : bool
}.

Definition put_current (w : worker) (e : option environment) : worker := {|
  w_gasFloor := w_gasFloor w; w_gasCeil := w_gasCeil w; w_current := e; w_localUncles := w_localUncles w; w_remoteUncles := w_remoteUncles w;
  w_unconfirmed := w_unconfirmed w; w_coinbase := w_coinbase w; w_extra := w_extra w; w_pendingTasks := w_pendingTasks w;
  w_snapshot := w_snapshot w; w_running := w_running w |}.
Definition put_side (w : worker) (local remote : gmap Hash Block) : worker := {|
  w_gasFloor := w_gasFloor w; w_gasCeil := w_gasCeil w; w_current := w_current w; w_localUncles := local; w_remoteUncles := remote;
  w_unconfirmed := w_unconfirmed w; w_coinbase := w_coinbase w; w_extra := w_extra w; w_pendingTasks := w_pendingTasks w;
  w_snapshot := w_snapshot w; w_running := w_running w |}.
Definition put_unconfirmed (w : worker) (l : list unconfirmedBlock) : worker := {|
  w_gasFloor := w_gasFloor w; w_gasCeil := w_gasCeil w; w_current := w_current w; w_localUncles := w_localUncles w; w_remoteUncles := w_remoteUncles w;
  w_unconfirmed := l; w_coinbase := w_coinbase w; w_extra := w_extra w; w_pendingTasks := w_pendingTasks w;
  w_snapshot := w_snapshot w; w_running := w_running w |}.
Definition put_tasks (w : worker) (m : gmap Hash task) : worker := {|
  w_gasFloor := w_gasFloor w; w_gasCeil := w_gasCeil w; w_current := w_current w; w_localUncles := w_localUncles w; w_remoteUncles := w_remoteUncles w;
  w_unconfirmed := w_unconfirmed w; w_coinbase := w_coinbase w; w_extra := w_extra w; w_pendingTasks := m;
  w_snapshot := w_snapshot w; w_running := w_running w |}.
Definition put_snapshot (w : worker) (b : Block) (s : StateDB) : worker := {|
  w_gasFloor := w_gasFloor w; w_gasCeil := w_gasCeil w; w_current := w_current w; w_localUncles := w_localUncles w; w_remoteUncles := w_remoteUncles w;
  w_unconfirmed := w_unconfirmed w; w_coinbase := w_coinbase w; w_extra := w_extra w; w_pendingTasks := w_pendingTasks w;
  w_snapshot := Some (b, s); w_running := w_running w |}.

(** The headers of the chosen uncles, as far as their blocks are known. *)
Definition chosen_uncles (w : worker) (env : environment) : list Header :=
  omap (λ hash, block_header <$> match w_localUncles w !! hash with Some b => Some b | None => w_remoteUncles w !! hash end)
    (range (env_uncles env)).

Definition updateSnapshot (w : worker) : result worker :=
  match w_current w with
  | None => nil_deref
  | Some env =>
      let* b := NewBlock (env_header env) (env_txs env) (chosen_uncles w env) (env_receipts env) in
      let* s := Copy (env_state env) in
      Ok (put_snapshot w b s)
  end.

(** The error, what is sent, the worker and the engine.  The engine writes the
    root to the header of the current block, and its block has no uncles. *)
Definition commit (bc : BlockChain) (c : BSRR) (w : worker) (update : bool) : result (option string * list sent * worker * BSRR) :=
  match w_current w with
  | None => nil_deref
  | Some env =>
      let* s := Copy (env_state env) in
      match Finalize c (reader_of bc) (env_header env) s (env_txs env) with
      | Err e => Ok (Some e, [], w, c)
      | Panic p => Panic p
      | Hang => Hang
      | Ok (header, s, c) =>
          let* b := NewBlock header (env_txs env) [] (env_receipts env) in
          let w := put_current w (Some (put_env env (env_state env) (env_gasPool env) header)) in
          let '(out, w) :=
            if w_running w then
              ([newTask {| task_receipts := env_receipts env; task_state := s; task_block := b |}],
               put_unconfirmed w (unconfirmed_Shift bc miningLogAtDepth (u64 (NumberU64 b - 1)) (w_unconfirmed w)).2)
            else ([], w) in
          let* w := if update then updateSnapshot w else Ok w in
          Ok (None, out, w, c)
      end
  end.

(** [commitUncles]: stale blocks are dropped, and at most two are chosen.  The
    engine ignores the choice. *)
Definition fresh_uncles (number : Z) (blocks : gmap Hash Block) : gmap Hash Block :=
  base.filter (λ x, u64 (NumberU64 x.2 + staleThreshold) > number) blocks.

Fixpoint choose_uncles (blocks : gmap Hash Block) (order : list Hash) (chosen : nat) (env : environment) : nat * environment :=
  match order with
  | [] => (chosen, env)
  | hash :: order =>
      if (chosen =? 2)%nat then (chosen, env)
      else
        match blocks !! hash with
        | None => choose_uncles blocks order chosen env
        | Some b =>
            let '(err, env) := commitUncle env (block_header b) in
            choose_uncles blocks order (match err with None => S chosen | Some _ => chosen end) env
        end
  end.

Definition commitUncles (w : worker) (env : environment) : worker :=
  let number := big_Uint64 (num (env_header env)) in
  let local := fresh_uncles number (w_localUncles w) in
  let remote := fresh_uncles number (w_remoteUncles w) in
  let '(n, env) := choose_uncles local (range (dom local)) 0 env in
  let '(_, env) := choose_uncles remote (range (dom remote)) n env in
  put_current (put_side w local remote) (Some env).

(** ** A new block *)

Definition new_header (bc : BlockChain) (w : worker) (parent : Block) (timestamp : Z) : Header := {|
  ParentHash := Block_Hash parent; UncleHash := zeroHash; Coinbase := if w_running w then w_coinbase w else zeroAddress; Root := zeroHash;
  TxHash := zeroHash; ReceiptHash := zeroHash; Bloom := replicate BloomByteLength 0; Difficulty := 0;
  Number := Some (num (block_header parent) + 1); GasLimit := CalcGasLimit (block_header parent) (w_gasFloor w) (w_gasCeil w); GasUsed := 0;
  Time := timestamp; Extra := w_extra w; MixDigest := zeroHash; Nonce := EncodeNonce 0 |}.

(** The extra data around the DAO fork replace the prepared ones. *)
Definition dao_extra (config : ChainConfig) (header : Header) : Header :=
  match DAOForkBlock config with
  | Some fork =>
      if (fork <=? num header) && (num header <? fork + DAOForkExtraRange) then
        if DAOForkSupport config then with_Extra header DAOForkBlockExtra
        else if bool_decide (Extra header = DAOForkBlockExtra) then with_Extra header [] else header
      else header
  | None => header
  end.

(** The pending transactions of local accounts, and the others. *)
Fixpoint split_locals (accounts : list Address) (local remote : gmap Address (list txdata)) : gmap Address (list txdata) * gmap Address (list txdata) :=
  match accounts with
  | [] => (local, remote)
  | account :: accounts =>
      match remote !! account with
      | Some (tx :: txs) => split_locals accounts (<[account := tx :: txs]> local) (delete account remote)
      | _ => split_locals accounts local remote
      end
  end.

Definition fill_from (bc : BlockChain) (w : worker) (txs : gmap Address (list txdata)) (interrupt : nat → nat → Z) : result (bool * list sent * worker) :=
  if bool_decide (txs = ∅) then Ok (false, [], w)
  else
    match w_current w with
    | None => nil_deref
    | Some env =>
        let* t := NewTransactionsByPriceAndNonce (env_signer env) txs in
        let* (stop, out, current) := commitTransactions (chainConfig bc) (reader_of bc) (w_running w) (Some env) t (w_coinbase w) (Some interrupt) in
        Ok (stop, out, put_current w current)
    end.

(** The transactions of the pool, the local ones first; then the block. *)
Definition commit_pending (bc : BlockChain) (c : BSRR) (w : worker) (pool : TxPool) (interrupt : nat → nat → nat → Z) : result (list sent * worker * BSRR) :=
  let pending := Pending pool in
  if bool_decide (pending = ∅) then let* w := updateSnapshot w in Ok ([], w, c)
  else
    let '(local, remote) := split_locals (range (accounts (locals pool))) ∅ pending in
    let* (stop, out1, w) := fill_from bc w local (interrupt 0%nat) in
    if (stop : bool) then Ok (out1, w, c)
    else
      let* (stop, out2, w) := fill_from bc w remote (interrupt 1%nat) in
      if (stop : bool) then Ok (out1 ++ out2, w, c)
      else let* (_, out3, w, c) := commit bc c w true in Ok (out1 ++ out2 ++ out3, w, c).

(** [now]: the clock of the engine. *)
Definition commitNewWork (bc : BlockChain) (c : BSRR) (w : worker) (pool : TxPool) (now : Z) (interrupt : nat → nat → nat → Z) (noempty : bool) (timestamp : Z)
  : result (list sent * worker * BSRR) :=
  match currentBlock bc with
  | None => never_stored
  | Some parent =>
      let time := Time (block_header parent) in
      let timestamp := if timestamp <=? time then i64 (big_Int64 time + 1) else timestamp in
      if w_running w && bool_decide (w_coinbase w = zeroAddress) then Ok ([], w, c)
      else
        match Bsrr.Prepare c (reader_of bc) now (new_header bc w parent timestamp) with
        | Err _ => Ok ([], w, c)
        | Panic p => Panic p
        | Hang => Hang
        | Ok (header, c) =>
            let config := chainConfig bc in
            match makeCurrent bc parent (dao_extra config header) with
            | Err _ => Ok ([], w, c)
            | Panic p => Panic p
            | Hang => Hang
            | Ok env =>
                let env :=
                  if DAOForkSupport config && bool_decide (DAOForkBlock config = Some (num header))
                  then put_env env (ApplyDAOHardFork (env_state env)) (env_gasPool env) (env_header env) else env in
                let w := commitUncles w env in
                let* (out, w, c) := if noempty then Ok ([], w, c) else let* (_, out, w, c) := commit bc c w false in Ok (out, w, c) in
                let* (out', w, c) := commit_pending bc c w pool interrupt in
                Ok (out ++ out', w, c)
            end
        end
  end.

(** ** The loops *)

(** A side block, in [mainLoop]; [isLocal] tells the blocks of this node.  A new
    uncle makes a new block. *)
Definition handle_side (bc : BlockChain) (c : BSRR) (w : worker) (isLocal : Block → bool) (b : Block) : result (list sent * worker * BSRR) :=
  let hash := Block_Hash b in
  if bool_decide (is_Some (w_localUncles w !! hash)) || bool_decide (is_Some (w_remoteUncles w !! hash)) then Ok ([], w, c)
  else
    let w := if isLocal b then put_side w (<[hash := b]> (w_localUncles w)) (w_remoteUncles w)
             else put_side w (w_localUncles w) (<[hash := b]> (w_remoteUncles w)) in
    match w_current w with
    | Some env =>
        if w_running w && (size (env_uncles env) <? 2)%nat then
          match commitUncle env (block_header b) with
          | (None, env) => let* (_, out, w, c) := commit bc c (put_current w (Some env)) true in Ok (out, w, c)
          | (Some _, _) => Ok ([], w, c)
          end
        else Ok ([], w, c)
    | None => Ok ([], w, c)
    end.

(** By sender, in the order they came. *)
Fixpoint group_txs (sg : Signer) (txs : list txdata) (m : gmap Address (list txdata)) : result (gmap Address (list txdata)) :=
  match txs with
  | [] => Ok m
  | tx :: txs => let* acc := sender_or_zero sg tx in group_txs sg txs (<[acc := default [] (m !! acc) ++ [tx]]> m)
  end.

(** New transactions, in [mainLoop]: they join the pending block of a node that
    does not mine. *)
Definition handle_txs (bc : BlockChain) (w : worker) (txs : list txdata) : result (list sent * worker) :=
  match w_current w with
  | Some env =>
      if w_running w then Ok ([], w)
      else
        let* m := group_txs (env_signer env) txs ∅ in
        let* t := NewTransactionsByPriceAndNonce (env_signer env) m in
        let* (_, out, current) := commitTransactions (chainConfig bc) (reader_of bc) (w_running w) (Some env) t (w_coinbase w) None in
        let* w := updateSnapshot (put_current w current) in Ok (out, w)
  | None => Ok ([], w)
  end.

(** A task, in [taskLoop], after the one with the hash [prev]: the sealed block
    and its delay, unless it is a duplicate or the engine refuses. *)
Definition handle_task (bc : BlockChain) (c : BSRR) (w : worker) (now : Z) (prev : Hash) (t : task) : result (option (Z * Block) * Hash * worker * BSRR) :=
  let header := block_header (task_block t) in
  let* hash := SealHash header in
  if bool_decide (hash = prev) then Ok (None, prev, w, c)
  else
    let w := put_tasks w (<[hash := t]> (w_pendingTasks w)) in
    match Seal c (reader_of bc) now header with
    | Err _ => Ok (None, hash, w, c)
    | Panic p => Panic p
    | Hang => Hang
    | Ok (delay, sealed, c) =>
        Ok (Some (delay, {| block_header := sealed; block_transactions := block_transactions (task_block t); block_uncles := block_uncles (task_block t) |}), hash, w, c)
    end.

(** [clearPending] of [newWorkLoop]. *)
Definition clearPending (w : worker) (number : Z) : worker :=
  put_tasks w (base.filter (λ x, u64 (NumberU64 (task_block x.2) + staleThreshold) > number) (w_pendingTasks w)).

Definition set_blockHash (hash : Hash) (l : Log) : Log := {|
  log_Address := log_Address l; log_Topics := log_Topics l; log_Data := log_Data l; log_BlockNumber := log_BlockNumber l;
  log_TxHash := log_TxHash l; log_TxIndex := log_TxIndex l; log_BlockHash := hash; log_Index := log_Index l; log_Removed := log_Removed l |}.

Definition mined_receipt (hash : Hash) (r : Receipt) : Receipt := {|
  PostState := PostState r; Receipt.Status := Receipt.Status r; CumulativeGasUsed := CumulativeGasUsed r; rcpt_Bloom := rcpt_Bloom r;
  rcpt_Logs := set_blockHash hash <$> rcpt_Logs r; rcpt_TxHash := rcpt_TxHash r; ContractAddress := ContractAddress r; rcpt_GasUsed := rcpt_GasUsed r |}.

(** A sealed block, in [resultLoop]: what is announced, the chain and the
    worker. *)
Definition handle_result (bc : BlockChain) (w : worker) (coin : bool) (b : Block) : result (list chain_event * BlockChain * worker) :=
  if HasBlock bc (Block_Hash b) (NumberU64 b) then Ok ([], bc, w)
  else
    let* sealhash := SealHash (block_header b) in
    match w_pendingTasks w !! sealhash with
    | None => Ok ([], bc, w)
    | Some t =>
        let hash := Block_Hash b in
        let receipts := mined_receipt hash <$> task_receipts t in
        let* (r, bc) := WriteBlockWithState bc coin b receipts (task_state t) in
        match r with
        | inr _ => Ok ([], bc, w)
        | inl stat =>
            let events :=
              match stat with
              | CanonStatTy => [ChainEvent b (concat (rcpt_Logs <$> receipts)); ChainHeadEvent b]
              | SideStatTy => [ChainSideEvent b]
              | NonStatTy => []
              end in
            Ok (events, bc, put_unconfirmed w (unconfirmed_Insert bc miningLogAtDepth (NumberU64 b) hash (w_unconfirmed w)).2)
        end
    end.
End Worker.
