(* ===== verification/WorkerProps.v ===== *)
(** * The worker makes valid blocks

    Packing the pending transactions returns and keeps the books of the block;
    a transaction that fails leaves no trace in its state; and a block that the
    worker assembles and the engine seals passes the checks of the header and
    of the body on every node. *)

From Stdlib Require Import ZArith Lia SpecFloat.
From stdpp Require Import base option list gmap sets strings.
From S2P Require Import Prelude GoFloat Params Group Rlp Types Account State StateRevert Funds Receipt DeriveSha Chain ChainStore HeaderChain.
From S2P Require Import Staking Dao Transition Evm EvmProps TransitionProps Selection Heap TxList TxPool TxOrder Bsrr BsrrProps BsrrBlocks.
From S2P Require Import BlockChain BlockChainLoad BlockChainProps ChainInvariant ChainReach BlockInsert Worker.

Section Packing.
Context {C : Crypto} {D : Database} {I : Interpreter} {MO : MapOrder} {NO : NonceOrder} {GR : GoRand} {SH : Sha256} {DS : DiskStore} {BQ : BlockQueue}.
Context (noRecursion preimages : bool) (config : ChainConfig) (chain : ChainReader StateDB) (coinbase : Address).
Implicit Types (env : environment) (tx : txdata).

Abbreviation try_tx := (commitTransaction noRecursion preimages config chain).

(** ** Rounds *)

Lemma length_Pop t t' : Pop t = Ok t' → txs_left t = S (txs_left t').
Proof using.
  unfold Pop, txs_left, heap_Pop. set (n := (length (t_heads t) - 1)%nat). set (l := (down dearer (swap (t_heads t) 0 n) 0 n).1).
  assert (El : length l = length (t_heads t)) by (unfold l; by rewrite down_perm, swap_perm).
  destruct (last l) as [x|] eqn:E; [|done]. intros [= <-]. simpl. rewrite length_take, El.
  assert (Hl : (0 < length l)%nat) by (destruct l; [done|simpl; lia]). lia.
Qed.

Lemma length_Shift t t' : Shift t = Ok t' → txs_left t = S (txs_left t').
Proof using.
  intros H. pose proof H as H0. unfold Shift in H. destruct (t_heads t) as [|tx hs] eqn:E; [done|]. destruct (sender_or_zero _ _) as [a| | |]; [|done..].
  cbn [bind] in H. destruct (t_txs t !! a) as [[|tx' rest]|] eqn:Ea; [by apply length_Pop| |by apply length_Pop].
  injection H as <-. unfold txs_left. rewrite E. simpl. rewrite heap_Fix_perm. simpl. rewrite <- insert_delete_eq, all_txs_insert by apply lookup_delete_eq.
  rewrite (all_txs_delete _ _ _ Ea), !length_app. simpl. lia.
Qed.

(** ** The books *)

(** The receipts are those of the transactions, and each counts the gas on. *)
Fixpoint booked (used : Z) (txs : list txdata) (rs : list Receipt) : Prop :=
  match txs, rs with
  | [], [] => True
  | tx :: txs, r :: rs =>
      rcpt_TxHash r = Tx_Hash tx ∧ CumulativeGasUsed r = u64 (used + rcpt_GasUsed r) ∧ booked (CumulativeGasUsed r) txs rs
  | _, _ => False
  end.

Fixpoint used_after (used : Z) (rs : list Receipt) : Z :=
  match rs with [] => used | r :: rs => used_after (CumulativeGasUsed r) rs end.

(** From [env] to [env'] some of the transactions of [m] were packed. *)
Definition packed (m : gmap Address (list txdata)) env env' : Prop :=
  ∃ txs rs, env_txs env' = env_txs env ++ txs ∧ env_receipts env' = env_receipts env ++ rs ∧
    env_tcount env' = env_tcount env + Z.of_nat (length txs) ∧ booked (GasUsed (env_header env)) txs rs ∧
    env_header env' = with_GasUsed (env_header env) (used_after (GasUsed (env_header env)) rs) ∧
    env_uncles env' = env_uncles env ∧ is_Some (env_gasPool env') ∧
    ∀ a, filter (λ tx, sent_by (env_signer env) a tx = true) txs `sublist_of` default [] (m !! a).

(** The execution of a transaction stopped the node. *)
Definition execution_stops {A} (r : result A) : Prop :=
  ∃ env tx, match try_tx env tx coinbase, r with
            | Err e, Err e' => e = e'
            | Panic w, Panic w' => w = w'
            | Hang, Hang => True
            | _, _ => False
            end.

Lemma ApplyTransaction_receipt author gp s header tx used r gas s' gp' used' :
  ApplyTransaction config chain author noRecursion preimages gp s header tx used = Ok (inl (r, gas), s', gp', used') →
  rcpt_TxHash r = Tx_Hash tx ∧ CumulativeGasUsed r = u64 (used + rcpt_GasUsed r) ∧ used' = CumulativeGasUsed r.
Proof using.
  unfold ApplyTransaction. destruct (AsMessage _ _) as [msg| | |]; [|done..]. destruct (adjustStateForBIP4 _ _ _ _) as [s1| | |]; [|done..]. cbn [bind].
  destruct (locked _ _ _) as [[]| | |]; [done| |done..]. cbn [bind]. destruct (ApplyMessage _ _ _ _) as [out| | |]; [|done..]. cbn [bind].
  destruct (out_err out); [done|]. destruct (if IsByzantium _ _ then _ else _) as [[root s2]| | |]; [|done..]. cbn [bind].
  destruct (CreateBloom _) as [bloom| | |]; [|done..]. cbn [bind]. intros [= <- _ _ _ <-]. done.
Qed.

Lemma ApplyTransaction_failed author gp s header tx used e s' gp' used' :
  ApplyTransaction config chain author noRecursion preimages gp s header tx used = Ok (inr e, s', gp', used') → used' = used.
Proof using.
  unfold ApplyTransaction. destruct (AsMessage _ _) as [msg| | |]; [|by intros [= _ _ _ <-]|done..]. destruct (adjustStateForBIP4 _ _ _ _) as [s1| | |]; [|done..]. cbn [bind].
  destruct (locked _ _ _) as [[]| | |]; [by intros [= _ _ _ <-]| |done..]. cbn [bind]. destruct (ApplyMessage _ _ _ _) as [out| | |]; [|done..]. cbn [bind].
  destruct (out_err out); [by intros [= _ _ _ <-]|]. destruct (if IsByzantium _ _ then _ else _) as [[root s2]| | |]; [|done..]. cbn [bind].
  by destruct (CreateBloom _) as [bloom| | |].
Qed.

(** What a transaction changes. *)
Lemma commitTransaction_books env tx gp r env' :
  env_gasPool env = Some gp → try_tx env tx coinbase = Ok (r, env') →
  env_signer env' = env_signer env ∧ env_uncles env' = env_uncles env ∧ env_tcount env' = env_tcount env ∧ is_Some (env_gasPool env') ∧
  match r with
  | inl _ => ∃ receipt, env_txs env' = env_txs env ++ [tx] ∧ env_receipts env' = env_receipts env ++ [receipt] ∧
      rcpt_TxHash receipt = Tx_Hash tx ∧ CumulativeGasUsed receipt = u64 (GasUsed (env_header env) + rcpt_GasUsed receipt) ∧
      env_header env' = with_GasUsed (env_header env) (CumulativeGasUsed receipt)
  | inr _ => env_txs env' = env_txs env ∧ env_receipts env' = env_receipts env ∧ env_header env' = env_header env
  end.
Proof using.
  intros Eg. unfold commitTransaction. destruct (Snapshot (env_state env)) as [snap s]. rewrite Eg.
  destruct (ApplyTransaction _ _ _ _ _ _ _ _ _ _) as [[[[[[receipt gas]|e] s1] gp1] used]| | |] eqn:E; [|..]; try done; cbn [bind].
  - apply ApplyTransaction_receipt in E as (E1 & E2 & ->). intros [= <- <-]. split_and!; try done. by exists receipt.
  - destruct (RevertToSnapshot s1 snap) as [s2| | |]; [|done..]. cbn [bind]. by intros [= <- <-].
Qed.

Lemma packed_refl m env : is_Some (env_gasPool env) → packed m env env.
Proof using.
  intros Hg. exists [], []. rewrite !app_nil_r. split_and!; try done; [simpl; lia| |intros a; apply sublist_nil_l]. simpl. by destruct (env_header env).
Qed.

Lemma advance_sublist m a tx rest b : m !! a = Some (tx :: rest) → default [] (TxOrder.advance m a !! b) `sublist_of` default [] (m !! b).
Proof using.
  intros Ha. destruct (advance_spec m a tx rest Ha) as [_ ->]. case_decide as E; [subst b|done]. rewrite Ha. simpl. by apply sublist_cons.
Qed.

Lemma delete_sublist (m : gmap Address (list txdata)) a b : default [] (delete a m !! b) `sublist_of` default [] (m !! b).
Proof using. destruct (decide (b = a)) as [->|]; [rewrite lookup_delete_eq; apply sublist_nil_l|by rewrite lookup_delete_ne]. Qed.

(** A transaction that was skipped, or failed. *)
Lemma packed_skip m m' env env1 env' :
  env_signer env1 = env_signer env → env_uncles env1 = env_uncles env → env_tcount env1 = env_tcount env →
  env_txs env1 = env_txs env → env_receipts env1 = env_receipts env → env_header env1 = env_header env →
  (∀ b, default [] (m' !! b) `sublist_of` default [] (m !! b)) → packed m' env1 env' → packed m env env'.
Proof using.
  intros E1 E2 E3 E4 E5 E6 Hm (txs & rs & H1 & H2 & H3 & H4 & H5 & H6 & H7 & H8). rewrite E1 in H8. rewrite E2 in H6. rewrite E3 in H3. rewrite E4 in H1. rewrite E5 in H2. rewrite E6 in H4, H5.
  exists txs, rs. split_and!; try done. intros a. etrans; [apply H8|apply Hm].
Qed.

(** A transaction that was packed. *)
Lemma packed_take m a tx rest env env1 env' receipt :
  m !! a = Some (tx :: rest) → Signer_Sender (env_signer env) tx = Ok a →
  env_signer env1 = env_signer env → env_uncles env1 = env_uncles env → env_tcount env1 = env_tcount env + 1 →
  env_txs env1 = env_txs env ++ [tx] → env_receipts env1 = env_receipts env ++ [receipt] →
  rcpt_TxHash receipt = Tx_Hash tx → CumulativeGasUsed receipt = u64 (GasUsed (env_header env) + rcpt_GasUsed receipt) →
  env_header env1 = with_GasUsed (env_header env) (CumulativeGasUsed receipt) →
  packed (TxOrder.advance m a) env1 env' → packed m env env'.
Proof using.
  intros Ha Hs E1 E2 E3 E4 E5 R1 R2 E6 (txs & rs & H1 & H2 & H3 & H4 & H5 & H6 & H7 & H8).
  rewrite E1 in H8. rewrite E2 in H6. rewrite E3 in H3. rewrite E4 in H1. rewrite E5 in H2. rewrite E6 in H4, H5.
  exists (tx :: txs), (receipt :: rs). rewrite <- app_assoc in H1, H2. split_and!; try done; [simpl; lia|].
  intros b. specialize (H8 b). destruct (advance_spec m a tx rest Ha) as [_ Hadv]. rewrite Hadv in H8. rewrite filter_cons.
  assert (Es : sent_by (env_signer env) b tx = bool_decide (a = b)) by (unfold sent_by; by rewrite Hs). destruct (decide (b = a)) as [->|Hne].
  - rewrite decide_True by (rewrite Es; by apply bool_decide_eq_true_2). rewrite Ha. simpl. by apply sublist_skip.
  - rewrite decide_False; [done|]. rewrite Es, bool_decide_eq_true. congruence.
Qed.

Lemma next_txs_ok t m tx hs a rest err :
  represents t m → t_heads t = tx :: hs → m !! a = Some (tx :: rest) → Signer_Sender (t_signer t) tx = Ok a → hs ≡ₚ heads_of (delete a m) →
  ∃ t' m', next_txs err t = Ok t' ∧ represents t' m' ∧ txs_left t = S (txs_left t') ∧ t_signer t' = t_signer t ∧
    (m' = TxOrder.advance m a ∨ err ≠ None ∧ m' = delete a m).
Proof using.
  intros Hr Eh Ha Hs Hhs. destruct (Shift_spec t m tx hs a rest Hr Eh Ha Hs Hhs) as (t1 & E1 & R1), (Pop_spec t m tx hs a rest Hr Eh Ha Hhs) as (t2 & E2 & R2).
  assert (S2 : t_signer t2 = t_signer t) by (unfold Pop in E2; destruct (heap_Pop _ _) as [[? ?]|]; [injection E2 as <-; done|done]).
  assert (S1 : t_signer t1 = t_signer t).
  { clear R1. unfold Shift in E1. rewrite Eh in E1. destruct (sender_or_zero _ _) as [b| | |]; [|done..]. cbn [bind] in E1.
    destruct (t_txs t !! b) as [[|]|]; [congruence|by injection E1 as <-|congruence]. }
  unfold next_txs. destruct err as [e|]; [destruct (bool_decide _)|].
  - exists t2, (delete a m). split_and!; try done; [by apply length_Pop|by right].
  - exists t1, (TxOrder.advance m a). split_and!; try done; [by apply length_Shift|by left].
  - exists t1, (TxOrder.advance m a). split_and!; try done; [by apply length_Shift|by left].
Qed.

(** Packing ends: every round takes a transaction off. *)
Lemma commit_loop_packs interrupt fuel round env t m l :
  represents t m → t_signer t = env_signer env → (txs_left t ≤ fuel)%nat → is_Some (env_gasPool env) →
  match commit_loop noRecursion preimages fuel config chain coinbase interrupt round env t l with
  | Ok (_, _, env') => packed m env env'
  | r => execution_stops r
  end.
Proof using.
  revert round env t m l. induction fuel as [|fuel IH]; intros round env t m l Hr Esg Hf [gp Egp]; cbn [commit_loop]; rewrite Egp.
  all: destruct (interrupted _ _ _ _); [by apply packed_refl; rewrite Egp|]. all: destruct (gp <? TxGas); [by apply packed_refl; rewrite Egp|].
  all: destruct (Peek t) as [tx|] eqn:Ep; [|by apply packed_refl; rewrite Egp].
  { unfold txs_left in Hf. destruct (t_heads t) eqn:E; [unfold Peek in Ep; by rewrite E in Ep|simpl in Hf; lia]. }
  assert (Hne : m ≠ ∅). { intros ->. pose proof (rp_heads _ _ Hr) as Hp. apply Permutation_nil_r in Hp. unfold Peek in Ep. by rewrite Hp in Ep. }
  destruct (Peek_spec t m Hr Hne) as (tx' & hs & a & rest & Eh & Ha & Hs & Hhs & _). assert (tx' = tx) as -> by (unfold Peek in Ep; rewrite Eh in Ep; by injection Ep).
  unfold sender_or_zero. rewrite <- Esg, Hs. cbn [bind]. destruct (isProtectedV (V tx) && _).
  { destruct (Pop_spec t m tx hs a rest Hr Eh Ha Hhs) as (t' & Epop & Hr'). rewrite Epop. cbn [bind]. pose proof (length_Pop _ _ Epop).
    assert (St : t_signer t' = env_signer env) by (rewrite <- Esg; unfold Pop in Epop; destruct (heap_Pop _ _) as [[? ?]|]; [by injection Epop as <-|done]).
    specialize (IH (S round) env t' (delete a m) l Hr' St ltac:(lia) ltac:(by rewrite Egp)).
    destruct (commit_loop _ _ _ _ _ _ _ _ _ _ _) as [[[? ?] env']| | |]; try done. by apply (packed_skip m (delete a m) env env env'); try done; intros b; apply delete_sublist. }
  set (env0 := put_env env _ _ _). assert (Egp0 : env_gasPool env0 = Some gp) by done.
  destruct (commitTransaction _ _ _ _ env0 tx coinbase) as [[r env1]|e|w|] eqn:Et; cbn [bind]; [|exists env0, tx; by rewrite Et..].
  destruct (commitTransaction_books env0 tx gp r env1 Egp0 Et) as (B1 & B2 & B3 & B4 & B5). destruct r as [l'|e].
  - destruct (next_txs_ok t m tx hs a rest None Hr Eh Ha Hs Hhs) as (t' & m' & -> & Hr' & Hlen & St & [->|[? _]]); [|done]. cbn [bind].
    destruct B5 as (receipt & C1 & C2 & C3 & C4 & C5).
    specialize (IH (S round) (count_tx env1) t' _ (l ++ l') Hr' (eq_trans (eq_trans St Esg) (eq_sym B1)) ltac:(lia) B4).
    destruct (commit_loop _ _ _ _ _ _ _ _ _ _ _) as [[[? ?] env']| | |]; try done.
    apply (packed_take m a tx rest env (count_tx env1) env' receipt); try done; [by rewrite <- Esg|simpl; by rewrite B3].
  - destruct (next_txs_ok t m tx hs a rest (Some e) Hr Eh Ha Hs Hhs) as (t' & m' & -> & Hr' & Hlen & St & Hm'). cbn [bind].
    destruct B5 as (C1 & C2 & C3). specialize (IH (S round) env1 t' m' l Hr' (eq_trans (eq_trans St Esg) (eq_sym B1)) ltac:(lia) B4).
    destruct (commit_loop _ _ _ _ _ _ _ _ _ _ _) as [[[? ?] env']| | |]; try done.
    apply (packed_skip m m' env env1 env'); try done. intros b. destruct Hm' as [->|[_ ->]]; [by eapply advance_sublist|apply delete_sublist].
Qed.

Lemma commitTransactions_packs running env t m interrupt :
  represents t m → t_signer t = env_signer env → is_u64 (GasLimit (env_header env)) →
  match commitTransactions noRecursion preimages config chain running (Some env) t coinbase interrupt with
  | Ok (_, _, Some env') => packed m env env'
  | Ok (_, _, None) => False
  | r => execution_stops r
  end.
Proof using.
  intros Hr Hs Hl. unfold commitTransactions.
  assert (Hg : ∃ gp, match env_gasPool env with Some gp => Ok gp | None => AddGas 0 (GasLimit (env_header env)) end = Ok gp).
  { destruct (env_gasPool env); [by eexists|]. unfold AddGas, maxUint64, is_u64 in *. destruct (Z.ltb_spec (two64 - 1 - GasLimit (env_header env)) 0); [lia|by eexists]. }
  destruct Hg as [gp ->]. cbn [bind]. set (env0 := put_env env _ _ _).
  pose proof (commit_loop_packs interrupt (txs_left t) 0 env0 t m [] Hr Hs ltac:(lia) ltac:(by eexists)) as H.
  destruct (commit_loop _ _ _ _ _ _ _ _ _ _ _) as [[[answer l] env']| | |]; cbn [bind]; [|done..].
  assert (Hp : packed m env env') by by apply (packed_skip m m env env0 env'). destruct answer as [[]|]; exact Hp.
Qed.

End Packing.

(** ** Failed transactions *)

Section Failed.
Context {C : Crypto} {D : Database} {I : Interpreter} {L : InterpreterLaws} {MO : MapOrder} {NO : NonceOrder} {GR : GoRand} {SH : Sha256} {DS : DiskStore} {BQ : BlockQueue}.
Context (noRecursion preimages : bool) (config : ChainConfig) (chain : ChainReader StateDB).

(** Operations on the state database that can be reverted. *)
Definition steps (s s' : StateDB) : Prop := good s → good s' ∧ acts s s'.

#[local] Instance steps_preorder : PreOrder steps.
Proof using L.
  split; [intros s Hg; split; [done|apply acts_refl]|]. intros s1 s2 s3 H1 H2 Hg. destruct (H1 Hg) as [Hg2 A1]. destruct (H2 Hg2) as [Hg3 A2].
  split; [done|]. by apply (acts_trans Keccak256_size s1 s2 s3).
Qed.

Lemma steps_op o s s' : is_snapshot_op o = false ∨ o = OSnapshot → run_op o s = Ok s' → steps s s'.
Proof using L. intros Ho E Hg. split; [by eapply good_op|by eapply acts_op]. Qed.

Lemma steps_read {A} (f : stateObject → A) none s a : steps s (read f none s a).2.
Proof using L. intros Hg. destruct (fine_read Keccak256_size f none s a Hg) as (? & ? & _). done. Qed.

Lemma buyGas_steps s gp msg :
  let '(err, s', gp', gas) := buyGas s gp msg in
  steps s s' ∧ match err with Some _ => gp' = gp | None => gas = msg_gasLimit msg ∧ gp' = gp - gas end.
Proof using L.
  unfold buyGas, SubGas. pose proof (steps_read (λ o, Balance (so_data o)) 0 s (msg_from msg)) as Hr. fold GetBalance in Hr.
  destruct (GetBalance s (msg_from msg)) as [b s1]. simpl in Hr. destruct (b <? _); [done|]. destruct (gp <? _); [done|].
  split; [|done]. etrans; [exact Hr|]. by apply (steps_op (OSubBalance (msg_from msg) (msg_gasLimit msg * msg_gasPrice msg))); [left|].
Qed.

Lemma preCheck_steps s gp msg :
  let '(err, s', gp', gas) := preCheck s gp msg in
  steps s s' ∧ match err with Some _ => gp' = gp | None => gas = msg_gasLimit msg ∧ gp' = gp - gas end.
Proof using L.
  unfold preCheck. destruct (msg_checkNonce msg); [|apply buyGas_steps].
  pose proof (steps_read (λ o, acc_Nonce (so_data o)) 0 s (msg_from msg)) as Hr. fold GetNonce in Hr.
  destruct (GetNonce s (msg_from msg)) as [n s1]. simpl in Hr. destruct (n <? _); [done|]. destruct (_ <? n); [done|].
  pose proof (buyGas_steps s1 gp msg) as Hb. destruct (buyGas s1 gp msg) as [[[err s2] gp2] gas]. destruct Hb as [Hs Hg]. split; [by etrans|done].
Qed.

Lemma execute_steps evm s msg gas base target out s' :
  is_u64 gas → 0 ≤ msg_amount msg → execute evm s msg gas base target = Ok (out, s') → steps s s'.
Proof using L.
  intros Hgas Hv. unfold execute.
  pose proof (steps_read (λ o, acc_Nonce (so_data o)) 0 s (msg_from msg)) as Hr. fold GetNonce in Hr. destruct (msg_to msg) as [to|].
  - destruct (GetNonce s (msg_from msg)) as [n s1]. simpl in Hr. set (s2 := SetNonce s1 _ _).
    assert (Hs2 : steps s s2) by (etrans; [exact Hr|]; by apply (steps_op (OSetNonce (msg_from msg) (u64 (n + 1)))); [left|]).
    intros E Hg. destruct (Hs2 Hg) as [Hg2 A2]. pose proof (Call_ok evm s2 (msg_from msg) to (Some (msg_data msg)) gas (msg_amount msg) base target Hg2 Hgas Hv) as Hc.
    rewrite E in Hc. destruct out as [[ret g] err]. destruct Hc as (Hg3 & A3 & _). split; [done|]. by apply (acts_trans Keccak256_size s s2 s').
  - unfold Create. destruct (GetNonce s (msg_from msg)) as [n s1]. simpl in Hr. intros E Hg. destruct (Hr Hg) as [Hg1 A1].
    pose proof (create_ok evm s1 (msg_from msg) (Some (msg_data msg)) zeroHash gas (msg_amount msg) (CreateAddress (msg_from msg) n) Hg1 Hgas Hv) as Hc.
    destruct (create _ _ _ _ _ _ _ _) as [[[[[ret g] err] adr] s3]| | |]; [|done..]. cbn [bind] in E. injection E as <- <-.
    destruct Hc as (Hg3 & A3 & _). split; [done|]. by apply (acts_trans Keccak256_size s s1 s3).
Qed.

Lemma TransitionDb_failed evm s gp msg base target out e :
  is_u64 (msg_gasLimit msg) → 0 ≤ msg_amount msg → TransitionDb evm s gp msg base target = Ok out → out_err out = Some e →
  steps s (out_state out) ∧ (out_gp out = gp ∨ out_gp out = gp - msg_gasLimit msg).
Proof using L.
  intros Hgl Hv. unfold TransitionDb. pose proof (preCheck_steps s gp msg) as Hp. destruct (preCheck s gp msg) as [[[err s1] gp1] gas0].
  destruct Hp as [Hs1 Hp]. assert (Hstop : ∀ e' out, txError e' s1 gp1 = Ok out → steps s (out_state out) ∧ out_gp out = gp1) by (unfold txError; intros e' o [= <-]; done).
  destruct err as [e'|]; [intros E _; destruct (Hstop _ _ E); subst; auto|]. destruct Hp as [-> ->].
  assert (Hlate : ∀ e' out, txError e' s1 (gp - msg_gasLimit msg) = Ok out → steps s (out_state out) ∧ (out_gp out = gp ∨ out_gp out = gp - msg_gasLimit msg))
    by (intros e' o E; destruct (Hstop _ _ E); auto).
  destruct (ValidateJobWallet base target); [intros E _; by eapply Hlate|].
  match goal with |- context [if ?b then txError ErrInvalidStakeReceiver _ _ else _] => destruct b; [intros E _; by eapply Hlate|] end.
  destruct (IntrinsicGas _ _ _) as [gas| | |] eqn:Eint; [|intros E _; by eapply Hlate..].
  pose proof (IntrinsicGas_nonneg _ _ _ _ Eint). destruct (Z.ltb_spec (msg_gasLimit msg) gas); [intros E _; by eapply Hlate|].
  destruct (execute _ _ _ _ _ _) as [[[[ret g] vmerr] s2]| | |] eqn:Ex; [|done..]. cbn [bind].
  assert (Hs2 : steps s s2) by (etrans; [exact Hs1|]; eapply execute_steps; [|exact Hv|exact Ex]; unfold is_u64 in *; lia).
  unfold finishTx, txError; cbv iota beta. destruct (bool_decide (vmerr = _)); [intros E _; injection E as <-; simpl; auto|]. destruct (refundGas _ _ _ _ _) as [[[s3 gp3] g3]| | |]; [|done..]. cbn [bind].
  by intros [= <-].
Qed.

Lemma adjustStateForBIP4_steps s header tx s' : adjustStateForBIP4 config s header tx = Ok s' → steps s s'.
Proof using L.
  unfold adjustStateForBIP4.
  assert (Hr : ∃ b s1, match Recipient tx with Some r => State.GetStakeBalance s r | None => pair 0 s end = pair b s1 ∧ steps s s1).
  { destruct (Recipient tx) as [r|]; [|by eexists _, _]. pose proof (steps_read (λ o, StakeBalance (so_data o)) 0 s r) as Hr. fold State.GetStakeBalance in Hr.
    destruct (State.GetStakeBalance s r) as [b s1]. by eexists _, _. }
  destruct Hr as (b & s1 & -> & Hs1). destruct (IsBIP4 _ _); [|by intros [= <-]]. destruct (limitStake config) as [[bs lim]| | |]; [|done..]. cbn [bind].
  destruct (lim <? b); [|by intros [= <-]]. destruct (Recipient tx) as [r|]; [|done].
  set (s2 := AddStakeBalance _ _ _ _). set (s3 := AddBalance s2 _ _). pose proof (steps_read (λ o, StakeUpdated (so_data o)) 0 s3 r) as Hu. fold State.GetStakeUpdated in Hu.
  destruct (State.GetStakeUpdated s3 r) as [u s4]. simpl in Hu. destruct (CalcPointBigint _ _ _ _ _) as [p| | |]; [|done..]. cbn [bind]. intros [= <-].
  etrans; [exact Hs1|]. etrans; [by apply (steps_op (OAddStakeBalance r (- (b - lim)) (num header)) s1 s2); [left|]|].
  etrans; [by apply (steps_op (OAddBalance r (b - lim)) s2 s3); [left|]|]. etrans; [exact Hu|]. by apply (steps_op (OSetPoint r p)); [left|].
Qed.

Lemma ApplyTransaction_failed_steps author gp s header tx used e s' gp' used' :
  is_u64 (TxGasLimit tx) → 0 ≤ Amount tx →
  ApplyTransaction config chain author noRecursion preimages gp s header tx used = Ok (inr e, s', gp', used') →
  steps s s' ∧ (gp' = gp ∨ gp' = gp - TxGasLimit tx).
Proof using L.
  intros Hgl Hv. unfold ApplyTransaction. destruct (AsMessage _ _) as [msg|e'| |] eqn:Em; [|by intros [= _ <- <- _]; split; [|left]|done..].
  assert (Eg : msg_gasLimit msg = TxGasLimit tx ∧ msg_amount msg = Amount tx) by (unfold AsMessage in Em; destruct (Signer_Sender _ _); [|done..]; cbn [bind] in Em; by injection Em as <-).
  destruct Eg as [Eg Ea]. destruct (adjustStateForBIP4 _ _ _ _) as [s1| | |] eqn:Eadj; [|done..]. cbn [bind]. apply adjustStateForBIP4_steps in Eadj.
  destruct (locked _ _ _) as [[]| | |]; [by intros [= _ <- <- _]; split; [|left]| |done..]. cbn [bind]. unfold ApplyMessage.
  destruct (TransitionDb _ _ _ _ _ _) as [out| | |] eqn:Et; [|done..]. cbn [bind]. destruct (out_err out) as [e'|] eqn:Ee.
  - intros [= _ <- <- _]. rewrite <- Eg. destruct (TransitionDb_failed _ s1 gp msg _ _ out e' ltac:(by rewrite Eg) ltac:(by rewrite Ea) Et Ee) as [H1 H2].
    split; [by etrans|done].
  - destruct (if IsByzantium _ _ then _ else _) as [[root s2]| | |]; [|done..]. cbn [bind]. by destruct (CreateBloom _) as [bloom| | |].
Qed.

(** C22: a transaction that fails leaves no trace in the block: [commitTransaction]
    reverts the state to what it was, but for lists of pending rewards, whatever
    the transaction had done, and keeps the transactions, the receipts and the
    header.  Of the gas pool it may keep the gas limit of the transaction, which
    the block then loses. *)
Theorem failed_transaction_no_trace env tx coinbase gp e s gp' used :
  good (env_state env) → is_u64 (TxGasLimit tx) → 0 ≤ Amount tx → env_gasPool env = Some gp →
  ApplyTransaction config chain coinbase noRecursion preimages gp (Snapshot (env_state env)).2 (env_header env) tx (GasUsed (env_header env)) = Ok (inr e, s, gp', used) →
  ∃ s', commitTransaction noRecursion preimages config chain env tx coinbase = Ok (inr e, put_env env s' (Some gp') (env_header env)) ∧
    state_equiv false s' (env_state env) ∧ good s' ∧ (gp' = gp ∨ gp' = gp - TxGasLimit tx).
Proof using L.
  intros Hg Hgl Hv Egp E. destruct (ApplyTransaction_failed_steps _ _ _ _ _ _ _ _ _ _ Hgl Hv E) as [Hs Hgas].
  destruct (Hs (good_Snapshot _ Hg)) as [_ A]. destruct (acts_revert Keccak256_size (env_state env) s Hg A) as (s' & Er & Heq & Hg' & _).
  exists s'. split_and!; try done. unfold commitTransaction. rewrite Egp. rewrite (Snapshot_eq (env_state env)). rewrite E. cbn [bind]. by rewrite Er.
Qed.
End Failed.

(** ** The blocks of the worker *)

Section Mined.
Context {C : Crypto} {D : Database} {I : Interpreter} {MO : MapOrder} {NO : NonceOrder} {GR : GoRand} {SH : Sha256} {DS : DiskStore} {BQ : BlockQueue}.
Context (noRecursion preimages : bool).

(** What the engine wrote to a header, and the rest of it that packing and
    finalizing leave alone. *)
Record kept (h h' : Header) : Prop := {
  kp_parent : ParentHash h' = ParentHash h;
  kp_number : Number h' = Number h;
  kp_time : Time h' = Time h;
  kp_extra : Extra h' = Extra h;
  kp_mix : MixDigest h' = MixDigest h;
  kp_nonce : Nonce h' = Nonce h;
  kp_limit : GasLimit h' = GasLimit h
}.

#[local] Instance kept_preorder : PreOrder kept.
Proof using. split; [by split|]. intros h1 h2 h3 [] []. split; congruence. Qed.

(** No work is sent from within the loop. *)
Definition no_task (answer : option (bool * list sent)) : Prop := ∀ d s t, answer = Some (d, s) → newTask t ∉ s.

Lemma no_task_None : no_task None.
Proof using. done. Qed.

Lemma interrupted_no_task interrupt round limit gas : no_task (interrupted interrupt round limit gas).
Proof using.
  intros d s t. unfold interrupted. destruct interrupt as [load|]; [|done]. destruct (_ =? commitInterruptNone); [done|]. intros [= _ <-].
  destruct (_ =? commitInterruptResubmit); [by intros ?%list_elem_of_singleton|by intros ?%elem_of_nil].
Qed.

Lemma commit_loop_header config chain coinbase interrupt fuel round env t l answer l' env' :
  commit_loop noRecursion preimages fuel config chain coinbase interrupt round env t l = Ok (answer, l', env') →
  kept (env_header env) (env_header env') ∧ no_task answer.
Proof using.
  revert round env t l. induction fuel as [|fuel IH]; intros round env t l; cbn [commit_loop]; (destruct (env_gasPool env) as [gp|] eqn:Egp; [|done]).
  all: pose proof (interrupted_no_task interrupt round (GasLimit (env_header env)) gp) as Hno.
  all: destruct (interrupted _ _ _ _); [by intros [= <- _ <-]|]. all: destruct (gp <? TxGas); [by intros [= <- _ <-]|].
  all: destruct (Peek t) as [tx|]; [|by intros [= <- _ <-]]; try done.
  destruct (sender_or_zero _ _); [|done..]. cbn [bind]. destruct (isProtectedV (V tx) && _).
  { destruct (Pop t); [|done..]. cbn [bind]. apply IH. }
  set (env0 := put_env env _ _ _). destruct (commitTransaction _ _ _ _ env0 tx coinbase) as [[r env1]| | |] eqn:Et; cbn [bind]; [|done..].
  destruct (commitTransaction_books _ _ _ _ _ env0 tx gp r env1 eq_refl Et) as (_ & _ & _ & _ & B). destruct r as [x|e].
  - destruct (next_txs None t); [|done..]. cbn [bind]. destruct B as (receipt & _ & _ & _ & _ & Eh). intros [H Hn]%IH. split; [|done]. etrans; [|exact H]. simpl. rewrite Eh. by split.
  - destruct (next_txs (Some e) t); [|done..]. cbn [bind]. destruct B as (_ & _ & Eh). intros [H Hn]%IH. split; [|done]. etrans; [|exact H]. by rewrite Eh.
Qed.

Lemma fill_from_header bc w txs interrupt stop out w' env :
  w_current w = Some env → fill_from noRecursion preimages bc w txs interrupt = Ok (stop, out, w') →
  (∀ t, newTask t ∉ out) ∧ ∃ env', w_current w' = Some env' ∧ kept (env_header env) (env_header env').
Proof using.
  intros Ec. unfold fill_from. destruct (bool_decide _); [intros [= _ <- <-]; split; [by intros t ?%elem_of_nil|by exists env]|]. rewrite Ec.
  destruct (NewTransactionsByPriceAndNonce _ _) as [t| | |]; [|done..]. cbn [bind]. unfold commitTransactions.
  destruct (match env_gasPool env with Some gp => Ok gp | None => _ end) as [gp| | |]; [|done..]. cbn [bind].
  destruct (commit_loop _ _ _ _ _ _ _ _ _ _ _) as [[[answer l] env']| | |] eqn:El; [|done..]. cbn [bind]. apply commit_loop_header in El as [El Hn].
  destruct answer as [[d s]|] eqn:Ea; cbn [bind]; intros [= <- <- <-]; (split; [|by exists env']).
  - intros x. by apply (Hn d s x).
  - intros x [Hx|Hx]%elem_of_app; [|by apply list_elem_of_singleton in Hx]. destruct (_ && _); [by apply list_elem_of_singleton in Hx|by apply elem_of_nil in Hx].
Qed.

(** A task for a block with the header [h], finalized. *)
Record task_ok (h : Header) (t : task) : Prop := {
  tk_header : kept h (block_header (task_block t));
  tk_uncles : block_uncles (task_block t) = [] ∧ UncleHash (block_header (task_block t)) = uncleHash;
  tk_root : DeriveSha (Transactions_GetRlp (block_transactions (task_block t))) = Ok (TxHash (block_header (task_block t)))
}.

Definition current_ok (h : Header) (w : worker) : Prop := ∃ env, w_current w = Some env ∧ kept h (env_header env).
Definition tasks_ok (h : Header) (out : list sent) : Prop := ∀ t, newTask t ∈ out → task_ok h t.

Lemma tasks_ok_app h l l' : tasks_ok h l → tasks_ok h l' → tasks_ok h (l ++ l').
Proof using. intros H1 H2 t [?|?]%elem_of_app; auto. Qed.

Lemma tasks_ok_nil h : tasks_ok h [].
Proof using. by intros t ?%elem_of_nil. Qed.

Lemma updateSnapshot_current h w w' : current_ok h w → updateSnapshot w = Ok w' → current_ok h w'.
Proof using.
  intros (env & Ec & Hk). unfold updateSnapshot. rewrite Ec. destruct (NewBlock _ _ _ _); [|done..]. cbn [bind]. destruct (Copy _); [|done..]. cbn [bind].
  intros [= <-]. by exists env.
Qed.

Lemma commit_tasks h bc c w update err out w' c' :
  current_ok h w → commit bc c w update = Ok (err, out, w', c') → tasks_ok h out ∧ current_ok h w'.
Proof using.
  intros (env & Ec & Hk). unfold commit. rewrite Ec. destruct (Copy _) as [s| | |]; [|done..]. cbn [bind].
  destruct (Finalize _ _ _ _ _) as [[[hd s'] c1]| | |] eqn:Ef; [|intros [= _ <- <- _]; split; [apply tasks_ok_nil|by exists env]|done..].
  destruct (Finalize_header _ _ _ _ _ _ _ _ Ef) as [root ->]. destruct (NewBlock _ _ _ _) as [b| | |] eqn:Eb; [|done..]. cbn [bind].
  assert (Hb : ∀ rs st, task_ok h {| task_receipts := rs; task_state := st; task_block := b |}).
  { intros rs st. unfold NewBlock in Eb. destruct (DeriveSha (Transactions_GetRlp (env_txs env))) as [tx| | |] eqn:Etx; [|done..]. cbn [bind] in Eb.
    destruct (match env_receipts env with [] => _ | _ => _ end) as [rc| | |]; [|done..]. cbn [bind] in Eb.
    destruct (match env_receipts env with [] => _ | _ => _ end) as [bl| | |]; [|done..]. cbn [bind] in Eb. injection Eb as <-. destruct Hk. by split. }
  set (w1 := Worker.put_current w _). assert (Hc1 : current_ok h w1) by (eexists; split; [done|]; destruct Hk; by split).
  destruct (w_running w1).
  - set (w2 := put_unconfirmed w1 _). assert (Hc2 : current_ok h w2) by (destruct Hc1 as (e & ? & ?); by exists e).
    destruct update; [destruct (updateSnapshot w2) as [w3| | |] eqn:Eu; [|done..]; apply (updateSnapshot_current h) in Eu; [|done]|]; cbn [bind]; intros [= _ <- <- _].
    all: split; [intros t Ht; apply list_elem_of_singleton in Ht; injection Ht as ->; apply Hb|done].
  - destruct update; [destruct (updateSnapshot w1) as [w3| | |] eqn:Eu; [|done..]; apply (updateSnapshot_current h) in Eu; [|done]|]; cbn [bind]; intros [= _ <- <- _].
    all: split; [apply tasks_ok_nil|done].
Qed.

Lemma commit_pending_tasks h bc c w pool interrupt out w' c' :
  current_ok h w → commit_pending noRecursion preimages bc c w pool interrupt = Ok (out, w', c') → tasks_ok h out.
Proof using.
  intros Hc. unfold commit_pending. destruct (bool_decide _).
  { destruct (updateSnapshot w); [|done..]. cbn [bind]. intros [= <- _ _]. apply tasks_ok_nil. }
  assert (Hfill : ∀ w txs interrupt stop out w', current_ok h w → fill_from noRecursion preimages bc w txs interrupt = Ok (stop, out, w') → tasks_ok h out ∧ current_ok h w').
  { intros v txs int stop o v' (env & Ec & Hk) E. destruct (fill_from_header _ _ _ _ _ _ _ _ Ec E) as (Hno & env' & Ec' & Hk'). split; [by intros t ?%Hno|].
    exists env'. split; [done|by etrans]. }
  destruct (split_locals _ _ _) as [local remote]. destruct (fill_from _ _ bc w local _) as [[[stop out1] w1]| | |] eqn:E1; [|done..]. cbn [bind].
  destruct (Hfill _ _ _ _ _ _ Hc E1) as [H1 Hc1]. destruct stop; [by intros [= <- _ _]|].
  destruct (fill_from _ _ bc w1 remote _) as [[[stop out2] w2]| | |] eqn:E2; [|done..]. cbn [bind].
  destruct (Hfill _ _ _ _ _ _ Hc1 E2) as [H2 Hc2]. destruct stop; [intros [= <- _ _]; by apply tasks_ok_app|].
  destruct (commit bc c w2 true) as [[[[err out3] w3] c3]| | |] eqn:E3; [|done..]. cbn [bind]. intros [= <- _ _].
  destruct (commit_tasks _ _ _ _ _ _ _ _ _ Hc2 E3) as [H3 _]. by repeat apply tasks_ok_app.
Qed.

Lemma choose_uncles_header blocks order n env n' env' : choose_uncles blocks order n env = (n', env') → env_header env' = env_header env.
Proof using.
  revert n env. induction order as [|hash order IH]; intros n env; cbn [choose_uncles]; [by intros [= _ <-]|].
  destruct (n =? 2)%nat; [by intros [= _ <-]|]. destruct (blocks !! hash) as [b|]; [|apply IH].
  unfold commitUncle. repeat (destruct (bool_decide _) || destruct (negb (bool_decide _)); [intros H; exact (IH _ _ H)|]).
  destruct (negb _); [intros H; exact (IH _ _ H)|]. destruct (bool_decide _); intros H; apply IH in H; exact H.
Qed.

Lemma commitUncles_current h w env : kept h (env_header env) → current_ok h (commitUncles w env).
Proof using.
  intros Hk. unfold commitUncles. destruct (choose_uncles _ _ 0 env) as [n env1] eqn:E1. apply choose_uncles_header in E1.
  destruct (choose_uncles _ _ n env1) as [n2 env2] eqn:E2. apply choose_uncles_header in E2. exists env2. split; [done|]. by rewrite E2, E1.
Qed.

(** Every task of a round is for a block on the current head, with the header
    that the engine prepared. *)
Lemma commitNewWork_tasks bc c w pool now interrupt noempty timestamp out w' c' t :
  DAOForkBlock (chainConfig bc) = None →
  commitNewWork noRecursion preimages bc c w pool now interrupt noempty timestamp = Ok (out, w', c') → newTask t ∈ out →
  ∃ parent ts h c1 s, currentBlock bc = Some parent ∧ Bsrr.Prepare c (reader_of bc) now (new_header bc w parent ts) = Ok (h, c1) ∧
    New (Root (block_header parent)) (stateCache bc) = Ok s ∧ task_ok h t.
Proof using.
  intros Hdao. unfold commitNewWork. destruct (currentBlock bc) as [parent|]; [|done]. set (ts := if _ <=? _ then _ else _).
  destruct (w_running w && _); [by intros [= <- _ _] ?%elem_of_nil|].
  destruct (Bsrr.Prepare _ _ _ _) as [[h c1]| | |] eqn:Ep; [|by intros [= <- _ _] ?%elem_of_nil|done..].
  assert (Ed : dao_extra (chainConfig bc) h = h) by (unfold dao_extra; by rewrite Hdao). rewrite Ed.
  unfold makeCurrent. destruct (New _ _) as [s| | |] eqn:Es; cbn [bind]; [|by intros [= <- _ _] ?%elem_of_nil|done..].
  rewrite Hdao, bool_decide_eq_false_2, andb_false_r by done. set (env := Build_environment _ _ _ _ _ _ _ _ _ _).
  assert (Hc : current_ok h (commitUncles w env)) by by apply commitUncles_current. set (w1 := commitUncles w env) in *.
  assert (H0 : ∀ out0 w2 c2, (if noempty then Ok ([], w1, c1) else let* (_, out, w, c) := commit bc c1 w1 false in Ok (out, w, c)) = Ok (out0, w2, c2) →
            tasks_ok h out0 ∧ current_ok h w2).
  { intros out0 w2 c2. destruct noempty; [intros [= <- <- _]; split; [apply tasks_ok_nil|done]|].
    destruct (commit bc c1 w1 false) as [[[[err o] w3] c3]| | |] eqn:E; [|done..]. cbn [bind]. intros [= <- <- _]. by eapply commit_tasks. }
  destruct (if noempty then _ else _) as [[[out0 w2] c2]| | |]; [|done..]. cbn [bind]. destruct (H0 _ _ _ eq_refl) as [Ht0 Hc2].
  destruct (commit_pending _ _ bc c2 w2 pool interrupt) as [[[out1 w3] c3]| | |] eqn:E1; [|done..]. cbn [bind]. intros [= <- _ _] Hin.
  exists parent, ts, h, c1, s. split_and!; try done. pose proof (commit_pending_tasks h _ _ _ _ _ _ _ _ Hc2 E1) as Ht1.
  apply elem_of_app in Hin as [?|?]; auto.
Qed.

Lemma handle_task_sealed bc c w now prev t delay b hash w' c' :
  handle_task bc c w now prev t = Ok (Some (delay, b), hash, w', c') →
  ∃ extra, block_header b = with_Extra (block_header (task_block t)) extra ∧ length extra = length (Extra (block_header (task_block t))) ∧
    block_transactions b = block_transactions (task_block t) ∧ block_uncles b = block_uncles (task_block t).
Proof using.
  unfold handle_task. set (h := block_header (task_block t)). destruct (SealHash h) as [sh| | |] eqn:Esh; [|done..]. cbn [bind]. destruct (bool_decide _); [done|].
  assert (Hlen : (65 ≤ length (Extra h))%nat).
  { unfold SealHash, sigHash, len in Esh. destruct (Z.ltb_spec (Z.of_nat (length (Extra h))) 65); [done|lia]. }
  unfold Seal. destruct (_ =? 0); [done|]. destruct (GetHeader _ _ _); [|done]. destruct (getStakeTargetBlock _ _ _) as [[target|]| | |]; [|done..]. cbn [bind].
  destruct (getSigners _ _ _) as [[signers c1]| | |]; [|done..]. cbn [bind]. destruct (negb _); [done|].
  destruct (calcDifficultyAndRank _ _ _ _) as [[[diff rank] c2]| | |]; [|done..]. cbn [bind]. destruct (rank =? -1); [done|].
  destruct (getDelay _ _); [|done..]. cbn [bind]. destruct (sigHash h); [|done..]. cbn [bind]. destruct (signFn _ _) as [sig| | |]; [|done..]. cbn [bind].
  intros [= _ <- _ _ _]. eexists. split; [reflexivity|]. split; [|done]. rewrite !length_app, length_drop, !length_take. unfold extraSeal. lia.
Qed.

(** C14: a block of the worker is accepted: a block that [commitNewWork] assembles
    on the head of the chain and that the engine seals has a header that every
    node verifies once its time has come, and a body that every node with the
    head and its state finds valid; however many transactions were packed, and
    whether their packing was interrupted. *)
Theorem mined_block_accepted g l bc c w pool now interrupt noempty timestamp out w' c' t c2 w2 now2 prev delay b hash w3 c3 later :
  reached g l bc → DAOForkBlock (chainConfig bc) = None → EIP150Hash (chainConfig bc) = zeroHash →
  0 < Epoch (bsrr_config c) → 0 ≤ Period (bsrr_config c) → now < two63 →
  (∀ top, currentBlock bc = Some top → 0 ≤ Time (block_header top) ∧ Time (block_header top) + Period (bsrr_config c) < two63) →
  commitNewWork noRecursion preimages bc c w pool now interrupt noempty timestamp = Ok (out, w', c') → newTask t ∈ out →
  handle_task bc c2 w2 now2 prev t = Ok (Some (delay, b), hash, w3, c3) →
  bc_HasBlockAndState bc (Block_Hash b) (NumberU64 b) = false → Time (block_header b) ≤ later →
  verifyHeader c (reader_of bc) later (block_header b) [] = Ok tt ∧ ValidateBody bc b = Ok None.
Proof using.
  intros HR Hdao Hfork Hepoch Hperiod Hnow Htime Hwork Hin Htask Hnew Hlater. pose proof (reached_lawful _ _ _ HR) as HL. destruct (reached_inv _ _ _ HR) as (top & Inv & _).
  destruct (commitNewWork_tasks _ _ _ _ _ _ _ _ _ _ _ _ Hdao Hwork Hin) as (parent & ts & h & c1 & s & Ecur & Eprep & Estate & Hk).
  assert (parent = top) as -> by (pose proof (iv_current _ _ _ Inv); congruence). destruct (Htime top Ecur) as [Ht0 Ht1].
  pose proof (bo_stored _ _ (iv_branch _ _ _ Inv)) as Hst. destruct (stored_number g _ _ (iv_store _ _ _ Inv) Hst) as [Hn _].
  pose proof Hst as [Hhd _]%ReadBlock_Some.
  destruct (so_header _ _ (iv_store _ _ _ Inv) _ _ _ Hhd) as (_ & Enum & _ & _).
  assert (Enn : num (block_header top) = NumberU64 top) by (unfold num; by rewrite Enum).
  set (n := NumberU64 top + 1). assert (Hu : is_u64 n) by (unfold is_u64, n, maxUint64 in *; lia).
  assert (En : Number (new_header bc w top ts) = Some n) by (unfold n; simpl; by rewrite Enn).
  assert (Ehd : GetHeader (reader_of bc) (Block_Hash top) (n - 1) = Some (block_header top)) by (unfold n; rewrite Z.add_simpl_r; exact Hhd).
  destruct (Prepare_header c c1 (reader_of bc) now (new_header bc w top ts) h n (block_header top)) as (diff & rank & time & -> & Hrank & Htm); try done; [unfold n; lia|].
  destruct (handle_task_sealed _ _ _ _ _ _ _ _ _ _ _ Htask) as (extra & Eh & Elen & Etx & Eun). destruct Hk as [[K1 K2 K3 K4 K5 K6 _] [U1 U2] Kr].
  split.
  - rewrite Eh in Hlater |- *. apply (prepared_passes (reader_of bc) HL c _ (block_header top) n rank later); try done.
    + cbn [with_Extra Number]. by rewrite K2.
    + unfold n; lia.
    + cbn [with_Extra ParentHash]. rewrite K1. exact Ehd.
    + cbn [with_Extra Time]. rewrite K3. simpl. lia.
    + cbn [with_Extra Time] in Hlater |- *. rewrite K3 in Hlater |- *. simpl in Hlater |- *. lia.
    + cbn [with_Extra Extra]. rewrite Elen, K4. apply preparedExtra_length.
  - assert (Eb : u64 (NumberU64 b - 1) = NumberU64 top).
    { unfold NumberU64 at 1, num. rewrite Eh. cbn [with_Extra Number]. rewrite K2. cbn [with_prepared Number]. rewrite En. cbn [default from_option id].
      rewrite big_Uint64_small, u64_small by (unfold is_u64, n in *; lia). unfold n. lia. }
    unfold ValidateBody. rewrite Hnew. unfold VerifyUncles. rewrite Eun, U1, Etx, Kr, Eb, Eh. cbn [with_Extra UncleHash TxHash ParentHash bind].
    rewrite U2, bool_decide_eq_true_2 by done. cbn [negb]. rewrite bool_decide_eq_true_2 by done. cbn [negb]. rewrite K1. cbn [with_prepared ParentHash new_header].
    unfold bc_HasBlockAndState, bc_GetBlock. unfold stored in Hst. rewrite Hst. unfold HasState. unfold New in Estate. by destruct (OpenTrie _ _).
Qed.
End Mined.
