(* ===== verification/WorkerWitness.v ===== *)
(** * The worker at work

    A miner on the toy chain of [ChainWitness], on which the theorems about the
    worker are applied. *)

From Stdlib Require Import ZArith Lia SpecFloat.
From stdpp Require Import base option list gmap sets strings.
From S2P Require Import Prelude GoFloat Params Group Rlp Types Account State StateRevert Funds Receipt DeriveSha Chain ChainStore HeaderChain.
From S2P Require Import Staking Dao Transition Evm EvmProps TransitionProps Selection Heap TxList ManagedState TxPool TxPoolProps TxOrder Bsrr BsrrProps BsrrStakers BsrrBlocks.
From S2P Require Import BlockChain BlockChainLoad BlockChainProps ChainInvariant ChainReach BlockInsert ChainImport ChainWitness Worker WorkerProps.

Module ToyMiner.
#[local] Existing Instances ToyChain.toyCrypto ToyState.toyDatabase ToyChain.toyRange ToyChain.toyRand ToyChain.toySha ToyForks.toyInterpreter ToyForks.toyDisk ToyForks.toyQueue ToyPool.toyNonces.
Import ToyForks.

(** ** A block *)

Definition pool : TxPool := {|
  config := DefaultTxPoolConfig; chainconfig := MainnetChainConfig; gasPrice := 1; TxPool.signer := EIP155Signer 0;
  currentState := s0; pendingState := {| ms_state := s0; ms_accounts := ∅ |}; currentMaxGas := 0;
  locals := {| accounts := ∅; as_signer := EIP155Signer 0 |}; journal := None;
  pending := ∅; TxPool.queue := ∅; beats := ∅; all := ∅; priced := newTxPricedList; homestead := false |}.

Definition w0 : worker := {|
  w_gasFloor := 8000000; w_gasCeil := 8000000; w_current := None; w_localUncles := ∅; w_remoteUncles := ∅; w_unconfirmed := [];
  w_coinbase := staker; w_extra := []; w_pendingTasks := ∅; w_snapshot := None; w_running := true |}.

Definition miner_engine : BSRR := Authorize engine staker (λ _, Ok (replicate 65 1)).

Definition no_task0 : task := {| task_receipts := []; task_state := s0; task_block := no_block |}.
Definition work : list sent * worker * BSRR := value ([], w0, miner_engine) (commitNewWork false false bc0 miner_engine w0 pool 1000 (λ _ _ _, 0) false 1000).
Definition made : task := match work.1.1 with newTask t :: _ => t | _ => no_task0 end.
Definition sealed : option (Z * Block) * Hash * worker * BSRR := value (None, [], w0, miner_engine) (handle_task bc0 miner_engine w0 1000 [] made).
Definition mined : Block := match sealed.1.1.1 with Some (_, b) => b | None => no_block end.
Definition delay : Z := match sealed.1.1.1 with Some (d, _) => d | None => 0 end.

Lemma work_ok : commitNewWork false false bc0 miner_engine w0 pool 1000 (λ _ _ _, 0) false 1000 = Ok (work.1.1, work.1.2, work.2).
Proof.
  assert (H : is_ok (commitNewWork false false bc0 miner_engine w0 pool 1000 (λ _ _ _, 0) false 1000) = true) by (vm_compute; reflexivity).
  rewrite <- !surjective_pairing. exact (value_ok _ _ H).
Qed.

Lemma first_task (l : list sent) :
  match l with newTask _ :: _ => true | _ => false end = true → newTask (match l with newTask t :: _ => t | _ => no_task0 end) ∈ l.
Proof. destruct l as [|[| |t] l]; try done. by left. Qed.

Lemma made_sent : newTask made ∈ work.1.1.
Proof. apply first_task. vm_compute. reflexivity. Qed.

Lemma sealed_pair (r : option (Z * Block) * Hash * worker * BSRR) :
  match r.1.1.1 with Some _ => true | None => false end = true →
  r = (Some (match r.1.1.1 with Some (d, _) => d | None => 0 end, match r.1.1.1 with Some (_, b) => b | None => no_block end), r.1.1.2, r.1.2, r.2).
Proof. by destruct r as [[[[[d b]|] h] w] c]. Qed.

Lemma sealed_ok : handle_task bc0 miner_engine w0 1000 [] made = Ok (Some (delay, mined), sealed.1.1.2, sealed.1.2, sealed.2).
Proof.
  assert (H : is_ok (handle_task bc0 miner_engine w0 1000 [] made) = true) by (vm_compute; reflexivity).
  assert (H' : match sealed.1.1.1 with Some _ => true | None => false end = true) by (vm_compute; reflexivity).
  etrans; [exact (value_ok (None, [], w0, miner_engine) _ H)|]. exact (f_equal Ok (sealed_pair sealed H')).
Qed.

Lemma head0 top : currentBlock bc0 = Some top →
  0 ≤ Time (block_header top) ∧ Time (block_header top) + Period (bsrr_config miner_engine) < two63.
Proof.
  assert (E : match currentBlock bc0 with Some b => (0 <=? Time (block_header b)) && (Time (block_header b) + Period (bsrr_config miner_engine) <? two63) | None => false end = true)
    by (vm_compute; reflexivity).
  intros H. rewrite H in E. apply andb_true_iff in E as [E1 E2]. split; [by apply Z.leb_le|by apply Z.ltb_lt].
Qed.

Lemma mined_new : bc_HasBlockAndState bc0 (Block_Hash mined) (NumberU64 mined) = false.
Proof. vm_compute. reflexivity. Qed.
Lemma mined_time : Time (block_header mined) ≤ 1000.
Proof. apply Z.leb_le. vm_compute. reflexivity. Qed.

Lemma mined_block_accepted_witness : verifyHeader miner_engine (reader_of bc0) 1000 (block_header mined) [] = Ok tt ∧ ValidateBody bc0 mined = Ok None.
Proof.
  apply (mined_block_accepted false false g [] bc0 miner_engine w0 pool 1000 (λ _ _ _, 0) false 1000 work.1.1 work.1.2 work.2 made miner_engine w0 1000 [] delay mined
    sealed.1.1.2 sealed.1.2 sealed.2 1000 reached0); [vm_compute; reflexivity|vm_compute; reflexivity|vm_compute; reflexivity|vm_compute; discriminate|reflexivity
    |exact head0|exact work_ok|exact made_sent|exact sealed_ok|exact mined_new|exact mined_time].
Defined.
(** ** Transactions *)

(** Payments of one account; the nonce of the second is too high. *)
Definition pay_at (nonce : Z) : txdata := {|
  AccountNonce := nonce; Price := 1; TxGasLimit := 21000; Recipient := Some (replicate 20 9); Amount := 5; Payload := []; Base := Main; Target := Main;
  V := 27; R := 1; S_ := 1 |}.
Definition sg : Signer := NewEIP155Signer (ChainID MainnetChainConfig).
Definition payer : Address := value zeroAddress (Signer_Sender sg (pay_at 0)).
Definition rich : StateDB := ToyState.toy_state {[ payer := ToyState.toy_object payer 100000 [] ]}.
Definition env0 : environment := {|
  env_signer := sg; env_state := rich; env_ancestors := ∅; env_family := ∅; env_uncles := ∅; env_tcount := 0; env_gasPool := Some 94000000;
  env_header := block_header v1; env_txs := []; env_receipts := [] |}.

Definition queued : gmap Address (list txdata) := {[ payer := [pay_at 0; pay_at 2] ]}.

Lemma payments_ok : queues_ok sg queued.
Proof.
  unfold queued. intros a l H. apply lookup_singleton_Some in H as [<- <-]. split; [discriminate|].
  assert (E : Signer_Sender sg (pay_at 0) = Ok payer ∧ Signer_Sender sg (pay_at 2) = Ok payer) by (split; vm_compute; reflexivity).
  destruct E as [E0 E2]. intros tx [->|[->|H%elem_of_nil]%elem_of_cons]%elem_of_cons; [exact E0|exact E2|done].
Qed.


#[local] Instance minerLaws : InterpreterLaws.
Proof.
  split; [intros b; apply set_bytes_length|intros; simpl; lia|by left|]. simpl. intros evm c input ro s Hg Hgas. split_and!; try done. apply acts_refl.
Qed.

Lemma payer_good : EvmProps.good rich.
Proof.
  split; [|by split]. unfold rich. generalize payer. intros a. split; simpl; try done; intros b o; rewrite lookup_singleton_Some; by intros [<- <-].
Qed.

Definition failed : StateDB * Z * Z :=
  match ApplyTransaction MainnetChainConfig (reader_of bc0) staker false false 94000000 (Snapshot rich).2 (env_header env0) (pay_at 2) 0 with
  | Ok (_, s, gp, used) => (s, gp, used)
  | _ => (rich, 0, 0)
  end.

Lemma failed_pair (r : result ((Receipt * Z + string) * StateDB * Z * Z)) d e :
  match r with Ok (inr e', _, _, _) => bool_decide (e' = e) | _ => false end = true →
  r = Ok (inr e, (match r with Ok (_, s, gp, used) => (s, gp, used) | _ => d end).1.1, (match r with Ok (_, s, gp, used) => (s, gp, used) | _ => d end).1.2,
          (match r with Ok (_, s, gp, used) => (s, gp, used) | _ => d end).2).
Proof. destruct r as [[[[[?|e'] s] gp] used]| | |]; try done. by intros ->%bool_decide_eq_true. Qed.

Lemma failed_transaction_no_trace_witness :
  ∃ s', commitTransaction false false MainnetChainConfig (reader_of bc0) env0 (pay_at 2) staker = Ok (inr ErrNonceTooHigh, put_env env0 s' (Some failed.1.2) (env_header env0)) ∧
    state_equiv false s' rich.
Proof.
  assert (E : ApplyTransaction MainnetChainConfig (reader_of bc0) staker false false 94000000 (Snapshot rich).2 (env_header env0) (pay_at 2) 0 =
              Ok (inr ErrNonceTooHigh, failed.1.1, failed.1.2, failed.2)) by (apply failed_pair; vm_compute; reflexivity).
  assert (E0 : GasUsed (env_header env0) = 0) by (vm_compute; reflexivity).
  destruct (failed_transaction_no_trace false false MainnetChainConfig (reader_of bc0) env0 (pay_at 2) staker 94000000 ErrNonceTooHigh failed.1.1 failed.1.2 failed.2)
    as (s' & H1 & H2 & _ & _).
  - exact payer_good.
  - vm_compute. split; [discriminate|reflexivity].
  - vm_compute. discriminate.
  - reflexivity.
  - rewrite E0. exact E.
  - exists s'. exact (conj H1 H2).
Defined.
End ToyMiner.
